(* ===== verification/_CoqProject ===== *)
-Q . S2P
Prelude.v
Words.v
Codec.v
VByte.v
LogArrays.v
BitArrays.v
BitIndexes.v
AdjacencyLists.v
WaveletTrees.v
Strings.v
PfcBlocks.v
PfcDicts.v
DictMerge.v
LayerTypes.v
LayerModel.v
Triples.v
TripleBuilder.v
TripleStreams.v
SortedStreams.v
IdMaps.v
Iterators.v
Stacks.v
InternalLayers.v
LayerNames.v
LayerTriples.v
LayerRefinement.v
LayerBuilders.v
BuiltLayers.v
Rollups.v
SimpleBuilder.v
Commits.v
StoreMonad.v
Names.v
Labels.v
FileNames.v
Files.v
Directories.v
DiskStores.v
MemoryFiles.v
StoreRefinement.v
Packs.v
Caches.v
LayerStores.v
StoredLayers.v
LayerWrites.v
LoadedLayers.v
StoredAnswers.v
StoreGrowth.v
AncestorRollups.v
StoreViews.v
StoreReads.v
PackedLayers.v
CachedStores.v
Stores.v
StoreSpecs.v
StoreChanges.v
Executions.v
SyncStores.v
StoreTheorems.v
RollupTheorems.v
QuestionTheorems.v
PackTheorems.v
