(* ===== verification/Prelude.v ===== *)
(** * Verification of terminus-store

    terminus-store keeps graphs of triples in immutable layers.  A base layer
    has dictionaries of the strings of nodes, predicates and values and indexes
    of its triples; a child layer has the strings and the triples that it adds
    to its parent and the triples that it takes away.  Layers are directories
    of files, in memory or in a file system; labels are the mutable pointers to
    layers.  This development translates the program file by file into
    executable definitions, and proves each part against a specification that
    the parts above it use.

    ** The parts, from the bottom up

    - Prelude: outcomes ([Ok], [Err], panic), lists indexed by [N], checked
      machine arithmetic, tactics and hints.  Words, Codec: machine words and
      the framing of byte streams.
    - src/structure: VByte (vbyte.rs), LogArrays (logarray.rs), BitArrays
      (bitarray.rs), BitIndexes (bitindex.rs), AdjacencyLists
      (adjacencylist.rs), WaveletTrees (wavelettree.rs), Strings, PfcBlocks and
      PfcDicts (pfc.rs).  Each structure is written by its builder and read
      from its bytes; the theorems are round trips and what rank, select,
      lookup and search give.
    - src/layer: LayerTypes (layer.rs: the trait [Layer] as a type class, with
      its provided methods) and LayerModel (what the trait promises: the class
      [LayerLaws] over an abstract [layer_model] of names and triples).
      Triples, TripleBuilder (builder.rs), TripleStreams (the streams of the
      triples of files, poll by poll), SortedStreams (util.rs), DictMerge and IdMaps (id_map.rs),
      Iterators and Stacks (internal/*_iterator.rs), InternalLayers, LayerNames,
      LayerTriples (internal/mod.rs), LayerRefinement (the stack of layers
      satisfies [LayerLaws]), LayerBuilders and BuiltLayers (internal/base.rs
      and child.rs: what is built is loaded with the intended model), Rollups
      (storage/delta.rs), SimpleBuilder and Commits (simple_builder.rs).
    - src/storage: StoreMonad (effects as state passing), Names and Labels
      (label.rs, and the label stores of memory.rs and directory.rs), FileNames
      and Files (file.rs, consts.rs), Directories (the trait
      PersistentLayerStore of layer.rs as a type class), DiskStores (both
      stores of directories, the disk they show and the class [DiskLaws]),
      MemoryFiles (the writers and readers of memory.rs, piece by piece),
      StoreRefinement (whatever is written over the classes does on every store
      what it does on the disk it shows), Packs (pack.rs), Caches (cache.rs),
      LayerStores
      (loading layers, walks and questions to files: layer.rs), LayerWrites
      (creating, committing and rolling up layers: layer.rs, delta.rs; its
      Module Provided has the provided methods of the trait LayerStore),
      StoredLayers, LoadedLayers and StoreGrowth (what is on the disk is what
      is loaded, and how it grows), StoredAnswers (what the files of one layer
      answer about its names and changes), AncestorRollups (rollups up to an
      ancestor), StoreViews and StoreReads (the same on every store),
      PackedLayers (what exporting and importing do to the disk), CachedStores
      (CachedLayerStore of cache.rs).
    - src/store: Stores (mod.rs: stores, builders, layers, named graphs),
      SyncStores (sync.rs: the same in blocking calls),
      StoreSpecs and StoreTheorems (what the API does), StoreChanges (the
      strings of triples, squashes and diffs), RollupTheorems (rollups up to an
      ancestor), QuestionTheorems (the changes and names of one layer),
      PackTheorems (layers carried from one store to another), Executions
      (programs over the API, run on a store in memory).

    A theorem about a part is proved against the class of laws of the part
    below, and the part below has an instance: [LayerLaws] for the layers,
    [LabelStoreLaws] for the two label stores, [DiskLaws] for the two stores of
    directories, [CacheLaws] for the caches.

    ** How code is translated

    A function that returns a result is an [outcome], one that can only panic an
    [option]; a method on a store is a step from the state of the store to a
    new one ([io]).  Machine integers are numbers [N] with checked or wrapping
    arithmetic at their width: overflow panics as in a debug build, and the
    flag [debug] says whether debug assertions are compiled in.  Files are read
    and written whole, which for files in memory is what pieces come to
    (MemoryFiles); the tasks that the code spawns and joins run one after
    the other; a handle that is cloned is the same state.

    What the code takes from outside is a type class whose laws say what is
    relied on, each with an instance that the witnesses use: [FramedRead]
    (tokio_util's framed reading in pieces), [Log2F32] (the logarithm of a
    32-bit float), [ParSort] and [RayonSort] (rayon's sorts), [ParBridge]
    (rayon's iteration in any order), [BytesSize] (the size of a handle in the
    bytes crate), [PackFormat] (the archives of tar and flate2: what is written
    is read back), [Peekable] (streams of the futures crate: peeking keeps the
    element, and a stream is pending finitely often).  The random name of a new
    directory is an argument.

    ** Bounds and fuel

    Loops that the code ends by itself are structural, or run with fuel that is
    computed from the data and shown to be enough (iterators: one step more
    than there are pairs).  Walks along the parents of stored layers take fuel
    as an argument; loading takes at most two steps for every layer of the
    stack ([LoadedLayers.get_layer_spec]), the other walks one.  The hypotheses
    on sizes ([layer_input], [commit_input], [merge_input]) say that ids and
    positions fit the widths of the files; a width is at most 57, since a
    wavelet tree allocates two to the power of its width
    (WaveletTrees.create_fragments_limit).

    ** Conditions on input

    The code takes any strings and ids, but is right about some only.  The
    theorems state what they need, and Executions runs the model on the rest:
    - no empty strings in what is added to or removed from a layer with a
      parent, or asked for: a dictionary without strings finds the empty string
      under id 1 (empty_string_found, empty_subject_is_value);
    - no zero bytes in strings that are added, since a zero byte ends a string
      in the file of a dictionary (zero_byte_loses_triple);
    - ids that are added are in use in the parent (unused_id_becomes_string), and
      for triples to have a form with strings, of the right kind
      (squash_value_subject_panics);
    - layers that are rolled up were not loaded from rollups, and are not rollups
      of others (second_rollup_swaps_predicates, rollup_through_rollup_panics,
      rollup_upto_after_rollup_panics).

    ** Groups of theorems

    Round trips of every file format; the answers of every index; a loaded
    stack of layers is the model it was built from, for every question of the
    trait; a commit makes exactly the changes that were asked for; rollups keep
    the model; concurrent updates of a label; loading from a store, committing
    to it and rolling up in it, fully or to an ancestor, keep what every layer of
    the store means; triples that are committed have forms with
    strings; what a layer
    adds and removes and its names are the same from the cache and from files;
    packs carry layers from any store to any other; streams give the triples of files
    however often they are pending; what the API of the store does with labels,
    builders, squashes and diffs.

    ** What is not modelled

    locking.rs calls the operating system; mapped_dict.rs and new_memory.rs are
    not compiled.  An operation on a directory of labels is one step, as the
    lock on the file makes it; but a label file is created before it is locked,
    and Labels.between_steps_of_create shows what others see in between: an
    empty file, which is an error to them and to no other label.  The buffering of files of a file system and partial writes
    are left out: the model writes a file when its contents are complete, so
    what a crash or a failed write leaves behind is not described. *)

From Stdlib Require Export NArith ZArith Lia Bool.
From stdpp Require Export base tactics option list numbers sorting.

#[global] Set Default Goal Selector "!".

Declare Scope store_scope.
Delimit Scope store_scope with store.
#[global] Open Scope store_scope.

(** ** Outcomes

    A Rust function that returns [Result<A, E>] returns [Ok] or [Err], or
    panics.  A function that can only return or panic is modelled with
    [option], [None] being the panic. *)

Inductive outcome (E A : Type) : Type :=
| Ok (a : A)
| Err (e : E)
| Panic.

Arguments Ok {E A} a.
Arguments Err {E A} e.
Arguments Panic {E A}.

#[export] Instance outcome_ret {E} : MRet (outcome E) := fun A a => Ok a.
#[export] Instance outcome_bind {E} : MBind (outcome E) := fun A B f m =>
  match m with
  | Ok a => f a
  | Err e => Err e
  | Panic => Panic
  end.
#[export] Instance outcome_fmap {E} : FMap (outcome E) := fun A B f m =>
  match m with
  | Ok a => Ok (f a)
  | Err e => Err e
  | Panic => Panic
  end.

(** A computation that can only panic, inside one that can also fail. *)
Definition or_panic {E A} (m : option A) : outcome E A :=
  match m with
  | Some a => Ok a
  | None => Panic
  end.

(** [r.unwrap()] and [r.expect(..)]. *)
Definition unwrap {E A} (m : outcome E A) : option A :=
  match m with
  | Ok a => Some a
  | _ => None
  end.

(** [?] with the [From] conversion of the error type. *)
Definition map_err {E F A} (f : E -> F) (m : outcome E A) : outcome F A :=
  match m with
  | Ok a => Ok a
  | Err e => Err (f e)
  | Panic => Panic
  end.

(** [assert!(b)]. *)
Definition assert_ (b : bool) : option () := if b then Some () else None.

Lemma assert_true b : b = true -> assert_ b = Some ().
Proof. by intros ->. Qed.

Lemma assert_Some b u : assert_ b = Some u <-> b = true.
Proof. by destruct b, u. Qed.

(** The kinds of [std::io::Error] the code itself raises. *)
Inductive io_error : Type := InvalidData | UnexpectedEof | NotFound | InvalidInput | Other.

#[export] Instance io_error_eq_dec : EqDecision io_error.
Proof. solve_decision. Defined.

(** ** Indexing with machine integers *)

Definition lenN {A} (l : list A) : N := N.of_nat (length l).

Definition nget {A} (l : list A) (i : N) : option A := l !! N.to_nat i.
Notation "l .[ i ]" := (nget l i) (at level 1, i at level 200, left associativity, format "l .[ i ]") : store_scope.

Definition takeN {A} (n : N) (l : list A) : list A := take (N.to_nat n) l.
Definition dropN {A} (n : N) (l : list A) : list A := drop (N.to_nat n) l.

(** [a..a + n]. *)
Definition seqN (a n : N) : list N := (fun i => a + N.of_nat i)%N <$> seq 0 (N.to_nat n).

(** [&l[n..]]: panics when [n] is past the end. *)
Definition slice_from {A} (n : N) (l : list A) : option (list A) :=
  if (n <=? lenN l)%N then Some (dropN n l) else None.
(** [&l[..n]]. *)
Definition slice_to {A} (n : N) (l : list A) : option (list A) :=
  if (n <=? lenN l)%N then Some (takeN n l) else None.

Lemma lenN_nil A : lenN (@nil A) = 0%N.
Proof. done. Qed.
Lemma lenN_cons {A} (x : A) l : lenN (x :: l) = (1 + lenN l)%N.
Proof. unfold lenN. simpl. lia. Qed.
Lemma lenN_app {A} (l k : list A) : lenN (l ++ k) = (lenN l + lenN k)%N.
Proof. unfold lenN. rewrite length_app. lia. Qed.
Lemma lenN_map {A B} (f : A -> B) l : lenN (f <$> l) = lenN l.
Proof. unfold lenN. by rewrite length_fmap. Qed.
Lemma lenN_takeN {A} n (l : list A) : lenN (takeN n l) = N.min n (lenN l).
Proof. unfold lenN, takeN. rewrite length_take. lia. Qed.
Lemma lenN_dropN {A} n (l : list A) : lenN (dropN n l) = (lenN l - n)%N.
Proof. unfold lenN, dropN. rewrite length_drop. lia. Qed.
Lemma lenN_replicate {A} n (x : A) : lenN (replicate n x) = N.of_nat n.
Proof. unfold lenN. by rewrite length_replicate. Qed.

Create Rewrite HintDb lenN.
#[export] Hint Rewrite @lenN_nil @lenN_cons @lenN_app @lenN_map @lenN_takeN @lenN_dropN
  @lenN_replicate : lenN.

Lemma nget_lt {A} (l : list A) i : (i < lenN l)%N -> is_Some (l.[i]).
Proof. unfold nget, lenN. intros. apply lookup_lt_is_Some. lia. Qed.
Lemma nget_Some_lt {A} (l : list A) i x : l.[i] = Some x -> (i < lenN l)%N.
Proof. unfold nget, lenN. intros ?%lookup_lt_Some. lia. Qed.
Lemma nget_None {A} (l : list A) i : l.[i] = None <-> (lenN l <= i)%N.
Proof. unfold nget, lenN. rewrite lookup_ge_None. lia. Qed.
Lemma nget_app_l {A} (l k : list A) i : (i < lenN l)%N -> (l ++ k).[i] = l.[i].
Proof. unfold nget, lenN. intros. apply lookup_app_l. lia. Qed.
Lemma nget_app_r {A} (l k : list A) i : (lenN l <= i)%N -> (l ++ k).[i] = k.[i - lenN l].
Proof. unfold nget, lenN. intros. rewrite lookup_app_r by lia. f_equal. lia. Qed.
Lemma nget_cons_0 {A} (x : A) l : (x :: l).[0] = Some x.
Proof. done. Qed.
Lemma nget_cons_pos {A} (x : A) l i : (0 < i)%N -> (x :: l).[i] = l.[i - 1].
Proof.
  unfold nget. intros. replace (N.to_nat i) with (S (N.to_nat (i - 1))) by lia. done.
Qed.
Lemma nget_nil {A} i : (@nil A).[i] = None.
Proof. done. Qed.
Lemma nget_map {A B} (f : A -> B) l i : (f <$> l).[i] = f <$> l.[i].
Proof. apply list_lookup_fmap. Qed.
Lemma nget_dropN {A} n (l : list A) i : (dropN n l).[i] = l.[n + i].
Proof. unfold nget, dropN. rewrite lookup_drop. f_equal. lia. Qed.
Lemma nget_takeN {A} n (l : list A) i : (i < n)%N -> (takeN n l).[i] = l.[i].
Proof. unfold nget, takeN. intros. apply lookup_take_lt. lia. Qed.
Lemma nget_last {A} (l : list A) x : (l ++ [x]).[lenN l] = Some x.
Proof. rewrite nget_app_r by lia. by rewrite N.sub_diag. Qed.
Lemma nget_elem {A} (l : list A) i x : l.[i] = Some x -> x ∈ l.
Proof. apply list_elem_of_lookup_2. Qed.
Lemma elem_nget {A} (l : list A) x : x ∈ l -> exists i, l.[i] = Some x.
Proof.
  intros [i Hi]%list_elem_of_lookup. exists (N.of_nat i). unfold nget. by rewrite Nat2N.id.
Qed.
Lemma list_eq_nget {A} (l k : list A) : (forall i, l.[i] = k.[i]) -> l = k.
Proof.
  intros H. apply list_eq. intros i. specialize (H (N.of_nat i)).
  unfold nget in H. by rewrite Nat2N.id in H.
Qed.
Lemma Forall_nget {A} (P : A -> Prop) l i x : Forall P l -> l.[i] = Some x -> P x.
Proof. intros. by eapply Forall_lookup_1. Qed.

Lemma slice_from_Some {A} n (l : list A) : (n <= lenN l)%N -> slice_from n l = Some (dropN n l).
Proof. unfold slice_from. intros ?%N.leb_le. by rewrite H. Qed.
Lemma slice_to_Some {A} n (l : list A) : (n <= lenN l)%N -> slice_to n l = Some (takeN n l).
Proof. unfold slice_to. intros ?%N.leb_le. by rewrite H. Qed.

Lemma dropN_0 {A} (l : list A) : dropN 0 l = l.
Proof. done. Qed.
Lemma takeN_0 {A} (l : list A) : takeN 0 l = [].
Proof. done. Qed.
Lemma dropN_dropN {A} n m (l : list A) : dropN n (dropN m l) = dropN (m + n) l.
Proof. unfold dropN. rewrite drop_drop. f_equal. lia. Qed.
Lemma dropN_app {A} (l k : list A) : dropN (lenN l) (l ++ k) = k.
Proof. unfold dropN, lenN. rewrite Nat2N.id. apply drop_app_length. Qed.
Lemma takeN_app {A} (l k : list A) : takeN (lenN l) (l ++ k) = l.
Proof. unfold takeN, lenN. rewrite Nat2N.id. apply take_app_length. Qed.
Lemma takeN_dropN {A} n (l : list A) : takeN n l ++ dropN n l = l.
Proof. apply take_drop. Qed.

Lemma dropN_cons {A} (l : list A) i x : l.[i] = Some x -> dropN i l = x :: dropN (i + 1) l.
Proof.
  intros Hx. unfold dropN. replace (N.to_nat (i + 1)) with (S (N.to_nat i)) by lia. by apply drop_S.
Qed.

(** [v[i] = x]: panics out of range. *)
Definition nset {A} (l : list A) (i : N) (x : A) : option (list A) :=
  if (i <? lenN l)%N then Some (<[N.to_nat i := x]> l) else None.

(** [&l[a..b]]: panics unless [a <= b <= len]. *)
Definition slice_range {A} (a b : N) (l : list A) : option (list A) :=
  if ((a <=? b) && (b <=? lenN l))%N then Some (takeN (b - a) (dropN a l)) else None.

Lemma slice_range_Some {A} a b (l : list A) : (a <= b <= lenN l)%N ->
  slice_range a b l = Some (takeN (b - a) (dropN a l)).
Proof. intros [Ha%N.leb_le Hb%N.leb_le]. unfold slice_range. by rewrite Ha, Hb. Qed.

(** [l.iter().position(|x| x == c)]. *)
Fixpoint position (c : N) (l : list N) : option N :=
  match l with
  | [] => None
  | x :: l => if (x =? c)%N then Some 0%N else N.succ <$> position c l
  end.

(** ** Iterating a stateful step *)

Section fold_outcome.
Context {E S A : Type} (step : S -> A -> outcome E S).

(** [for x in xs { step(x)?; }] *)
Fixpoint fold_outcome (s : S) (xs : list A) : outcome E S :=
  match xs with
  | [] => Ok s
  | x :: xs => s' ← step s x; fold_outcome s' xs
  end.

Lemma fold_outcome_app s xs ys :
  fold_outcome s (xs ++ ys) = s' ← fold_outcome s xs; fold_outcome s' ys.
Proof.
  revert s. induction xs as [|x xs IH]; intros s; simpl; [done|].
  destruct (step s x); simpl; [apply IH|done|done].
Qed.

Lemma fold_outcome_snoc s xs x :
  fold_outcome s (xs ++ [x]) = s' ← fold_outcome s xs; step s' x.
Proof.
  rewrite fold_outcome_app. destruct (fold_outcome s xs) as [s'| |]; simpl; [|done|done].
  by destruct (step s' x).
Qed.
End fold_outcome.

(** A source without errors. *)
Lemma fold_outcome_Ok {E S A} (step : S -> A -> outcome E S) s xs :
  fold_outcome (fun s x => x ← x; step s x) s (Ok <$> xs) = fold_outcome step s xs.
Proof.
  revert s. induction xs as [|x xs IH]; intros s; cbn [fmap list_fmap fold_outcome]; [done|].
  change ((Ok x ≫= (fun x => step s x))) with (step s x). destruct (step s x); [apply IH|done|done].
Qed.

(** ** Tactics *)

(** [lia] that also knows division and modulo. *)
Ltac dlia := zify; Z.to_euclidean_division_equations; lia.

(** Runs the binds at the head of a computation whose first step is known. *)
Ltac mcbn := cbn [mbind outcome_bind option_bind or_panic mret outcome_ret option_ret
                  unwrap map_err fst snd].

(** The same by rewriting, for continuations that are costly to compare. *)
Lemma bind_Some_eq {A B} (f : A -> option B) x : (Some x ≫= f) = f x.
Proof. done. Qed.
Lemma bind_Ok_eq {E A B} (f : A -> outcome E B) x : (Ok x ≫= f) = f x.
Proof. done. Qed.

(** A computation that ends well went well at every step. *)
Lemma outcome_bind_inv {E A B} (m : outcome E A) (f : A -> outcome E B) b : m ≫= f = Ok b -> exists a, m = Ok a /\ f a = Ok b.
Proof. destruct m as [a|e|]; [by exists a|done|done]. Qed.
Lemma or_panic_inv {E A} (m : option A) a : or_panic (E := E) m = Ok a -> m = Some a.
Proof. destruct m; cbn; congruence. Qed.
Lemma map_err_inv {E F A} (f : E -> F) (m : outcome E A) a : map_err f m = Ok a -> m = Ok a.
Proof. destruct m; cbn; congruence. Qed.
Lemma unwrap_inv {E A} (m : outcome E A) a : unwrap m = Some a -> m = Ok a.
Proof. destruct m; cbn; congruence. Qed.

(** Case analysis on the boolean comparisons of the code. *)
Ltac case_cmp :=
  repeat match goal with
  | H : context [(?a =? ?b)%N] |- _ => destruct (N.eqb_spec a b)
  | H : context [(?a <? ?b)%N] |- _ => destruct (N.ltb_spec a b)
  | H : context [(?a <=? ?b)%N] |- _ => destruct (N.leb_spec a b)
  | |- context [(?a =? ?b)%N] => destruct (N.eqb_spec a b)
  | |- context [(?a <? ?b)%N] => destruct (N.ltb_spec a b)
  | |- context [(?a <=? ?b)%N] => destruct (N.leb_spec a b)
  end.

(** Rewrites a boolean test whose result [lia] can establish. *)
Ltac ncmp :=
  repeat match goal with
  | |- context [(?a =? ?b)%N] =>
      first [ replace (a =? b)%N with true by (symmetry; apply N.eqb_eq; lia)
            | replace (a =? b)%N with false by (symmetry; apply N.eqb_neq; lia) ]
  | |- context [(?a <? ?b)%N] =>
      first [ replace (a <? b)%N with true by (symmetry; apply N.ltb_lt; lia)
            | replace (a <? b)%N with false by (symmetry; apply N.ltb_ge; lia) ]
  | |- context [(?a <=? ?b)%N] =>
      first [ replace (a <=? b)%N with true by (symmetry; apply N.leb_le; lia)
            | replace (a <=? b)%N with false by (symmetry; apply N.leb_gt; lia) ]
  end.

Ltac len_simpl := autorewrite with lenN in *.

Lemma position_app c l k : Forall (fun x => x <> c) l -> position c (l ++ c :: k) = Some (lenN l).
Proof.
  induction 1 as [|x l Hx _ IH]; cbn [position app]; [by rewrite N.eqb_refl|].
  rewrite IH. destruct (N.eqb_spec x c); [done|]. cbn. f_equal. unfold lenN. simpl. lia.
Qed.

Lemma position_None c l : Forall (fun x => x <> c) l -> position c l = None.
Proof.
  induction 1 as [|x l Hx _ IH]; cbn [position]; [done|]. rewrite IH. by destruct (N.eqb_spec x c).
Qed.

(** An element and its place. *)
Lemma nget_split {A} (l : list A) i x : l.[i] = Some x ->
  exists pre post, l = pre ++ x :: post /\ lenN pre = i.
Proof.
  intros Hi. exists (takeN i l), (dropN (i + 1) l). pose proof (nget_Some_lt _ _ _ Hi). split.
  - rewrite <- (takeN_dropN i l) at 1. f_equal. unfold dropN, nget in *.
    replace (N.to_nat (i + 1)) with (S (N.to_nat i)) by lia. by apply drop_S.
  - rewrite lenN_takeN. lia.
Qed.

Lemma elem_of_concat {A} (x : A) ls : x ∈ concat ls -> exists l, l ∈ ls /\ x ∈ l.
Proof.
  rewrite list_elem_of_In, in_concat. intros (l & Hl & Hx). exists l. by rewrite !list_elem_of_In.
Qed.

(** ** Strictly increasing lists of numbers *)

Abbreviation increasing := (StronglySorted N.lt).

(** How many elements are below [e]: in an increasing list, the place of [e]. *)
Definition lt_count (e : N) (xs : list N) : N := lenN (filter (fun x => (x < e)%N) xs).

Lemma increasing_app_inv (l k : list N) : increasing (l ++ k) ->
  increasing l /\ increasing k /\ forall x y, x ∈ l -> y ∈ k -> (x < y)%N.
Proof.
  induction l as [|a l IH]; simpl.
  - intros H. split; [constructor|]. split; [done|]. intros x y Hx. by apply elem_of_nil in Hx.
  - intros [H1 H2]%StronglySorted_inv. destruct (IH H1) as (Hl & Hk & Hlk).
    apply Forall_app in H2 as [Ha Hak]. split; [by constructor|]. split; [done|].
    intros x y [->|Hx]%elem_of_cons Hy; [|by apply Hlk].
    by eapply Forall_forall in Hak.
Qed.

Lemma StronglySorted_snoc {A} (R : A -> A -> Prop) l x :
  StronglySorted R (l ++ [x]) <-> StronglySorted R l /\ Forall (fun y => R y x) l.
Proof.
  induction l as [|y l IH]; cbn [app].
  - split; [intros _; split; constructor|intros _; repeat constructor].
  - split.
    + intros [Hs Hf]%StronglySorted_inv. apply IH in Hs as [Hs Hl].
      apply Forall_app in Hf as [Hf Hx]. apply Forall_inv in Hx.
      split; [by constructor|]. by apply Forall_cons.
    + intros [[Hs Hf]%StronglySorted_inv [Hx Hl]%Forall_cons]. constructor; [by apply IH|].
      apply Forall_app. split; [done|by constructor].
Qed.

Lemma increasing_nget (xs : list N) i j x y :
  increasing xs -> xs.[i] = Some x -> xs.[j] = Some y -> (i < j)%N -> (x < y)%N.
Proof.
  intros Hs Hi Hj Hij. rewrite <- (takeN_dropN j xs) in Hs.
  destruct (increasing_app_inv _ _ Hs) as (_ & _ & H). apply H.
  - apply (nget_elem _ i). by rewrite nget_takeN.
  - apply (nget_elem _ 0%N). by rewrite nget_dropN, N.add_0_r.
Qed.

Lemma increasing_inj (xs : list N) i j x :
  increasing xs -> xs.[i] = Some x -> xs.[j] = Some x -> i = j.
Proof.
  intros Hs Hi Hj. destruct (N.lt_trichotomy i j) as [H|[H|H]]; [|done|];
    [pose proof (increasing_nget _ _ _ _ _ Hs Hi Hj H)|pose proof (increasing_nget _ _ _ _ _ Hs Hj Hi H)]; lia.
Qed.

Lemma lt_count_le e xs : (lt_count e xs <= lenN xs)%N.
Proof. unfold lt_count, lenN. pose proof (length_filter (fun x => (x < e)%N) xs). lia. Qed.

Lemma filter_none {A} (P : A -> Prop) `{forall x, Decision (P x)} l :
  Forall (fun x => ~ P x) l -> filter P l = [].
Proof. induction 1; [done|]. by rewrite filter_cons_False. Qed.

Lemma filter_all {A} (P : A -> Prop) `{forall x, Decision (P x)} l :
  Forall P l -> filter P l = l.
Proof. induction 1; [done|]. rewrite filter_cons_True by done. by f_equal. Qed.

Lemma lt_count_spec e xs i x :
  increasing xs -> xs.[i] = Some x -> (i < lt_count e xs)%N <-> (x < e)%N.
Proof.
  intros Hs. revert i. induction Hs as [|a xs Hs IH Ha]; intros i Hi; [by rewrite nget_nil in Hi|].
  unfold lt_count in *. rewrite filter_cons. destruct (decide (a < e)%N) as [Hae|Hae].
  - rewrite lenN_cons. destruct (N.eq_dec i 0%N) as [->|Hi0].
    + injection Hi as ->. lia.
    + rewrite nget_cons_pos in Hi by lia. rewrite <- (IH _ Hi). lia.
  - assert (filter (fun x => (x < e)%N) xs = []) as ->.
    { apply filter_none. eapply Forall_impl; [exact Ha|]. simpl. lia. }
    rewrite lenN_nil. destruct (N.eq_dec i 0%N) as [->|Hi0].
    + injection Hi as ->. lia.
    + rewrite nget_cons_pos in Hi by lia. eapply Forall_nget in Ha; [|exact Hi]. lia.
Qed.

Lemma lt_count_nget e xs i : increasing xs -> xs.[i] = Some e -> lt_count e xs = i.
Proof.
  intros Hs Hi. pose proof (lt_count_spec e _ _ _ Hs Hi) as H.
  destruct (N.lt_trichotomy (lt_count e xs) i) as [Hlt|[Heq|Hlt]]; [|done|lia].
  destruct (nget_lt xs (lt_count e xs)) as [y Hy].
  { apply nget_Some_lt in Hi. lia. }
  pose proof (lt_count_spec e _ _ _ Hs Hy).
  pose proof (increasing_nget _ _ _ _ _ Hs Hy Hi Hlt). lia.
Qed.
