(* ===== verification/Words.v ===== *)
(** * Machine words: 64-bit integers, shifts, bit counts and big-endian bytes

    [u64], [u32], [u8] and [usize] values are [N].  Shifts by the word size or
    more and subtractions below zero panic (Rust's overflow checks), which the
    checked operations report as [None]; a theorem that a computation returns
    [Some] therefore also says that no such overflow happens, so that it holds
    of a build without the checks too. *)

From S2P Require Import Prelude.
Open Scope N_scope.

Definition u64_max : N := 2 ^ 64 - 1.

(** [x << n] on [u64]. *)
Definition shl64 (x n : N) : option N :=
  if n <? 64 then Some (N.shiftl x n mod 2 ^ 64) else None.
(** [x >> n] on [u64]. *)
Definition shr64 (x n : N) : option N :=
  if n <? 64 then Some (N.shiftr x n) else None.
(** [a - b] on unsigned integers. *)
Definition csub (a b : N) : option N :=
  if b <=? a then Some (a - b) else None.
(** [a + b] on [w]-bit unsigned integers. *)
Definition cadd (w a b : N) : option N :=
  if a + b <? 2 ^ w then Some (a + b) else None.

(** [x.leading_zeros()] of a [u64]. *)
Definition leading_zeros64 (x : N) : N := 64 - N.size x.

(** [x.count_ones()] of a [u64]: the number of set bits below [n]. *)
Fixpoint popcount (n : nat) (x : N) : N :=
  match n with
  | O => 0
  | S n => N.b2n (N.testbit x (N.of_nat n)) + popcount n x
  end.
Definition count_ones64 (x : N) : N := popcount 64 x.

(** [x.to_be_bytes()] of an [n]-byte integer. *)
Fixpoint to_be (n : nat) (x : N) : list N :=
  match n with
  | O => []
  | S n => N.shiftr x (8 * N.of_nat n) mod 256 :: to_be n x
  end.
Fixpoint of_be (l : list N) : N :=
  match l with
  | [] => 0
  | b :: l => b * 256 ^ lenN l + of_be l
  end.

Definition be64 (x : N) : list N := to_be 8 x.
#[global] Arguments be64 : simpl never.
(** [BigEndian::read_u64(buf)] and [read_u32]: panic on a short buffer. *)
Definition read_u64 (l : list N) : option N :=
  if 8 <=? lenN l then Some (of_be (takeN 8 l)) else None.
Definition read_u32 (l : list N) : option N :=
  if 4 <=? lenN l then Some (of_be (takeN 4 l)) else None.

Definition is_byte (b : N) : Prop := b < 256.

(** ** Bits *)

Lemma testbit_shiftl x n i : N.testbit (N.shiftl x n) i = (n <=? i) && N.testbit x (i - n).
Proof.
  destruct (N.leb_spec n i); simpl.
  - by apply N.shiftl_spec_high'.
  - by apply N.shiftl_spec_low.
Qed.

Lemma testbit_mod_pow2 x n i : N.testbit (x mod 2 ^ n) i = (i <? n) && N.testbit x i.
Proof.
  destruct (N.ltb_spec i n); simpl.
  - by apply N.mod_pow2_bits_low.
  - by apply N.mod_pow2_bits_high.
Qed.

Lemma testbit_above x n i : x < 2 ^ n -> n <= i -> N.testbit x i = false.
Proof.
  intros Hx Hi. rewrite <- (N.mod_small x (2 ^ n)) by done.
  rewrite testbit_mod_pow2. by replace (i <? n) with false by (symmetry; apply N.ltb_ge; lia).
Qed.

Lemma bits_lt_pow2 x n : (forall i, n <= i -> N.testbit x i = false) -> x < 2 ^ n.
Proof.
  intros H. destruct (N.eq_dec x 0) as [->|Hx].
  - apply N.neq_0_lt_0. by apply N.pow_nonzero.
  - apply N.log2_lt_pow2; [lia|]. destruct (N.lt_ge_cases (N.log2 x) n) as [|Hn]; [done|].
    pose proof (N.bit_log2 x Hx) as Hb. by rewrite (H _ Hn) in Hb.
Qed.

(** Two words of at most [n] bits are equal when their low [n] bits are. *)
Lemma bits_inj_lt n x y :
  x < 2 ^ n -> y < 2 ^ n -> (forall i, i < n -> N.testbit x i = N.testbit y i) -> x = y.
Proof.
  intros Hx Hy H. apply N.bits_inj. intros i. destruct (N.lt_ge_cases i n).
  - by apply H.
  - by rewrite !(testbit_above _ n).
Qed.

Lemma testbit_1 i : N.testbit 1 i = (i =? 0).
Proof. destruct i as [|[p|p|]]; done. Qed.

Create Rewrite HintDb bits.
#[export] Hint Rewrite testbit_shiftl testbit_mod_pow2 N.shiftr_spec' N.lor_spec N.land_spec
  N.ones_spec_iff N.bits_0 : bits.

Lemma land_63 x : N.land x 63 = x mod 64.
Proof. exact (N.land_ones x 6). Qed.
Lemma shiftr_6 x : N.shiftr x 6 = x / 64.
Proof. exact (N.shiftr_div_pow2 x 6). Qed.
Lemma shiftl_3 x : N.shiftl x 3 = 8 * x.
Proof. rewrite N.mul_comm. exact (N.shiftl_mul_pow2 x 3). Qed.

Lemma shl64_Some x n : n < 64 -> shl64 x n = Some (N.shiftl x n mod 2 ^ 64).
Proof. intros ?%N.ltb_lt. unfold shl64. by rewrite H. Qed.
Lemma shr64_Some x n : n < 64 -> shr64 x n = Some (N.shiftr x n).
Proof. intros ?%N.ltb_lt. unfold shr64. by rewrite H. Qed.
Lemma csub_Some a b : b <= a -> csub a b = Some (a - b).
Proof. intros ?%N.leb_le. unfold csub. by rewrite H. Qed.
Lemma cadd_Some w a b : a + b < 2 ^ w -> cadd w a b = Some (a + b).
Proof. intros ?%N.ltb_lt. unfold cadd. by rewrite H. Qed.
Lemma csub_None a b : a < b -> csub a b = None.
Proof. intros ?%N.leb_gt. unfold csub. by rewrite H. Qed.

(** Runs the checked operation at the head of a computation, when [lia] can
    show that it does not overflow. *)
Ltac mstep :=
  lazymatch goal with
  | |- context [mbind _ ?m] =>
      lazymatch m with
      | context [csub ?a ?b] => rewrite (csub_Some a b) by lia
      | context [cadd ?w ?a ?b] => rewrite (cadd_Some w a b) by (simpl; lia)
      | context [shl64 ?a ?b] => rewrite (shl64_Some a b) by lia
      | context [shr64 ?a ?b] => rewrite (shr64_Some a b) by lia
      | assert_ ?b => rewrite (assert_true b) by first [done | (ncmp; done) ]
      end
  end; mcbn.

Lemma shiftr_lt x n m : x < 2 ^ m -> N.shiftr x n < 2 ^ (m - n).
Proof.
  intros Hx. apply bits_lt_pow2. intros i Hi. rewrite N.shiftr_spec'.
  apply (testbit_above _ m); [done|lia].
Qed.

Lemma size_le_pow2 x n : N.size x <= n <-> x < 2 ^ n.
Proof.
  split; intros H.
  - apply N.lt_le_trans with (2 ^ N.size x); [apply N.size_gt|by apply N.pow_le_mono_r].
  - destruct (N.eq_dec x 0) as [->|Hx]; [simpl; lia|].
    rewrite N.size_log2 by done. apply N.le_succ_l. apply N.log2_lt_pow2; [lia|done].
Qed.

(** [val.leading_zeros() < 64 - width] is the test that [val] does not fit. *)
Lemma leading_zeros_fits x w : x < 2 ^ 64 -> w <= 64 -> 64 - w <= leading_zeros64 x <-> x < 2 ^ w.
Proof.
  intros Hx Hw. unfold leading_zeros64. rewrite <- size_le_pow2 in *. lia.
Qed.

(** Disjoint bits: [|] is [+]. *)
Lemma lor_shiftl_add a b n : a < 2 ^ n -> N.lor a (N.shiftl b n) = a + b * 2 ^ n.
Proof.
  intros Ha. rewrite <- N.shiftl_mul_pow2. symmetry.
  assert (H : N.land a (N.shiftl b n) = 0).
  { apply N.bits_inj. intros i. rewrite N.land_spec, testbit_shiftl, N.bits_0.
    destruct (N.leb_spec n i); simpl; [|by rewrite andb_false_r].
    by rewrite (testbit_above a n). }
  rewrite N.add_nocarry_lxor by done. by rewrite <- N.lxor_lor.
Qed.

(** ** Bytes *)

Lemma length_to_be n x : length (to_be n x) = n.
Proof. induction n; simpl; auto. Qed.
Lemma lenN_to_be n x : lenN (to_be n x) = N.of_nat n.
Proof. unfold lenN. by rewrite length_to_be. Qed.
Lemma lenN_be64 x : lenN (be64 x) = 8.
Proof. done. Qed.
#[export] Hint Rewrite lenN_to_be lenN_be64 : lenN.

Lemma to_be_bytes n x : Forall is_byte (to_be n x).
Proof.
  induction n; simpl; constructor; [|done]. unfold is_byte. by apply N.mod_lt.
Qed.

Lemma of_be_to_be_mod n x : of_be (to_be n x) = x mod 2 ^ (8 * N.of_nat n).
Proof.
  induction n as [|n IH]; [by rewrite N.mod_1_r|].
  cbn [to_be of_be]. rewrite IH, lenN_to_be.
  replace (8 * N.of_nat (S n)) with (8 * N.of_nat n + 8) by lia.
  rewrite N.pow_add_r. change (2 ^ 8) with 256.
  replace (256 ^ N.of_nat n) with (2 ^ (8 * N.of_nat n))
    by (rewrite N.pow_mul_r; done).
  rewrite N.shiftr_div_pow2. rewrite N.Div0.mod_mul_r. lia.
Qed.

Lemma of_be_to_be n x : x < 2 ^ (8 * N.of_nat n) -> of_be (to_be n x) = x.
Proof. intros. rewrite of_be_to_be_mod. by apply N.mod_small. Qed.

Lemma read_u64_be64 x l : x < 2 ^ 64 -> read_u64 (be64 x ++ l) = Some x.
Proof.
  intros Hx. unfold read_u64. rewrite lenN_app, lenN_be64.
  replace (8 <=? 8 + lenN l) with true by (symmetry; apply N.leb_le; lia).
  f_equal. change (takeN 8 (be64 x ++ l)) with (takeN (lenN (be64 x)) (be64 x ++ l)).
  rewrite takeN_app. by apply of_be_to_be.
Qed.

Lemma read_u32_be32 x l : x < 2 ^ 32 -> read_u32 (to_be 4 x ++ l) = Some x.
Proof.
  intros Hx. unfold read_u32. rewrite lenN_app, lenN_to_be.
  replace (4 <=? N.of_nat 4 + lenN l) with true by (symmetry; apply N.leb_le; lia).
  f_equal. change (takeN 4 (to_be 4 x ++ l)) with (takeN (lenN (to_be 4 x)) (to_be 4 x ++ l)).
  rewrite takeN_app. by apply of_be_to_be.
Qed.

(** ** Popcount *)

Lemma popcount_le n x : popcount n x <= N.of_nat n.
Proof. induction n; simpl popcount; [lia|]. destruct (N.testbit x (N.of_nat n)); simpl N.b2n; lia. Qed.

Lemma popcount_shiftr n k x :
  popcount n (N.shiftr x (N.of_nat k)) + popcount k x = popcount (n + k) x.
Proof.
  induction n as [|n IH]; simpl; [lia|]. rewrite N.shiftr_spec', <- Nat2N.inj_add. lia.
Qed.

Lemma popcount_0 n : popcount n 0 = 0.
Proof. induction n; simpl; lia. Qed.

(** ** Files of 64-bit words *)

(** The bytes of a sequence of big-endian words. *)
Definition words_bytes (ws : list N) : list N := concat (be64 <$> ws).

Definition is_word (w : N) : Prop := w < 2 ^ 64.

(** Bit [k] of a sequence of words, counted from the most significant bit of
    the first word. *)
Definition gbit (ws : list N) (k : N) : bool :=
  match ws.[k / 64] with
  | Some w => N.testbit w (63 - k mod 64)
  | None => false
  end.

Lemma words_bytes_app ws ws' : words_bytes (ws ++ ws') = words_bytes ws ++ words_bytes ws'.
Proof. unfold words_bytes. by rewrite fmap_app, concat_app. Qed.

Lemma words_bytes_snoc ws w : words_bytes (ws ++ [w]) = words_bytes ws ++ be64 w.
Proof. rewrite words_bytes_app. change (words_bytes [w]) with (be64 w ++ []). by rewrite app_nil_r. Qed.

Lemma words_bytes_cons w ws : words_bytes (w :: ws) = be64 w ++ words_bytes ws.
Proof. done. Qed.

Lemma lenN_words_bytes ws : lenN (words_bytes ws) = 8 * lenN ws.
Proof.
  induction ws as [|w ws IH]; [done|]. rewrite words_bytes_cons.
  rewrite lenN_app, lenN_be64, IH, lenN_cons. lia.
Qed.
#[export] Hint Rewrite lenN_words_bytes : lenN.

Lemma dropN_words_bytes k ws : k <= lenN ws -> dropN (8 * k) (words_bytes ws) = words_bytes (dropN k ws).
Proof.
  intros Hk. rewrite <- (takeN_dropN k ws) at 1. rewrite words_bytes_app.
  replace (8 * k) with (lenN (words_bytes (takeN k ws))).
  - apply dropN_app.
  - rewrite lenN_words_bytes, lenN_takeN. lia.
Qed.

Lemma words_bytes_bytes ws : Forall is_byte (words_bytes ws).
Proof.
  induction ws; [constructor|]. rewrite words_bytes_cons.
  apply Forall_app. split; [apply to_be_bytes|done].
Qed.

(** Reading the word at byte offset [8 * k]. *)
Lemma read_word ws k : Forall is_word ws ->
  (slice_from (8 * k) (words_bytes ws) ≫= read_u64) = ws.[k].
Proof.
  intros Hws. destruct (N.lt_ge_cases k (lenN ws)) as [Hk|Hk].
  - rewrite slice_from_Some by (rewrite lenN_words_bytes; lia). simpl.
    rewrite dropN_words_bytes by lia.
    destruct (nget_lt ws k Hk) as [w Hw]. rewrite Hw.
    rewrite <- (takeN_dropN k ws) in Hw. rewrite nget_app_r in Hw by (rewrite lenN_takeN; lia).
    rewrite lenN_takeN in Hw. replace (k - N.min k (lenN ws)) with 0 in Hw by lia.
    destruct (dropN k ws) as [|w' ws'] eqn:E; [done|]. injection Hw as ->.
    rewrite words_bytes_cons. apply read_u64_be64.
    eapply (Forall_nget is_word ws k); [done|].
    assert (Hd : (dropN k ws).[0] = Some w) by by rewrite E.
    by rewrite nget_dropN, N.add_0_r in Hd.
  - rewrite (proj2 (nget_None ws k)) by done. unfold slice_from. case_cmp; [|done].
    rewrite lenN_words_bytes in *. simpl. unfold read_u64.
    rewrite lenN_dropN, lenN_words_bytes. by ncmp.
Qed.

Lemma gbit_app_l ws ws' k : k < 64 * lenN ws -> gbit (ws ++ ws') k = gbit ws k.
Proof. intros. unfold gbit. rewrite nget_app_l; [done|]. apply N.Div0.div_lt_upper_bound. lia. Qed.

Lemma gbit_app_r ws ws' k : 64 * lenN ws <= k -> gbit (ws ++ ws') k = gbit ws' (k - 64 * lenN ws).
Proof.
  intros Hk. remember (k - 64 * lenN ws) as j eqn:Hj.
  assert (k = j + lenN ws * 64) as -> by lia. unfold gbit.
  rewrite N.div_add, N.Div0.mod_add by done.
  rewrite nget_app_r by dlia. by rewrite N.add_sub.
Qed.

Lemma gbit_single w j : j < 64 -> gbit [w] j = N.testbit w (63 - j).
Proof.
  intros. unfold gbit. rewrite N.div_small, N.mod_small by done. done.
Qed.

Lemma gbit_beyond ws k : 64 * lenN ws <= k -> gbit ws k = false.
Proof.
  intros. unfold gbit. rewrite (proj2 (nget_None _ _)); [done|]. apply N.div_le_lower_bound; lia.
Qed.

Lemma gbit_last ws w k : 64 * lenN ws <= k -> k < 64 * lenN ws + 64 ->
  gbit (ws ++ [w]) k = N.testbit w (63 - (k - 64 * lenN ws)).
Proof. intros. rewrite gbit_app_r by done. apply gbit_single. lia. Qed.

(** Byte-aligned parts of a file are files of words. *)
Lemma of_be_bound l : Forall is_byte l -> of_be l < 256 ^ lenN l.
Proof.
  induction 1 as [|b l Hb Hl IH]; [done|]. unfold is_byte in Hb. cbn [of_be].
  rewrite lenN_cons, N.pow_add_r. change (256 ^ 1) with 256. nia.
Qed.

Lemma to_be_of_be l : Forall is_byte l -> to_be (length l) (of_be l) = l.
Proof.
  induction 1 as [|b l Hb Hl IH]; [done|]. unfold is_byte in Hb. cbn [of_be length to_be].
  pose proof (of_be_bound l Hl) as Hbound.
  assert (E : 256 ^ lenN l = 2 ^ (8 * N.of_nat (length l))) by (rewrite N.pow_mul_r; done).
  assert (Hstep : forall n x y, to_be n (x * 2 ^ (8 * N.of_nat n) + y) = to_be n y).
  { clear. induction n as [|n IH]; intros x y; [done|]. cbn [to_be].
    replace (8 * N.of_nat (S n)) with (8 + 8 * N.of_nat n) by lia.
    rewrite N.pow_add_r. change (2 ^ 8) with 256. f_equal.
    - rewrite !N.shiftr_div_pow2. rewrite N.mul_assoc, N.div_add_l by (by apply N.pow_nonzero).
      by rewrite N.add_comm, N.Div0.mod_add.
    - rewrite N.mul_assoc. apply IH. }
  f_equal.
  - rewrite N.shiftr_div_pow2, E, N.div_add_l by (by apply N.pow_nonzero).
    rewrite N.div_small by (by rewrite <- E). rewrite N.add_0_r. by apply N.mod_small.
  - rewrite E, Hstep. done.
Qed.

Lemma bytes_are_words n : forall l, Forall is_byte l -> lenN l = 8 * N.of_nat n ->
  exists ws, l = words_bytes ws /\ Forall is_word ws.
Proof.
  induction n as [|n IH]; intros l Hl Hlen.
  - exists []. destruct l; [split; [done|constructor]|rewrite lenN_cons in Hlen; lia].
  - destruct (IH (dropN 8 l)) as (ws & Hws & Hw).
    { by apply Forall_drop. }
    { rewrite lenN_dropN. lia. }
    exists (of_be (takeN 8 l) :: ws).
    assert (Htake : Forall is_byte (takeN 8 l)) by (by apply Forall_take).
    assert (Hlen8 : length (takeN 8 l) = 8%nat).
    { apply Nat2N.inj. change (lenN (takeN 8 l) = 8). rewrite lenN_takeN. lia. }
    split.
    + rewrite <- (takeN_dropN 8 l) at 1. rewrite words_bytes_cons.
      f_equal; [|done]. unfold be64. rewrite <- Hlen8. symmetry. by apply to_be_of_be.
    + constructor; [|done]. unfold is_word. pose proof (of_be_bound _ Htake) as Hb.
      unfold lenN in Hb. rewrite Hlen8 in Hb. done.
Qed.

(** ** Bytes and masks *)

Lemma shiftr_pow2 n j : j <= n -> N.shiftr (2 ^ n) j = 2 ^ (n - j).
Proof.
  intros. rewrite N.shiftr_div_pow2. replace n with (n - j + j) at 1 by lia.
  rewrite N.pow_add_r. apply N.div_mul. by apply N.pow_nonzero.
Qed.

(** [x & (1 << k) != 0]. *)
Lemma land_pow2_testbit x k : negb (N.land x (2 ^ k) =? 0) = N.testbit x k.
Proof.
  destruct (N.testbit x k) eqn:E; destruct (N.eqb_spec (N.land x (2 ^ k)) 0) as [H|H]; try done.
  - assert (Hf : N.testbit (N.land x (2 ^ k)) k = true)
      by (by rewrite N.land_spec, N.pow2_bits_true, E).
    by rewrite H, N.bits_0 in Hf.
  - exfalso. apply H. apply N.bits_inj. intros i. rewrite N.land_spec, N.bits_0.
    destruct (N.eq_dec i k) as [->|Hne]; [by rewrite E|].
    by rewrite N.pow2_bits_false, andb_false_r by done.
Qed.

Lemma nget_to_be n x i : i < N.of_nat n ->
  (to_be n x).[i] = Some (N.shiftr x (8 * (N.of_nat n - 1 - i)) mod 256).
Proof.
  revert i. induction n as [|n IH]; intros i Hi; [lia|]. cbn [to_be].
  destruct (N.eq_dec i 0) as [->|Hi0].
  - rewrite nget_cons_0. do 4 f_equal. lia.
  - rewrite nget_cons_pos by lia. rewrite IH by lia. do 4 f_equal. lia.
Qed.

Lemma nget_words_bytes ws i : i < 8 * lenN ws ->
  exists byte, (words_bytes ws).[i] = Some byte /\
    forall j, j < 8 -> N.testbit byte (7 - j) = gbit ws (8 * i + j).
Proof.
  intros Hi. assert (Hq : i / 8 < lenN ws) by dlia. destruct (nget_lt ws _ Hq) as [w Hw].
  assert (Hr : i mod 8 < 8) by (by apply N.mod_lt).
  exists (N.shiftr w (8 * (7 - i mod 8)) mod 2 ^ 8). split.
  - pose proof (dropN_words_bytes (i / 8) ws ltac:(lia)) as Hd.
    replace i with (8 * (i / 8) + i mod 8) at 1 by dlia. rewrite <- nget_dropN, Hd.
    unfold dropN. rewrite (drop_S ws w) by done. rewrite words_bytes_cons.
    rewrite nget_app_l by (by rewrite lenN_be64). unfold be64. rewrite nget_to_be by done.
    do 4 f_equal.
  - intros j Hj. autorewrite with bits. ncmp. simpl. unfold gbit.
    assert ((8 * i + j) / 64 = i / 8) as -> by dlia. rewrite Hw. f_equal.
    assert ((8 * i + j) mod 64 = 8 * (i mod 8) + j) as -> by dlia. lia.
Qed.

Lemma nget_seqN a n i : i < n -> (seqN a n).[i] = Some (a + i).
Proof.
  intros. unfold seqN. rewrite nget_map. unfold nget. rewrite lookup_seq_lt by lia. simpl.
  f_equal. lia.
Qed.
Lemma lenN_seqN a n : lenN (seqN a n) = n.
Proof. unfold seqN. rewrite lenN_map. unfold lenN. rewrite length_seq. lia. Qed.
#[export] Hint Rewrite lenN_seqN : lenN.

Lemma seqN_app a n m : seqN a (n + m) = seqN a n ++ seqN (a + n) m.
Proof.
  apply list_eq_nget. intros i. destruct (N.lt_ge_cases i (n + m)) as [Hi|Hi].
  - rewrite nget_seqN by done. destruct (N.lt_ge_cases i n).
    + by rewrite nget_app_l, nget_seqN by (rewrite ?lenN_seqN; done).
    + rewrite nget_app_r by (by rewrite lenN_seqN). rewrite lenN_seqN, nget_seqN by lia. f_equal. lia.
  - rewrite !(proj2 (nget_None _ _)); [done| |]; rewrite ?lenN_app, ?lenN_seqN; lia.
Qed.

Lemma seqN_snoc a n : seqN a (n + 1) = seqN a n ++ [a + n].
Proof. rewrite seqN_app. do 2 f_equal. unfold seqN. simpl. f_equal. lia. Qed.

Lemma map_seqN_snoc {A} (g : N -> A) n : (g <$> seqN 0 n) ++ [g n] = g <$> seqN 0 (n + 1).
Proof. by rewrite seqN_snoc, fmap_app. Qed.

Lemma seqN_cons a n : 0 < n -> seqN a n = a :: seqN (a + 1) (n - 1).
Proof.
  intros. replace n with (1 + (n - 1)) at 1 by lia. rewrite seqN_app. unfold seqN at 1. simpl.
  by rewrite N.add_0_r.
Qed.

(** Reading every index of a list. *)
Lemma mapM_nget {A} (f : N -> option A) (l : list A) :
  (forall i, i < lenN l -> f i = l.[i]) -> mapM f (seqN 0 (lenN l)) = Some l.
Proof.
  intros Hf. apply mapM_Some_2. apply Forall2_same_length_lookup. split.
  - pose proof (lenN_seqN 0 (lenN l)) as E. unfold lenN in *. lia.
  - intros i x y Hx Hy.
    assert (Hi : N.of_nat i < lenN l) by (apply lookup_lt_Some in Hy; unfold lenN; lia).
    pose proof (nget_seqN 0 (lenN l) (N.of_nat i) Hi) as Hs. unfold nget in Hs.
    rewrite Nat2N.id in Hs. rewrite Hx in Hs. injection Hs as ->.
    rewrite N.add_0_l, Hf by done. unfold nget. by rewrite Nat2N.id.
Qed.
