(* ===== verification/Codec.v ===== *)
(** * Framed reading of a byte stream

    The code reads bit arrays, log arrays and dictionaries from files through
    [tokio_util]'s [FramedRead], which buffers the bytes that arrive and calls
    a [Decoder] of the code on the buffer.  [FramedRead] is not part of the
    repository: it is the interface [FramedRead] below, whose law is its
    documented behaviour, that the bytes arrive in chunks of any size and that
    the decoder is called until it asks for more. *)

From S2P Require Import Prelude.

(** A decoder: its state and the buffer give an item or a request for more
    bytes, the new state and what is left of the buffer. *)
Definition decoder (S T : Type) : Type := S -> list N -> outcome io_error (option T * S * list N).

(** The calls [FramedRead] makes, with the chunks that are still to arrive and
    the items the stream yields. *)
Inductive framed_run {S T} (decode : decoder S T) : S -> list N -> list (list N) -> list T -> Prop :=
| run_item s buf chunks x s' buf' xs :
    decode s buf = Ok (Some x, s', buf') ->
    framed_run decode s' buf' chunks xs ->
    framed_run decode s buf chunks (x :: xs)
| run_more s buf chunk chunks s' buf' xs :
    decode s buf = Ok (None, s', buf') ->
    framed_run decode s' (buf' ++ chunk) chunks xs ->
    framed_run decode s buf (chunk :: chunks) xs
| run_eof s buf s' :
    decode s buf = Ok (None, s', []) ->
    framed_run decode s buf [] [].

(** More items than any stream of the code yields. *)
Definition items_bound (bytes : list N) : nat := 64 * (length bytes + 1).

Class FramedRead : Type := {
  (** The items of the stream over a file with the given contents. *)
  framed_read : forall S T, decoder S T -> S -> list N -> outcome io_error (list T);
  framed_read_law : forall S T (decode : decoder S T) s bytes,
    exists chunks, concat chunks = bytes /\
      forall xs, framed_run decode s [] chunks xs -> length xs <= items_bound bytes ->
        framed_read S T decode s bytes = Ok xs
}.

(** A framed read that gets the whole file in one chunk. *)
Section whole.
Context {S T : Type} (decode : decoder S T).

Fixpoint read_whole (fuel : nat) (later : option (list N)) (s : S) (buf : list N)
    : outcome io_error (list T) :=
  match fuel with
  | O => Panic
  | Datatypes.S fuel =>
      '(r, s', buf') ← decode s buf;
      match r with
      | Some x => xs ← read_whole fuel later s' buf'; Ok (x :: xs)
      | None =>
          match later with
          | Some chunk => read_whole fuel None s' (buf' ++ chunk)
          | None => match buf' with [] => Ok [] | _ => Err UnexpectedEof end
          end
      end
  end.

Lemma read_whole_run s buf chunks xs : framed_run decode s buf chunks xs -> forall later fuel,
  chunks = option_list later -> length xs + 3 <= fuel ->
  (later = None \/ length xs + 3 < fuel) -> read_whole fuel later s buf = Ok xs.
Proof.
  induction 1 as [s buf chunks x s' buf' xs Hd _ IH|s buf chunk chunks s' buf' xs Hd _ IH|s buf s' Hd];
    intros later fuel Hl Hf Hf'; (destruct fuel as [|fuel]; [lia|]); cbn [read_whole]; rewrite Hd; mcbn.
  - simpl in *. rewrite (IH later fuel Hl); [done|lia|]. destruct Hf'; [by left|right; lia].
  - destruct later as [c|]; [|done]. injection Hl as -> ->. apply IH; [done| |by left].
    destruct Hf'; [done|lia].
  - by destruct later.
Qed.
End whole.

Lemma read_whole_law S T (decode : decoder S T) s bytes :
  exists chunks, concat chunks = bytes /\
    forall xs, framed_run decode s [] chunks xs -> length xs <= items_bound bytes ->
      read_whole decode (items_bound bytes + 4) (Some bytes) s [] = Ok xs.
Proof.
  exists [bytes]. split; [simpl; by rewrite app_nil_r|].
  intros xs Hrun Hlen. apply (read_whole_run _ _ _ _ _ Hrun); [done|lia|right; lia].
Qed.

(** An instance of the interface. *)
Definition whole_file : FramedRead := {|
  framed_read S T decode s bytes := read_whole decode (items_bound bytes + 4) (Some bytes) s [];
  framed_read_law := read_whole_law
|}.

#[global] Arguments framed_read {_ S T} decode s bytes.
