(* ===== verification/VByte.v ===== *)
(** * Variable-byte coding of [u64] (src/structure/vbyte.rs)

    Seven bits per byte, least significant first; the last byte of an encoding
    has its most significant bit set.  [encode_unchecked] writes into a buffer
    without bounds checks: an out-of-bounds write, which is undefined behaviour
    of the code, is [None] here, and the theorems show that the safe wrappers
    never reach it. *)

From S2P Require Import Prelude.
From S2P Require Import Words.
Open Scope N_scope.

Definition MAX_ENCODING_LEN : N := 10.

Definition encoding_len (num : N) : N :=
  if num =? 0 then 1 else (64 + 6 - leading_zeros64 num) / 7.

Inductive DecodeError : Type :=
| EncodedValueTooLarge
| UnexpectedEndOfBuffer
| UnexpectedEncodingLen.

#[export] Instance DecodeError_eq_dec : EqDecision DecodeError.
Proof. solve_decision. Defined.

Definition is_last_encoded_byte (byte : N) : bool := 0x80 <=? byte.
Definition clear_msb (byte : N) : N := N.land byte 0x7f.
Definition set_msb (byte : N) : N := N.lor byte 0x80.
Definition max_byte_too_large (shift byte : N) : bool := (shift =? 63) && (0x81 <? byte).

(** The loop of [decode] from byte [i] on, with the result so far in [num]. *)
Fixpoint decode_from (num shift i : N) (buf : list N) : outcome DecodeError (N * N) :=
  match buf with
  | [] => Err UnexpectedEndOfBuffer
  | b :: buf =>
      if is_last_encoded_byte b then
        if max_byte_too_large shift b then Err EncodedValueTooLarge
        else v ← or_panic (shl64 (clear_msb b) shift); Ok (N.lor num v, i + 1)
      else
        v ← or_panic (shl64 b shift);
        let num := N.lor num v in
        let shift := shift + 7 in
        if 64 <? shift then Err UnexpectedEncodingLen
        else decode_from num shift (i + 1) buf
  end.

Definition decode (buf : list N) : outcome DecodeError (N * N) := decode_from 0 0 0 buf.

Definition more_than_7bits_remain (num : N) : bool := 0x80 <=? num.

(** [*buf.get_unchecked_mut(i) = byte]: [None] is undefined behaviour. *)
Definition set_unchecked (buf : list N) (i byte : N) : option (list N) :=
  if i <? lenN buf then Some (<[N.to_nat i := byte]> buf) else None.

(** The [while] loop of [encode_unchecked]; ten rounds are enough for a [u64]. *)
Fixpoint encode_loop (fuel : nat) (buf : list N) (i num : N) : option (N * list N) :=
  match fuel with
  | O => None
  | S fuel =>
      if more_than_7bits_remain num then
        buf ← set_unchecked buf i (clear_msb (num mod 256));
        num ← shr64 num 7;
        encode_loop fuel buf (i + 1) num
      else
        buf ← set_unchecked buf i (set_msb (num mod 256));
        Some (i + 1, buf)
  end.

Definition encode_unchecked (buf : list N) (num : N) : option (N * list N) :=
  encode_loop (N.to_nat MAX_ENCODING_LEN) buf 0 num.

(** The outer [option] is undefined behaviour, the inner one the code's. *)
Definition encode_slice (buf : list N) (num : N) : option (option (N * list N)) :=
  if lenN buf <? encoding_len num then Some None
  else r ← encode_unchecked buf num; Some (Some r).

Definition encode_vec (num : N) : option (list N) :=
  '(_, vec) ← encode_unchecked (replicate (N.to_nat (encoding_len num)) 0) num;
  Some vec.

(** The destination after the write, and the number of bytes written. *)
Definition write_async (dest : list N) (num : N) : option (list N * N) :=
  vec ← encode_vec num;
  Some (dest ++ vec, lenN vec).

(** ** Reference definitions *)

(** The encoding, by plain arithmetic. *)
Fixpoint vbyte_ref (fuel : nat) (num : N) : list N :=
  match fuel with
  | O => []
  | S fuel => if num <? 128 then [128 + num] else num mod 128 :: vbyte_ref fuel (num / 128)
  end.
Definition vbyte (num : N) : list N := vbyte_ref 10 num.

(** The value of little-endian base-128 digits. *)
Fixpoint digits128 (l : list N) : N :=
  match l with
  | [] => 0
  | d :: l => d + 128 * digits128 l
  end.

(** The bytes before the first one with its most significant bit set. *)
Fixpoint continuation (buf : list N) : list N :=
  match buf with
  | [] => []
  | b :: buf => if b <? 128 then b :: continuation buf else []
  end.

(** What [decode] means: at most nine continuation bytes, then a last byte. *)
Definition decode_ref (buf : list N) : outcome DecodeError (N * N) :=
  let c := continuation buf in
  if 10 <=? lenN c then Err UnexpectedEncodingLen
  else match buf.[lenN c] with
       | None => Err UnexpectedEndOfBuffer
       | Some b =>
           if (lenN c =? 9) && (129 <? b) then Err EncodedValueTooLarge
           else Ok (digits128 (c ++ [b - 128]), lenN c + 1)
       end.

(** ** Byte-level lemmas *)

Lemma clear_msb_spec b : clear_msb b = b mod 128.
Proof. unfold clear_msb. change 0x7f with (N.ones 7). by rewrite N.land_ones. Qed.

Lemma set_msb_spec b : b < 128 -> set_msb b = 128 + b.
Proof.
  intros Hb. unfold set_msb. etransitivity; [exact (lor_shiftl_add b 1 7 Hb)|].
  change (2 ^ 7) with 128. lia.
Qed.

Lemma is_last_spec b : is_last_encoded_byte b = negb (b <? 128).
Proof. unfold is_last_encoded_byte. by rewrite N.leb_antisym. Qed.

Lemma shl64_exact x n : n < 64 -> x * 2 ^ n < 2 ^ 64 -> shl64 x n = Some (N.shiftl x n).
Proof. intros. rewrite shl64_Some by done. by rewrite N.mod_small by (by rewrite N.shiftl_mul_pow2). Qed.

Lemma pow2_7 k : 2 ^ (7 * k) = 128 ^ k.
Proof. by rewrite N.pow_mul_r. Qed.

Lemma pow128_le i : i <= 8 -> 128 * 128 ^ i <= 2 ^ 63.
Proof. intros. rewrite <- pow2_7, <- (N.pow_add_r 2 7). apply N.pow_le_mono_r; lia. Qed.

(** ** The decoder *)

Lemma decode_from_ref buf : forall num i,
  Forall is_byte buf -> i <= 9 -> num < 128 ^ i ->
  decode_from num (7 * i) i buf =
    let c := continuation buf in
    if 10 <=? i + lenN c then Err UnexpectedEncodingLen
    else match buf.[lenN c] with
         | None => Err UnexpectedEndOfBuffer
         | Some b =>
             if (i + lenN c =? 9) && (129 <? b) then Err EncodedValueTooLarge
             else Ok (num + 128 ^ i * digits128 (c ++ [b - 128]), i + lenN c + 1)
         end.
Proof.
  induction buf as [|b buf IH]; intros num i Hb Hi Hnum.
  - simpl. unfold lenN. simpl. rewrite N.add_0_r. by ncmp.
  - apply Forall_cons in Hb as [Hb Hbs]. unfold is_byte in Hb.
    cbn [decode_from continuation]. rewrite is_last_spec.
    destruct (N.ltb_spec b 128) as [Hlt|Hge]; cbn [negb].
    + destruct (N.eq_dec i 9) as [->|Hi9].
      { rewrite shl64_Some by done. cbn. rewrite lenN_cons. by ncmp. }
      rewrite shl64_exact; [|lia|].
      2:{ rewrite pow2_7. pose proof (pow128_le i). nia. }
      cbn -[N.add N.mul N.ltb N.leb]. rewrite pow2_7 || idtac.
      replace (7 * i + 7) with (7 * (i + 1)) by lia. ncmp.
      rewrite lor_shiftl_add by (by rewrite pow2_7). rewrite pow2_7.
      rewrite IH; [|done|lia|].
      2:{ rewrite N.add_1_r, N.pow_succ_r'. nia. }
      rewrite lenN_cons. cbn -[N.add N.mul N.ltb N.leb N.pow N.eqb nget].
      rewrite (nget_cons_pos b) by lia. rewrite !(N.add_assoc i 1).
      replace (1 + lenN (continuation buf) - 1) with (lenN (continuation buf)) by lia.
      destruct (10 <=? _); [done|]. destruct (buf.[_]) as [d|]; [|done].
      destruct (_ && _); [done|]. rewrite N.add_1_r, N.pow_succ_r'. do 2 f_equal. nia.
    + cbn -[N.add N.mul N.ltb N.leb N.pow]. rewrite N.add_0_r. ncmp.
      unfold max_byte_too_large. rewrite nget_cons_0.
      replace (7 * i =? 63) with (i =? 9) by (destruct (N.eqb_spec i 9), (N.eqb_spec (7 * i) 63); lia).
      destruct ((i =? 9) && (129 <? b)) eqn:E; [done|].
      apply andb_false_iff in E. rewrite clear_msb_spec.
      replace (b mod 128) with (b - 128).
      2:{ replace b with (b - 128 + 1 * 128) at 2 by lia. rewrite N.Div0.mod_add. symmetry. apply N.mod_small. lia. }
      rewrite shl64_exact; [|lia|].
      2:{ rewrite pow2_7. destruct (N.eq_dec i 9) as [->|].
          - destruct E as [E|E%N.ltb_ge]; [done|]. change (128 ^ 9) with (2 ^ 63). lia.
          - pose proof (pow128_le i). nia. }
      cbn -[N.add N.mul N.pow]. rewrite lor_shiftl_add by (by rewrite pow2_7).
      rewrite pow2_7. simpl digits128. do 2 f_equal; nia.
Qed.

Lemma decode_eq_ref buf : Forall is_byte buf -> decode buf = decode_ref buf.
Proof.
  intros Hb. unfold decode, decode_ref. change 0 with (7 * 0) at 2.
  rewrite decode_from_ref by (done || lia). cbn zeta.
  rewrite !N.add_0_l. destruct (10 <=? _); [done|]. destruct (buf.[_]); [|done].
  by rewrite N.add_0_l, N.pow_0_r, N.mul_1_l.
Qed.

(** ** The encoder *)

Lemma vbyte_ref_step fuel num : 128 <= num ->
  vbyte_ref (S fuel) num = num mod 128 :: vbyte_ref fuel (num / 128).
Proof. intros. cbn [vbyte_ref]. by ncmp. Qed.

Lemma vbyte_ref_last fuel num : num < 128 -> vbyte_ref (S fuel) num = [128 + num].
Proof. intros. cbn [vbyte_ref]. by ncmp. Qed.

Lemma size_div128 num : 128 <= num -> N.size num = 7 + N.size (num / 128).
Proof.
  intros H. assert (num / 128 <> 0).
  { intros E. apply N.div_small_iff in E; lia. }
  rewrite !N.size_log2 by lia. change 128 with (2 ^ 7).
  rewrite <- N.shiftr_div_pow2, N.log2_shiftr.
  assert (7 <= N.log2 num); [|lia]. change 7 with (N.log2 128). by apply N.log2_le_mono.
Qed.

Lemma lenN_vbyte_ref fuel : forall num, num < 128 ^ N.of_nat fuel ->
  lenN (vbyte_ref fuel num) = if num =? 0 then N.min 1 (N.of_nat fuel) else (N.size num + 6) / 7.
Proof.
  induction fuel as [|fuel IH]; intros num Hn.
  - change (128 ^ N.of_nat 0) with 1 in Hn. replace num with 0 by lia. done.
  - destruct (N.lt_ge_cases num 128) as [Hlt|Hge].
    + rewrite vbyte_ref_last by done. rewrite lenN_cons, lenN_nil.
      destruct (N.eqb_spec num 0); [lia|].
      assert (N.size num <= 7) by (by apply size_le_pow2).
      assert (1 <= N.size num) by (rewrite N.size_log2 by done; lia).
      apply (N.div_unique _ _ _ (N.size num - 1)); lia.
    + rewrite vbyte_ref_step by done. rewrite lenN_cons, IH.
      2:{ rewrite Nat2N.inj_succ, N.pow_succ_r' in Hn. by apply N.Div0.div_lt_upper_bound. }
      destruct (N.eqb_spec (num / 128) 0) as [E|E].
      { apply N.div_small_iff in E; lia. }
      destruct (N.eqb_spec num 0); [lia|]. rewrite (size_div128 num) by done.
      replace (7 + N.size (num / 128) + 6) with (N.size (num / 128) + 6 + 1 * 7) by lia.
      rewrite N.div_add by done. lia.
Qed.

Lemma encoding_len_eq num : num < 2 ^ 64 -> encoding_len num = lenN (vbyte num).
Proof.
  intros Hn. unfold vbyte, encoding_len, leading_zeros64.
  rewrite lenN_vbyte_ref.
  2:{ eapply N.lt_le_trans; [exact Hn|]. done. }
  destruct (N.eqb_spec num 0); [done|]. apply size_le_pow2 in Hn. f_equal. lia.
Qed.

Lemma encoding_len_bounds num : num < 2 ^ 64 -> 1 <= encoding_len num <= MAX_ENCODING_LEN.
Proof.
  intros Hn. unfold encoding_len, leading_zeros64, MAX_ENCODING_LEN.
  destruct (N.eqb_spec num 0); [lia|]. apply size_le_pow2 in Hn.
  assert (1 <= N.size num) by (rewrite N.size_log2 by done; lia).
  split; [apply N.div_le_lower_bound|apply N.Div0.div_le_upper_bound]; lia.
Qed.

Lemma vbyte_ref_bytes fuel : forall num, Forall is_byte (vbyte_ref fuel num).
Proof.
  induction fuel as [|fuel IH]; intros num; simpl; [constructor|].
  destruct (N.ltb_spec num 128); constructor; unfold is_byte; try lia; [constructor| |apply IH].
  assert (num mod 128 < 128) by (by apply N.mod_lt). lia.
Qed.

Lemma continuation_vbyte_ref fuel : forall num rest, num < 128 ^ N.of_nat fuel -> (0 < fuel)%nat ->
  exists c d, vbyte_ref fuel num = c ++ [128 + d] /\ d < 128 /\
    continuation (vbyte_ref fuel num ++ rest) = c /\ digits128 (c ++ [d]) = num.
Proof.
  induction fuel as [|fuel IH]; intros num rest Hn Hf; [lia|].
  destruct (N.lt_ge_cases num 128) as [Hlt|Hge].
  - exists [], num. rewrite vbyte_ref_last by done. cbn -[N.add N.mul N.ltb]. ncmp.
    repeat split; [done|]. lia.
  - rewrite vbyte_ref_step by done.
    rewrite Nat2N.inj_succ, N.pow_succ_r' in Hn.
    assert (Hd : num / 128 < 128 ^ N.of_nat fuel) by (by apply N.Div0.div_lt_upper_bound).
    assert (0 < fuel)%nat.
    { destruct fuel; [|lia]. change (128 ^ N.of_nat 0) with 1 in Hd.
      assert (num / 128 = 0) as E by lia. apply N.div_small_iff in E; lia. }
    destruct (IH (num / 128) rest Hd ltac:(lia)) as (c & d & Hc & Hlt & Hcont & Hdig).
    exists (num mod 128 :: c), d. rewrite Hc in *.
    assert (num mod 128 < 128) by (by apply N.mod_lt).
    cbn -[N.add N.mul N.ltb N.modulo]. ncmp. rewrite Hcont, Hdig.
    repeat split; [done|]. pose proof (N.div_mod num 128). lia.
Qed.

Lemma decode_vbyte num rest : num < 2 ^ 64 -> Forall is_byte rest ->
  decode (vbyte num ++ rest) = Ok (num, lenN (vbyte num)).
Proof.
  intros Hn Hrest. rewrite decode_eq_ref by (apply Forall_app; split; [apply vbyte_ref_bytes|done]).
  assert (Hn' : num < 128 ^ N.of_nat 10) by (eapply N.lt_le_trans; [exact Hn|done]).
  destruct (continuation_vbyte_ref 10 num rest Hn' ltac:(lia)) as (c & d & Hc & Hd & Hcont & Hdig).
  unfold decode_ref, vbyte. rewrite Hcont. fold (vbyte num) in *.
  pose proof (encoding_len_eq num Hn) as Hlen. pose proof (encoding_len_bounds num Hn) as Hb.
  rewrite Hlen, Hc in Hb. rewrite lenN_app in Hb. change (lenN [128 + d]) with 1 in Hb.
  unfold MAX_ENCODING_LEN in Hb. ncmp. rewrite Hc, <- app_assoc. simpl app.
  rewrite nget_app_r by lia. rewrite N.sub_diag, nget_cons_0.
  replace (128 + d - 128) with d by lia. rewrite Hdig, lenN_app. change (lenN [128 + d]) with 1.
  destruct (N.eqb_spec (lenN c) 9) as [E|E]; [|done]. simpl andb.
  destruct (N.ltb_spec 129 (128 + d)) as [Hlarge|]; [|done].
  exfalso. rewrite <- Hdig in Hn.
  assert (forall l x, 128 ^ lenN l * x <= digits128 (l ++ [x])) as Hmono.
  { clear. induction l as [|y l IH]; intros x; [simpl; rewrite N.mul_1_l; lia|].
    cbn [digits128 app]. rewrite lenN_cons, N.pow_add_r. change (128 ^ 1) with 128.
    specialize (IH x). nia. }
  specialize (Hmono c d). rewrite E in Hmono. change (128 ^ 9) with (2 ^ 63) in Hmono. lia.
Qed.

(** The loop fills [buf] from position [i] with the reference encoding. *)
Lemma encode_loop_ref fuel : forall pre old post num,
  num < 2 ^ 64 -> num < 128 ^ N.of_nat fuel -> (0 < fuel)%nat ->
  lenN old = lenN (vbyte_ref fuel num) ->
  encode_loop fuel (pre ++ old ++ post) (lenN pre) num =
    Some (lenN pre + lenN old, pre ++ vbyte_ref fuel num ++ post).
Proof.
  induction fuel as [|fuel IH]; intros pre old post num H64 Hn Hf Hlen; [lia|].
  assert (Hset : forall o old' b, old = o :: old' ->
    set_unchecked (pre ++ old ++ post) (lenN pre) b = Some ((pre ++ [b]) ++ old' ++ post)).
  { intros o old' b ->. unfold set_unchecked. rewrite !lenN_app, lenN_cons. ncmp.
    f_equal. unfold lenN. rewrite Nat2N.id. rewrite <- app_assoc.
    by rewrite insert_app_r_alt, Nat.sub_diag by lia. }
  cbn [encode_loop]. unfold more_than_7bits_remain.
  destruct (N.lt_ge_cases num 128) as [Hlt|Hge]; ncmp.
  - rewrite vbyte_ref_last in * by done. destruct old as [|o [|? ?]]; rewrite ?lenN_cons, ?lenN_nil in Hlen; try lia.
    rewrite (Hset o []) by done. cbn -[N.add N.modulo lenN]. rewrite N.mod_small by lia.
    rewrite set_msb_spec by done. by rewrite <- app_assoc.
  - rewrite vbyte_ref_step in * by done. destruct old as [|o old]; rewrite ?lenN_cons, ?lenN_nil in Hlen; [lia|].
    rewrite (Hset o old) by done. cbn -[N.add N.modulo lenN encode_loop].
    rewrite Nat2N.inj_succ, N.pow_succ_r' in Hn.
    assert (Hd : num / 128 < 128 ^ N.of_nat fuel) by (by apply N.Div0.div_lt_upper_bound).
    assert (0 < fuel)%nat.
    { destruct fuel; [|lia]. change (128 ^ N.of_nat 0) with 1 in Hd.
      assert (num / 128 = 0) as E by lia. apply N.div_small_iff in E; lia. }
    assert (Hm : clear_msb (num mod 256) = num mod 128).
    { rewrite clear_msb_spec. change 256 with (128 * 2). rewrite N.Div0.mod_mul_r.
      rewrite (N.mul_comm 128), N.Div0.mod_add. apply N.mod_small. by apply N.mod_lt. }
    rewrite Hm, N.shiftr_div_pow2. change (2 ^ 7) with 128.
    replace (lenN pre + 1) with (lenN (pre ++ [num mod 128])) by (by rewrite lenN_app).
    rewrite IH; [|apply (N.le_lt_trans _ num); [apply N.Div0.div_le_upper_bound; lia|exact H64]|done|lia|lia].
    rewrite lenN_app, lenN_cons, lenN_cons, lenN_nil, <- app_assoc. do 2 f_equal. lia.
Qed.

Lemma encode_unchecked_ref old post num :
  num < 2 ^ 64 -> lenN old = encoding_len num ->
  encode_unchecked (old ++ post) num = Some (encoding_len num, vbyte num ++ post).
Proof.
  intros Hn Hlen. rewrite encoding_len_eq in * by done.
  unfold encode_unchecked. change (old ++ post) with ([] ++ old ++ post).
  change 0 with (lenN (@nil N)) at 1.
  rewrite encode_loop_ref; [by rewrite Hlen|done| |unfold MAX_ENCODING_LEN; lia|done].
  eapply N.lt_le_trans; [exact Hn|done].
Qed.

Lemma encode_vec_ref num : num < 2 ^ 64 -> encode_vec num = Some (vbyte num).
Proof.
  intros Hn. unfold encode_vec.
  rewrite <- (app_nil_r (replicate _ _)), encode_unchecked_ref; [|done|rewrite lenN_replicate; lia].
  simpl. by rewrite app_nil_r.
Qed.

(** ** Properties *)

(** C33: encoding a [u64] and decoding the result, followed by any bytes, gives
    the number back together with the length of its encoding, which is the
    predicted one and at most ten bytes. *)
Theorem vbyte_roundtrip num rest : num < 2 ^ 64 -> Forall is_byte rest ->
  exists vec, encode_vec num = Some vec /\ lenN vec = encoding_len num /\
    encoding_len num <= MAX_ENCODING_LEN /\
    decode (vec ++ rest) = Ok (num, encoding_len num).
Proof.
  intros Hn Hrest. exists (vbyte num). rewrite encode_vec_ref, encoding_len_eq by done.
  pose proof (encoding_len_bounds num Hn) as Hb. rewrite encoding_len_eq in Hb by done.
  split; [done|]. split; [done|]. split; [lia|]. by apply decode_vbyte.
Qed.

Lemma vbyte_roundtrip_witness : exists vec,
  encode_vec 300 = Some vec /\ lenN vec = encoding_len 300 /\
    encoding_len 300 <= MAX_ENCODING_LEN /\ decode (vec ++ [7]) = Ok (300, encoding_len 300).
Proof. apply (vbyte_roundtrip 300 [7]); [done|repeat constructor]. Defined.

(** On any bytes, [decode] neither panics nor overflows: it reads
    continuation bytes up to the first byte with its top bit set, and reports
    a missing last byte, a tenth continuation byte, and a value of more than
    64 bits as the three different errors. *)
Theorem decode_correct buf : Forall is_byte buf -> decode buf = decode_ref buf.
Proof. apply decode_eq_ref. Qed.

Lemma decode_correct_witness :
  decode [1; 0; 129; 5] = Ok (16385, 3) /\ decode [1; 0; 129; 5] = decode_ref [1; 0; 129; 5].
Proof. split; [reflexivity|]. apply decode_correct. repeat constructor. Defined.

(** C40: [encode_slice], which writes without bounds checks, never writes
    outside the buffer: it refuses a buffer that is too short and otherwise
    replaces exactly the first [encoding_len num] bytes. *)
Theorem encode_slice_safe buf num : num < 2 ^ 64 ->
  encode_slice buf num =
    Some (if lenN buf <? encoding_len num then None
          else Some (encoding_len num, vbyte num ++ dropN (encoding_len num) buf)).
Proof.
  intros Hn. unfold encode_slice. destruct (N.ltb_spec (lenN buf) (encoding_len num)) as [|Hle]; [done|].
  rewrite <- (takeN_dropN (encoding_len num) buf) at 1.
  rewrite encode_unchecked_ref; [done|done|]. rewrite lenN_takeN. lia.
Qed.

Lemma encode_slice_safe_witness :
  encode_slice [9; 9; 9] 300 = Some (Some (2, [44; 130; 9])).
Proof. apply (encode_slice_safe [9; 9; 9] 300). reflexivity. Defined.
