(* ===== verification/LogArrays.v ===== *)
(** * Log arrays: bit-packed arrays of unsigned integers (src/structure/logarray.rs)

    [LogArray] is the reader (parse, entry, slice, iteration),
    [LogArrayFileBuilder] the writer, [LogArrayDecoder] the streaming reader
    and [MonotonicLogArray] the sorted variant with binary search.  The file a
    builder writes to is the list of the bytes written so far. *)

From S2P Require Import Prelude.
From S2P Require Import Words.
From S2P Require Import Codec.
Open Scope N_scope.

Inductive LogArrayError : Type :=
| InputBufferTooSmall (input_buf_size : N)
| WidthTooLarge (width : N)
| UnexpectedInputBufferSize (input_buf_size expected_buf_size len width : N).

Definition validate_input_buf_size (input_buf_size : N) : outcome LogArrayError () :=
  if input_buf_size <? 8 then Err (InputBufferTooSmall input_buf_size) else Ok ().

Definition validate_len_and_width (input_buf_size len width : N) : outcome LogArrayError () :=
  if 64 <? width then Err (WidthTooLarge width)
  else
    let expected_buf_size := N.shiftl (N.shiftr (len * width + 127) 6) 3 in
    if input_buf_size =? expected_buf_size then Ok ()
    else Err (UnexpectedInputBufferSize input_buf_size expected_buf_size len width).

Definition read_control_word (buf : list N) (input_buf_size : N) : outcome LogArrayError (N * N) :=
  len ← or_panic (read_u32 buf);
  width ← or_panic (buf.[4]);
  _ ← validate_len_and_width input_buf_size len width;
  Ok (len, width).

(** [impl From<LogArrayError> for io::Error]. *)
Definition logarray_error_to_io (_ : LogArrayError) : io_error := InvalidData.

Module LogArray.

Record t : Type := mk {
  first : N;
  len : N;
  width : N;
  input_buf : list N
}.

Definition parse (input_buf : list N) : outcome LogArrayError t :=
  let input_buf_size := lenN input_buf in
  _ ← validate_input_buf_size input_buf_size;
  tail ← or_panic (slice_from (input_buf_size - 8) input_buf);
  '(len, width) ← read_control_word tail input_buf_size;
  Ok (mk 0 len width input_buf).

Definition is_empty (la : t) : bool := len la =? 0.

(** The bit arithmetic of [entry] on the two words that may hold the
    element: [offset] is the position of its first bit in [first_word]. *)
Definition decode_entry (width offset first_word second_word : N) : option N :=
  leading_zeros ← csub 64 width;
  if offset + width <=? 64 then
    x ← shl64 first_word offset; shr64 x leading_zeros
  else
    first_width ← csub 64 offset;
    second_width ← csub width first_width;
    x ← shl64 first_word offset;
    x ← shr64 x offset;
    first_part ← shl64 x second_width;
    second_shift ← csub 64 second_width;
    second_part ← shr64 second_word second_shift;
    Some (N.lor first_part second_part).

Definition entry (la : t) (index : N) : option N :=
  _ ← assert_ (index <? len la);
  let bit_index := width la * (first la + index) in
  let byte_index := N.shiftl (N.shiftr bit_index 6) 3 in
  first_word ← (slice_from byte_index (input_buf la) ≫= read_u64);
  second_word ← (slice_from (byte_index + 8) (input_buf la) ≫= read_u64);
  decode_entry (width la) (N.land bit_index 63) first_word second_word.

Definition slice (la : t) (offset slen : N) : option t :=
  _ ← assert_ (offset <? 2 ^ 32);
  _ ← assert_ (slen <? 2 ^ 32);
  slice_end ← cadd 32 offset slen;
  _ ← assert_ (slice_end <=? len la);
  Some (mk (first la + offset) slen (width la) (input_buf la)).

End LogArray.

Module LogArrayIterator.

Record t : Type := mk {
  logarray : LogArray.t;
  pos : N;
  end_ : N
}.

Definition iter (la : LogArray.t) : t := mk la 0 (LogArray.len la).

(** [None]: panic; [Some (None, _)]: the end. *)
Definition next (it : t) : option (option N * t) :=
  if pos it =? end_ it then Some (None, it)
  else
    result ← LogArray.entry (logarray it) (pos it);
    Some (Some result, mk (logarray it) (pos it + 1) (end_ it)).

(** Draining the iterator; [fuel] bounds the number of calls. *)
Fixpoint collect (fuel : nat) (it : t) : option (list N) :=
  match fuel with
  | O => None
  | S fuel =>
      '(r, it) ← next it;
      match r with
      | None => Some []
      | Some x => xs ← collect fuel it; Some (x :: xs)
      end
  end.

End LogArrayIterator.

Module LogArrayFileBuilder.

Record t : Type := mk {
  file : list N;
  width : N;
  current : N;
  offset : N;
  count : N
}.

Definition new (file : list N) (width : N) : t := mk file width 0 0 0.

Definition push (b : t) (val : N) : outcome io_error t :=
  leading_zeros ← or_panic (csub 64 (width b));
  if leading_zeros64 val <? leading_zeros then Err InvalidData
  else
    count ← or_panic (cadd 32 (count b) 1);
    x ← or_panic (shl64 val leading_zeros);
    x ← or_panic (shr64 x (offset b));
    let current := N.lor (current b) x in
    offset ← or_panic (cadd 8 (offset b) (width b));
    if 64 <=? offset then
      let file := file b ++ be64 current in
      let offset := offset - 64 in
      current ← (if offset =? 0 then Ok 0 else or_panic (shl64 val (64 - offset)));
      Ok (mk file (width b) current offset count)
    else Ok (mk (file b) (width b) current offset count).

Definition push_vec (b : t) (vals : list N) : outcome io_error t := fold_outcome push b vals.

(** A stream of values, each of which may be an error of the source. *)
Definition push_all (b : t) (vals : list (outcome io_error N)) : outcome io_error t :=
  fold_outcome (fun b val => val ← val; push b val) b vals.

Definition finalize_data (b : t) : t :=
  if negb (N.land (count b * width b) 63 =? 0)
  then mk (file b ++ be64 (current b)) (width b) (current b) (offset b) (count b)
  else b.

(** The complete file. *)
Definition finalize (b : t) : list N :=
  file (finalize_data b) ++ to_be 4 (count b) ++ [width b; 0; 0; 0].

End LogArrayFileBuilder.

Module LogArrayDecoder.

Record t : Type := mk {
  current : N;
  width : N;
  offset : N;
  remaining : N
}.

Definition new_unchecked (width remaining : N) : t := mk 0 width 64 remaining.

(** The value, the decoder and the bytes left in the buffer. *)
Definition decode (d : t) (bytes : list N) : outcome io_error (option N * t * list N) :=
  if remaining d =? 0 then Ok (None, d, [])
  else
    let first_word := current d in
    let offset := offset d in
    let width := width d in
    leading_zeros ← or_panic (csub 64 width);
    if offset + width <=? 64 then
      x ← or_panic (shl64 first_word offset);
      x ← or_panic (shr64 x leading_zeros);
      Ok (Some x, mk (current d) width (offset + width) (remaining d - 1), bytes)
    else if lenN bytes <? 8 then Ok (None, d, bytes)
    else
      second_word ← or_panic (read_u64 bytes);
      let bytes := dropN 8 bytes in
      let remaining := remaining d - 1 in
      if offset =? 64 then
        x ← or_panic (shr64 second_word leading_zeros);
        Ok (Some x, mk second_word width width remaining, bytes)
      else
        first_width ← or_panic (csub 64 offset);
        second_width ← or_panic (csub width first_width);
        x ← or_panic (shl64 first_word offset);
        x ← or_panic (shr64 x offset);
        first_part ← or_panic (shl64 x second_width);
        second_shift ← or_panic (csub 64 second_width);
        second_part ← or_panic (shr64 second_word second_shift);
        Ok (Some (N.lor first_part second_part),
            mk second_word width second_width remaining, bytes).

End LogArrayDecoder.

(** [logarray_file_get_length_and_width] reads the control word at the end of
    the file. *)
Definition logarray_file_get_length_and_width (f : list N) : outcome io_error (N * N) :=
  _ ← map_err logarray_error_to_io (validate_input_buf_size (lenN f));
  map_err logarray_error_to_io (read_control_word (dropN (lenN f - 8) f) (lenN f)).

Definition logarray_stream_entries `{FramedRead} (f : list N) : outcome io_error (list N) :=
  '(len, width) ← logarray_file_get_length_and_width f;
  framed_read LogArrayDecoder.decode (LogArrayDecoder.new_unchecked width len) f.

Module MonotonicLogArray.

(** The debug-build check of [from_logarray]. *)
Fixpoint check_monotonic (la : LogArray.t) (pred : N) (indexes : list N) : option () :=
  match indexes with
  | [] => Some ()
  | i :: indexes =>
      succ ← LogArray.entry la i;
      _ ← assert_ (pred <=? succ);
      check_monotonic la succ indexes
  end.

Definition from_logarray (debug_assertions : bool) (la : LogArray.t) : option LogArray.t :=
  if debug_assertions then
    match seqN 0 (LogArray.len la) with
    | [] => Some la
    | i :: indexes =>
        pred ← LogArray.entry la i;
        _ ← check_monotonic la pred indexes;
        Some la
    end
  else Some la.

(** The binary search of [nearest_index_of]. *)
Fixpoint nearest_loop (fuel : nat) (la : LogArray.t) (element min max : N) : option N :=
  match fuel with
  | O => None
  | S fuel =>
      if min <=? max then
        let mid := (min + max) / 2 in
        e ← LogArray.entry la mid;
        match element ?= e with
        | Eq => Some mid
        | Gt => nearest_loop fuel la element (mid + 1) max
        | Lt => if mid =? 0 then Some 0 else nearest_loop fuel la element min (mid - 1)
        end
      else Some ((min + max) / 2 + 1)
  end.

Definition nearest_index_of (la : LogArray.t) (element : N) : option N :=
  if LogArray.is_empty la then Some 0
  else nearest_loop (S (N.to_nat (LogArray.len la))) la element 0 (LogArray.len la - 1).

Definition index_of (la : LogArray.t) (element : N) : option (option N) :=
  index ← nearest_index_of la element;
  if LogArray.len la <=? index then Some None
  else
    e ← LogArray.entry la index;
    Some (if e =? element then Some index else None).

End MonotonicLogArray.

(** ** What the files mean

    Element [i] of an array of width [w] occupies bits [i * w] up to
    [i * w + w] of the file, most significant bit first. *)

Definition elem_bit (w : N) (vals : list N) (k : N) : bool :=
  match vals.[k / w] with
  | Some v => N.testbit v (w - 1 - k mod w)
  | None => false
  end.

(** [b] is a builder that has written [vals]. *)
Definition builder_repr (b : LogArrayFileBuilder.t) (vals : list N) : Prop :=
  LogArrayFileBuilder.width b <= 64 /\ (vals = [] \/ 0 < LogArrayFileBuilder.width b) /\
  LogArrayFileBuilder.offset b < 64 /\
  LogArrayFileBuilder.current b < 2 ^ 64 /\
  LogArrayFileBuilder.count b = lenN vals /\
  lenN vals < 2 ^ 32 /\
  Forall (fun v => v < 2 ^ LogArrayFileBuilder.width b) vals /\
  exists ws,
    LogArrayFileBuilder.file b = words_bytes ws /\ Forall is_word ws /\
    64 * lenN ws + LogArrayFileBuilder.offset b = lenN vals * LogArrayFileBuilder.width b /\
    forall k, gbit (ws ++ [LogArrayFileBuilder.current b]) k =
              elem_bit (LogArrayFileBuilder.width b) vals k.

(** [la] is a log array whose elements are [xs]. *)
Definition la_repr (la : LogArray.t) (xs : list N) : Prop :=
  LogArray.len la = lenN xs /\
  LogArray.width la <= 64 /\
  (xs = [] \/ 0 < LogArray.width la) /\
  Forall (fun x => x < 2 ^ LogArray.width la) xs /\
  exists ws,
    LogArray.input_buf la = words_bytes ws /\ Forall is_word ws /\
    (LogArray.first la + lenN xs) * LogArray.width la + 64 <= 64 * lenN ws /\
    forall i x j, xs.[i] = Some x -> j < LogArray.width la ->
      N.testbit x (LogArray.width la - 1 - j) =
        gbit ws (LogArray.width la * (LogArray.first la + i) + j).

(** [la] is read from the file to which [vals] were written at width [w]. *)
Definition log_array (w : N) (vals : list N) (la : LogArray.t) : Prop :=
  exists b, LogArrayFileBuilder.push_vec (LogArrayFileBuilder.new [] w) vals = Ok b /\
    LogArray.parse (LogArrayFileBuilder.finalize b) = Ok la.

Lemma elem_bit_snoc w vals v k : 0 < w ->
  elem_bit w (vals ++ [v]) k =
    if k <? lenN vals * w then elem_bit w vals k
    else if k <? lenN vals * w + w then N.testbit v (w - 1 - (k - lenN vals * w)) else false.
Proof.
  intros Hw. unfold elem_bit.
  destruct (N.ltb_spec k (lenN vals * w)) as [Hk|Hk].
  - rewrite nget_app_l; [done|]. apply N.Div0.div_lt_upper_bound. lia.
  - destruct (N.ltb_spec k (lenN vals * w + w)) as [Hk'|Hk'].
    + remember (k - lenN vals * w) as j eqn:Hj.
      assert (k = j + lenN vals * w) as -> by lia.
      rewrite N.div_add, N.Div0.mod_add, N.div_small, N.mod_small, N.add_0_l by lia.
      by rewrite nget_last.
    + rewrite (proj2 (nget_None _ _)); [done|]. rewrite lenN_app, lenN_cons, lenN_nil.
      apply N.div_le_lower_bound; lia.
Qed.

Lemma elem_bit_beyond w vals k : 0 < w -> lenN vals * w <= k -> elem_bit w vals k = false.
Proof.
  intros. unfold elem_bit. rewrite (proj2 (nget_None _ _)); [done|].
  apply N.div_le_lower_bound; lia.
Qed.

Lemma elem_bit_get w vals i v j : 0 < w -> vals.[i] = Some v -> j < w ->
  elem_bit w vals (w * i + j) = N.testbit v (w - 1 - j).
Proof.
  intros Hw Hv Hj. unfold elem_bit.
  rewrite (N.add_comm _ j), (N.mul_comm w i), N.div_add, N.Div0.mod_add by lia.
  rewrite N.div_small, N.mod_small, N.add_0_l by lia. by rewrite Hv.
Qed.

(** ** The builder *)

Section builder.
Import LogArrayFileBuilder.

Lemma builder_new w : w <= 64 -> builder_repr (new [] w) [].
Proof.
  intros Hw. split; [done|]. split; [by left|]. repeat split; simpl; try lia; [constructor|].
  exists []. repeat split; [constructor|]. intros k. simpl.
  replace (elem_bit w [] k) with false by (unfold elem_bit; by rewrite nget_nil).
  destruct (N.lt_ge_cases k 64); [by rewrite gbit_single, N.bits_0|by apply gbit_beyond].
Qed.

(** The bits [val] contributes to the current word. *)
Lemma pushed_bits val w off j : 0 < w <= 64 -> off < 64 -> j < 64 ->
  N.testbit (N.shiftr (N.shiftl val (64 - w) mod 2 ^ 64) off) (63 - j) =
    (off <=? j) && (j <? off + w) && N.testbit val (w - 1 - (j - off)).
Proof.
  intros. autorewrite with bits. case_cmp; simpl; try lia; try done.
  f_equal. lia.
Qed.

Lemma carried_bits val off j : 0 < off < 64 -> j < 64 ->
  N.testbit (N.shiftl val (64 - off) mod 2 ^ 64) (63 - j) =
    (j <? off) && N.testbit val (off - 1 - j).
Proof.
  intros. autorewrite with bits. case_cmp; simpl; try lia; try done.
  f_equal. lia.
Qed.

Lemma lor_word x y : x < 2 ^ 64 -> y < 2 ^ 64 -> N.lor x y < 2 ^ 64.
Proof.
  intros Hx Hy. apply bits_lt_pow2. intros i Hi.
  by rewrite N.lor_spec, !(testbit_above _ 64).
Qed.

Lemma pushed_word val w off : N.shiftr (N.shiftl val (64 - w) mod 2 ^ 64) off < 2 ^ 64.
Proof.
  apply bits_lt_pow2. intros i Hi. autorewrite with bits. by ncmp.
Qed.

Lemma builder_push_error b vals val : builder_repr b vals ->
  val < 2 ^ 64 -> 2 ^ width b <= val -> push b val = Err InvalidData.
Proof.
  intros (Hw & _) H64 Hval. unfold push. rewrite csub_Some by lia. simpl.
  pose proof (leading_zeros_fits val (width b) H64 ltac:(lia)). by ncmp.
Qed.

(** The bits of the file and the current word after [val]. *)
Lemma push_bits ws cur w vals val off : 0 < w <= 64 -> off < 64 ->
  64 * lenN ws + off = lenN vals * w ->
  (forall k, gbit (ws ++ [cur]) k = elem_bit w vals k) ->
  forall k, k < 64 * lenN ws + 64 ->
    gbit (ws ++ [N.lor cur (N.shiftr (N.shiftl val (64 - w) mod 2 ^ 64) off)]) k =
      elem_bit w (vals ++ [val]) k.
Proof.
  intros Hw Hoff Hlen Hbits k Hk. rewrite elem_bit_snoc by lia.
  destruct (N.lt_ge_cases k (64 * lenN ws)) as [Hlt|Hge].
  - ncmp. by rewrite <- Hbits, !gbit_app_l by done.
  - specialize (Hbits k). rewrite gbit_last in * by done. rewrite N.lor_spec, Hbits.
    rewrite pushed_bits by lia.
    destruct (N.ltb_spec k (lenN vals * w)).
    + replace (off <=? k - 64 * lenN ws) with false by (symmetry; apply N.leb_gt; lia).
      by rewrite orb_false_r.
    + rewrite elem_bit_beyond by lia. simpl.
      replace (off <=? k - 64 * lenN ws) with true by (symmetry; apply N.leb_le; lia).
      replace (k - 64 * lenN ws <? off + w) with (k <? lenN vals * w + w) by (case_cmp; lia).
      case_cmp; simpl; [|done]. f_equal. lia.
Qed.

Lemma builder_push b vals val : builder_repr b vals -> 0 < width b ->
  val < 2 ^ width b -> lenN vals + 1 < 2 ^ 32 ->
  exists b', push b val = Ok b' /\ builder_repr b' (vals ++ [val]) /\ width b' = width b.
Proof.
  intros (Hw64 & _ & Hoff & Hcur & Hcount & Hlen & Hvals & ws & Hfile & Hws & Hpos & Hbits) Hw0 Hval Hn.
  assert (Hw : 0 < width b <= 64) by done. assert (H64 : val < 2 ^ 64).
  { eapply N.lt_le_trans; [exact Hval|]. apply N.pow_le_mono_r; lia. }
  unfold push. rewrite csub_Some by lia. simpl.
  pose proof (leading_zeros_fits val (width b) H64 ltac:(lia)). ncmp.
  do 4 mstep. cbv zeta.
  set (x := N.shiftr (N.shiftl val (64 - width b) mod 2 ^ 64) (offset b)).
  pose proof (push_bits ws _ _ vals val _ Hw Hoff Hpos Hbits) as Hnew. fold x in Hnew.
  assert (Hcur' : N.lor (current b) x < 2 ^ 64) by (apply lor_word; [done|apply pushed_word]).
  assert (Hvals' : Forall (fun v => v < 2 ^ width b) (vals ++ [val])).
  { apply Forall_app. split; [done|]. by constructor. }
  destruct (N.leb_spec 64 (offset b + width b)) as [Hfull|Hpart].
  - set (off' := offset b + width b - 64).
    set (cur' := if off' =? 0 then 0 else N.shiftl val (64 - off') mod 2 ^ 64).
    assert (Hcarry : (if off' =? 0 then Ok 0 else or_panic (shl64 val (64 - off'))) =
                     Ok (E := io_error) cur').
    { unfold cur'. destruct (N.eqb_spec off' 0); [done|]. by rewrite shl64_Some by lia. }
    rewrite Hcarry. simpl mbind. eexists. split; [done|]. split; [|done].
    repeat split; cbn -[N.pow cur' off']; try lia; try done.
    + unfold cur'. case_cmp; [done|]. by apply N.mod_lt.
    + rewrite lenN_app, lenN_cons, lenN_nil. lia.
    + rewrite lenN_app, lenN_cons, lenN_nil. lia.
    + exists (ws ++ [N.lor (current b) x]).
      rewrite words_bytes_snoc, Hfile. split; [done|]. split.
      { apply Forall_app. split; [done|]. by constructor. }
      rewrite !lenN_app, !lenN_cons, !lenN_nil. split; [lia|]. intros k.
      destruct (N.lt_ge_cases k (64 * lenN ws + 64)) as [Hk|Hk].
      * rewrite gbit_app_l by (rewrite lenN_app, lenN_cons, lenN_nil; lia). by apply Hnew.
      * rewrite elem_bit_snoc by lia. ncmp.
        destruct (N.lt_ge_cases k (64 * lenN ws + 128)) as [Hk'|Hk'].
        -- rewrite gbit_last by (rewrite lenN_app, lenN_cons, lenN_nil; lia).
           rewrite lenN_app, lenN_cons, lenN_nil. unfold cur'.
           destruct (N.eqb_spec off' 0) as [Hz|Hz]; [rewrite N.bits_0; by ncmp|].
           rewrite carried_bits by lia. case_cmp; simpl; try lia; try done. f_equal. lia.
        -- rewrite gbit_beyond by (rewrite !lenN_app, !lenN_cons, !lenN_nil; lia). by ncmp.
  - eexists. split; [done|]. split; [|done].
    repeat split; cbn -[N.pow x]; try lia; try done.
    + rewrite lenN_app, lenN_cons, lenN_nil. lia.
    + rewrite lenN_app, lenN_cons, lenN_nil. lia.
    + exists ws. split; [done|]. split; [done|].
      split; [rewrite lenN_app, lenN_cons, lenN_nil; lia|]. intros k. destruct (N.lt_ge_cases k (64 * lenN ws + 64)) as [Hk|Hk]; [by apply Hnew|].
      rewrite gbit_beyond by (rewrite lenN_app, lenN_cons, lenN_nil; lia).
      rewrite elem_bit_snoc by lia. by ncmp.
Qed.

Lemma builder_push_vec vals' : forall b vals, builder_repr b vals -> vals' = [] \/ 0 < width b ->
  Forall (fun v => v < 2 ^ width b) vals' -> lenN vals + lenN vals' < 2 ^ 32 ->
  exists b', push_vec b vals' = Ok b' /\ builder_repr b' (vals ++ vals') /\ width b' = width b.
Proof.
  induction vals' as [|v vals' IH]; intros b vals Hb Hw Hv Hn.
  - exists b. rewrite app_nil_r. done.
  - destruct Hw as [|Hw]; [done|]. apply Forall_cons in Hv as [Hv Hvs]. rewrite lenN_cons in Hn.
    destruct (builder_push b vals v Hb Hw Hv ltac:(lia)) as (b1 & Hp & Hb1 & Hw1).
    destruct (IH b1 (vals ++ [v]) Hb1) as (b2 & Hp2 & Hb2 & Hw2).
    { right. by rewrite Hw1. }
    { by rewrite Hw1. }
    { rewrite lenN_app, lenN_cons, lenN_nil. lia. }
    exists b2. rewrite <- app_assoc in Hb2. unfold push_vec in *. simpl. rewrite Hp. simpl.
    split; [done|]. split; [done|]. congruence.
Qed.
End builder.

(** ** The reader *)

Section reader.
Import LogArray.

Lemma gbit_two f s k : k < 128 ->
  gbit [f; s] k = if k <? 64 then N.testbit f (63 - k) else N.testbit s (127 - k).
Proof.
  intros Hk. change [f; s] with ([f] ++ [s]). case_cmp.
  - rewrite gbit_app_l by (rewrite lenN_cons, lenN_nil; lia). by apply gbit_single.
  - rewrite gbit_last by (rewrite lenN_cons, lenN_nil; lia). f_equal.
    rewrite lenN_cons, lenN_nil. lia.
Qed.

Lemma decode_entry_split w off f s : 0 < w <= 64 -> off < 64 -> 64 < off + w ->
  decode_entry w off f s =
    Some (N.lor (N.shiftl (N.shiftr (N.shiftl f off mod 2 ^ 64) off) (w - (64 - off)) mod 2 ^ 64)
                (N.shiftr s (64 - (w - (64 - off))))).
Proof. intros. unfold decode_entry. mstep. ncmp. by do 7 mstep. Qed.

Lemma decode_entry_bits w off f s : 0 < w <= 64 -> off < 64 -> is_word f -> is_word s ->
  exists v, decode_entry w off f s = Some v /\ v < 2 ^ w /\
    forall j, j < w -> N.testbit v (w - 1 - j) = gbit [f; s] (off + j).
Proof.
  intros Hw Hoff Hf Hs. destruct (N.le_gt_cases (off + w) 64) as [Hfit|Hsplit].
  - unfold decode_entry. mstep. ncmp. mstep. rewrite shr64_Some by lia.
    eexists. split; [done|]. split.
    + apply bits_lt_pow2. intros i Hi. autorewrite with bits. by ncmp.
    + intros j Hj. rewrite gbit_two by lia. autorewrite with bits. ncmp. simpl. f_equal. lia.
  - rewrite decode_entry_split by lia. eexists. split; [done|]. split.
    + apply bits_lt_pow2. intros i Hi. autorewrite with bits.
      rewrite (testbit_above s 64) by (done || lia). rewrite orb_false_r.
      case_cmp; simpl; try done; try lia.
    + intros j Hj. rewrite gbit_two by lia. autorewrite with bits.
      destruct (N.ltb_spec (off + j) 64) as [Hj'|Hj'].
      * rewrite (testbit_above s 64) by (done || lia). rewrite orb_false_r. ncmp. simpl.
        f_equal. lia.
      * replace (w - (64 - off) <=? w - 1 - j) with false by (symmetry; apply N.leb_gt; lia).
        rewrite andb_false_r. simpl. f_equal. lia.
Qed.

(** The two words [entry] reads. *)
Lemma read_two_words ws k : Forall is_word ws -> k + 1 < lenN ws ->
  exists f s,
    (slice_from (8 * k) (words_bytes ws) ≫= read_u64) = Some f /\
    (slice_from (8 * k + 8) (words_bytes ws) ≫= read_u64) = Some s /\
    is_word f /\ is_word s /\
    forall j, j < 128 -> gbit [f; s] j = gbit ws (64 * k + j).
Proof.
  intros Hws Hk. destruct (nget_lt ws k ltac:(lia)) as [f Hf].
  destruct (nget_lt ws (k + 1) ltac:(lia)) as [s Hs].
  exists f, s. replace (8 * k + 8) with (8 * (k + 1)) by lia. rewrite !read_word by done.
  repeat split; [done|done|by eapply Forall_nget|by eapply Forall_nget|].
  intros j Hj. rewrite gbit_two by done. unfold gbit.
  rewrite (N.mul_comm 64 k), N.add_comm, N.div_add, N.Div0.mod_add by done.
  destruct (N.ltb_spec j 64).
  - rewrite N.div_small, N.mod_small, N.add_0_l by done. by rewrite Hf.
  - replace j with (j - 64 + 1 * 64) by lia. rewrite N.div_add, N.Div0.mod_add by done.
    rewrite N.div_small, N.mod_small, N.add_0_l by lia.
    rewrite (N.add_comm 1 k), Hs. f_equal. lia.
Qed.

Lemma la_entry la xs i : la_repr la xs -> entry la i = xs.[i].
Proof.
  intros (Hlen & Hw64 & Hw & Hxs & ws & Hbuf & Hws & Hsize & Hbits). unfold entry.
  destruct (N.lt_ge_cases i (lenN xs)) as [Hi|Hi].
  2:{ rewrite (proj2 (nget_None _ _)) by done. rewrite Hlen. by ncmp. }
  destruct (nget_lt xs i Hi) as [x Hx]. rewrite Hx, Hlen. ncmp. unfold assert_. mcbn.
  destruct Hw as [->|Hw]; [done|].
  remember (width la * (first la + i)) as p eqn:Ep. rewrite shiftr_6, shiftl_3.
  assert (Hp : p + width la + 64 <= 64 * lenN ws).
  { rewrite Ep. transitivity ((first la + lenN xs) * width la + 64); [|done]. nia. }
  pose proof (N.div_mod p 64 ltac:(done)) as Hdm.
  assert (Hmod : p mod 64 < 64) by (by apply N.mod_lt).
  assert (Hk : p / 64 + 1 < lenN ws) by (clear - Hp Hw; dlia).
  destruct (read_two_words ws (p / 64) Hws Hk) as (f & s & Hf & Hs & Hfw & Hsw & Htwo).
  rewrite Hbuf, Hf, Hs. mcbn. rewrite land_63.
  destruct (decode_entry_bits (width la) (p mod 64) f s ltac:(lia) Hmod Hfw Hsw)
    as (v & Hv & Hvw & Hvb).
  rewrite Hv. f_equal. apply (bits_inj_lt (width la)); [done|by eapply Forall_nget in Hxs|].
  intros b Hb. replace b with (width la - 1 - (width la - 1 - b)) by lia.
  rewrite Hvb, (Hbits i x) by (done || lia). rewrite Htwo by lia. f_equal. lia.
Qed.

Lemma la_slice la xs o n : la_repr la xs -> o + n <= lenN xs -> lenN xs < 2 ^ 32 ->
  exists la', slice la o n = Some la' /\ la_repr la' (takeN n (dropN o xs)).
Proof.
  intros (Hlen & Hw64 & Hw & Hxs & ws & Hbuf & Hws & Hsize & Hbits) Hon H32.
  unfold slice, assert_. ncmp. mcbn. rewrite cadd_Some by lia. mcbn. ncmp. mcbn.
  eexists. split; [done|].
  assert (Hl : lenN (takeN n (dropN o xs)) = n) by (rewrite lenN_takeN, lenN_dropN; lia).
  repeat split; cbn -[N.pow]; try done.
  - destruct Hw as [->|Hw]; [left|by right]. unfold takeN, dropN. by rewrite drop_nil, take_nil.
  - apply Forall_take. by apply Forall_drop.
  - exists ws. split; [done|]. split; [done|]. rewrite Hl. split; [nia|].
    intros i x j Hi Hj. pose proof (nget_Some_lt _ _ _ Hi) as Hlt. rewrite Hl in Hlt.
    rewrite nget_takeN in Hi by done. rewrite nget_dropN in Hi.
    rewrite (Hbits _ _ _ Hi Hj). f_equal. lia.
Qed.

Lemma la_slice_panics la xs o n : la_repr la xs -> lenN xs < o + n -> slice la o n = None.
Proof.
  intros (Hlen & _) Hon. unfold slice, assert_. case_cmp; mcbn; try done.
  unfold cadd. case_cmp; mcbn; try done. case_cmp; mcbn; [lia|done].
Qed.
End reader.

(** ** Builder and reader *)

Section build_parse.
Import LogArray.

Lemma read_be64_as_word l : Forall is_byte l -> lenN l = 8 -> exists c, be64 c = l /\ is_word c.
Proof.
  intros Hl Hlen. exists (of_be l). split.
  - unfold be64. replace 8%nat with (length l) by (unfold lenN in Hlen; lia).
    by apply to_be_of_be.
  - unfold is_word. pose proof (of_be_bound l Hl) as H. by rewrite Hlen in H.
Qed.

Lemma builder_finalize b vals : builder_repr b vals ->
  exists ws, LogArrayFileBuilder.finalize b =
      words_bytes ws ++ to_be 4 (lenN vals) ++ [LogArrayFileBuilder.width b; 0; 0; 0] /\
    Forall is_word ws /\
    lenN ws = (lenN vals * LogArrayFileBuilder.width b + 63) / 64 /\
    forall k, k < lenN vals * LogArrayFileBuilder.width b ->
      gbit ws k = elem_bit (LogArrayFileBuilder.width b) vals k.
Proof.
  intros (Hw & _ & Hoff & Hcur & Hcount & Hlen & Hvals & ws & Hfile & Hws & Hpos & Hbits).
  unfold LogArrayFileBuilder.finalize, LogArrayFileBuilder.finalize_data.
  rewrite Hcount, land_63.
  assert (Hmod : (lenN vals * LogArrayFileBuilder.width b) mod 64 = LogArrayFileBuilder.offset b).
  { symmetry. apply (N.mod_unique _ _ (lenN ws)); lia. }
  rewrite Hmod. destruct (N.eqb_spec (LogArrayFileBuilder.offset b) 0) as [Hz|Hz]; simpl.
  - exists ws. rewrite Hfile, ?Hcount. split; [done|]. split; [done|]. split.
    + apply (N.div_unique _ _ _ 63); lia.
    + intros k Hk. rewrite <- Hbits. symmetry. apply gbit_app_l. lia.
  - exists (ws ++ [LogArrayFileBuilder.current b]). rewrite words_bytes_snoc, Hfile, ?Hcount.
    split; [done|]. split; [apply Forall_app; split; [done|by constructor]|]. split.
    + rewrite lenN_app, lenN_cons, lenN_nil.
      apply (N.div_unique _ _ _ (LogArrayFileBuilder.offset b - 1)); lia.
    + intros k Hk. apply Hbits.
Qed.

Lemma la_parse b vals : builder_repr b vals ->
  exists la, parse (LogArrayFileBuilder.finalize b) = Ok la /\ la_repr la vals /\
    width la = LogArrayFileBuilder.width b.
Proof.
  intros Hb. destruct (builder_finalize b vals Hb) as (ws & Hfin & Hws & Hlws & Hbits).
  destruct Hb as (Hw & Hw0 & _ & _ & _ & Hlen & Hvals & _).
  set (w := LogArrayFileBuilder.width b) in *. set (n := lenN vals) in *.
  set (ctl := to_be 4 n ++ [w; 0; 0; 0]) in *.
  assert (Hctl : lenN ctl = 8) by done.
  unfold parse, validate_input_buf_size. rewrite Hfin, lenN_app, lenN_words_bytes, Hctl.
  ncmp. mcbn. rewrite slice_from_Some by (rewrite lenN_app, lenN_words_bytes; lia). mcbn.
  replace (8 * lenN ws + 8 - 8) with (lenN (words_bytes ws)) by (rewrite lenN_words_bytes; lia).
  rewrite dropN_app. unfold read_control_word.
  replace (read_u32 ctl) with (Some n) by (symmetry; by apply read_u32_be32). mcbn. change (ctl.[4]) with (Some w). mcbn. unfold validate_len_and_width. ncmp.
  rewrite shiftr_6, shiftl_3. replace ((n * w + 127) / 64) with (lenN ws + 1).
  2:{ rewrite Hlws. replace (n * w + 127) with (n * w + 63 + 1 * 64) by lia.
      by rewrite N.div_add. }
  ncmp. mcbn. eexists. split; [done|]. split; [|done].
  destruct (read_be64_as_word ctl) as (c & Hc & Hcw); [|done|].
  { unfold ctl. apply Forall_app. split; [apply to_be_bytes|]. unfold is_byte.
    repeat constructor. lia. }
  repeat split; cbn -[N.pow]; [lia|done|done|].
  exists (ws ++ [c]). rewrite words_bytes_snoc, Hc. split; [done|].
  split; [apply Forall_app; split; [done|by constructor]|].
  assert (n * w <= 64 * lenN ws) by (rewrite Hlws; dlia).
  split; [rewrite lenN_app, lenN_cons, lenN_nil; fold n; lia|].
  intros i x j Hi Hj. pose proof (nget_Some_lt _ _ _ Hi) as Hlt. fold n in Hlt.
  rewrite N.add_0_l, gbit_app_l by nia. rewrite Hbits by nia.
  symmetry. destruct Hw0 as [->|Hw0]; [done|]. by apply elem_bit_get; [lia|..].
Qed.

Lemma la_build w vals : w <= 64 -> vals = [] \/ 0 < w -> Forall (fun v => v < 2 ^ w) vals -> lenN vals < 2 ^ 32 ->
  exists b la,
    LogArrayFileBuilder.push_vec (LogArrayFileBuilder.new [] w) vals = Ok b /\
    parse (LogArrayFileBuilder.finalize b) = Ok la /\ la_repr la vals /\ width la = w.
Proof.
  intros Hw Hw0 Hv Hn.
  destruct (builder_push_vec vals _ _ (builder_new w Hw) Hw0 Hv Hn) as (b & Hp & Hb & Hbw).
  destruct (la_parse b vals Hb) as (la & Hla & Hrepr & Hlw).
  exists b, la. split; [done|]. split; [done|]. split; [done|]. by rewrite Hlw, Hbw.
Qed.
End build_parse.

(** ** Iteration *)

Section iterator.
Import LogArrayIterator.

Lemma collect_from la xs fuel : forall i, la_repr la xs -> i <= lenN xs ->
  (N.to_nat (lenN xs - i) < fuel)%nat ->
  collect fuel (mk la i (LogArray.len la)) = Some (dropN i xs).
Proof.
  induction fuel as [|fuel IH]; intros i Hla Hi Hf; [lia|].
  pose proof Hla as (Hlen & _). cbn [collect]. unfold next. simpl. rewrite Hlen.
  destruct (N.eqb_spec i (lenN xs)) as [->|Hne]; mcbn.
  - f_equal. symmetry. apply list_eq_nget. intros j. rewrite nget_dropN, nget_nil.
    apply nget_None. lia.
  - rewrite (la_entry la xs) by done. destruct (nget_lt xs i) as [x Hx]; [lia|].
    rewrite Hx. mcbn. rewrite <- Hlen, IH by (done || lia). mcbn. f_equal.
    unfold dropN. replace (N.to_nat (i + 1)) with (S (N.to_nat i)) by lia.
    symmetry. by apply drop_S.
Qed.

Lemma collect_iter la xs : la_repr la xs ->
  collect (S (length xs)) (iter la) = Some xs.
Proof. intros. unfold iter. rewrite (collect_from la xs); [done|done|lia|unfold lenN; lia]. Qed.
End iterator.

(** ** Streaming *)

Section decoder.
Import LogArrayDecoder.

Context (ws : list N) (w : N) (xs : list N).
Hypothesis Hws : Forall is_word ws.
Hypothesis Hw64 : w <= 64.
Hypothesis Hw : xs = [] \/ 0 < w.
Hypothesis Hxs : Forall (fun x => x < 2 ^ w) xs.
Hypothesis Hsize : lenN xs * w <= 64 * lenN ws.
Hypothesis Hbits : forall i x j, xs.[i] = Some x -> j < w ->
  N.testbit x (w - 1 - j) = gbit ws (w * i + j).

(** [k] words have been read and [i] elements returned. *)
Definition decoder_inv (d : t) (k i : N) : Prop :=
  width d = w /\ i <= lenN xs /\ remaining d = lenN xs - i /\ k <= lenN ws /\
  offset d <= 64 /\ 64 * k + offset d = i * w + 64 /\
  (0 < k -> ws.[k - 1] = Some (current d)).

Lemma decoder_inv_new : decoder_inv (new_unchecked w (lenN xs)) 0 0.
Proof. repeat split; simpl; try lia. Qed.

Lemma decode_value i x v b : xs.[i] = Some x -> v < 2 ^ w ->
  (forall j, j < w -> N.testbit v (w - 1 - j) = gbit ws (b + j)) -> b = w * i -> v = x.
Proof.
  intros Hx Hv Hvb ->. apply (bits_inj_lt w); [done|by eapply Forall_nget in Hxs|].
  intros j Hj. replace j with (w - 1 - (w - 1 - j)) by lia.
  rewrite Hvb, (Hbits i x) by (done || lia). done.
Qed.

Lemma gbit_word k f j : ws.[k] = Some f -> j < 64 -> N.testbit f (63 - j) = gbit ws (64 * k + j).
Proof.
  intros Hf Hj. unfold gbit.
  rewrite (N.mul_comm 64 k), N.add_comm, N.div_add, N.Div0.mod_add by done.
  by rewrite N.div_small, N.mod_small, N.add_0_l, Hf by done.
Qed.

Lemma decode_end d k bytes : decoder_inv d k (lenN xs) -> decode d bytes = Ok (None, d, []).
Proof.
  intros (_ & _ & Hr & _). unfold decode. rewrite N.sub_diag in Hr. by rewrite Hr.
Qed.

Lemma decode_step d k i x bytes later :
  decoder_inv d k i -> xs.[i] = Some x -> bytes ++ later = words_bytes (dropN k ws) ->
  (exists d' k' bytes', decode d bytes = Ok (Some x, d', bytes') /\
     decoder_inv d' k' (i + 1) /\ bytes' ++ later = words_bytes (dropN k' ws)) \/
  (lenN bytes < 8 /\ decode d bytes = Ok (None, d, bytes) /\ 0 < lenN later).
Proof.
  intros (Hdw & Hi & Hr & Hk & Hoff & Hpos & Hcur) Hx Hbytes.
  pose proof (nget_Some_lt _ _ _ Hx) as Hlt.
  assert (Hww : 0 < w <= 64) by (destruct Hw as [E|]; [by rewrite E, nget_nil in Hx|done]).
  unfold decode. rewrite Hr, Hdw. replace (lenN xs - i =? 0) with false by (symmetry; apply N.eqb_neq; lia).
  cbv zeta. mstep. destruct (N.leb_spec (offset d + w) 64) as [Hfit|Hsplit].
  - left. specialize (Hcur ltac:(lia)). do 2 mstep. eexists _, k, _. split; [|split].
    + do 4 f_equal. apply (decode_value i _ _ (64 * (k - 1) + offset d) Hx); [| |lia].
      * apply bits_lt_pow2. intros j Hj. autorewrite with bits. by ncmp.
      * intros j Hj. rewrite <- N.add_assoc, <- (gbit_word (k - 1) _ _ Hcur) by lia.
        autorewrite with bits. ncmp. simpl. f_equal. lia.
    + repeat split; simpl; (done || lia).
    + done.
  - assert (Hkw : k < lenN ws) by nia.
    assert (Hall : lenN bytes + lenN later = 8 * (lenN ws - k)).
    { rewrite <- lenN_app, Hbytes, lenN_words_bytes, lenN_dropN. lia. }
    destruct (N.ltb_spec (lenN bytes) 8) as [Hshort|Hlong]; [right; split; [done|split; [done|lia]]|].
    left. destruct (nget_lt ws k Hkw) as [s Hs].
    assert (Hrd : read_u64 bytes = Some s /\ dropN 8 bytes ++ later = words_bytes (dropN (k + 1) ws)).
    { assert (Hd : dropN k ws = s :: dropN (k + 1) ws).
      { unfold dropN. replace (N.to_nat (k + 1)) with (S (N.to_nat k)) by lia. by apply drop_S. }
      rewrite Hd, words_bytes_cons in Hbytes.
      rewrite <- (takeN_dropN 8 bytes), <- app_assoc in Hbytes.
      apply app_inj_1 in Hbytes as [Ht Hd8].
      2:{ apply Nat2N.inj. change (lenN (takeN 8 bytes) = 8). rewrite lenN_takeN. lia. }
      split; [|done]. rewrite <- (takeN_dropN 8 bytes), Ht. apply read_u64_be64.
      by eapply (Forall_nget is_word ws). }
    destruct Hrd as [-> Hrest]. mcbn.
    destruct (N.eqb_spec (offset d) 64) as [H64|H64].
    + mstep. eexists _, (k + 1), _. split; [|split].
      * do 4 f_equal. apply (decode_value i _ _ (64 * k) Hx); [| |lia].
        -- apply bits_lt_pow2. intros j Hj. rewrite N.shiftr_spec'.
           apply (testbit_above _ 64); [by eapply (Forall_nget is_word ws)|lia].
        -- intros j Hj. rewrite <- (gbit_word k _ _ Hs) by lia. rewrite N.shiftr_spec'. f_equal. lia.
      * repeat split; simpl; try lia; try done. intros _. by rewrite N.add_sub.
      * done.
    + specialize (Hcur ltac:(lia)).
      assert (Hf : is_word (current d)) by (by eapply (Forall_nget is_word ws)).
      assert (Hsw : is_word s) by (by eapply (Forall_nget is_word ws)).
      destruct (decode_entry_bits w (offset d) (current d) s Hww ltac:(lia) Hf Hsw)
        as (v & Hv & Hvw & Hvb).
      rewrite decode_entry_split in Hv by lia. injection Hv as Hv.
      do 7 mstep. eexists _, (k + 1), _. split; [|split].
      * rewrite Hv. do 4 f_equal. apply (decode_value i _ _ (64 * (k - 1) + offset d) Hx); [done| |lia].
        intros j Hj. rewrite Hvb by done. rewrite gbit_two by lia. destruct (N.ltb_spec (offset d + j) 64).
        -- rewrite <- N.add_assoc. by apply gbit_word.
        -- replace (64 * (k - 1) + offset d + j) with (64 * k + (offset d + j - 64)) by lia.
           rewrite <- (gbit_word k s) by (done || lia). f_equal. lia.
      * repeat split; simpl; try lia; try done. intros _. by rewrite N.add_sub.
      * done.
Qed.

Lemma stream_run n : forall d k i buf chunks, (length chunks + (length xs - N.to_nat i) <= n)%nat ->
  decoder_inv d k i -> (i < lenN xs -> buf ++ concat chunks = words_bytes (dropN k ws)) ->
  framed_run decode d buf chunks (dropN i xs).
Proof.
  induction n as [n IH] using lt_wf_ind. intros d k i buf chunks Hn Hinv Hb.
  destruct (N.lt_ge_cases i (lenN xs)) as [Hi|Hi].
  - destruct (nget_lt xs i Hi) as [x Hx]. rewrite (dropN_cons xs i x Hx).
    destruct (decode_step d k i x buf (concat chunks) Hinv Hx (Hb Hi))
      as [(d' & k' & buf' & Hd & Hinv' & Hb')|(Hshort & Hd & Hlater)].
    + eapply run_item; [done|]. eapply (IH (n - 1)%nat); [| |done|done]; unfold lenN in *; lia.
    + destruct chunks as [|chunk chunks]; [rewrite lenN_nil in Hlater; lia|]. simpl in Hn.
      eapply run_more; [done|]. rewrite <- (dropN_cons xs i x Hx).
      eapply (IH (n - 1)%nat); [lia|lia|done|]. intros _. rewrite <- app_assoc. by apply Hb.
  - assert (i = lenN xs) as -> by (destruct Hinv; lia).
    pose proof (decode_end d k buf Hinv) as Hd.
    assert (Hdrop : dropN (lenN xs) xs = []) by (unfold dropN, lenN; rewrite Nat2N.id; apply drop_all).
    rewrite Hdrop. destruct chunks as [|chunk chunks]; [by eapply run_eof|].
    simpl in Hn. eapply run_more; [done|]. rewrite <- Hdrop.
    eapply (IH (n - 1)%nat); [lia|lia|done|]. lia.
Qed.
End decoder.

Lemma logarray_stream_repr `{FramedRead} b vals : builder_repr b vals ->
  logarray_stream_entries (LogArrayFileBuilder.finalize b) = Ok vals.
Proof.
  intros Hb. destruct (builder_finalize b vals Hb) as (ws & Hfin & Hws & Hlws & Hbits).
  destruct Hb as (Hw & Hw0 & _ & _ & _ & Hlen & Hvals & _). set (w := LogArrayFileBuilder.width b) in *.
  destruct (read_be64_as_word (to_be 4 (lenN vals) ++ [w; 0; 0; 0])) as (c & Hc & Hcw); [|done|].
  { apply Forall_app. split; [apply to_be_bytes|]. repeat constructor; unfold is_byte; lia. }
  assert (Hfile : LogArrayFileBuilder.finalize b = words_bytes (ws ++ [c])).
  { by rewrite words_bytes_snoc, Hc. }
  assert (Hsz : lenN (LogArrayFileBuilder.finalize b) = 8 * lenN ws + 8).
  { rewrite Hfile, lenN_words_bytes, lenN_app, lenN_cons, lenN_nil. lia. }
  unfold logarray_stream_entries, logarray_file_get_length_and_width.
  unfold validate_input_buf_size. rewrite Hsz. ncmp. mcbn.
  rewrite Hfin. replace (8 * lenN ws + 8 - 8) with (lenN (words_bytes ws)) by (rewrite lenN_words_bytes; lia).
  rewrite dropN_app, <- Hfin. unfold read_control_word. rewrite read_u32_be32 by done. mcbn.
  rewrite nget_app_r by (rewrite lenN_to_be; lia).
  change ([w; 0; 0; 0].[4 - lenN (to_be 4 (lenN vals))]) with (Some w). mcbn.
  unfold validate_len_and_width. ncmp. rewrite shiftr_6, shiftl_3.
  replace (8 * ((lenN vals * w + 127) / 64)) with (8 * lenN ws + 8)
    by (rewrite Hlws; generalize (lenN vals * w); clear; intros; dlia).
  rewrite N.eqb_refl. mcbn. rewrite Hfile.
  destruct (framed_read_law _ _ LogArrayDecoder.decode (LogArrayDecoder.new_unchecked w (lenN vals))
              (words_bytes (ws ++ [c]))) as (chunks & Hch & Hrun).
  assert (Hall : lenN vals * w <= 64 * lenN ws)
    by (rewrite Hlws; generalize (lenN vals * w); clear; intros; dlia).
  apply Hrun.
  - eapply (stream_run (ws ++ [c]) w vals) with (i := 0) (k := 0); [..|done| |by intros; rewrite Hch].
    + apply Forall_app. split; [done|by constructor].
    + done.
    + done.
    + done.
    + rewrite lenN_app. lia.
    + intros i x j Hx Hj. pose proof (nget_Some_lt _ _ _ Hx). rewrite gbit_app_l by nia.
      rewrite Hbits by nia. destruct Hw0 as [->|Hw0]; [done|]. by rewrite (elem_bit_get w vals i x j) by (done || lia).
    + apply decoder_inv_new; try done. rewrite lenN_app. lia.
  - rewrite Hfile, lenN_words_bytes, lenN_app in Hsz. pose proof (lenN_words_bytes (ws ++ [c])) as Hl.
    rewrite lenN_app in Hl. unfold items_bound, lenN in *. destruct Hw0 as [->|Hw0]; [simpl in *; lia|nia].
Qed.

(** ** Binary search *)

Section monotonic.
Import MonotonicLogArray.

Lemma nearest_loop_spec la xs e fuel : forall min max, la_repr la xs -> increasing xs ->
  max < lenN xs -> min <= lt_count e xs <= max + 1 -> (N.to_nat (max + 1 - min) < fuel)%nat ->
  nearest_loop fuel la e min max = Some (lt_count e xs).
Proof.
  induction fuel as [|fuel IH]; intros min max Hla Hs Hmax Hr Hf; [lia|]. cbn [nearest_loop].
  destruct (N.leb_spec min max) as [Hle|Hgt].
  - assert (Hmid : min <= (min + max) / 2 <= max) by dlia.
    set (mid := (min + max) / 2) in *. clearbody mid.
    rewrite (la_entry la xs) by done. destruct (nget_lt xs mid) as [x Hx]; [lia|].
    rewrite Hx. mcbn. pose proof (lt_count_spec e xs mid x Hs Hx) as Hspec.
    destruct (N.compare_spec e x) as [->|Hlt|Hgt].
    + f_equal. symmetry. by apply lt_count_nget.
    + destruct (N.eqb_spec mid 0) as [->|]; [f_equal; lia|].
      apply IH; (done || lia).
    + apply IH; (done || lia).
  - assert (min = max + 1) as -> by lia. f_equal.
    assert ((max + 1 + max) / 2 = max) as -> by dlia. lia.
Qed.

Lemma nearest_index_of_spec la xs e : la_repr la xs -> increasing xs ->
  nearest_index_of la e = Some (lt_count e xs).
Proof.
  intros Hla Hs. pose proof Hla as (Hlen & _). pose proof (lt_count_le e xs).
  unfold nearest_index_of, LogArray.is_empty. rewrite Hlen. destruct (N.eqb_spec (lenN xs) 0).
  - f_equal. lia.
  - apply nearest_loop_spec; try done; lia.
Qed.

Lemma index_of_spec la xs e : la_repr la xs -> increasing xs ->
  index_of la e = Some (if decide (e ∈ xs) then Some (lt_count e xs) else None).
Proof.
  intros Hla Hs. pose proof Hla as (Hlen & _). unfold index_of.
  rewrite (nearest_index_of_spec la xs) by done. mcbn. rewrite Hlen.
  destruct (decide (e ∈ xs)) as [[i Hi]%elem_nget|Hne].
  - rewrite (lt_count_nget e xs i) by done. pose proof (nget_Some_lt _ _ _ Hi). ncmp.
    rewrite (la_entry la xs), Hi by done. mcbn. by rewrite N.eqb_refl.
  - case_cmp; [done|]. rewrite (la_entry la xs) by done.
    destruct (nget_lt xs (lt_count e xs)) as [y Hy]; [done|]. rewrite Hy. mcbn.
    destruct (N.eqb_spec y e) as [->|]; [|done]. by apply nget_elem in Hy.
Qed.

Lemma check_monotonic_spec la xs n : forall i x, la_repr la xs -> increasing xs ->
  xs.[i] = Some x -> i + 1 + N.of_nat n = lenN xs ->
  check_monotonic la x (seqN (i + 1) (N.of_nat n)) = Some ().
Proof.
  induction n as [|n IH]; intros i x Hla Hs Hx Hn; [done|].
  unfold seqN in *. rewrite Nat2N.id in *. cbn [seq fmap list_fmap check_monotonic].
  rewrite N.add_0_r. rewrite (la_entry la xs) by done.
  destruct (nget_lt xs (i + 1)) as [y Hy]; [lia|]. rewrite Hy. mcbn.
  pose proof (increasing_nget _ _ _ _ _ Hs Hx Hy ltac:(lia)). mstep.
  rewrite <- fmap_S_seq, <- list_fmap_compose.
  rewrite <- (IH (i + 1) y Hla Hs Hy ltac:(lia)) at 1. f_equal.
  apply list_fmap_ext. intros ? ? _. simpl. lia.
Qed.

Lemma from_logarray_increasing la xs debug : la_repr la xs -> increasing xs ->
  from_logarray debug la = Some la.
Proof.
  intros Hla Hs. unfold from_logarray. destruct debug; [|done].
  pose proof Hla as (Hlen & _). rewrite Hlen. destruct xs as [|x xs]; [done|].
  rewrite lenN_cons. unfold seqN. replace (N.to_nat (1 + lenN xs)) with (S (length xs)) by (unfold lenN; lia).
  cbn [seq fmap list_fmap]. rewrite (la_entry la (x :: xs)) by done.
  change ((x :: xs).[0 + N.of_nat 0]) with (Some x). mcbn.
  pose proof (check_monotonic_spec la (x :: xs) (length xs) 0 x Hla Hs eq_refl) as H.
  unfold seqN in H. rewrite Nat2N.id in H. rewrite <- fmap_S_seq, <- list_fmap_compose.
  replace ((λ i : nat, 0 + N.of_nat i) ∘ S <$> seq 0 (length xs))
    with ((λ i : nat, 0 + 1 + N.of_nat i) <$> seq 0 (length xs)).
  - rewrite H; [done|]. rewrite lenN_cons. unfold lenN. lia.
  - apply list_fmap_ext. intros ? ? _. simpl. lia.
Qed.
End monotonic.

(** ** Parsing any file *)

Lemma list_choose {A} (P : N -> A -> Prop) n : (forall i, i < n -> exists v, P i v) ->
  exists xs, lenN xs = n /\ forall i x, xs.[i] = Some x -> P i x.
Proof.
  induction n as [|n IH] using N.peano_ind; intros H.
  - exists []. split; [done|]. intros i x Hi. by rewrite nget_nil in Hi.
  - destruct IH as (xs & Hl & Hxs); [intros; apply H; lia|].
    destruct (H n) as [v Hv]; [lia|]. exists (xs ++ [v]). split; [rewrite lenN_app, lenN_cons, lenN_nil; lia|].
    intros i x Hi. destruct (N.lt_ge_cases i (lenN xs)) as [Hlt|Hge].
    + rewrite nget_app_l in Hi by done. by apply Hxs.
    + pose proof (nget_Some_lt _ _ _ Hi) as Hi'. rewrite lenN_app, lenN_cons, lenN_nil in Hi'.
      assert (i = lenN xs) as -> by lia. rewrite nget_last in Hi. injection Hi as <-. by rewrite Hl.
Qed.

(** A window of the words read as numbers. *)
Lemma words_decode ws w n : Forall is_word ws -> 0 < w <= 64 -> n * w + 64 <= 64 * lenN ws ->
  exists xs, lenN xs = n /\ forall i x, xs.[i] = Some x ->
    x < 2 ^ w /\ forall j, j < w -> N.testbit x (w - 1 - j) = gbit ws (w * i + j).
Proof.
  intros Hws Hw Hn. apply (list_choose (fun i x => x < 2 ^ w /\
    forall j, j < w -> N.testbit x (w - 1 - j) = gbit ws (w * i + j))).
  intros i Hi. remember (w * i) as p eqn:Ep.
  assert (Hp : p + w + 64 <= 64 * lenN ws) by (rewrite Ep; nia).
  assert (Hk : p / 64 + 1 < lenN ws) by (clear - Hp Hw; dlia).
  destruct (read_two_words ws (p / 64) Hws Hk) as (f & s & _ & _ & Hfw & Hsw & Htwo).
  assert (Hmod : p mod 64 < 64) by (by apply N.mod_lt).
  destruct (decode_entry_bits w (p mod 64) f s Hw Hmod Hfw Hsw) as (v & _ & Hvw & Hvb).
  exists v. split; [done|]. intros j Hj. rewrite Hvb, Htwo by lia. f_equal.
  pose proof (N.div_mod p 64 ltac:(done)). lia.
Qed.

Lemma read_u32_total l : 4 <= lenN l -> exists x, read_u32 l = Some x.
Proof. intros. unfold read_u32. ncmp. by eexists. Qed.

Lemma la_parse_any buf : Forall is_byte buf ->
  match LogArray.parse buf with
  | Ok la => LogArray.width la <= 64 /\ (0 < LogArray.width la -> exists xs, la_repr la xs)
  | Err _ => True
  | Panic => False
  end.
Proof.
  intros Hb. unfold LogArray.parse, validate_input_buf_size.
  destruct (N.ltb_spec (lenN buf) 8); mcbn; [done|].
  rewrite slice_from_Some by lia. mcbn. unfold read_control_word.
  destruct (read_u32_total (dropN (lenN buf - 8) buf)) as [len Hlen]; [rewrite lenN_dropN; lia|].
  rewrite Hlen. mcbn.
  destruct (nget_lt (dropN (lenN buf - 8) buf) 4) as [width Hwidth]; [rewrite lenN_dropN; lia|].
  rewrite Hwidth. mcbn. unfold validate_len_and_width.
  destruct (N.ltb_spec 64 width); mcbn; [done|]. rewrite shiftr_6, shiftl_3.
  set (words := (len * width + 127) / 64).
  destruct (N.eqb_spec (lenN buf) (8 * words)) as [Hsz|]; mcbn; [|done]. cbn [LogArray.width].
  split; [done|]. intros Hw.
  destruct (bytes_are_words (N.to_nat words) buf Hb) as (ws & -> & Hws); [lia|].
  rewrite lenN_words_bytes in Hsz.
  assert (Hn : len * width + 64 <= 64 * lenN ws).
  { replace (lenN ws) with words by lia. unfold words. generalize (len * width). clear. intros. dlia. }
  destruct (words_decode ws width len Hws) as (xs & Hl & Hxs); [lia|done|].
  exists xs. unfold la_repr. cbn [LogArray.len LogArray.width LogArray.input_buf LogArray.first].
  split; [done|]. split; [done|]. split; [by right|]. split.
  - apply Forall_lookup. intros i x Hi. apply (Hxs (N.of_nat i)). unfold nget. by rewrite Nat2N.id.
  - exists ws. split; [done|]. split; [done|]. rewrite Hl. split; [done|]. intros i x j Hi Hj.
    rewrite N.add_0_l. by apply (Hxs i).
Qed.

(** ** Properties *)

Lemma log_array_repr w vals la : 0 < w <= 64 -> Forall (fun v => v < 2 ^ w) vals -> lenN vals < 2 ^ 32 ->
  log_array w vals la -> la_repr la vals.
Proof.
  intros Hw Hv Hn (b & Hp & Hla). destruct (la_build w vals (proj2 Hw) (or_intror (proj1 Hw)) Hv Hn) as (b' & la' & Hp' & Hla' & Hr & _).
  rewrite Hp' in Hp. injection Hp as <-. rewrite Hla' in Hla. by injection Hla as <-.
Qed.

(** C30: writing a list of numbers that fit the width, finishing the file and
    parsing it gives a log array that answers [entry] with the elements of the
    list, panics outside it, and iterates over the list; streaming the file
    gives the list too, however the bytes arrive. *)
Theorem logarray_roundtrip `{FramedRead} w vals :
  0 < w <= 64 -> Forall (fun v => v < 2 ^ w) vals -> lenN vals < 2 ^ 32 ->
  exists b la,
    LogArrayFileBuilder.push_vec (LogArrayFileBuilder.new [] w) vals = Ok b /\
    LogArray.parse (LogArrayFileBuilder.finalize b) = Ok la /\
    LogArray.len la = lenN vals /\
    (forall i, LogArray.entry la i = vals.[i]) /\
    LogArrayIterator.collect (S (length vals)) (LogArrayIterator.iter la) = Some vals /\
    logarray_stream_entries (LogArrayFileBuilder.finalize b) = Ok vals.
Proof.
  intros Hw Hv Hn. destruct (builder_push_vec vals _ _ (builder_new w (proj2 Hw)) (or_intror (proj1 Hw)) Hv Hn) as (b & Hp & Hb & _).
  destruct (la_parse b _ Hb) as (la & Hla & Hr & _). exists b, la.
  split; [done|]. split; [done|]. split; [by destruct Hr|].
  split; [intros; by apply la_entry|]. split; [by apply collect_iter|]. by apply logarray_stream_repr.
Qed.

Lemma logarray_roundtrip_witness : exists b la,
    LogArrayFileBuilder.push_vec (LogArrayFileBuilder.new [] 17) [1; 2; 65536; 70000; 131071] = Ok b /\
    LogArray.parse (LogArrayFileBuilder.finalize b) = Ok la /\
    LogArray.len la = 5 /\
    (forall i, LogArray.entry la i = [1; 2; 65536; 70000; 131071].[i]) /\
    LogArrayIterator.collect 6 (LogArrayIterator.iter la) = Some [1; 2; 65536; 70000; 131071] /\
    logarray_stream_entries (H := whole_file) (LogArrayFileBuilder.finalize b) = Ok [1; 2; 65536; 70000; 131071].
Proof. apply (logarray_roundtrip (H := whole_file) 17 [1; 2; 65536; 70000; 131071]); [lia|by repeat constructor|reflexivity]. Defined.

(** A number that does not fit the width is refused with an error, and the
    numbers before it stay readable. *)
Theorem logarray_push_rejects w vals v :
  0 < w <= 64 -> Forall (fun v => v < 2 ^ w) vals -> lenN vals < 2 ^ 32 -> v < 2 ^ 64 -> 2 ^ w <= v ->
  LogArrayFileBuilder.push_vec (LogArrayFileBuilder.new [] w) (vals ++ [v]) = Err InvalidData.
Proof.
  intros Hw Hv Hn Hv64 Hbig. destruct (builder_push_vec vals _ _ (builder_new w (proj2 Hw)) (or_intror (proj1 Hw)) Hv Hn) as (b & Hp & Hb & Hbw).
  unfold LogArrayFileBuilder.push_vec in *. rewrite fold_outcome_snoc, Hp. mcbn.
  apply (builder_push_error b vals); [done|done|]. by rewrite Hbw.
Qed.

Lemma logarray_push_rejects_witness :
  LogArrayFileBuilder.push_vec (LogArrayFileBuilder.new [] 3) ([7; 0] ++ [8]) = Err InvalidData.
Proof. apply logarray_push_rejects; [lia|by repeat constructor|reflexivity|reflexivity|done]. Defined.

(** [slice] of a log array is the log array of that part of the list, and
    panics exactly when the part is not inside the array. *)
Theorem logarray_slice w vals la offset slen :
  0 < w <= 64 -> Forall (fun v => v < 2 ^ w) vals -> lenN vals < 2 ^ 32 -> log_array w vals la ->
  if offset + slen <=? lenN vals then
    exists part, LogArray.slice la offset slen = Some part /\ LogArray.len part = slen /\
      forall i, LogArray.entry part i = (takeN slen (dropN offset vals)).[i]
  else LogArray.slice la offset slen = None.
Proof.
  intros Hw Hv Hn Hla. pose proof (log_array_repr _ _ _ Hw Hv Hn Hla) as Hr.
  destruct (N.leb_spec (offset + slen) (lenN vals)) as [Hle|Hgt]; [|by apply (la_slice_panics la vals)].
  destruct (la_slice la vals offset slen Hr Hle Hn) as (part & Hp & Hpr). exists part.
  split; [done|]. split; [|intros; by apply la_entry]. destruct Hpr as (-> & _).
  rewrite lenN_takeN, lenN_dropN. lia.
Qed.

Lemma logarray_slice_witness : exists la, log_array 5 [3; 1; 4; 15; 9; 26] la /\
  exists part, LogArray.slice la 2 3 = Some part /\ LogArray.len part = 3 /\
    forall i, LogArray.entry part i = [4; 15; 9].[i].
Proof.
  eexists. split; [eexists; split; vm_compute; reflexivity|].
  apply (logarray_slice 5 [3; 1; 4; 15; 9; 26] _ 2 3); [lia|by repeat constructor|reflexivity|].
  eexists; split; vm_compute; reflexivity.
Defined.

(** Nothing can be read of width 0: the shift by all 64 bits panics. *)
Lemma entry_width_0 la i : LogArray.width la = 0 -> LogArray.entry la i = None.
Proof.
  intros Hw. unfold LogArray.entry. rewrite Hw, N.mul_0_l. change (N.shiftl (N.shiftr 0 6) 3) with 0. change (N.land 0 63) with 0.
  destruct (assert_ _); [|done]. rewrite bind_Some_eq. destruct (slice_from 0 _ ≫= read_u64); [|done]. rewrite bind_Some_eq.
  by destruct (slice_from _ _ ≫= read_u64).
Qed.

(** C34: parsing any bytes either gives an error or a log array, and never
    panics; an entry of the log array can be read exactly when its index is
    below the length and the width is not 0.  A log array of width 0 is written
    for the subjects of a child layer that removes nothing: without elements it
    is read as well as any other; an element of width 0 cannot be read, since
    the shift by 64 bits overflows. *)
Theorem logarray_parse_safe buf : Forall is_byte buf ->
  match LogArray.parse buf with
  | Ok la => LogArray.width la <= 64 /\
      forall i, LogArray.entry la i = None <-> LogArray.len la <= i \/ LogArray.width la = 0
  | Err _ => True
  | Panic => False
  end.
Proof.
  intros Hb. pose proof (la_parse_any buf Hb) as H. destruct (LogArray.parse buf) as [la|e|]; [|done|done].
  destruct H as [Hw H]. split; [done|]. intros i. destruct (N.eq_dec (LogArray.width la) 0) as [E|E].
  - rewrite entry_width_0 by done. tauto.
  - destruct H as [xs Hxs]; [lia|]. rewrite (la_entry la xs) by done. destruct Hxs as (-> & _). rewrite nget_None. tauto.
Qed.

Lemma logarray_parse_safe_witness :
  match LogArray.parse [1; 2; 3; 4; 5; 6; 7; 8; 0; 0; 0; 2; 32; 0; 0; 0] with
  | Ok la => LogArray.width la <= 64 /\
      forall i, LogArray.entry la i = None <-> LogArray.len la <= i \/ LogArray.width la = 0
  | Err _ => True
  | Panic => False
  end.
Proof. apply logarray_parse_safe. repeat constructor. Defined.

(** The eight bytes that are written for no elements of width 0. *)
Example empty_width_0 : LogArray.parse [0; 0; 0; 0; 0; 0; 0; 0] = Ok (LogArray.mk 0 0 0 [0; 0; 0; 0; 0; 0; 0; 0]).
Proof. reflexivity. Qed.

(** In an increasing log array [nearest_index_of] returns the number of
    smaller elements, and [index_of] the position of an element that is there
    and [None] for one that is not. *)
Theorem monotonic_search w vals la debug e :
  0 < w <= 64 -> Forall (fun v => v < 2 ^ w) vals -> lenN vals < 2 ^ 32 -> increasing vals ->
  log_array w vals la ->
  MonotonicLogArray.from_logarray debug la = Some la /\
  MonotonicLogArray.nearest_index_of la e = Some (lt_count e vals) /\
  exists r, MonotonicLogArray.index_of la e = Some r /\ forall i, r = Some i <-> vals.[i] = Some e.
Proof.
  intros Hw Hv Hn Hs Hla. pose proof (log_array_repr _ _ _ Hw Hv Hn Hla) as Hr.
  split; [by apply (from_logarray_increasing la vals)|]. split; [by apply nearest_index_of_spec|].
  eexists. split; [by apply index_of_spec|]. intros i. destruct (decide (e ∈ vals)) as [He|He].
  - apply elem_nget in He as [k Hk]. rewrite (lt_count_nget e vals k) by done. split.
    + by intros [= <-].
    + intros Hi. f_equal. by eapply increasing_inj.
  - split; [done|]. intros Hi%nget_elem. done.
Qed.

Lemma monotonic_search_witness : exists la, log_array 5 [2; 3; 8; 21] la /\
  MonotonicLogArray.from_logarray true la = Some la /\
  MonotonicLogArray.nearest_index_of la 8 = Some (lt_count 8 [2; 3; 8; 21]) /\
  exists r, MonotonicLogArray.index_of la 8 = Some r /\ forall i, r = Some i <-> [2; 3; 8; 21].[i] = Some 8.
Proof.
  eexists. split; [eexists; split; vm_compute; reflexivity|].
  apply (monotonic_search 5 [2; 3; 8; 21]); [lia|by repeat constructor|reflexivity|by repeat constructor|].
  eexists; split; vm_compute; reflexivity.
Defined.
