(* ===== verification/BitArrays.v ===== *)
(** * Bit arrays (src/structure/bitarray.rs, src/structure/bititer.rs)

    [BitArray] is the reader, [BitArrayFileBuilder] the writer,
    [BitArrayBlockDecoder] the streaming reader of the words and [BitIter] the
    bits of one word. *)

From S2P Require Import Prelude.
From S2P Require Import Words.
From S2P Require Import Codec.
Open Scope N_scope.

Inductive BitArrayError : Type :=
| BitInputBufferTooSmall (input_buf_size : N)
| BitUnexpectedInputBufferSize (input_buf_size expected_buf_size len : N).

Definition bit_validate_input_buf_size (input_buf_size : N) : outcome BitArrayError () :=
  if input_buf_size <? 8 then Err (BitInputBufferTooSmall input_buf_size) else Ok ().

Definition validate_len (input_buf_size len : N) : outcome BitArrayError () :=
  let after_shifting := N.shiftl (N.shiftr len 6) 3 in
  let expected_buf_size :=
    if N.land len 63 =? 0 then after_shifting + 8 else after_shifting + 16 in
  if input_buf_size =? expected_buf_size then Ok ()
  else Err (BitUnexpectedInputBufferSize input_buf_size expected_buf_size len).

Definition bit_read_control_word (buf : list N) (input_buf_size : N) : outcome BitArrayError N :=
  len ← or_panic (read_u64 buf);
  _ ← validate_len input_buf_size len;
  Ok len.

Definition bitarray_error_to_io (_ : BitArrayError) : io_error := InvalidData.

Module BitArray.

Record t : Type := mk {
  len : N;
  buf : list N
}.

Definition from_bits (buf : list N) : outcome BitArrayError t :=
  let input_buf_size := lenN buf in
  _ ← bit_validate_input_buf_size input_buf_size;
  len ← bit_read_control_word (dropN (input_buf_size - 8) buf) input_buf_size;
  Ok (mk len (takeN (input_buf_size - 8) buf)).

Definition bits (ba : t) : list N := buf ba.

Definition is_empty (ba : t) : bool := len ba =? 0.

Definition get (ba : t) (index : N) : option bool :=
  _ ← assert_ (index <? len ba);
  byte ← (buf ba).[index / 8];
  mask ← (if index mod 8 <? 8 then Some (N.shiftr 0x80 (index mod 8)) else None);
  Some (negb (N.land byte mask =? 0)).

(** [iter], drained. *)
Definition iter (ba : t) : option (list bool) := mapM (get ba) (seqN 0 (len ba)).

End BitArray.

Module BitArrayFileBuilder.

Record t : Type := mk {
  dest : list N;
  current : N;
  count : N
}.

Definition new (dest : list N) : t := mk dest 0 0.

Definition push (b : t) (bit : bool) : outcome io_error t :=
  current ← (if bit then
               let pos := N.land (count b) 63 in
               m ← or_panic (shr64 (2 ^ 63) pos);
               Ok (N.lor (current b) m)
             else Ok (current b));
  count ← or_panic (cadd 64 (count b) 1);
  if N.land count 63 =? 0 then Ok (mk (dest b ++ be64 current) 0 count)
  else Ok (mk (dest b) current count).

(** A stream of bits, each of which may be an error of the source. *)
Definition push_all (b : t) (stream : list (outcome io_error bool)) : outcome io_error t :=
  fold_outcome (fun b bit => bit ← bit; push b bit) b stream.

Definition finalize_data (b : t) : t :=
  if negb (N.land (count b) 63 =? 0)
  then mk (dest b ++ be64 (current b)) (current b) (count b)
  else b.

(** The complete file. *)
Definition finalize (b : t) : list N := dest (finalize_data b) ++ be64 (count b).

End BitArrayFileBuilder.

Module BitArrayBlockDecoder.

(** The state is [readahead]. [decode] calls itself at most once. *)
Fixpoint decode_rec (fuel : nat) (readahead : option N) (bytes : list N)
    : outcome io_error (option N * option N * list N) :=
  if lenN bytes <? 8 then Ok (None, readahead, bytes)
  else
    next ← or_panic (read_u64 bytes);
    let bytes := dropN 8 bytes in
    match readahead with
    | Some word => Ok (Some word, Some next, bytes)
    | None =>
        match fuel with
        | O => Panic
        | S fuel => decode_rec fuel (Some next) bytes
        end
    end.

Definition decode : decoder (option N) N := decode_rec 1.

End BitArrayBlockDecoder.

Module BitIter.

Record t : Type := mk {
  value : N;
  mask : N
}.

Definition new (value : N) : t := mk value 0x8000000000000000.

Definition next (it : t) : option bool * t :=
  let m := mask it in
  if m =? 0 then (None, it)
  else (Some (negb (N.land (value it) m =? 0)), mk (value it) (N.shiftr m 1)).

(** The items of the iterator; 64 calls give an item. *)
Fixpoint collect (fuel : nat) (it : t) : list bool :=
  match fuel with
  | O => []
  | S fuel =>
      match next it with
      | (None, _) => []
      | (Some b, it) => b :: collect fuel it
      end
  end.

Definition bits (value : N) : list bool := collect 65 (new value).

End BitIter.

Section files.
Context `{FramedRead}.

Definition bitarray_stream_blocks (r : list N) : outcome io_error (list N) :=
  framed_read BitArrayBlockDecoder.decode None r.

Definition bitarray_len_from_file (f : list N) : outcome io_error N :=
  _ ← map_err bitarray_error_to_io (bit_validate_input_buf_size (lenN f));
  map_err bitarray_error_to_io (bit_read_control_word (dropN (lenN f - 8) f) (lenN f)).

Definition bitarray_stream_bits (f : list N) : outcome io_error (list bool) :=
  len ← bitarray_len_from_file f;
  blocks ← bitarray_stream_blocks f;
  Ok (takeN len (concat (BitIter.bits <$> blocks))).
End files.

(** ** What the files mean *)

Definition bit_at (bits : list bool) (k : N) : bool := default false (bits.[k]).

(** [ba] holds [bits]; the rest of its last word is zero. *)
Definition ba_repr (ba : BitArray.t) (bits : list bool) : Prop :=
  BitArray.len ba = lenN bits /\
  exists ws, BitArray.buf ba = words_bytes ws /\ Forall is_word ws /\
    lenN ws = (lenN bits + 63) / 64 /\ forall k, gbit ws k = bit_at bits k.

(** [b] is a builder that has written [bits]. *)
Definition bit_builder_repr (b : BitArrayFileBuilder.t) (bits : list bool) : Prop :=
  BitArrayFileBuilder.count b = lenN bits /\ lenN bits < 2 ^ 64 /\
  BitArrayFileBuilder.current b < 2 ^ 64 /\
  exists ws, BitArrayFileBuilder.dest b = words_bytes ws /\ Forall is_word ws /\
    lenN ws = lenN bits / 64 /\
    forall k, gbit (ws ++ [BitArrayFileBuilder.current b]) k = bit_at bits k.

Lemma bit_at_app_l l k i : i < lenN l -> bit_at (l ++ k) i = bit_at l i.
Proof. intros. unfold bit_at. by rewrite nget_app_l. Qed.
Lemma bit_at_app_r l k i : lenN l <= i -> bit_at (l ++ k) i = bit_at k (i - lenN l).
Proof. intros. unfold bit_at. by rewrite nget_app_r. Qed.
Lemma bit_at_beyond l i : lenN l <= i -> bit_at l i = false.
Proof. intros. unfold bit_at. by rewrite (proj2 (nget_None _ _)). Qed.
Lemma bit_at_get l i b : l.[i] = Some b -> bit_at l i = b.
Proof. unfold bit_at. by intros ->. Qed.
Lemma nget_bit_at l i : i < lenN l -> l.[i] = Some (bit_at l i).
Proof. intros Hi. destruct (nget_lt l i Hi) as [b Hb]. unfold bit_at. by rewrite Hb. Qed.

Lemma testbit_msb_mask j : j < 64 -> forall i, N.testbit (N.shiftr (2 ^ 63) j) i = (i =? 63 - j).
Proof.
  intros Hj i. rewrite N.shiftr_spec'. destruct (N.eqb_spec i (63 - j)) as [->|Hne].
  - replace (63 - j + j) with 63 by lia. apply N.pow2_bits_true.
  - apply N.pow2_bits_false. lia.
Qed.

Section bit_builder.
Import BitArrayFileBuilder.

Lemma bit_builder_new : bit_builder_repr (new []) [].
Proof.
  repeat split; simpl; try done. exists []. repeat split; [constructor|]. intros k.
  rewrite bit_at_beyond by (rewrite lenN_nil; lia). simpl.
  destruct (N.lt_ge_cases k 64); [by rewrite gbit_single, N.bits_0|by apply gbit_beyond].
Qed.

Lemma bit_push_bits ws cur bits (bit : bool) :
  64 * lenN ws <= lenN bits < 64 * lenN ws + 64 ->
  (forall k, gbit (ws ++ [cur]) k = bit_at bits k) -> forall k,
  gbit (ws ++ [if bit then N.lor cur (N.shiftr (2 ^ 63) (lenN bits - 64 * lenN ws)) else cur]) k =
    bit_at (bits ++ [bit]) k.
Proof.
  intros Hlen Hbits k. specialize (Hbits k).
  assert (Hold : bit_at (bits ++ [bit]) k = (k =? lenN bits) && bit || bit_at bits k).
  { destruct (N.lt_trichotomy k (lenN bits)) as [Hk|[->|Hk]].
    - rewrite bit_at_app_l by done. by ncmp.
    - rewrite bit_at_app_r, N.sub_diag, N.eqb_refl by lia.
      rewrite (bit_at_beyond bits) by lia. by destruct bit.
    - rewrite !bit_at_beyond by (rewrite ?lenN_app, ?lenN_cons, ?lenN_nil; lia). by ncmp. }
  rewrite Hold, <- Hbits. destruct bit; [|by rewrite andb_false_r].
  destruct (N.lt_ge_cases k (64 * lenN ws)) as [Hk|Hk].
  { rewrite !gbit_app_l by done. by ncmp. }
  destruct (N.lt_ge_cases k (64 * lenN ws + 64)) as [Hk'|Hk'].
  - rewrite !gbit_last by done. rewrite N.lor_spec, testbit_msb_mask by lia.
    rewrite orb_comm, andb_true_r. f_equal. case_cmp; lia.
  - rewrite !gbit_beyond by (rewrite ?lenN_app, ?lenN_cons, ?lenN_nil; lia). by ncmp.
Qed.

Lemma bit_builder_push b bits bit : bit_builder_repr b bits -> lenN bits + 1 < 2 ^ 64 ->
  exists b', push b bit = Ok b' /\ bit_builder_repr b' (bits ++ [bit]).
Proof.
  intros (Hcount & Hlen & Hcur & ws & Hdest & Hws & Hlws & Hbits) Hn.
  assert (Hpos : 64 * lenN ws <= lenN bits < 64 * lenN ws + 64) by (rewrite Hlws; dlia).
  assert (Hmod : lenN bits mod 64 = lenN bits - 64 * lenN ws).
  { symmetry. apply (N.mod_unique _ _ (lenN ws)); lia. }
  pose proof (bit_push_bits ws _ bits bit Hpos Hbits) as Hnew.
  set (cur' := if bit then N.lor (current b) (N.shiftr (2 ^ 63) (lenN bits - 64 * lenN ws))
               else current b) in *.
  assert (Hc : (if bit then m ← or_panic (shr64 (2 ^ 63) (N.land (count b) 63)); Ok (N.lor (current b) m)
                else Ok (current b)) = Ok (E := io_error) cur').
  { unfold cur'. destruct bit; [|done]. rewrite land_63, Hcount, Hmod. by mstep. }
  unfold push. cbv zeta. rewrite Hc. mcbn. rewrite Hcount. mstep. rewrite land_63.
  assert (Hcur' : cur' < 2 ^ 64).
  { apply bits_lt_pow2. intros i Hi. unfold cur'. destruct bit; [|by apply (testbit_above _ 64)].
    rewrite N.lor_spec, testbit_msb_mask, (testbit_above _ 64) by (done || lia). by ncmp. }
  destruct (N.eqb_spec ((lenN bits + 1) mod 64) 0) as [Hz|Hz].
  - eexists. split; [done|]. repeat split; simpl; rewrite ?lenN_app, ?lenN_cons, ?lenN_nil; [done|lia|].
    exists (ws ++ [cur']). rewrite words_bytes_snoc, Hdest. split; [done|].
    split; [apply Forall_app; split; [done|by constructor]|].
    rewrite !lenN_app, !lenN_cons, !lenN_nil. split; [dlia|]. intros k. rewrite <- Hnew.
    destruct (N.lt_ge_cases k (64 * lenN ws + 64)) as [Hk|Hk].
    + rewrite gbit_app_l; [done|]. rewrite lenN_app, lenN_cons, lenN_nil. lia.
    + rewrite (gbit_beyond (ws ++ [cur'])) by (rewrite lenN_app, lenN_cons, lenN_nil; lia).
      rewrite gbit_app_r by (rewrite lenN_app, lenN_cons, lenN_nil; lia).
      destruct (N.lt_ge_cases (k - 64 * lenN (ws ++ [cur'])) 64).
      * by rewrite gbit_single, N.bits_0.
      * by apply gbit_beyond.
  - eexists. split; [done|]. repeat split; simpl; rewrite ?lenN_app, ?lenN_cons, ?lenN_nil; [done|lia|done|].
    exists ws. split; [done|]. split; [done|]. split; [dlia|]. done.
Qed.

Lemma bit_builder_push_all stream : forall b bits, bit_builder_repr b bits ->
  lenN bits + lenN stream < 2 ^ 64 ->
  exists b', push_all b (Ok <$> stream) = Ok b' /\ bit_builder_repr b' (bits ++ stream).
Proof.
  induction stream as [|bit stream IH]; intros b bits Hb Hn.
  - exists b. by rewrite app_nil_r.
  - rewrite lenN_cons in Hn. destruct (bit_builder_push b bits bit Hb ltac:(lia)) as (b1 & Hp & Hb1).
    destruct (IH b1 _ Hb1) as (b2 & Hp2 & Hb2).
    { rewrite lenN_app, lenN_cons, lenN_nil. lia. }
    exists b2. rewrite <- app_assoc in Hb2. unfold push_all in *. cbn [fmap list_fmap fold_outcome].
    mcbn. rewrite Hp. mcbn. done.
Qed.

(** The file is the data words and the control word. *)
Lemma bit_builder_finalize b bits : bit_builder_repr b bits ->
  exists ws, finalize b = words_bytes (ws ++ [lenN bits]) /\ Forall is_word ws /\
    lenN ws = (lenN bits + 63) / 64 /\ forall k, gbit ws k = bit_at bits k.
Proof.
  intros (Hcount & Hlen & Hcur & ws & Hdest & Hws & Hlws & Hbits).
  unfold finalize, finalize_data. rewrite Hcount, land_63.
  destruct (N.eqb_spec (lenN bits mod 64) 0) as [Hz|Hz]; simpl.
  - exists ws. rewrite words_bytes_snoc, Hdest, ?Hcount. split; [done|]. split; [done|].
    split; [dlia|]. intros k. rewrite <- Hbits. destruct (N.lt_ge_cases k (64 * lenN ws)) as [Hk|Hk].
    + by rewrite gbit_app_l.
    + rewrite gbit_beyond by done. rewrite Hbits, bit_at_beyond; [done|]. dlia.
  - exists (ws ++ [current b]). rewrite !words_bytes_snoc, Hdest. split; [done|].
    split; [apply Forall_app; split; [done|by constructor]|].
    split; [|done]. rewrite lenN_app, lenN_cons, lenN_nil. dlia.
Qed.
End bit_builder.

(** ** The reader *)

Section bit_reader.
Import BitArray.

Lemma validate_len_ok (bits : list bool) (ws : list N) : lenN ws = (lenN bits + 63) / 64 ->
  validate_len (8 * lenN ws + 8) (lenN bits) = Ok ().
Proof.
  intros Hlen. unfold validate_len. rewrite land_63, shiftr_6, shiftl_3.
  destruct (N.eqb_spec (lenN bits mod 64) 0); cbv zeta.
  - replace (8 * lenN ws + 8) with (8 * (lenN bits / 64) + 8) by dlia. by rewrite N.eqb_refl.
  - replace (8 * lenN ws + 8) with (8 * (lenN bits / 64) + 16) by dlia. by rewrite N.eqb_refl.
Qed.

Lemma ba_parse b bits : bit_builder_repr b bits ->
  exists ba, from_bits (BitArrayFileBuilder.finalize b) = Ok ba /\ ba_repr ba bits.
Proof.
  intros Hb. destruct (bit_builder_finalize b bits Hb) as (ws & Hfin & Hws & Hlws & Hbits).
  destruct Hb as (_ & Hlen & _). unfold from_bits, bit_validate_input_buf_size.
  rewrite Hfin, lenN_words_bytes, lenN_app, lenN_cons, lenN_nil. ncmp. mcbn.
  rewrite words_bytes_snoc.
  replace (8 * (lenN ws + (1 + 0)) - 8) with (lenN (words_bytes ws)) by (rewrite lenN_words_bytes; lia).
  rewrite dropN_app, takeN_app. unfold bit_read_control_word.
  rewrite <- (app_nil_r (be64 _)), read_u64_be64 by done. mcbn.
  replace (8 * (lenN ws + (1 + 0))) with (8 * lenN ws + 8) by lia.
  rewrite validate_len_ok by done. mcbn. eexists. split; [done|]. split; [done|]. by exists ws.
Qed.

Lemma ba_get ba bits i : ba_repr ba bits -> get ba i = bits.[i].
Proof.
  intros (Hlen & ws & Hbuf & Hws & Hlws & Hbits). unfold get. rewrite Hlen.
  destruct (N.ltb_spec i (lenN bits)) as [Hi|Hi].
  2:{ symmetry. by apply nget_None. }
  unfold assert_. mcbn. rewrite Hbuf.
  destruct (nget_words_bytes ws (i / 8)) as (byte & -> & Hbyte); [dlia|]. mcbn.
  assert (Hm : i mod 8 < 8) by (by apply N.mod_lt). ncmp. mcbn.
  change 128 with (2 ^ 7). rewrite shiftr_pow2 by lia. rewrite land_pow2_testbit, Hbyte by done.
  replace (8 * (i / 8) + i mod 8) with i by dlia. by rewrite Hbits, <- nget_bit_at.
Qed.

Lemma ba_iter ba bits : ba_repr ba bits -> iter ba = Some bits.
Proof.
  intros Hb. unfold iter. pose proof Hb as (-> & _). apply mapM_nget. intros i _.
  by apply ba_get.
Qed.
End bit_reader.

(** ** Streaming *)

Lemma split_word w ws buf later :
  buf ++ later = words_bytes (w :: ws) -> is_word w -> 8 <= lenN buf ->
  read_u64 buf = Some w /\ dropN 8 buf ++ later = words_bytes ws.
Proof.
  intros Hb Hw Hlen. rewrite words_bytes_cons in Hb. rewrite <- (takeN_dropN 8 buf), <- app_assoc in Hb.
  apply app_inj_1 in Hb as [Ht Hd].
  2:{ apply Nat2N.inj. change (lenN (takeN 8 buf) = 8). rewrite lenN_takeN. lia. }
  split; [|done]. rewrite <- (takeN_dropN 8 buf), Ht. by apply read_u64_be64.
Qed.

Lemma block_run n : forall ra buf chunks ws, (length ws + length chunks <= n)%nat ->
  Forall is_word ws -> buf ++ concat chunks = words_bytes ws ->
  framed_run BitArrayBlockDecoder.decode ra buf chunks
    (removelast (option_list ra ++ ws)).
Proof.
  unfold BitArrayBlockDecoder.decode.
  induction n as [n IH] using lt_wf_ind. intros ra buf chunks ws Hn Hws Hb.
  destruct (N.lt_ge_cases (lenN buf) 8) as [Hshort|Hlong].
  - assert (Hd : BitArrayBlockDecoder.decode_rec 1 ra buf = Ok (None, ra, buf)).
    { cbn [BitArrayBlockDecoder.decode_rec]. by ncmp. }
    destruct chunks as [|chunk chunks].
    + simpl in Hb. rewrite app_nil_r in Hb. assert (Hl : lenN buf = 8 * lenN ws) by (by rewrite Hb, lenN_words_bytes).
      destruct ws as [|w ws]; [|rewrite lenN_cons in Hl; lia]. destruct buf; [|done].
      destruct ra; simpl; by eapply run_eof.
    + eapply run_more; [done|]. eapply (IH (n - 1)%nat); simpl in *; [lia|lia|done|].
      by rewrite <- app_assoc.
  - destruct ws as [|w ws].
    { destruct buf; [rewrite lenN_nil in Hlong; lia|done]. }
    apply Forall_cons in Hws as [Hw Hws]. destruct (split_word _ _ _ _ Hb Hw Hlong) as [Hr Hd].
    simpl in Hn. destruct ra as [x|].
    + change (removelast (option_list (Some x) ++ w :: ws))
        with (x :: removelast (option_list (Some w) ++ ws)).
      eapply run_item; [cbn [BitArrayBlockDecoder.decode_rec]; ncmp; rewrite Hr; mcbn; done|].
      eapply (IH (n - 1)%nat); [lia|lia|done|done].
    + destruct (N.lt_ge_cases (lenN (dropN 8 buf)) 8) as [Hshort|Hlong'].
      * assert (Hdec : BitArrayBlockDecoder.decode_rec 1 None buf = Ok (None, Some w, dropN 8 buf)).
        { cbn [BitArrayBlockDecoder.decode_rec]. ncmp. rewrite Hr. mcbn. by ncmp. }
        destruct chunks as [|chunk chunks].
        -- simpl in Hd. rewrite app_nil_r in Hd.
           assert (Hl : lenN (dropN 8 buf) = 8 * lenN ws) by (by rewrite Hd, lenN_words_bytes).
           destruct ws as [|w' ws]; [|rewrite lenN_cons in Hl; lia].
           eapply run_eof. rewrite Hdec. by rewrite Hd.
        -- change (option_list None ++ w :: ws) with (option_list (Some w) ++ ws).
           eapply run_more; [done|]. eapply (IH (n - 1)%nat); simpl in *; [lia|lia|done|]. by rewrite <- app_assoc.
      * destruct ws as [|w' ws].
        { destruct (dropN 8 buf); [rewrite lenN_nil in Hlong'; lia|done]. }
        apply Forall_cons in Hws as [Hw' Hws]. destruct (split_word _ _ _ _ Hd Hw' Hlong') as [Hr' Hd'].
        change (removelast (option_list None ++ w :: w' :: ws))
          with (w :: removelast (option_list (Some w') ++ ws)).
        eapply run_item.
        { cbn [BitArrayBlockDecoder.decode_rec]. ncmp. rewrite Hr. mcbn. ncmp. rewrite Hr'. mcbn. done. }
        simpl in Hn. eapply (IH (n - 1)%nat); [lia|lia|done|done].
Qed.

Lemma stream_blocks_words `{FramedRead} ws c : Forall is_word (ws ++ [c]) ->
  bitarray_stream_blocks (words_bytes (ws ++ [c])) = Ok ws.
Proof.
  intros Hws. unfold bitarray_stream_blocks.
  destruct (framed_read_law _ _ BitArrayBlockDecoder.decode None (words_bytes (ws ++ [c])))
    as (chunks & Hc & Hrun).
  pose proof (block_run _ None [] chunks (ws ++ [c]) (le_n _) Hws Hc) as Hr.
  simpl in Hr. rewrite removelast_last in Hr. apply (Hrun _ Hr).
  pose proof (lenN_words_bytes (ws ++ [c])) as Hl. rewrite lenN_app in Hl.
  unfold items_bound, lenN in *. lia.
Qed.

Lemma biter_step v k n :
  BitIter.collect (S n) (BitIter.mk v (2 ^ k)) =
    N.testbit v k :: BitIter.collect n (BitIter.mk v (N.shiftr (2 ^ k) 1)).
Proof.
  cbn [BitIter.collect]. unfold BitIter.next. cbn [BitIter.mask BitIter.value].
  replace (2 ^ k =? 0) with false; [by rewrite land_pow2_testbit|].
  symmetry. apply N.eqb_neq. by apply N.pow_nonzero.
Qed.

Lemma biter_collect v n : forall k, k = N.of_nat n ->
  BitIter.collect (S (S n)) (BitIter.mk v (2 ^ k)) =
    (fun j => N.testbit v (k - j)) <$> seqN 0 (k + 1).
Proof.
  induction n as [|n IH]; intros k ->; rewrite biter_step; [done|].
  rewrite (shiftr_pow2 _ 1) by lia.
  replace (N.of_nat (S n) - 1) with (N.of_nat n) by lia.
  rewrite (IH (N.of_nat n)) by done. rewrite (seqN_cons 0 (N.of_nat (S n) + 1)) by lia.
  cbn [fmap list_fmap]. rewrite N.sub_0_r. f_equal.
  replace (N.of_nat (S n) + 1 - 1) with (N.of_nat n + 1) by lia. rewrite N.add_0_l.
  unfold seqN. rewrite <- !list_fmap_compose. apply list_fmap_ext. intros ? ? _. simpl. f_equal. lia.
Qed.

Lemma biter_bits v : BitIter.bits v = gbit [v] <$> seqN 0 64.
Proof.
  unfold BitIter.bits, BitIter.new. change 0x8000000000000000 with (2 ^ 63).
  rewrite (biter_collect v 63 63) by done. change (63 + 1) with 64.
  apply list_fmap_ext. intros i j Hj. symmetry. apply gbit_single.
  apply list_elem_of_lookup_2, elem_nget in Hj as [k Hk]. pose proof (nget_Some_lt _ _ _ Hk) as Hl.
  rewrite lenN_seqN in Hl. rewrite nget_seqN in Hk by done. injection Hk as <-. lia.
Qed.

Lemma nget_concat_bits ws : forall k, k < 64 * lenN ws ->
  (concat (BitIter.bits <$> ws)).[k] = Some (gbit ws k).
Proof.
  induction ws as [|w ws IH]; intros k Hk; [rewrite lenN_nil in Hk; lia|].
  cbn [fmap list_fmap concat]. rewrite lenN_cons in Hk.
  assert (Hl : lenN (BitIter.bits w) = 64) by (by rewrite biter_bits, lenN_map, lenN_seqN).
  change (w :: ws) with ([w] ++ ws). destruct (N.lt_ge_cases k 64).
  - rewrite nget_app_l, gbit_app_l by (rewrite ?lenN_cons, ?lenN_nil; lia).
    rewrite biter_bits, nget_map, nget_seqN by done. done.
  - rewrite nget_app_r, gbit_app_r by (rewrite ?lenN_cons, ?lenN_nil; lia).
    rewrite Hl, IH by lia. do 2 f_equal.
Qed.

Lemma stream_bits_repr `{FramedRead} b bits : bit_builder_repr b bits ->
  bitarray_stream_bits (BitArrayFileBuilder.finalize b) = Ok bits.
Proof.
  intros Hb. destruct (bit_builder_finalize b bits Hb) as (ws & Hfin & Hws & Hlws & Hbits).
  destruct Hb as (_ & Hlen & _). unfold bitarray_stream_bits, bitarray_len_from_file.
  unfold bit_validate_input_buf_size. rewrite Hfin.
  rewrite stream_blocks_words by (apply Forall_app; split; [done|by constructor]).
  rewrite lenN_words_bytes, lenN_app, lenN_cons, lenN_nil. ncmp. mcbn.
  rewrite words_bytes_snoc.
  replace (8 * (lenN ws + (1 + 0)) - 8) with (lenN (words_bytes ws)) by (rewrite lenN_words_bytes; lia).
  rewrite dropN_app. unfold bit_read_control_word.
  rewrite <- (app_nil_r (be64 _)), read_u64_be64 by done. mcbn.
  replace (8 * (lenN ws + (1 + 0))) with (8 * lenN ws + 8) by lia.
  rewrite validate_len_ok by done. mcbn. f_equal.
  assert (Hall : lenN (concat (BitIter.bits <$> ws)) = 64 * lenN ws).
  { clear. induction ws as [|w ws IH]; [done|]. cbn [fmap list_fmap concat].
    rewrite lenN_app, IH, lenN_cons, biter_bits, lenN_map, lenN_seqN. lia. }
  assert (lenN bits <= 64 * lenN ws) by dlia.
  apply list_eq_nget. intros k. destruct (N.lt_ge_cases k (lenN bits)) as [Hk|Hk].
  - rewrite nget_takeN, nget_concat_bits, Hbits by lia. symmetry. by apply nget_bit_at.
  - rewrite !(proj2 (nget_None _ _)); [done|done|]. rewrite lenN_takeN. lia.
Qed.

(** ** Properties *)

(** Writing any bits, finishing the file and parsing it gives a bit array
    that answers [get] with the bits, panics outside them and iterates over
    them; streaming the file gives the bits too, however the bytes arrive. *)
Theorem bitarray_roundtrip `{FramedRead} bits : lenN bits < 2 ^ 64 ->
  exists b ba,
    BitArrayFileBuilder.push_all (BitArrayFileBuilder.new []) (Ok <$> bits) = Ok b /\
    BitArray.from_bits (BitArrayFileBuilder.finalize b) = Ok ba /\
    BitArray.len ba = lenN bits /\
    (forall i, BitArray.get ba i = bits.[i]) /\
    BitArray.iter ba = Some bits /\
    bitarray_stream_bits (BitArrayFileBuilder.finalize b) = Ok bits.
Proof.
  intros Hn. destruct (bit_builder_push_all bits _ _ bit_builder_new Hn) as (b & Hp & Hb).
  destruct (ba_parse b _ Hb) as (ba & Hba & Hr). exists b, ba. split; [done|]. split; [done|].
  split; [by destruct Hr|]. split; [intros; by apply ba_get|]. split; [by apply ba_iter|].
  by apply stream_bits_repr.
Qed.

Lemma bitarray_roundtrip_witness : exists b ba,
    BitArrayFileBuilder.push_all (BitArrayFileBuilder.new []) (Ok <$> [true; false; true]) = Ok b /\
    BitArray.from_bits (BitArrayFileBuilder.finalize b) = Ok ba /\
    BitArray.len ba = 3 /\
    (forall i, BitArray.get ba i = [true; false; true].[i]) /\
    BitArray.iter ba = Some [true; false; true] /\
    bitarray_stream_bits (H := whole_file) (BitArrayFileBuilder.finalize b) = Ok [true; false; true].
Proof. apply (bitarray_roundtrip (H := whole_file) [true; false; true]). reflexivity. Defined.
