(* ===== verification/BitIndexes.v ===== *)
(** * Bit indexes: rank and select over a bit array (src/structure/bitindex.rs)

    A block is one 64-bit word and a superblock is 52 blocks.  [sblocks] holds
    the number of one bits up to the end of each superblock, [blocks] the
    number of one bits from the start of each block to the end of its
    superblock. *)

From S2P Require Import Prelude.
From S2P Require Import Words.
From S2P Require Import Codec.
From S2P Require Import LogArrays.
From S2P Require Import BitArrays.
Open Scope N_scope.

Definition SBLOCK_SIZE : N := 52.

Module BitIndex.

Record t : Type := mk {
  array : BitArray.t;
  blocks : LogArray.t;
  sblocks : LogArray.t
}.

Definition from_parts (array : BitArray.t) (blocks sblocks : LogArray.t) : option t :=
  _ ← assert_ (LogArray.len sblocks =? (LogArray.len blocks + SBLOCK_SIZE - 1) / SBLOCK_SIZE);
  _ ← assert_ (LogArray.len blocks =? (BitArray.len array + 63) / 64);
  Some (mk array blocks sblocks).

Definition from_maps (bitarray_map blocks_map sblocks_map : list N) : option t :=
  bitarray ← unwrap (BitArray.from_bits bitarray_map);
  blocks_logarray ← unwrap (LogArray.parse blocks_map);
  sblocks_logarray ← unwrap (LogArray.parse sblocks_map);
  from_parts bitarray blocks_logarray sblocks_logarray.

(** [&self.array.bits()[bit_index..bit_index + 8]]. *)
Definition block_bits (bi : t) (block_index : N) : option (list N) :=
  let bit_index := block_index * 8 in
  if bit_index + 8 <=? lenN (BitArray.bits (array bi))
  then Some (takeN 8 (dropN bit_index (BitArray.bits (array bi)))) else None.

Definition len (bi : t) : N := BitArray.len (array bi).

Definition get (bi : t) (index : N) : option bool := BitArray.get (array bi) index.

Definition rank1 (bi : t) (index : N) : option N :=
  let block_index := index / 64 in
  let sblock_index := block_index / SBLOCK_SIZE in
  block_rank ← LogArray.entry (blocks bi) block_index;
  sblock_rank ← LogArray.entry (sblocks bi) sblock_index;
  bits ← block_bits bi block_index;
  _ ← assert_ (lenN bits =? 8);
  bits_num ← read_u64 bits;
  bits_num ← shr64 bits_num (63 - index mod 64);
  let bits_rank := count_ones64 bits_num in
  before ← csub sblock_rank block_rank;
  Some (before + bits_rank).

Definition rank1_from_range (bi : t) (start end_ : N) : option N :=
  if start =? end_ then Some 0
  else
    last ← csub end_ 1;
    rank ← rank1 bi last;
    if negb (start =? 0) then r ← rank1 bi (start - 1); csub rank r
    else Some rank.

(** The loop of [select1_sblock] and [select0_sblock]: [r_at] is the rank at
    the end of a superblock. *)
Fixpoint sblock_loop (fuel : nat) (r_at : N -> option N) (rank start end_ : N) : option N :=
  match fuel with
  | O => None
  | S fuel =>
      let mid := (start + end_) / 2 in
      if start =? end_ then Some mid
      else
        r ← r_at mid;
        if r <? rank then sblock_loop fuel r_at rank (mid + 1) end_
        else sblock_loop fuel r_at rank start mid
  end.

(** The loop of [select1_block] and [select0_block]: [r_at] is the rank from
    the start of a block to the end of its superblock. *)
Fixpoint block_loop (fuel : nat) (r_at : N -> option N) (subrank start end_ : N) : option N :=
  match fuel with
  | O => None
  | S fuel =>
      let mid := (start + end_ + 1) / 2 in
      if start =? end_ then Some mid
      else
        r ← r_at mid;
        if subrank <? r then block_loop fuel r_at subrank mid end_
        else e ← csub mid 1; block_loop fuel r_at subrank start e
  end.

Definition select1_sblock (bi : t) (rank : N) : option N :=
  end_ ← csub (LogArray.len (sblocks bi)) 1;
  sblock_loop (S (N.to_nat end_)) (LogArray.entry (sblocks bi)) rank 0 end_.

(** The last block of a superblock. *)
Definition sblock_end (bi : t) (start : N) : option N :=
  last ← csub (LogArray.len (blocks bi)) 1;
  let end_ := start + SBLOCK_SIZE - 1 in
  Some (if last <? end_ then last else end_).

Definition select1_block (bi : t) (sblock subrank : N) : option N :=
  let start := sblock * SBLOCK_SIZE in
  end_ ← sblock_end bi start;
  block_loop (N.to_nat SBLOCK_SIZE) (LogArray.entry (blocks bi)) subrank start end_.

(** The loop over the bits of a block, looking for the [tally]th bit that
    equals [target]. *)
Fixpoint scan (n : nat) (target : bool) (i bits_num tally : N) : option (option N) :=
  match n with
  | O => Some None
  | S n =>
      bits_num' ← shl64 bits_num 1;
      if eqb (negb (N.land bits_num 0x8000000000000000 =? 0)) target then
        tally ← csub tally 1;
        if tally =? 0 then Some (Some i) else scan n target (i + 1) bits_num' tally
      else scan n target (i + 1) bits_num' tally
  end.

(** The outer [option] is a panic, the inner one the result. *)
Definition select1 (bi : t) (rank : N) : option (option N) :=
  sblock ← select1_sblock bi rank;
  sblock_rank ← LogArray.entry (sblocks bi) sblock;
  if sblock_rank <? rank then Some None
  else
    subrank ← csub sblock_rank rank;
    block ← select1_block bi sblock subrank;
    block_subrank ← LogArray.entry (blocks bi) block;
    before ← csub sblock_rank block_subrank;
    rank_in_block ← csub rank before;
    _ ← assert_ (rank_in_block <=? 64);
    bits ← block_bits bi block;
    bits_num ← read_u64 bits;
    r ← scan 64 true 0 bits_num rank_in_block;
    Some (option_map (fun i => block * 64 + i) r).

Definition select1_from_range (bi : t) (subrank start end_ : N) : option (option N) :=
  rank_offset ← (if start =? 0 then Some 0 else rank1 bi (start - 1));
  result ← select1 bi (rank_offset + subrank);
  match result with
  | None => Some None
  | Some result =>
      special ← (if (result <? start) && (start <? end_) && (subrank =? 0)
                 then b ← get bi start; Some (negb b) else Some false);
      if special : bool then Some (Some start)
      else if (result <? start) || (end_ <=? result) then Some None
      else Some (Some result)
  end.

Definition rank0 (bi : t) (index : N) : option N :=
  r0 ← rank1 bi index;
  csub (1 + index) r0.

Definition rank0_from_range (bi : t) (start end_ : N) : option N :=
  if start =? end_ then Some 0
  else
    last ← csub end_ 1;
    rank ← rank0 bi last;
    if negb (start =? 0) then r ← rank0 bi (start - 1); csub rank r
    else Some rank.

Definition select0_sblock (bi : t) (rank : N) : option N :=
  end_ ← csub (LogArray.len (sblocks bi)) 1;
  sblock_loop (S (N.to_nat end_))
    (fun mid => e ← LogArray.entry (sblocks bi) mid; csub ((1 + mid) * SBLOCK_SIZE * 64) e)
    rank 0 end_.

Definition select0_block (bi : t) (sblock subrank : N) : option N :=
  let start := sblock * SBLOCK_SIZE in
  end_ ← sblock_end bi start;
  block_loop (N.to_nat SBLOCK_SIZE)
    (fun mid => e ← LogArray.entry (blocks bi) mid; csub ((SBLOCK_SIZE - mid mod SBLOCK_SIZE) * 64) e)
    subrank start end_.

Definition select0 (bi : t) (rank : N) : option (option N) :=
  sblock ← select0_sblock bi rank;
  e ← LogArray.entry (sblocks bi) sblock;
  sblock_rank ← csub ((1 + sblock) * SBLOCK_SIZE * 64) e;
  if sblock_rank <? rank then Some None
  else
    subrank ← csub sblock_rank rank;
    block ← select0_block bi sblock subrank;
    e ← LogArray.entry (blocks bi) block;
    block_subrank ← csub ((SBLOCK_SIZE - block mod SBLOCK_SIZE) * 64) e;
    before ← csub sblock_rank block_subrank;
    rank_in_block ← csub rank before;
    _ ← assert_ (rank_in_block <=? 64);
    bits ← block_bits bi block;
    bits_num ← read_u64 bits;
    r ← scan 64 false 0 bits_num rank_in_block;
    Some (option_map (fun i => block * 64 + i) r).

Definition select0_from_range (bi : t) (subrank start end_ : N) : option (option N) :=
  rank_offset ← (if start =? 0 then Some 0 else rank0 bi (start - 1));
  result ← select0 bi (rank_offset + subrank);
  match result with
  | None => Some None
  | Some result =>
      special ← (if (result <? start) && (start <? end_) && (subrank =? 0)
                 then get bi start else Some false);
      if special : bool then Some (Some start)
      else if (result <? start) || (end_ <=? result) then Some None
      else Some (Some result)
  end.

Definition iter (bi : t) : option (list bool) := BitArray.iter (array bi).

End BitIndex.

(** ** Building the index *)

(** [stream.chunks(n)]. *)
Fixpoint chunks_of {A} (fuel : nat) (n : nat) (l : list A) : list (list A) :=
  match fuel, l with
  | O, _ | _, [] => []
  | S fuel, _ => take n l :: chunks_of fuel n (drop n l)
  end.

Record index_builder : Type := mk_index_builder {
  blocks_builder : LogArrayFileBuilder.t;
  sblocks_builder : LogArrayFileBuilder.t;
  sblock_rank : N
}.

(** [for block_rank in block_ranks { .. }] *)
Definition push_block (s : LogArrayFileBuilder.t * N) (block_rank : N)
    : outcome io_error (LogArrayFileBuilder.t * N) :=
  let '(blocks, sblock_subrank) := s in
  blocks ← LogArrayFileBuilder.push blocks sblock_subrank;
  sblock_subrank ← or_panic (csub sblock_subrank block_rank);
  Ok (blocks, sblock_subrank).

Definition index_chunk (s : index_builder) (chunk : list N) : outcome io_error index_builder :=
  let block_ranks := count_ones64 <$> chunk in
  let sblock_subrank := foldr N.add 0 block_ranks in
  let rank := sblock_rank s + sblock_subrank in
  '(blocks, _) ← fold_outcome push_block (blocks_builder s, sblock_subrank) block_ranks;
  sblocks ← LogArrayFileBuilder.push (sblocks_builder s) rank;
  Ok (mk_index_builder blocks sblocks rank).

Definition blocks_width : N := 64 - leading_zeros64 (SBLOCK_SIZE * 64).

Section build.
Context `{FramedRead}.

(** The files of the blocks and of the superblocks. *)
Definition build_bitindex (bitarray : list N) : outcome io_error (list N * list N) :=
  block_stream ← bitarray_stream_blocks bitarray;
  let s := mk_index_builder (LogArrayFileBuilder.new [] blocks_width)
             (LogArrayFileBuilder.new [] 64) 0 in
  s ← fold_outcome index_chunk s
        (chunks_of (length block_stream) (N.to_nat SBLOCK_SIZE) block_stream);
  Ok (LogArrayFileBuilder.finalize (blocks_builder s),
      LogArrayFileBuilder.finalize (sblocks_builder s)).
End build.

(** ** Counting bits *)

Fixpoint cnt (f : N -> bool) (n : nat) : N :=
  match n with
  | O => 0
  | S n => cnt f n + N.b2n (f (N.of_nat n))
  end.

(** The number of positions below [n] where [f] holds. *)
Definition rank (f : N -> bool) (n : N) : N := cnt f (N.to_nat n).

(** The entries of [blocks] and of [sblocks]; 3328 bits make a superblock. *)
Definition block_entry (f : N -> bool) (b : N) : N := rank f (3328 * (b / 52 + 1)) - rank f (64 * b).
Definition sblock_entry (f : N -> bool) (s : N) : N := rank f (3328 * (s + 1)).

(** [bi] is an index of [bits]. *)
Definition bi_repr (bi : BitIndex.t) (bits : list bool) : Prop :=
  let nb := (lenN bits + 63) / 64 in
  ba_repr (BitIndex.array bi) bits /\
  la_repr (BitIndex.blocks bi) (block_entry (bit_at bits) <$> seqN 0 nb) /\
  la_repr (BitIndex.sblocks bi) (sblock_entry (bit_at bits) <$> seqN 0 ((nb + 51) / 52)).

(** [bi] is the index built over the file of [bits]. *)
Definition indexed `{FramedRead} (bits : list bool) (bi : BitIndex.t) : Prop :=
  (b ← BitArrayFileBuilder.push_all (BitArrayFileBuilder.new []) (Ok <$> bits);
   '(blocks, sblocks) ← build_bitindex (BitArrayFileBuilder.finalize b);
   or_panic (BitIndex.from_maps (BitArrayFileBuilder.finalize b) blocks sblocks)) = Ok bi.

Section rank.
Context (f : N -> bool).

Lemma rank_0 : rank f 0 = 0.
Proof. done. Qed.

Lemma rank_succ n : rank f (n + 1) = rank f n + N.b2n (f n).
Proof.
  unfold rank. replace (N.to_nat (n + 1)) with (S (N.to_nat n)) by lia. cbn [cnt].
  by rewrite N2Nat.id.
Qed.

Lemma rank_add a b : rank f (a + b) = rank f a + rank (fun i => f (a + i)) b.
Proof.
  induction b as [|b IH] using N.peano_ind; [rewrite N.add_0_r; unfold rank; simpl; lia|].
  rewrite <- N.add_1_r, N.add_assoc, rank_succ, IH.
  unfold rank at 4. replace (N.to_nat (b + 1)) with (S (N.to_nat b)) by lia. cbn [cnt].
  rewrite N2Nat.id. unfold rank. lia.
Qed.

Lemma rank_le n : rank f n <= n.
Proof.
  induction n as [|n IH] using N.peano_ind; [done|]. rewrite <- N.add_1_r, rank_succ.
  destruct (f n); simpl; lia.
Qed.

Lemma rank_ext g n : (forall i, i < n -> f i = g i) -> rank f n = rank g n.
Proof.
  unfold rank. intros H. assert (Hn : forall m, (m <= N.to_nat n)%nat -> cnt f m = cnt g m).
  { induction m as [|m IH]; intros Hm; [done|]. simpl. rewrite IH by lia. rewrite H by lia. done. }
  by apply Hn.
Qed.
End rank.

Lemma rank_mono f a b : a <= b -> rank f a <= rank f b.
Proof. intros. replace b with (a + (b - a)) by lia. rewrite rank_add. lia. Qed.

Lemma rank_diff_le f a b : a <= b -> rank f b <= rank f a + (b - a).
Proof.
  intros. replace b with (a + (b - a)) at 1 by lia. rewrite rank_add.
  pose proof (rank_le (fun i => f (a + i)) (b - a)). lia.
Qed.

Lemma rank_negb f n : rank (fun i => negb (f i)) n = n - rank f n.
Proof.
  induction n as [|n IH] using N.peano_ind; [done|].
  rewrite <- N.add_1_r, !rank_succ, IH. pose proof (rank_le f n). destruct (f n); simpl; lia.
Qed.

Lemma rank_false f a b : a <= b -> (forall i, a <= i -> f i = false) -> rank f b = rank f a.
Proof.
  intros Hab Hf. replace b with (a + (b - a)) by lia. rewrite rank_add.
  rewrite (rank_ext (fun i => f (a + i)) (fun _ => false)) by (intros; apply Hf; lia).
  assert (rank (fun _ => false) (b - a) = 0); [|lia].
  induction (b - a) as [|n IH] using N.peano_ind; [done|]. rewrite <- N.add_1_r, rank_succ, IH. done.
Qed.

Lemma rank_lt_exists f a b r : rank f a < r <= rank f b -> a <= b ->
  exists p, a <= p < b /\ f p = true /\ rank f p = r - 1.
Proof.
  intros Hr Hab. replace b with (a + (b - a)) in * by lia. set (n := b - a) in *. clearbody n. clear Hab.
  revert Hr. induction n as [|n IH] using N.peano_ind; intros Hr; [rewrite N.add_0_r in Hr; lia|].
  rewrite <- N.add_1_r, N.add_assoc in *. rewrite rank_succ in Hr.
  destruct (N.le_gt_cases r (rank f (a + n))) as [Hle|Hgt].
  - destruct IH as (p & Hp & Hf & Hrank); [lia|]. exists p. split; [lia|done].
  - destruct (f (a + n)) eqn:E; simpl in Hr; [|lia].
    exists (a + n). split; [lia|]. split; [done|lia].
Qed.

(** The position of the [r]th position where [f] holds is unique. *)
Lemma rank_inj f p q : f p = true -> f q = true -> rank f p = rank f q -> p = q.
Proof.
  intros Hp Hq Heq. destruct (N.lt_trichotomy p q) as [H|[H|H]]; [|done|]; exfalso.
  - pose proof (rank_mono f (p + 1) q ltac:(lia)) as Hm. rewrite rank_succ, Hp in Hm. simpl in Hm. lia.
  - pose proof (rank_mono f (q + 1) p ltac:(lia)) as Hm. rewrite rank_succ, Hq in Hm. simpl in Hm. lia.
Qed.

Lemma popcount_above k n w : w < 2 ^ N.of_nat k -> popcount (k + n) w = popcount k w.
Proof.
  intros Hw. induction n as [|n IH]; [by rewrite Nat.add_0_r|].
  rewrite Nat.add_succ_r. cbn [popcount]. by rewrite IH, (testbit_above w (N.of_nat k)) by first [exact Hw | lia].
Qed.

(** [count_ones] of the leading bits of a word. *)
Lemma count_ones_shiftr w m : is_word w -> m <= 64 ->
  count_ones64 (N.shiftr w (64 - m)) = rank (gbit [w]) m.
Proof.
  intros Hw.
  assert (Hsplit : forall k, count_ones64 (N.shiftr w (N.of_nat k)) + popcount k w = count_ones64 w).
  { intros k. unfold count_ones64. by rewrite popcount_shiftr, popcount_above. }
  induction m as [|m IH] using N.peano_ind; intros Hm.
  - specialize (Hsplit 64%nat). change (N.of_nat 64) with (64 - 0) in Hsplit.
    change (popcount 64 w) with (count_ones64 w) in Hsplit. rewrite rank_0. lia.
  - rewrite <- N.add_1_r, rank_succ. specialize (IH ltac:(lia)).
    rewrite gbit_single by lia.
    pose proof (Hsplit (N.to_nat (64 - (m + 1)))) as H1. pose proof (Hsplit (N.to_nat (64 - m))) as H2.
    replace (N.to_nat (64 - m)) with (S (N.to_nat (64 - (m + 1)))) in H2 at 2 by lia.
    cbn [popcount] in H2. rewrite !N2Nat.id in *. rewrite IH in H2.
    replace (64 - (m + 1)) with (63 - m) in * by lia. lia.
Qed.

Lemma count_ones_word w : is_word w -> count_ones64 w = rank (gbit [w]) 64.
Proof. intros. rewrite <- (count_ones_shiftr w 64) by (done || lia). by rewrite N.shiftr_0_r. Qed.

(** ** Building *)

Lemma block_entry_bound f b : block_entry f b <= 3328.
Proof.
  unfold block_entry. pose proof (rank_diff_le f (64 * b) (3328 * (b / 52 + 1))) as H.
  assert (64 * b <= 3328 * (b / 52 + 1) <= 64 * b + 3328) by dlia. lia.
Qed.

Lemma count_ones_gbit ws b w : Forall is_word ws -> ws.[b] = Some w ->
  rank (gbit ws) (64 * (b + 1)) = rank (gbit ws) (64 * b) + count_ones64 w.
Proof.
  intros Hws Hw. replace (64 * (b + 1)) with (64 * b + 64) by lia.
  rewrite rank_add, count_ones_word by (by eapply Forall_nget). f_equal. apply rank_ext.
  intros i Hi. rewrite gbit_single by done. unfold gbit.
  rewrite (N.mul_comm 64), N.div_add_l, N.div_small, N.add_0_r, Hw by done.
  by rewrite N.add_comm, N.Div0.mod_add, N.mod_small.
Qed.

Section building.
Context (ws : list N) (Hws : Forall is_word ws) (Hlen : lenN ws < 2 ^ 32).
Let f := gbit ws.

Lemma push_blocks c chunk : forall b bb,
  builder_repr bb (block_entry f <$> seqN 0 b) -> LogArrayFileBuilder.width bb = 12 ->
  (forall i w, chunk.[i] = Some w -> ws.[b + i] = Some w) ->
  52 * c <= b -> b + lenN chunk <= 52 * (c + 1) ->
  exists bb', fold_outcome push_block (bb, rank f (3328 * (c + 1)) - rank f (64 * b))
        (count_ones64 <$> chunk)
      = Ok (bb', rank f (3328 * (c + 1)) - rank f (64 * (b + lenN chunk))) /\
    builder_repr bb' (block_entry f <$> seqN 0 (b + lenN chunk)) /\
    LogArrayFileBuilder.width bb' = 12.
Proof.
  induction chunk as [|w chunk IH]; intros b bb Hb Hw Hchunk Hlo Hhi.
  - exists bb. simpl. rewrite N.add_0_r. done.
  - rewrite lenN_cons in Hhi. pose proof (Hchunk 0 w (nget_cons_0 _ _)) as Hwb.
    rewrite N.add_0_r in Hwb. pose proof (count_ones_gbit ws b w Hws Hwb) as Hcount.
    fold f in Hcount. pose proof (nget_Some_lt _ _ _ Hwb) as Hbl.
    pose proof (rank_mono f (64 * (b + 1)) (3328 * (c + 1)) ltac:(lia)) as Hmono.
    assert (He : rank f (3328 * (c + 1)) - rank f (64 * b) = block_entry f b).
    { unfold block_entry. replace (b / 52) with c; [done|]. apply (N.div_unique _ _ _ (b - 52 * c)); lia. }
    destruct (builder_push bb _ (block_entry f b) Hb) as (b1 & Hp & Hb1 & Hw1).
    { by rewrite Hw. }
    { rewrite Hw. pose proof (block_entry_bound f b). simpl. lia. }
    { rewrite lenN_map, lenN_seqN. lia. }
    rewrite map_seqN_snoc in Hb1.
    destruct (IH (b + 1) b1 Hb1) as (b2 & Hf & Hb2 & Hw2); [congruence| |lia|lia|].
    { intros i x Hi. replace (b + 1 + i) with (b + (1 + i)) by lia. apply Hchunk.
      rewrite nget_cons_pos by lia. by replace (1 + i - 1) with i by lia. }
    exists b2. rewrite lenN_cons, !(N.add_assoc b 1). split; [|done].
    assert (Hstep : push_block (bb, block_entry f b) (count_ones64 w) =
              Ok (b1, rank f (3328 * (c + 1)) - rank f (64 * (b + 1)))).
    { unfold push_block. rewrite Hp. mcbn. rewrite csub_Some by lia. mcbn. do 2 f_equal. lia. }
    cbn [fmap list_fmap fold_outcome]. by rewrite He, Hstep.
Qed.

Lemma sum_ranks chunk : forall b,
  (forall i w, chunk.[i] = Some w -> ws.[b + i] = Some w) ->
  rank f (64 * b) + foldr N.add 0 (count_ones64 <$> chunk) = rank f (64 * (b + lenN chunk)).
Proof.
  induction chunk as [|w chunk IH]; intros b Hchunk; [simpl; by rewrite !N.add_0_r|].
  pose proof (Hchunk 0 w (nget_cons_0 _ _)) as Hwb. rewrite N.add_0_r in Hwb.
  pose proof (count_ones_gbit ws b w Hws Hwb) as Hcount. fold f in Hcount.
  cbn [fmap list_fmap foldr]. rewrite lenN_cons. specialize (IH (b + 1)).
  rewrite (N.add_assoc b 1), <- IH; [lia|].
  intros i x Hi. replace (b + 1 + i) with (b + (1 + i)) by lia. apply Hchunk.
  rewrite nget_cons_pos by lia. by replace (1 + i - 1) with i by lia.
Qed.
End building.

Section index.
Context (ws : list N) (Hws : Forall is_word ws) (Hlen : lenN ws < 2 ^ 32).
Let f := gbit ws.

(** The state after [c] chunks. *)
Definition index_inv (s : index_builder) (c : N) : Prop :=
  builder_repr (blocks_builder s) (block_entry f <$> seqN 0 (N.min (52 * c) (lenN ws))) /\
  LogArrayFileBuilder.width (blocks_builder s) = 12 /\
  builder_repr (sblocks_builder s) (sblock_entry f <$> seqN 0 c) /\
  LogArrayFileBuilder.width (sblocks_builder s) = 64 /\
  sblock_rank s = rank f (3328 * c).

Lemma index_chunk_step s c : index_inv s c -> 52 * c < lenN ws ->
  exists s', index_chunk s (takeN 52 (dropN (52 * c) ws)) = Ok s' /\ index_inv s' (c + 1).
Proof.
  intros (Hb & Hbw & Hs & Hsw & Hr) Hc. set (chunk := takeN 52 (dropN (52 * c) ws)).
  replace (N.min (52 * c) (lenN ws)) with (52 * c) in Hb by lia.
  assert (Hchunk : forall i w, chunk.[i] = Some w -> ws.[52 * c + i] = Some w).
  { intros i w Hi. pose proof (nget_Some_lt _ _ _ Hi) as Hl. unfold chunk in Hi, Hl.
    rewrite lenN_takeN in Hl. by rewrite nget_takeN, nget_dropN in Hi by lia. }
  assert (Hcl : 52 * c + lenN chunk = N.min (52 * (c + 1)) (lenN ws)).
  { unfold chunk. rewrite lenN_takeN, lenN_dropN. lia. }
  assert (Hend : rank f (64 * (52 * c + lenN chunk)) = rank f (3328 * (c + 1))).
  { destruct (N.le_gt_cases (52 * (c + 1)) (lenN ws)); [f_equal; lia|]. symmetry. rewrite Hcl.
    apply rank_false; [lia|]. intros i Hi. apply gbit_beyond. lia. }
  pose proof (sum_ranks ws Hws Hlen chunk (52 * c) Hchunk) as Hsum. fold f in Hsum. rewrite Hend in Hsum.
  destruct (push_blocks ws Hws Hlen c chunk (52 * c) _ Hb Hbw Hchunk) as (bb & Hf & Hbb & Hbbw); [lia|lia|].
  fold f in Hf, Hbb. unfold index_chunk. cbv zeta. rewrite Hr.
  replace (64 * (52 * c)) with (3328 * c) in * by lia.
  replace (foldr N.add 0 (count_ones64 <$> chunk)) with (rank f (3328 * (c + 1)) - rank f (3328 * c)) by lia.
  rewrite Hf. mcbn. rewrite Hcl in Hbb.
  destruct (builder_push (sblocks_builder s) _ (sblock_entry f c) Hs) as (sb & Hp & Hsb & Hsbw).
  { by rewrite Hsw. }
  { rewrite Hsw. unfold sblock_entry. pose proof (rank_le f (3328 * (c + 1))). simpl. lia. }
  { rewrite lenN_map, lenN_seqN. lia. }
  replace (rank f (3328 * c) + (rank f (3328 * (c + 1)) - rank f (3328 * c))) with (sblock_entry f c)
    by (unfold sblock_entry; lia).
  rewrite Hp. mcbn. eexists. split; [done|]. rewrite map_seqN_snoc in Hsb.
  unfold index_inv. cbn [blocks_builder sblocks_builder sblock_rank].
  repeat (split; [first [done | congruence]|]). done.
Qed.

Lemma index_run fuel : forall s c, index_inv s c -> lenN ws - 52 * c <= N.of_nat fuel ->
  52 * c < lenN ws + 52 ->
  exists s', fold_outcome index_chunk s (chunks_of fuel 52 (dropN (52 * c) ws)) = Ok s' /\
    index_inv s' ((lenN ws + 51) / 52).
Proof.
  induction fuel as [|fuel IH]; intros s c Hinv Hfuel Hc.
  - exists s. split; [done|]. replace ((lenN ws + 51) / 52) with c by dlia. done.
  - destruct (N.le_gt_cases (lenN ws) (52 * c)) as [Hle|Hgt].
    + exists s. assert (lenN (dropN (52 * c) ws) = 0) as Hz by (rewrite lenN_dropN; lia).
      destruct (dropN (52 * c) ws); [|rewrite lenN_cons in Hz; lia].
      split; [done|]. replace ((lenN ws + 51) / 52) with c by dlia. done.
    + destruct (index_chunk_step s c Hinv Hgt) as (s1 & Hs1 & Hinv1).
      destruct (IH s1 (c + 1) Hinv1) as (s2 & Hs2 & Hinv2); [lia|lia|].
      exists s2. split; [|done].
      assert (Hch : chunks_of (S fuel) 52 (dropN (52 * c) ws) =
                takeN 52 (dropN (52 * c) ws) :: chunks_of fuel 52 (dropN 52 (dropN (52 * c) ws))).
      { destruct (dropN (52 * c) ws) eqn:E; [|done].
        assert (Hz : lenN (dropN (52 * c) ws) = 0) by (by rewrite E). rewrite lenN_dropN in Hz. lia. }
      rewrite Hch. cbn [fold_outcome]. rewrite Hs1. mcbn. rewrite dropN_dropN.
      by replace (52 * c + 52) with (52 * (c + 1)) by lia.
Qed.
End index.

Lemma block_entry_ext f g b : (forall i, f i = g i) -> block_entry f b = block_entry g b.
Proof. intros H. unfold block_entry. f_equal; apply rank_ext; auto. Qed.

Lemma build_bitindex_spec `{FramedRead} b bits : bit_builder_repr b bits -> lenN bits < 2 ^ 32 ->
  exists blocks sblocks bi,
    build_bitindex (BitArrayFileBuilder.finalize b) = Ok (blocks, sblocks) /\
    BitIndex.from_maps (BitArrayFileBuilder.finalize b) blocks sblocks = Some bi /\
    bi_repr bi bits.
Proof.
  intros Hb Hn. destruct (bit_builder_finalize b bits Hb) as (ws & Hfin & Hws & Hlws & Hbits).
  destruct (ba_parse b bits Hb) as (ba & Hba & Hbar).
  destruct Hb as (_ & Hlen & _). unfold build_bitindex. rewrite Hfin in *.
  rewrite stream_blocks_words by (apply Forall_app; split; [done|by constructor]). mcbn.
  assert (Hl : lenN ws < 2 ^ 32) by dlia.
  destruct (index_run ws Hws Hl (length ws)
     (mk_index_builder (LogArrayFileBuilder.new [] blocks_width) (LogArrayFileBuilder.new [] 64) 0) 0)
    as (s & Hs & Hbb & Hbw & Hsb & Hsw & _).
  { unfold index_inv. change (52 * 0) with 0. rewrite N.min_0_l.
    split; [by apply builder_new|]. split; [done|]. split; [by apply builder_new|]. done. }
  { unfold lenN. lia. }
  { lia. }
  change (N.to_nat SBLOCK_SIZE) with 52%nat. change (dropN (52 * 0) ws) with ws in Hs.
  rewrite Hs. mcbn. destruct (la_parse _ _ Hbb) as (bl & Hbl & Hblr & _).
  destruct (la_parse _ _ Hsb) as (sl & Hsl & Hslr & _).
  replace (N.min (52 * ((lenN ws + 51) / 52)) (lenN ws)) with (lenN ws) in * by dlia.
  eexists _, _, (BitIndex.mk ba bl sl). split; [done|].
  assert (Hf : forall A (g h : N -> A) n, (forall i, g i = h i) -> g <$> seqN 0 n = h <$> seqN 0 n).
  { intros A g h n E. apply list_fmap_ext. intros. apply E. }
  split.
  - unfold BitIndex.from_maps. rewrite Hba. mcbn. rewrite Hbl. mcbn. rewrite Hsl. mcbn.
    unfold BitIndex.from_parts.
    destruct Hblr as (-> & _), Hslr as (-> & _), Hbar as (-> & _). rewrite !lenN_map, !lenN_seqN, <- Hlws.
    change SBLOCK_SIZE with 52. replace (lenN ws + 52 - 1) with (lenN ws + 51) by lia.
    rewrite !N.eqb_refl. done.
  - unfold bi_repr. rewrite <- Hlws. split; [done|]. split.
    + rewrite <- (Hf _ _ _ _ (fun i => block_entry_ext _ _ i Hbits)). done.
    + rewrite (Hf _ (sblock_entry (bit_at bits)) (sblock_entry (gbit ws))); [done|].
      intros i. apply rank_ext. intros. by rewrite Hbits.
Qed.

(** ** Rank *)

Section ranking.
Import BitIndex.

Lemma block_entry_get bi bits b : bi_repr bi bits -> b < (lenN bits + 63) / 64 ->
  LogArray.entry (blocks bi) b = Some (block_entry (bit_at bits) b).
Proof. intros (_ & Hb & _) ?. by rewrite (la_entry _ _ _ Hb), nget_map, nget_seqN. Qed.

Lemma sblock_entry_get bi bits s : bi_repr bi bits -> s < ((lenN bits + 63) / 64 + 51) / 52 ->
  LogArray.entry (sblocks bi) s = Some (sblock_entry (bit_at bits) s).
Proof. intros (_ & _ & Hs) ?. by rewrite (la_entry _ _ _ Hs), nget_map, nget_seqN. Qed.

(** The word of a block. *)
Lemma block_bits_word bi bits b : bi_repr bi bits -> b < (lenN bits + 63) / 64 ->
  exists l w, block_bits bi b = Some l /\ lenN l = 8 /\ read_u64 l = Some w /\ is_word w /\
    forall i, i < 64 -> gbit [w] i = bit_at bits (64 * b + i).
Proof.
  intros ((_ & ws & Hbuf & Hws & Hlws & Hbits) & _) Hb. rewrite <- Hlws in Hb.
  destruct (nget_lt ws b Hb) as [w Hw]. pose proof (Forall_nget _ _ _ _ Hws Hw) as Hword.
  exists (be64 w), w. unfold block_bits, BitArray.bits. rewrite Hbuf, lenN_words_bytes. ncmp.
  rewrite (N.mul_comm b 8), dropN_words_bytes by lia.
  unfold dropN. rewrite (drop_S ws w) by done. rewrite words_bytes_cons.
  change 8 with (lenN (be64 w)) at 1. rewrite takeN_app. split; [done|]. split; [done|].
  split; [rewrite <- (app_nil_r (be64 w)); by apply read_u64_be64|]. split; [done|].
  intros i Hi. rewrite <- Hbits, gbit_single by done. unfold gbit.
  rewrite (N.mul_comm 64), N.div_add_l, N.div_small, N.add_0_r, Hw by done.
  by rewrite N.add_comm, N.Div0.mod_add, N.mod_small.
Qed.

Lemma sblock_minus_block f s b : s = b / 52 -> sblock_entry f s - block_entry f b = rank f (64 * b).
Proof.
  intros ->. unfold sblock_entry, block_entry.
  pose proof (rank_mono f (64 * b) (3328 * (b / 52 + 1)) ltac:(dlia)). lia.
Qed.

Lemma block_le_sblock f s b : s = b / 52 -> block_entry f b <= sblock_entry f s.
Proof. intros ->. unfold sblock_entry, block_entry. lia. Qed.

Lemma rank_bits bits b w m : (forall i, i < 64 -> gbit [w] i = bit_at bits (64 * b + i)) -> m <= 64 ->
  rank (bit_at bits) (64 * b + m) = rank (bit_at bits) (64 * b) + rank (gbit [w]) m.
Proof. intros Hw Hm. rewrite rank_add. f_equal. apply rank_ext. intros. symmetry. apply Hw. lia. Qed.

Lemma rank1_spec bi bits i : bi_repr bi bits -> i < lenN bits ->
  rank1 bi i = Some (rank (bit_at bits) (i + 1)).
Proof.
  intros Hbi Hi. assert (Hb : i / 64 < (lenN bits + 63) / 64) by dlia.
  destruct (block_bits_word bi bits _ Hbi Hb) as (l & w & Hl & Hlen & Hread & Hword & Hw).
  unfold rank1. cbv zeta. rewrite (block_entry_get _ _ _ Hbi Hb). mcbn.
  rewrite (sblock_entry_get _ _ _ Hbi) by (change SBLOCK_SIZE with 52; clear -Hb; dlia). mcbn.
  rewrite Hl. mcbn. rewrite Hlen. mstep. rewrite Hread. mcbn.
  assert (Hm : i mod 64 < 64) by (by apply N.mod_lt). rewrite shr64_Some by (clear; dlia). mcbn.
  replace (63 - i mod 64) with (64 - (i mod 64 + 1)) by lia.
  rewrite count_ones_shiftr by (done || lia).
  rewrite csub_Some by (by apply block_le_sblock). mcbn. f_equal.
  rewrite sblock_minus_block by done. rewrite <- (rank_bits bits _ w) by (done || lia).
  f_equal. clear. dlia.
Qed.

Lemma rank1_panics bi bits i : bi_repr bi bits -> (lenN bits + 63) / 64 <= i / 64 -> rank1 bi i = None.
Proof.
  intros (_ & Hb & _) Hi. unfold rank1. cbv zeta. rewrite (la_entry _ _ _ Hb).
  by rewrite (proj2 (nget_None _ _)) by (by rewrite lenN_map, lenN_seqN).
Qed.

Lemma rank0_spec bi bits i : bi_repr bi bits -> i < lenN bits ->
  rank0 bi i = Some (rank (fun k => negb (bit_at bits k)) (i + 1)).
Proof.
  intros Hbi Hi. unfold rank0. rewrite (rank1_spec _ _ _ Hbi Hi). mcbn.
  pose proof (rank_le (bit_at bits) (i + 1)). rewrite csub_Some by lia. rewrite rank_negb. f_equal. lia.
Qed.

(** [rank1_from_range] and [rank0_from_range] for a counting function. *)
Lemma rank1_from_range_spec bi bits s e : bi_repr bi bits -> s <= e <= lenN bits ->
  rank1_from_range bi s e = Some (rank (bit_at bits) e - rank (bit_at bits) s).
Proof.
  intros Hbi Hse. unfold rank1_from_range. destruct (N.eqb_spec s e) as [->|Hne]; [f_equal; lia|].
  mstep. rewrite (rank1_spec _ _ (e - 1) Hbi) by lia. mcbn. replace (e - 1 + 1) with e by lia.
  destruct (N.eqb_spec s 0) as [->|Hs]; cbn [negb]; [rewrite rank_0; f_equal; lia|].
  rewrite (rank1_spec _ _ (s - 1) Hbi) by lia. mcbn. replace (s - 1 + 1) with s by lia.
  rewrite csub_Some; [done|]. apply rank_mono. lia.
Qed.

Lemma rank0_from_range_spec bi bits s e : bi_repr bi bits -> s <= e <= lenN bits ->
  rank0_from_range bi s e =
    Some (rank (fun k => negb (bit_at bits k)) e - rank (fun k => negb (bit_at bits k)) s).
Proof.
  intros Hbi Hse. unfold rank0_from_range. destruct (N.eqb_spec s e) as [->|Hne]; [f_equal; lia|].
  mstep. rewrite (rank0_spec _ _ (e - 1) Hbi) by lia. mcbn. replace (e - 1 + 1) with e by lia.
  destruct (N.eqb_spec s 0) as [->|Hs]; cbn [negb]; [rewrite (rank_0 (fun k => negb _)); f_equal; lia|].
  rewrite (rank0_spec _ _ (s - 1) Hbi) by lia. mcbn. replace (s - 1 + 1) with s by lia.
  rewrite csub_Some; [done|]. apply rank_mono. lia.
Qed.
End ranking.

(** ** Select *)

Lemma sblock_loop_spec r_at (g : N -> N) r fuel : forall start end_,
  (forall s, s <= end_ -> r_at s = Some (g s)) -> (forall a b, a <= b -> g a <= g b) ->
  start <= end_ -> end_ - start < N.of_nat fuel ->
  (forall s, s < start -> g s < r) -> exists m,
    BitIndex.sblock_loop fuel r_at r start end_ = Some m /\ start <= m <= end_ /\
    (forall s, s < m -> g s < r) /\ (m < end_ -> r <= g m).
Proof.
  induction fuel as [|fuel IH]; intros start end_ Hat Hmono Hle Hfuel Hlo; [lia|].
  cbn [BitIndex.sblock_loop]. destruct (N.eqb_spec start end_) as [->|Hne].
  - exists end_. replace ((end_ + end_) / 2) with end_ by dlia. split; [done|]. split; [lia|]. split; [done|lia].
  - assert (Hmid : start <= (start + end_) / 2 < end_) by dlia. set (mid := (start + end_) / 2) in *.
    clearbody mid. rewrite Hat by lia. mcbn. destruct (N.ltb_spec (g mid) r) as [Hlt|Hge].
    + destruct (IH (mid + 1) end_) as (m & Hm & Hr & Hb & Ht); [done|done|lia|lia| |].
      { intros s Hs. pose proof (Hmono s mid ltac:(lia)). lia. }
      exists m. split; [done|]. split; [lia|]. done.
    + destruct (IH start mid) as (m & Hm & Hr & Hb & Ht); [|done|lia|lia|done|].
      { intros. apply Hat. lia. }
      exists m. split; [done|]. split; [lia|]. split; [done|]. intros _.
      destruct (N.eq_dec m mid) as [->|]; [done|]. apply Ht. lia.
Qed.

Lemma block_loop_spec r_at (h : N -> N) sub n : forall start end_ top,
  (forall b, start <= b <= end_ -> r_at b = Some (h b)) -> (forall a b, start <= a -> a <= b -> h b <= h a) ->
  start <= end_ <= top -> end_ - start < 2 ^ N.of_nat n ->
  (forall b, end_ < b <= top -> h b <= sub) -> exists m,
    BitIndex.block_loop (S n) r_at sub start end_ = Some m /\ start <= m <= end_ /\
    (forall b, m < b <= top -> h b <= sub) /\ (start < m -> sub < h m).
Proof.
  induction n as [|n IH]; intros start end_ top Hat Hmono Hle Hfuel Hhi.
  { change (2 ^ N.of_nat 0) with 1 in Hfuel. assert (start = end_) as -> by lia.
    exists end_. cbn [BitIndex.block_loop]. rewrite N.eqb_refl.
    replace ((end_ + end_ + 1) / 2) with end_ by dlia. split; [done|]. split; [lia|]. split; [done|lia]. }
  remember (S n) as fuel eqn:Ef. cbn [BitIndex.block_loop]. subst fuel. destruct (N.eqb_spec start end_) as [->|Hne].
  - exists end_. replace ((end_ + end_ + 1) / 2) with end_ by dlia. split; [done|]. split; [lia|]. split; [done|lia].
  - rewrite Nat2N.inj_succ, N.pow_succ_r' in Hfuel.
    assert (Hmid : start < (start + end_ + 1) / 2 <= end_) by dlia.
    assert (Hhalf : end_ - (start + end_ + 1) / 2 < 2 ^ N.of_nat n /\
                    (start + end_ + 1) / 2 - 1 - start < 2 ^ N.of_nat n) by dlia.
    set (mid := (start + end_ + 1) / 2) in *. clearbody mid. rewrite Hat by lia. mcbn.
    destruct (N.ltb_spec sub (h mid)) as [Hlt|Hge].
    + destruct (IH mid end_ top) as (m & Hm & Hr & Hb & Ht); [| |lia|lia|done|].
      { intros. apply Hat. lia. }
      { intros. apply Hmono; lia. }
      exists m. split; [done|]. split; [lia|]. split; [done|]. intros _.
      destruct (N.eq_dec m mid) as [->|]; [done|]. apply Ht. lia.
    + rewrite csub_Some by lia. mcbn.
      destruct (IH start (mid - 1) top) as (m & Hm & Hr & Hb & Ht); [|done|lia|lia| |].
      { intros. apply Hat. lia. }
      { intros b Hb. pose proof (Hmono mid b ltac:(lia) ltac:(lia)). lia. }
      exists m. split; [done|]. split; [lia|]. done.
Qed.

Lemma shl64_step w i : i < 64 ->
  shl64 (N.shiftl w i mod 2 ^ 64) 1 = Some (N.shiftl w (i + 1) mod 2 ^ 64).
Proof.
  intros Hi. rewrite shl64_Some by done. f_equal. apply N.bits_inj. intros k.
  autorewrite with bits. case_cmp; simpl; try lia; try done. f_equal. lia.
Qed.

Lemma scan_spec w target n : forall i tally, N.of_nat n + i = 64 -> 0 < tally ->
  let f := fun k => eqb (gbit [w] k) target in
  rank f i + tally <= rank f 64 -> exists p,
    BitIndex.scan n target i (N.shiftl w i mod 2 ^ 64) tally = Some (Some p) /\
    p < 64 /\ f p = true /\ rank f p + 1 = rank f i + tally.
Proof.
  induction n as [|n IH]; intros i tally Hn Ht f Hr.
  { replace i with 64 in * by lia. lia. }
  cbn [BitIndex.scan]. rewrite shl64_step by lia. mcbn.
  change 0x8000000000000000 with (2 ^ 63). rewrite land_pow2_testbit.
  assert (Hbit : eqb (N.testbit (N.shiftl w i mod 2 ^ 64) 63) target = f i).
  { unfold f. rewrite gbit_single by lia. autorewrite with bits. by ncmp. }
  rewrite Hbit. pose proof (rank_succ f i) as Hsucc. destruct (f i) eqn:Hfi; simpl in Hsucc.
  - rewrite csub_Some by lia. mcbn. destruct (N.eqb_spec (tally - 1) 0) as [Hz|Hz].
    + exists i. split; [done|]. split; [lia|]. split; [done|lia].
    + destruct (IH (i + 1) (tally - 1)) as (p & Hp & Hp64 & Hfp & Hrp); [lia|lia|fold f; lia|].
      exists p. split; [done|]. split; [done|]. split; [done|]. fold f in Hrp. lia.
  - destruct (IH (i + 1) tally) as (p & Hp & Hp64 & Hfp & Hrp); [lia|lia|fold f; lia|].
    exists p. split; [done|]. split; [done|]. split; [done|]. fold f in Hrp. lia.
Qed.

(** The two binary searches of a select: [f] tells the positions counted. *)
Section select_core.
Context (f : N -> bool) (nb r : N) (s_at b_at : N -> option N).
Hypothesis s_at_spec : forall s, s < (nb + 51) / 52 -> s_at s = Some (sblock_entry f s).
Hypothesis b_at_spec : forall b, b < nb -> b_at b = Some (block_entry f b).

Lemma sblock_search : 0 < nb -> let last := (nb + 51) / 52 - 1 in exists m,
  BitIndex.sblock_loop (S (N.to_nat last)) s_at r 0 last = Some m /\
  m <= last /\ (0 < m -> sblock_entry f (m - 1) < r) /\ (m < last -> r <= sblock_entry f m).
Proof.
  intros Hnb last. assert (Hns : 0 < (nb + 51) / 52) by dlia.
  destruct (sblock_loop_spec s_at (sblock_entry f) r (S (N.to_nat last)) 0 last)
    as (m & Hm & Hr & Hb & Ht).
  { intros s Hs. apply s_at_spec. lia. }
  { intros a b Hab. unfold sblock_entry. apply rank_mono. lia. }
  { lia. }
  { lia. }
  { lia. }
  exists m. split; [done|]. split; [lia|]. split; [|done]. intros. apply Hb. lia.
Qed.

Lemma block_search m : 0 < r <= rank f (64 * nb) -> m <= (nb + 51) / 52 - 1 -> 0 < nb ->
  (0 < m -> sblock_entry f (m - 1) < r) -> r <= sblock_entry f m ->
  let last := N.min (nb - 1) (52 * m + 51) in exists k,
    BitIndex.block_loop (N.to_nat SBLOCK_SIZE) b_at (sblock_entry f m - r) (52 * m) last = Some k /\
    k < nb /\ k / 52 = m /\ rank f (64 * k) < r <= rank f (64 * (k + 1)).
Proof.
  intros Hr Hm Hnb Hlo Hhi last. assert (Hstart : 52 * m <= nb - 1) by dlia.
  assert (Hdiv : forall b, 52 * m <= b <= last -> b / 52 = m).
  { intros b Hb. symmetry. apply (N.div_unique _ _ _ (b - 52 * m)); lia. }
  assert (Hcmp : forall b, 52 * m <= b <= last ->
    sblock_entry f m - r < sblock_entry f m - rank f (64 * b) <-> rank f (64 * b) < r).
  { intros b Hb. pose proof (sblock_minus_block f m b ltac:(symmetry; by apply Hdiv)).
    pose proof (rank_mono f (64 * b) (3328 * (m + 1)) ltac:(lia)). unfold sblock_entry in *. lia. }
  destruct (block_loop_spec b_at (fun b => sblock_entry f m - rank f (64 * b))
              (sblock_entry f m - r) 51 (52 * m) last last) as (k & Hk & Hkr & Hkb & Hkt).
  { intros b Hb. rewrite b_at_spec by lia. unfold block_entry, sblock_entry.
    by rewrite (Hdiv b) by done. }
  { intros a b Ha Hab. pose proof (rank_mono f (64 * a) (64 * b) ltac:(lia)). lia. }
  { lia. }
  { change (2 ^ N.of_nat 51) with 2251799813685248. lia. }
  { lia. }
  exists k. split; [done|]. split; [lia|]. split; [apply Hdiv; lia|]. split.
  - destruct (N.eq_dec k (52 * m)) as [->|Hne].
    + destruct (N.eq_dec m 0) as [->|Hm0]; [change (64 * (52 * 0)) with 0; rewrite (rank_0 f); lia|].
      specialize (Hlo ltac:(lia)). unfold sblock_entry in Hlo.
      replace (3328 * (m - 1 + 1)) with (64 * (52 * m)) in Hlo by lia. done.
    + apply Hcmp; [lia|]. apply Hkt. lia.
  - destruct (N.eq_dec k last) as [Heq|Hne].
    + destruct (N.le_gt_cases (nb - 1) (52 * m + 51)).
      * replace (64 * (k + 1)) with (64 * nb) by lia. lia.
      * replace (64 * (k + 1)) with (3328 * (m + 1)) by lia. done.
    + destruct (N.lt_ge_cases (rank f (64 * (k + 1))) r) as [Hlt|]; [|done].
      apply Hcmp in Hlt; [|lia]. specialize (Hkb (k + 1) ltac:(lia)). simpl in Hkb. lia.
Qed.
End select_core.

Section selecting.
Import BitIndex.

Lemma sblock_end_spec bi bits m : bi_repr bi bits -> 0 < (lenN bits + 63) / 64 ->
  sblock_end bi (m * SBLOCK_SIZE) = Some (N.min ((lenN bits + 63) / 64 - 1) (52 * m + 51)).
Proof.
  intros (_ & (Hl & _) & _) Hnb. unfold sblock_end. rewrite Hl, lenN_map, lenN_seqN.
  mstep. change SBLOCK_SIZE with 52. f_equal. set (x := (lenN bits + 63) / 64 - 1). case_cmp; lia.
Qed.

(** The word scan of a block, for bits equal to [target]. *)
Lemma scan_block bits target k w r : is_word w ->
  (forall i, i < 64 -> gbit [w] i = bit_at bits (64 * k + i)) ->
  let f := fun i => eqb (bit_at bits i) target in
  rank f (64 * k) < r <= rank f (64 * (k + 1)) -> exists p,
    scan 64 target 0 w (r - rank f (64 * k)) = Some (Some p) /\
    p < 64 /\ f (64 * k + p) = true /\ rank f (64 * k + p) = r - 1.
Proof.
  intros Hword Hw f Hr. pose proof (scan_spec w target 64 0 (r - rank f (64 * k))) as Hscan.
  cbv zeta in Hscan. set (g := fun i => eqb (gbit [w] i) target) in *.
  assert (Hrank : forall m, m <= 64 -> rank f (64 * k + m) = rank f (64 * k) + rank g m).
  { intros m Hm. rewrite rank_add. f_equal. apply rank_ext. intros i Hi. unfold f, g. by rewrite Hw by lia. }
  rewrite N.shiftl_0_r, N.mod_small, rank_0, N.add_0_l in Hscan by done.
  destruct Hscan as (p & Hp & Hp64 & Hgp & Hrp); [done|lia| |].
  { pose proof (Hrank 64 ltac:(lia)) as H64. replace (64 * k + 64) with (64 * (k + 1)) in H64 by lia. lia. }
  exists p. split; [done|]. split; [done|]. split; [|rewrite Hrank by lia; lia].
  unfold f, g in *. by rewrite <- Hw.
Qed.

Lemma rank_padded bits n : lenN bits <= n -> rank (bit_at bits) n = rank (bit_at bits) (lenN bits).
Proof. intros. apply rank_false; [done|]. intros. by apply bit_at_beyond. Qed.

Lemma last_sblock f nb : 0 < nb -> rank f (64 * nb) <= sblock_entry f ((nb + 51) / 52 - 1).
Proof. intros. apply rank_mono. dlia. Qed.

Lemma eqb_true_at bits i : eqb (bit_at bits i) true = bit_at bits i.
Proof. by destruct (bit_at bits i). Qed.

Lemma rank_eqb_true bits n : rank (fun i => eqb (bit_at bits i) true) n = rank (bit_at bits) n.
Proof. apply rank_ext. intros. apply eqb_true_at. Qed.

Lemma sblocks_len bi bits : bi_repr bi bits ->
  LogArray.len (sblocks bi) = ((lenN bits + 63) / 64 + 51) / 52.
Proof. intros (_ & _ & -> & _). by rewrite lenN_map, lenN_seqN. Qed.

(** The steps of a select whose searches have succeeded. *)
Lemma select1_steps bi r m sr k br l w p :
  select1_sblock bi r = Some m -> LogArray.entry (sblocks bi) m = Some sr -> r <= sr ->
  select1_block bi m (sr - r) = Some k -> LogArray.entry (blocks bi) k = Some br -> br <= sr ->
  sr - br <= r <= sr - br + 64 -> block_bits bi k = Some l -> read_u64 l = Some w ->
  scan 64 true 0 w (r - (sr - br)) = Some p -> select1 bi r = Some (option_map (fun i => k * 64 + i) p).
Proof.
  intros Hm Hsr Hr Hk Hbr Hle Hrange Hl Hw Hp. unfold select1.
  rewrite Hm. mcbn. rewrite Hsr. mcbn. ncmp. mstep. rewrite Hk. mcbn. rewrite Hbr. mcbn.
  mstep. mstep. mstep. rewrite Hl. mcbn.
  by rewrite Hw, bind_Some_eq, Hp, bind_Some_eq.
Qed.

Lemma select0_steps bi r m e sr k e' br l w p :
  select0_sblock bi r = Some m -> LogArray.entry (sblocks bi) m = Some e ->
  csub ((1 + m) * SBLOCK_SIZE * 64) e = Some sr -> r <= sr ->
  select0_block bi m (sr - r) = Some k -> LogArray.entry (blocks bi) k = Some e' ->
  csub ((SBLOCK_SIZE - k mod SBLOCK_SIZE) * 64) e' = Some br -> br <= sr ->
  sr - br <= r <= sr - br + 64 -> block_bits bi k = Some l -> read_u64 l = Some w ->
  scan 64 false 0 w (r - (sr - br)) = Some p -> select0 bi r = Some (option_map (fun i => k * 64 + i) p).
Proof.
  intros Hm He Hsr Hr Hk He' Hbr Hle Hrange Hl Hw Hp. unfold select0.
  rewrite Hm. mcbn. rewrite He. mcbn. rewrite Hsr. mcbn. ncmp. mstep. rewrite Hk. mcbn.
  rewrite He'. mcbn. rewrite Hbr. mcbn.
  mstep. mstep. mstep. rewrite Hl. mcbn.
  by rewrite Hw, bind_Some_eq, Hp, bind_Some_eq.
Qed.

Lemma select1_some bi bits r : bi_repr bi bits -> 0 < r <= rank (bit_at bits) (lenN bits) ->
  exists p, select1 bi r = Some (Some p) /\ p < lenN bits /\ bit_at bits p = true /\
    rank (bit_at bits) p = r - 1.
Proof.
  intros Hbi Hr. pose proof (rank_le (bit_at bits) (lenN bits)).
  set (nb := (lenN bits + 63) / 64). assert (Hnb : 0 < nb) by (unfold nb; dlia).
  assert (Htot : rank (bit_at bits) (64 * nb) = rank (bit_at bits) (lenN bits)).
  { apply rank_padded. unfold nb. dlia. }
  destruct (sblock_search (bit_at bits) nb r (LogArray.entry (sblocks bi))) as (m & Hm & Hml & Hlo & Hhi).
  { intros. by apply sblock_entry_get. }
  { done. }
  pose proof (last_sblock (bit_at bits) nb Hnb) as Hlast.
  assert (Hge : r <= sblock_entry (bit_at bits) m).
  { destruct (N.eq_dec m ((nb + 51) / 52 - 1)) as [->|]; [lia|]. apply Hhi. lia. }
  destruct (block_search (bit_at bits) nb r (LogArray.entry (blocks bi))
              ltac:(intros; by apply block_entry_get) m) as (k & Hk & Hknb & Hkm & Hkr); [lia|done|done|done|done|].
  destruct (block_bits_word bi bits k Hbi Hknb) as (l & w & Hl & _ & Hread & Hword & Hw).
  pose proof (scan_block bits true k w r Hword Hw) as Hscan. cbv zeta in Hscan.
  rewrite !rank_eqb_true in Hscan. destruct (Hscan Hkr) as (p & Hp & Hp64 & Hfp & Hrp).
  rewrite eqb_true_at in Hfp. rewrite rank_eqb_true in Hrp.
  assert (Hns : 1 <= (nb + 51) / 52) by dlia.
  exists (64 * k + p). split.
  - replace (64 * k) with (k * 64) by lia.
    pose proof (sblock_minus_block (bit_at bits) m k (eq_sym Hkm)) as Hsub.
    pose proof (rank_diff_le (bit_at bits) (64 * k) (64 * (k + 1)) ltac:(lia)).
    apply (select1_steps bi r m _ k _ l w (Some p)) with (2 := sblock_entry_get _ _ m Hbi ltac:(fold nb; lia))
      (5 := block_entry_get _ _ k Hbi Hknb); rewrite ?Hsub; try done; [| |by apply block_le_sblock|lia].
    + unfold select1_sblock. by rewrite (sblocks_len _ _ Hbi), csub_Some.
    + unfold select1_block. by rewrite (sblock_end_spec _ _ _ Hbi Hnb), (N.mul_comm m).
  - split; [|done]. destruct (N.lt_ge_cases (64 * k + p) (lenN bits)) as [|Hge']; [done|].
    by rewrite bit_at_beyond in Hfp.
Qed.

Lemma select1_none bi bits r : bi_repr bi bits -> 0 < lenN bits ->
  rank (bit_at bits) (lenN bits) < r -> select1 bi r = Some None.
Proof.
  intros Hbi Hn Hr. set (nb := (lenN bits + 63) / 64). assert (Hnb : 0 < nb) by (unfold nb; dlia).
  destruct (sblock_search (bit_at bits) nb r (LogArray.entry (sblocks bi))) as (m & Hm & Hml & Hlo & Hhi).
  { intros. by apply sblock_entry_get. }
  { done. }
  assert (Hns : 1 <= (nb + 51) / 52) by dlia.
  unfold select1, select1_sblock. rewrite (sblocks_len _ _ Hbi). fold nb. mstep. rewrite Hm. mcbn.
  rewrite (sblock_entry_get _ _ _ Hbi) by (fold nb; lia). mcbn.
  assert (sblock_entry (bit_at bits) m < r); [|by ncmp].
  unfold sblock_entry. eapply N.le_lt_trans; [|exact Hr].
  destruct (N.le_gt_cases (lenN bits) (3328 * (m + 1))) as [Hle|Hgt]; [by rewrite rank_padded by done|].
  apply rank_mono. lia.
Qed.

(** The zero counts the code derives from the one counts. *)
Lemma zero_sblock bits s :
  csub ((1 + s) * SBLOCK_SIZE * 64) (sblock_entry (bit_at bits) s) =
    Some (sblock_entry (fun i => eqb (bit_at bits i) false) s).
Proof.
  unfold sblock_entry. change SBLOCK_SIZE with 52.
  replace ((1 + s) * 52 * 64) with (3328 * (s + 1)) by lia.
  pose proof (rank_le (bit_at bits) (3328 * (s + 1))). rewrite csub_Some by done. f_equal.
  rewrite <- rank_negb. apply rank_ext. intros i _. by destruct (bit_at bits i).
Qed.

Lemma zero_block bits b :
  csub ((SBLOCK_SIZE - b mod SBLOCK_SIZE) * 64) (block_entry (bit_at bits) b) =
    Some (block_entry (fun i => eqb (bit_at bits i) false) b).
Proof.
  assert (Hneg : forall n, rank (fun i => eqb (bit_at bits i) false) n = n - rank (bit_at bits) n).
  { intros n. rewrite <- rank_negb. apply rank_ext. intros i _. by destruct (bit_at bits i). }
  unfold block_entry. change SBLOCK_SIZE with 52. rewrite !Hneg.
  pose proof (rank_diff_le (bit_at bits) (64 * b) (3328 * (b / 52 + 1)) ltac:(dlia)).
  pose proof (rank_le (bit_at bits) (64 * b)). pose proof (rank_le (bit_at bits) (3328 * (b / 52 + 1))).
  pose proof (rank_mono (bit_at bits) (64 * b) (3328 * (b / 52 + 1)) ltac:(dlia)).
  replace ((52 - b mod 52) * 64) with (3328 * (b / 52 + 1) - 64 * b) by dlia.
  assert (64 * b <= 3328 * (b / 52 + 1)) by dlia.
  rewrite csub_Some by lia. f_equal. lia.
Qed.

Lemma select0_padded bi bits r : let f := fun i => eqb (bit_at bits i) false in
  bi_repr bi bits -> 0 < r <= rank f (64 * ((lenN bits + 63) / 64)) ->
  exists p, select0 bi r = Some (Some p) /\ f p = true /\ rank f p = r - 1.
Proof.
  intros f Hbi Hr. set (nb := (lenN bits + 63) / 64) in *. pose proof (rank_le f (64 * nb)).
  assert (Hnb : 0 < nb) by lia.
  destruct (sblock_search f nb r (fun mid => e ← LogArray.entry (sblocks bi) mid;
              csub ((1 + mid) * SBLOCK_SIZE * 64) e)) as (m & Hm & Hml & Hlo & Hhi).
  { intros s Hs. rewrite (sblock_entry_get _ _ _ Hbi) by done. mcbn. apply zero_sblock. }
  { done. }
  pose proof (last_sblock f nb Hnb) as Hlast.
  assert (Hge : r <= sblock_entry f m).
  { destruct (N.eq_dec m ((nb + 51) / 52 - 1)) as [->|]; [lia|]. apply Hhi. lia. }
  destruct (block_search f nb r (fun mid => e ← LogArray.entry (blocks bi) mid;
              csub ((SBLOCK_SIZE - mid mod SBLOCK_SIZE) * 64) e)) with (m := m)
    as (k & Hk & Hknb & Hkm & Hkr); [|lia|done|done|done|done|].
  { intros b Hb. rewrite (block_entry_get _ _ _ Hbi) by done. mcbn. apply zero_block. }
  destruct (block_bits_word bi bits k Hbi Hknb) as (l & w & Hl & _ & Hread & Hword & Hw).
  destruct (scan_block bits false k w r Hword Hw Hkr) as (p & Hp & Hp64 & Hfp & Hrp).
  assert (Hns : 1 <= (nb + 51) / 52) by dlia.
  exists (64 * k + p). split; [|done].
  replace (64 * k) with (k * 64) by lia.
  pose proof (sblock_minus_block f m k (eq_sym Hkm)) as Hsub.
  pose proof (rank_diff_le f (64 * k) (64 * (k + 1)) ltac:(lia)).
  apply (select0_steps bi r m _ (sblock_entry f m) k _ (block_entry f k) l w (Some p))
    with (2 := sblock_entry_get _ _ m Hbi ltac:(fold nb; lia))
      (6 := block_entry_get _ _ k Hbi Hknb); rewrite ?Hsub; try done.
  - unfold select0_sblock. by rewrite (sblocks_len _ _ Hbi), csub_Some.
  - apply zero_sblock.
  - unfold select0_block. by rewrite (sblock_end_spec _ _ _ Hbi Hnb), (N.mul_comm m).
  - apply zero_block.
  - by apply block_le_sblock.
  - lia.
Qed.

Lemma rank_lt_inv f p n r : rank f p = r - 1 -> 0 < r <= rank f n -> p < n.
Proof.
  intros Hp Hr. destruct (N.lt_ge_cases p n) as [|Hge]; [done|].
  pose proof (rank_mono f n p Hge). lia.
Qed.

Lemma select0_some bi bits r : let f := fun i => negb (bit_at bits i) in
  bi_repr bi bits -> 0 < r <= rank f (lenN bits) ->
  exists p, select0 bi r = Some (Some p) /\ p < lenN bits /\ bit_at bits p = false /\ rank f p = r - 1.
Proof.
  intros f Hbi Hr.
  assert (Hf : forall n, rank (fun i => eqb (bit_at bits i) false) n = rank f n).
  { intros n. apply rank_ext. intros i _. unfold f. by destruct (bit_at bits i). }
  destruct (select0_padded bi bits r Hbi) as (p & Hp & Hfp & Hrp).
  { rewrite Hf. pose proof (rank_mono f (lenN bits) (64 * ((lenN bits + 63) / 64)) ltac:(dlia)). lia. }
  rewrite Hf in Hrp. exists p. split; [done|].
  split; [by apply (rank_lt_inv f p _ r)|]. split; [|done]. by destruct (bit_at bits p).
Qed.
End selecting.

(** ** Selecting in a range *)

(** The positions of a range whose rank is [r] above the start of the range. *)
Lemma select_in_range f n s e r p : s <= e <= n -> 0 < r -> f p = true -> rank f p = rank f s + r - 1 ->
  s <= p /\ forall q, (s <= q < e /\ f q = true /\ rank f q + 1 = rank f s + r) <-> (p < e /\ q = p).
Proof.
  intros Hse Hr Hp Hrp. assert (Hsp : s <= p).
  { destruct (N.lt_ge_cases p s) as [Hlt|]; [|done].
    pose proof (rank_mono f (p + 1) s ltac:(lia)) as H. rewrite rank_succ, Hp in H. simpl in H. lia. }
  split; [done|]. intros q. split.
  - intros (Hq & Hfq & Hrq). assert (q = p) as ->; [|lia]. apply (rank_inj f); [done|done|lia].
  - intros [Hpe ->]. split; [lia|]. split; [done|lia].
Qed.

Section select_ranges.
Import BitIndex.
Context (bi : t) (bits : list bool) (Hbi : bi_repr bi bits) (Hne : 0 < lenN bits).

Lemma select1_spec r : 0 < r -> exists o, select1 bi r = Some o /\
  forall p, o = Some p <-> p < lenN bits /\ bit_at bits p = true /\ rank (bit_at bits) p + 1 = r.
Proof.
  intros Hr. destruct (N.le_gt_cases r (rank (bit_at bits) (lenN bits))) as [Hle|Hgt].
  - destruct (select1_some bi bits r Hbi ltac:(lia)) as (p & Hp & Hpl & Hpb & Hpr).
    exists (Some p). split; [done|]. intros q. split; [intros [= <-]; split; [done|split; [done|lia]]|].
    intros (Hq & Hqb & Hqr). f_equal. apply (rank_inj (bit_at bits)); [done|done|lia].
  - exists None. split; [by apply (select1_none bi bits)|]. intros q. split; [done|].
    intros (Hq & Hqb & Hqr). pose proof (rank_mono (bit_at bits) (q + 1) (lenN bits) ltac:(lia)) as H.
    rewrite rank_succ, Hqb in H. simpl in H. lia.
Qed.

Lemma offset1 s : s <= lenN bits ->
  (if s =? 0 then Some 0 else rank1 bi (s - 1)) = Some (rank (bit_at bits) s).
Proof.
  intros Hs. destruct (N.eqb_spec s 0) as [->|]; [done|].
  rewrite (rank1_spec bi bits) by (done || lia). by replace (s - 1 + 1) with s by lia.
Qed.

Lemma offset0 s : s <= lenN bits ->
  (if s =? 0 then Some 0 else rank0 bi (s - 1)) = Some (rank (fun i => negb (bit_at bits i)) s).
Proof.
  intros Hs. destruct (N.eqb_spec s 0) as [->|]; [done|].
  rewrite (rank0_spec bi bits) by (done || lia). by replace (s - 1 + 1) with s by lia.
Qed.

Lemma select1_range_spec r s e : s <= e <= lenN bits -> 0 < r -> exists o,
  select1_from_range bi r s e = Some o /\ forall p, o = Some p <->
    s <= p < e /\ bit_at bits p = true /\ rank (bit_at bits) p + 1 = rank (bit_at bits) s + r.
Proof.
  intros Hse Hr. unfold select1_from_range. rewrite offset1 by lia. mcbn.
  destruct (N.le_gt_cases (rank (bit_at bits) s + r) (rank (bit_at bits) (lenN bits))) as [Hle|Hgt].
  - destruct (select1_some bi bits (rank (bit_at bits) s + r) Hbi ltac:(lia)) as (p & Hp & Hpl & Hpb & Hpr).
    rewrite Hp. mcbn. replace (r =? 0) with false by (symmetry; apply N.eqb_neq; lia).
    rewrite andb_false_r. mcbn. destruct (select_in_range _ _ s e r p Hse Hr Hpb Hpr) as [Hsp Hiff].
    replace (p <? s) with false by (symmetry; by apply N.ltb_ge). cbn [orb].
    destruct (N.leb_spec e p) as [Hep|Hpe].
    + exists None. split; [done|]. intros q. rewrite Hiff. split; [done|lia].
    + exists (Some p). split; [done|]. intros q. rewrite Hiff. split; [by intros [= <-]|]. by intros [_ ->].
  - rewrite (select1_none bi bits) by done. mcbn. exists None. split; [done|]. intros q. split; [done|].
    intros (Hq & Hqb & Hqr). pose proof (rank_mono (bit_at bits) (q + 1) (lenN bits) ltac:(lia)) as H.
    rewrite rank_succ, Hqb in H. simpl in H. lia.
Qed.

Lemma select0_range_spec r s e : s <= e <= lenN bits -> 0 < r ->
  rank (fun i => negb (bit_at bits i)) s + r <= rank (fun i => negb (bit_at bits i)) (lenN bits) ->
  exists o, select0_from_range bi r s e = Some o /\ forall p, o = Some p <->
    s <= p < e /\ negb (bit_at bits p) = true /\
    rank (fun i => negb (bit_at bits i)) p + 1 = rank (fun i => negb (bit_at bits i)) s + r.
Proof.
  intros Hse Hr Hle. unfold select0_from_range. rewrite offset0 by lia. mcbn.
  destruct (select0_some bi bits _ Hbi (conj (N.add_pos_r _ _ Hr) Hle)) as (p & Hp & Hpl & Hpb & Hpr).
  rewrite Hp. mcbn. replace (r =? 0) with false by (symmetry; apply N.eqb_neq; lia).
  rewrite andb_false_r. mcbn.
  destruct (select_in_range (fun i => negb (bit_at bits i)) _ s e r p Hse Hr) as [Hsp Hiff]; [by rewrite Hpb|done|].
  replace (p <? s) with false by (symmetry; by apply N.ltb_ge). cbn [orb].
  destruct (N.leb_spec e p) as [Hep|Hpe].
  - exists None. split; [done|]. intros q. rewrite Hiff. split; [done|lia].
  - exists (Some p). split; [done|]. intros q. rewrite Hiff. split; [by intros [= <-]|]. by intros [_ ->].
Qed.
End select_ranges.

(** ** Properties *)

Lemma indexed_repr `{FramedRead} bits bi : lenN bits < 2 ^ 32 -> indexed bits bi -> bi_repr bi bits.
Proof.
  intros Hn Hbi. unfold indexed in Hbi.
  destruct (bit_builder_push_all bits _ _ bit_builder_new) as (b & Hp & Hb).
  { rewrite lenN_nil. simpl in *. lia. }
  destruct (build_bitindex_spec b _ Hb Hn) as (bl & sl & bi' & Hbuild & Hmaps & Hr).
  rewrite Hp, bind_Ok_eq, Hbuild, bind_Ok_eq, Hmaps in Hbi. by injection Hbi as <-.
Qed.

(** An index can be built over any bits: the builder returns no error, and
    the files it writes pass the assertions of [from_maps]. *)
Theorem build_bitindex_total `{FramedRead} bits : lenN bits < 2 ^ 32 -> exists bi, indexed bits bi.
Proof.
  intros Hn. destruct (bit_builder_push_all bits _ _ bit_builder_new) as (b & Hp & Hb).
  { rewrite lenN_nil. simpl in *. lia. }
  destruct (build_bitindex_spec b _ Hb Hn) as (bl & sl & bi & Hbuild & Hmaps & _).
  exists bi. unfold indexed. by rewrite Hp, bind_Ok_eq, Hbuild, bind_Ok_eq, Hmaps.
Qed.

Lemma build_bitindex_total_witness : exists bi, indexed (H := whole_file) [true; false; false; true] bi.
Proof. apply build_bitindex_total. reflexivity. Defined.

(** C31: [rank1] and [rank0] count the ones and the zeros up to and including
    the given position, and their ranged forms those in [start..end]. *)
Theorem bitindex_rank `{FramedRead} bits bi start end_ i :
  lenN bits < 2 ^ 32 -> indexed bits bi -> i < lenN bits -> start <= end_ <= lenN bits ->
  BitIndex.rank1 bi i = Some (rank (bit_at bits) (i + 1)) /\
  BitIndex.rank0 bi i = Some (i + 1 - rank (bit_at bits) (i + 1)) /\
  BitIndex.rank1_from_range bi start end_ = Some (rank (bit_at bits) end_ - rank (bit_at bits) start) /\
  BitIndex.rank0_from_range bi start end_ =
    Some (end_ - start - (rank (bit_at bits) end_ - rank (bit_at bits) start)).
Proof.
  intros Hn Hbi Hi Hse. pose proof (indexed_repr _ _ Hn Hbi) as Hr.
  rewrite (rank1_spec bi bits), (rank0_spec bi bits), (rank1_from_range_spec bi bits),
    (rank0_from_range_spec bi bits) by done. rewrite !rank_negb.
  repeat split. f_equal. pose proof (rank_diff_le (bit_at bits) start end_ ltac:(lia)).
  pose proof (rank_le (bit_at bits) start). pose proof (rank_mono (bit_at bits) start end_ ltac:(lia)). lia.
Qed.

Definition sample_bits : list bool := [false; true; true; false; true; false].

Lemma bitindex_rank_witness : exists bi, indexed (H := whole_file) sample_bits bi /\
  BitIndex.rank1 bi 2 = Some (rank (bit_at sample_bits) 3) /\
  BitIndex.rank0 bi 2 = Some (3 - rank (bit_at sample_bits) 3) /\
  BitIndex.rank1_from_range bi 1 4 = Some (rank (bit_at sample_bits) 4 - rank (bit_at sample_bits) 1) /\
  BitIndex.rank0_from_range bi 1 4 = Some (4 - 1 - (rank (bit_at sample_bits) 4 - rank (bit_at sample_bits) 1)).
Proof.
  eexists. split; [vm_compute; reflexivity|].
  apply (bitindex_rank (H := whole_file) sample_bits _ 1 4 2); [reflexivity| |reflexivity|done].
  vm_compute; reflexivity.
Defined.

(** C32: [select1 bi r] is the position of the [r]th one, and [None] when there
    are fewer ones, and [select1_from_range] the same within a range; neither
    panics, for a rank of at least one. *)
Theorem bitindex_select1 `{FramedRead} bits bi r start end_ :
  lenN bits < 2 ^ 32 -> 0 < lenN bits -> indexed bits bi -> 0 < r -> start <= end_ <= lenN bits ->
  (exists o, BitIndex.select1 bi r = Some o /\ forall p, o = Some p <->
     p < lenN bits /\ bit_at bits p = true /\ rank (bit_at bits) p + 1 = r) /\
  (exists o, BitIndex.select1_from_range bi r start end_ = Some o /\ forall p, o = Some p <->
     start <= p < end_ /\ bit_at bits p = true /\
     rank (bit_at bits) p + 1 = rank (bit_at bits) start + r).
Proof.
  intros Hn Hne Hbi Hr Hse. pose proof (indexed_repr _ _ Hn Hbi).
  split; [by apply select1_spec|by apply select1_range_spec].
Qed.

Lemma bitindex_select1_witness : exists bi, indexed (H := whole_file) sample_bits bi /\
  (exists o, BitIndex.select1 bi 2 = Some o /\ forall p, o = Some p <->
     p < lenN sample_bits /\ bit_at sample_bits p = true /\ rank (bit_at sample_bits) p + 1 = 2) /\
  (exists o, BitIndex.select1_from_range bi 2 2 5 = Some o /\ forall p, o = Some p <->
     2 <= p < 5 /\ bit_at sample_bits p = true /\
     rank (bit_at sample_bits) p + 1 = rank (bit_at sample_bits) 2 + 2).
Proof.
  eexists. split; [vm_compute; reflexivity|].
  apply (bitindex_select1 (H := whole_file) sample_bits _ 2 2 5); [reflexivity|reflexivity| |reflexivity|done].
  vm_compute; reflexivity.
Defined.

(** [select0 bi r] is the position of the [r]th zero, and
    [select0_from_range] the one within a range or [None], for a rank from one
    up to the number of zeros.  (Above that number [select0] is not total: see
    [select0_beyond].) *)
Theorem bitindex_select0 `{FramedRead} bits bi r start end_ :
  let f := fun i => negb (bit_at bits i) in
  lenN bits < 2 ^ 32 -> 0 < lenN bits -> indexed bits bi -> 0 < r -> start <= end_ <= lenN bits ->
  rank f start + r <= rank f (lenN bits) ->
  (exists p, BitIndex.select0 bi r = Some (Some p) /\
     p < lenN bits /\ bit_at bits p = false /\ rank f p = r - 1) /\
  (exists o, BitIndex.select0_from_range bi r start end_ = Some o /\ forall p, o = Some p <->
     start <= p < end_ /\ negb (bit_at bits p) = true /\ rank f p + 1 = rank f start + r).
Proof.
  intros f Hn Hne Hbi Hr Hse Hle. pose proof (indexed_repr _ _ Hn Hbi).
  split; [apply select0_some; [done|]; fold f; lia|by apply select0_range_spec].
Qed.

Lemma bitindex_select0_witness : let f := fun i => negb (bit_at sample_bits i) in
  exists bi, indexed (H := whole_file) sample_bits bi /\
  (exists p, BitIndex.select0 bi 2 = Some (Some p) /\
     p < lenN sample_bits /\ bit_at sample_bits p = false /\ rank f p = 2 - 1) /\
  (exists o, BitIndex.select0_from_range bi 2 1 6 = Some o /\ forall p, o = Some p <->
     1 <= p < 6 /\ negb (bit_at sample_bits p) = true /\ rank f p + 1 = rank f 1 + 2).
Proof.
  eexists. split; [vm_compute; reflexivity|].
  apply (bitindex_select0 (H := whole_file) sample_bits _ 2 1 6); [reflexivity|reflexivity| |reflexivity|done|done].
  vm_compute; reflexivity.
Defined.

(** Beyond the number of zeros [select0] answers with a position of the
    padding of the last word or panics, where [select1] answers [None]; and
    [select1 bi 0] underflows. *)
Example select0_beyond : exists bi, indexed (H := whole_file) sample_bits bi /\
  BitIndex.select0 bi 4 = Some (Some 6) /\ BitIndex.select0 bi 65 = None /\
  BitIndex.select1 bi 4 = Some None /\ BitIndex.select1 bi 0 = None.
Proof.
  eexists. split; [vm_compute; reflexivity|].
  vm_compute. repeat split.
Qed.
