(* ===== verification/AdjacencyLists.v ===== *)
(** * Adjacency lists (src/structure/adjacencylist.rs)

    A list of pairs of a left number from 1 on and a right number, stored as a
    log array of the right numbers and a bit index that marks the last one of
    each left number.  A left number without pairs has the single right number
    0. *)

From S2P Require Import Prelude.
From S2P Require Import Words.
From S2P Require Import Codec.
From S2P Require Import LogArrays.
From S2P Require Import BitArrays.
From S2P Require Import BitIndexes.
Open Scope N_scope.

Module AdjacencyList.

Record t : Type := mk {
  nums : LogArray.t;
  bits : BitIndex.t
}.

(** [debug_assertions] tells a debug build. *)
Definition from_parts (debug_assertions : bool) (nums : LogArray.t) (bits : BitIndex.t) : option t :=
  _ ← assert_ (negb debug_assertions || (LogArray.len nums =? BitIndex.len bits));
  Some (mk nums bits).

Definition parse (debug_assertions : bool)
    (nums_slice bits_slice bits_block_slice bits_sblock_slice : list N) : option t :=
  nums ← unwrap (LogArray.parse nums_slice);
  bit_array ← unwrap (BitArray.from_bits bits_slice);
  bits_block_array ← unwrap (LogArray.parse bits_block_slice);
  bits_sblock_array ← unwrap (LogArray.parse bits_sblock_slice);
  bits ← BitIndex.from_parts bit_array bits_block_array bits_sblock_array;
  from_parts debug_assertions nums bits.

Definition left_count (al : t) : option N :=
  if BitIndex.len (bits al) =? 0 then Some 0
  else BitIndex.rank1 (bits al) (BitIndex.len (bits al) - 1).

Definition right_count (al : t) : N := BitIndex.len (bits al).

Definition offset_for (al : t) (index : N) : option N :=
  if index =? 1 then Some 0
  else
    rank ← csub index 1;
    r ← BitIndex.select1 (bits al) rank;
    pos ← r;
    Some (pos + 1).

Definition pair_at_pos (al : t) (pos : N) : option (N * N) :=
  before ← (if pos =? 0 then Some 0 else BitIndex.rank1 (bits al) (pos - 1));
  right ← LogArray.entry (nums al) pos;
  Some (before + 1, right).

Definition left_at_pos (al : t) (pos : N) : option N :=
  if pos =? 0 then Some 1
  else before ← BitIndex.rank1 (bits al) (pos - 1); Some (before + 1).

Definition bit_at_pos (al : t) (pos : N) : option bool := BitIndex.get (bits al) pos.

Definition num_at_pos (al : t) (pos : N) : option N := LogArray.entry (nums al) pos.

Definition get (al : t) (index : N) : option LogArray.t :=
  _ ← assert_ (negb (index <? 1));
  count ← left_count al;
  _ ← assert_ (negb (count <? index));
  start ← offset_for al index;
  r ← BitIndex.select1 (bits al) index;
  end_ ← r;
  d ← csub end_ start;
  LogArray.slice (nums al) start (d + 1).

End AdjacencyList.

Module AdjacencyListIterator.

Record t : Type := mk {
  pos : N;
  left : N;
  al : AdjacencyList.t
}.

Definition iter (al : AdjacencyList.t) : t := mk 0 1 al.

(** The loop of [next]; [fuel] bounds the number of elements skipped. *)
Fixpoint next_loop (fuel : nat) (it : t) : option (option (N * N) * t) :=
  match fuel with
  | O => None
  | S fuel =>
      if BitIndex.len (AdjacencyList.bits (al it)) <=? pos it then Some (None, it)
      else
        bit ← BitIndex.get (AdjacencyList.bits (al it)) (pos it);
        num ← LogArray.entry (AdjacencyList.nums (al it)) (pos it);
        let result := (left it, num) in
        let it := mk (pos it + 1) (if bit : bool then left it + 1 else left it) (al it) in
        if num =? 0 then next_loop fuel it else Some (Some result, it)
  end.

Definition next (it : t) : option (option (N * N) * t) :=
  next_loop (S (N.to_nat (BitIndex.len (AdjacencyList.bits (al it))))) it.

(** Draining the iterator. *)
Fixpoint collect (fuel : nat) (it : t) : option (list (N * N)) :=
  match fuel with
  | O => None
  | S fuel =>
      '(r, it) ← next it;
      match r with
      | None => Some []
      | Some x => xs ← collect fuel it; Some (x :: xs)
      end
  end.

End AdjacencyListIterator.

Module AdjacencyBitCountStream.

(** The counts the stream yields over the bits it wraps. *)
Fixpoint run (count : N) (stream : list bool) : list N :=
  match stream with
  | [] => []
  | b :: stream => count :: run (if b then count + 1 else count) stream
  end.

End AdjacencyBitCountStream.

Definition adjacency_list_stream_pairs `{FramedRead} (bits_file nums_file : list N)
    : outcome io_error (list (N * N)) :=
  bits ← bitarray_stream_bits bits_file;
  nums ← logarray_stream_entries nums_file;
  Ok (filter (fun p : N * N => p.2 <> 0) (zip (AdjacencyBitCountStream.run 1 bits) nums)).

Module AdjacencyListBuilder.

Record t : Type := mk {
  bitarray : BitArrayFileBuilder.t;
  nums : LogArrayFileBuilder.t;
  last_left : N;
  last_right : N
}.

Definition new (width : N) : t :=
  mk (BitArrayFileBuilder.new []) (LogArrayFileBuilder.new [] width) 0 0.

Definition push (b : t) (left right : N) : outcome io_error t :=
  _ ← or_panic (assert_ (negb ((left <? last_left b) || ((left =? last_left b) && (right <=? last_right b)))));
  let skip := left - last_left b in
  '(bitarray, nums) ←
    (if (last_left b =? 0) && (skip =? 1) then Ok (bitarray b, nums b)
     else if skip =? 0 then
       bitarray ← BitArrayFileBuilder.push (bitarray b) false; Ok (bitarray, nums b)
     else
       let bitskip := if last_left b =? 0 then skip - 1 else skip in
       bitarray ← fold_outcome BitArrayFileBuilder.push (bitarray b) (replicate (N.to_nat bitskip) true);
       nums ← fold_outcome LogArrayFileBuilder.push (nums b) (replicate (N.to_nat (skip - 1)) 0);
       Ok (bitarray, nums));
  nums ← LogArrayFileBuilder.push nums right;
  Ok (mk bitarray nums left right).

(** A stream of pairs, each of which may be an error of the source. *)
Definition push_all (b : t) (stream : list (outcome io_error (N * N))) : outcome io_error t :=
  fold_outcome (fun b p => '(l, r) ← p; push b l r) b stream.

(** The files: bits, blocks, sblocks, nums. *)
Definition finalize `{FramedRead} (b : t) : outcome io_error (list N * list N * list N * list N) :=
  bitarray ← (if negb (LogArrayFileBuilder.count (nums b) =? 0)
              then BitArrayFileBuilder.push (bitarray b) true else Ok (bitarray b));
  let bitfile := BitArrayFileBuilder.finalize bitarray in
  let numsfile := LogArrayFileBuilder.finalize (nums b) in
  '(blocks, sblocks) ← build_bitindex bitfile;
  Ok (bitfile, blocks, sblocks, numsfile).

Definition count (b : t) : N := BitArrayFileBuilder.count (bitarray b).

End AdjacencyListBuilder.

(** ** What is stored

    The segment of a left number is the list of its right numbers, or [[0]]. *)

Definition pair_lt (x y : N * N) : Prop := x.1 < y.1 \/ (x.1 = y.1 /\ x.2 < y.2).

Definition rights (pairs : list (N * N)) (l : N) : list N :=
  snd <$> filter (fun p : N * N => p.1 = l) pairs.

Definition segment (pairs : list (N * N)) (l : N) : list N :=
  match rights pairs l with [] => [0] | rs => rs end.

Definition max_left (pairs : list (N * N)) : N := foldr (fun p m => N.max p.1 m) 0 pairs.

Definition segments (pairs : list (N * N)) : list (list N) :=
  segment pairs <$> seqN 1 (max_left pairs).

(** The pairs a builder accepts. *)
Definition adjacency_ok (width : N) (pairs : list (N * N)) : Prop :=
  width <= 64 /\ StronglySorted pair_lt pairs /\
  Forall (fun p => 1 <= p.1 /\ 1 <= p.2 < 2 ^ width) pairs /\
  lenN pairs + max_left pairs < 2 ^ 32.

Definition seg_bits (s : list N) : list bool := replicate (length s - 1) false ++ [true].
Definition bits_of (segs : list (list N)) : list bool := concat (seg_bits <$> segs).

(** [al] stores the segments. *)
Definition al_repr (al : AdjacencyList.t) (segs : list (list N)) : Prop :=
  Forall (fun s => s <> []) segs /\ lenN (concat segs) < 2 ^ 32 /\
  la_repr (AdjacencyList.nums al) (concat segs) /\ bi_repr (AdjacencyList.bits al) (bits_of segs).

(** [al] is read from the files to which [pairs] were written. *)
Definition adjacency_list `{FramedRead} (debug : bool) (w : N) (pairs : list (N * N)) (al : AdjacencyList.t) : Prop :=
  (b ← AdjacencyListBuilder.push_all (AdjacencyListBuilder.new w) (Ok <$> pairs);
   '(bits, blocks, sblocks, nums) ← AdjacencyListBuilder.finalize b;
   or_panic (AdjacencyList.parse debug nums bits blocks sblocks)) = Ok al.

(** The pairs of segments whose first one belongs to [left]. *)
Fixpoint pairs_from (left : N) (segs : list (list N)) : list (N * N) :=
  match segs with
  | [] => []
  | s :: segs => (pair left <$> filter (fun n => n <> 0) s) ++ pairs_from (left + 1) segs
  end.

(** Every stored number with its left number, the zeros included. *)
Definition flat (segs : list (list N)) : list (N * N) :=
  zip (AdjacencyBitCountStream.run 1 (bits_of segs)) (concat segs).
Abbreviation real := (fun p : N * N => p.2 <> 0).

(** ** The layout *)

Lemma rank_app_l a b n : n <= lenN a -> rank (bit_at (a ++ b)) n = rank (bit_at a) n.
Proof. intros. apply rank_ext. intros. apply bit_at_app_l. lia. Qed.

Lemma rank_app a b m : rank (bit_at (a ++ b)) (lenN a + m) = rank (bit_at a) (lenN a) + rank (bit_at b) m.
Proof.
  rewrite rank_add, rank_app_l by lia. f_equal. apply rank_ext. intros i _.
  rewrite bit_at_app_r by lia. f_equal. lia.
Qed.

Lemma bit_at_replicate n b i : i < N.of_nat n -> bit_at (replicate n b) i = b.
Proof. intros. apply bit_at_get. unfold nget. apply lookup_replicate. split; [done|lia]. Qed.

Lemma bits_of_app a b : bits_of (a ++ b) = bits_of a ++ bits_of b.
Proof. unfold bits_of. by rewrite fmap_app, concat_app. Qed.

Lemma bits_of_cons s segs : bits_of (s :: segs) = seg_bits s ++ bits_of segs.
Proof. done. Qed.

Lemma lenN_seg_bits s : s <> [] -> lenN (seg_bits s) = lenN s.
Proof.
  intros Hs. unfold seg_bits. rewrite lenN_app, lenN_replicate, lenN_cons, lenN_nil.
  destruct s; [done|]. unfold lenN. simpl. lia.
Qed.

Lemma seg_bits_at s j : j < lenN s -> bit_at (seg_bits s) j = (j + 1 =? lenN s).
Proof.
  intros Hj. unfold seg_bits. destruct (N.lt_ge_cases j (N.of_nat (length s - 1))) as [Hlt|Hge].
  - rewrite bit_at_app_l by (by rewrite lenN_replicate). rewrite bit_at_replicate by done.
    unfold lenN in *. symmetry. apply N.eqb_neq. lia.
  - rewrite bit_at_app_r by (by rewrite lenN_replicate). rewrite lenN_replicate.
    replace (j - N.of_nat (length s - 1)) with 0 by (unfold lenN in *; lia).
    unfold lenN in *. symmetry. apply N.eqb_eq. lia.
Qed.

Lemma rank_seg_bits s j : j < lenN s -> rank (bit_at (seg_bits s)) j = 0.
Proof.
  induction j as [|j IH] using N.peano_ind; intros Hj; [done|].
  rewrite <- N.add_1_r, rank_succ, IH, seg_bits_at by lia. ncmp. done.
Qed.

Lemma rank_seg_end s : s <> [] -> rank (bit_at (seg_bits s)) (lenN s) = 1.
Proof.
  intros Hs. assert (0 < lenN s) by (destruct s; [done|rewrite lenN_cons; lia]).
  replace (lenN s) with (lenN s - 1 + 1) by lia.
  rewrite rank_succ, rank_seg_bits, seg_bits_at by lia. ncmp. done.
Qed.

Abbreviation nonempty := (fun s : list N => s <> []).

Lemma lenN_bits_of segs : Forall nonempty segs -> lenN (bits_of segs) = lenN (concat segs).
Proof.
  induction 1 as [|s segs Hs _ IH]; [done|]. rewrite bits_of_cons.
  cbn [concat]. by rewrite !lenN_app, IH, lenN_seg_bits.
Qed.

Lemma rank_bits_of segs : Forall nonempty segs -> rank (bit_at (bits_of segs)) (lenN (concat segs)) = lenN segs.
Proof.
  induction 1 as [|s segs Hs _ IH]; [done|]. rewrite bits_of_cons.
  cbn [concat]. rewrite lenN_app, lenN_cons.
  pose proof (rank_app (seg_bits s) (bits_of segs) (lenN (concat segs))) as H.
  rewrite lenN_seg_bits, IH, rank_seg_end in H by done. done.
Qed.

Section position.
Context (pre post : list (list N)) (s : list N) (j : N).
Hypothesis Hpre : Forall (fun s => s <> []) pre.
Hypothesis Hj : j < lenN s.

Lemma seg_nonempty : s <> [].
Proof. intros ->. rewrite lenN_nil in Hj. lia. Qed.

Lemma position_bit : bit_at (bits_of (pre ++ s :: post)) (lenN (concat pre) + j) = (j + 1 =? lenN s).
Proof.
  pose proof seg_nonempty. rewrite bits_of_app, bits_of_cons.
  rewrite bit_at_app_r by (rewrite lenN_bits_of by done; lia). rewrite lenN_bits_of by done.
  replace (lenN (concat pre) + j - lenN (concat pre)) with j by lia.
  rewrite bit_at_app_l by (by rewrite lenN_seg_bits). by apply seg_bits_at.
Qed.

Lemma position_rank : rank (bit_at (bits_of (pre ++ s :: post))) (lenN (concat pre) + j) = lenN pre.
Proof.
  pose proof seg_nonempty. rewrite bits_of_app, bits_of_cons.
  rewrite <- (lenN_bits_of pre Hpre), rank_app, lenN_bits_of, rank_bits_of by done.
  rewrite rank_app_l by (rewrite lenN_seg_bits by done; lia). rewrite rank_seg_bits by done. lia.
Qed.

Lemma position_num : (concat (pre ++ s :: post)).[lenN (concat pre) + j] = s.[j].
Proof.
  rewrite concat_app. cbn [concat]. rewrite nget_app_r by lia.
  replace (lenN (concat pre) + j - lenN (concat pre)) with j by lia. by rewrite nget_app_l.
Qed.

Lemma position_end : lenN (concat pre) + j < lenN (concat (pre ++ s :: post)).
Proof. rewrite concat_app. cbn [concat]. rewrite !lenN_app. lia. Qed.
End position.

(** A segment and its place in the arrays. *)
(** ** Reading *)

Section reading.
Import AdjacencyList.
Context (al : t) (segs : list (list N)) (Hal : al_repr al segs).

Lemma al_len : BitIndex.len (bits al) = lenN (concat segs).
Proof. destruct Hal as (Hs & _ & _ & ((Hl & _) & _)). unfold BitIndex.len. rewrite Hl. by apply lenN_bits_of. Qed.

Lemma al_rank1 i : i < lenN (concat segs) ->
  BitIndex.rank1 (bits al) i = Some (rank (bit_at (bits_of segs)) (i + 1)).
Proof. destruct Hal as (Hs & _ & _ & Hb). intros. apply rank1_spec; [done|]. by rewrite lenN_bits_of. Qed.

Lemma al_left_count : left_count al = Some (lenN segs).
Proof.
  pose proof Hal as (Hs & _). unfold left_count. rewrite al_len.
  destruct (N.eqb_spec (lenN (concat segs)) 0) as [Hz|Hz].
  - destruct segs as [|s segs']; [done|]. apply Forall_cons in Hs as [Hs _]. exfalso. apply Hs.
    cbn [concat] in Hz. rewrite lenN_app in Hz. destruct s; [done|rewrite lenN_cons in Hz; lia].
  - rewrite al_rank1 by lia. replace (lenN (concat segs) - 1 + 1) with (lenN (concat segs)) by lia.
    by rewrite rank_bits_of.
Qed.

Lemma al_select pre s post : segs = pre ++ s :: post ->
  BitIndex.select1 (bits al) (lenN pre + 1) = Some (Some (lenN (concat pre) + lenN s - 1)).
Proof.
  intros E. pose proof Hal as (Hs & _ & _ & Hb). rewrite E in Hs.
  apply Forall_app in Hs as [Hpre Hpost]. apply Forall_cons in Hpost as [Hsne _].
  assert (Hl : 0 < lenN s) by (destruct s; [done|rewrite lenN_cons; lia]).
  pose proof (position_bit pre post s (lenN s - 1) Hpre ltac:(lia)) as Hbit.
  pose proof (position_rank pre post s (lenN s - 1) Hpre ltac:(lia)) as Hrank.
  pose proof (position_end pre post s (lenN s - 1) ltac:(lia)) as Hend. rewrite <- E in *.
  replace (lenN (concat pre) + (lenN s - 1)) with (lenN (concat pre) + lenN s - 1) in * by lia.
  destruct Hal as (Hs & _). rewrite <- (lenN_bits_of segs Hs) in Hend.
  destruct (select1_spec _ _ Hb ltac:(lia) (lenN pre + 1) ltac:(lia)) as (o & -> & Ho).
  f_equal. apply Ho. split; [done|]. split; [|lia]. rewrite Hbit. apply N.eqb_eq. lia.
Qed.

Lemma al_offset_for pre s post : segs = pre ++ s :: post ->
  offset_for al (lenN pre + 1) = Some (lenN (concat pre)).
Proof.
  intros E. unfold offset_for. destruct (N.eqb_spec (lenN pre + 1) 1) as [Hz|Hz].
  - destruct pre; [done|rewrite lenN_cons in Hz; lia].
  - mstep. destruct (exists_last (l := pre)) as (pre' & s' & ->); [by intros ->|].
    rewrite lenN_app, lenN_cons, lenN_nil in *.
    replace (lenN pre' + (1 + 0) + 1 - 1) with (lenN pre' + 1) by lia.
    rewrite (al_select pre' s' (s :: post)) by (by rewrite <- app_assoc in E). mcbn. f_equal.
    rewrite concat_app. cbn [concat]. rewrite app_nil_r, lenN_app.
    pose proof Hal as (Hs & _). rewrite E, !Forall_app, Forall_singleton in Hs.
    destruct Hs as [[_ Hs'] _]. destruct s'; [done|]. rewrite lenN_cons. lia.
Qed.

Lemma al_get pre s post : segs = pre ++ s :: post ->
  exists la, get al (lenN pre + 1) = Some la /\ la_repr la s.
Proof.
  intros E. unfold get. ncmp. cbn [negb]. mstep. rewrite al_left_count. mcbn.
  assert (lenN segs = lenN pre + 1 + lenN post) by (rewrite E, lenN_app, lenN_cons; lia).
  ncmp. cbn [negb]. mstep. rewrite (al_offset_for pre s post E), bind_Some_eq.
  rewrite (al_select pre s post E), !bind_Some_eq.
  pose proof Hal as (Hs & H32 & Hnums & _). rewrite E, Forall_app, Forall_cons in Hs.
  destruct Hs as (_ & Hs & _). assert (0 < lenN s) by (destruct s; [done|rewrite lenN_cons; lia]).
  rewrite csub_Some, bind_Some_eq by lia.
  replace (lenN (concat pre) + lenN s - 1 - lenN (concat pre) + 1) with (lenN s) by lia.
  assert (Hc : concat segs = concat pre ++ s ++ concat post) by (by rewrite E, concat_app).
  destruct (la_slice _ _ (lenN (concat pre)) (lenN s) Hnums) as (la & Hla & Hr); [|done|].
  { rewrite Hc, !lenN_app. lia. }
  exists la. split; [done|]. by rewrite Hc, dropN_app, takeN_app in Hr.
Qed.

Lemma al_get_panics i : i = 0 \/ lenN segs < i -> get al i = None.
Proof.
  unfold get. intros [->|Hi]; [done|]. ncmp. cbn [negb]. mstep. rewrite al_left_count. mcbn. by ncmp.
Qed.

Lemma al_pair_at_pos pre s post j x : segs = pre ++ s :: post -> s.[j] = Some x ->
  pair_at_pos al (lenN (concat pre) + j) = Some (lenN pre + 1, x) /\
  left_at_pos al (lenN (concat pre) + j) = Some (lenN pre + 1) /\
  bit_at_pos al (lenN (concat pre) + j) = Some (j + 1 =? lenN s) /\
  num_at_pos al (lenN (concat pre) + j) = Some x.
Proof.
  intros E Hx. pose proof (nget_Some_lt _ _ _ Hx) as Hj. pose proof Hal as (Hs & _ & Hnums & Hbi).
  pose proof Hs as Hs0. rewrite E, Forall_app in Hs. destruct Hs as [Hpre _].
  pose proof (position_rank pre post s j Hpre Hj) as Hrank. pose proof (position_bit pre post s j Hpre Hj) as Hbit.
  pose proof (position_num pre post s j) as Hnum. pose proof (position_end pre post s j Hj) as Hend.
  rewrite <- E in *. rewrite Hx in Hnum.
  set (p := lenN (concat pre) + j) in *.
  assert (Hbefore : (if p =? 0 then Some 0 else BitIndex.rank1 (bits al) (p - 1)) = Some (lenN pre)).
  { destruct (N.eqb_spec p 0) as [Hz|Hz]; [by rewrite <- Hrank, Hz|].
    rewrite al_rank1 by lia. rewrite <- Hrank. do 2 f_equal. lia. }
  assert (Hn : LogArray.entry (nums al) p = Some x) by (by rewrite (la_entry _ _ _ Hnums), Hnum).
  unfold pair_at_pos, left_at_pos, bit_at_pos, num_at_pos. rewrite Hbefore, bind_Some_eq, Hn.
  split; [done|]. split.
  - destruct (N.eqb_spec p 0); [|by rewrite Hbefore, bind_Some_eq]. by injection Hbefore as <-.
  - split; [|done]. unfold BitIndex.get. destruct Hbi as (Hba & _). rewrite (ba_get _ _ _ Hba).
    rewrite nget_bit_at; [by rewrite Hbit|]. by rewrite lenN_bits_of.
Qed.
End reading.

(** ** Iteration and streaming *)

Lemma length_run bs : forall c, length (AdjacencyBitCountStream.run c bs) = length bs.
Proof. induction bs as [|b bs IH]; intros c; simpl; [done|]. by rewrite IH. Qed.

Lemma run_app a b : forall c, AdjacencyBitCountStream.run c (a ++ b) =
  AdjacencyBitCountStream.run c a ++ AdjacencyBitCountStream.run (c + rank (bit_at a) (lenN a)) b.
Proof.
  induction a as [|x a IH]; intros c; simpl; [by rewrite N.add_0_r|]. rewrite IH.
  pose proof (rank_app [x] a (lenN a)) as H. change ([x] ++ a) with (x :: a) in H.
  rewrite lenN_cons. change (lenN [x]) with 1 in H. rewrite H.
  replace (rank (bit_at [x]) 1) with (N.b2n x) by (by destruct x).
  do 3 f_equal. destruct x; simpl; lia.
Qed.

Lemma run_get bs c i : i < lenN bs ->
  (AdjacencyBitCountStream.run c bs).[i] = Some (c + rank (bit_at bs) i).
Proof.
  intros Hi. destruct (nget_lt bs i Hi) as [b Hb]. apply nget_split in Hb as (pre & post & -> & <-).
  rewrite run_app. assert (Hl : lenN (AdjacencyBitCountStream.run c pre) = lenN pre)
    by (unfold lenN; by rewrite length_run).
  rewrite nget_app_r by lia. rewrite Hl, N.sub_diag. cbn [AdjacencyBitCountStream.run].
  rewrite nget_cons_0, rank_app_l by lia. done.
Qed.

Lemma run_seg s c : s <> [] -> AdjacencyBitCountStream.run c (seg_bits s) = replicate (length s) c.
Proof.
  intros Hs. unfold seg_bits. destruct s as [|x s]; [done|]. clear Hs.
  replace (length (x :: s) - 1)%nat with (length s) by (simpl; lia). cbn [length].
  induction (length s) as [|n IH]; [done|]. cbn [replicate app AdjacencyBitCountStream.run]. by rewrite IH.
Qed.

Lemma zip_replicate (s : list N) (c : N) : zip (replicate (length s) c) s = pair c <$> s.
Proof. induction s as [|x s IH]; [done|]. simpl. by rewrite IH. Qed.

Lemma filter_pair c (s : list N) : filter real (pair c <$> s) = pair c <$> filter (fun n => n <> 0) s.
Proof.
  induction s as [|x s IH]; [done|]. rewrite fmap_cons, !filter_cons. simpl.
  rewrite IH. by destruct (decide (x <> 0)).
Qed.

Lemma filter_flat_from segs : forall c, Forall nonempty segs ->
  filter real (zip (AdjacencyBitCountStream.run c (bits_of segs)) (concat segs)) = pairs_from c segs.
Proof.
  induction segs as [|s segs IH]; intros c Hs; [done|]. apply Forall_cons in Hs as [Hs Hsegs].
  rewrite bits_of_cons, run_app. cbn [concat pairs_from].
  rewrite lenN_seg_bits, rank_seg_end, run_seg by done.
  rewrite zip_with_app by (by rewrite length_replicate). by rewrite zip_replicate, filter_app, filter_pair, IH.
Qed.

Lemma flat_get segs i x : Forall nonempty segs -> (concat segs).[i] = Some x ->
  (flat segs).[i] = Some (1 + rank (bit_at (bits_of segs)) i, x).
Proof.
  intros Hs Hx. pose proof (nget_Some_lt _ _ _ Hx) as Hi. unfold flat, nget in *.
  apply lookup_zip_with_Some. eexists _, _. split; [done|]. split; [|done].
  apply run_get. by rewrite lenN_bits_of.
Qed.

Lemma lenN_flat segs : Forall nonempty segs -> lenN (flat segs) = lenN (concat segs).
Proof.
  intros Hs. pose proof (lenN_bits_of segs Hs) as H. unfold flat, lenN in *.
  rewrite length_zip_with, length_run. lia.
Qed.

Section iteration.
Import AdjacencyListIterator.
Context (a : AdjacencyList.t) (segs : list (list N)) (Hal : al_repr a segs).

Definition iter_inv (it : t) : Prop :=
  al it = a /\ pos it <= lenN (concat segs) /\ left it = 1 + rank (bit_at (bits_of segs)) (pos it).

Lemma pairs_loop_spec fuel : forall it, iter_inv it -> lenN (concat segs) - pos it < N.of_nat fuel ->
  exists it', iter_inv it' /\ pos it <= pos it' /\
    next_loop fuel it = Some (head (filter real (dropN (pos it) (flat segs))), it') /\
    (filter real (dropN (pos it) (flat segs)) <> [] -> pos it < pos it' /\
     filter real (dropN (pos it') (flat segs)) = tail (filter real (dropN (pos it) (flat segs)))).
Proof.
  pose proof Hal as (Hs & H32 & Hnums & Hba & _).
  induction fuel as [|fuel IH]; intros it (Ha & Hp & Hleft) Hf; [lia|]. cbn [next_loop].
  rewrite Ha, (al_len a segs Hal). destruct (N.leb_spec (lenN (concat segs)) (pos it)) as [Hge|Hlt].
  - exists it. assert (Hd : dropN (pos it) (flat segs) = []).
    { unfold dropN. apply drop_ge. pose proof (lenN_flat segs Hs). unfold lenN in *. lia. }
    rewrite Hd. split; [done|]. split; [done|]. split; [done|]. done.
  - destruct (nget_lt (concat segs) (pos it) Hlt) as [x Hx].
    pose proof (flat_get segs _ _ Hs Hx) as Hflat. rewrite <- Hleft in Hflat.
    assert (Hd : dropN (pos it) (flat segs) = (left it, x) :: dropN (pos it + 1) (flat segs)).
    { by apply dropN_cons. }
    unfold BitIndex.get. rewrite (ba_get _ _ _ Hba), nget_bit_at by (by rewrite lenN_bits_of). mcbn.
    rewrite (la_entry _ _ _ Hnums), Hx. mcbn.
    set (it1 := mk _ _ _).
    assert (Hinv1 : iter_inv it1).
    { unfold iter_inv, it1. cbn [al pos left]. split; [done|]. split; [lia|].
      rewrite rank_succ, Hleft. destruct (bit_at (bits_of segs) (pos it)); simpl; lia. }
    rewrite Hd, filter_cons. cbn [snd]. destruct (N.eqb_spec x 0) as [->|Hx0].
    + rewrite decide_False by (intros H; by apply H).
      destruct (IH it1 Hinv1) as (it' & Hinv' & Hp' & Hn & Hrest); [unfold it1; cbn [pos]; lia|].
      exists it'. unfold it1 in Hp', Hn, Hrest. cbn [pos] in Hp', Hn, Hrest.
      split; [done|]. split; [lia|]. split; [done|]. intros Hne. destruct (Hrest Hne). split; [lia|done].
    + rewrite decide_True by done. exists it1. split; [done|]. unfold it1. cbn [pos].
      split; [lia|]. split; [done|]. intros _. split; [lia|done].
Qed.

Lemma next_spec it : iter_inv it -> exists it', iter_inv it' /\
  next it = Some (head (filter real (dropN (pos it) (flat segs))), it') /\
  (filter real (dropN (pos it) (flat segs)) <> [] ->
   filter real (dropN (pos it') (flat segs)) = tail (filter real (dropN (pos it) (flat segs)))).
Proof.
  intros Hinv. pose proof Hinv as (Ha & Hp & _). unfold next. rewrite Ha, (al_len a segs Hal).
  destruct (pairs_loop_spec (S (N.to_nat (lenN (concat segs)))) it Hinv) as (it' & ? & ? & ? & Hrest); [lia|].
  exists it'. split; [done|]. split; [done|]. intros Hne. by destruct (Hrest Hne).
Qed.

Lemma collect_loop n : forall it, iter_inv it -> length (filter real (dropN (pos it) (flat segs))) = n ->
  collect (S n) it = Some (filter real (dropN (pos it) (flat segs))).
Proof.
  assert (Hstep : forall fuel it, collect (S fuel) it = '(r, it) ← next it;
    match r with None => Some [] | Some x => xs ← collect fuel it; Some (x :: xs) end) by done.
  induction n as [|n IH]; intros it Hinv Hn; rewrite Hstep;
    destruct (next_spec it Hinv) as (it' & Hinv' & -> & Hrest); mcbn;
    destruct (filter real (dropN (pos it) (flat segs))) as [|x xs]; try done.
  specialize (Hrest ltac:(done)). cbn [head tail length] in *.
  rewrite IH; [by rewrite Hrest|done|]. rewrite Hrest. lia.
Qed.

Lemma collect_iter_pairs :
  collect (S (length (pairs_from 1 segs))) (iter a) = Some (pairs_from 1 segs).
Proof.
  pose proof Hal as (Hs & _). rewrite <- (filter_flat_from segs 1 Hs).
  change (zip _ _) with (dropN (pos (iter a)) (flat segs)). apply collect_loop; [|done].
  unfold iter_inv, iter. cbn [al pos left]. split; [done|]. split; [lia|]. done.
Qed.
End iteration.

(** ** The segments of a list of pairs *)

Lemma rights_snoc pairs l r k :
  rights (pairs ++ [(l, r)]) k = rights pairs k ++ (if decide (l = k) then [r] else []).
Proof.
  unfold rights. rewrite filter_app, fmap_app. f_equal. rewrite filter_cons. simpl.
  by destruct (decide (l = k)).
Qed.

Lemma max_left_snoc pairs l r : max_left (pairs ++ [(l, r)]) = N.max (max_left pairs) l.
Proof.
  unfold max_left. rewrite foldr_app. simpl. induction pairs as [|p pairs IH]; simpl; [lia|].
  rewrite IH. lia.
Qed.

Lemma max_left_le pairs p : p ∈ pairs -> p.1 <= max_left pairs.
Proof.
  induction pairs as [|q pairs IH]; [by intros ?%elem_of_nil|].
  intros [->|H]%elem_of_cons; simpl; [lia|]. specialize (IH H). lia.
Qed.

Lemma rights_beyond pairs k : max_left pairs < k -> rights pairs k = [].
Proof.
  intros Hk. unfold rights. rewrite filter_none; [done|]. apply Forall_forall. intros p Hp Heq.
  apply max_left_le in Hp. lia.
Qed.

Lemma rights_max pairs : pairs <> [] -> rights pairs (max_left pairs) <> [].
Proof.
  intros Hne. assert (Hex : exists p, p ∈ pairs /\ p.1 = max_left pairs).
  { induction pairs as [|q pairs IH]; [done|]. simpl. destruct (N.max_spec q.1 (max_left pairs)) as [[H ->]|[H ->]].
    - destruct pairs as [|q' pairs]; [simpl in H; lia|]. destruct IH as (p & Hp & Heq); [done|].
      exists p. split; [by apply elem_of_cons; right|done].
    - exists q. split; [by apply elem_of_cons; left|done]. }
  destruct Hex as ([l r] & Hp & Heq). simpl in Heq. unfold rights. intros H%fmap_nil_inv.
  assert (Hin : (l, r) ∈ filter (fun p : N * N => p.1 = max_left pairs) pairs) by (by apply list_elem_of_filter).
  rewrite H in Hin. by apply elem_of_nil in Hin.
Qed.

Lemma segment_snoc_other pairs l r k : k <> l -> segment (pairs ++ [(l, r)]) k = segment pairs k.
Proof. intros. unfold segment. rewrite rights_snoc, decide_False by done. by rewrite app_nil_r. Qed.

Lemma segment_snoc_same pairs l r : segment (pairs ++ [(l, r)]) l = rights pairs l ++ [r].
Proof. unfold segment. rewrite rights_snoc, decide_True by done. by destruct (rights pairs l). Qed.

Lemma segments_ext pairs l r a n : (forall k, a <= k < a + n -> k <> l) ->
  segment (pairs ++ [(l, r)]) <$> seqN a n = segment pairs <$> seqN a n.
Proof.
  intros H. apply list_fmap_ext. intros i k Hk. apply segment_snoc_other. apply H.
  apply list_elem_of_lookup_2, elem_nget in Hk as [j Hj]. pose proof (nget_Some_lt _ _ _ Hj) as Hl.
  rewrite lenN_seqN in Hl. rewrite nget_seqN in Hj by done. injection Hj as <-. lia.
Qed.

Lemma segments_same pairs l r : pairs <> [] -> 0 < l -> l = max_left pairs ->
  segments pairs = (segment pairs <$> seqN 1 (l - 1)) ++ [rights pairs l] /\
  segments (pairs ++ [(l, r)]) = (segment pairs <$> seqN 1 (l - 1)) ++ [rights pairs l ++ [r]].
Proof.
  intros Hne Hl0 Hl. unfold segments. rewrite max_left_snoc, <- Hl, N.max_id.
  replace (seqN 1 l) with (seqN 1 (l - 1) ++ [l]).
  2:{ replace l with (l - 1 + 1) at 3 by lia. rewrite seqN_snoc. do 2 f_equal. lia. }
  rewrite !fmap_app. cbn [fmap list_fmap].
  assert (Hseg : segment pairs l = rights pairs l).
  { unfold segment. pose proof (rights_max pairs Hne) as H. rewrite <- Hl in H. by destruct (rights pairs l). }
  rewrite Hseg, segment_snoc_same, segments_ext by lia. done.
Qed.

Lemma segments_later pairs l r : max_left pairs < l ->
  segments (pairs ++ [(l, r)]) =
    segments pairs ++ replicate (N.to_nat (l - max_left pairs - 1)) [0] ++ [[r]].
Proof.
  intros Hl. unfold segments. rewrite max_left_snoc, N.max_r by lia. set (m := max_left pairs) in *.
  replace (seqN 1 l) with (seqN 1 m ++ seqN (1 + m) (l - m - 1) ++ [l]).
  2:{ replace [l] with [1 + m + (l - m - 1)] by (f_equal; lia).
      rewrite <- seqN_snoc, <- seqN_app. f_equal. lia. }
  rewrite !fmap_app. rewrite !segments_ext by lia. f_equal. f_equal.
  - unfold seqN. rewrite <- list_fmap_compose. transitivity ((fun _ => [0]) <$> seq 0 (N.to_nat (l - m - 1))).
    + apply list_fmap_ext. intros i k _. simpl. unfold segment. by rewrite rights_beyond by lia.
    + generalize 0%nat. induction (N.to_nat (l - m - 1)) as [|n IH]; intros k; [done|]. simpl. f_equal. apply IH.
  - cbn [fmap list_fmap]. rewrite segment_snoc_same, rights_beyond by done. done.
Qed.

Lemma segments_nonempty pairs : Forall nonempty (segments pairs).
Proof.
  apply Forall_fmap. apply Forall_true. intros k. unfold compose, segment. by destruct (rights pairs k).
Qed.

Lemma lenN_segments pairs : lenN (segments pairs) = max_left pairs.
Proof. unfold segments. by rewrite lenN_map, lenN_seqN. Qed.

Lemma segments_get pairs l : 1 <= l <= max_left pairs -> (segments pairs).[l - 1] = Some (segment pairs l).
Proof. intros. unfold segments. rewrite nget_map, nget_seqN by lia. simpl. do 2 f_equal. lia. Qed.

Lemma concat_replicate_0 n : concat (replicate n [0]) = replicate n 0.
Proof. induction n as [|n IH]; simpl; [done|]. by rewrite IH. Qed.

Lemma bits_of_replicate n (x : N) : bits_of (replicate n [x]) = replicate n true.
Proof. induction n as [|n IH]; [done|]. cbn [replicate]. rewrite bits_of_cons, IH. done. Qed.

Lemma pairs_from_app a b : forall c, pairs_from c (a ++ b) = pairs_from c a ++ pairs_from (c + lenN a) b.
Proof.
  induction a as [|s a IH]; intros c; simpl; [by rewrite N.add_0_r|].
  rewrite IH, <- app_assoc. do 3 f_equal. rewrite lenN_cons. lia.
Qed.

Lemma pairs_from_zeros n : forall c, pairs_from c (replicate n [0]) = [].
Proof. induction n as [|n IH]; intros c; [done|]. simpl. apply IH. Qed.

Definition last_right_of (pairs : list (N * N)) : N :=
  match last pairs with Some p => p.2 | None => 0 end.

(** What the order says of the last pair. *)
Lemma adjacency_snoc w pairs l r : adjacency_ok w (pairs ++ [(l, r)]) ->
  adjacency_ok w pairs /\ 1 <= l /\ 1 <= r < 2 ^ w /\ max_left pairs <= l /\
  lenN pairs + l + 1 < 2 ^ 32 /\
  (l = max_left pairs -> pairs <> [] /\ last_right_of pairs < r).
Proof.
  intros (Hw & [Hs Hlt]%StronglySorted_snoc & [Hr Hp]%Forall_app & Hn).
  apply Forall_inv in Hp as [Hl0 Hr0]. rewrite max_left_snoc, lenN_app, lenN_cons, lenN_nil in Hn.
  simpl in Hl0, Hr0. assert (Hmax : max_left pairs <= l).
  { clear -Hlt. induction Hlt as [|p pairs Hp _ IH]; simpl; [lia|]. destruct Hp as [?|[? _]]; simpl in *; lia. }
  split; [split; [done|split; [done|split; [done|lia]]]|]. split; [done|]. split; [done|].
  split; [done|]. split; [lia|]. intros Heq. destruct pairs as [|[l' r'] pairs _] using rev_ind.
  { simpl in Heq. lia. }
  split; [by destruct pairs|]. unfold last_right_of. rewrite last_snoc.
  apply Forall_app in Hlt as [_ Hlt%Forall_inv]. rewrite max_left_snoc in *. simpl in *.
  apply StronglySorted_snoc in Hs as [_ Hs].
  assert (max_left pairs <= l').
  { clear -Hs. induction Hs as [|p pairs Hp _ IH]; simpl; [lia|]. destruct Hp as [?|[? _]]; simpl in *; lia. }
  destruct Hlt as [?|[_ ?]]; simpl in *; lia.
Qed.

Lemma adjacency_width w pairs l r : adjacency_ok w (pairs ++ [(l, r)]) -> 0 < w.
Proof.
  intros (_ & _ & [_ H%Forall_inv]%Forall_app & _). cbn in H. destruct (N.eq_dec w 0) as [->|]; [|lia].
  change (2 ^ 0) with 1 in H. lia.
Qed.

Lemma lenN_concat_segments w pairs : adjacency_ok w pairs ->
  lenN (concat (segments pairs)) <= lenN pairs + max_left pairs.
Proof.
  induction pairs as [|[l r] pairs IH] using rev_ind; intros Hok; [done|].
  destruct (adjacency_snoc w pairs l r Hok) as (Hok' & Hl0 & _ & Hle & _ & Heq). specialize (IH Hok').
  rewrite max_left_snoc, lenN_app, lenN_cons, lenN_nil. destruct (N.eq_dec l (max_left pairs)) as [E|Hne].
  - destruct (Heq E) as [Hne _]. destruct (segments_same pairs l r Hne ltac:(lia) E) as [Hs Hs'].
    rewrite Hs in IH. rewrite Hs'. rewrite !concat_app, !lenN_app in *. cbn [concat] in *.
    rewrite !app_nil_r, ?lenN_app, ?lenN_cons, ?lenN_nil in *. lia.
  - rewrite segments_later by lia. rewrite !concat_app, concat_replicate_0, !lenN_app, lenN_replicate.
    cbn [concat]. rewrite app_nil_r, !lenN_cons, !lenN_nil. lia.
Qed.

(** The segments hold exactly the pairs. *)
Lemma pairs_from_segments w pairs : adjacency_ok w pairs -> pairs_from 1 (segments pairs) = pairs.
Proof.
  induction pairs as [|[l r] pairs IH] using rev_ind; intros Hok; [done|].
  destruct (adjacency_snoc w pairs l r Hok) as (Hok' & Hl0 & [Hr0 _] & Hle & _ & Heq). specialize (IH Hok').
  assert (Hr : filter (fun n => n <> 0) [r] = [r]) by (rewrite filter_cons_True by lia; done).
  destruct (N.eq_dec l (max_left pairs)) as [E|Hne].
  - destruct (Heq E) as [Hne _]. destruct (segments_same pairs l r Hne ltac:(lia) E) as [Hs Hs'].
    rewrite Hs in IH. rewrite Hs', pairs_from_app in *. cbn [pairs_from] in *. rewrite !app_nil_r in *.
    rewrite filter_app, fmap_app, app_assoc, Hr, IH. do 2 f_equal. rewrite lenN_map, lenN_seqN. cbn. f_equal. f_equal. lia.
  - rewrite segments_later by lia. rewrite !pairs_from_app, IH, pairs_from_zeros.
    cbn [pairs_from]. rewrite Hr. do 2 f_equal. cbn. rewrite lenN_segments, lenN_replicate. do 2 f_equal. lia.
Qed.

(** ** Building *)

Lemma push_bits_list bits b old : bit_builder_repr b old -> lenN old + lenN bits < 2 ^ 64 ->
  exists b', fold_outcome BitArrayFileBuilder.push b bits = Ok b' /\ bit_builder_repr b' (old ++ bits).
Proof. intros Hb Hn. rewrite <- fold_outcome_Ok. by apply bit_builder_push_all. Qed.

Lemma bits_of_last init s :
  bits_of (init ++ [s]) = (bits_of init ++ replicate (length s - 1) false) ++ [true].
Proof. rewrite bits_of_app. unfold bits_of at 2. cbn [fmap list_fmap concat]. by rewrite app_nil_r, <- app_assoc. Qed.

Lemma removelast_bits_of init s r : s <> [] ->
  removelast (bits_of (init ++ [s])) ++ [false] = removelast (bits_of (init ++ [s ++ [r]])).
Proof.
  intros Hs. rewrite !bits_of_last, !removelast_last, <- app_assoc. f_equal.
  destruct s as [|x s]; [done|]. rewrite length_app. change (length [r]) with 1%nat. cbn [length].
  replace (S (length s) - 1)%nat with (length s) by lia.
  replace (S (length s) + 1 - 1)%nat with (length s + 1)%nat by lia. by rewrite replicate_add.
Qed.

Lemma removelast_bits_later segs n r : segs <> [] ->
  removelast (bits_of segs) ++ replicate (S n) true =
    removelast (bits_of (segs ++ replicate n [0] ++ [[r]])).
Proof.
  intros Hne. destruct (exists_last Hne) as (init & s & ->).
  rewrite (app_assoc _ (replicate n [0])), !bits_of_last, !removelast_last.
  cbn [length Nat.sub replicate]. by rewrite app_nil_r, bits_of_app, bits_of_replicate, bits_of_last, <- !app_assoc.
Qed.

Section building.
Import AdjacencyListBuilder.

Definition adjacency_builder_repr (w : N) (b : t) (pairs : list (N * N)) : Prop :=
  bit_builder_repr (bitarray b) (removelast (bits_of (segments pairs))) /\
  builder_repr (nums b) (concat (segments pairs)) /\
  LogArrayFileBuilder.width (nums b) = w /\
  last_left b = max_left pairs /\ last_right b = last_right_of pairs.

Lemma adjacency_builder_new w : w <= 64 -> adjacency_builder_repr w (new w) [].
Proof.
  intros Hw. split; [apply bit_builder_new|]. split; [by apply builder_new|]. done.
Qed.

Lemma length_removelast_bits pairs : lenN (removelast (bits_of (segments pairs))) <= lenN (concat (segments pairs)).
Proof.
  rewrite <- lenN_bits_of by apply segments_nonempty.
  destruct (bits_of (segments pairs)) as [|x l] using rev_ind; [done|].
  rewrite removelast_last, lenN_app. lia.
Qed.

(** The bits and the numbers that [push] writes before the right number. *)
Lemma adjacency_fill w b pairs l r : adjacency_builder_repr w b pairs ->
  adjacency_ok w (pairs ++ [(l, r)]) -> l <> max_left pairs ->
  let skip := l - last_left b in
  exists ba nu,
    bit_builder_repr ba (removelast (bits_of (segments (pairs ++ [(l, r)])))) /\
    builder_repr nu (concat (segments pairs) ++ replicate (N.to_nat (skip - 1)) 0) /\
    LogArrayFileBuilder.width nu = w /\
    fold_outcome BitArrayFileBuilder.push (bitarray b)
      (replicate (N.to_nat (if last_left b =? 0 then skip - 1 else skip)) true) = Ok ba /\
    fold_outcome LogArrayFileBuilder.push (nums b) (replicate (N.to_nat (skip - 1)) 0) = Ok nu.
Proof.
  intros (Hba & Hnu & Hw & Hll & _) Hok Hne skip. pose proof (adjacency_width w pairs l r Hok) as Hw0.
  destruct (adjacency_snoc w pairs l r Hok) as (Hok' & Hl0 & _ & Hle & Hn & _).
  pose proof (lenN_concat_segments w pairs Hok') as Hlen. pose proof (length_removelast_bits pairs) as Hrl.
  assert (Hskip : skip = l - max_left pairs) by (unfold skip; by rewrite Hll). clearbody skip.
  destruct (push_bits_list (replicate (N.to_nat (if last_left b =? 0 then skip - 1 else skip)) true)
              (bitarray b) _ Hba) as (ba & Hpb & Hba').
  { rewrite lenN_replicate. destruct (last_left b =? 0); lia. }
  destruct (builder_push_vec (replicate (N.to_nat (skip - 1)) 0) _ _ Hnu) as (nu & Hpn & Hnu' & Hw').
  { right. by rewrite Hw. }
  { apply Forall_replicate. rewrite Hw. apply N.lt_le_trans with (2 ^ 0); [done|]. apply N.pow_le_mono_r; lia. }
  { rewrite lenN_replicate. lia. }
  exists ba, nu. split; [|split; [done|split; [congruence|done]]].
  rewrite segments_later by lia. replace (l - max_left pairs - 1) with (skip - 1) by lia.
  destruct (N.eqb_spec (last_left b) 0) as [Hz|Hz].
  - assert (segments pairs = []) as Hs.
    { unfold segments. replace (max_left pairs) with 0 by lia. done. }
    rewrite Hs in *. cbn [app] in *. rewrite bits_of_last, removelast_last, bits_of_replicate.
    cbn [length Nat.sub replicate]. by rewrite app_nil_r.
  - replace (N.to_nat skip) with (S (N.to_nat (skip - 1))) in Hba' by lia.
    rewrite <- removelast_bits_later; [done|].
    intros E. pose proof (lenN_segments pairs) as Hls. rewrite E, lenN_nil in Hls. lia.
Qed.

Lemma adjacency_push w b pairs l r : adjacency_builder_repr w b pairs ->
  adjacency_ok w (pairs ++ [(l, r)]) ->
  exists b', push b l r = Ok b' /\ adjacency_builder_repr w b' (pairs ++ [(l, r)]).
Proof.
  intros Hb Hok. pose proof Hb as (Hba & Hnu & Hw & Hll & Hlr).
  destruct (adjacency_snoc w pairs l r Hok) as (Hok' & Hl0 & [Hr0 Hr] & Hle & Hn & Heq).
  pose proof (adjacency_width w pairs l r Hok) as Hw0.
  pose proof (lenN_concat_segments w pairs Hok') as Hlen. pose proof (length_removelast_bits pairs) as Hrl.
  assert (Hlast : last_right_of (pairs ++ [(l, r)]) = r) by (unfold last_right_of; by rewrite last_snoc).
  assert (Hmax : l = max_left (pairs ++ [(l, r)])) by (rewrite max_left_snoc; lia).
  assert (Horder : negb ((l <? last_left b) || ((l =? last_left b) && (r <=? last_right b))) = true).
  { rewrite Hll, Hlr. destruct (N.ltb_spec l (max_left pairs)); [lia|]. simpl.
    destruct (N.eqb_spec l (max_left pairs)) as [E|]; [|done]. destruct (Heq E). by ncmp. }
  unfold push. rewrite Horder. cbn [assert_ or_panic]. mcbn. cbv zeta.
  destruct (N.eq_dec l (max_left pairs)) as [E|Hne].
  - destruct (Heq E) as [Hne Hrr]. destruct (segments_same pairs l r Hne ltac:(lia) E) as [Hs Hs'].
    assert (Hrn : rights pairs l <> []) by (rewrite E; by apply rights_max).
    rewrite Hll. replace (max_left pairs =? 0) with false by (symmetry; apply N.eqb_neq; lia).
    replace (l - max_left pairs =? 0) with true by (symmetry; apply N.eqb_eq; lia). cbn [andb].
    destruct (bit_builder_push (bitarray b) _ false Hba) as (ba & -> & Hba'); [lia|]. mcbn.
    destruct (builder_push (nums b) _ r Hnu) as (nu & -> & Hnu' & Hw'); [by rewrite Hw|by rewrite Hw|lia|]. mcbn.
    eexists. split; [done|]. unfold adjacency_builder_repr. cbn [bitarray nums last_left last_right].
    rewrite Hs', Hlast, <- Hmax. rewrite Hs in Hba', Hnu'. rewrite (removelast_bits_of _ _ r Hrn) in Hba'.
    split; [done|]. split; [|split; [congruence|done]].
    rewrite !concat_app in *. cbn [concat] in *. rewrite !app_nil_r in *. by rewrite app_assoc.
  - destruct (adjacency_fill w b pairs l r Hb Hok Hne) as (ba & nu & Hba' & Hnu' & Hw' & Hpb & Hpn).
    assert (Hstep : (if (last_left b =? 0) && (l - last_left b =? 1) then Ok (bitarray b, nums b)
      else if l - last_left b =? 0 then
        ba ← BitArrayFileBuilder.push (bitarray b) false; Ok (ba, nums b)
      else
        ba ← fold_outcome BitArrayFileBuilder.push (bitarray b)
               (replicate (N.to_nat (if last_left b =? 0 then l - last_left b - 1 else l - last_left b)) true);
        nu ← fold_outcome LogArrayFileBuilder.push (nums b) (replicate (N.to_nat (l - last_left b - 1)) 0);
        Ok (ba, nu)) = Ok (E := io_error) (ba, nu)).
    { destruct (N.eqb_spec (last_left b) 0) as [Hz|Hz]; cbn [andb].
      - destruct (N.eqb_spec (l - last_left b) 1) as [H1|H1].
        + rewrite H1 in Hpb, Hpn. change (N.to_nat (1 - 1)) with 0%nat in *.
          cbn [replicate fold_outcome] in Hpb, Hpn. congruence.
        + replace (l - last_left b =? 0) with false by (symmetry; apply N.eqb_neq; lia).
          rewrite Hpb, bind_Ok_eq, Hpn. done.
      - replace (l - last_left b =? 0) with false by (symmetry; apply N.eqb_neq; lia).
        rewrite Hpb, bind_Ok_eq, Hpn. done. }
    rewrite Hstep. mcbn. destruct (builder_push nu _ r Hnu') as (nu' & -> & Hnu'' & Hw''); [by rewrite Hw'|by rewrite Hw'| |].
    { rewrite lenN_app, lenN_replicate. lia. }
    mcbn. eexists. split; [done|]. unfold adjacency_builder_repr. cbn [bitarray nums last_left last_right].
    rewrite Hlast, <- Hmax. split; [done|]. split; [|split; [congruence|done]].
    rewrite segments_later by lia. rewrite !concat_app, concat_replicate_0. cbn [concat].
    rewrite app_nil_r, app_assoc. by rewrite Hll in Hnu''.
Qed.

Lemma adjacency_push_list w pairs' : forall b pairs, adjacency_builder_repr w b pairs ->
  adjacency_ok w (pairs ++ pairs') ->
  exists b', push_all b (Ok <$> pairs') = Ok b' /\ adjacency_builder_repr w b' (pairs ++ pairs').
Proof.
  induction pairs' as [|[l r] pairs' IH]; intros b pairs Hb Hok.
  - exists b. by rewrite app_nil_r.
  - rewrite cons_middle, app_assoc in Hok. destruct (adjacency_push w b pairs l r Hb) as (b1 & Hp & Hb1).
    { clear -Hok. induction pairs' as [|p' pairs' IH] using rev_ind; [by rewrite app_nil_r in Hok|].
      apply IH. rewrite app_assoc in Hok. destruct p' as [l' r'].
      by apply (adjacency_snoc w _ l' r') in Hok as [Hok _]. }
    destruct (IH b1 _ Hb1 Hok) as (b2 & Hp2 & Hb2). exists b2. rewrite <- app_assoc in Hb2.
    split; [|done]. unfold push_all in *. cbn [fmap list_fmap fold_outcome].
    by rewrite !bind_Ok_eq, Hp, bind_Ok_eq.
Qed.
End building.

Section finalize.
Context `{FramedRead}.
Import AdjacencyListBuilder.

Lemma adjacency_finalize w b pairs debug : adjacency_builder_repr w b pairs -> adjacency_ok w pairs ->
  exists bits blocks sblocks nums al,
    finalize b = Ok (bits, blocks, sblocks, nums) /\
    AdjacencyList.parse debug nums bits blocks sblocks = Some al /\
    al_repr al (segments pairs) /\
    bitarray_stream_bits bits = Ok (bits_of (segments pairs)) /\
    logarray_stream_entries nums = Ok (concat (segments pairs)) /\
    adjacency_list_stream_pairs bits nums = Ok pairs /\
    LogArray.parse nums = Ok (AdjacencyList.nums al) /\ LogArray.width (AdjacencyList.nums al) = w.
Proof.
  intros (Hba & Hnu & Hw & _) Hok. pose proof (lenN_concat_segments w pairs Hok) as Hlen.
  pose proof (segments_nonempty pairs) as Hne. pose proof Hok as (_ & _ & _ & Hn).
  pose proof (lenN_bits_of _ Hne) as Hbl.
  assert (Hbits : exists ba, (if negb (LogArrayFileBuilder.count (nums b) =? 0)
      then BitArrayFileBuilder.push (bitarray b) true else Ok (bitarray b)) = Ok ba /\
      bit_builder_repr ba (bits_of (segments pairs))).
  { pose proof Hnu as (_ & _ & _ & _ & -> & _). destruct (N.eqb_spec (lenN (concat (segments pairs))) 0) as [Hz|Hz].
    - exists (bitarray b). split; [done|]. rewrite Hz in Hbl.
      destruct (bits_of (segments pairs)); [done|rewrite lenN_cons in Hbl; lia].
    - destruct (bit_builder_push (bitarray b) _ true Hba) as (ba & Hp & Hba').
      { pose proof (length_removelast_bits pairs). lia. }
      exists ba. split; [done|]. destruct (exists_last (l := segments pairs)) as (init & s & E).
      { intros E. by rewrite E in Hz. }
      rewrite E in *. rewrite bits_of_last, removelast_last in *. done. }
  destruct Hbits as (ba & Hpb & Hba').
  destruct (build_bitindex_spec ba _ Hba') as (bl & sl & bi & Hbuild & Hmaps & Hbi); [lia|].
  destruct (la_parse _ _ Hnu) as (nu & Hpn & Hnu' & Hwn).
  eexists _, bl, sl, _, (AdjacencyList.mk nu bi). split.
  { unfold finalize. by rewrite Hpb, bind_Ok_eq, Hbuild, bind_Ok_eq. }
  pose proof (stream_bits_repr _ _ Hba') as Hsb. pose proof (logarray_stream_repr _ _ Hnu) as Hsn.
  split; [|split; [|split; [done|split; [done|split; [|split; [done|cbn; congruence]]]]]].
  - unfold AdjacencyList.parse. rewrite Hpn. cbn [unwrap]. rewrite bind_Some_eq.
    unfold BitIndex.from_maps in Hmaps. destruct (BitArray.from_bits _) as [x| |]; [|done|done].
    cbn [unwrap] in *. rewrite bind_Some_eq in Hmaps. rewrite bind_Some_eq. destruct (LogArray.parse bl) as [y| |]; [|done|done].
    cbn [unwrap] in *. rewrite bind_Some_eq in Hmaps. rewrite bind_Some_eq. destruct (LogArray.parse sl) as [z| |]; [|done|done].
    cbn [unwrap] in *. rewrite bind_Some_eq in Hmaps. rewrite bind_Some_eq. rewrite Hmaps, bind_Some_eq.
    unfold AdjacencyList.from_parts. pose proof Hnu' as (Hnl & _). destruct Hbi as ((Hil & _) & _).
    unfold BitIndex.len. rewrite Hil, Hnl, Hbl, N.eqb_refl, orb_true_r. done.
  - split; [done|]. split; [lia|done].
  - unfold adjacency_list_stream_pairs. rewrite Hsb, bind_Ok_eq, Hsn, bind_Ok_eq. f_equal.
    rewrite filter_flat_from by done. by apply (pairs_from_segments w).
Qed.

Lemma adjacency_build w pairs debug : adjacency_ok w pairs ->
  exists b bits blocks sblocks nums al,
    push_all (new w) (Ok <$> pairs) = Ok b /\
    finalize b = Ok (bits, blocks, sblocks, nums) /\
    AdjacencyList.parse debug nums bits blocks sblocks = Some al /\
    al_repr al (segments pairs) /\
    adjacency_list_stream_pairs bits nums = Ok pairs.
Proof.
  intros Hok. pose proof Hok as (Hw & _).
  destruct (adjacency_push_list w pairs _ [] (adjacency_builder_new w Hw) Hok) as (b & Hp & Hb).
  destruct (adjacency_finalize w b pairs debug Hb Hok) as (bits & bl & sl & nu & al & Hf & Hparse & Hal & _ & _ & Hs & _).
  by exists b, bits, bl, sl, nu, al.
Qed.

Lemma adjacency_list_repr debug w pairs al : adjacency_ok w pairs -> adjacency_list debug w pairs al ->
  al_repr al (segments pairs).
Proof.
  intros Hok Hal. destruct (adjacency_build w pairs debug Hok) as (b & bits & bl & sl & nu & al' & Hp & Hf & Hparse & Hr & _).
  unfold adjacency_list in Hal. rewrite Hp, bind_Ok_eq, Hf, bind_Ok_eq, Hparse in Hal. by injection Hal as <-.
Qed.
End finalize.

(** ** Properties *)

Definition sample_pairs : list (N * N) := [(1, 5); (1, 9); (4, 2); (5, 1); (5, 3); (5, 8)].

Lemma sample_pairs_ok : adjacency_ok 6 sample_pairs.
Proof.
  split; [done|]. split; [repeat (apply SSorted_cons || apply Forall_cons_2 || apply SSorted_nil || apply Forall_nil_2); unfold pair_lt; simpl; lia|]. split; [|done].
  repeat constructor; simpl; lia.
Qed.



(** [get] of a left number is the array of its right numbers, or of a
    single 0 when it has none; it panics outside the left numbers, which are
    those up to the largest one written. *)
Theorem adjacency_get `{FramedRead} debug w pairs al l :
  adjacency_ok w pairs -> adjacency_list debug w pairs al ->
  AdjacencyList.left_count al = Some (max_left pairs) /\
  if (1 <=? l) && (l <=? max_left pairs) then
    exists la, AdjacencyList.get al l = Some la /\
      LogArray.len la = lenN (segment pairs l) /\
      forall i, LogArray.entry la i = (segment pairs l).[i]
  else AdjacencyList.get al l = None.
Proof.
  intros Hok Hal. pose proof (adjacency_list_repr _ _ _ _ Hok Hal) as Hr.
  split; [by rewrite (al_left_count al _ Hr), lenN_segments|].
  destruct (N.leb_spec 1 l) as [Hl|Hl], (N.leb_spec l (max_left pairs)) as [Hm|Hm]; cbn [andb].
  2-4: apply (al_get_panics al _ Hr); rewrite lenN_segments; lia.
  pose proof (segments_get pairs l ltac:(lia)) as Hs. apply nget_split in Hs as (pre & post & E & Hpre).
  destruct (al_get al _ Hr pre _ post E) as (la & Hla & Hlr). replace (lenN pre + 1) with l in Hla by lia.
  exists la. split; [done|]. split; [by destruct Hlr|]. intros i. by apply la_entry.
Qed.

Lemma adjacency_get_witness : exists al, adjacency_list (H := whole_file) true 6 sample_pairs al /\
  AdjacencyList.left_count al = Some 5 /\
  exists la, AdjacencyList.get al 5 = Some la /\ LogArray.len la = 3 /\
    forall i, LogArray.entry la i = [1; 3; 8].[i].
Proof.
  eexists. split; [vm_compute; reflexivity|].
  apply (adjacency_get (H := whole_file) true 6 sample_pairs _ 5); [apply sample_pairs_ok|].
  vm_compute; reflexivity.
Defined.

(** The position [j] of the segment of the left number [l] is the position
    [offset_for l + j] of the adjacency list, which all the positional
    queries agree on. *)
Theorem adjacency_positions `{FramedRead} debug w pairs al l j x :
  adjacency_ok w pairs -> adjacency_list debug w pairs al ->
  1 <= l <= max_left pairs -> (segment pairs l).[j] = Some x ->
  exists offset, AdjacencyList.offset_for al l = Some offset /\
    AdjacencyList.pair_at_pos al (offset + j) = Some (l, x) /\
    AdjacencyList.left_at_pos al (offset + j) = Some l /\
    AdjacencyList.num_at_pos al (offset + j) = Some x /\
    AdjacencyList.bit_at_pos al (offset + j) = Some (j + 1 =? lenN (segment pairs l)).
Proof.
  intros Hok Hal Hl Hx. pose proof (adjacency_list_repr _ _ _ _ Hok Hal) as Hr.
  pose proof (segments_get pairs l Hl) as Hs. apply nget_split in Hs as (pre & post & E & Hpre).
  destruct (al_pair_at_pos al _ Hr pre _ post j x E Hx) as (H1 & H2 & H3 & H4).
  exists (lenN (concat pre)). pose proof (al_offset_for al _ Hr pre _ post E) as Ho.
  by replace (lenN pre + 1) with l in * by lia.
Qed.

Lemma adjacency_positions_witness : exists al, adjacency_list (H := whole_file) true 6 sample_pairs al /\
  exists offset, AdjacencyList.offset_for al 5 = Some offset /\
    AdjacencyList.pair_at_pos al (offset + 1) = Some (5, 3) /\
    AdjacencyList.left_at_pos al (offset + 1) = Some 5 /\
    AdjacencyList.num_at_pos al (offset + 1) = Some 3 /\
    AdjacencyList.bit_at_pos al (offset + 1) = Some (1 + 1 =? lenN (segment sample_pairs 5)).
Proof.
  eexists. split; [vm_compute; reflexivity|].
  apply (adjacency_positions (H := whole_file) true 6 sample_pairs _ 5 1 3);
    [apply sample_pairs_ok| |done|reflexivity].
  vm_compute; reflexivity.
Defined.

(** A pair that does not come after the last one is refused by a panic. *)
Theorem adjacency_push_unordered w pairs l r :
  adjacency_ok w pairs -> pairs <> [] -> Exists (fun p => ~ pair_lt p (l, r)) pairs ->
  AdjacencyListBuilder.push_all (AdjacencyListBuilder.new w) (Ok <$> (pairs ++ [(l, r)])) = Panic.
Proof.
  intros Hok Hne Hex. pose proof Hok as (Hw & _).
  destruct (adjacency_push_list w pairs _ [] (adjacency_builder_new w Hw) Hok) as (b & Hp & Hb). cbn [app] in Hb.
  unfold AdjacencyListBuilder.push_all in *. rewrite fmap_app, fold_outcome_app, Hp, bind_Ok_eq.
  cbn [fmap list_fmap fold_outcome]. rewrite bind_Ok_eq. unfold AdjacencyListBuilder.push.
  destruct Hb as (_ & _ & _ & -> & ->).
  assert (Hc : negb ((l <? max_left pairs) || ((l =? max_left pairs) && (r <=? last_right_of pairs))) = false).
  { destruct pairs as [|[l' r'] pairs _] using rev_ind; [done|]. unfold last_right_of. rewrite last_snoc.
    destruct (adjacency_snoc w pairs l' r' Hok) as (_ & _ & _ & Hle & _). rewrite max_left_snoc, N.max_r by done.
    destruct Hok as (_ & [_ Hs]%StronglySorted_snoc & _).
    assert (Hn : ~ pair_lt (l', r') (l, r)).
    { intros Hlt. apply Exists_exists in Hex as (p & [Hp'|Hp'%list_elem_of_singleton]%elem_of_app & Hnp); [|by subst].
      eapply Forall_forall in Hs; [|done]. apply Hnp. destruct p, Hs as [?|[? ?]], Hlt as [?|[? ?]];
        unfold pair_lt; simpl in *; lia. }
    unfold pair_lt in Hn. simpl in Hn |- *. case_cmp; simpl; try done; lia. }
  by rewrite Hc.
Qed.

Lemma adjacency_push_unordered_witness :
  AdjacencyListBuilder.push_all (AdjacencyListBuilder.new 6) (Ok <$> (sample_pairs ++ [(5, 3)])) = Panic.
Proof.
  apply (adjacency_push_unordered 6 sample_pairs 5 3); [apply sample_pairs_ok|done|].
  do 4 apply Exists_cons_tl. apply Exists_cons_hd. unfold pair_lt. simpl. lia.
Defined.
