(* ===== verification/WaveletTrees.v ===== *)
(** * Wavelet trees (src/structure/wavelettree.rs)

    A sequence of numbers of a given width is stored as one bit array of
    [width] layers, so that the positions of a number can be looked up with
    rank and select.  Layer [i] holds bit [width - i - 1] of every number,
    grouped by the [i] bits above it. *)

From S2P Require Import Prelude.
From S2P Require Import Words.
From S2P Require Import Codec.
From S2P Require Import LogArrays.
From S2P Require Import BitArrays.
From S2P Require Import BitIndexes.
Open Scope N_scope.

(** [2_u64.pow(n)]. *)
Definition pow2_u64 (n : N) : option N := if n <? 64 then Some (2 ^ n) else None.

Module WaveletTree.

Record t : Type := mk {
  bits : BitIndex.t;
  num_layers : N
}.

Definition from_parts (bits : BitIndex.t) (num_layers : N) : option t :=
  _ ← assert_ (negb (negb (num_layers =? 0) && negb (BitIndex.len bits mod num_layers =? 0)));
  Some (mk bits num_layers).

Definition len (wt : t) : N :=
  if num_layers wt =? 0 then 0 else BitIndex.len (bits wt) / num_layers wt.

(** The loop of [decode_one] from layer [i] on, [n] layers being left. *)
Fixpoint decode_loop (n : nat) (wt : t) (i alphabet_start alphabet_end range_start range_end offset : N)
    : option (N * N) :=
  match n with
  | O => Some (alphabet_start, alphabet_end)
  | S n =>
      let index := i * len wt + range_start + offset in
      _ ← assert_ (negb (BitIndex.len (bits wt) <=? index));
      bit ← BitIndex.get (bits wt) index;
      let range_start_index := i * len wt + range_start in
      let range_end_index := i * len wt + range_end in
      if bit : bool then
        let alphabet_start := (alphabet_start + alphabet_end) / 2 in
        r ← BitIndex.rank1_from_range (bits wt) range_start_index (index + 1);
        offset ← csub r 1;
        zeros_in_range ← BitIndex.rank0_from_range (bits wt) range_start_index range_end_index;
        decode_loop n wt (i + 1) alphabet_start alphabet_end (range_start + zeros_in_range) range_end offset
      else
        let alphabet_end := (alphabet_start + alphabet_end) / 2 in
        r ← BitIndex.rank0_from_range (bits wt) range_start_index (index + 1);
        offset ← csub r 1;
        ones_in_range ← BitIndex.rank1_from_range (bits wt) range_start_index range_end_index;
        range_end ← csub range_end ones_in_range;
        decode_loop n wt (i + 1) alphabet_start alphabet_end range_start range_end offset
  end.

Definition decode_one (wt : t) (index : N) : option N :=
  alphabet_end ← pow2_u64 (num_layers wt);
  '(alphabet_start, alphabet_end) ←
    decode_loop (N.to_nat (num_layers wt)) wt 0 0 alphabet_end 0 (len wt) index;
  last ← csub alphabet_end 1;
  _ ← assert_ (alphabet_start =? last);
  Some alphabet_start.

(** [decode], drained. *)
Definition decode (wt : t) : option (list N) := mapM (decode_one wt) (seqN 0 (len wt)).

End WaveletTree.

Module WaveletLookup.

Record t : Type := mk {
  entry_ : N;
  tree : WaveletTree.t;
  slices : list (bool * N * N)
}.

Definition len (l : t) : option N :=
  '(b, start, end_) ← last (slices l);
  if b : bool then BitIndex.rank1_from_range (WaveletTree.bits (tree l)) start end_
  else BitIndex.rank0_from_range (WaveletTree.bits (tree l)) start end_.

(** The loop of [entry] over the slices from the last one up. *)
Fixpoint entry_loop (bits : BitIndex.t) (slices : list (bool * N * N)) (result : N) : option N :=
  match slices with
  | [] => Some result
  | (b, start_index, end_index) :: slices =>
      r ← (if b : bool then BitIndex.select1_from_range bits result start_index end_index
           else BitIndex.select0_from_range bits result start_index end_index);
      pos ← r;
      d ← csub pos start_index;
      entry_loop bits slices (d + 1)
  end.

Definition entry (l : t) (index : N) : option N :=
  n ← len l;
  _ ← assert_ (negb (n <=? index));
  result ← entry_loop (WaveletTree.bits (tree l)) (rev (slices l)) (index + 1);
  csub result 1.

(** [iter], drained. *)
Definition iter (l : t) : option (list N) := n ← len l; mapM (entry l) (seqN 0 n).

End WaveletLookup.

(** The loop of [lookup] from layer [i] on, [n] layers being left: the outer
    [option] is a panic, the inner one the result. *)
Fixpoint lookup_loop (n : nat) (wt : WaveletTree.t)
    (entry i alphabet_start alphabet_end start_index end_index : N) (slices : list (bool * N * N))
    : option (option (list (bool * N * N))) :=
  match n with
  | O => Some (Some slices)
  | S n =>
      let width := WaveletTree.len wt in
      let full_start_index := i * width + start_index in
      let full_end_index := i * width + end_index in
      let b := (alphabet_start + alphabet_end) / 2 <=? entry in
      let slices := slices ++ [(b, full_start_index, full_end_index)] in
      e ← csub (WaveletTree.num_layers wt) i;
      e ← csub e 1;
      p ← pow2_u64 e;
      '(alphabet_start, alphabet_end, start_index, end_index) ←
        (if b then
           z ← BitIndex.rank0_from_range (WaveletTree.bits wt) full_start_index full_end_index;
           Some (alphabet_start + p, alphabet_end, start_index + z, end_index)
         else
           a ← csub alphabet_end p;
           o ← BitIndex.rank1_from_range (WaveletTree.bits wt) full_start_index full_end_index;
           e ← csub end_index o;
           Some (alphabet_start, a, start_index, e));
      if start_index =? end_index then Some None
      else lookup_loop n wt entry (i + 1) alphabet_start alphabet_end start_index end_index slices
  end.

Definition lookup (wt : WaveletTree.t) (entry : N) : option (option WaveletLookup.t) :=
  if WaveletTree.num_layers wt =? 0 then Some None
  else
    alphabet_end ← pow2_u64 (WaveletTree.num_layers wt);
    if alphabet_end <=? entry then Some None
    else
      r ← lookup_loop (N.to_nat (WaveletTree.num_layers wt)) wt entry 0 0 alphabet_end 0 (WaveletTree.len wt) [];
      Some (option_map (fun slices => WaveletLookup.mk entry wt slices) r).

Definition lookup_one (wt : WaveletTree.t) (entry : N) : option (option N) :=
  r ← lookup wt entry;
  match r with
  | None => Some None
  | Some l => e ← WaveletLookup.entry l 0; Some (Some e)
  end.

(** ** Building *)

Module FragmentBuilder.

Record t : Type := mk {
  fragment_start : N;
  fragment_half : N;
  fragment_end : N;
  bits : list bool
}.

Definition new (fragment_start fragment_end : N) : t :=
  mk fragment_start ((fragment_start + fragment_end) / 2) fragment_end [].

Definition push (f : t) (num : N) : t :=
  if (num <? fragment_start f) || (fragment_end f <=? num) then f
  else mk (fragment_start f) (fragment_half f) (fragment_end f) (bits f ++ [fragment_half f <=? num]).

End FragmentBuilder.

(** [size_of::<FragmentBuilder>()] on 64-bit machines: three numbers and a
    vector. *)
Definition FRAGMENT_SIZE : N := 48.

(** [Vec::with_capacity] panics when the vector would have more than
    [isize::MAX] bytes. *)
Definition with_capacity (size len : N) : option () := assert_ (size * len <? 2 ^ 63).

(** Widths up to 57 pass; the memory for the wide ones is another matter. *)
Definition create_fragments (width : N) : option (list FragmentBuilder.t) :=
  upper ← pow2_u64 width;
  len ← csub upper 1;
  _ ← with_capacity FRAGMENT_SIZE len;
  Some (concat ((fun i =>
    let increment := N.shiftr upper i in
    (fun j => FragmentBuilder.new (j * increment) ((j + 1) * increment)) <$> seqN 0 (2 ^ i)) <$> seqN 0 width)).

(** The loop of [push_to_fragments]: [i] levels are left. *)
Fixpoint push_levels (i : nat) (num num_it : N) (fragments : list FragmentBuilder.t)
    : option (list FragmentBuilder.t) :=
  match i with
  | O => Some fragments
  | S i =>
      let num_it := N.shiftr num_it 1 in
      let index := num_it + 2 ^ N.of_nat i - 1 in
      f ← fragments.[index];
      push_levels i num num_it (<[N.to_nat index := FragmentBuilder.push f num]> fragments)
  end.

Definition push_to_fragments (num width : N) (fragments : list FragmentBuilder.t)
    : option (list FragmentBuilder.t) :=
  push_levels (N.to_nat width) num num fragments.

Fixpoint push_source (source : list N) (width : N) (fragments : list FragmentBuilder.t)
    : option (list FragmentBuilder.t) :=
  match source with
  | [] => Some fragments
  | num :: source => fragments ← push_to_fragments num width fragments; push_source source width fragments
  end.

Section build.
Context `{FramedRead}.

(** The files of the bits, the blocks and the superblocks. *)
Definition build_wavelet_tree_from_iter (width : N) (source : list N)
    : outcome io_error (list N * list N * list N) :=
  fragments ← or_panic (create_fragments width);
  fragments ← or_panic (push_source source width fragments);
  bits ← BitArrayFileBuilder.push_all (BitArrayFileBuilder.new [])
           (Ok <$> concat (FragmentBuilder.bits <$> fragments));
  let bits := BitArrayFileBuilder.finalize bits in
  '(blocks, sblocks) ← build_bitindex bits;
  Ok (bits, blocks, sblocks).

Definition build_wavelet_tree_from_logarray (source : list N)
    : outcome io_error (list N * list N * list N) :=
  logarray ← map_err logarray_error_to_io (LogArray.parse source);
  entries ← or_panic (mapM (LogArray.entry logarray) (seqN 0 (LogArray.len logarray)));
  build_wavelet_tree_from_iter (LogArray.width logarray) entries.
End build.

(** ** What is stored *)

(** The elements whose top [i] of [W] bits are [j]. *)
Definition node (W : N) (l : list N) (i j : N) : list N := filter (fun x => x / 2 ^ (W - i) = j) l.
(** The number of elements of a layer before that group. *)
Definition below (W : N) (l : list N) (i j : N) : N := lenN (filter (fun x => x / 2 ^ (W - i) < j) l).
Definition fragment_bits (W : N) (l : list N) (i j : N) : list bool :=
  (fun x => N.testbit x (W - i - 1)) <$> node W l i j.
Definition layer_bits (W : N) (l : list N) (i : N) : list bool :=
  concat (fragment_bits W l i <$> seqN 0 (2 ^ i)).
Definition wavelet_bits (W : N) (l : list N) : list bool := concat (layer_bits W l <$> seqN 0 W).

Definition positions (e : N) (l : list N) : list N := filter (fun p => l.[p] = Some e) (seqN 0 (lenN l)).

(** The numbers of bits equal to [c] before a position. *)
Definition crank (c : bool) (bits : list bool) (m : N) : N := rank (fun k => eqb (bit_at bits k) c) m.

(** [wt] stores [xs]. *)
Definition wt_repr (wt : WaveletTree.t) (xs : list N) : Prop :=
  let W := WaveletTree.num_layers wt in
  0 < W < 64 /\ Forall (fun x => x < 2 ^ W) xs /\
  bi_repr (WaveletTree.bits wt) (wavelet_bits W xs).

(** [wt] is read from the files that [xs] was written to. *)
Definition wavelet_tree `{FramedRead} (width : N) (xs : list N) (wt : WaveletTree.t) : Prop :=
  ('(bits, blocks, sblocks) ← build_wavelet_tree_from_iter width xs;
   or_panic (bits ← BitIndex.from_maps bits blocks sblocks; WaveletTree.from_parts bits width)) = Ok wt.

(** ** Counting in a list *)

Lemma filter_ext_in {A} (P Q : A -> Prop) `{forall x, Decision (P x)} `{forall x, Decision (Q x)} (l : list A) :
  (forall x, x ∈ l -> P x <-> Q x) -> filter P l = filter Q l.
Proof.
  induction l as [|x l IH]; intros HPQ; [done|]. rewrite !filter_cons.
  assert (Hl : filter P l = filter Q l) by (apply IH; intros y Hy; apply HPQ; by apply elem_of_cons; right).
  pose proof (HPQ x ltac:(by apply elem_of_cons; left)) as Hx.
  destruct (decide (P x)), (decide (Q x)); [by rewrite Hl|tauto|tauto|done].
Qed.

Lemma count_split {A} (P Q R : A -> Prop) `{forall x, Decision (P x)} `{forall x, Decision (Q x)}
    `{forall x, Decision (R x)} (l : list A) :
  (forall x, R x <-> P x \/ Q x) -> (forall x, P x -> ~ Q x) ->
  lenN (filter R l) = lenN (filter P l) + lenN (filter Q l).
Proof.
  intros HR HPQ. induction l as [|x l IH]; [done|]. rewrite !filter_cons.
  specialize (HR x). specialize (HPQ x).
  destruct (decide (R x)), (decide (P x)), (decide (Q x)); rewrite ?lenN_cons; try tauto; lia.
Qed.

Lemma lenN_filter_le {A} (P : A -> Prop) `{forall x, Decision (P x)} (l : list A) : lenN (filter P l) <= lenN l.
Proof. unfold lenN. pose proof (length_filter P l). lia. Qed.

Section below.
Context (W : N) (l : list N).

Lemma below_0 i : below W l i 0 = 0.
Proof. unfold below. rewrite filter_none; [done|]. apply Forall_true. intros x. apply N.nlt_0_r. Qed.

Lemma below_succ i j : below W l i (j + 1) = below W l i j + lenN (node W l i j).
Proof. apply count_split; intros x; lia. Qed.

Lemma below_all i : Forall (fun x => x < 2 ^ W) l -> i <= W -> below W l i (2 ^ i) = lenN l.
Proof.
  intros Hl Hi. unfold below. rewrite filter_all; [done|]. eapply Forall_impl; [exact Hl|].
  intros x Hx. simpl. apply N.Div0.div_lt_upper_bound. rewrite <- N.pow_add_r.
  by replace (W - i + i) with W by lia.
Qed.

(** A number in a node is in the child its next bit tells. *)
Lemma child_iff i j c x : i < W ->
  x / 2 ^ (W - (i + 1)) = 2 * j + N.b2n c <-> x / 2 ^ (W - i) = j /\ N.testbit x (W - i - 1) = c.
Proof.
  intros Hi. replace (W - i - 1) with (W - (i + 1)) by lia. set (k := W - (i + 1)).
  replace (W - i) with (k + 1) by (unfold k; lia). rewrite N.pow_add_r, N.pow_1_r.
  rewrite <- N.Div0.div_div. rewrite N.testbit_eqb. set (y := x / 2 ^ k). clearbody y. clear.
  destruct (N.eqb_spec (y mod 2) 1), c; simpl; split; intros; try split; try done; try dlia.
Qed.

Lemma below_child i j : i < W -> below W l (i + 1) (2 * j) = below W l i j.
Proof.
  intros Hi. unfold below. f_equal. apply filter_ext_in. intros x _.
  set (k := W - (i + 1)). replace (W - i) with (k + 1) by (unfold k; lia).
  rewrite N.pow_add_r, N.pow_1_r, <- N.Div0.div_div. set (y := x / 2 ^ k). clearbody y. clear. dlia.
Qed.

Lemma node_child i j c : i < W ->
  filter (fun x => N.testbit x (W - i - 1) = c) (node W l i j) = node W l (i + 1) (2 * j + N.b2n c).
Proof.
  intros Hi. unfold node. rewrite list_filter_filter. apply filter_ext_in. intros x _.
  rewrite child_iff by done. tauto.
Qed.

Lemma below_mid i j : i < W ->
  below W l (i + 1) (2 * j + 1) = below W l i j + lenN (node W l (i + 1) (2 * j)).
Proof. intros. by rewrite below_succ, below_child. Qed.

Lemma node_split i j : i < W ->
  lenN (node W l i j) = lenN (node W l (i + 1) (2 * j)) + lenN (node W l (i + 1) (2 * j + 1)).
Proof.
  intros Hi. apply count_split; intros x.
  - rewrite <- (N.add_0_r (2 * j)) at 1. change 0 with (N.b2n false). change 1 with (N.b2n true) at 3.
    rewrite !child_iff by done. destruct (N.testbit x (W - i - 1)); tauto || (split; [tauto|]; intros [[? ?]|[? ?]]; done).
  - lia.
Qed.
End below.

(** ** The place of a fragment *)

Lemma nget_concat_seqN {A} (F : N -> list A) n i k : i < n -> k < lenN (F i) ->
  (concat (F <$> seqN 0 n)).[lenN (concat (F <$> seqN 0 i)) + k] = (F i).[k].
Proof.
  intros Hi Hk. replace n with (i + (n - i)) by lia. rewrite seqN_app, fmap_app, concat_app.
  rewrite nget_app_r by lia. rewrite (seqN_cons (0 + i)) by lia. cbn [fmap list_fmap concat].
  replace (lenN (concat (F <$> seqN 0 i)) + k - lenN (concat (F <$> seqN 0 i))) with k by lia.
  rewrite nget_app_l by done. done.
Qed.

Lemma lenN_concat_const {A} (F : N -> list A) m n : (forall i, i < n -> lenN (F i) = m) ->
  lenN (concat (F <$> seqN 0 n)) = n * m.
Proof.
  induction n as [|n IH] using N.peano_ind; intros H; [done|]. rewrite <- N.add_1_r, seqN_snoc, fmap_app, concat_app.
  rewrite lenN_app, IH by (intros; apply H; lia). cbn [fmap list_fmap concat]. rewrite app_nil_r.
  rewrite N.add_0_l, H by lia. lia.
Qed.

Section place.
Context (W : N) (xs : list N) (Hxs : Forall (fun x => x < 2 ^ W) xs).

Lemma lenN_fragment i j : lenN (fragment_bits W xs i j) = lenN (node W xs i j).
Proof. apply lenN_map. Qed.

Lemma lenN_layer_prefix i j : lenN (concat (fragment_bits W xs i <$> seqN 0 j)) = below W xs i j.
Proof.
  induction j as [|j IH] using N.peano_ind; [by rewrite below_0|].
  rewrite <- N.add_1_r, seqN_snoc, fmap_app, concat_app, lenN_app, IH, below_succ. f_equal.
  cbn [fmap list_fmap concat]. by rewrite app_nil_r, N.add_0_l, lenN_fragment.
Qed.

Lemma lenN_layer i : i <= W -> lenN (layer_bits W xs i) = lenN xs.
Proof. intros. unfold layer_bits. rewrite lenN_layer_prefix. by apply below_all. Qed.

Lemma lenN_wavelet_prefix i : i <= W -> lenN (concat (layer_bits W xs <$> seqN 0 i)) = i * lenN xs.
Proof. intros. apply lenN_concat_const. intros. apply lenN_layer. lia. Qed.

Lemma below_node_le i j : i <= W -> j < 2 ^ i -> below W xs i j + lenN (node W xs i j) <= lenN xs.
Proof.
  intros Hi Hj. rewrite <- below_succ, <- (below_all W xs i Hxs Hi). unfold below.
  assert (Hmono : forall l, lenN (filter (fun x => x / 2 ^ (W - i) < j + 1) l) <=
                     lenN (filter (fun x => x / 2 ^ (W - i) < 2 ^ i) l)).
  { intros l. induction l as [|x l IH]; [done|]. rewrite !filter_cons.
    destruct (decide (x / 2 ^ (W - i) < j + 1)), (decide (x / 2 ^ (W - i) < 2 ^ i)); rewrite ?lenN_cons; lia. }
  apply Hmono.
Qed.

Lemma wavelet_bit i j k : i < W -> j < 2 ^ i -> k < lenN (node W xs i j) ->
  bit_at (wavelet_bits W xs) (i * lenN xs + below W xs i j + k) = bit_at (fragment_bits W xs i j) k.
Proof.
  intros Hi Hj Hk. unfold bit_at. f_equal. pose proof (below_node_le i j ltac:(lia) Hj).
  rewrite <- (lenN_wavelet_prefix i), <- N.add_assoc by lia. unfold wavelet_bits.
  rewrite (nget_concat_seqN _ W i) by (rewrite ?lenN_layer; lia).
  unfold layer_bits. rewrite <- (lenN_layer_prefix i j). apply nget_concat_seqN; [done|].
  by rewrite lenN_fragment.
Qed.
End place.

(** ** Ranks inside a fragment *)

Lemma takeN_snoc {A} (l : list A) m x : l.[m] = Some x -> takeN (m + 1) l = takeN m l ++ [x].
Proof.
  intros Hx. unfold takeN, nget in *. replace (N.to_nat (m + 1)) with (S (N.to_nat m)) by lia.
  by apply take_S_r.
Qed.

Lemma takeN_all {A} (l : list A) : takeN (lenN l) l = l.
Proof. unfold takeN, lenN. rewrite Nat2N.id. apply firstn_all. Qed.

Lemma crank_map c (g : N -> bool) (l : list N) m : m <= lenN l ->
  crank c (g <$> l) m = lenN (filter (fun x => g x = c) (takeN m l)).
Proof.
  induction m as [|m IH] using N.peano_ind; intros Hm; [done|]. rewrite <- N.add_1_r in *.
  destruct (nget_lt l m) as [x Hx]; [lia|]. rewrite (takeN_snoc l m x Hx), filter_app, lenN_app.
  unfold crank in *. rewrite rank_succ, IH by lia. f_equal.
  rewrite (bit_at_get _ _ (g x)) by (by rewrite nget_map, Hx). rewrite filter_cons.
  destruct (g x), c; simpl; done.
Qed.

Lemma takeN_node W l i j p :
  takeN (lenN (node W (takeN p l) i j)) (node W l i j) = node W (takeN p l) i j.
Proof.
  rewrite <- (takeN_dropN p l) at 2. unfold node. rewrite filter_app. apply takeN_app.
Qed.

Lemma node_prefix_le W l i j p : lenN (node W (takeN p l) i j) <= lenN (node W l i j).
Proof. rewrite <- takeN_node, lenN_takeN. lia. Qed.

Lemma node_prefix_get W l p x i : l.[p] = Some x ->
  (node W l i (x / 2 ^ (W - i))).[lenN (node W (takeN p l) i (x / 2 ^ (W - i)))] = Some x.
Proof.
  intros Hx. rewrite <- (takeN_dropN p l) at 1. rewrite (dropN_cons _ _ _ Hx). unfold node at 1.
  rewrite filter_app, filter_cons_True by done. rewrite nget_app_r by (unfold node; lia).
  unfold node. by rewrite N.sub_diag.
Qed.

Lemma level_of W x i : x < 2 ^ W -> i <= W -> x / 2 ^ (W - i) < 2 ^ i.
Proof.
  intros Hx Hi. apply N.Div0.div_lt_upper_bound. rewrite <- N.pow_add_r. by replace (W - i + i) with W by lia.
Qed.

Lemma child_of W x i : i < W -> x / 2 ^ (W - (i + 1)) = 2 * (x / 2 ^ (W - i)) + N.b2n (N.testbit x (W - i - 1)).
Proof. intros. by apply (child_iff W i). Qed.

Section levels.
Context (W : N) (xs : list N) (Hxs : Forall (fun x => x < 2 ^ W) xs).
Let n := lenN xs.
Let B := wavelet_bits W xs.

Lemma level_rank c i j p : i < W -> j < 2 ^ i ->
  crank c B (i * n + below W xs i j + lenN (node W (takeN p xs) i j)) =
    crank c B (i * n + below W xs i j) + lenN (node W (takeN p xs) (i + 1) (2 * j + N.b2n c)).
Proof.
  intros Hi Hj. unfold crank at 1. rewrite rank_add. f_equal.
  pose proof (node_prefix_le W xs i j p) as Hle.
  rewrite (rank_ext _ (fun k => eqb (bit_at (fragment_bits W xs i j) k) c)).
  2:{ intros k Hk. f_equal. apply wavelet_bit; [done|done|done|lia]. }
  change (rank _ _) with (crank c (fragment_bits W xs i j) (lenN (node W (takeN p xs) i j))).
  unfold fragment_bits. rewrite crank_map by done. by rewrite takeN_node, node_child.
Qed.

Lemma level_rank_all c i j : i < W -> j < 2 ^ i ->
  crank c B (i * n + below W xs i (j + 1)) =
    crank c B (i * n + below W xs i j) + lenN (node W xs (i + 1) (2 * j + N.b2n c)).
Proof.
  intros Hi Hj. pose proof (level_rank c i j n Hi Hj) as H. unfold n in H at 2 4. rewrite takeN_all in H.
  by rewrite below_succ, N.add_assoc.
Qed.

Lemma level_bit p x i : xs.[p] = Some x -> i < W ->
  let j := x / 2 ^ (W - i) in
  lenN (node W (takeN p xs) i j) < lenN (node W xs i j) /\
  bit_at B (i * n + below W xs i j + lenN (node W (takeN p xs) i j)) = N.testbit x (W - i - 1).
Proof.
  intros Hx Hi j. pose proof (Forall_nget _ _ _ _ Hxs Hx) as Hxw. simpl in Hxw.
  pose proof (node_prefix_get W xs p x i Hx) as Hn. fold j in Hn. pose proof (nget_Some_lt _ _ _ Hn) as Hl.
  split; [done|]. unfold B, n. rewrite wavelet_bit by first [done | apply level_of; [done|lia]].
  apply bit_at_get. unfold fragment_bits. by rewrite nget_map, Hn.
Qed.

Lemma level_bound i j : i < W -> j < 2 ^ i ->
  i * n + below W xs i (j + 1) <= lenN B.
Proof.
  intros Hi Hj. unfold B, wavelet_bits. rewrite (lenN_wavelet_prefix W xs Hxs W) by lia. rewrite below_succ.
  pose proof (below_node_le W xs Hxs i j ltac:(lia) Hj). unfold n. nia.
Qed.
End levels.

(** ** The counting queries for either bit *)

Section queries.
Context (bi : BitIndex.t) (bits : list bool) (Hbi : bi_repr bi bits).

Lemma crank_true m : crank true bits m = rank (bit_at bits) m.
Proof. apply rank_eqb_true. Qed.

Lemma crank_false m : crank false bits m = rank (fun k => negb (bit_at bits k)) m.
Proof. apply rank_ext. intros k _. by destruct (bit_at bits k). Qed.

Lemma rank1_range_crank s e : s <= e <= lenN bits ->
  BitIndex.rank1_from_range bi s e = Some (crank true bits e - crank true bits s).
Proof. intros. rewrite !crank_true. by apply rank1_from_range_spec. Qed.

Lemma rank0_range_crank s e : s <= e <= lenN bits ->
  BitIndex.rank0_from_range bi s e = Some (crank false bits e - crank false bits s).
Proof. intros. rewrite !crank_false. by apply rank0_from_range_spec. Qed.

(** Selecting the bit whose rank is known. *)
Lemma select_range_at (b : bool) r s e q : s <= q < e -> e <= lenN bits -> 0 < r ->
  bit_at bits q = b -> crank b bits q + 1 = crank b bits s + r ->
  (if b then BitIndex.select1_from_range bi r s e else BitIndex.select0_from_range bi r s e) = Some (Some q).
Proof.
  intros Hq He Hr Hb Hc. assert (Hne : 0 < lenN bits) by lia. destruct b.
  - rewrite !crank_true in Hc. destruct (select1_range_spec bi bits Hbi Hne r s e) as (o & -> & Ho); [lia|done|].
    f_equal. apply Ho. done.
  - rewrite !crank_false in Hc. destruct (select0_range_spec bi bits Hbi Hne r s e) as (o & -> & Ho); [lia|done| |].
    + rewrite <- Hc. pose proof (rank_mono (fun k => negb (bit_at bits k)) (q + 1) (lenN bits) ltac:(lia)) as Hm.
      rewrite rank_succ, Hb in Hm. done.
    + f_equal. apply Ho. by rewrite Hb.
Qed.
End queries.

(** The positions of a number. *)
Lemma positions_snoc e l x :
  positions e (l ++ [x]) = positions e l ++ (if decide (x = e) then [lenN l] else []).
Proof.
  unfold positions. rewrite lenN_app. change (lenN [x]) with 1. rewrite seqN_snoc, filter_app. f_equal.
  - apply filter_ext_in. intros p Hp. apply elem_nget in Hp as [i Hi]. pose proof (nget_Some_lt _ _ _ Hi) as Hl.
    rewrite lenN_seqN in Hl. rewrite nget_seqN in Hi by done. injection Hi as <-. by rewrite nget_app_l by lia.
  - rewrite N.add_0_l, filter_cons, nget_last. cbn. destruct (decide (x = e)), (decide (Some x = Some e)); congruence.
Qed.

Lemma positions_spec e l :
  lenN (positions e l) = lenN (filter (fun x => x = e) l) /\
  forall idx p, (positions e l).[idx] = Some p ->
    l.[p] = Some e /\ lenN (filter (fun x => x = e) (takeN p l)) = idx.
Proof.
  induction l as [|x l [IHlen IH]] using rev_ind; [split; [done|]; by intros|].
  rewrite positions_snoc, filter_app, !lenN_app, IHlen. split.
  - rewrite filter_cons. by destruct (decide (x = e)).
  - intros idx p Hp. destruct (N.lt_ge_cases idx (lenN (positions e l))) as [Hlt|Hge].
    + rewrite nget_app_l in Hp by done. destruct (IH _ _ Hp) as [Hl Hc].
      pose proof (nget_Some_lt _ _ _ Hl) as Hpl. split; [by rewrite nget_app_l|].
      rewrite <- Hc. do 2 f_equal. unfold takeN, lenN in *. by rewrite take_app_le by lia.
    + rewrite nget_app_r in Hp by done. destruct (decide (x = e)) as [->|]; [|by rewrite nget_nil in Hp].
      pose proof (nget_Some_lt _ _ _ Hp) as Hl. change (lenN [lenN l]) with 1 in Hl.
      replace (idx - lenN (positions e l)) with 0 in Hp by lia. injection Hp as <-.
      rewrite nget_last, takeN_app. split; [done|lia].
Qed.

(** ** Reading *)

(** The middle of a node's part of the alphabet tells the next bit. *)
Lemma half_test e k : let j := e / 2 ^ (k + 1) in
  ((j * 2 ^ (k + 1) + (j + 1) * 2 ^ (k + 1)) / 2 <=? e) = N.testbit e k.
Proof.
  intros j. unfold j. rewrite N.pow_add_r, N.pow_1_r, <- N.Div0.div_div, N.testbit_eqb.
  set (P := 2 ^ k). assert (HP : 0 < P) by (apply N.neq_0_lt_0; by apply N.pow_nonzero). clearbody P.
  set (y := e / P). replace (y / 2 * (P * 2) + (y / 2 + 1) * (P * 2)) with ((2 * (y / 2) + 1) * P * 2) by lia.
  rewrite N.div_mul by done. pose proof (N.div_mod e P ltac:(lia)) as He. fold y in He.
  pose proof (N.mod_lt e P ltac:(lia)). pose proof (N.div_mod y 2 ltac:(lia)). pose proof (N.mod_lt y 2 ltac:(lia)).
  generalize dependent (e mod P). generalize dependent (y / 2). generalize dependent (y mod 2). clearbody y.
  intros. apply eq_true_iff_eq. rewrite N.leb_le, N.eqb_eq. nia.
Qed.

Lemma half_value j k : (j * 2 ^ (k + 1) + (j + 1) * 2 ^ (k + 1)) / 2 = (2 * j + 1) * 2 ^ k.
Proof.
  rewrite N.pow_add_r, N.pow_1_r.
  replace (j * (2 ^ k * 2) + (j + 1) * (2 ^ k * 2)) with ((2 * j + 1) * 2 ^ k * 2) by lia.
  by apply N.div_mul.
Qed.

Lemma node_0 W l : Forall (fun x => x < 2 ^ W) l -> node W l 0 0 = l.
Proof.
  intros Hl. apply filter_all. eapply Forall_impl; [exact Hl|]. intros x Hx. simpl in *.
  rewrite N.sub_0_r. by apply N.div_small.
Qed.

Section reading.
Context (wt : WaveletTree.t) (xs : list N) (Hwt : wt_repr wt xs).
Let W := WaveletTree.num_layers wt.
Let n := lenN xs.
Let B := wavelet_bits W xs.

Lemma wt_bits_len : lenN B = W * n.
Proof. destruct Hwt as (_ & Hxs & _). apply (lenN_wavelet_prefix W xs Hxs). lia. Qed.

Lemma wt_len : WaveletTree.len wt = n.
Proof.
  pose proof wt_bits_len as Hl. destruct Hwt as (HW & _ & ((Hb & _) & _)). unfold WaveletTree.len.
  fold W in HW. fold W. replace (W =? 0) with false by (symmetry; apply N.eqb_neq; lia).
  unfold BitIndex.len. rewrite Hb. change (wavelet_bits (WaveletTree.num_layers wt) xs) with B. rewrite Hl, N.mul_comm. apply N.div_mul. lia.
Qed.

Lemma decode_loop_spec m : forall i p x, xs.[p] = Some x -> i + N.of_nat m = W ->
  let j := x / 2 ^ (W - i) in
  WaveletTree.decode_loop m wt i (j * 2 ^ (W - i)) ((j + 1) * 2 ^ (W - i))
    (below W xs i j) (below W xs i (j + 1)) (lenN (node W (takeN p xs) i j)) = Some (x, x + 1).
Proof.
  pose proof Hwt as (HW & Hxs & Hbi). fold W B in HW, Hxs, Hbi.
  induction m as [|m IH]; intros i p x Hx Hi j.
  - unfold j. replace (W - i) with 0 by lia. rewrite N.pow_0_r, N.div_1_r, !N.mul_1_r. done.
  - cbn [WaveletTree.decode_loop]. rewrite wt_len. assert (HiW : i < W) by lia.
    pose proof (Forall_nget _ _ _ _ Hxs Hx) as Hxw. simpl in Hxw.
    assert (Hj : j < 2 ^ i) by (apply level_of; [done|lia]).
    destruct (level_bit W xs Hxs p x i Hx HiW) as [Hk Hbit]. fold j n B in Hk, Hbit.
    pose proof (level_bound W xs Hxs i j HiW Hj) as Hbound. fold n B in Hbound. rewrite below_succ in Hbound.
    set (k := lenN (node W (takeN p xs) i j)) in *. set (s := i * n + below W xs i j) in *.
    replace (i * n + below W xs i (j + 1)) with (s + lenN (node W xs i j)) by (rewrite below_succ; unfold s; lia).
    destruct Hbi as (Hba & Hbb). pose proof Hba as (Hbl & _).
    unfold BitIndex.len. rewrite Hbl. unfold assert_.
    replace (lenN B <=? s + k) with false by (symmetry; apply N.leb_gt; unfold s; lia). cbn [negb].
    rewrite bind_Some_eq. unfold BitIndex.get. rewrite (ba_get _ _ _ Hba), nget_bit_at by (unfold s; lia).
    rewrite bind_Some_eq, Hbit.
    assert (Hbi : bi_repr (WaveletTree.bits wt) B) by (split; done).
    pose proof (fun c => level_rank W xs Hxs c i j p HiW Hj) as Hrank. fold n B k s in Hrank.
    pose proof (fun c => level_rank_all W xs Hxs c i j HiW Hj) as Hall. fold n B s in Hall.
    rewrite below_succ, N.add_assoc in Hall. fold s in Hall.
    assert (Hnext : crank (N.testbit x (W - i - 1)) B (s + k + 1) =
              crank (N.testbit x (W - i - 1)) B (s + k) + 1).
    { unfold crank. rewrite rank_succ, Hbit. by destruct (N.testbit x (W - i - 1)). }
    specialize (IH (i + 1) p x Hx ltac:(lia)). cbv zeta in IH. rewrite (child_of W x i HiW) in IH. fold j in IH.
    replace (W - i) with (W - (i + 1) + 1) in * by lia. rewrite half_value.
    set (P := 2 ^ (W - (i + 1))) in *.
    assert (HP : 2 ^ (W - (i + 1) + 1) = 2 * P) by (rewrite N.pow_add_r; unfold P; lia). rewrite HP.
    pose proof (node_split W xs i j HiW) as Hsplit.
    destruct (N.testbit x (W - (i + 1) + 1 - 1)) eqn:Hc; cbn [N.b2n] in IH.
    + rewrite (rank1_range_crank _ _ Hbi) by (unfold s; lia). rewrite bind_Some_eq.
      rewrite csub_Some, bind_Some_eq by (specialize (Hrank true); lia).
      rewrite (rank0_range_crank _ _ Hbi), bind_Some_eq by (unfold s; lia).
      rewrite below_mid in IH by done. rewrite <- IH. specialize (Hrank true). pose proof (Hall false) as Hf.
      cbn [N.b2n] in Hrank, Hf. rewrite N.add_0_r in Hf.
      replace (2 * j + 1 + 1) with (2 * (j + 1)) by lia. rewrite below_child by done.
      f_equal; lia.
    + rewrite N.add_0_r in IH.
      rewrite (rank0_range_crank _ _ Hbi) by (unfold s; lia). rewrite bind_Some_eq.
      rewrite csub_Some, bind_Some_eq by (specialize (Hrank false); lia).
      rewrite (rank1_range_crank _ _ Hbi), bind_Some_eq by (unfold s; lia).
      pose proof (Hall true) as Ht. specialize (Hrank false). cbn [N.b2n] in Hrank, Ht. rewrite N.add_0_r in Hrank.
      rewrite csub_Some, bind_Some_eq by (rewrite below_succ; lia).
      rewrite below_mid, below_child in IH by done. rewrite <- IH. rewrite below_succ. f_equal; lia.
Qed.

Lemma decode_one_spec p : WaveletTree.decode_one wt p = xs.[p] \/ n <= p.
Proof.
  destruct (N.lt_ge_cases p n) as [Hp|]; [left|by right]. destruct (nget_lt xs p Hp) as [x Hx]. rewrite Hx.
  pose proof Hwt as (HW & Hxs & _). fold W in HW, Hxs. unfold WaveletTree.decode_one, pow2_u64. fold W.
  replace (W <? 64) with true by (symmetry; apply N.ltb_lt; lia). rewrite bind_Some_eq, wt_len.
  pose proof (decode_loop_spec (N.to_nat W) 0 p x Hx ltac:(lia)) as Hd. cbv zeta in Hd.
  pose proof (Forall_nget _ _ _ _ Hxs Hx) as Hxw. simpl in Hxw.
  rewrite N.sub_0_r, N.div_small, N.mul_0_l, N.add_0_l, N.mul_1_l in Hd by done.
  rewrite below_0, node_0, lenN_takeN in Hd by (by apply Forall_take).
  change 1 with (2 ^ 0) in Hd at 1. rewrite below_all in Hd by (done || lia). fold n in Hd.
  replace (N.min p n) with p in Hd by lia. rewrite Hd, bind_Some_eq. cbn [fst snd].
  rewrite csub_Some, bind_Some_eq by lia. rewrite N.add_sub. unfold assert_. by rewrite N.eqb_refl.
Qed.

Lemma decode_spec : WaveletTree.decode wt = Some xs.
Proof.
  unfold WaveletTree.decode. rewrite wt_len. apply mapM_nget. intros i Hi.
  destruct (decode_one_spec i); [done|unfold n in *; lia].
Qed.

(** *** Looking a number up *)

Section looking.
Context (e : N) (He : e < 2 ^ W).

Definition node_of (i : N) : N := e / 2 ^ (W - i).
Definition slice_of (i : N) : bool * N * N :=
  (N.testbit e (W - i - 1), i * n + below W xs i (node_of i), i * n + below W xs i (node_of i + 1)).

Lemma node_of_succ i : i < W -> node_of (i + 1) = 2 * node_of i + N.b2n (N.testbit e (W - i - 1)).
Proof. apply child_of. Qed.

Lemma node_of_lt i : i <= W -> node_of i < 2 ^ i.
Proof. by apply level_of. Qed.

Lemma node_member i : i <= W -> e ∈ xs -> node W xs i (node_of i) <> [].
Proof.
  intros Hi Hin E. assert (Hn : e ∈ node W xs i (node_of i)) by (by apply list_elem_of_filter).
  rewrite E in Hn. by apply elem_of_nil in Hn.
Qed.

Lemma node_last : node W xs W (node_of W) = filter (fun x => x = e) xs.
Proof.
  unfold node, node_of. apply filter_ext_in. intros x _. by rewrite N.sub_diag, N.pow_0_r, !N.div_1_r.
Qed.

Lemma lookup_loop_spec m : forall i acc, i + N.of_nat m = W -> (i = W -> e ∈ xs) ->
  lookup_loop m wt e i (node_of i * 2 ^ (W - i)) ((node_of i + 1) * 2 ^ (W - i))
    (below W xs i (node_of i)) (below W xs i (node_of i + 1)) acc =
  Some (if decide (e ∈ xs) then Some (acc ++ (slice_of <$> seqN i (N.of_nat m))) else None).
Proof.
  pose proof Hwt as (HW & Hxs & Hbi). fold W in HW, Hxs. fold W in Hbi. fold B in Hbi.
  induction m as [|m IH]; intros i acc Hi Hend.
  - cbn [lookup_loop]. rewrite decide_True by (apply Hend; lia). cbn. by rewrite app_nil_r.
  - assert (HiW : i < W) by lia. pose proof (node_of_lt i ltac:(lia)) as Hj.
    specialize (IH (i + 1)). rewrite (node_of_succ i HiW) in IH. cbn [lookup_loop]. rewrite wt_len.
    pose proof (level_bound W xs Hxs i _ HiW Hj) as Hbound. fold n B in Hbound.
    pose proof (fun c => level_rank_all W xs Hxs c i _ HiW Hj) as Hall. fold n B in Hall.
    pose proof (node_split W xs i (node_of i) HiW) as Hsplit. pose proof (below_succ W xs i (node_of i)) as Hsucc.
    fold W. rewrite csub_Some, bind_Some_eq by lia. rewrite csub_Some, bind_Some_eq by lia.
    unfold pow2_u64. replace (W - i - 1 <? 64) with true by (symmetry; apply N.ltb_lt; lia). rewrite bind_Some_eq.
    assert (Hb : ((node_of i * 2 ^ (W - i) + (node_of i + 1) * 2 ^ (W - i)) / 2 <=? e) = N.testbit e (W - i - 1)).
    { unfold node_of. pose proof (half_test e (W - i - 1)) as H. cbv zeta in H.
      by replace (W - i - 1 + 1) with (W - i) in H by lia. }
    rewrite Hb. set (acc' := acc ++ _).
    assert (Hacc : acc ++ (slice_of <$> seqN i (N.of_nat (S m))) = acc' ++ (slice_of <$> seqN (i + 1) (N.of_nat m))).
    { rewrite (seqN_cons i) by lia. cbn [fmap list_fmap]. unfold acc'. rewrite <- app_assoc. cbn [app].
      replace (N.of_nat (S m) - 1) with (N.of_nat m) by lia. done. }
    rewrite Hacc. specialize (IH acc' ltac:(lia)).
    assert (HP : 2 ^ (W - i) = 2 * 2 ^ (W - i - 1)).
    { replace (W - i) with (1 + (W - i - 1)) at 1 by lia. by rewrite N.pow_add_r. }
    replace (W - (i + 1)) with (W - i - 1) in IH by lia. set (P := 2 ^ (W - i - 1)) in *.
    assert (HP0 : 0 < P) by (apply N.neq_0_lt_0; by apply N.pow_nonzero).
    assert (Hmem : forall j, node_of (i + 1) = j -> lenN (node W xs (i + 1) j) = 0 -> e ∉ xs).
    { intros j <- Hz Hin. apply (node_member (i + 1) ltac:(lia)) in Hin.
      destruct (node W xs (i + 1) (node_of (i + 1))); [done|rewrite lenN_cons in Hz; lia]. }
    assert (Hlast : forall j, node_of (i + 1) = j -> lenN (node W xs (i + 1) j) <> 0 -> i + 1 = W -> e ∈ xs).
    { intros j <- Hz E. rewrite E, node_last in Hz.
      destruct (filter (fun x => x = e) xs) as [|y l] eqn:Ef; [done|].
      assert (Hy : y ∈ filter (fun x => x = e) xs) by (rewrite Ef; by apply elem_of_cons; left).
      by apply list_elem_of_filter in Hy as [-> Hy]. }
    specialize (Hmem _ (node_of_succ i HiW)). specialize (Hlast _ (node_of_succ i HiW)).
    rewrite HP. set (j := node_of i) in *.
    pose proof (Hall true) as Hone. pose proof (Hall false) as Hzero. cbn [N.b2n] in Hone, Hzero.
    rewrite N.add_0_r in Hzero. pose proof (below_child W xs i j HiW) as Hbc. pose proof (below_mid W xs i j HiW) as Hbm.
    pose proof (below_child W xs i (j + 1) HiW) as Hbc'.
    destruct (N.testbit e (W - i - 1)) eqn:Hc; cbn [N.b2n] in IH, Hmem, Hlast.
    + rewrite (rank0_range_crank _ _ Hbi), bind_Some_eq by lia. rewrite bind_Some_eq. cbn [fst snd].
      replace (below W xs i j + _) with (below W xs (i + 1) (2 * j + 1)) by lia.
      replace (below W xs i (j + 1)) with (below W xs (i + 1) (2 * j + 1 + 1))
        by (rewrite <- Hbc'; f_equal; lia).
      replace (j * (2 * P) + P) with ((2 * j + 1) * P) by lia.
      replace ((j + 1) * (2 * P)) with ((2 * j + 1 + 1) * P) by lia.
      rewrite (below_succ W xs (i + 1) (2 * j + 1)) in *. destruct (N.eqb_spec (below W xs (i + 1) (2 * j + 1)) (below W xs (i + 1) (2 * j + 1) + lenN (node W xs (i + 1) (2 * j + 1)))) as [Hz|Hz].
      * rewrite decide_False by (apply Hmem; lia). done.
      * apply IH. apply Hlast. lia.
    + rewrite N.add_0_r in *. rewrite csub_Some, bind_Some_eq by nia.
      rewrite (rank1_range_crank _ _ Hbi), bind_Some_eq by lia.
      rewrite csub_Some, bind_Some_eq by lia. rewrite bind_Some_eq. cbn [fst snd].
      replace (below W xs i (j + 1) - _) with (below W xs (i + 1) (2 * j + 1)) by lia.
      replace (below W xs i j) with (below W xs (i + 1) (2 * j)) by lia.
      replace (j * (2 * P)) with (2 * j * P) by lia.
      replace ((j + 1) * (2 * P) - P) with ((2 * j + 1) * P) by lia.
      rewrite (below_succ W xs (i + 1) (2 * j)) in *. destruct (N.eqb_spec (below W xs (i + 1) (2 * j)) (below W xs (i + 1) (2 * j) + lenN (node W xs (i + 1) (2 * j)))) as [Hz|Hz].
      * rewrite decide_False by (apply Hmem; lia). done.
      * apply IH. apply Hlast. lia.
Qed.

Definition the_lookup : WaveletLookup.t := WaveletLookup.mk e wt (slice_of <$> seqN 0 W).

Lemma lookup_spec : lookup wt e = Some (if decide (e ∈ xs) then Some the_lookup else None).
Proof.
  pose proof Hwt as (HW & Hxs & _). fold W in HW, Hxs. unfold lookup, pow2_u64. fold W.
  replace (W =? 0) with false by (symmetry; apply N.eqb_neq; lia).
  replace (W <? 64) with true by (symmetry; apply N.ltb_lt; lia). rewrite bind_Some_eq.
  replace (2 ^ W <=? e) with false by (symmetry; by apply N.leb_gt). rewrite wt_len.
  pose proof (lookup_loop_spec (N.to_nat W) 0 [] ltac:(lia) ltac:(lia)) as H.
  assert (Hn0 : node_of 0 = 0) by (unfold node_of; apply N.div_small; by rewrite N.sub_0_r).
  rewrite Hn0, N.mul_0_l, N.add_0_l, N.mul_1_l, N.sub_0_r, below_0 in H.
  change 1 with (2 ^ 0) in H. rewrite below_all in H by (done || lia). fold n in H. rewrite H, bind_Some_eq.
  rewrite N2Nat.id. unfold the_lookup. by destruct (decide (e ∈ xs)).
Qed.

Lemma lookup_len : WaveletLookup.len the_lookup = Some (lenN (filter (fun x => x = e) xs)).
Proof.
  pose proof Hwt as (HW & Hxs & Hbi). fold W in HW, Hxs. fold W in Hbi. fold B in Hbi.
  unfold WaveletLookup.len, the_lookup. cbn [WaveletLookup.slices WaveletLookup.tree].
  replace (seqN 0 W) with (seqN 0 (W - 1) ++ [W - 1]).
  2:{ replace (seqN 0 W) with (seqN 0 (W - 1 + 1)) by (f_equal; lia). by rewrite seqN_snoc. }
  rewrite fmap_app. cbn [fmap list_fmap]. rewrite last_snoc, bind_Some_eq. unfold slice_of.
  set (i := W - 1). assert (HiW : i < W) by lia. pose proof (node_of_lt i ltac:(lia)) as Hj.
  pose proof (level_bound W xs Hxs i _ HiW Hj) as Hbound. fold n B in Hbound.
  pose proof (level_rank_all W xs Hxs (N.testbit e (W - i - 1)) i _ HiW Hj) as Hall. fold n B in Hall.
  rewrite <- node_of_succ in Hall by done. replace (i + 1) with W in Hall by lia. rewrite node_last in Hall.
  pose proof (below_succ W xs i (node_of i)).
  destruct (N.testbit e (W - i - 1)).
  - rewrite (rank1_range_crank _ _ Hbi) by lia. f_equal. lia.
  - rewrite (rank0_range_crank _ _ Hbi) by lia. f_equal. lia.
Qed.

Lemma entry_loop_spec p i : xs.[p] = Some e -> N.of_nat i <= W ->
  WaveletLookup.entry_loop (WaveletTree.bits wt) (rev (slice_of <$> seqN 0 (N.of_nat i)))
    (lenN (node W (takeN p xs) (N.of_nat i) (node_of (N.of_nat i))) + 1) = Some (p + 1).
Proof.
  intros Hp. pose proof Hwt as (HW & Hxs & Hbi). fold W in HW, Hxs. fold W in Hbi. fold B in Hbi.
  pose proof (nget_Some_lt _ _ _ Hp) as Hpl. induction i as [|i IH]; intros Hi.
  - change (N.of_nat 0) with 0. assert (Hn0 : node_of 0 = 0) by (unfold node_of; apply N.div_small; by rewrite N.sub_0_r).
    rewrite Hn0, node_0, lenN_takeN by (by apply Forall_take). cbn. do 2 f_equal. lia.
  - set (k := N.of_nat i) in *. assert (HkW : k < W) by lia.
    replace (N.of_nat (S i)) with (k + 1) by lia. rewrite seqN_snoc, fmap_app, rev_app_distr, N.add_0_l.
    cbn [fmap list_fmap rev app]. unfold slice_of at 1. cbn [WaveletLookup.entry_loop].
    pose proof (node_of_lt k ltac:(lia)) as Hj. pose proof (level_bound W xs Hxs k _ HkW Hj) as Hbound. fold n B in Hbound.
    destruct (level_bit W xs Hxs p e k Hp HkW) as [Hk Hbit]. fold (node_of k) n B in Hk, Hbit.
    pose proof (level_rank W xs Hxs (N.testbit e (W - k - 1)) k _ p HkW Hj) as Hrank. fold n B in Hrank.
    rewrite <- node_of_succ in Hrank by done. pose proof (below_succ W xs k (node_of k)).
    rewrite (select_range_at _ _ Hbi _ _ _ _
      (k * n + below W xs k (node_of k) + lenN (node W (takeN p xs) k (node_of k)))) by (done || lia).
    rewrite !bind_Some_eq, csub_Some, bind_Some_eq by lia.
    replace (k * n + below W xs k (node_of k) + _ - _) with (lenN (node W (takeN p xs) k (node_of k))) by lia.
    apply IH. lia.
Qed.

Lemma lookup_entry p idx : xs.[p] = Some e -> lenN (filter (fun x => x = e) (takeN p xs)) = idx ->
  WaveletLookup.entry the_lookup idx = Some p.
Proof.
  intros Hp Hidx. unfold WaveletLookup.entry. rewrite lookup_len, bind_Some_eq.
  assert (Hlt : idx < lenN (filter (fun x => x = e) xs)).
  { rewrite <- (takeN_dropN p xs), filter_app, lenN_app, (dropN_cons _ _ _ Hp), filter_cons_True, lenN_cons by done. lia. }
  unfold assert_. replace (_ <=? idx) with false by (symmetry; by apply N.leb_gt). cbn [negb]. rewrite bind_Some_eq.
  unfold the_lookup. cbn [WaveletLookup.slices WaveletLookup.tree].
  pose proof (entry_loop_spec p (N.to_nat W) Hp ltac:(lia)) as H. rewrite N2Nat.id in H.
  replace (node W (takeN p xs) W (node_of W)) with (filter (fun x => x = e) (takeN p xs)) in H.
  - rewrite Hidx in H. rewrite H, bind_Some_eq, csub_Some by lia. f_equal. lia.
  - unfold node, node_of. apply filter_ext_in. intros x _. by rewrite N.sub_diag, N.pow_0_r, !N.div_1_r.
Qed.
End looking.

Lemma lookup_iter e : e < 2 ^ W -> WaveletLookup.iter (the_lookup e) = Some (positions e xs).
Proof.
  intros He. unfold WaveletLookup.iter. rewrite (lookup_len e He), bind_Some_eq.
  destruct (positions_spec e xs) as [<- Hpos]. apply mapM_nget. intros i Hi.
  destruct (nget_lt _ _ Hi) as [p Hp]. rewrite Hp. destruct (Hpos _ _ Hp). by apply lookup_entry.
Qed.
End reading.

(** ** Building *)

Lemma concat_fmap_concat {A B} (g : A -> list B) (ls : list (list A)) :
  concat (g <$> concat ls) = concat ((fun l => concat (g <$> l)) <$> ls).
Proof. induction ls as [|l ls IH]; [done|]. cbn [concat fmap list_fmap]. by rewrite fmap_app, concat_app, IH. Qed.

Lemma insert_middle {A} (a b c : list A) j v : j < lenN b ->
  <[N.to_nat (lenN a + j) := v]> (a ++ b ++ c) = a ++ <[N.to_nat j := v]> b ++ c.
Proof.
  intros Hj. unfold lenN in *. rewrite insert_app_r_alt by lia. f_equal.
  replace (N.to_nat (N.of_nat (length a) + j) - length a)%nat with (N.to_nat j) by lia.
  by rewrite insert_app_l by lia.
Qed.

(** Wider trees cannot be built: the capacity overflows, or the shift does. *)
Lemma create_fragments_limit W : 58 <= W -> create_fragments W = None.
Proof.
  intros HW. unfold create_fragments, pow2_u64. destruct (N.ltb_spec W 64) as [_|_]; [|done].
  rewrite bind_Some_eq. pose proof (N.pow_le_mono_r 2 58 W ltac:(done) HW) as Hp.
  rewrite csub_Some, bind_Some_eq by (change (2 ^ 58) with 288230376151711744 in Hp; lia). unfold with_capacity.
  replace (FRAGMENT_SIZE * (2 ^ W - 1) <? 2 ^ 63) with false; [done|]. symmetry. apply N.ltb_ge. unfold FRAGMENT_SIZE.
  transitivity (48 * (2 ^ 58 - 1)); [done|]. apply N.mul_le_mono_l. lia.
Qed.

Section fragments.
Context (W : N) (HW : W < 58).

Definition fragment (i j : N) (l : list N) : FragmentBuilder.t :=
  FragmentBuilder.mk (j * 2 ^ (W - i)) ((j * 2 ^ (W - i) + (j + 1) * 2 ^ (W - i)) / 2) ((j + 1) * 2 ^ (W - i))
    (fragment_bits W l i j).
Definition row (i : N) (l : list N) : list FragmentBuilder.t := (fun j => fragment i j l) <$> seqN 0 (2 ^ i).
(** The fragments when layer [i] has been given the numbers [f i]. *)
Definition all_fragments (f : N -> list N) : list FragmentBuilder.t := concat ((fun i => row i (f i)) <$> seqN 0 W).

Lemma create_fragments_spec : create_fragments W = Some (all_fragments (fun _ => [])).
Proof.
  unfold create_fragments, pow2_u64. replace (W <? 64) with true by (symmetry; apply N.ltb_lt; lia).
  rewrite bind_Some_eq. pose proof (N.pow_nonzero 2 W ltac:(done)) as Hz. rewrite csub_Some, bind_Some_eq by lia.
  assert (Hc : FRAGMENT_SIZE * (2 ^ W - 1) < 2 ^ 63).
  { assert (2 ^ W <= 2 ^ 57) as Hp by (apply N.pow_le_mono_r; lia). unfold FRAGMENT_SIZE.
    apply N.le_lt_trans with (48 * 2 ^ 57); [apply N.mul_le_mono_l; lia|reflexivity]. }
  unfold with_capacity. rewrite (proj2 (N.ltb_lt _ _) Hc). cbn [assert_]. rewrite bind_Some_eq. unfold all_fragments. do 2 f_equal. apply list_fmap_ext. intros k i Hi.
  apply list_elem_of_lookup_2, elem_nget in Hi as [k' Hi]. pose proof (nget_Some_lt _ _ _ Hi) as Hl.
  rewrite lenN_seqN in Hl. rewrite nget_seqN in Hi by done. injection Hi as <-.
  unfold row. cbv zeta. by rewrite shiftr_pow2 by lia.
Qed.

Lemma lenN_rows f L : lenN (concat ((fun i => row i (f i)) <$> seqN 0 L)) = 2 ^ L - 1.
Proof.
  induction L as [|L IH] using N.peano_ind; [done|]. rewrite <- N.add_1_r, seqN_snoc, fmap_app, concat_app.
  rewrite lenN_app, IH. cbn [fmap list_fmap concat]. rewrite app_nil_r, N.add_0_l. unfold row.
  rewrite lenN_map, lenN_seqN, N.pow_add_r. pose proof (N.pow_nonzero 2 L ltac:(done)). lia.
Qed.

Lemma all_fragments_split f L : L < W -> exists C, all_fragments f =
    concat ((fun i => row i (f i)) <$> seqN 0 L) ++ row L (f L) ++ C /\
  forall g, (forall i, i <> L -> g i = f i) ->
    all_fragments g = concat ((fun i => row i (f i)) <$> seqN 0 L) ++ row L (g L) ++ C.
Proof.
  intros HL. exists (concat ((fun i => row i (f i)) <$> seqN (L + 1) (W - L - 1))).
  assert (Hs : seqN 0 W = seqN 0 L ++ L :: seqN (L + 1) (W - L - 1)).
  { replace W with (L + (W - L)) at 1 by lia. rewrite seqN_app, (seqN_cons (0 + L)) by lia. done. }
  unfold all_fragments. split; [by rewrite Hs, fmap_app, concat_app|].
  intros g Hg. rewrite Hs, fmap_app, concat_app. cbn [fmap list_fmap concat].
  assert (Hext : forall a m, (a + m <= L \/ L < a) ->
    (fun i => row i (g i)) <$> seqN a m = (fun i => row i (f i)) <$> seqN a m).
  { intros a m Ham. apply list_fmap_ext. intros k i Hi. rewrite Hg; [done|].
    apply list_elem_of_lookup_2, elem_nget in Hi as [k' Hi]. pose proof (nget_Some_lt _ _ _ Hi) as Hl.
    rewrite lenN_seqN in Hl. rewrite nget_seqN in Hi by done. injection Hi as <-. lia. }
  by rewrite !Hext by lia.
Qed.

Lemma node_snoc l x i j : node W (l ++ [x]) i j = node W l i j ++ (if decide (x / 2 ^ (W - i) = j) then [x] else []).
Proof. unfold node. by rewrite filter_app, filter_cons. Qed.

Lemma fragment_push L l num : L < W -> num < 2 ^ W ->
  FragmentBuilder.push (fragment L (num / 2 ^ (W - L)) l) num = fragment L (num / 2 ^ (W - L)) (l ++ [num]).
Proof.
  intros HL Hnum. set (j := num / 2 ^ (W - L)). unfold FragmentBuilder.push, fragment.
  cbn [FragmentBuilder.fragment_start FragmentBuilder.fragment_half FragmentBuilder.fragment_end FragmentBuilder.bits].
  pose proof (N.pow_nonzero 2 (W - L) ltac:(done)) as HP.
  pose proof (N.div_mod num (2 ^ (W - L)) HP) as Hdm. pose proof (N.mod_lt num (2 ^ (W - L)) HP) as Hm. fold j in Hdm.
  assert (Hjd : num / 2 ^ (W - L) = j) by done. clearbody j.
  generalize dependent (num mod 2 ^ (W - L)). intros r Hdm Hm.
  replace (num <? j * 2 ^ (W - L)) with false by (symmetry; apply N.ltb_ge; lia).
  replace ((j + 1) * 2 ^ (W - L) <=? num) with false by (symmetry; apply N.leb_gt; lia). cbn [orb].
  f_equal. unfold fragment_bits. rewrite node_snoc, decide_True, fmap_app by done. f_equal.
  cbn [fmap list_fmap]. f_equal. pose proof (half_test num (W - L - 1)) as H. cbv zeta in H.
  replace (W - L - 1 + 1) with (W - L) in H by lia. rewrite Hjd in H. exact H.
Qed.

Lemma row_push L l num : L < W -> num < 2 ^ W ->
  <[N.to_nat (num / 2 ^ (W - L)) := fragment L (num / 2 ^ (W - L)) (l ++ [num])]> (row L l) = row L (l ++ [num]).
Proof.
  intros HL Hnum. set (j := num / 2 ^ (W - L)). assert (Hj : j < 2 ^ L) by (apply level_of; [done|lia]).
  apply list_eq_nget. intros i. unfold nget. destruct (N.eq_dec i j) as [->|Hne].
  - rewrite list_lookup_insert_eq by (unfold row, seqN; rewrite !length_fmap, length_seq; lia).
    unfold row. change (Some (fragment L j (l ++ [num])) = ((fun j => fragment L j (l ++ [num])) <$> seqN 0 (2 ^ L)).[j]).
    by rewrite nget_map, nget_seqN.
  - rewrite list_lookup_insert_ne by lia.
    change ((row L l).[i] = (row L (l ++ [num])).[i]). unfold row. rewrite !nget_map.
    destruct (N.lt_ge_cases i (2 ^ L)) as [Hi|Hi].
    + rewrite nget_seqN by done. simpl. f_equal. unfold fragment. f_equal. unfold fragment_bits.
      rewrite node_snoc, decide_False; [by rewrite app_nil_r|]. fold j. lia.
    + by rewrite (proj2 (nget_None _ _)) by (by rewrite lenN_seqN).
Qed.

Lemma push_levels_spec m : forall l num, N.of_nat m <= W -> num < 2 ^ W ->
  push_levels m num (num / 2 ^ (W - N.of_nat m))
    (all_fragments (fun L => if L <? N.of_nat m then l else l ++ [num])) =
  Some (all_fragments (fun _ => l ++ [num])).
Proof.
  induction m as [|m IH]; intros l num Hm Hnum.
  - cbn [push_levels]. f_equal. unfold all_fragments. f_equal. apply list_fmap_ext. intros k i _.
    change (N.of_nat 0) with 0. by destruct (N.ltb_spec i 0); [lia|].
  - cbn [push_levels]. set (L := N.of_nat m) in *. assert (HL : L < W) by lia.
    assert (Hit : N.shiftr (num / 2 ^ (W - N.of_nat (S m))) 1 = num / 2 ^ (W - L)).
    { rewrite N.shiftr_div_pow2, N.Div0.div_div, <- N.pow_add_r. do 2 f_equal. lia. }
    rewrite Hit. set (j := num / 2 ^ (W - L)). assert (Hj : j < 2 ^ L) by (apply level_of; [done|lia]).
    set (f := fun L' => if L' <? N.of_nat (S m) then l else l ++ [num]).
    set (g := fun L' => if L' <? L then l else l ++ [num]).
    assert (HfL : f L = l) by (unfold f; by replace (L <? N.of_nat (S m)) with true by (symmetry; apply N.ltb_lt; lia)).
    assert (HgL : g L = l ++ [num]) by (unfold g; by rewrite N.ltb_irrefl).
    destruct (all_fragments_split f L HL) as (C & Hf & Hg).
    assert (Hgf : all_fragments g = concat ((fun i => row i (f i)) <$> seqN 0 L) ++ row L (l ++ [num]) ++ C).
    { rewrite <- HgL. apply Hg. intros i Hi. unfold f, g.
      destruct (N.ltb_spec i L), (N.ltb_spec i (N.of_nat (S m))); done || lia. }
    pose proof (N.pow_nonzero 2 L ltac:(done)) as HP.
    assert (Hidx : j + 2 ^ L - 1 = lenN (concat ((fun i => row i (f i)) <$> seqN 0 L)) + j)
      by (rewrite lenN_rows; lia).
    assert (Hrl : lenN (row L l) = 2 ^ L) by (unfold row; by rewrite lenN_map, lenN_seqN).
    rewrite Hidx, Hf, HfL. rewrite nget_app_r by lia.
    replace (lenN (concat ((fun i => row i (f i)) <$> seqN 0 L)) + j - _) with j by lia.
    rewrite nget_app_l by lia. assert (Hget : (row L l).[j] = Some (fragment L j l)).
    { unfold row. by rewrite nget_map, nget_seqN. }
    rewrite Hget, bind_Some_eq. rewrite insert_middle by lia.
    unfold j. rewrite fragment_push, row_push by done. rewrite <- Hgf. unfold g. apply IH; [lia|done].
Qed.

Lemma push_source_spec source : forall l, Forall (fun x => x < 2 ^ W) source ->
  push_source source W (all_fragments (fun _ => l)) = Some (all_fragments (fun _ => l ++ source)).
Proof.
  induction source as [|num source IH]; intros l Hs; [by rewrite app_nil_r|].
  apply Forall_cons in Hs as [Hnum Hs]. cbn [push_source]. unfold push_to_fragments.
  pose proof (push_levels_spec (N.to_nat W) l num ltac:(lia) Hnum) as H.
  rewrite N2Nat.id, N.sub_diag, N.pow_0_r, N.div_1_r in H.
  replace (all_fragments (fun _ => l)) with (all_fragments (fun L => if L <? W then l else l ++ [num])).
  - rewrite H, bind_Some_eq, IH by done. by rewrite <- app_assoc.
  - unfold all_fragments. f_equal. apply list_fmap_ext. intros k i Hi.
    apply list_elem_of_lookup_2, elem_nget in Hi as [k' Hi]. pose proof (nget_Some_lt _ _ _ Hi) as Hl.
    rewrite lenN_seqN in Hl. rewrite nget_seqN in Hi by done. injection Hi as <-.
    by replace (0 + k' <? W) with true by (symmetry; apply N.ltb_lt; lia).
Qed.

Lemma all_fragments_bits l : concat (FragmentBuilder.bits <$> all_fragments (fun _ => l)) = wavelet_bits W l.
Proof.
  unfold all_fragments, wavelet_bits. rewrite concat_fmap_concat, <- list_fmap_compose. f_equal.
  apply list_fmap_ext. intros k i _. unfold compose, row, layer_bits. by rewrite <- list_fmap_compose.
Qed.
End fragments.

Lemma wavelet_build `{FramedRead} W xs : 0 < W < 58 -> Forall (fun x => x < 2 ^ W) xs -> W * lenN xs < 2 ^ 32 ->
  exists bits blocks sblocks bi,
    build_wavelet_tree_from_iter W xs = Ok (bits, blocks, sblocks) /\
    BitIndex.from_maps bits blocks sblocks = Some bi /\
    WaveletTree.from_parts bi W = Some (WaveletTree.mk bi W) /\
    wt_repr (WaveletTree.mk bi W) xs.
Proof.
  intros HW Hxs Hn. assert (Hl : lenN (wavelet_bits W xs) = W * lenN xs).
  { apply (lenN_wavelet_prefix W xs Hxs). lia. }
  destruct (bit_builder_push_all (wavelet_bits W xs) _ _ bit_builder_new) as (b & Hp & Hb).
  { rewrite lenN_nil, Hl. simpl in *. lia. }
  destruct (build_bitindex_spec b _ Hb) as (bl & sl & bi & Hbuild & Hmaps & Hbi); [by rewrite app_nil_l, Hl|].
  exists (BitArrayFileBuilder.finalize b), bl, sl, bi. split.
  { unfold build_wavelet_tree_from_iter. rewrite create_fragments_spec by lia. cbn [or_panic]. rewrite bind_Ok_eq.
    rewrite push_source_spec by (done || lia). cbn [or_panic app]. rewrite bind_Ok_eq, all_fragments_bits.
    by rewrite Hp, bind_Ok_eq, Hbuild, bind_Ok_eq. }
  split; [done|]. split; [|split; [cbn; lia|by split]]. unfold WaveletTree.from_parts, BitIndex.len. destruct Hbi as ((-> & _) & _).
  rewrite app_nil_l, Hl, N.mul_comm, N.Div0.mod_mul. by destruct (W =? 0).
Qed.

(** ** Properties *)

Lemma wavelet_tree_repr `{FramedRead} W xs wt : 0 < W < 58 -> Forall (fun x => x < 2 ^ W) xs ->
  W * lenN xs < 2 ^ 32 -> wavelet_tree W xs wt -> wt_repr wt xs /\ WaveletTree.num_layers wt = W.
Proof.
  intros HW Hxs Hn Hwt. destruct (wavelet_build W xs HW Hxs Hn) as (b & bl & sl & bi & Hb & Hm & Hf & Hr).
  unfold wavelet_tree in Hwt. rewrite Hb, bind_Ok_eq, Hm, bind_Some_eq, Hf in Hwt. by injection Hwt as <-.
Qed.

(** C36: a wavelet tree of a width from 1 to 57 can be built over any numbers
    that fit the width, and decoding it, as a whole or one position at a time,
    gives the numbers back; none of the assertions of the reader fails.  From
    width 58 on the builder panics, since the vector of its fragments exceeds
    the capacity a vector may have (create_fragments_limit); a smaller one may
    still exceed the memory of the machine, which is not modelled. *)
Theorem wavelet_roundtrip `{FramedRead} W xs :
  0 < W < 58 -> Forall (fun x => x < 2 ^ W) xs -> W * lenN xs < 2 ^ 32 ->
  exists wt, wavelet_tree W xs wt /\ WaveletTree.len wt = lenN xs /\
    WaveletTree.decode wt = Some xs /\
    forall p, p < lenN xs -> WaveletTree.decode_one wt p = xs.[p].
Proof.
  intros HW Hxs Hn. destruct (wavelet_build W xs HW Hxs Hn) as (b & bl & sl & bi & Hb & Hm & Hf & Hr).
  exists (WaveletTree.mk bi W). split.
  { unfold wavelet_tree. by rewrite Hb, bind_Ok_eq, Hm, bind_Some_eq, Hf. }
  split; [by apply wt_len|]. split; [by apply decode_spec|]. intros p Hp.
  destruct (decode_one_spec _ _ Hr p); [done|lia].
Qed.

Lemma wavelet_roundtrip_witness : exists wt, wavelet_tree (H := whole_file) 5 [21; 1; 30; 13; 21] wt /\
    WaveletTree.len wt = 5 /\ WaveletTree.decode wt = Some [21; 1; 30; 13; 21] /\
    forall p, p < 5 -> WaveletTree.decode_one wt p = [21; 1; 30; 13; 21].[p].
Proof. apply (wavelet_roundtrip (H := whole_file) 5 [21; 1; 30; 13; 21]); [done|by repeat constructor|reflexivity]. Defined.

(** Looking a number up finds nothing when the number does not occur, and
    otherwise a lookup that iterates over exactly its positions, in increasing
    order, and whose length is their number; [lookup_one] is the first
    position. *)
Theorem wavelet_lookup `{FramedRead} W xs wt e :
  0 < W < 58 -> Forall (fun x => x < 2 ^ W) xs -> W * lenN xs < 2 ^ 32 -> wavelet_tree W xs wt ->
  match positions e xs with
  | [] => lookup wt e = Some None /\ lookup_one wt e = Some None
  | p :: ps => lookup_one wt e = Some (Some p) /\ exists l,
      lookup wt e = Some (Some l) /\ WaveletLookup.len l = Some (lenN (p :: ps)) /\
      WaveletLookup.iter l = Some (p :: ps)
  end.
Proof.
  intros HW Hxs Hn Hwt. destruct (wavelet_tree_repr W xs wt HW Hxs Hn Hwt) as [Hr Hl].
  destruct (positions_spec e xs) as [Hlen Hpos]. unfold lookup_one.
  assert (Hcase : e < 2 ^ W \/ 2 ^ W <= e /\ positions e xs = []).
  { destruct (N.lt_ge_cases e (2 ^ W)) as [|Hge]; [by left|right]. split; [done|].
    destruct (positions e xs) as [|p ps]; [done|]. destruct (Hpos 0 p eq_refl) as [Hp _].
    pose proof (Forall_nget _ _ _ _ Hxs Hp) as Hlt. simpl in Hlt. lia. }
  destruct Hcase as [He|[He Hnil]].
  - rewrite <- Hl in He. rewrite (lookup_spec wt xs Hr e He), bind_Some_eq.
    pose proof (lookup_iter wt xs Hr e He) as Hiter. pose proof (lookup_len wt xs Hr e He) as Hll.
    rewrite <- Hlen in Hll. destruct (positions e xs) as [|p ps] eqn:E.
    + rewrite decide_False; [done|]. intros [q Hq]%elem_nget.
      assert (Hz : e ∈ filter (fun x => x = e) xs) by (apply list_elem_of_filter; split; [done|by eapply nget_elem]).
      rewrite lenN_nil in Hlen. destruct (filter (fun x => x = e) xs); [by apply elem_of_nil in Hz|].
      rewrite lenN_cons in Hlen. lia.
    + destruct (Hpos 0 p eq_refl) as [Hp Hc]. rewrite decide_True by (by eapply nget_elem).
      rewrite (lookup_entry wt xs Hr e He p 0 Hp Hc), bind_Some_eq. split; [done|]. eexists. done.
  - rewrite Hnil. assert (Hlk : lookup wt e = Some None); [|by rewrite Hlk].
    unfold lookup, pow2_u64. rewrite Hl. replace (W =? 0) with false by (symmetry; apply N.eqb_neq; lia).
    replace (W <? 64) with true by (symmetry; apply N.ltb_lt; lia). rewrite bind_Some_eq.
    by replace (2 ^ W <=? e) with true by (symmetry; by apply N.leb_le).
Qed.

Lemma wavelet_lookup_witness : exists wt, wavelet_tree (H := whole_file) 5 [21; 1; 30; 13; 21] wt /\
  lookup_one wt 21 = Some (Some 0) /\ exists l, lookup wt 21 = Some (Some l) /\
    WaveletLookup.len l = Some (lenN [0; 4]) /\ WaveletLookup.iter l = Some [0; 4].
Proof.
  eexists. split; [vm_compute; reflexivity|].
  apply (wavelet_lookup (H := whole_file) 5 [21; 1; 30; 13; 21] _ 21); [done|by repeat constructor|reflexivity|].
  vm_compute; reflexivity.
Defined.
