(* ===== verification/Strings.v ===== *)
(** * Byte strings: order, common prefixes, UTF-8 (and parts of src/structure/util.rs)

    Strings are the lists of their bytes.  The order is that of [[u8]::cmp],
    which is the order of [str] too. *)

From S2P Require Import Prelude.
From S2P Require Import Words.
Open Scope N_scope.

(** [l.cmp(k)] of byte slices. *)
Fixpoint lex_cmp (l k : list N) : comparison :=
  match l, k with
  | [], [] => Eq
  | [], _ :: _ => Lt
  | _ :: _, [] => Gt
  | x :: l, y :: k => match x ?= y with Eq => lex_cmp l k | c => c end
  end.

Definition lex_lt (l k : list N) : Prop := lex_cmp l k = Lt.

#[export] Instance lex_lt_dec : RelDecision lex_lt.
Proof. intros l k. unfold lex_lt. solve_decision. Defined.

Definition lex_le (l k : list N) : Prop := lex_cmp l k <> Gt.

#[export] Instance lex_le_dec : RelDecision lex_le.
Proof. intros l k. unfold lex_le. solve_decision. Defined.

Fixpoint find_common_prefix (b1 b2 : list N) : N :=
  match b1, b2 with
  | x :: b1, y :: b2 => if x =? y then 1 + find_common_prefix b1 b2 else 0
  | _, _ => 0
  end.

(** [write_nul_terminated_bytes]: the file and the number of bytes written. *)
Definition write_nul_terminated_bytes (w bytes : list N) : list N * N :=
  (w ++ bytes ++ [0], lenN bytes + 1).

Definition write_padding (w : list N) (current_pos width : N) : option (list N) :=
  _ ← assert_ (negb (width =? 0));
  let required_padding := (width - current_pos mod width) mod width in
  Some (w ++ replicate (N.to_nat required_padding) 0).

Definition write_u64 (w : list N) (num : N) : list N := w ++ be64 num.

(** [String::from_utf8]: the well-formed sequences of the Unicode standard
    (table 3-7). *)
Definition in_range (lo hi b : N) : bool := (lo <=? b) && (b <=? hi).

Fixpoint utf8_valid (fuel : nat) (l : list N) : bool :=
  match fuel with
  | O => false
  | S fuel =>
      match l with
      | [] => true
      | b :: l1 =>
          if b <? 0x80 then utf8_valid fuel l1
          else match l1 with
          | [] => false
          | b1 :: l2 =>
              if in_range 0xC2 0xDF b then in_range 0x80 0xBF b1 && utf8_valid fuel l2
              else match l2 with
              | [] => false
              | b2 :: l3 =>
                  if in_range 0xE0 0xEF b then
                    in_range (if b =? 0xE0 then 0xA0 else 0x80) (if b =? 0xED then 0x9F else 0xBF) b1
                    && in_range 0x80 0xBF b2 && utf8_valid fuel l3
                  else match l3 with
                  | [] => false
                  | b3 :: l4 =>
                      in_range 0xF0 0xF4 b
                      && in_range (if b =? 0xF0 then 0x90 else 0x80) (if b =? 0xF4 then 0x8F else 0xBF) b1
                      && in_range 0x80 0xBF b2 && in_range 0x80 0xBF b3 && utf8_valid fuel l4
                  end
              end
          end
      end
  end.

(** [String::from_utf8(l).unwrap()]. *)
Definition from_utf8 (l : list N) : option (list N) :=
  if utf8_valid (S (length l)) l then Some l else None.

Definition is_string (l : list N) : Prop := Forall is_byte l /\ utf8_valid (S (length l)) l = true.

(** A string that a dictionary can hold: it has no NUL byte. *)
Definition is_entry (l : list N) : Prop := is_string l /\ Forall (fun b => b <> 0) l.

#[export] Instance is_entry_dec l : Decision (is_entry l).
Proof. unfold is_entry, is_string, is_byte. apply _. Defined.

(** ** The order *)

Lemma lex_cmp_refl l : lex_cmp l l = Eq.
Proof. induction l as [|x l IH]; simpl; [done|]. by rewrite N.compare_refl. Qed.

Lemma lex_cmp_eq l k : lex_cmp l k = Eq <-> l = k.
Proof.
  split; [|by intros ->; apply lex_cmp_refl]. revert k.
  induction l as [|x l IH]; intros [|y k]; simpl; try done.
  destruct (N.compare_spec x y) as [->|?|?]; try done. intros H. by rewrite (IH k).
Qed.

Lemma lex_cmp_opp l k : lex_cmp k l = CompOpp (lex_cmp l k).
Proof.
  revert k. induction l as [|x l IH]; intros [|y k]; simpl; try done.
  rewrite (N.compare_antisym x y). destruct (x ?= y); simpl; auto.
Qed.

Lemma lex_cmp_app a l k : lex_cmp (a ++ l) (a ++ k) = lex_cmp l k.
Proof. induction a as [|x a IH]; simpl; [done|]. by rewrite N.compare_refl. Qed.

(** Comparing part by part. *)
Lemma lex_cmp_parts a b l k : length a = length b ->
  lex_cmp (a ++ l) (b ++ k) = match lex_cmp a b with Eq => lex_cmp l k | c => c end.
Proof.
  revert b. induction a as [|x a IH]; intros [|y b] Hl; simpl in *; try done.
  destruct (x ?= y); [|done|done]. apply IH. lia.
Qed.

Lemma lex_lt_irrefl l : ~ lex_lt l l.
Proof. unfold lex_lt. by rewrite lex_cmp_refl. Qed.

Lemma lex_lt_trans l k m : lex_lt l k -> lex_lt k m -> lex_lt l m.
Proof.
  unfold lex_lt. revert k m. induction l as [|x l IH]; intros [|y k] [|z m]; simpl; try done.
  destruct (N.compare_spec x y), (N.compare_spec y z); subst; try done; intros H1 H2.
  - rewrite N.compare_refl. by apply (IH k).
  - by rewrite (proj2 (N.compare_lt_iff _ _)).
  - by rewrite (proj2 (N.compare_lt_iff _ _)).
  - rewrite (proj2 (N.compare_lt_iff x z)); [done|lia].
Qed.

#[export] Instance lex_lt_strict : StrictOrder lex_lt.
Proof. split; [exact lex_lt_irrefl|exact lex_lt_trans]. Qed.

Lemma lex_gt_lt l k : lex_cmp l k = Gt <-> lex_lt k l.
Proof. unfold lex_lt. rewrite (lex_cmp_opp l k). by destruct (lex_cmp l k). Qed.

Lemma lex_le_lt_eq l k : lex_le l k <-> lex_lt l k \/ l = k.
Proof.
  unfold lex_le, lex_lt. destruct (lex_cmp l k) eqn:E.
  - apply lex_cmp_eq in E. subst. split; [by right|done].
  - split; [by left|done].
  - split; [done|]. intros [?| ->]; [done|]. by rewrite lex_cmp_refl in E.
Qed.

Lemma lex_total l k : lex_lt l k \/ l = k \/ lex_lt k l.
Proof.
  destruct (lex_cmp l k) eqn:E; [right; left; by apply lex_cmp_eq|by left|right; right; by apply lex_gt_lt].
Qed.

#[export] Instance lex_le_total : Total lex_le.
Proof. intros l k. rewrite !lex_le_lt_eq. destruct (lex_total l k) as [?|[?|?]]; auto. Qed.

#[export] Instance lex_le_trans : Transitive lex_le.
Proof.
  intros l k m. rewrite !lex_le_lt_eq. intros [H1| ->] [H2| ->]; auto. left. by apply (lex_lt_trans l k).
Qed.

Lemma lex_prefix_le l k : lex_le l (l ++ k).
Proof.
  unfold lex_le. rewrite <- (app_nil_r l) at 1. rewrite lex_cmp_app. by destruct k.
Qed.

(** ** Common prefixes *)

Lemma common_le_l b1 b2 : find_common_prefix b1 b2 <= lenN b1.
Proof.
  revert b2. induction b1 as [|x b1 IH]; intros [|y b2]; cbn [find_common_prefix]; try lia.
  rewrite lenN_cons. specialize (IH b2). destruct (x =? y); lia.
Qed.

Lemma common_le_r b1 b2 : find_common_prefix b1 b2 <= lenN b2.
Proof.
  revert b2. induction b1 as [|x b1 IH]; intros [|y b2]; cbn [find_common_prefix]; try lia.
  rewrite lenN_cons. specialize (IH b2). destruct (x =? y); lia.
Qed.

Lemma takeN_cons {A} n (x : A) l : takeN (1 + n) (x :: l) = x :: takeN n l.
Proof. unfold takeN. replace (N.to_nat (1 + n)) with (S (N.to_nat n)) by lia. done. Qed.

Lemma common_take b1 b2 : takeN (find_common_prefix b1 b2) b1 = takeN (find_common_prefix b1 b2) b2.
Proof.
  revert b2. induction b1 as [|x b1 IH]; intros [|y b2]; cbn [find_common_prefix]; try done.
  destruct (N.eqb_spec x y) as [->|]; [|done]. rewrite !takeN_cons. f_equal. apply IH.
Qed.

(** A later string has bytes of its own. *)
Lemma common_lt_r b1 b2 : lex_lt b1 b2 -> find_common_prefix b1 b2 < lenN b2.
Proof.
  unfold lex_lt. revert b2. induction b1 as [|x b1 IH]; intros [|y b2]; cbn [find_common_prefix lex_cmp];
    rewrite ?lenN_cons; try done; [lia|].
  destruct (N.compare_spec x y) as [->|Hlt|Hgt]; intros H; [|clear H|done].
  - rewrite N.eqb_refl. specialize (IH b2 H). lia.
  - destruct (N.eqb_spec x y); lia.
Qed.

Lemma from_utf8_string l : is_string l -> from_utf8 l = Some l.
Proof. intros [_ H]. unfold from_utf8. by rewrite H. Qed.
