(* ===== verification/PfcBlocks.v ===== *)
(** * Blocks of a front-coded dictionary (first half of src/structure/pfc.rs)

    A block holds up to eight strings: the first one in full and every other
    one as the length of the prefix it shares with the string before it and
    the rest.  Each is followed by a NUL byte. *)

From S2P Require Import Prelude.
From S2P Require Import Words.
From S2P Require Import VByte.
From S2P Require Import Strings.
From S2P Require Import LogArrays.
Open Scope N_scope.

Inductive PfcError : Type := InvalidCoding | NotEnoughData.

(** [impl From<LogArrayError> for PfcError]. *)
Definition logarray_error_to_pfc (_ : LogArrayError) : PfcError := InvalidCoding.

Definition pfc_error_to_io (_ : PfcError) : io_error := InvalidData.

Definition BLOCK_SIZE : N := 8.

(** [std::mem::size_of::<Bytes>()], the size of a type of the [bytes] crate. *)
Class BytesSize : Type := { bytes_size : N }.

Module PfcDictEntry.

(** The parts of the string. *)
Definition t : Type := list (list N).

Definition len (e : t) : N := foldr (fun part n => lenN part + n) 0 e.

Definition to_bytes (e : t) : list N := concat e.

Definition optimize `{BytesSize} (e : t) : t :=
  let overhead_size := bytes_size * lenN e in
  if bytes_size + len e <? overhead_size then [concat e] else e.

Definition new_optimized `{BytesSize} (parts : t) : t := optimize parts.

(** [to_string]. *)
Definition to_string (e : t) : option (list N) := from_utf8 (to_bytes e).

(** The loop of [buf_eq]: [part] is compared with the front of [b]. *)
Fixpoint buf_eq_loop (part : list N) (it : list (list N)) (b : list N) : option bool :=
  match lenN part ?= lenN b with
  | Lt =>
      if decide (part = takeN (lenN part) b) then
        match it with
        | [] => None
        | part' :: it => buf_eq_loop part' it (dropN (lenN part) b)
        end
      else Some false
  | Eq =>
      if decide (part = b) then _ ← assert_ (match it with [] => true | _ => false end); Some true
      else Some false
  | Gt => None
  end.

Definition buf_eq (e : t) (b : list N) : option bool :=
  if negb (len e =? lenN b) then Some false
  else if len e =? 0 then Some true
  else match e with [] => None | part :: it => buf_eq_loop part it b end.

(** The loop of [cmp]. *)
Fixpoint cmp_loop (fuel : nat) (part1 : list N) (it1 : list (list N)) (part2 : list N) (it2 : list (list N))
    : option comparison :=
  match fuel with
  | O => None
  | S fuel =>
      match lenN part1 ?= lenN part2 with
      | Eq =>
          match lex_cmp part1 part2 with
          | Eq =>
              match it1, it2 with
              | p1 :: it1, p2 :: it2 => cmp_loop fuel p1 it1 p2 it2
              | [], [] => Some Eq
              | [], _ => Some Lt
              | _, [] => Some Gt
              end
          | c => Some c
          end
      | Lt =>
          match lex_cmp part1 (takeN (lenN part1) part2) with
          | Eq =>
              match it1 with
              | [] => Some Lt
              | p1 :: it1 => cmp_loop fuel p1 it1 (dropN (lenN part1) part2) it2
              end
          | c => Some c
          end
      | Gt =>
          match lex_cmp (takeN (lenN part2) part1) part2 with
          | Eq =>
              match it2 with
              | [] => Some Gt
              | p2 :: it2 => cmp_loop fuel (dropN (lenN part2) part1) it1 p2 it2
              end
          | c => Some c
          end
      end
  end.

Definition cmp (e other : t) : option comparison :=
  if (len e =? 0) && (len other =? 0) then Some Eq
  else match e, other with
       | part1 :: it1, part2 :: it2 => cmp_loop (length e + length other) part1 it1 part2 it2
       | _, _ => None
       end.

Definition eq (e other : t) : option bool :=
  if negb (len e =? len other) then Some false
  else c ← cmp e other; Some (match c with Eq => true | _ => false end).

End PfcDictEntry.

Module PfcBlock.

Record t : Type := mk {
  encoded_strings : list N;
  n_strings : N
}.

Definition parse (data : list N) : outcome PfcError t := Ok (mk data BLOCK_SIZE).

Definition parse_incomplete (data : list N) (n_strings : N) : outcome PfcError t := Ok (mk data n_strings).

Definition head (b : t) : option (list N) :=
  first_end ← position 0 (encoded_strings b);
  slice_range 0 first_end (encoded_strings b).

Definition len (b : t) : N :=
  let len := lenN (encoded_strings b) in
  encoding_len len + len.

End PfcBlock.

Module PfcBlockEntryIterator.

Record t : Type := mk {
  block : PfcBlock.t;
  count : N;
  pos : N
}.

(** The shared prefix length and the rest of the next string. *)
Definition next (it : t) : option (option (N * list N) * t) :=
  let data := PfcBlock.encoded_strings (block it) in
  if pos it =? 0 then
    head ← PfcBlock.head (block it);
    Some (Some (0, head), mk (block it) 1 (lenN head + 1))
  else if count it <? PfcBlock.n_strings (block it) then
    rest ← slice_from (pos it) data;
    '(common, common_len) ← unwrap (VByte.decode rest);
    let pos := pos it + common_len in
    rest ← slice_from pos data;
    p ← position 0 rest;
    let postfix_end := pos + p in
    postfix ← slice_range pos postfix_end data;
    Some (Some (common, postfix), mk (block it) (count it + 1) (postfix_end + 1))
  else Some (None, it).

(** [take(n).collect()]. *)
Fixpoint take_collect (n : nat) (it : t) : option (list (N * list N)) :=
  match n with
  | O => Some []
  | S n =>
      '(r, it) ← next it;
      match r with
      | None => Some []
      | Some x => xs ← take_collect n it; Some (x :: xs)
      end
  end.

End PfcBlockEntryIterator.

Definition block_entries (b : PfcBlock.t) : PfcBlockEntryIterator.t := PfcBlockEntryIterator.mk b 0 0.

Module PfcBlockIterator.

Record t : Type := mk {
  entry_iterator : PfcBlockEntryIterator.t;
  string : list N
}.

Definition next (it : t) : option (option (list N) * t) :=
  '(r, entries) ← PfcBlockEntryIterator.next (entry_iterator it);
  match r with
  | Some (prefix_size, postfix) =>
      prefix ← slice_to prefix_size (string it);
      let string := prefix ++ postfix in
      s ← from_utf8 string;
      Some (Some s, mk entries string)
  | None => Some (None, mk entries (string it))
  end.

(** Draining the iterator. *)
Fixpoint collect (fuel : nat) (it : t) : option (list (list N)) :=
  match fuel with
  | O => None
  | S fuel =>
      '(r, it) ← next it;
      match r with
      | None => Some []
      | Some s => ss ← collect fuel it; Some (s :: ss)
      end
  end.

End PfcBlockIterator.

Definition strings (b : PfcBlock.t) : PfcBlockIterator.t := PfcBlockIterator.mk (block_entries b) [].

Module PfcDictEntryIterator.

Record t : Type := mk {
  block_iter : PfcBlockEntryIterator.t;
  parts : list (list N)
}.

(** The loop that keeps the parts that make up a prefix: it returns them, cut
    after the prefix. *)
Fixpoint keep_parts (prefix_len : N) (parts : list (list N)) : list (list N) :=
  match parts with
  | [] => []
  | part :: parts =>
      match prefix_len ?= lenN part with
      | Gt => part :: keep_parts (prefix_len - lenN part) parts
      | Lt => [takeN prefix_len part]
      | Eq => [part]
      end
  end.

Definition next `{BytesSize} (it : t) : option (option PfcDictEntry.t * t) :=
  '(r, block_iter) ← PfcBlockEntryIterator.next (block_iter it);
  match r with
  | Some (prefix_len, bytes) =>
      let kept := if prefix_len =? 0 then [] else keep_parts prefix_len (parts it) in
      let parts := kept ++ [bytes] in
      Some (Some (PfcDictEntry.new_optimized parts), mk block_iter parts)
  | None => Some (None, mk block_iter (parts it))
  end.

(** Draining the iterator. *)
Fixpoint collect `{BytesSize} (fuel : nat) (it : t) : option (list PfcDictEntry.t) :=
  match fuel with
  | O => None
  | S fuel =>
      '(r, it) ← next it;
      match r with
      | None => Some []
      | Some e => es ← collect fuel it; Some (e :: es)
      end
  end.

End PfcDictEntryIterator.

Definition entries (b : PfcBlock.t) : PfcDictEntryIterator.t := PfcDictEntryIterator.mk (block_entries b) [].

(** The first loop of [PfcBlock::entry], for [ix] down to 1: how much of the
    result every string but the last contributes, counted from the start. *)
Fixpoint gather_lengths (ix : nat) (es : list (N * list N)) (last : N) (lengths : list N) : option (list N) :=
  match ix with
  | O => Some lengths
  | S k =>
      '(prefix, _) ← es.[N.of_nat ix];
      let last' := if prefix <? last then prefix else last in
      lengths ← nset lengths (N.of_nat k) last';
      if last' =? 0 then Some lengths else gather_lengths k es last' lengths
  end.

(** The second loop, for [ix] down to 1. *)
Fixpoint subtract_lengths (ix : nat) (lengths : list N) : option (list N) :=
  match ix with
  | O => Some lengths
  | S k =>
      a ← lengths.[N.of_nat ix];
      b ← lengths.[N.of_nat k];
      d ← csub a b;
      lengths ← nset lengths (N.of_nat ix) d;
      subtract_lengths k lengths
  end.

(** The third loop, over the entries and the lengths. *)
Fixpoint take_parts (es : list (N * list N)) (lengths : list N) : option (list (list N)) :=
  match es, lengths with
  | (_, entry) :: es, take :: lengths =>
      part ← slice_to take entry;
      parts ← take_parts es lengths;
      Some (part :: parts)
  | _, _ => Some []
  end.

(** [PfcBlock::entry]: the outer [option] is a panic. *)
Definition block_entry `{BytesSize} (b : PfcBlock.t) (index : N) : option (option PfcDictEntry.t) :=
  if index <? PfcBlock.n_strings b then
    es ← PfcBlockEntryIterator.take_collect (N.to_nat (index + 1)) (block_entries b);
    n ← csub (lenN es) 1;
    let take_prefix_lengths := replicate (N.to_nat n) 0 in
    '(last, _) ← es.[index];
    take_prefix_lengths ← gather_lengths (N.to_nat n) es last take_prefix_lengths;
    take_prefix_lengths ← subtract_lengths (N.to_nat n - 1) take_prefix_lengths;
    '(_, postfix) ← es.[index];
    parts ← take_parts es take_prefix_lengths;
    Some (Some (PfcDictEntry.new_optimized (parts ++ [postfix])))
  else Some None.

(** [PfcBlock::get]. *)
Definition block_get `{BytesSize} (b : PfcBlock.t) (index : N) : option (option (list N)) :=
  e ← block_entry b index;
  match e with
  | Some entry => s ← PfcDictEntry.to_string entry; Some (Some s)
  | None => Some None
  end.

(** ** What is stored *)

Definition suffix (prev s : list N) : list N := dropN (find_common_prefix prev s) s.

(** The bytes of the strings after the first one. *)
Fixpoint tail_bytes (prev : list N) (ss : list (list N)) : list N :=
  match ss with
  | [] => []
  | s :: ss => (vbyte (find_common_prefix prev s) ++ suffix prev s ++ [0]) ++ tail_bytes s ss
  end.

Definition block_bytes (ss : list (list N)) : list N :=
  match ss with
  | [] => []
  | s :: ss => (s ++ [0]) ++ tail_bytes s ss
  end.

(** The prefix lengths and suffixes. *)
Fixpoint tail_pieces (prev : list N) (ss : list (list N)) : list (N * list N) :=
  match ss with
  | [] => []
  | s :: ss => (find_common_prefix prev s, suffix prev s) :: tail_pieces s ss
  end.

Definition pieces (ss : list (list N)) : list (N * list N) :=
  match ss with
  | [] => []
  | s :: ss => (0, s) :: tail_pieces s ss
  end.

(** A string of a dictionary. *)
Definition dict_string (s : list N) : Prop := is_entry s /\ lenN s < 2 ^ 64.

(** [b] is a block of which the first strings are [ss]. *)
Definition block_repr (b : PfcBlock.t) (ss : list (list N)) : Prop :=
  ss <> [] /\ Forall dict_string ss /\ StronglySorted lex_lt ss /\ lenN ss <= PfcBlock.n_strings b /\
  exists rest, PfcBlock.encoded_strings b = block_bytes ss ++ rest /\ Forall is_byte rest.

(** [e] is the entry of the string [s]. *)
Definition entry_repr (e : PfcDictEntry.t) (s : list N) : Prop :=
  concat e = s /\ e <> [] /\ (e = [[]] \/ last e <> Some []).

(** ** Entries *)

Lemma entry_len e : PfcDictEntry.len e = lenN (concat e).
Proof.
  induction e as [|p e IH]; [done|]. cbn [concat PfcDictEntry.len foldr]. rewrite lenN_app. by rewrite <- IH.
Qed.

Lemma optimize_repr `{BytesSize} e s : entry_repr e s -> entry_repr (PfcDictEntry.new_optimized e) s.
Proof.
  intros (Hc & Hne & Hl). unfold PfcDictEntry.new_optimized, PfcDictEntry.optimize.
  destruct (_ <? _); [|done]. unfold entry_repr. rewrite Hc. split; [simpl; by rewrite app_nil_r|]. split; [done|].
  destruct s as [|x s]; [by left|by right].
Qed.

(** The rest of an entry holds bytes as long as parts are left. *)
Lemma rest_nonempty part (it : list (list N)) : it <> [] -> last (part :: it) <> Some [] -> concat it <> [].
Proof.
  intros Hit Hl E. destruct (exists_last Hit) as (it' & x & ->). rewrite app_comm_cons, last_snoc in Hl.
  rewrite concat_app in E. apply app_eq_nil in E as [_ E]. simpl in E. rewrite app_nil_r in E. by subst.
Qed.

Lemma last_cons_ne {A} (x : A) l : l <> [] -> last (x :: l) = last l.
Proof. by destruct l. Qed.

Lemma buf_eq_loop_spec it : forall part b, last (part :: it) <> Some [] ->
  lenN (part ++ concat it) = lenN b ->
  PfcDictEntry.buf_eq_loop part it b = Some (bool_decide (part ++ concat it = b)).
Proof.
  induction it as [|p it IH]; intros part b Hl Hlen.
  - simpl in Hlen |- *. rewrite app_nil_r in *. rewrite Hlen, N.compare_refl.
    destruct (decide (part = b)); [by rewrite bool_decide_true|by rewrite bool_decide_false].
  - assert (Hne : concat (p :: it) <> []) by (by apply (rest_nonempty part)).
    assert (Hlt : lenN part < lenN b).
    { rewrite <- Hlen, lenN_app. destruct (concat (p :: it)); [done|rewrite lenN_cons; lia]. }
    cbn [PfcDictEntry.buf_eq_loop]. rewrite (proj2 (N.compare_lt_iff _ _) Hlt).
    destruct (decide (part = takeN (lenN part) b)) as [Heq|Hneq].
    + rewrite IH; [| by rewrite last_cons_ne in Hl |].
      * f_equal. apply bool_decide_ext. rewrite <- (takeN_dropN (lenN part) b) at 2. rewrite <- Heq.
        cbn [concat]. split; [by intros ->|]. by intros ?%app_inv_head.
      * rewrite lenN_dropN. rewrite lenN_app in Hlen. cbn [concat] in Hlen. lia.
    + rewrite bool_decide_false; [done|]. intros <-. apply Hneq. by rewrite takeN_app.
Qed.

Lemma buf_eq_spec e s b : entry_repr e s -> PfcDictEntry.buf_eq e b = Some (bool_decide (s = b)).
Proof.
  intros (<- & Hne & Hl). unfold PfcDictEntry.buf_eq. rewrite entry_len.
  destruct (N.eqb_spec (lenN (concat e)) (lenN b)) as [Hlen|Hlen]; cbn [negb].
  - destruct (N.eqb_spec (lenN (concat e)) 0) as [Hz|Hz].
    + destruct (concat e); [|rewrite lenN_cons in Hz; lia].
      destruct b; [by rewrite bool_decide_true|rewrite lenN_cons, lenN_nil in Hlen; lia].
    + destruct e as [|part it]; [done|]. apply buf_eq_loop_spec; [|done].
      destruct Hl as [Hl|Hl]; [by rewrite Hl in Hz|done].
  - rewrite bool_decide_false; [done|]. intros <-. by apply Hlen.
Qed.

(** The state of the comparison: what is left of both strings. *)
Lemma cmp_loop_spec fuel : forall p1 it1 p2 it2, (length it1 + length it2 < fuel)%nat ->
  (it1 = [] \/ last it1 <> Some []) -> (it2 = [] \/ last it2 <> Some []) ->
  PfcDictEntry.cmp_loop fuel p1 it1 p2 it2 = Some (lex_cmp (p1 ++ concat it1) (p2 ++ concat it2)).
Proof.
  assert (Hrest : forall it : list (list N), it <> [] -> (it = [] \/ last it <> Some []) -> concat it <> []).
  { intros it Hne [?|Hl]; [done|]. apply (rest_nonempty []); [done|]. by rewrite last_cons_ne. }
  assert (Htail : forall p (it : list (list N)), (p :: it = [] \/ last (p :: it) <> Some []) ->
    it = [] \/ last it <> Some []).
  { intros p it [?|Hl]; [done|]. destruct it; [by left|right]. by rewrite last_cons_ne in Hl. }
  induction fuel as [|fuel IH]; intros p1 it1 p2 it2 Hf H1 H2; [lia|]. cbn [PfcDictEntry.cmp_loop].
  destruct (N.compare_spec (lenN p1) (lenN p2)) as [Hlen|Hlen|Hlen].
  - rewrite lex_cmp_parts by (unfold lenN in Hlen; lia). destruct (lex_cmp p1 p2); [|done|done].
    destruct it1 as [|q1 it1], it2 as [|q2 it2]; [done| | |].
    + specialize (Hrest (q2 :: it2) ltac:(done) H2). cbn [concat] in *. by destruct (q2 ++ concat it2).
    + specialize (Hrest (q1 :: it1) ltac:(done) H1). cbn [concat] in *. by destruct (q1 ++ concat it1).
    + rewrite IH; [done|simpl in Hf; lia|by eapply Htail|by eapply Htail].
  - rewrite <- (takeN_dropN (lenN p1) p2) at 2. rewrite <- app_assoc.
    rewrite lex_cmp_parts by (apply Nat2N.inj; change (lenN p1 = lenN (takeN (lenN p1) p2)); rewrite lenN_takeN; lia).
    destruct (lex_cmp p1 (takeN (lenN p1) p2)); [|done|done]. destruct it1 as [|q1 it1].
    + assert (Hd : 0 < lenN (dropN (lenN p1) p2)) by (rewrite lenN_dropN; lia).
      destruct (dropN (lenN p1) p2); [rewrite lenN_nil in Hd; lia|done].
    + rewrite IH; [done|simpl in Hf; lia|by eapply Htail|done].
  - rewrite <- (takeN_dropN (lenN p2) p1) at 2. rewrite <- app_assoc.
    rewrite lex_cmp_parts by (apply Nat2N.inj; change (lenN (takeN (lenN p2) p1) = lenN p2); rewrite lenN_takeN; lia).
    destruct (lex_cmp (takeN (lenN p2) p1) p2); [|done|done]. destruct it2 as [|q2 it2].
    + assert (Hd : 0 < lenN (dropN (lenN p2) p1)) by (rewrite lenN_dropN; lia).
      destruct (dropN (lenN p2) p1); [rewrite lenN_nil in Hd; lia|done].
    + rewrite IH; [done|simpl in Hf; lia|done|by eapply Htail].
Qed.

Lemma cmp_spec e1 s1 e2 s2 : entry_repr e1 s1 -> entry_repr e2 s2 ->
  PfcDictEntry.cmp e1 e2 = Some (lex_cmp s1 s2).
Proof.
  intros (<- & Hne1 & Hl1) (<- & Hne2 & Hl2). unfold PfcDictEntry.cmp. rewrite !entry_len.
  destruct (_ && _) eqn:E.
  { apply andb_true_iff in E as [E1%N.eqb_eq E2%N.eqb_eq].
    assert (Hz : forall l : list N, lenN l = 0 -> l = []) by (intros [|x l]; [done|rewrite lenN_cons; lia]).
    by rewrite (Hz _ E1), (Hz _ E2). }
  clear E. assert (Htail : forall p (it : list (list N)), p :: it = [[]] \/ last (p :: it) <> Some [] ->
    it = [] \/ last it <> Some []).
  { intros p it [[= _ ->]|Hl]; [by left|]. destruct it; [by left|right]. by rewrite last_cons_ne in Hl. }
  destruct e1 as [|p1 it1], e2 as [|p2 it2]; try done.
  apply cmp_loop_spec; [simpl; lia|by eapply Htail|by eapply Htail].
Qed.

Lemma eq_spec e1 s1 e2 s2 : entry_repr e1 s1 -> entry_repr e2 s2 ->
  PfcDictEntry.eq e1 e2 = Some (bool_decide (s1 = s2)).
Proof.
  intros H1 H2. unfold PfcDictEntry.eq. rewrite (cmp_spec _ _ _ _ H1 H2), bind_Some_eq, !entry_len.
  destruct H1 as (-> & _), H2 as (-> & _). destruct (N.eqb_spec (lenN s1) (lenN s2)) as [Hl|Hl]; cbn [negb].
  - f_equal. destruct (lex_cmp s1 s2) eqn:E.
    + apply lex_cmp_eq in E. by rewrite bool_decide_true.
    + rewrite bool_decide_false; [done|]. intros ->. by rewrite lex_cmp_refl in E.
    + rewrite bool_decide_false; [done|]. intros ->. by rewrite lex_cmp_refl in E.
  - rewrite bool_decide_false; [done|]. by intros ->.
Qed.

(** ** Iterating over a block *)

Lemma entry_no_nul s : dict_string s -> Forall (fun b => b <> 0) s.
Proof. by intros [[_ H] _]. Qed.

Lemma entry_bytes s : dict_string s -> Forall is_byte s.
Proof. by intros [[[H _] _] _]. Qed.

Lemma suffix_spec prev s : takeN (find_common_prefix prev s) prev ++ suffix prev s = s.
Proof. unfold suffix. rewrite common_take. apply takeN_dropN. Qed.

Lemma suffix_Forall (P : N -> Prop) prev s : Forall P s -> Forall P (suffix prev s).
Proof. apply Forall_drop. Qed.

Lemma suffix_nonempty prev s : lex_lt prev s -> suffix prev s <> [].
Proof.
  intros H%common_lt_r E. assert (Hl : lenN (suffix prev s) = 0) by (by rewrite E).
  unfold suffix in Hl. rewrite lenN_dropN in Hl. lia.
Qed.

Lemma tail_bytes_bytes ss : forall prev, Forall dict_string ss -> Forall is_byte (tail_bytes prev ss).
Proof.
  induction ss as [|s ss IH]; intros prev H; [constructor|]. apply Forall_cons in H as [Hs Hss].
  cbn [tail_bytes]. repeat (apply Forall_app; split); [apply vbyte_ref_bytes| |by repeat constructor|by apply IH].
  apply suffix_Forall. by apply entry_bytes.
Qed.

Section block.
Context (data rest : list N) (n_strings : N) (Hrest : Forall is_byte rest).
Import PfcBlockEntryIterator.

(** The iterator is before the strings [ss], of which [prev] is the predecessor. *)
Definition entry_inv (it : t) (prev : list N) (ss : list (list N)) : Prop :=
  PfcBlock.encoded_strings (block it) = data /\ PfcBlock.n_strings (block it) = n_strings /\
  count it + lenN ss <= n_strings /\ 0 < pos it /\ 0 < count it /\
  exists done, data = done ++ tail_bytes prev ss ++ rest /\ lenN done = pos it.

Lemma entry_next_head s ss b : b = PfcBlock.mk data n_strings -> dict_string s ->
  data = block_bytes (s :: ss) ++ rest -> lenN (s :: ss) <= n_strings ->
  exists it, next (block_entries b) = Some (Some (0, s), it) /\ entry_inv it s ss /\ count it = 1.
Proof.
  intros -> Hs Hdata Hn. pose proof (entry_no_nul s Hs) as Hnul. cbn [block_bytes] in Hdata.
  assert (Hhead : PfcBlock.head (PfcBlock.mk data n_strings) = Some s).
  { unfold PfcBlock.head. cbn [PfcBlock.encoded_strings]. rewrite Hdata, <- !app_assoc. cbn [app].
    rewrite position_app by done. rewrite bind_Some_eq, slice_range_Some by (rewrite lenN_app; lia).
    rewrite dropN_0, N.sub_0_r. by rewrite takeN_app. }
  unfold next, block_entries. cbn [pos block]. rewrite N.eqb_refl, Hhead, bind_Some_eq.
  eexists. split; [done|]. split; [|done]. unfold entry_inv. cbn [block count pos PfcBlock.encoded_strings PfcBlock.n_strings].
  rewrite lenN_cons in Hn. repeat (split; [first [done|lia]|]).
  exists (s ++ [0]). split; [by rewrite Hdata, <- app_assoc|]. rewrite lenN_app. done.
Qed.

Lemma entry_next_piece it prev s ss : entry_inv it prev (s :: ss) -> Forall dict_string (s :: ss) ->
  exists it', next it = Some (Some (find_common_prefix prev s, suffix prev s), it') /\
    entry_inv it' s ss /\ count it' = count it + 1.
Proof.
  intros (Hd & Hns & Hn & Hp & Hc & pre & Hdata & Hpre) Hss. apply Forall_cons in Hss as [Hs Hss].
  rewrite lenN_cons in Hn. unfold next. rewrite Hd, Hns.
  replace (pos it =? 0) with false by (symmetry; apply N.eqb_neq; lia).
  replace (count it <? n_strings) with true by (symmetry; apply N.ltb_lt; lia).
  cbn [tail_bytes] in Hdata. set (v := vbyte (find_common_prefix prev s)) in *.
  set (x := suffix prev s) in *. set (tl := tail_bytes s ss) in *.
  assert (Hdata' : data = pre ++ v ++ x ++ 0 :: (tl ++ rest)) by (rewrite Hdata, <- !app_assoc; done).
  assert (Hx : Forall (fun b => b <> 0) x) by (apply suffix_Forall; by apply entry_no_nul).
  assert (Hcl : find_common_prefix prev s < 2 ^ 64).
  { pose proof (common_le_r prev s). destruct Hs as [_ ?]. lia. }
  rewrite <- Hpre. rewrite slice_from_Some by (rewrite Hdata', lenN_app; lia). rewrite bind_Some_eq.
  assert (Hd1 : dropN (lenN pre) data = v ++ x ++ 0 :: (tl ++ rest)) by (by rewrite Hdata', dropN_app).
  rewrite Hd1. unfold v at 1. rewrite decode_vbyte; [|done|].
  2:{ apply Forall_app. split; [apply suffix_Forall; by apply entry_bytes|]. constructor; [done|].
      apply Forall_app. split; [by apply tail_bytes_bytes|done]. }
  cbn [unwrap]. rewrite bind_Some_eq. fold v. cbn [fst snd]. rewrite <- lenN_app.
  assert (Hdata2 : data = (pre ++ v) ++ x ++ 0 :: (tl ++ rest)) by (by rewrite Hdata', <- app_assoc).
  rewrite slice_from_Some by (rewrite Hdata2, !lenN_app; lia). rewrite bind_Some_eq.
  assert (Hd2 : dropN (lenN (pre ++ v)) data = x ++ 0 :: (tl ++ rest)) by (by rewrite Hdata2, dropN_app).
  rewrite Hd2, position_app by done. rewrite bind_Some_eq.
  rewrite slice_range_Some by (rewrite Hdata2, !lenN_app; lia). rewrite bind_Some_eq.
  replace (lenN (pre ++ v) + lenN x - lenN (pre ++ v)) with (lenN x) by lia.
  rewrite Hd2, takeN_app. eexists. split; [done|]. split; [|done].
  unfold entry_inv. cbn [block count pos]. repeat (split; [first [done|lia]|]).
  exists ((pre ++ v) ++ x ++ [0]). split; [rewrite Hdata2, <- !app_assoc; done|].
  rewrite !lenN_app. change (lenN [0]) with 1. lia.
Qed.

Lemma entry_next_end it prev : entry_inv it prev [] -> n_strings <= count it -> next it = Some (None, it).
Proof.
  intros (_ & Hns & _ & Hp & _) Hc. unfold next. rewrite Hns.
  replace (pos it =? 0) with false by (symmetry; apply N.eqb_neq; lia).
  by replace (count it <? n_strings) with false by (symmetry; by apply N.ltb_ge).
Qed.

Lemma take_pieces k : forall it prev ss, entry_inv it prev ss -> Forall dict_string ss -> (k <= length ss)%nat ->
  take_collect k it = Some (take k (tail_pieces prev ss)).
Proof.
  induction k as [|k IH]; intros it prev ss Hit Hss Hk; [done|]. destruct ss as [|s ss]; [simpl in Hk; lia|].
  destruct (entry_next_piece it prev s ss Hit Hss) as (it' & Hn & Hit' & _). cbn [take_collect tail_pieces take].
  rewrite Hn, bind_Some_eq. cbn [fst snd]. apply Forall_cons in Hss as [_ Hss]. simpl in Hk.
  by rewrite (IH it' s ss Hit' Hss ltac:(lia)).
Qed.
End block.

Section block_repr.
Context (b : PfcBlock.t) (ss : list (list N)) (Hb : block_repr b ss).

Lemma take_block_pieces k : (k <= length ss)%nat ->
  PfcBlockEntryIterator.take_collect k (block_entries b) = Some (take k (pieces ss)).
Proof.
  destruct Hb as (Hne & Hss & _ & Hn & rest & Hdata & Hrest). destruct ss as [|s ss']; [done|].
  destruct b as [data n]. cbn [PfcBlock.encoded_strings PfcBlock.n_strings] in *.
  destruct (entry_next_head data rest n s ss' _ eq_refl (Forall_inv Hss) Hdata Hn) as (it & Hnext & Hit & _).
  destruct k as [|k]; intros Hk; [done|]. cbn [PfcBlockEntryIterator.take_collect pieces take].
  rewrite Hnext, bind_Some_eq. cbn [fst snd]. simpl in Hk.
  apply Forall_cons in Hss as [_ Hss]. by rewrite (take_pieces data rest n Hrest k it s ss' Hit Hss ltac:(lia)).
Qed.
End block_repr.

(** *** The strings of a block *)

Lemma strings_loop data rest n ss : Forall is_byte rest -> forall it prev,
  entry_inv data rest n (PfcBlockIterator.entry_iterator it) prev ss -> PfcBlockIterator.string it = prev ->
  Forall dict_string ss -> PfcBlockEntryIterator.count (PfcBlockIterator.entry_iterator it) + lenN ss = n ->
  PfcBlockIterator.collect (S (length ss)) it = Some ss.
Proof.
  intros Hrest. induction ss as [|s ss IH]; intros it prev Hit Hprev Hss Hn.
  - cbn [length PfcBlockIterator.collect]. unfold PfcBlockIterator.next.
    rewrite (entry_next_end data rest n _ prev Hit) by (rewrite lenN_nil in Hn; lia). by rewrite !bind_Some_eq.
  - destruct (entry_next_piece data rest n Hrest _ prev s ss Hit Hss) as (it' & Hnext & Hit' & Hc).
    remember (S (length ss)) as fuel eqn:Ef. cbn [length]. rewrite <- Ef. cbn [PfcBlockIterator.collect].
    unfold PfcBlockIterator.next. rewrite Hnext, !bind_Some_eq. cbn [fst snd].
    rewrite Hprev, slice_to_Some by apply common_le_l. rewrite bind_Some_eq, suffix_spec.
    apply Forall_cons in Hss as [[[Hs _] _] Hss]. rewrite from_utf8_string, !bind_Some_eq by done. cbn [fst snd].
    subst fuel. rewrite (IH (PfcBlockIterator.mk it' s) s); [done|done|done|done|].
    cbn [PfcBlockIterator.entry_iterator]. rewrite lenN_cons in Hn. lia.
Qed.

Lemma strings_block b ss : block_repr b ss -> PfcBlock.n_strings b = lenN ss ->
  PfcBlockIterator.collect (S (length ss)) (strings b) = Some ss.
Proof.
  intros (Hne & Hss & _ & Hn & rest & Hdata & Hrest) Hlen. destruct ss as [|s ss]; [done|].
  destruct b as [data n]. cbn [PfcBlock.encoded_strings PfcBlock.n_strings] in *. subst n.
  destruct (entry_next_head data rest _ s ss _ eq_refl (Forall_inv Hss) Hdata Hn) as (it & Hnext & Hit & Hc).
  remember (S (length ss)) as fuel eqn:Ef. cbn [length]. rewrite <- Ef. cbn [PfcBlockIterator.collect].
  unfold PfcBlockIterator.next, strings. cbn [PfcBlockIterator.entry_iterator PfcBlockIterator.string].
  rewrite Hnext, !bind_Some_eq. cbn [fst snd]. rewrite slice_to_Some by done. rewrite bind_Some_eq, takeN_0.
  cbn [app]. apply Forall_cons in Hss as [[[Hs _] _] Hss].
  rewrite from_utf8_string, !bind_Some_eq by done. cbn [fst snd]. subst fuel.
  rewrite (strings_loop data rest (lenN (s :: ss)) ss Hrest _ s); [done|done|done|done|].
  cbn [PfcBlockIterator.entry_iterator]. rewrite Hc, lenN_cons. lia.
Qed.

(** *** The entries of a block *)

Lemma keep_parts_concat ps : forall p, p <= lenN (concat ps) ->
  concat (PfcDictEntryIterator.keep_parts p ps) = takeN p (concat ps).
Proof.
  induction ps as [|part ps IH]; intros p Hp; cbn [PfcDictEntryIterator.keep_parts concat] in *.
  - rewrite lenN_nil in Hp. by replace p with 0 by lia.
  - rewrite lenN_app in Hp. destruct (N.compare_spec p (lenN part)) as [->|Hlt|Hgt].
    + cbn [concat]. by rewrite app_nil_r, takeN_app.
    + cbn [concat]. rewrite app_nil_r. unfold takeN, lenN in *. by rewrite take_app_le by lia.
    + cbn [concat]. rewrite IH by lia. unfold takeN, lenN in *. rewrite take_app_ge by lia. do 2 f_equal. lia.
Qed.

Lemma entry_next_repr ps prev s : concat ps = prev -> lex_lt prev s ->
  let c := find_common_prefix prev s in
  entry_repr ((if c =? 0 then [] else PfcDictEntryIterator.keep_parts c ps) ++ [suffix prev s]) s.
Proof.
  intros Hps Hlt c. split; [|split].
  - rewrite concat_app. cbn [concat]. rewrite app_nil_r. rewrite <- (suffix_spec prev s) at 2. f_equal. fold c.
    destruct (N.eqb_spec c 0) as [->|Hc]; [done|]. rewrite keep_parts_concat by (rewrite Hps; apply common_le_l).
    by rewrite Hps.
  - destruct (if c =? 0 then _ else _); done.
  - right. rewrite last_snoc. intros [= H]. by apply (suffix_nonempty prev s).
Qed.

Lemma entries_loop `{BytesSize} data rest n ss : Forall is_byte rest -> forall it prev,
  entry_inv data rest n (PfcDictEntryIterator.block_iter it) prev ss ->
  concat (PfcDictEntryIterator.parts it) = prev ->
  Forall dict_string ss -> StronglySorted lex_lt (prev :: ss) ->
  PfcBlockEntryIterator.count (PfcDictEntryIterator.block_iter it) + lenN ss = n ->
  exists es, PfcDictEntryIterator.collect (S (length ss)) it = Some es /\ Forall2 entry_repr es ss.
Proof.
  intros Hrest. induction ss as [|s ss IH]; intros it prev Hit Hprev Hss Hsort Hn.
  - exists []. split; [|constructor]. cbn [length PfcDictEntryIterator.collect]. unfold PfcDictEntryIterator.next.
    rewrite (entry_next_end data rest n _ prev Hit) by (rewrite lenN_nil in Hn; lia). by rewrite !bind_Some_eq.
  - destruct (entry_next_piece data rest n Hrest _ prev s ss Hit Hss) as (it' & Hnext & Hit' & Hc).
    apply StronglySorted_inv in Hsort as [Hsort Hlt]. apply Forall_inv in Hlt.
    pose proof (entry_next_repr _ prev s Hprev Hlt) as Hr. cbv zeta in Hr.
    remember (S (length ss)) as fuel eqn:Ef. cbn [length]. rewrite <- Ef. cbn [PfcDictEntryIterator.collect].
    unfold PfcDictEntryIterator.next. rewrite Hnext, !bind_Some_eq. cbn [fst snd].
    set (parts' := _ ++ [suffix prev s]) in *. apply Forall_cons in Hss as [_ Hss].
    destruct (IH (PfcDictEntryIterator.mk it' parts') s) as (es & Hes & Hes'); [done|by destruct Hr|done|done| |].
    { cbn [PfcDictEntryIterator.block_iter]. rewrite lenN_cons in Hn. lia. }
    subst fuel. rewrite Hes, bind_Some_eq. eexists. split; [done|]. constructor; [by apply optimize_repr|done].
Qed.

Lemma head_entry_repr s : entry_repr [s] s.
Proof.
  split; [simpl; by rewrite app_nil_r|]. split; [done|]. destruct s; [by left|by right].
Qed.

Lemma entries_block `{BytesSize} b ss : block_repr b ss -> PfcBlock.n_strings b = lenN ss ->
  exists es, PfcDictEntryIterator.collect (S (length ss)) (entries b) = Some es /\ Forall2 entry_repr es ss.
Proof.
  intros (Hne & Hss & Hsort & Hn & rest & Hdata & Hrest) Hlen. destruct ss as [|s ss]; [done|].
  destruct b as [data n]. cbn [PfcBlock.encoded_strings PfcBlock.n_strings] in *. subst n.
  destruct (entry_next_head data rest _ s ss _ eq_refl (Forall_inv Hss) Hdata Hn) as (it & Hnext & Hit & Hc).
  remember (S (length ss)) as fuel eqn:Ef. cbn [length]. rewrite <- Ef. cbn [PfcDictEntryIterator.collect].
  unfold PfcDictEntryIterator.next, entries. cbn [PfcDictEntryIterator.block_iter PfcDictEntryIterator.parts].
  rewrite Hnext, !bind_Some_eq. cbn [fst snd]. rewrite N.eqb_refl. cbn [app].
  apply Forall_cons in Hss as [_ Hss].
  destruct (entries_loop data rest (lenN (s :: ss)) ss Hrest (PfcDictEntryIterator.mk it [s]) s) as (es & Hes & Hes');
    [done|by simpl; rewrite app_nil_r|done|done|cbn [PfcDictEntryIterator.block_iter]; rewrite Hc, lenN_cons; lia|].
  subst fuel.  rewrite Hes, bind_Some_eq. eexists. split; [done|].
  constructor; [apply optimize_repr, head_entry_repr|done].
Qed.

(** *** One entry of a block *)

Lemma nset_lookup {A} (l : list A) k x : (k < length l)%nat -> nset l (N.of_nat k) x = Some (<[k := x]> l).
Proof.
  intros Hk. unfold nset. rewrite Nat2N.id. replace (N.of_nat k <? lenN l) with true; [done|].
  symmetry. apply N.ltb_lt. unfold lenN. lia.
Qed.

Lemma nget_lookup {A} (l : list A) k : l.[N.of_nat k] = l !! k.
Proof. unfold nget. by rewrite Nat2N.id. Qed.

(** How many bytes of the strings up to the [k]-th end up in the [n]-th, where
    [c] gives the shared prefix lengths: the least of those after [k]. *)
Fixpoint least (c : nat -> N) (k d : nat) : N :=
  match d with
  | O => c k
  | S d => N.min (c (S k)) (least c (S k) d)
  end.

Section lengths.
Context (c : nat -> N) (x : nat -> list N) (n : nat) (es : list (N * list N)).
Context (Hes : forall k, (k <= n)%nat -> es !! k = Some (c k, x k)).

Definition kept (k : nat) : N := least c k (n - k).

Lemma kept_last : kept n = c n.
Proof. unfold kept. by rewrite Nat.sub_diag. Qed.

Lemma kept_step k : (k < n)%nat -> kept k = N.min (c (S k)) (kept (S k)).
Proof. intros Hk. unfold kept. by replace (n - k)%nat with (S (n - S k)) by lia. Qed.

Lemma kept_mono j k : (j <= k <= n)%nat -> kept j <= kept k.
Proof.
  induction k as [|k IH]; intros H; [by replace j with O by lia|].
  destruct (decide (j = S k)) as [->|Hj]; [done|]. etrans; [apply IH; lia|]. rewrite (kept_step k) by lia. lia.
Qed.

Lemma gather_spec k : forall lengths, (k <= n)%nat -> length lengths = n ->
  (forall j, (j < k)%nat -> lengths !! j = Some 0) ->
  (forall j, (k <= j < n)%nat -> lengths !! j = Some (kept j)) ->
  exists lengths', gather_lengths k es (kept k) lengths = Some lengths' /\ length lengths' = n /\
    forall j, (j < n)%nat -> lengths' !! j = Some (kept j).
Proof.
  induction k as [|k IH]; intros lengths Hk Hl Hz Hd.
  - exists lengths. split; [done|]. split; [done|]. intros j Hj. apply Hd. lia.
  - cbn [gather_lengths]. rewrite nget_lookup, (Hes (S k)), bind_Some_eq by lia.
    replace (if c (S k) <? kept (S k) then c (S k) else kept (S k)) with (kept k).
    2:{ rewrite (kept_step k) by lia. destruct (N.ltb_spec (c (S k)) (kept (S k))); lia. }
    rewrite nset_lookup by lia. rewrite bind_Some_eq.
    assert (Hd' : forall j, (k <= j < n)%nat -> <[k := kept k]> lengths !! j = Some (kept j)).
    { intros j Hj. destruct (decide (j = k)) as [->|?]; [by rewrite list_lookup_insert_eq by lia|].
      rewrite list_lookup_insert_ne by done. apply Hd. lia. }
    destruct (N.eqb_spec (kept k) 0) as [Hk0|Hk0].
    + eexists. split; [done|]. rewrite length_insert. split; [done|]. intros j Hj.
      destruct (decide (k <= j)%nat) as [?|?]; [by apply Hd'|]. rewrite list_lookup_insert_ne by lia.
      rewrite Hz by lia. f_equal. pose proof (kept_mono j k). lia.
    + apply IH; [lia|by rewrite length_insert| |done]. intros j Hj. rewrite list_lookup_insert_ne by lia. apply Hz. lia.
Qed.

(** What the [k]-th string contributes. *)
Definition share (k : nat) : N := match k with O => kept 0 | S j => kept (S j) - kept j end.

Lemma subtract_spec k : forall lengths, (k < n)%nat -> length lengths = n ->
  (forall j, (j <= k)%nat -> lengths !! j = Some (kept j)) ->
  (forall j, (k < j < n)%nat -> lengths !! j = Some (share j)) ->
  exists lengths', subtract_lengths k lengths = Some lengths' /\ length lengths' = n /\
    forall j, (j < n)%nat -> lengths' !! j = Some (share j).
Proof.
  induction k as [|k IH]; intros lengths Hk Hl Hm Hd.
  - exists lengths. split; [done|]. split; [done|]. intros [|j] Hj; [by apply Hm|apply Hd; lia].
  - cbn [subtract_lengths]. rewrite !nget_lookup, !Hm, !bind_Some_eq by lia.
    pose proof (kept_mono k (S k) ltac:(lia)) as Hle. rewrite csub_Some, bind_Some_eq by done.
    rewrite nset_lookup, bind_Some_eq by lia. apply IH; [lia|by rewrite length_insert| |].
    + intros j Hj. rewrite list_lookup_insert_ne by lia. apply Hm. lia.
    + intros j Hj. destruct (decide (j = S k)) as [->|?]; [by rewrite list_lookup_insert_eq by lia|].
      rewrite list_lookup_insert_ne by done. apply Hd. lia.
Qed.

(** The strings, and how they share their prefixes. *)
Context (s : nat -> list N) (Hs0 : s 0%nat = x 0%nat).
Context (Hs : forall k, (k < n)%nat -> s (S k) = takeN (c (S k)) (s k) ++ x (S k)).
Context (Hc : forall k, (k < n)%nat -> c (S k) <= lenN (s k)).

Lemma share_bound k : (k < n)%nat -> kept k <= lenN (s k).
Proof. intros Hk. rewrite kept_step by done. pose proof (Hc k Hk). lia. Qed.

Lemma share_step k : (S k < n)%nat -> takeN (kept (S k)) (s (S k)) = takeN (kept k) (s k) ++ takeN (share (S k)) (x (S k)).
Proof.
  intros Hk. rewrite (Hs k) by lia. rewrite (kept_step k) by lia. cbn [share]. rewrite (kept_step k) by lia.
  pose proof (Hc k ltac:(lia)) as Hck. generalize dependent (c (S k)). intros ck Hck. unfold takeN, lenN in *.
  destruct (N.le_ge_cases (kept (S k)) ck) as [H|H].
  - rewrite N.min_r, N.sub_diag by done. rewrite take_0, app_nil_r.
    rewrite take_app_le by (rewrite length_take; lia). rewrite take_take. f_equal. lia.
  - rewrite N.min_l by done. rewrite take_app_ge by (rewrite length_take; lia). do 2 f_equal. rewrite length_take. lia.
Qed.

Lemma share_le k : (k < n)%nat -> share k <= lenN (x k).
Proof.
  intros Hk. pose proof (share_bound k Hk) as Hb. destruct k as [|k]; [by rewrite Hs0 in Hb|].
  rewrite (Hs k), lenN_app, lenN_takeN in Hb by lia. cbn [share]. rewrite (kept_step k) by lia.
  pose proof (Hc k ltac:(lia)). lia.
Qed.

Lemma take_parts_snoc es' : forall lengths ps c' x' m, take_parts es' lengths = Some ps ->
  length es' = length lengths -> m <= lenN x' ->
  take_parts (es' ++ [(c', x')]) (lengths ++ [m]) = Some (ps ++ [takeN m x']).
Proof using.
  induction es' as [|[c0 x0] es' IH]; intros [|l lengths] ps c' x' m H Hlen Hm; try done; cbn [take_parts app] in *.
  - injection H as <-. by rewrite slice_to_Some.
  - destruct (slice_to l x0) as [p0|]; [|done]. rewrite bind_Some_eq in H |- *.
    destruct (take_parts es' lengths) as [ps'|] eqn:E; [|done]. rewrite bind_Some_eq in H. injection H as <-.
    by rewrite (IH _ ps' c' x' m E) by (simpl in Hlen; lia || done).
Qed.

Lemma take_parts_prefix k : forall lengths, (forall j, (j < n)%nat -> lengths !! j = Some (share j)) -> (0 < k <= n)%nat ->
  exists ps, take_parts (take k es) (take k lengths) = Some ps /\ concat ps = takeN (kept (k - 1)) (s (k - 1)).
Proof.
  induction k as [|k IH]; intros lengths Hl Hk; [lia|].
  rewrite (take_S_r _ k (c k, x k)) by (apply Hes; lia). rewrite (take_S_r _ k (share k)) by (apply Hl; lia).
  replace (S k - 1)%nat with k by lia. pose proof (share_le k ltac:(lia)) as Hle.
  assert (Hlen : length (take k es) = length (take k lengths)).
  { rewrite !length_take. pose proof (lookup_lt_Some _ _ _ (Hes k ltac:(lia))).
    pose proof (lookup_lt_Some _ _ _ (Hl k ltac:(lia))). lia. }
  destruct k as [|k].
  - eexists. split; [by apply take_parts_snoc|]. cbn [concat app share]. by rewrite app_nil_r, Hs0.
  - destruct (IH lengths Hl ltac:(lia)) as (ps & Hps & Hcat). eexists. split; [by apply take_parts_snoc|].
    rewrite concat_app, Hcat. cbn [concat]. rewrite app_nil_r. replace (S k - 1)%nat with k by lia.
    symmetry. apply share_step. lia.
Qed.

End lengths.

(** The strings of a block by their index. *)
Definition string_at (ss : list (list N)) (k : nat) : list N := default [] (ss !! k).

Definition common_at (ss : list (list N)) (k : nat) : N :=
  match k with O => 0 | S j => find_common_prefix (string_at ss j) (string_at ss k) end.

Definition suffix_at (ss : list (list N)) (k : nat) : list N :=
  match k with O => string_at ss 0 | S j => suffix (string_at ss j) (string_at ss k) end.

Lemma tail_pieces_lookup ss : forall prev k, (k < length ss)%nat ->
  tail_pieces prev ss !! k = Some (common_at (prev :: ss) (S k), suffix_at (prev :: ss) (S k)).
Proof.
  induction ss as [|s ss IH]; intros prev k Hk; [simpl in Hk; lia|]. destruct k as [|k]; [done|].
  cbn [tail_pieces]. simpl in Hk. cbn [lookup list_lookup]. change (list_lookup k ?l) with (l !! k).
  rewrite IH by lia. done.
Qed.

Lemma pieces_lookup ss k : (k < length ss)%nat -> pieces ss !! k = Some (common_at ss k, suffix_at ss k).
Proof.
  destruct ss as [|s ss]; intros Hk; [simpl in Hk; lia|]. destruct k as [|k]; [done|]. simpl in Hk.
  cbn [pieces]. cbn [lookup list_lookup]. change (list_lookup k ?l) with (l !! k). by rewrite tail_pieces_lookup by lia.
Qed.

Lemma string_at_step ss k : string_at ss (S k) = takeN (common_at ss (S k)) (string_at ss k) ++ suffix_at ss (S k).
Proof. symmetry. apply suffix_spec. Qed.

Lemma common_at_le ss k : common_at ss (S k) <= lenN (string_at ss k).
Proof. apply common_le_l. Qed.

Lemma sorted_string_at ss k : StronglySorted lex_lt ss -> (S k < length ss)%nat -> lex_lt (string_at ss k) (string_at ss (S k)).
Proof.
  intros Hs. revert k. induction Hs as [|s ss Hs IH Hlt]; intros k Hk; [simpl in Hk; lia|]. simpl in Hk.
  destruct k as [|k]; [|apply (IH k); lia]. destruct ss as [|s' ss]; [simpl in Hk; lia|]. by apply Forall_inv in Hlt.
Qed.

Lemma take_parts_take es : forall lengths, take_parts es lengths = take_parts (take (length lengths) es) lengths.
Proof.
  induction es as [|[c x] es IH]; intros [|l lengths]; [done..|]. cbn [take length take_parts].
  destruct (slice_to l x); [|done]. rewrite !bind_Some_eq. by rewrite (IH lengths).
Qed.

(** The entry of the [n]-th string of a block. *)
Lemma block_entry_spec `{BytesSize} b ss n s : block_repr b ss -> ss !! n = Some s ->
  exists e, block_entry b (N.of_nat n) = Some (Some e) /\ entry_repr e s.
Proof.
  intros Hb Hn. pose proof (lookup_lt_Some _ _ _ Hn) as Hlt.
  pose proof Hb as (_ & _ & Hsort & Hle & _). unfold block_entry.
  replace (N.of_nat n <? PfcBlock.n_strings b) with true by (symmetry; apply N.ltb_lt; unfold lenN in Hle; lia).
  replace (N.to_nat (N.of_nat n + 1)) with (S n) by lia.
  rewrite (take_block_pieces b ss Hb) by lia. rewrite bind_Some_eq. set (es := take (S n) (pieces ss)).
  set (c := common_at ss). set (x := suffix_at ss).
  assert (Hes : forall k, (k <= n)%nat -> es !! k = Some (c k, x k)).
  { intros k Hk. unfold es. rewrite lookup_take_lt by lia. apply pieces_lookup. lia. }
  assert (Hlen : length es = S n).
  { apply Nat.le_antisymm; [unfold es; rewrite length_take; lia|].
    pose proof (lookup_lt_Some _ _ _ (Hes n ltac:(lia))). lia. }
  unfold lenN. rewrite Hlen, csub_Some, bind_Some_eq by lia. rewrite !nget_lookup, Hes, bind_Some_eq by lia.
  cbn [fst snd]. replace (N.to_nat (N.of_nat (S n) - 1)) with n by lia.
  destruct (gather_spec c x n es Hes n (replicate n 0)) as (l1 & Hg & Hl1 & Hk1);
    [done|by rewrite length_replicate|intros j Hj; by apply lookup_replicate_2|intros; lia|].
  rewrite kept_last in Hg. rewrite Hg, bind_Some_eq.
  assert (exists l2, subtract_lengths (n - 1) l1 = Some l2 /\ length l2 = n /\
    forall j, (j < n)%nat -> l2 !! j = Some (share c n j)) as (l2 & -> & Hl2 & Hk2).
  { destruct n as [|n']; [exists l1; split; [done|]; split; [done|lia]|]. apply subtract_spec; [lia|done| |]; intros j Hj; [apply Hk1|]; lia. }
  rewrite !bind_Some_eq. cbn [fst snd].
  assert (exists ps, take_parts es l2 = Some ps /\ entry_repr (ps ++ [x n]) s) as (ps & -> & Hps).
  { assert (s = string_at ss n) as -> by (unfold string_at; by rewrite Hn).
    rewrite take_parts_take, Hl2. destruct n as [|k].
    - destruct l2; [|done]. exists []. split; [by destruct (take _ _) as [|[]]|]. apply head_entry_repr.
    - destruct (take_parts_prefix c x (S k) es Hes (string_at ss)) with (k := S k) (lengths := l2) as (ps & Hps & Hcat);
        [done|intros; apply string_at_step|intros; apply common_at_le|done|lia|].
      exists ps. rewrite (take_ge l2) in Hps by lia. split; [done|].
      replace (S k - 1)%nat with k in Hcat by lia. split; [|split].
      + rewrite concat_app, Hcat. cbn [concat]. rewrite app_nil_r, (kept_step c (S k)), (kept_last c) by lia.
        rewrite N.min_id. symmetry. apply string_at_step.
      + by destruct ps.
      + right. rewrite last_snoc. intros [= E]. apply (suffix_nonempty _ _ (sorted_string_at ss k Hsort Hlt)). done. }
  rewrite bind_Some_eq. eexists. split; [done|]. by apply optimize_repr.
Qed.

Lemma block_get_spec `{BytesSize} b ss n s : block_repr b ss -> ss !! n = Some s ->
  block_get b (N.of_nat n) = Some (Some s).
Proof.
  intros Hb Hn. destruct (block_entry_spec b ss n s Hb Hn) as (e & He & Hr & _). unfold block_get. rewrite He, bind_Some_eq.
  unfold PfcDictEntry.to_string, PfcDictEntry.to_bytes. rewrite Hr. destruct Hb as (_ & Hss & _).
  rewrite from_utf8_string; [by rewrite bind_Some_eq|].
  by destruct (Forall_lookup_1 _ _ _ _ Hss Hn) as [[] _].
Qed.
