(* ===== verification/PfcDicts.v ===== *)
(** * Front-coded dictionaries (second half of src/structure/pfc.rs)

    A dictionary is a file of blocks, each of eight strings, padded to a
    multiple of eight bytes and closed by the number of strings, and a log
    array of the offsets of all blocks but the first.  The file holds the
    dictionary with its lookups, its iterators, the builder, the streaming
    decoder, and the theorems about them. *)

From S2P Require Import Prelude.
From S2P Require Import Words.
From S2P Require Import Codec.
From S2P Require Import VByte.
From S2P Require Import LogArrays.
From S2P Require Import Strings.
From S2P Require Import PfcBlocks.
Open Scope N_scope.

Module PfcDict.

Record t : Type := mk {
  n_strings : N;
  block_offsets : LogArray.t;
  blocks : list N
}.

Definition parse (blocks offsets : list N) : outcome PfcError t :=
  start ← or_panic (csub (lenN blocks) 8);
  count ← or_panic (slice_from start blocks);
  n_strings ← or_panic (read_u64 count);
  block_offsets ← map_err logarray_error_to_pfc (LogArray.parse offsets);
  Ok (mk n_strings block_offsets blocks).

Definition len (d : t) : N := n_strings d.

(** Where the block with the given index starts. *)
Definition block_offset (d : t) (block_index : N) : option N :=
  if block_index =? 0 then Some 0 else LogArray.entry (block_offsets d) (block_index - 1).

(** The block offset and the index in the block. *)
Definition calculate_block_offset_index (d : t) (ix : N) : option (option (N * N)) :=
  if ix <? n_strings d then
    offset ← block_offset d (ix / BLOCK_SIZE);
    Some (Some (offset, ix mod BLOCK_SIZE))
  else Some None.

Definition entry `{BytesSize} (d : t) (ix : N) : option (option PfcDictEntry.t) :=
  r ← calculate_block_offset_index d ix;
  match r with
  | Some (block_offset, index_in_block) =>
      block_bytes ← slice_from block_offset (blocks d);
      block ← unwrap (PfcBlock.parse block_bytes);
      block_entry block index_in_block
  | None => Some None
  end.

Definition get `{BytesSize} (d : t) (ix : N) : option (option (list N)) :=
  r ← calculate_block_offset_index d ix;
  match r with
  | Some (block_offset, index_in_block) =>
      block_bytes ← slice_from block_offset (blocks d);
      block ← unwrap (PfcBlock.parse block_bytes);
      block_get block index_in_block
  | None => Some None
  end.

(** The binary search of [id]: [inl] is an early return, [inr] the value of
    [max] when the loop ends. *)
Fixpoint id_search (fuel : nat) (d : t) (s : list N) (min max : N) : option (option N + N) :=
  match fuel with
  | O => None
  | S fuel =>
      if min <=? max then
        let mid := (min + max) / 2 in
        block_offset ← block_offset d mid;
        block_slice ← slice_from block_offset (blocks d);
        head_end ← position 0 block_slice;
        head_slice ← slice_to head_end block_slice;
        match lex_cmp s head_slice with
        | Lt => if mid =? 0 then Some (inl None) else id_search fuel d s min (mid - 1)
        | Gt => id_search fuel d s (mid + 1) max
        | Eq => Some (inl (Some (mid * BLOCK_SIZE)))
        end
      else Some (inr max)
  end.

(** The loop over the entries of the block that was found. *)
Fixpoint id_scan `{BytesSize} (fuel : nat) (it : PfcDictEntryIterator.t) (s : list N) (count : N) : option (option N) :=
  match fuel with
  | O => None
  | S fuel =>
      '(r, it) ← PfcDictEntryIterator.next it;
      match r with
      | None => Some None
      | Some block_entry =>
          b ← PfcDictEntry.buf_eq block_entry s;
          if (b : bool) then Some (Some count) else id_scan fuel it s (count + 1)
      end
  end.

Definition id `{BytesSize} (d : t) (s : list N) : option (option N) :=
  let max := LogArray.len (block_offsets d) in
  r ← id_search (N.to_nat max + 2) d s 0 max;
  match r with
  | inl r => Some r
  | inr found =>
      block_start ← block_offset d found;
      remainder ← csub (n_strings d) (found * BLOCK_SIZE);
      block ← slice_from block_start (blocks d);
      block ← unwrap (if BLOCK_SIZE <=? remainder then PfcBlock.parse block
                      else PfcBlock.parse_incomplete block remainder);
      r ← id_scan (N.to_nat BLOCK_SIZE + 1) (entries block) s 0;
      Some (match r with Some count => Some (found * BLOCK_SIZE + count) | None => None end)
  end.

End PfcDict.

Module PfcDictBlockIterator.

Record t : Type := mk {
  dict : PfcDict.t;
  block_index : N
}.

Definition new (dict : PfcDict.t) : t := mk dict 0.

Definition next (it : t) : option (option PfcBlock.t * t) :=
  if LogArray.len (PfcDict.block_offsets (dict it)) <? block_index it then Some (None, it)
  else
    block_offset ← PfcDict.block_offset (dict it) (block_index it);
    remainder ← csub (PfcDict.n_strings (dict it)) (block_index it * BLOCK_SIZE);
    if remainder =? 0 then Some (None, it)
    else
      block ← slice_from block_offset (PfcDict.blocks (dict it));
      block ← unwrap (if BLOCK_SIZE <=? remainder then PfcBlock.parse block
                      else PfcBlock.parse_incomplete block remainder);
      Some (Some block, mk (dict it) (block_index it + 1)).

(** [flat_map(f)] over the blocks, drained. *)
Fixpoint flat_map {A} (f : PfcBlock.t -> option (list A)) (fuel : nat) (it : t) : option (list A) :=
  match fuel with
  | O => None
  | S fuel =>
      '(r, it) ← next it;
      match r with
      | None => Some []
      | Some block => xs ← f block; ys ← flat_map f fuel it; Some (xs ++ ys)
      end
  end.

End PfcDictBlockIterator.

(** [PfcDict::strings] and [PfcDict::entries], drained: a block yields at most
    eight items. *)
Definition dict_strings (d : PfcDict.t) : option (list (list N)) :=
  PfcDictBlockIterator.flat_map (fun block => PfcBlockIterator.collect 9 (strings block))
    (N.to_nat (LogArray.len (PfcDict.block_offsets d)) + 2) (PfcDictBlockIterator.new d).

Definition dict_entries `{BytesSize} (d : PfcDict.t) : option (list PfcDictEntry.t) :=
  PfcDictBlockIterator.flat_map (fun block => PfcDictEntryIterator.collect 9 (entries block))
    (N.to_nat (LogArray.len (PfcDict.block_offsets d)) + 2) (PfcDictBlockIterator.new d).

Module PfcDictFileBuilder.

Record t : Type := mk {
  pfc_blocks_file : list N;
  pfc_block_offsets_file : list N;
  count : N;
  size : N;
  last : option (list N);
  index : list N
}.

Definition new (pfc_blocks_file pfc_block_offsets_file : list N) : t :=
  mk pfc_blocks_file pfc_block_offsets_file 0 0 None [].

(** The new id and the builder. *)
Definition add_bytes (b : t) (bytes : list N) : option (N * t) :=
  '(file, size, index) ←
    (if count b mod BLOCK_SIZE =? 0 then
       let index := if negb (count b =? 0) then index b ++ [size b] else index b in
       let '(file, len) := write_nul_terminated_bytes (pfc_blocks_file b) bytes in
       size ← cadd 64 (size b) len;
       Some (file, size, index)
     else
       last ← last b;
       let common := find_common_prefix last bytes in
       postfix ← slice_from common bytes;
       '(file, common_len) ← write_async (pfc_blocks_file b) common;
       let '(file, slice_len) := write_nul_terminated_bytes file postfix in
       len ← cadd 64 common_len slice_len;
       size ← cadd 64 (size b) len;
       Some (file, size, index b));
  count ← cadd 64 (count b) 1;
  Some (count, mk file (pfc_block_offsets_file b) count size (Some bytes) index).

Definition add (b : t) (s : list N) : option (N * t) := add_bytes b s.

Definition add_entry (b : t) (e : PfcDictEntry.t) : option (N * t) :=
  add_bytes b (PfcDictEntry.to_bytes e).

Section add_loop.
Context {A : Type} (add : t -> A -> option (N * t)).

Fixpoint add_loop (b : t) (it : list A) (result : list N) : option (list N * t) :=
  match it with
  | [] => Some (result, b)
  | next :: it => '(r, b) ← add b next; add_loop b it (result ++ [r])
  end.
End add_loop.

Definition add_all (b : t) (it : list (list N)) : option (list N * t) := add_loop add b it [].

Definition add_all_entries (b : t) (it : list PfcDictEntry.t) : option (list N * t) := add_loop add_entry b it [].

(** Both files. *)
Definition finalize (b : t) : outcome io_error (list N * list N) :=
  let width := match list.last (index b) with Some x => 64 - leading_zeros64 x | None => 1 end in
  let builder := LogArrayFileBuilder.new (pfc_block_offsets_file b) width in
  builder ← LogArrayFileBuilder.push_vec builder (index b);
  let offsets := LogArrayFileBuilder.finalize builder in
  file ← or_panic (write_padding (pfc_blocks_file b) (size b) 8);
  Ok (write_u64 file (count b), offsets).

End PfcDictFileBuilder.

Module PfcDecoder.

Record t : Type := mk {
  last : option (list N);
  index : N;
  done : bool
}.

Definition new : t := mk None 0 false.

Definition decode (d : t) (bytes : list N) : outcome io_error (option (list N) * t * list N) :=
  if done d then Ok (None, d, [])
  else
    let pos := position 0 bytes in
    if bool_decide (pos = Some 0) then Ok (None, mk (last d) (index d) true, [])
    else match pos with
    | None => Ok (None, d, bytes)
    | Some pos =>
        if index d mod 8 =? 0 then
          b ← or_panic (slice_to pos bytes);
          bytes ← or_panic (slice_from (pos + 1) bytes);
          s ← or_panic (from_utf8 b);
          Ok (Some s, mk (Some b) (index d + 1) (done d), bytes)
        else
          last ← or_panic (last d);
          '(prefix_len, vbyte_len) ← or_panic (unwrap (VByte.decode bytes));
          bytes ← or_panic (slice_from vbyte_len bytes);
          at_ ← or_panic (csub pos vbyte_len);
          b ← or_panic (slice_to at_ bytes);
          bytes ← or_panic (slice_from (at_ + 1) bytes);
          prefix ← or_panic (slice_to prefix_len last);
          let full := prefix ++ b in
          s ← or_panic (from_utf8 full);
          Ok (Some s, mk (Some full) (index d + 1) (done d), bytes)
    end.

End PfcDecoder.

Definition dict_file_get_count (file : list N) : outcome io_error N :=
  at_ ← or_panic (csub (lenN file) 8);
  result ← or_panic (slice_from at_ file);
  or_panic (read_u64 result).

Definition dict_reader_to_stream `{FramedRead} (r : list N) : outcome io_error (list (list N)) :=
  framed_read PfcDecoder.decode PfcDecoder.new r.

Definition dict_reader_to_indexed_stream `{FramedRead} (r : list N) (offset : N) : outcome io_error (list (N * list N)) :=
  dict_stream ← dict_reader_to_stream r;
  or_panic (mapM (fun '(i, x) => n ← cadd 64 (i + 1) offset; Some (n, x))
              (zip (seqN 0 (lenN dict_stream)) dict_stream)).

(** ** The contents of a dictionary *)

(** The bytes of the string with index [k] after the string [prev]. *)
Definition piece (k : N) (prev s : list N) : list N :=
  if k mod 8 =? 0 then s ++ [0] else vbyte (find_common_prefix prev s) ++ suffix prev s ++ [0].

Fixpoint body (k : N) (prev : list N) (ss : list (list N)) : list N :=
  match ss with
  | [] => []
  | s :: ss => piece k prev s ++ body (k + 1) s ss
  end.

(** Where the [j]-th block starts. *)
Definition block_start (ss : list (list N)) (j : N) : N := lenN (body 0 [] (takeN (8 * j) ss)).

(** The starts of all blocks but the first. *)
Definition block_starts (ss : list (list N)) : list N :=
  (fun j => block_start ss j) <$> seqN 1 ((lenN ss - 1) / 8).

Definition last_string (prev : list N) (ss : list (list N)) : list N := default prev (list.last ss).

Lemma last_string_cons prev s ss : last_string prev (s :: ss) = last_string s ss.
Proof.
  unfold last_string. destruct ss as [|s' ss]; [done|]. rewrite last_cons_ne by done.
  destruct (last (s' :: ss)) eqn:E; [done|]. by apply last_None in E.
Qed.

Lemma body_app a : forall k prev b, body k prev (a ++ b) = body k prev a ++ body (k + lenN a) (last_string prev a) b.
Proof.
  induction a as [|s a IH]; intros k prev b; cbn [app body].
  - by rewrite lenN_nil, N.add_0_r.
  - rewrite IH, <- app_assoc, lenN_cons, last_string_cons. do 3 f_equal. lia.
Qed.

Lemma body_bytes ss : forall k prev, Forall dict_string ss -> Forall is_byte (body k prev ss).
Proof.
  induction ss as [|s ss IH]; intros k prev H; [constructor|]. apply Forall_cons in H as [Hs Hss].
  cbn [body]. apply Forall_app. split; [|by apply IH]. unfold piece. case_cmp.
  - apply Forall_app. split; [by apply entry_bytes|by repeat constructor].
  - repeat (apply Forall_app; split); [apply vbyte_ref_bytes| |by repeat constructor].
    apply suffix_Forall. by apply entry_bytes.
Qed.

Lemma body_length ss : forall k prev, lenN ss <= lenN (body k prev ss).
Proof.
  induction ss as [|s ss IH]; intros k prev; [done|]. cbn [body]. rewrite lenN_app, lenN_cons.
  specialize (IH (k + 1) s). assert (1 <= lenN (piece k prev s)); [|lia].
  unfold piece. case_cmp; rewrite !lenN_app; change (lenN [0]) with 1; lia.
Qed.

Lemma tail_bytes_body ss : forall k prev, 0 < k mod 8 -> k mod 8 + lenN ss <= 8 -> tail_bytes prev ss = body k prev ss.
Proof.
  induction ss as [|s ss IH]; intros k prev Hk Hl; [done|]. cbn [tail_bytes body]. rewrite lenN_cons in Hl.
  f_equal; [unfold piece; by ncmp|]. destruct ss as [|s' ss]; [done|]. rewrite lenN_cons in Hl.
  assert ((k + 1) mod 8 = k mod 8 + 1) as E by dlia. apply IH; rewrite E; [lia|]. rewrite lenN_cons. lia.
Qed.

Lemma block_bytes_body ss k prev : k mod 8 = 0 -> lenN ss <= 8 -> block_bytes ss = body k prev ss.
Proof.
  intros Hk Hl. destruct ss as [|s ss]; [done|]. rewrite lenN_cons in Hl. cbn [block_bytes body].
  unfold piece at 1. rewrite Hk. cbn. f_equal. assert ((k + 1) mod 8 = 1) as E by dlia.
  apply tail_bytes_body; rewrite E; [lia|]. lia.
Qed.

(** At the start of a block the string before it does not matter. *)
Lemma body_prev ss k prev prev' : k mod 8 = 0 -> body k prev ss = body k prev' ss.
Proof. intros Hk. destruct ss as [|s ss]; [done|]. cbn [body]. unfold piece. by rewrite Hk. Qed.

Lemma body_split ss j : body 0 [] ss = body 0 [] (takeN (8 * j) ss) ++ body (8 * j) [] (dropN (8 * j) ss).
Proof.
  rewrite <- (takeN_dropN (8 * j) ss) at 1. rewrite body_app, N.add_0_l. f_equal.
  destruct (N.le_ge_cases (8 * j) (lenN ss)) as [H|H].
  - rewrite lenN_takeN, N.min_l by done. apply body_prev. dlia.
  - assert (lenN (dropN (8 * j) ss) = 0) by (rewrite lenN_dropN; lia).
    destruct (dropN (8 * j) ss); [done|]. rewrite lenN_cons in *. lia.
Qed.

(** ** The builder *)

Definition builder_repr (b : PfcDictFileBuilder.t) (ss : list (list N)) : Prop :=
  PfcDictFileBuilder.pfc_blocks_file b = body 0 [] ss /\
  PfcDictFileBuilder.count b = lenN ss /\
  PfcDictFileBuilder.size b = lenN (body 0 [] ss) /\
  PfcDictFileBuilder.last b = list.last ss /\
  PfcDictFileBuilder.index b = block_starts ss.

Lemma block_start_snoc ss s j : 8 * j <= lenN ss -> block_start (ss ++ [s]) j = block_start ss j.
Proof. intros H. unfold block_start. do 2 f_equal. unfold takeN, lenN in *. by rewrite take_app_le by lia. Qed.

Lemma block_starts_snoc ss s : block_starts (ss ++ [s]) =
  if (lenN ss mod 8 =? 0) && negb (lenN ss =? 0) then block_starts ss ++ [lenN (body 0 [] ss)] else block_starts ss.
Proof.
  unfold block_starts. rewrite lenN_app. change (lenN [s]) with 1. rewrite N.add_sub.
  assert (Hold : forall n, 8 * n <= lenN ss ->
    (fun j => block_start (ss ++ [s]) j) <$> seqN 1 n = (fun j => block_start ss j) <$> seqN 1 n).
  { intros n Hn. apply list_eq_nget. intros i. rewrite !nget_map. destruct (N.lt_ge_cases i n) as [Hi|Hi].
    - rewrite nget_seqN by done. cbn. by rewrite block_start_snoc by lia.
    - by rewrite (proj2 (nget_None _ _)) by (rewrite lenN_seqN; lia). }
  destruct (N.eqb_spec (lenN ss mod 8) 0) as [Hm|Hm], (N.eqb_spec (lenN ss) 0) as [Hz|Hz]; cbn [andb negb].
  - rewrite Hz. done.
  - replace (lenN ss / 8) with ((lenN ss - 1) / 8 + 1) by dlia. rewrite <- (Hold ((lenN ss - 1) / 8)) by dlia. rewrite seqN_snoc, fmap_app.
    rewrite !Hold by dlia.
    assert (H8 : 8 * (1 + (lenN ss - 1) / 8) = lenN ss) by dlia.
    f_equal. cbn [fmap list_fmap]. f_equal. rewrite block_start_snoc by lia. unfold block_start. rewrite H8.
    by rewrite <- (app_nil_r ss) at 2; rewrite takeN_app.
  - rewrite Hz in Hm. done.
  - replace (lenN ss / 8) with ((lenN ss - 1) / 8) by dlia. apply Hold. dlia.
Qed.

Lemma add_bytes_spec b ss s : builder_repr b ss -> lenN s < 2 ^ 64 -> lenN (body 0 [] (ss ++ [s])) < 2 ^ 64 ->
  exists b', PfcDictFileBuilder.add_bytes b s = Some (lenN ss + 1, b') /\ builder_repr b' (ss ++ [s]) /\
    PfcDictFileBuilder.pfc_block_offsets_file b' = PfcDictFileBuilder.pfc_block_offsets_file b.
Proof.
  intros (Hf & Hc & Hs & Hl & Hi) Hs64 Hsize. pose proof (body_length (ss ++ [s]) 0 []) as Hn.
  rewrite lenN_app in Hn. change (lenN [s]) with 1 in Hn.
  assert (Hbody : body 0 [] (ss ++ [s]) = body 0 [] ss ++ piece (lenN ss) (last_string [] ss) s).
  { rewrite body_app. cbn [body]. by rewrite app_nil_r. }
  assert (Hsize' : lenN (body 0 [] ss) + lenN (piece (lenN ss) (last_string [] ss) s) < 2 ^ 64).
  { by rewrite <- lenN_app, <- Hbody. }
  unfold PfcDictFileBuilder.add_bytes. rewrite Hf, Hc, Hs, Hl, Hi. unfold BLOCK_SIZE, write_nul_terminated_bytes.
  match goal with |- exists _, (?x ≫= _) = _ /\ _ =>
    assert (Hstep : x = Some (body 0 [] (ss ++ [s]), lenN (body 0 [] (ss ++ [s])), block_starts (ss ++ [s]))) end.
  { rewrite block_starts_snoc, Hbody, lenN_app. unfold piece in *.
    destruct (N.eqb_spec (lenN ss mod 8) 0) as [Hm|Hm]; cbn [andb].
    - rewrite lenN_app in Hsize' |- *. change (lenN [0]) with 1 in *. rewrite cadd_Some, bind_Some_eq by done.
      by destruct (lenN ss =? 0).
    - rewrite !lenN_app in Hsize'. rewrite !lenN_app. change (lenN [0]) with 1 in *. destruct (last ss) as [lst|] eqn:El.
      2:{ apply last_None in El. by subst ss. }
      unfold last_string in *. rewrite El in *. cbn [default] in *. unfold id in *. rewrite bind_Some_eq.
      pose proof (common_le_r lst s) as Hcl. rewrite slice_from_Some, bind_Some_eq by done.
      unfold write_async. rewrite encode_vec_ref, !bind_Some_eq by lia. cbn [fst snd].
      fold (suffix lst s). rewrite cadd_Some, bind_Some_eq by lia. rewrite cadd_Some, bind_Some_eq by lia.
      by rewrite <- !app_assoc. }
  rewrite Hstep, bind_Some_eq. cbn [fst snd]. rewrite cadd_Some, bind_Some_eq by lia. eexists. split; [done|].
  split; [|done]. split; [done|]. split; [cbn; by rewrite lenN_app|]. split; [done|]. split; [|done].
  cbn. by rewrite last_snoc.
Qed.

Lemma body_prefix_le a b : lenN (body 0 [] a) <= lenN (body 0 [] (a ++ b)).
Proof. rewrite body_app, lenN_app. lia. Qed.

Lemma add_loop_spec {A} (add : PfcDictFileBuilder.t -> A -> option (N * PfcDictFileBuilder.t)) (f : A -> list N) :
  (forall b x, add b x = PfcDictFileBuilder.add_bytes b (f x)) ->
  forall xs b ss result, builder_repr b ss -> Forall (fun s => lenN s < 2 ^ 64) (f <$> xs) ->
  lenN (body 0 [] (ss ++ (f <$> xs))) < 2 ^ 64 ->
  exists b', PfcDictFileBuilder.add_loop add b xs result = Some (result ++ seqN (lenN ss + 1) (lenN xs), b') /\
    builder_repr b' (ss ++ (f <$> xs)) /\
    PfcDictFileBuilder.pfc_block_offsets_file b' = PfcDictFileBuilder.pfc_block_offsets_file b.
Proof.
  intros Hadd. induction xs as [|x xs IH]; intros b ss result Hb Hxs Hsize.
  - exists b. cbn [PfcDictFileBuilder.add_loop fmap list_fmap].
    change (seqN _ (lenN (@nil A))) with (@nil N).
    rewrite !app_nil_r. split; [done|]. by split.
  - cbn [fmap list_fmap PfcDictFileBuilder.add_loop] in *. apply Forall_cons in Hxs as [Hx Hxs].
    rewrite cons_middle, app_assoc in Hsize. pose proof (body_prefix_le (ss ++ [f x]) (f <$> xs)) as Hle.
    destruct (add_bytes_spec b ss (f x) Hb Hx) as (b1 & Hb1 & Hr1 & Hf1); [by eapply N.le_lt_trans|].
    rewrite Hadd, Hb1, bind_Some_eq. cbn [fst snd].
    destruct (IH b1 (ss ++ [f x]) (result ++ [lenN ss + 1]) Hr1 Hxs Hsize) as (b2 & Hb2 & Hr2 & Hf2).
    exists b2. rewrite Hb2, Hf2, Hf1. split; [|split; [|done]].
    + rewrite lenN_app, (lenN_cons x). change (lenN [f x]) with 1. rewrite <- app_assoc.
      rewrite (seqN_cons (lenN ss + 1)) by lia. by replace (1 + lenN xs - 1) with (lenN xs) by lia.
    + by rewrite cons_middle, app_assoc.
Qed.

Lemma dict_builder_new : builder_repr (PfcDictFileBuilder.new [] []) [].
Proof. done. Qed.

(** [d] is a dictionary of the strings [ss]. *)
Definition dict_repr (d : PfcDict.t) (ss : list (list N)) : Prop :=
  PfcDict.n_strings d = lenN ss /\ Forall dict_string ss /\ StronglySorted lex_lt ss /\
  la_repr (PfcDict.block_offsets d) (block_starts ss) /\
  exists rest, PfcDict.blocks d = body 0 [] ss ++ 0 :: rest /\ Forall is_byte rest.

Lemma block_start_mono ss i j : i <= j -> block_start ss i <= block_start ss j.
Proof.
  intros Hij. unfold block_start. replace (takeN (8 * i) ss) with (takeN (8 * i) (takeN (8 * j) ss)).
  - rewrite <- (takeN_dropN (8 * i) (takeN (8 * j) ss)) at 2. apply body_prefix_le.
  - unfold takeN. rewrite take_take. f_equal. lia.
Qed.

Lemma block_start_le ss j : block_start ss j <= lenN (body 0 [] ss).
Proof. unfold block_start. rewrite <- (takeN_dropN (8 * j) ss) at 2. apply body_prefix_le. Qed.

Lemma lenN_block_starts ss : lenN (block_starts ss) = (lenN ss - 1) / 8.
Proof. unfold block_starts. by rewrite lenN_map, lenN_seqN. Qed.

Lemma block_starts_nget ss j : 8 * (j + 1) < lenN ss -> (block_starts ss).[j] = Some (block_start ss (j + 1)).
Proof.
  intros Hj. unfold block_starts. rewrite nget_map, nget_seqN by dlia. cbn. by rewrite N.add_comm.
Qed.

Lemma block_starts_last ss x : last (block_starts ss) = Some x ->
  Forall (fun y => y <= x) (block_starts ss) /\ 0 < x <= lenN (body 0 [] ss).
Proof.
  intros Hl. apply last_Some in Hl as [l El].
  assert (Hn : lenN (block_starts ss) = lenN l + 1) by (rewrite El, lenN_app; done).
  rewrite lenN_block_starts in Hn.
  assert (Hx : x = block_start ss (lenN l + 1)).
  { pose proof (block_starts_nget ss (lenN l) ltac:(dlia)) as Hx. rewrite El, nget_last in Hx. by injection Hx. }
  split; [|split].
  - unfold block_starts. apply Forall_fmap. apply Forall_forall. intros i [k Hk]%elem_nget. cbn.
    pose proof (nget_Some_lt _ _ _ Hk) as Hlt. rewrite lenN_seqN in Hlt. rewrite nget_seqN in Hk by done.
    injection Hk as <-. rewrite Hx. apply block_start_mono. lia.
  - rewrite Hx. unfold block_start. pose proof (body_length (takeN (8 * (lenN l + 1)) ss) 0 []) as H.
    rewrite lenN_takeN in H. dlia.
  - rewrite Hx. apply block_start_le.
Qed.

(** The number of strings starts with a zero byte. *)
Lemma be64_small x : x < 2 ^ 56 -> exists tl, be64 x = 0 :: tl /\ Forall is_byte tl.
Proof.
  intros Hx. exists (to_be 7 x). split; [|apply to_be_bytes].
  change (be64 x) with (N.shiftr x 56 mod 256 :: to_be 7 x). f_equal.
  rewrite N.shiftr_div_pow2, N.div_small by done. done.
Qed.

Lemma dict_finalize_spec b ss : builder_repr b ss -> PfcDictFileBuilder.pfc_block_offsets_file b = [] ->
  Forall dict_string ss -> StronglySorted lex_lt ss -> lenN (body 0 [] ss) < 2 ^ 64 -> lenN ss < 2 ^ 35 ->
  exists offsets d, PfcDictFileBuilder.finalize b =
      Ok (body 0 [] ss ++ replicate (N.to_nat ((8 - lenN (body 0 [] ss) mod 8) mod 8)) 0 ++ be64 (lenN ss), offsets) /\
    PfcDict.parse (body 0 [] ss ++ replicate (N.to_nat ((8 - lenN (body 0 [] ss) mod 8) mod 8)) 0 ++ be64 (lenN ss)) offsets
      = Ok d /\ dict_repr d ss.
Proof.
  intros (Hf & Hc & Hs & _ & Hi) Hof Hss Hsort Hsize Hn. unfold PfcDictFileBuilder.finalize. rewrite Hi, Hof.
  set (w := match last (block_starts ss) with Some _ => _ | None => 1 end).
  assert (Hw : 0 < w <= 64 /\ Forall (fun y => y < 2 ^ w) (block_starts ss)).
  { unfold w. destruct (last (block_starts ss)) as [x|] eqn:El.
    - destruct (block_starts_last ss x El) as (Hle & Hx). unfold leading_zeros64.
      assert (Hx0 : x <> 0) by lia. pose proof (N.size_gt x) as Hgt.
      assert (N.size x <= 64) as H64.
      { rewrite N.size_log2 by done. assert (N.log2 x < 64); [|lia]. apply N.log2_lt_pow2; lia. }
      replace (64 - (64 - N.size x)) with (N.size x) by lia. split; [rewrite N.size_log2 in * by done; lia|].
      eapply Forall_impl; [exact Hle|]. intros y Hy. cbn in Hy. lia.
    - apply last_None in El. rewrite El. split; [lia|constructor]. }
  destruct Hw as [Hw Hfit].
  destruct (la_build w (block_starts ss) (proj2 Hw) (or_intror (proj1 Hw)) Hfit) as (lb & la & Hlb & Hla & Hr & _).
  { rewrite lenN_block_starts. dlia. }
  rewrite Hlb, bind_Ok_eq, Hf, Hs, Hc. set (pad := N.to_nat _).
  change (write_padding (body 0 [] ss) (lenN (body 0 [] ss)) 8) with (Some (body 0 [] ss ++ replicate pad 0)).
  cbn [or_panic]. rewrite bind_Ok_eq. unfold write_u64. rewrite <- app_assoc. eexists _, _. split; [done|].
  set (B := body 0 [] ss) in *. unfold PfcDict.parse. rewrite (app_assoc B).
  assert (Hlen : lenN ((B ++ replicate pad 0) ++ be64 (lenN ss)) = lenN (B ++ replicate pad 0) + 8).
  { by rewrite lenN_app. }
  rewrite Hlen, csub_Some by lia. cbn [or_panic]. rewrite bind_Ok_eq.
  replace (lenN (B ++ replicate pad 0) + 8 - 8) with (lenN (B ++ replicate pad 0)) by lia.
  rewrite slice_from_Some by lia. cbn [or_panic]. rewrite bind_Ok_eq, dropN_app.
  rewrite <- (app_nil_r (be64 (lenN ss))) at 1. rewrite read_u64_be64 by lia. cbn [or_panic]. rewrite bind_Ok_eq, Hla.
  cbn [map_err]. rewrite bind_Ok_eq. split; [done|]. split; [done|]. split; [done|]. split; [done|].
  split; [done|]. cbn [PfcDict.blocks].
  destruct (be64_small (lenN ss)) as (tl & -> & Htl); [lia|]. destruct pad as [|pad']; cbn [replicate app].
  - exists tl. by rewrite app_nil_r.
  - exists (replicate pad' 0 ++ 0 :: tl). split; [by rewrite <- app_assoc|]. apply Forall_app. split.
    + by apply Forall_replicate.
    + by constructor.
Qed.

(** ** Lookups *)

Definition block_strings (ss : list (list N)) (j : N) : list (list N) := takeN 8 (dropN (8 * j) ss).

Lemma Forall_takeN {A} (P : A -> Prop) n l : Forall P l -> Forall P (takeN n l).
Proof. apply Forall_take. Qed.
Lemma Forall_dropN {A} (P : A -> Prop) n l : Forall P l -> Forall P (dropN n l).
Proof. apply Forall_drop. Qed.

Lemma StronglySorted_app_r {A} (R : A -> A -> Prop) l k : StronglySorted R (l ++ k) -> StronglySorted R k.
Proof. induction l as [|x l IH]; [done|]. intros H. apply IH. by apply StronglySorted_inv in H as [H _]. Qed.

Lemma StronglySorted_app_l {A} (R : A -> A -> Prop) l k : StronglySorted R (l ++ k) -> StronglySorted R l.
Proof.
  induction l as [|x l IH]; [constructor|]. intros H. apply StronglySorted_inv in H as [H Hx].
  constructor; [by apply IH|]. by apply Forall_app in Hx as [Hx _].
Qed.

Lemma sorted_dropN ss n : StronglySorted lex_lt ss -> StronglySorted lex_lt (dropN n ss).
Proof. intros H. rewrite <- (takeN_dropN n ss) in H. by eapply StronglySorted_app_r. Qed.

Lemma sorted_block ss j : StronglySorted lex_lt ss -> StronglySorted lex_lt (block_strings ss j).
Proof.
  intros H. apply (sorted_dropN ss (8 * j)) in H. unfold block_strings.
  rewrite <- (takeN_dropN 8 (dropN (8 * j) ss)) in H. by eapply StronglySorted_app_l.
Qed.

Section dict.
Context (d : PfcDict.t) (ss : list (list N)) (Hd : dict_repr d ss).

Lemma lenN_offsets : LogArray.len (PfcDict.block_offsets d) = (lenN ss - 1) / 8.
Proof. destruct Hd as (_ & _ & _ & (Hl & _) & _). by rewrite Hl, lenN_block_starts. Qed.

Lemma block_offset_spec j : j = 0 \/ 8 * j < lenN ss -> PfcDict.block_offset d j = Some (block_start ss j).
Proof.
  intros Hj. destruct Hd as (_ & _ & _ & Hla & _). unfold PfcDict.block_offset.
  destruct (N.eqb_spec j 0) as [->|Hz]; [done|]. rewrite (la_entry _ _ _ Hla), block_starts_nget by lia. do 2 f_equal. lia.
Qed.

(** What follows the start of a block. *)
Lemma block_slice_spec j : exists rest,
  slice_from (block_start ss j) (PfcDict.blocks d) = Some (block_bytes (block_strings ss j) ++ rest) /\
  Forall is_byte rest /\ (lenN (dropN (8 * j) ss) = 0 -> exists rest', rest = 0 :: rest').
Proof.
  destruct Hd as (_ & Hss & _ & _ & rest & -> & Hrest).
  rewrite slice_from_Some by (rewrite lenN_app; pose proof (block_start_le ss j); lia).
  rewrite (body_split ss j), <- app_assoc. unfold block_start. rewrite dropN_app. unfold block_strings.
  set (tl := dropN (8 * j) ss).
  assert (Hb : body (8 * j) [] tl = block_bytes (takeN 8 tl) ++ body (8 * j + lenN (takeN 8 tl)) (last_string [] (takeN 8 tl)) (dropN 8 tl)).
  { rewrite <- (takeN_dropN 8 tl) at 1. rewrite body_app. f_equal. symmetry.
    apply block_bytes_body; [dlia|rewrite lenN_takeN; lia]. }
  rewrite Hb, <- app_assoc.
  eexists. split; [done|]. split.
  - apply Forall_app. split; [apply body_bytes; do 2 apply Forall_dropN; done|by constructor].
  - intros Hz. exists rest. assert (Hn : tl = []).
    { destruct tl; [done|]. rewrite lenN_cons in Hz. lia. }
    by rewrite Hn.
Qed.

Lemma block_repr_at j n : 8 * j < lenN ss -> lenN (block_strings ss j) <= n -> exists data,
  slice_from (block_start ss j) (PfcDict.blocks d) = Some data /\ block_repr (PfcBlock.mk data n) (block_strings ss j).
Proof.
  intros Hj Hn. destruct (block_slice_spec j) as (rest & Hs & Hrest & _). destruct Hd as (_ & Hss & Hsort & _).
  eexists. split; [exact Hs|]. split.
  { intros E. assert (Hl : lenN (block_strings ss j) = 0) by (by rewrite E). unfold block_strings in Hl.
    rewrite lenN_takeN, lenN_dropN in Hl. lia. }
  split; [by apply Forall_takeN, Forall_dropN|]. split; [by apply sorted_block|]. split; [done|]. by exists rest.
Qed.

Lemma block_strings_lookup i s : ss.[i] = Some s -> block_strings ss (i / 8) !! N.to_nat (i mod 8) = Some s.
Proof.
  intros Hi. change (?l !! N.to_nat ?k) with (l.[k]). unfold block_strings. rewrite nget_takeN by dlia.
  rewrite nget_dropN. by replace (8 * (i / 8) + i mod 8) with i by dlia.
Qed.

Lemma lenN_block_le j : lenN (block_strings ss j) <= 8.
Proof using. unfold block_strings. rewrite lenN_takeN. lia. Qed.

Lemma dict_entry_spec `{BytesSize} i s : ss.[i] = Some s ->
  exists e, PfcDict.entry d i = Some (Some e) /\ entry_repr e s.
Proof.
  intros Hi. pose proof (nget_Some_lt _ _ _ Hi) as Hlt. pose proof Hd as (Hn & _).
  unfold PfcDict.entry, PfcDict.calculate_block_offset_index, BLOCK_SIZE. rewrite Hn. ncmp.
  rewrite block_offset_spec by dlia. rewrite !bind_Some_eq.
  destruct (block_repr_at (i / 8) 8) as (data & Hs & Hb); [dlia|apply lenN_block_le|].
  rewrite Hs, bind_Some_eq. unfold PfcBlock.parse. cbn [unwrap]. rewrite bind_Some_eq.
  rewrite <- (N2Nat.id (i mod 8)). apply (block_entry_spec _ _ _ _ Hb). by apply block_strings_lookup.
Qed.

Lemma dict_get_spec `{BytesSize} i : PfcDict.get d i = Some (ss.[i]).
Proof.
  pose proof Hd as (Hn & _). unfold PfcDict.get, PfcDict.calculate_block_offset_index, BLOCK_SIZE. rewrite Hn.
  destruct (N.ltb_spec i (lenN ss)) as [Hlt|Hge].
  2:{ rewrite bind_Some_eq. by rewrite (proj2 (nget_None _ _)). }
  destruct (nget_lt ss i Hlt) as [s Hi].
  rewrite block_offset_spec by dlia. rewrite !bind_Some_eq.
  destruct (block_repr_at (i / 8) 8) as (data & Hs & Hb); [dlia|apply lenN_block_le|].
  rewrite Hs, bind_Some_eq. unfold PfcBlock.parse. cbn [unwrap]. rewrite bind_Some_eq, Hi.
  rewrite <- (N2Nat.id (i mod 8)). apply (block_get_spec _ _ _ _ Hb). by apply block_strings_lookup.
Qed.

End dict.

(** *** The binary search *)

Lemma sorted_nget ss i j a b : StronglySorted lex_lt ss -> ss.[i] = Some a -> ss.[j] = Some b -> i < j -> lex_lt a b.
Proof.
  intros Hs Ha Hb Hij. rewrite <- (takeN_dropN j ss) in Hs.
  assert (Hd : (dropN j ss).[0] = Some b) by (rewrite nget_dropN; by rewrite N.add_0_r).
  assert (Ht : (takeN j ss).[i] = Some a) by (by rewrite nget_takeN).
  apply nget_elem in Ht, Hd. revert Ht Hd Hs. generalize (takeN j ss) (dropN j ss). intros l k.
  induction l as [|x l IH]; intros Hl Hk Hs; [by apply elem_of_nil in Hl|].
  apply StronglySorted_inv in Hs as [Hs Hx]. apply elem_of_cons in Hl as [->|Hl]; [|by apply IH].
  rewrite Forall_forall in Hx. apply Hx. apply elem_of_app. by right.
Qed.

Lemma lex_lt_not_refl a b : lex_lt a b -> lex_lt b a -> False.
Proof. intros H1 H2. apply (lex_lt_irrefl a). by eapply lex_lt_trans. Qed.

(** More fuel than needed drains the same items. *)
Lemma collect_fuel `{BytesSize} n : forall m it es, (n <= m)%nat ->
  PfcDictEntryIterator.collect n it = Some es -> PfcDictEntryIterator.collect m it = Some es.
Proof.
  induction n as [|n IH]; intros m it es Hm Hc; [done|]. destruct m as [|m]; [lia|].
  cbn [PfcDictEntryIterator.collect] in *. destruct (PfcDictEntryIterator.next it) as [[[e|] it']|]; [|done|done].
  rewrite bind_Some_eq in Hc. rewrite bind_Some_eq. cbn [fst snd] in *.
  destruct (PfcDictEntryIterator.collect n it') as [es'|] eqn:E; [|done]. by rewrite (IH m it' es') by (done || lia).
Qed.

Lemma strings_collect_fuel n : forall m it es, (n <= m)%nat ->
  PfcBlockIterator.collect n it = Some es -> PfcBlockIterator.collect m it = Some es.
Proof.
  induction n as [|n IH]; intros m it es Hm Hc; [done|]. destruct m as [|m]; [lia|].
  cbn [PfcBlockIterator.collect] in *. destruct (PfcBlockIterator.next it) as [[[e|] it']|]; [|done|done].
  rewrite bind_Some_eq in Hc. rewrite bind_Some_eq. cbn [fst snd] in *.
  destruct (PfcBlockIterator.collect n it') as [es'|] eqn:E; [|done]. by rewrite (IH m it' es') by (done || lia).
Qed.

(** Scanning what the iterator yields. *)
Lemma id_scan_spec `{BytesSize} fuel s : forall it es bs c, PfcDictEntryIterator.collect fuel it = Some es ->
  Forall2 entry_repr es bs -> exists r, PfcDict.id_scan fuel it s c = Some r /\
    match r with Some i => exists k, i = c + k /\ bs.[k] = Some s | None => s ∉ bs end.
Proof.
  induction fuel as [|fuel IH]; intros it es bs c Hc Hes; [done|].
  cbn [PfcDictEntryIterator.collect PfcDict.id_scan] in *.
  destruct (PfcDictEntryIterator.next it) as [[[e|] it']|]; [|rewrite bind_Some_eq in Hc; rewrite bind_Some_eq|done].
  - rewrite bind_Some_eq in Hc. rewrite bind_Some_eq. cbn [fst snd] in *.
    destruct (PfcDictEntryIterator.collect fuel it') as [es'|] eqn:E; [|done]. rewrite bind_Some_eq in Hc.
    injection Hc as <-. apply Forall2_cons_inv_l in Hes as (b & bs' & He & Hes & ->).
    rewrite (buf_eq_spec e b s He), bind_Some_eq. destruct (bool_decide_reflect (b = s)) as [->|Hne].
    + eexists. split; [done|]. exists 0. by rewrite N.add_0_r.
    + destruct (IH it' es' bs' (c + 1) E Hes) as (r & Hr & Hspec). exists r. split; [done|]. destruct r as [i|].
      * destruct Hspec as (k & -> & Hk). exists (k + 1). split; [lia|]. rewrite nget_cons_pos by lia.
        by replace (k + 1 - 1) with k by lia.
      * intros [->|?]%elem_of_cons; done.
  - injection Hc as <-. apply Forall2_nil_inv_l in Hes as ->. exists None. split; [done|]. by intros ?%elem_of_nil.
Qed.

(** Looking up a nonempty string in the empty dictionary. *)
Lemma id_empty `{BytesSize} la rest s : s <> [] ->
  (r ← PfcDict.id_search 2 (PfcDict.mk 0 la (0 :: rest)) s 0 0;
   match r with
   | inl r => Some r
   | inr found =>
       block_start ← PfcDict.block_offset (PfcDict.mk 0 la (0 :: rest)) found;
       remainder ← csub 0 (found * BLOCK_SIZE);
       block ← slice_from block_start (0 :: rest);
       block ← unwrap (if BLOCK_SIZE <=? remainder then PfcBlock.parse block
                       else PfcBlock.parse_incomplete block remainder);
       r ← PfcDict.id_scan (N.to_nat BLOCK_SIZE + 1) (entries block) s 0;
       Some (match r with Some count => Some (found * BLOCK_SIZE + count) | None => None end)
   end) = Some None.
Proof.
  intros Hs. assert (Hsearch : PfcDict.id_search 2 (PfcDict.mk 0 la (0 :: rest)) s 0 0 = Some (inr 0)).
  { by destruct s. }
  rewrite Hsearch, bind_Some_eq.
  assert (Hscan : PfcDict.id_scan 9 (entries (PfcBlock.mk (0 :: rest) 0)) s 0 = Some None).
  { change (PfcDict.id_scan 9 (entries (PfcBlock.mk (0 :: rest) 0)) s 0) with
      (b ← PfcDictEntry.buf_eq (PfcDictEntry.new_optimized [[]]) s; if (b : bool) then Some (Some 0) else Some (@None N)).
    rewrite (buf_eq_spec _ []) by apply optimize_repr, head_entry_repr.
    rewrite bind_Some_eq, bool_decide_false by done. done. }
  change (PfcDict.block_offset _ 0) with (Some 0). rewrite bind_Some_eq.
  change (csub 0 (0 * BLOCK_SIZE)) with (Some 0). rewrite bind_Some_eq.
  change (slice_from 0 (0 :: rest)) with (Some (0 :: rest)). rewrite bind_Some_eq.
  change (unwrap _) with (Some (PfcBlock.mk (0 :: rest) 0)). rewrite bind_Some_eq.
  change (N.to_nat BLOCK_SIZE + 1)%nat with 9%nat. by rewrite Hscan.
Qed.

Section search.
Context (d : PfcDict.t) (ss : list (list N)) (Hd : dict_repr d ss) (s : list N).

Lemma head_slice_spec j h : ss.[8 * j] = Some h -> exists data,
  slice_from (block_start ss j) (PfcDict.blocks d) = Some data /\ position 0 data = Some (lenN h) /\
  slice_to (lenN h) data = Some h.
Proof.
  intros Hh. destruct (block_slice_spec d ss Hd j) as (rest & Hs & _). destruct Hd as (_ & Hss & _).
  assert (exists X, block_bytes (block_strings ss j) ++ rest = h ++ 0 :: X) as [X HX].
  { unfold block_strings. rewrite (dropN_cons _ _ _ Hh). rewrite (takeN_cons 7). cbn [block_bytes].
    eexists. rewrite <- !app_assoc. done. }
  rewrite HX in Hs. eexists. split; [exact Hs|].
  split; [apply position_app; apply entry_no_nul; by eapply Forall_nget|].
  rewrite slice_to_Some by (rewrite lenN_app; lia). by rewrite takeN_app.
Qed.

Definition search_result (r : option N + N) : Prop :=
  match r with
  | inl (Some i) => ss.[i] = Some s
  | inl None => s ∉ ss
  | inr f => 8 * f < lenN ss /\ (forall h, ss.[8 * f] = Some h -> lex_lt h s) /\
      (forall j h, f < j -> ss.[8 * j] = Some h -> lex_lt s h)
  end.

Lemma id_search_spec fuel : forall min max, 8 * max < lenN ss -> min <= max + 1 ->
  (N.to_nat (max + 1 - min) < fuel)%nat ->
  (forall j h, j < min -> ss.[8 * j] = Some h -> lex_lt h s) ->
  (forall j h, max < j -> ss.[8 * j] = Some h -> lex_lt s h) ->
  exists r, PfcDict.id_search fuel d s min max = Some r /\ search_result r.
Proof.
  induction fuel as [|fuel IH]; intros min max Hmax Hmin Hf Hlo Hhi; [lia|]. cbn [PfcDict.id_search].
  pose proof Hd as (_ & _ & Hsort & _).
  destruct (N.leb_spec min max) as [Hle|Hgt].
  2:{ eexists. split; [done|]. split; [done|]. split; [|done]. intros h Hh. apply (Hlo max h); [lia|done]. }
  set (mid := (min + max) / 2). assert (Hmid : min <= mid <= max) by (unfold mid; dlia). clearbody mid.
  destruct (nget_lt ss (8 * mid) ltac:(lia)) as [h Hh].
  rewrite (block_offset_spec d ss Hd) by lia. rewrite bind_Some_eq.
  destruct (head_slice_spec mid h Hh) as (data & Hs & Hp & Ht). rewrite Hs, bind_Some_eq, Hp, bind_Some_eq, Ht, bind_Some_eq.
  destruct (lex_cmp s h) eqn:Hc.
  - eexists. split; [done|]. unfold search_result, BLOCK_SIZE. apply lex_cmp_eq in Hc as ->. by rewrite N.mul_comm.
  - destruct (N.eqb_spec mid 0) as [->|Hz].
    + eexists. split; [done|]. intros [i Hi]%elem_nget. destruct (N.eq_0_gt_0_cases i) as [->|Hpos].
      * change (8 * 0) with 0 in Hh. rewrite Hi in Hh. injection Hh as <-. by apply lex_lt_irrefl in Hc.
      * apply (lex_lt_not_refl s h Hc). by apply (sorted_nget ss (8 * 0) i).
    + apply IH; [lia|lia|lia|done|]. intros j h' Hj Hh'. destruct (decide (j = mid)) as [->|Hne].
      * rewrite Hh in Hh'. by injection Hh' as <-.
      * eapply lex_lt_trans; [exact Hc|]. apply (sorted_nget ss (8 * mid) (8 * j)); [done|done|done|lia].
  - apply lex_gt_lt in Hc. apply IH; [lia|lia|lia| |done]. intros j h' Hj Hh'. destruct (decide (j = mid)) as [->|Hne].
    + rewrite Hh in Hh'. by injection Hh' as <-.
    + eapply lex_lt_trans; [|exact Hc]. apply (sorted_nget ss (8 * j) (8 * mid)); [done|done|done|lia].
Qed.

(** A string of the dictionary is in the block that the search finds. *)
Lemma search_block f i : search_result (inr f) -> ss.[i] = Some s -> i / 8 = f.
Proof.
  intros (Hf & Hlo & Hhi) Hi. pose proof Hd as (_ & _ & Hsort & _). pose proof (nget_Some_lt _ _ _ Hi).
  destruct (N.lt_trichotomy (i / 8) f) as [Hlt|[Heq|Hlt]]; [|done|].
  - destruct (nget_lt ss (8 * f) Hf) as [h Hh]. exfalso. apply (lex_lt_not_refl h s); [by apply Hlo|].
    apply (sorted_nget ss i (8 * f)); [done|done|done|dlia].
  - destruct (nget_lt ss (8 * (i / 8)) ltac:(dlia)) as [h Hh]. pose proof (Hhi _ _ Hlt Hh) as Hsh.
    destruct (decide (8 * (i / 8) = i)) as [E|Hne].
    + rewrite E, Hi in Hh. injection Hh as <-. by apply lex_lt_irrefl in Hsh.
    + exfalso. apply (lex_lt_not_refl h s); [|done]. apply (sorted_nget ss (8 * (i / 8)) i); [done|done|done|dlia].
Qed.

(** The entries of the block with index [f], as the dictionary parses it. *)
Lemma block_at_spec `{BytesSize} f : 8 * f < lenN ss -> exists data es,
  slice_from (block_start ss f) (PfcDict.blocks d) = Some data /\
  PfcDictEntryIterator.collect 9
    (entries (if 8 <=? lenN ss - f * 8 then PfcBlock.mk data 8 else PfcBlock.mk data (lenN ss - f * 8))) = Some es /\
  Forall2 entry_repr es (block_strings ss f) /\
  PfcBlockIterator.collect 9
    (strings (if 8 <=? lenN ss - f * 8 then PfcBlock.mk data 8 else PfcBlock.mk data (lenN ss - f * 8)))
    = Some (block_strings ss f).
Proof using d ss Hd.
  intros Hf. assert (Hl : lenN (block_strings ss f) = N.min 8 (lenN ss - f * 8)).
  { unfold block_strings. rewrite lenN_takeN, lenN_dropN. lia. }
  destruct (block_repr_at d ss Hd f (N.min 8 (lenN ss - f * 8))) as (data & Hs & Hb); [done|lia|].
  exists data. replace (if 8 <=? _ then _ else _) with (PfcBlock.mk data (N.min 8 (lenN ss - f * 8)));
    [|case_cmp; f_equal; lia].
  assert (Hlen : (S (length (block_strings ss f)) <= 9)%nat) by (unfold lenN in Hl; lia).
  destruct (entries_block _ _ Hb) as (es & Hes & Hr); [cbn; lia|]. exists es. split; [done|]. split; [|split; [done|]].
  - by eapply collect_fuel.
  - eapply strings_collect_fuel; [exact Hlen|]. apply strings_block; [done|cbn; lia].
Qed.

Lemma dict_id_spec `{BytesSize} : ss <> [] \/ s <> [] -> exists r, PfcDict.id d s = Some r /\
  match r with Some i => ss.[i] = Some s | None => s ∉ ss end.
Proof.
  intros Hne. pose proof Hd as (Hn & _). unfold PfcDict.id. rewrite (lenN_offsets d ss Hd).
  destruct (N.eq_0_gt_0_cases (lenN ss)) as [Hz|Hpos].
  - assert (Es : ss = []) by (destruct ss; [done|rewrite lenN_cons in Hz; lia]).
    destruct Hne as [Hne|Hne]; [done|]. destruct d as [n la blocks]. cbn [PfcDict.n_strings] in Hn.
    destruct Hd as (_ & _ & _ & _ & rest & Hb & _). cbn [PfcDict.blocks] in Hb. subst n ss blocks.
    exists None. split; [by apply id_empty|]. by intros ?%elem_of_nil.
  - assert (exists m, m = (lenN ss - 1) / 8 /\ 8 * m < lenN ss /\ lenN ss <= 8 * (m + 1)) as (m & Em & Hm1 & Hm2).
    { eexists. split; [done|]. dlia. }
    rewrite <- Em. destruct (id_search_spec (N.to_nat m + 2) 0 m) as (r & Hr & Hspec);
      [done|lia|lia|intros; lia| |].
    { intros j h Hj Hh%nget_Some_lt. lia. }
    rewrite Hr, bind_Some_eq. destruct r as [r|f]; [by exists r|].
    pose proof Hspec as (Hf & _). rewrite (block_offset_spec d ss Hd), bind_Some_eq by lia.
    unfold PfcBlock.parse, PfcBlock.parse_incomplete, BLOCK_SIZE. rewrite Hn, csub_Some, bind_Some_eq by lia.
    destruct (block_at_spec f Hf) as (data & es & Hs & Hes & Hr' & _). rewrite Hs, bind_Some_eq.
    assert (Hblock : forall (c : bool) b1 b2, unwrap (if c then @Ok PfcError _ b1 else Ok b2) = Some (if c then b1 else b2 : PfcBlock.t)).
    { by intros []. }
    rewrite Hblock, bind_Some_eq.
    destruct (id_scan_spec 9 s _ es (block_strings ss f) 0 Hes Hr') as (r & Hscan & Hr2).
    change (N.to_nat 8 + 1)%nat with 9%nat. rewrite Hscan, bind_Some_eq. eexists. split; [done|]. destruct r as [i|].
    + destruct Hr2 as (k & -> & Hk). pose proof (nget_Some_lt _ _ _ Hk). pose proof (lenN_block_le ss f).
      unfold block_strings in Hk. rewrite nget_takeN, nget_dropN in Hk by lia. rewrite <- Hk. f_equal. lia.
    + intros [i Hi]%elem_nget. apply Hr2. pose proof (block_strings_lookup ss i s Hi) as Hb.
      rewrite (search_block f i Hspec Hi) in Hb. by eapply list_elem_of_lookup_2.
Qed.
End search.

(** The empty string is found in the empty dictionary, at an index past its
    end: the block that is searched starts with the zero byte that ends the
    file, which reads as the empty string. *)
Lemma dict_id_empty `{BytesSize} d : dict_repr d [] -> PfcDict.id d [] = Some (Some 0).
Proof.
  intros Hd. pose proof Hd as (Hn & _ & _ & _ & rest & Hb & _). destruct d as [n la blocks]. cbn [PfcDict.n_strings PfcDict.blocks] in *.
  unfold PfcDict.id. rewrite (lenN_offsets _ _ Hd). by rewrite Hb.
Qed.

(** *** Iterating over the dictionary *)

Section iterate.
Context (d : PfcDict.t) (ss : list (list N)) (Hd : dict_repr d ss).
Context {A : Type} (f : PfcBlock.t -> option (list A)) (P : A -> list N -> Prop).
Context (Hf : forall j data, 8 * j < lenN ss -> slice_from (block_start ss j) (PfcDict.blocks d) = Some data ->
  exists xs, f (if 8 <=? lenN ss - j * 8 then PfcBlock.mk data 8 else PfcBlock.mk data (lenN ss - j * 8)) = Some xs /\
    Forall2 P xs (block_strings ss j)).

Lemma flat_map_spec fuel : forall j, (N.to_nat ((lenN ss + 7) / 8 - j) < fuel)%nat ->
  exists ys, PfcDictBlockIterator.flat_map f fuel (PfcDictBlockIterator.mk d j) = Some ys /\
    Forall2 P ys (dropN (8 * j) ss).
Proof.
  induction fuel as [|fuel IH]; intros j Hfuel; [lia|]. cbn [PfcDictBlockIterator.flat_map].
  unfold PfcDictBlockIterator.next. cbn [PfcDictBlockIterator.dict PfcDictBlockIterator.block_index].
  rewrite (lenN_offsets d ss Hd). pose proof Hd as (Hn & _). rewrite Hn.
  destruct (N.lt_ge_cases (8 * j) (lenN ss)) as [Hj|Hj].
  - destruct (block_repr_at d ss Hd j 8 Hj (lenN_block_le ss j)) as (data & Hs & _).
    replace ((lenN ss - 1) / 8 <? j) with false by (symmetry; apply N.ltb_ge; dlia).
    rewrite (block_offset_spec d ss Hd) by lia. unfold BLOCK_SIZE. rewrite bind_Some_eq, csub_Some, bind_Some_eq by lia.
    replace (lenN ss - j * 8 =? 0) with false by (symmetry; apply N.eqb_neq; lia). rewrite Hs, bind_Some_eq.
    unfold PfcBlock.parse, PfcBlock.parse_incomplete, BLOCK_SIZE.
    destruct (Hf j data Hj Hs) as (xs & Hxs & HP). destruct (IH (j + 1)) as (ys & Hys & HP'); [dlia|].
    assert (Hsplit : dropN (8 * j) ss = block_strings ss j ++ dropN (8 * (j + 1)) ss).
    { unfold block_strings. rewrite <- (takeN_dropN 8 (dropN (8 * j) ss)) at 1. f_equal. rewrite dropN_dropN. f_equal. lia. }
    exists (xs ++ ys). split; [|rewrite Hsplit; by apply Forall2_app].
    destruct (8 <=? lenN ss - j * 8); cbn [unwrap]; rewrite !bind_Some_eq; cbn [fst snd]; rewrite Hxs, bind_Some_eq, Hys; done.
  - exists []. assert (Hnil : dropN (8 * j) ss = []).
    { assert (Hl : lenN (dropN (8 * j) ss) = 0) by (rewrite lenN_dropN; lia).
      destruct (dropN (8 * j) ss); [done|rewrite lenN_cons in Hl; lia]. }
    split; [|rewrite Hnil; constructor]. destruct (N.ltb_spec ((lenN ss - 1) / 8) j) as [Hm|Hm]; [done|].
    assert (lenN ss = 0 /\ j = 0) as [Hz ->] by dlia.
    rewrite (block_offset_spec d ss Hd) by (by left). rewrite Hz. done.
Qed.
End iterate.

Lemma drain_fuel n : (N.to_nat ((n + 7) / 8 - 0) < N.to_nat ((n - 1) / 8) + 2)%nat.
Proof. dlia. Qed.

Lemma dict_strings_spec d ss : dict_repr d ss -> dict_strings d = Some ss.
Proof.
  intros Hd. unfold dict_strings. rewrite (lenN_offsets d ss Hd).
  destruct (flat_map_spec d ss Hd (fun block => PfcBlockIterator.collect 9 (strings block)) eq) with
    (fuel := (N.to_nat ((lenN ss - 1) / 8) + 2)%nat) (j := 0) as (ys & Hys & Heq); [|apply drain_fuel|].
  - intros j data Hj Hs. destruct (block_at_spec (H := {| bytes_size := 0 |}) d ss Hd j Hj) as (data' & _ & Hs' & _ & _ & Hc).
    rewrite Hs in Hs'. injection Hs' as <-. eexists. split; [exact Hc|]. by apply list_eq_Forall2.
  - unfold PfcDictBlockIterator.new. rewrite Hys. f_equal. rewrite dropN_0 in Heq. by apply list_eq_Forall2.
Qed.

Lemma dict_entries_spec `{BytesSize} d ss : dict_repr d ss -> exists es, dict_entries d = Some es /\ Forall2 entry_repr es ss.
Proof.
  intros Hd. unfold dict_entries. rewrite (lenN_offsets d ss Hd).
  destruct (flat_map_spec d ss Hd (fun block => PfcDictEntryIterator.collect 9 (entries block)) entry_repr) with
    (fuel := (N.to_nat ((lenN ss - 1) / 8) + 2)%nat) (j := 0) as (ys & Hys & Heq); [|apply drain_fuel|].
  - intros j data Hj Hs. destruct (block_at_spec d ss Hd j Hj) as (data' & es & Hs' & Hes & Hr & _).
    rewrite Hs in Hs'. injection Hs' as <-. by exists es.
  - exists ys. by rewrite dropN_0 in Heq.
Qed.

(** ** The streaming decoder *)

Section stream.
Import PfcDecoder.

(** The prefix lengths are written without zero bytes. *)
Fixpoint prefixes_clear (k : N) (prev : list N) (ss : list (list N)) : Prop :=
  match ss with
  | [] => True
  | s :: ss =>
      (k mod 8 <> 0 -> Forall (fun b => b <> 0) (vbyte (find_common_prefix prev s))) /\ prefixes_clear (k + 1) s ss
  end.

Lemma decode_pos d x later : done d = false -> Forall (fun b => b <> 0) x -> x <> [] ->
  decode d (x ++ 0 :: later) =
    if index d mod 8 =? 0 then
      s ← or_panic (from_utf8 x); Ok (Some s, mk (Some x) (index d + 1) false, later)
    else
      last ← or_panic (last d);
      '(prefix_len, vbyte_len) ← or_panic (unwrap (VByte.decode (x ++ 0 :: later)));
      bytes ← or_panic (slice_from vbyte_len (x ++ 0 :: later));
      at_ ← or_panic (csub (lenN x) vbyte_len);
      b ← or_panic (slice_to at_ bytes);
      bytes ← or_panic (slice_from (at_ + 1) bytes);
      prefix ← or_panic (slice_to prefix_len last);
      let full := prefix ++ b in
      s ← or_panic (from_utf8 full);
      Ok (Some s, mk (Some full) (index d + 1) false, bytes).
Proof.
  intros Hd Hx Hne. unfold decode. rewrite Hd, position_app by done. cbv zeta.
  rewrite bool_decide_false by (destruct x; [done|rewrite lenN_cons; intros [= ?]; lia]).
  rewrite slice_to_Some, slice_from_Some by (rewrite lenN_app, lenN_cons; lia). cbn [or_panic]. rewrite !bind_Ok_eq.
  rewrite takeN_app. replace (dropN (lenN x + 1) (x ++ 0 :: later)) with later; [done|].
  rewrite cons_middle, app_assoc. symmetry. replace (lenN x + 1) with (lenN (x ++ [0])) by by rewrite lenN_app.
  apply dropN_app.
Qed.

(** The decoder is before the string with index [k], of which [prev] is the
    predecessor. *)
Definition decoder_at (d : t) (k : N) (prev : list N) : Prop :=
  done d = false /\ index d = k /\ (k mod 8 <> 0 -> last d = Some prev).

Lemma vbyte_nonempty c : vbyte c <> [].
Proof. unfold vbyte. cbn [vbyte_ref]. by destruct (c <? 128). Qed.

Lemma decode_piece d k prev s later : decoder_at d k prev -> dict_string s -> s <> [] -> Forall is_byte later ->
  (k mod 8 <> 0 -> Forall (fun b => b <> 0) (vbyte (find_common_prefix prev s))) ->
  exists x d', piece k prev s = x ++ [0] /\ Forall (fun b => b <> 0) x /\ x <> [] /\
    (forall later, Forall is_byte later -> decode d (x ++ 0 :: later) = Ok (Some s, d', later)) /\
    decoder_at d' (k + 1) s.
Proof.
  intros (Hd & Hi & Hl) Hs Hne Hlater Hv. unfold piece. pose proof (entry_no_nul s Hs) as Hnul.
  destruct (N.eqb_spec (k mod 8) 0) as [Hk|Hk].
  - exists s, (mk (Some s) (k + 1) false). split; [done|]. split; [done|]. split; [done|]. split; [|done].
    intros l Hlb. rewrite decode_pos by done. rewrite Hi, Hk. cbn [N.eqb]. rewrite from_utf8_string; [done|].
    by destruct Hs as [[] _].
  - specialize (Hl Hk). specialize (Hv Hk). set (v := vbyte (find_common_prefix prev s)) in *.
    exists (v ++ suffix prev s), (mk (Some s) (k + 1) false). split; [by rewrite <- app_assoc|].
    assert (Hx : Forall (fun b => b <> 0) (v ++ suffix prev s)).
    { apply Forall_app. split; [done|]. by apply suffix_Forall. }
    assert (Hxne : v ++ suffix prev s <> []) by (intros [E _]%app_eq_nil; by apply vbyte_nonempty in E).
    split; [done|]. split; [done|]. split; [|done]. intros l Hlb. rewrite decode_pos by done. rewrite Hi, Hl.
    replace (k mod 8 =? 0) with false by (symmetry; by apply N.eqb_neq). cbn [or_panic]. rewrite bind_Ok_eq.
    assert (Hdv : VByte.decode (v ++ suffix prev s ++ 0 :: l) = Ok (find_common_prefix prev s, lenN v)).
    { apply decode_vbyte.
      - pose proof (common_le_r prev s). destruct Hs as [_ ?]. lia.
      - apply Forall_app. split; [apply suffix_Forall; by apply entry_bytes|]. by constructor. }
    rewrite <- !app_assoc. rewrite Hdv. cbn [unwrap or_panic]. rewrite bind_Ok_eq. cbn [fst snd].
    rewrite slice_from_Some by (rewrite lenN_app; lia). cbn [or_panic]. rewrite bind_Ok_eq, dropN_app.
    rewrite lenN_app, csub_Some by lia. cbn [or_panic]. rewrite bind_Ok_eq.
    replace (lenN v + lenN (suffix prev s) - lenN v) with (lenN (suffix prev s)) by lia.
    rewrite (slice_to_Some (lenN (suffix prev s))) by (rewrite lenN_app; lia). cbn [or_panic]. rewrite bind_Ok_eq, takeN_app.
    rewrite slice_from_Some by (rewrite lenN_app, lenN_cons; lia). cbn [or_panic]. rewrite bind_Ok_eq.
    rewrite slice_to_Some by apply common_le_l. cbn [or_panic]. rewrite bind_Ok_eq, suffix_spec.
    rewrite from_utf8_string by by destruct Hs as [[] _]. cbn [or_panic]. rewrite bind_Ok_eq.
    do 2 f_equal. rewrite (cons_middle 0), app_assoc.
    replace (lenN (suffix prev s) + 1) with (lenN (suffix prev s ++ [0])) by by rewrite lenN_app. apply dropN_app.
Qed.

(** A stream without a zero byte is waited for. *)
Lemma decode_wait d buf : done d = false -> Forall (fun b => b <> 0) buf -> decode d buf = Ok (None, d, buf).
Proof. intros Hd Hb. unfold decode. by rewrite Hd, position_None by done. Qed.

(** After the end, the rest is thrown away. *)
Lemma run_done d chunks : forall buf, done d = true -> framed_run decode d buf chunks [].
Proof.
  induction chunks as [|c chunks IH]; intros buf Hd.
  - eapply run_eof. unfold decode. by rewrite Hd.
  - eapply run_more; [unfold decode; by rewrite Hd|]. by apply IH.
Qed.

Lemma zero_or_not (x buf later : list N) tl : buf ++ later = x ++ 0 :: tl -> Forall (fun b => b <> 0) x ->
  (exists buf', buf = x ++ 0 :: buf' /\ buf' ++ later = tl) \/ Forall (fun b => b <> 0) buf /\ later <> [].
Proof.
  revert buf. induction x as [|a x IH]; intros buf H Hx; destruct buf as [|b buf]; cbn [app] in *.
  - right. split; [constructor|by intros ->].
  - injection H as -> H. left. by exists buf.
  - right. split; [constructor|by intros ->].
  - apply Forall_cons in Hx as [Ha Hx]. injection H as -> H.
    destruct (IH buf H Hx) as [(buf' & -> & Hb)|[Hb Hl]]; [left; by exists buf'|right]. split; [by constructor|done].
Qed.

Lemma decoder_run rest : forall chunks ss d k prev buf, decoder_at d k prev -> Forall dict_string ss ->
  Forall (fun s => s <> []) ss -> prefixes_clear k prev ss -> Forall is_byte rest ->
  buf ++ concat chunks = body k prev ss ++ 0 :: rest ->
  framed_run decode d buf chunks ss.
Proof.
  intros chunks ss. remember (length chunks + length ss)%nat as n eqn:En. revert chunks ss En.
  induction n as [n IH] using lt_wf_ind. intros chunks ss En d k prev buf Hd Hss Hne Hcl Hrest Hb.
  assert (Hd' := Hd). destruct Hd' as (Hdone & Hidx & Hlast).
  destruct ss as [|s ss]; cbn [body prefixes_clear app] in *.
  - destruct (zero_or_not [] buf (concat chunks) rest Hb) as [(buf' & -> & _)|[Hz Hl]]; [constructor| |].
    + assert (Hdec : decode d ([] ++ 0 :: buf') = Ok (None, mk (last d) (index d) true, [])).
      { unfold decode. by rewrite Hdone. }
      destruct chunks as [|c chunks]; [by eapply run_eof|]. eapply run_more; [done|]. by apply run_done.
    + destruct chunks as [|c chunks]; [done|]. eapply run_more; [by apply decode_wait|].
      eapply (IH (length chunks + 0)%nat); [simpl in En; lia|done|done|done|done|exact Hcl|done|].
      cbn [concat] in Hb. by rewrite <- app_assoc.
  - apply Forall_cons in Hss as [Hs Hss]. apply Forall_cons in Hne as [Hsne Hne]. destruct Hcl as [Hv Hcl].
    destruct (decode_piece d k prev s [] Hd Hs Hsne (Forall_nil_2 _) Hv) as (x & d' & Hp & Hx & Hxne & Hdec & Hat).
    rewrite Hp, <- !app_assoc in Hb. cbn [app] in Hb.
    destruct (zero_or_not x buf (concat chunks) _ Hb Hx) as [(buf' & -> & Hb')|[Hz Hl]].
    + eapply run_item.
      * apply Hdec. assert (Hall : Forall is_byte (buf' ++ concat chunks)); [|by apply Forall_app in Hall as [Hall _]].
        rewrite Hb'. apply Forall_app. split; [by apply body_bytes|by constructor].
      * eapply (IH (length chunks + length ss)%nat); [simpl in En; lia|done|exact Hat|done|done|exact Hcl|done|done].
    + destruct chunks as [|c chunks]; [done|]. eapply run_more; [by apply decode_wait|].
      eapply (IH (length chunks + length (s :: ss))%nat); [simpl in En |- *; lia|done|exact Hd|by constructor|by constructor| |exact Hrest|].
      * by split.
      * cbn [concat body] in Hb |- *. rewrite <- app_assoc, Hb, Hp, <- !app_assoc. done.
Qed.

End stream.

(** ** Properties *)

(** An upper bound of the bytes of a dictionary. *)
Definition total (ss : list (list N)) : N := foldr (fun s n => lenN s + 11 + n) 0 ss.

(** Strings that a dictionary can hold. *)
Definition dict_input (ss : list (list N)) : Prop :=
  Forall dict_string ss /\ StronglySorted lex_lt ss /\ total ss < 2 ^ 64 /\ lenN ss < 2 ^ 35.

(** Both files that the builder makes of the strings. *)
Definition dictionary_files (ss : list (list N)) : outcome io_error (list N * list N) :=
  '(_, b) ← or_panic (PfcDictFileBuilder.add_all (PfcDictFileBuilder.new [] []) ss);
  PfcDictFileBuilder.finalize b.

(** [d] is read from these files. *)
Definition dictionary (ss : list (list N)) (d : PfcDict.t) : Prop :=
  exists blocks offsets, dictionary_files ss = Ok (blocks, offsets) /\ PfcDict.parse blocks offsets = Ok d.

Lemma vbyte_ref_length fuel : forall num, lenN (vbyte_ref fuel num) <= N.of_nat fuel.
Proof.
  induction fuel as [|fuel IH]; intros num; cbn [vbyte_ref]; [done|]. destruct (num <? 128); rewrite lenN_cons.
  - rewrite lenN_nil. lia.
  - specialize (IH (num / 128)). lia.
Qed.

Lemma body_total ss : forall k prev, lenN (body k prev ss) <= total ss.
Proof.
  induction ss as [|s ss IH]; intros k prev; [done|]. cbn [body total foldr]. fold (total ss). rewrite lenN_app.
  specialize (IH (k + 1) s). assert (lenN (piece k prev s) <= lenN s + 11); [|lia]. unfold piece.
  pose proof (vbyte_ref_length 10 (find_common_prefix prev s)) as Hv. fold (vbyte (find_common_prefix prev s)) in Hv.
  case_cmp; rewrite !lenN_app; change (lenN [0]) with 1; [lia|]. unfold suffix. rewrite lenN_dropN. lia.
Qed.

Lemma dict_input_short ss : Forall dict_string ss -> Forall (fun s => lenN s < 2 ^ 64) ss.
Proof. intros H. eapply Forall_impl; [exact H|]. by intros s []. Qed.

Lemma dict_build ss : dict_input ss -> exists b blocks offsets d,
  PfcDictFileBuilder.add_all (PfcDictFileBuilder.new [] []) ss = Some (seqN 1 (lenN ss), b) /\
  PfcDictFileBuilder.finalize b = Ok (blocks, offsets) /\ PfcDict.parse blocks offsets = Ok d /\ dict_repr d ss /\
  exists n, blocks = body 0 [] ss ++ replicate n 0 ++ be64 (lenN ss).
Proof.
  intros (Hss & Hsort & Htot & Hn). pose proof (body_total ss 0 []) as Hbody.
  destruct (add_loop_spec PfcDictFileBuilder.add (fun s => s)) with (xs := ss) (b := PfcDictFileBuilder.new [] [])
    (ss := @nil (list N)) (result := @nil N) as (b & Hb & Hr & Hf); [done|done| | |].
  { rewrite list_fmap_id. by apply dict_input_short. }
  { rewrite list_fmap_id. cbn [app]. lia. }
  rewrite list_fmap_id in Hr. cbn [app] in *.
  destruct (dict_finalize_spec b ss Hr Hf Hss Hsort) as (offsets & d & Hfin & Hparse & Hd); [lia|done|].
  exists b. eexists _, offsets, d. split; [exact Hb|]. split; [exact Hfin|]. split; [exact Hparse|]. split; [done|].
  eexists. done.
Qed.

Lemma dictionary_repr ss d : dict_input ss -> dictionary ss d -> dict_repr d ss.
Proof.
  intros Hss (blocks & offsets & Hfiles & Hparse). destruct (dict_build ss Hss) as (b & bl & off & d' & Hadd & Hfin & Hp & Hd & _).
  unfold dictionary_files in Hfiles. rewrite Hadd in Hfiles. cbn [or_panic] in Hfiles. rewrite bind_Ok_eq in Hfiles.
  cbn [fst snd] in Hfiles. rewrite Hfin in Hfiles. injection Hfiles as <- <-. rewrite Hp in Hparse. by injection Hparse as <-.
Qed.

Lemma index_stream offset l : forall k, k + lenN l + offset < 2 ^ 64 ->
  mapM (fun '(i, x) => n ← cadd 64 (i + 1) offset; Some (n, x)) (zip (seqN k (lenN l)) l)
    = Some (zip (seqN (k + 1 + offset) (lenN l)) (l : list (list N))).
Proof.
  induction l as [|x l IH]; intros k Hk; [done|]. rewrite lenN_cons in *.
  rewrite (seqN_cons k), (seqN_cons (k + 1 + offset)) by lia. cbn [zip zip_with mapM].
  rewrite cadd_Some, !bind_Some_eq by lia. replace (1 + lenN l - 1) with (lenN l) by lia.
  rewrite IH, bind_Some_eq by lia. by replace (k + 1 + 1 + offset) with (k + 1 + offset + 1) by lia.
Qed.

(** C37: adding sorted strings hands out the ids from 1, and the finished files
    parse as a dictionary whose iterators yield exactly the strings, and whose
    number of strings both the dictionary and the end of its file give.  The
    strings have no zero bytes, since a zero byte ends a string in the file,
    and their lengths and their number fit the file ([dict_input]). *)
Theorem pfc_roundtrip `{BytesSize} ss : dict_input ss -> exists b blocks offsets d,
  PfcDictFileBuilder.add_all (PfcDictFileBuilder.new [] []) ss = Some (seqN 1 (lenN ss), b) /\
  PfcDictFileBuilder.finalize b = Ok (blocks, offsets) /\ PfcDict.parse blocks offsets = Ok d /\
  PfcDict.len d = lenN ss /\ dict_file_get_count blocks = Ok (lenN ss) /\
  dict_strings d = Some ss /\
  exists es, dict_entries d = Some es /\ PfcDictEntry.to_bytes <$> es = ss.
Proof.
  intros Hss. destruct (dict_build ss Hss) as (b & bl & off & d & Hadd & Hfin & Hp & Hd & n & Hbl).
  exists b, bl, off, d. repeat (split; [done|]). split; [by destruct Hd|]. split; [|split].
  - unfold dict_file_get_count. rewrite Hbl, app_assoc, lenN_app, lenN_be64, csub_Some by lia. cbn [or_panic].
    rewrite bind_Ok_eq. rewrite N.add_sub, slice_from_Some by (rewrite !lenN_app; lia). cbn [or_panic].
    rewrite bind_Ok_eq, dropN_app. rewrite <- (app_nil_r (be64 _)), read_u64_be64; [done|].
    destruct Hss as (_ & _ & _ & Hn). lia.
  - by apply dict_strings_spec.
  - destruct (dict_entries_spec d ss Hd) as (es & Hes & Hr). exists es. split; [done|]. clear -Hr.
    induction Hr as [|e s es ss (He & _) _ IH]; [done|]. cbn [fmap list_fmap]. by f_equal.
Qed.

(** Looking up an index gives the string with that index, as a string
    and as an entry, and nothing from the number of strings on. *)
Theorem pfc_get `{BytesSize} ss d i : dict_input ss -> dictionary ss d ->
  PfcDict.get d i = Some (ss.[i]) /\
  match ss.[i] with
  | Some s => exists e, PfcDict.entry d i = Some (Some e) /\ PfcDictEntry.to_string e = Some s
  | None => PfcDict.entry d i = Some None
  end.
Proof.
  intros Hss Hdict. pose proof (dictionary_repr ss d Hss Hdict) as Hd. split; [by apply dict_get_spec|].
  destruct (ss.[i]) as [s|] eqn:E.
  - destruct (dict_entry_spec d ss Hd i s E) as (e & He & Hr & _). exists e. split; [done|].
    unfold PfcDictEntry.to_string, PfcDictEntry.to_bytes. rewrite Hr. apply from_utf8_string.
    destruct Hss as [Hs _]. by destruct (Forall_nget _ _ _ _ Hs E) as [[] _].
  - unfold PfcDict.entry, PfcDict.calculate_block_offset_index. destruct Hd as (-> & _).
    apply nget_None in E. apply N.ltb_ge in E. by rewrite E.
Qed.

(** C38: [id] finds a string exactly when it is in the dictionary, at its index;
    the empty string is not to be looked up in the empty dictionary. *)
Theorem pfc_id `{BytesSize} ss d s : dict_input ss -> dictionary ss d -> ss <> [] \/ s <> [] ->
  exists r, PfcDict.id d s = Some r /\ forall i, r = Some i <-> ss.[i] = Some s.
Proof.
  intros Hss Hdict Hne. pose proof (dictionary_repr ss d Hss Hdict) as Hd.
  destruct (dict_id_spec d ss Hd s Hne) as (r & Hr & Hspec). exists r. split; [done|]. intros i. split.
  - by intros ->.
  - intros Hi. destruct r as [j|]; [|by apply nget_elem in Hi]. f_equal. destruct Hss as (_ & Hsort & _).
    destruct (N.lt_trichotomy i j) as [Hlt|[?|Hlt]]; [|done|].
    + pose proof (sorted_nget ss i j s s Hsort Hi Hspec Hlt) as Hs. by apply lex_lt_irrefl in Hs.
    + pose proof (sorted_nget ss j i s s Hsort Hspec Hi Hlt) as Hs. by apply lex_lt_irrefl in Hs.
Qed.

(** The entries of a dictionary compare like their indices, and an entry is
    equal to a buffer when the buffer holds its string. *)
Theorem pfc_entry_order `{BytesSize} ss d i j s t : dict_input ss -> dictionary ss d ->
  ss.[i] = Some s -> ss.[j] = Some t ->
  exists e f, PfcDict.entry d i = Some (Some e) /\ PfcDict.entry d j = Some (Some f) /\
    PfcDictEntry.cmp e f = Some (i ?= j) /\ PfcDictEntry.eq e f = Some (i =? j) /\
    forall b, PfcDictEntry.buf_eq e b = Some (bool_decide (s = b)).
Proof.
  intros Hss Hdict Hi Hj. pose proof (dictionary_repr ss d Hss Hdict) as Hd.
  destruct (dict_entry_spec d ss Hd i s Hi) as (e & He & Hre). destruct (dict_entry_spec d ss Hd j t Hj) as (f & Hf & Hrf).
  exists e, f. do 2 (split; [done|]). rewrite (cmp_spec _ _ _ _ Hre Hrf), (eq_spec _ _ _ _ Hre Hrf).
  destruct Hss as (_ & Hsort & _). split; [|split; [|intros b; by apply buf_eq_spec]].
  - f_equal. destruct (N.compare_spec i j) as [->|Hlt|Hlt].
    + rewrite Hi in Hj. injection Hj as <-. apply lex_cmp_refl.
    + by apply (sorted_nget ss i j).
    + apply lex_gt_lt. by apply (sorted_nget ss j i).
  - f_equal. destruct (N.eqb_spec i j) as [->|Hne].
    + rewrite Hi in Hj. injection Hj as <-. by rewrite bool_decide_true.
    + rewrite bool_decide_false; [done|]. intros <-. destruct (N.lt_trichotomy i j) as [Hlt|[?|Hlt]]; [|done|].
      * pose proof (sorted_nget ss i j s s Hsort Hi Hj Hlt) as Hs. by apply lex_lt_irrefl in Hs.
      * pose proof (sorted_nget ss j i s s Hsort Hj Hi Hlt) as Hs. by apply lex_lt_irrefl in Hs.
Qed.

(** Reading the block file as a stream yields the strings, however the
    bytes arrive, when no string is empty and no prefix length is written with
    a zero byte; the indexed stream adds the ids. *)
Theorem pfc_stream `{FramedRead} ss blocks offsets offset : dict_input ss -> dictionary_files ss = Ok (blocks, offsets) ->
  Forall (fun s => s <> []) ss -> prefixes_clear 0 [] ss -> offset < 2 ^ 63 ->
  dict_reader_to_stream blocks = Ok ss /\
  dict_reader_to_indexed_stream blocks offset = Ok (zip (seqN (1 + offset) (lenN ss)) ss).
Proof.
  intros Hss Hfiles Hne Hcl Hoff. destruct (dict_build ss Hss) as (b & bl & off & d & Hadd & Hfin & _ & _ & n & Hbl).
  unfold dictionary_files in Hfiles. rewrite Hadd in Hfiles. cbn [or_panic] in Hfiles. rewrite bind_Ok_eq in Hfiles.
  cbn [fst snd] in Hfiles. rewrite Hfin in Hfiles. injection Hfiles as <- _.
  destruct Hss as (Hs & _ & _ & Hn). destruct (be64_small (lenN ss)) as (tl & Hbe & Htl); [lia|].
  assert (Hrest : exists rest, bl = body 0 [] ss ++ 0 :: rest /\ Forall is_byte rest).
  { rewrite Hbl, Hbe. destruct n as [|n]; [by exists tl|]. exists (replicate n 0 ++ 0 :: tl). split; [done|].
    apply Forall_app. split; [by apply Forall_replicate|by constructor]. }
  destruct Hrest as (rest & Hrest & Hbytes).
  assert (Hstream : dict_reader_to_stream bl = Ok ss).
  { unfold dict_reader_to_stream. destruct (framed_read_law _ _ PfcDecoder.decode PfcDecoder.new bl) as (chunks & Hc & Hrun).
    apply Hrun.
    - apply (decoder_run rest chunks ss _ 0 []); [done|done|done|done|done|]. by rewrite Hc, Hrest.
    - unfold items_bound. pose proof (body_length ss 0 []) as Hl. rewrite Hrest, length_app. unfold lenN in Hl. lia. }
  split; [done|]. unfold dict_reader_to_indexed_stream. rewrite Hstream, bind_Ok_eq.
  by rewrite index_stream by lia.
Qed.

(** Decides [dict_input] of concrete strings. *)
Ltac concrete_input :=
  split; [|split; [|split; vm_compute; reflexivity]];
  [ repeat (apply Forall_cons; split); [.. |by apply Forall_nil];
    (split; [split; [split; [repeat constructor|vm_compute; reflexivity]|repeat constructor; discriminate]
            |vm_compute; reflexivity])
  | repeat (apply SSorted_cons; [|repeat constructor]); apply SSorted_nil ].

(** *** A dictionary of two blocks *)

Definition sample_strings : list (list N) :=
  [[97]; [97; 98]; [97; 98; 99]; [97; 98; 100]; [98]; [98; 98]; [99]; [99; 100]; [99; 101]; [0xc3; 0xa9]].

#[local] Instance sample_bytes_size : BytesSize := {| bytes_size := 32 |}.

Lemma sample_strings_input : dict_input sample_strings.
Proof.
  unfold sample_strings. concrete_input.
Qed.

Lemma pfc_roundtrip_witness : exists b blocks offsets d,
  PfcDictFileBuilder.add_all (PfcDictFileBuilder.new [] []) sample_strings = Some (seqN 1 10, b) /\
  PfcDictFileBuilder.finalize b = Ok (blocks, offsets) /\ PfcDict.parse blocks offsets = Ok d /\
  PfcDict.len d = 10 /\ dict_file_get_count blocks = Ok 10 /\
  dict_strings d = Some sample_strings /\
  exists es, dict_entries d = Some es /\ PfcDictEntry.to_bytes <$> es = sample_strings.
Proof. apply (pfc_roundtrip sample_strings). apply sample_strings_input. Defined.

Lemma sample_dictionary : exists d, dictionary sample_strings d.
Proof. eexists. eexists _, _. split; vm_compute; reflexivity. Qed.

Lemma pfc_get_witness : exists d, dictionary sample_strings d /\ PfcDict.get d 8 = Some (Some [99; 101]) /\
  exists e, PfcDict.entry d 8 = Some (Some e) /\ PfcDictEntry.to_string e = Some [99; 101].
Proof.
  destruct sample_dictionary as [d Hd]. exists d. split; [exact Hd|].
  apply (pfc_get sample_strings d 8); [apply sample_strings_input|exact Hd].
Defined.

Lemma pfc_id_witness : exists d, dictionary sample_strings d /\
  exists r, PfcDict.id d [98; 98] = Some r /\ forall i, r = Some i <-> sample_strings.[i] = Some [98; 98].
Proof.
  destruct sample_dictionary as [d Hd]. exists d. split; [exact Hd|].
  apply (pfc_id sample_strings d [98; 98]); [apply sample_strings_input|exact Hd|by left].
Defined.

Lemma pfc_entry_order_witness : exists d, dictionary sample_strings d /\
  exists e f, PfcDict.entry d 3 = Some (Some e) /\ PfcDict.entry d 8 = Some (Some f) /\
    PfcDictEntry.cmp e f = Some (3 ?= 8) /\ PfcDictEntry.eq e f = Some (3 =? 8) /\
    forall b, PfcDictEntry.buf_eq e b = Some (bool_decide ([97; 98; 100] = b)).
Proof.
  destruct sample_dictionary as [d Hd]. exists d. split; [exact Hd|].
  apply (pfc_entry_order sample_strings d 3 8 [97; 98; 100] [99; 101]);
    [apply sample_strings_input|exact Hd|reflexivity|reflexivity].
Defined.

Lemma pfc_stream_witness : exists blocks offsets, dictionary_files sample_strings = Ok (blocks, offsets) /\
  dict_reader_to_stream (H := whole_file) blocks = Ok sample_strings /\
  dict_reader_to_indexed_stream (H := whole_file) blocks 5 = Ok (zip (seqN (1 + 5) 10) sample_strings).
Proof.
  eexists _, _. split; [vm_compute; reflexivity|].
  apply (pfc_stream (H := whole_file) sample_strings _ [184; 0; 0; 0; 0; 0; 0; 0; 0; 0; 0; 1; 5; 0; 0; 0] 5).
  - apply sample_strings_input.
  - vm_compute; reflexivity.
  - unfold sample_strings. repeat constructor; discriminate.
  - unfold sample_strings. vm_compute. repeat split; intros _; repeat constructor; discriminate.
  - reflexivity.
Defined.

(** A dictionary that starts with the empty string reads as an empty stream. *)
Example stream_of_empty_string :
  exists blocks offsets d, dictionary_files [[]; [97]] = Ok (blocks, offsets) /\ PfcDict.parse blocks offsets = Ok d /\
    dict_strings d = Some [[]; [97]] /\ dict_reader_to_stream (H := whole_file) blocks = Ok [].
Proof. eexists _, _, _. split; [vm_compute; reflexivity|]. split; [vm_compute; reflexivity|]. by vm_compute. Qed.

(** The empty string is found in the empty dictionary. *)
Example id_in_empty_dictionary :
  exists d, dictionary [] d /\ PfcDict.id d [] = Some (Some 0) /\ PfcDict.get d 0 = Some None.
Proof. eexists. split; [eexists _, _; split; vm_compute; reflexivity|]. by vm_compute. Qed.

(** A shared prefix of 128 bytes is written with a zero byte, at which the
    stream stops; the rest of the strings is lost. *)
Example stream_of_long_prefix :
  let a := replicate 128 97 in
  exists blocks offsets, dictionary_files [a; a ++ [97]; a ++ [98]] = Ok (blocks, offsets) /\
    dict_reader_to_stream (H := whole_file) blocks = Ok [a].
Proof. eexists _, _. split; vm_compute; reflexivity. Qed.
