(* ===== verification/DictMerge.v ===== *)
(** * Merging dictionaries (end of src/structure/pfc.rs)

    [merge_dictionaries] drains the entries of several dictionaries in order,
    through the [SortedIterator] of src/structure/util.rs, into a new one. *)

From Stdlib Require Import List.
From S2P Require Import Prelude.
From S2P Require Import Words.
From S2P Require Import Strings.
From S2P Require Import PfcBlocks.
From S2P Require Import PfcDicts.
Open Scope N_scope.

(** [sorted_iterator] of util.rs: an iterator is the list of the items it is
    still to yield, [pick_fn] sees the first item of each. *)
Section sorted_iterator.
Context {T : Type} (pick_fn : list (option T) -> option (option N)).

Definition sorted_next (iters : list (list T)) : option (option T * list (list T)) :=
  let v := head <$> iters in
  ix ← pick_fn v;
  match ix with
  | None => Some (None, iters)
  | Some ix =>
      it ← iters.[ix];
      match it with
      | [] => Some (None, iters)
      | x :: it => iters ← nset iters ix it; Some (Some x, iters)
      end
  end.

(** Draining the iterator. *)
Fixpoint sorted_iterator (fuel : nat) (iters : list (list T)) : option (list T) :=
  match fuel with
  | O => None
  | S fuel =>
      '(r, iters) ← sorted_next iters;
      match r with
      | None => Some []
      | Some x => xs ← sorted_iterator fuel iters; Some (x :: xs)
      end
  end.
End sorted_iterator.

(** [min_by]: the first of the least values; [best] is the least so far. *)
Section min_by.
Context {T : Type} (cmp : T -> T -> option comparison).

Fixpoint min_by (best : option (N * T)) (vals : list (N * T)) : option (option (N * T)) :=
  match vals with
  | [] => Some best
  | (ix, y) :: vals =>
      match best with
      | None => min_by (Some (ix, y)) vals
      | Some (jx, x) =>
          c ← cmp x y;
          min_by (Some (match c with Gt => (ix, y) | _ => (jx, x) end)) vals
      end
  end.
End min_by.

(** [vals.iter().enumerate().filter(|(_, v)| v.is_some())]. *)
Fixpoint present {T} (ix : N) (vals : list (option T)) : list (N * T) :=
  match vals with
  | [] => []
  | Some v :: vals => (ix, v) :: present (ix + 1) vals
  | None :: vals => present (ix + 1) vals
  end.

(** The [pick_fn] of [merge_dictionaries]. *)
Definition pick_entry (vals : list (option PfcDictEntry.t)) : option (option N) :=
  r ← min_by PfcDictEntry.cmp None (present 0 vals);
  Some (option_map fst r).

(** [merge_dictionaries]: the two files of the merged dictionary. *)
Definition merge_dictionaries `{BytesSize} (dictionaries : list PfcDict.t) (blocks_file offsets_file : list N)
    : outcome io_error (list N * list N) :=
  iterators ← or_panic (mapM dict_entries dictionaries);
  merged ← or_panic (sorted_iterator pick_entry (length (concat iterators) + 1) iterators);
  let builder := PfcDictFileBuilder.new blocks_file offsets_file in
  '(_, builder) ← or_panic (PfcDictFileBuilder.add_all_entries builder merged);
  PfcDictFileBuilder.finalize builder.

(** ** The least value *)

Definition entry_ok (e : PfcDictEntry.t) : Prop := entry_repr e (concat e).

(** The items may carry more than the entry by which they are compared. *)
Section by_entry.
Context {T : Type} (entry_of : T -> PfcDictEntry.t).

Definition cmp_by (x y : T) : option comparison := PfcDictEntry.cmp (entry_of x) (entry_of y).

Definition pick_by (vals : list (option T)) : option (option N) :=
  r ← min_by cmp_by None (present 0 vals);
  Some (option_map fst r).

Definition item_ok (x : T) : Prop := entry_ok (entry_of x).

Definition text (x : T) : list N := concat (entry_of x).

Definition key (v : N * T) : list N := text v.2.

Lemma min_by_spec vals : forall best, Forall (fun v => item_ok v.2) (option_list best ++ vals) ->
  exists r, min_by cmp_by best vals = Some r /\
    match r with
    | None => best = None /\ vals = []
    | Some v => v ∈ option_list best ++ vals /\ Forall (fun u => lex_le (key v) (key u)) (option_list best ++ vals)
    end.
Proof.
  induction vals as [|[ix y] vals IH]; intros best Hok; cbn [min_by].
  - exists best. split; [done|]. destruct best as [v|]; [|done]. split; [by left|]. constructor; [|constructor].
    by rewrite lex_le_lt_eq; right.
  - destruct best as [[jx x]|]; cbn [option_list app] in *.
    + apply Forall_cons in Hok as [Hx Hok]. apply Forall_cons in Hok as [Hy Hok].
      change (cmp_by x y) with (PfcDictEntry.cmp (entry_of x) (entry_of y)). cbn [fst snd] in *. rewrite (cmp_spec _ _ _ _ Hx Hy), bind_Some_eq. cbn [fst snd] in *. fold (text x) (text y).
      set (b := match lex_cmp _ _ with Gt => (ix, y) | _ => (jx, x) end).
      assert (Hb : (b = (ix, y) \/ b = (jx, x)) /\ lex_le (key b) (text x) /\ lex_le (key b) (text y)).
      { unfold b. destruct (lex_cmp (text x) (text y)) eqn:E; (split; [by auto|]); unfold key; cbn [snd];
          rewrite !lex_le_lt_eq; [apply lex_cmp_eq in E|unfold lex_lt|apply lex_gt_lt in E]; auto. }
      destruct Hb as (Hb & Hbx & Hby).
      destruct (IH (Some b)) as (r & Hr & Hspec); [constructor; [by destruct Hb as [-> | ->]|done]|].
      exists r. split; [done|]. destruct r as [v|]; [|by destruct Hspec]. cbn [option_list app] in Hspec.
      destruct Hspec as [Hin Hle]. apply Forall_cons in Hle as [Hvb Hle]. split.
      * apply elem_of_cons in Hin as [->|Hin]; [|by do 2 right].
        destruct Hb as [-> | ->]; [by right; left|by left].
      * repeat constructor; [by etrans|by etrans|done].
    + destruct (IH (Some (ix, y)) Hok) as (r & Hr & Hspec). exists r. split; [done|]. by destruct r; [|destruct Hspec].
Qed.

Lemma present_spec vals : forall k ix (v : T),
  (ix, v) ∈ present k vals <-> k <= ix /\ vals.[ix - k] = Some (Some v).
Proof.
  induction vals as [|[u|] vals IH]; intros k ix v; cbn [present].
  - rewrite elem_of_nil, nget_nil. by split; [|intros []].
  - rewrite elem_of_cons, IH. destruct (N.eq_dec ix k) as [->|Hne].
    + rewrite N.sub_diag, nget_cons_0. split; [|intros [_ [= ->]]; by left]. intros [[= ->]|[? _]]; [done|lia].
    + split.
      * intros [[= -> _]|[Hk Hv]]; [done|]. split; [lia|]. rewrite nget_cons_pos by lia. rewrite <- Hv. f_equal. lia.
      * intros [Hk Hv]. right. rewrite nget_cons_pos in Hv by lia. split; [lia|]. rewrite <- Hv. f_equal. lia.
  - rewrite IH. destruct (N.eq_dec ix k) as [->|Hne].
    + rewrite N.sub_diag, nget_cons_0. split; [lia|by intros []].
    + split; intros [Hk Hv]; (split; [lia|]); [rewrite nget_cons_pos by lia|rewrite nget_cons_pos in Hv by lia];
        rewrite <- Hv; f_equal; lia.
Qed.

(** ** Draining the sorted iterator *)

Lemma pick_by_spec iters : Forall (Forall item_ok) iters ->
  (pick_by (head <$> iters) = Some None /\ concat iters = []) \/
  (exists ix x it, pick_by (head <$> iters) = Some (Some ix) /\ iters.[ix] = Some (x :: it) /\
    forall jx y it', iters.[jx] = Some (y :: it') -> lex_le (text x) (text y)).
Proof.
  intros Hok. unfold pick_by. set (vals := present 0 (head <$> iters)).
  assert (Hin : forall ix v, (ix, v) ∈ vals <-> exists it, iters.[ix] = Some (v :: it)).
  { intros ix v. unfold vals. rewrite present_spec, N.sub_0_r, nget_map. split.
    - intros [_ H]. destruct (iters.[ix]) as [[|y it]|] eqn:E; [done| |done]. cbn in H. injection H as ->. by exists it.
    - intros [it ->]. split; [lia|done]. }
  destruct (min_by_spec vals None) as (r & Hr & Hspec).
  { cbn [option_list app]. apply Forall_forall. intros [ix v] [it Hit]%Hin. cbn [snd].
    pose proof (Forall_nget _ _ _ _ Hok Hit) as H. by apply Forall_inv in H. }
  rewrite Hr, bind_Some_eq. destruct r as [[ix x]|]; cbn [option_map fst].
  - right. destruct Hspec as [Hv Hle]. cbn [option_list app] in *. apply Hin in Hv as [it Hit]. exists ix, x, it.
    split; [done|]. split; [done|]. intros jx y it' Hy. rewrite Forall_forall in Hle.
    apply (Hle (jx, y)). apply Hin. by exists it'.
  - left. split; [done|]. destruct Hspec as [_ Hnil]. clear Hok. assert (Hall : forall it, it ∈ iters -> it = []).
    { intros [|y it] [ix Hix]%elem_nget; [done|]. assert (Hv : (ix, y) ∈ vals) by (apply Hin; by exists it).
      rewrite Hnil in Hv. by apply elem_of_nil in Hv. }
    clear Hin Hnil Hr vals. induction iters as [|it iters IH]; [done|]. cbn [concat].
    rewrite (Hall it) by (by left). apply IH. intros it' Hit'. apply Hall. by right.
Qed.

Lemma sorted_split (it : list T) x : StronglySorted lex_lt (text <$> (x :: it)) ->
  StronglySorted lex_lt (text <$> it) /\ forall y, y ∈ it -> lex_lt (text x) (text y).
Proof.
  cbn [fmap list_fmap]. intros [H Hx]%StronglySorted_inv. split; [done|]. intros y Hy.
  rewrite Forall_forall in Hx. apply Hx. by apply list_elem_of_fmap_2.
Qed.

Lemma concat_nset (iters : list (list T)) ix x it : iters.[ix] = Some (x :: it) ->
  exists iters', nset iters ix it = Some iters' /\ concat iters ≡ₚ x :: concat iters' /\
    iters' = <[N.to_nat ix := it]> iters.
Proof.
  intros Hit. pose proof (nget_Some_lt _ _ _ Hit) as Hlt. unfold nset. ncmp. eexists. split; [done|]. split; [|done].
  unfold nget in Hit. rewrite insert_take_drop by (unfold lenN in Hlt; lia).
  rewrite <- (take_drop_middle iters _ _ Hit) at 1. rewrite !concat_app. cbn [concat].
  cbn [app]. by rewrite <- Permutation_middle.
Qed.

Lemma sorted_iterator_spec fuel : forall iters, (length (concat iters) < fuel)%nat ->
  Forall (Forall item_ok) iters -> Forall (fun it => StronglySorted lex_lt (text <$> it)) iters ->
  exists out, sorted_iterator pick_by fuel iters = Some out /\ out ≡ₚ concat iters /\
    StronglySorted lex_le (text <$> out).
Proof.
  induction fuel as [|fuel IH]; intros iters Hf Hok Hsort; [lia|]. cbn [sorted_iterator]. unfold sorted_next.
  destruct (pick_by_spec iters Hok) as [[-> Hnil]|(ix & x & it & -> & Hit & Hmin)].
  - rewrite !bind_Some_eq. exists []. rewrite Hnil. split; [done|]. split; [done|constructor].
  - destruct (concat_nset iters ix x it Hit) as (iters' & Hset & Hperm & Hi).
    rewrite bind_Some_eq, Hit, bind_Some_eq, Hset, !bind_Some_eq. cbn [fst snd].
    pose proof (Forall_nget _ _ _ _ Hsort Hit) as Hx. apply sorted_split in Hx as [Hit' Hx].
    pose proof (Forall_nget _ _ _ _ Hok Hit) as Hokx. cbn beta in Hokx. apply Forall_inv_tail in Hokx.
    destruct (IH iters') as (out & Hout & Hp & Hs).
    + apply Permutation_length in Hperm. simpl in Hperm. lia.
    + rewrite Hi. by apply Forall_insert.
    + rewrite Hi. by apply Forall_insert.
    + exists (x :: out). rewrite Hout. split; [done|]. split; [by rewrite Hperm, Hp|].
      cbn [fmap list_fmap]. constructor; [done|]. apply Forall_fmap. apply Forall_forall. intros y Hy.
      rewrite Hp in Hy. apply elem_of_concat in Hy as (it' & [jx Hj]%elem_nget & Hy).
      assert (Hle : lex_le (text x) (text y)); [|exact Hle]. rewrite Hi in Hj.
      unfold nget in Hj, Hit. destruct (decide (jx = ix)) as [->|Hne].
      * rewrite list_lookup_insert_eq in Hj by (by eapply lookup_lt_Some). injection Hj as <-.
        rewrite lex_le_lt_eq. left. by apply Hx.
      * rewrite list_lookup_insert_ne in Hj by lia. destruct it' as [|z it']; [by apply elem_of_nil in Hy|].
        pose proof (Hmin jx z it' Hj) as Hxz. apply elem_of_cons in Hy as [->|Hy]; [done|]. etrans; [exact Hxz|].
        pose proof (Forall_nget _ _ _ _ Hsort Hj) as Hz. apply sorted_split in Hz as [_ Hz].
        rewrite lex_le_lt_eq. left. by apply Hz.
Qed.
End by_entry.

(** Without duplicates, sorted is strictly sorted. *)
Lemma sorted_strict l : StronglySorted lex_le l -> NoDup l -> StronglySorted lex_lt l.
Proof.
  induction 1 as [|x l Hs IH Hx]; intros Hnd; [constructor|]. apply NoDup_cons in Hnd as [Hnx Hnd].
  constructor; [by apply IH|]. apply Forall_forall. intros y Hy. rewrite Forall_forall in Hx.
  pose proof (Hx y Hy) as Hle. rewrite lex_le_lt_eq in Hle. destruct Hle as [?| ->]; [done|]. by destruct Hnx.
Qed.

(** ** The merged dictionary *)

Lemma entries_keys es ss : Forall2 entry_repr es ss -> PfcDictEntry.to_bytes <$> es = ss /\ Forall entry_ok es.
Proof.
  induction 1 as [|e s es ss He _ [<- IH]]; [done|]. pose proof He as (<- & _). split; [done|]. by constructor.
Qed.

Lemma mapM_entries `{BytesSize} ds sss : Forall2 dict_repr ds sss -> exists iters, mapM dict_entries ds = Some iters /\
  Forall2 (Forall2 entry_repr) iters sss.
Proof.
  induction 1 as [|d ss ds sss Hd _ (iters & Hm & Hr)]; [by exists []|].
  destruct (dict_entries_spec d ss Hd) as (es & Hes & Hr'). exists (es :: iters). cbn [mapM].
  rewrite Hes, Hm, !bind_Some_eq. split; [done|]. by constructor.
Qed.

Lemma iters_keys iters sss : Forall2 (Forall2 entry_repr) iters sss ->
  PfcDictEntry.to_bytes <$> concat iters = concat sss /\ Forall (Forall entry_ok) iters.
Proof.
  induction 1 as [|es ss iters sss He _ [IH Hok]]; [done|]. apply entries_keys in He as [Hk He].
  cbn [concat]. rewrite fmap_app, Hk, IH. split; [done|]. by constructor.
Qed.


Lemma total_perm l k : l ≡ₚ k -> total l = total k.
Proof. induction 1 as [|x l k _ IH|x y l|l k m _ IH1 _ IH2]; unfold total in *; cbn [foldr] in *; lia. Qed.

Lemma text_total_app l k : total (l ++ k) = total l + total k.
Proof. induction l as [|x l IH]; [done|]. unfold total in *. cbn [foldr app]. lia. Qed.

Lemma lenN_perm {A} (l k : list A) : l ≡ₚ k -> lenN l = lenN k.
Proof. intros H. unfold lenN. by rewrite (Permutation_length H). Qed.

(** The merge of dictionaries without common strings: the files hold a
    dictionary of their strings in order. *)
Lemma merge_spec `{BytesSize} ds sss : Forall2 dict_repr ds sss -> NoDup (concat sss) ->
  total (concat sss) < 2 ^ 64 -> lenN (concat sss) < 2 ^ 35 ->
  exists ss, ss ≡ₚ concat sss /\ dict_input ss /\ merge_dictionaries ds [] [] = dictionary_files ss.
Proof.
  intros Hds Hnd Htot Hlen. destruct (mapM_entries ds sss Hds) as (iters & Hm & Hr).
  destruct (iters_keys iters sss Hr) as [Hkeys Hok].
  assert (Hsort : Forall (fun it => StronglySorted lex_lt (PfcDictEntry.to_bytes <$> it)) iters).
  { clear -Hr Hds. revert ds Hds. induction Hr as [|es ss iters sss He _ IH]; intros ds Hds; [constructor|].
    inversion Hds as [|d ? ds' ? Hd Hds' Eq1 Eq2]; subst. constructor; [|by eapply IH].
    apply entries_keys in He as [-> _]. by destruct Hd as (_ & _ & ? & _). }
  destruct (sorted_iterator_spec (fun e => e) (length (concat iters) + 1) iters ltac:(lia) Hok Hsort) as (out & Hout & Hp & Hs).
  change (sorted_iterator pick_entry (length (concat iters) + 1) iters = Some out) in Hout.
  change (StronglySorted lex_le (PfcDictEntry.to_bytes <$> out)) in Hs.
  set (ss := PfcDictEntry.to_bytes <$> out) in *.
  assert (Hperm : ss ≡ₚ concat sss) by (unfold ss; by rewrite Hp, Hkeys).
  exists ss. split; [done|].
  assert (Hin : dict_input ss).
  { split; [|split; [|split]].
    - rewrite Hperm. clear -Hds. induction Hds as [|d ss ds sss (_ & Hs & _) _ IH]; [constructor|].
      cbn [concat]. by apply Forall_app.
    - apply sorted_strict; [done|]. by rewrite Hperm.
    - by rewrite (total_perm _ _ Hperm).
    - by rewrite (lenN_perm _ _ Hperm). }
  split; [done|]. unfold merge_dictionaries, dictionary_files. rewrite Hm. cbn [or_panic]. rewrite bind_Ok_eq, Hout.
  cbn [or_panic]. rewrite bind_Ok_eq.
  assert (Heq : forall b l r, PfcDictFileBuilder.add_loop PfcDictFileBuilder.add_entry b l r =
    PfcDictFileBuilder.add_loop PfcDictFileBuilder.add b (PfcDictEntry.to_bytes <$> l) r).
  { intros b l. revert b. induction l as [|e l IH]; intros b r; [done|]. cbn [PfcDictFileBuilder.add_loop fmap list_fmap].
    change (PfcDictFileBuilder.add_entry b e) with (PfcDictFileBuilder.add b (PfcDictEntry.to_bytes e)).
    destruct (PfcDictFileBuilder.add b (PfcDictEntry.to_bytes e)) as [[id b']|]; [|done]. rewrite !bind_Some_eq. apply IH. }
  unfold PfcDictFileBuilder.add_all_entries, PfcDictFileBuilder.add_all. by rewrite Heq.
Qed.

(** ** Property *)

(** Merging dictionaries that have no string in common gives the files of
    the dictionary of all their strings, in order. *)
Theorem merge_dictionaries_spec `{BytesSize} ds sss : Forall dict_input sss -> Forall2 dictionary sss ds ->
  NoDup (concat sss) -> total (concat sss) < 2 ^ 64 -> lenN (concat sss) < 2 ^ 35 ->
  exists blocks offsets ss d, merge_dictionaries ds [] [] = Ok (blocks, offsets) /\ PfcDict.parse blocks offsets = Ok d /\
    ss ≡ₚ concat sss /\ dict_strings d = Some ss /\
    StronglySorted lex_lt ss /\ forall i, PfcDict.get d i = Some (ss.[i]).
Proof.
  intros Hin Hd Hnd Htot Hlen. destruct (merge_spec ds sss) as (ss & Hperm & Hss & Hfiles); [|done|done|done|].
  { clear -Hin Hd. induction Hd as [|s d sss ds Hd _ IH]; [constructor|]. apply Forall_cons in Hin as [Hs Hin].
    constructor; [by apply dictionary_repr|by apply IH]. }
  destruct (dict_build ss Hss) as (b & blocks & offsets & d & Hadd & Hfin & Hparse & Hr & _).
  exists blocks, offsets, ss, d. rewrite Hfiles. unfold dictionary_files. rewrite Hadd. cbn [or_panic].
  rewrite bind_Ok_eq. cbn [fst snd]. split; [done|]. split; [done|]. split; [done|].
  split; [by apply dict_strings_spec|]. split; [by destruct Hss as (_ & ? & _)|]. intros i. by apply dict_get_spec.
Qed.

Lemma merge_dictionaries_spec_witness : exists d1 d2, dictionary [[97]; [98; 99]] d1 /\ dictionary [[98]; [98; 99; 1]] d2 /\
  exists blocks offsets ss d, merge_dictionaries (H := {| bytes_size := 32 |}) [d1; d2] [] [] = Ok (blocks, offsets) /\
    PfcDict.parse blocks offsets = Ok d /\ ss ≡ₚ [[97]; [98; 99]; [98]; [98; 99; 1]] /\ dict_strings d = Some ss /\
    StronglySorted lex_lt ss /\ forall i, PfcDict.get (H := {| bytes_size := 32 |}) d i = Some (ss.[i]).
Proof.
  eexists _, _. split; [eexists _, _; split; vm_compute; reflexivity|].
  split; [eexists _, _; split; vm_compute; reflexivity|].
  apply (merge_dictionaries_spec (H := {| bytes_size := 32 |}) _ [[[97]; [98; 99]]; [[98]; [98; 99; 1]]]).
  - repeat (apply Forall_cons; split); [| |by apply Forall_nil]; concrete_input.
  - repeat constructor; (eexists _, _; split; vm_compute; reflexivity).
  - apply (bool_decide_unpack _); vm_compute; reflexivity.
  - vm_compute; reflexivity.
  - vm_compute; reflexivity.
Defined.
