(* ===== verification/LayerTypes.v ===== *)
(** * Triples and the interface of a layer (src/layer/layer.rs)

    Triples by id and by string, the triples in between that layer building
    resolves step by step, and the [Layer] trait: its required methods are a
    type class, its provided methods definitions over the class. *)

From stdpp Require Import gmap.
From S2P Require Import Prelude.
From S2P Require Import Words.
From S2P Require Import Strings.
Open Scope N_scope.

(** The name of a layer, [[u32; 5]]. *)
Definition layer_name : Type := list N.

Record LayerCounts : Type := mk_counts {
  node_count : N;
  predicate_count : N;
  value_count : N
}.

Module IdTriple.

Record t : Type := mk { subject : N; predicate : N; object : N }.

Definition new (subject predicate object : N) : t := mk subject predicate object.

#[export] Instance t_eq_dec : EqDecision t.
Proof. solve_decision. Defined.

(** The derived [Ord]. *)
Definition cmp (x y : t) : comparison :=
  match subject x ?= subject y with
  | Eq => match predicate x ?= predicate y with Eq => object x ?= object y | c => c end
  | c => c
  end.

End IdTriple.
Export (hints) IdTriple.

Inductive ObjectType : Type := Node (s : list N) | Value (s : list N).

#[export] Instance ObjectType_eq_dec : EqDecision ObjectType.
Proof. solve_decision. Defined.

Module StringTriple.

Record t : Type := mk { subject : list N; predicate : list N; object : ObjectType }.

Definition new_node (subject predicate object : list N) : t := mk subject predicate (Node object).

Definition new_value (subject predicate object : list N) : t := mk subject predicate (Value object).

End StringTriple.

Inductive PossiblyResolved (T : Type) : Type :=
| Unresolved (u : T)
| Resolved (id : N).
Arguments Unresolved {T} u.
Arguments Resolved {T} id.

Definition is_resolved {T} (p : PossiblyResolved T) : bool :=
  match p with Unresolved _ => false | Resolved _ => true end.

Definition unwrap_unresolved {T} (p : PossiblyResolved T) : option T :=
  match p with Unresolved u => Some u | Resolved _ => None end.

Definition unwrap_resolved {T} (p : PossiblyResolved T) : option N :=
  match p with Unresolved _ => None | Resolved id => Some id end.

Module PartiallyResolvedTriple.

Record t : Type := mk {
  subject : PossiblyResolved (list N);
  predicate : PossiblyResolved (list N);
  object : PossiblyResolved ObjectType
}.

Definition resolve_with (p : t) (node_map predicate_map value_map : gmap (list N) N) : option IdTriple.t :=
  subject ← (match subject p with Unresolved s => node_map !! s | Resolved id => Some id end);
  predicate ← (match predicate p with Unresolved s => predicate_map !! s | Resolved id => Some id end);
  object ← (match object p with
            | Unresolved (Node n) => node_map !! n
            | Unresolved (Value v) => value_map !! v
            | Resolved id => Some id
            end);
  Some (IdTriple.mk subject predicate object).

(** [as_resolved]: the outer [option] is the panic of [unwrap_resolved]. *)
Definition as_resolved (p : t) : option (option IdTriple.t) :=
  if negb (is_resolved (subject p)) || negb (is_resolved (predicate p)) || negb (is_resolved (object p))
  then Some None
  else
    s ← unwrap_resolved (subject p);
    p' ← unwrap_resolved (predicate p);
    o ← unwrap_resolved (object p);
    Some (Some (IdTriple.new s p' o)).

Definition make_resolved_or_zero (p : t) : t :=
  if negb (is_resolved (subject p)) || negb (is_resolved (predicate p)) || negb (is_resolved (object p))
  then mk (Resolved 0) (Resolved 0) (Resolved 0)
  else p.

End PartiallyResolvedTriple.

Definition to_resolved (x : IdTriple.t) : PartiallyResolvedTriple.t :=
  PartiallyResolvedTriple.mk (Resolved (IdTriple.subject x)) (Resolved (IdTriple.predicate x))
    (Resolved (IdTriple.object x)).

Definition to_unresolved (x : StringTriple.t) : PartiallyResolvedTriple.t :=
  PartiallyResolvedTriple.mk (Unresolved (StringTriple.subject x)) (Unresolved (StringTriple.predicate x))
    (Unresolved (StringTriple.object x)).

(** ** The trait

    The required methods of [Layer]; an outer [option] is a panic, and the
    iterators are the lists of what they yield. *)
Class Layer (L : Type) : Type := {
  name : L -> layer_name;
  parent_name : L -> option layer_name;
  node_and_value_count : L -> option N;
  layer_predicate_count : L -> option N;
  subject_id : L -> list N -> option (option N);
  predicate_id : L -> list N -> option (option N);
  object_node_id : L -> list N -> option (option N);
  object_value_id : L -> list N -> option (option N);
  id_subject : L -> N -> option (option (list N));
  id_predicate : L -> N -> option (option (list N));
  id_object : L -> N -> option (option ObjectType);
  all_counts : L -> option LayerCounts;
  triple_exists : L -> N -> N -> N -> option bool;
  triples : L -> option (list IdTriple.t);
  triples_s : L -> N -> option (list IdTriple.t);
  triples_sp : L -> N -> N -> option (list IdTriple.t);
  triples_p : L -> N -> option (list IdTriple.t);
  triples_o : L -> N -> option (list IdTriple.t);
  triple_addition_count : L -> option N;
  triple_removal_count : L -> option N
}.

(** ** The provided methods *)

Section provided.
Context `{Layer L} (l : L).

Definition id_triple_exists (x : IdTriple.t) : option bool :=
  triple_exists l (IdTriple.subject x) (IdTriple.predicate x) (IdTriple.object x).

Definition string_triple_to_id (x : StringTriple.t) : option (option IdTriple.t) :=
  s ← subject_id l (StringTriple.subject x);
  match s with
  | None => Some None
  | Some subject =>
      p ← predicate_id l (StringTriple.predicate x);
      match p with
      | None => Some None
      | Some predicate =>
          o ← (match StringTriple.object x with
               | Node node => object_node_id l node
               | Value value => object_value_id l value
               end);
          Some (match o with Some object => Some (IdTriple.mk subject predicate object) | None => None end)
      end
  end.

Definition string_triple_exists (x : StringTriple.t) : option bool :=
  r ← string_triple_to_id x;
  match r with
  | Some x => id_triple_exists x
  | None => Some false
  end.

Definition resolved_or {T} (id : option N) (u : T) : PossiblyResolved T :=
  match id with Some id => Resolved id | None => Unresolved u end.

Definition string_triple_to_partially_resolved (x : StringTriple.t) : option PartiallyResolvedTriple.t :=
  s ← subject_id l (StringTriple.subject x);
  p ← predicate_id l (StringTriple.predicate x);
  o ← (match StringTriple.object x with
       | Node node => object_node_id l node
       | Value value => object_value_id l value
       end);
  Some (PartiallyResolvedTriple.mk (resolved_or s (StringTriple.subject x))
          (resolved_or p (StringTriple.predicate x)) (resolved_or o (StringTriple.object x))).

Definition id_triple_to_string (x : IdTriple.t) : option (option StringTriple.t) :=
  s ← id_subject l (IdTriple.subject x);
  match s with
  | None => Some None
  | Some subject =>
      p ← id_predicate l (IdTriple.predicate x);
      match p with
      | None => Some None
      | Some predicate =>
          o ← id_object l (IdTriple.object x);
          Some (match o with Some object => Some (StringTriple.mk subject predicate object) | None => None end)
      end
  end.

Definition triple_count : option N :=
  additions ← triple_addition_count l;
  removals ← triple_removal_count l;
  csub additions removals.

End provided.

(** ** The order of triples *)

Definition triple_lt (x y : IdTriple.t) : Prop := IdTriple.cmp x y = Lt.

Definition triple_le (x y : IdTriple.t) : Prop := IdTriple.cmp x y <> Gt.

Lemma triple_lt_iff x y : triple_lt x y <->
  IdTriple.subject x < IdTriple.subject y \/
  IdTriple.subject x = IdTriple.subject y /\
    (IdTriple.predicate x < IdTriple.predicate y \/
     IdTriple.predicate x = IdTriple.predicate y /\ IdTriple.object x < IdTriple.object y).
Proof.
  unfold triple_lt, IdTriple.cmp. destruct (N.compare_spec (IdTriple.subject x) (IdTriple.subject y)) as [H|H|H].
  - destruct (N.compare_spec (IdTriple.predicate x) (IdTriple.predicate y)) as [H'|H'|H'].
    + rewrite N.compare_lt_iff. intuition lia.
    + split; [|done]. intuition lia.
    + split; [done|]. intuition lia.
  - split; [|done]. intuition lia.
  - split; [done|]. intuition lia.
Qed.

Lemma triple_cmp_eq x y : IdTriple.cmp x y = Eq <-> x = y.
Proof.
  unfold IdTriple.cmp. destruct x as [s p o], y as [s' p' o']. cbn. split.
  - destruct (N.compare_spec s s') as [->| |]; [|done|done]. destruct (N.compare_spec p p') as [->| |]; [|done|done].
    by intros ->%N.compare_eq_iff.
  - intros [= -> -> ->]. by rewrite !N.compare_refl.
Qed.

Lemma triple_cmp_gt x y : IdTriple.cmp x y = Gt <-> triple_lt y x.
Proof.
  unfold triple_lt, IdTriple.cmp. rewrite (N.compare_antisym (IdTriple.subject x)).
  rewrite (N.compare_antisym (IdTriple.predicate x)). rewrite (N.compare_antisym (IdTriple.object x)).
  destruct (IdTriple.subject x ?= IdTriple.subject y), (IdTriple.predicate x ?= IdTriple.predicate y),
    (IdTriple.object x ?= IdTriple.object y); done.
Qed.

#[export] Instance triple_lt_strict : StrictOrder triple_lt.
Proof.
  split.
  - intros x. unfold complement. rewrite triple_lt_iff. lia.
  - intros x y z. rewrite !triple_lt_iff. lia.
Qed.

Lemma triple_le_lt_eq x y : triple_le x y <-> triple_lt x y \/ x = y.
Proof.
  unfold triple_le. destruct (IdTriple.cmp x y) eqn:E.
  - split; [right; by apply triple_cmp_eq|done].
  - split; [by left|done].
  - split; [done|]. intros [H| ->]; [unfold triple_lt in H; congruence|].
    by rewrite (proj2 (triple_cmp_eq y y) eq_refl) in E.
Qed.

Lemma triple_total x y : triple_lt x y \/ x = y \/ triple_lt y x.
Proof.
  destruct (IdTriple.cmp x y) eqn:E; [right; left; by apply triple_cmp_eq|by left|right; right; by apply triple_cmp_gt].
Qed.

#[export] Instance triple_lt_dec x y : Decision (triple_lt x y).
Proof. unfold triple_lt. solve_decision. Defined.

(** ** Resolution *)

(** A triple all of whose ids are known resolves to them, whatever the maps. *)
Lemma resolve_resolved x m1 m2 m3 : PartiallyResolvedTriple.resolve_with (to_resolved x) m1 m2 m3 = Some x.
Proof. by destruct x. Qed.
