(* ===== verification/LayerModel.v ===== *)
(** * What a layer promises (the contract of the [Layer] trait of
      src/layer/layer.rs)

    To its clients a layer is a sequence of nodes and values, a sequence of
    predicates, and an ordered list of triples.  The ids count the sequences
    from 1.  The laws state each operation in these terms; what holds of the
    provided methods of the trait follows from them. *)

From S2P Require Import Prelude.
From S2P Require Import LayerTypes.
Open Scope N_scope.

Record layer_model : Type := mk_model {
  model_entries : list ObjectType;
  model_predicates : list (list N);
  model_triples : list IdTriple.t
}.

(** What has the given id. *)
Definition at_id {A} (E : list A) (id : N) : option A := if id =? 0 then None else E.[id - 1].

Definition node_of_entry (x : ObjectType) : option (list N) := match x with Node s => Some s | Value _ => None end.

(** [r] is an id of [x], when there is one. *)
Definition is_id_of {A} (E : list A) (x : A) (r : option N) : Prop :=
  match r with
  | Some id => at_id E id = Some x
  | None => x ∉ E
  end.

(** No name occurs twice, and the triples are in order and made of ids. *)
Record model_ok (m : layer_model) : Prop := {
  entries_nodup : NoDup (model_entries m);
  predicates_nodup : NoDup (model_predicates m);
  triples_sorted : StronglySorted triple_lt (model_triples m);
  triples_ids : Forall (fun t => is_Some (at_id (model_entries m) (IdTriple.subject t)) /\
    is_Some (at_id (model_predicates m) (IdTriple.predicate t)) /\
    is_Some (at_id (model_entries m) (IdTriple.object t))) (model_triples m)
}.

Abbreviation triples_where P ts := (filter (fun t : IdTriple.t => P t) ts).

Class LayerLaws (L : Type) `{Layer L} (implements : L -> layer_model -> Prop) : Prop := {
  subject_id_law l m s : implements l m -> s <> [] ->
    exists r, subject_id l s = Some r /\ is_id_of (model_entries m) (Node s) r;
  predicate_id_law l m s : implements l m -> s <> [] ->
    exists r, predicate_id l s = Some r /\ is_id_of (model_predicates m) s r;
  object_node_id_law l m s : implements l m -> s <> [] ->
    exists r, object_node_id l s = Some r /\ is_id_of (model_entries m) (Node s) r;
  object_value_id_law l m s : implements l m -> s <> [] ->
    exists r, object_value_id l s = Some r /\ is_id_of (model_entries m) (Value s) r;
  id_subject_law l m id : implements l m ->
    id_subject l id = Some (x ← at_id (model_entries m) id; node_of_entry x);
  id_predicate_law l m id : implements l m -> id_predicate l id = Some (at_id (model_predicates m) id);
  id_object_law l m id : implements l m -> id_object l id = Some (at_id (model_entries m) id);
  all_counts_law l m : implements l m -> exists c, all_counts l = Some c /\
    node_count c + value_count c = lenN (model_entries m) /\ predicate_count c = lenN (model_predicates m);
  node_and_value_count_law l m : implements l m -> node_and_value_count l = Some (lenN (model_entries m));
  predicate_count_law l m : implements l m -> layer_predicate_count l = Some (lenN (model_predicates m));
  triple_exists_law l m s p o : implements l m ->
    triple_exists l s p o = Some (bool_decide (IdTriple.mk s p o ∈ model_triples m));
  triples_law l m : implements l m -> triples l = Some (model_triples m);
  triples_s_law l m s : implements l m -> triples_s l s = Some (triples_where (fun t => IdTriple.subject t = s) (model_triples m));
  triples_sp_law l m s p : implements l m ->
    triples_sp l s p = Some (triples_where (fun t => IdTriple.subject t = s /\ IdTriple.predicate t = p) (model_triples m));
  triples_p_law l m p : implements l m -> p <> 0 ->
    triples_p l p = Some (triples_where (fun t => IdTriple.predicate t = p) (model_triples m));
  triples_o_law l m o : implements l m -> triples_o l o = Some (triples_where (fun t => IdTriple.object t = o) (model_triples m));
  model_law l m : implements l m -> model_ok m
}.

Lemma sorted_filter {A} (R : A -> A -> Prop) P `{forall x, Decision (P x)} (l : list A) : StronglySorted R l -> StronglySorted R (filter P l).
Proof.
  induction 1 as [|x l _ IH Hx]; [constructor|]. rewrite filter_cons. destruct (decide (P x)); [|done]. constructor; [done|].
  apply Forall_forall. intros y [_ Hy]%list_elem_of_filter. rewrite Forall_forall in Hx. by apply Hx.
Qed.

(** ** Lookups by id *)

Lemma at_id_Some {A} (E : list A) id x : at_id E id = Some x <-> 1 <= id /\ E.[id - 1] = Some x.
Proof. unfold at_id. destruct (N.eqb_spec id 0); split; intuition (done || lia). Qed.

Lemma at_id_elem {A} (E : list A) id x : at_id E id = Some x -> x ∈ E.
Proof. intros [_ H]%at_id_Some. by eapply nget_elem. Qed.

Lemma at_id_inj {A} (E : list A) i j x : NoDup E -> at_id E i = Some x -> at_id E j = Some x -> i = j.
Proof.
  intros Hn [Hi1 Hi]%at_id_Some [Hj1 Hj]%at_id_Some. unfold nget in Hi, Hj. pose proof (NoDup_lookup _ _ _ _ Hn Hi Hj). lia.
Qed.

Lemma elem_at_id {A} (E : list A) x : x ∈ E -> exists id, at_id E id = Some x.
Proof. intros [i Hi]%elem_nget. exists (i + 1). apply at_id_Some. split; [lia|]. by rewrite N.add_sub. Qed.

(** The id of an element of a sequence without duplicates. *)
Lemma is_id_unique {A} (E : list A) x r id : NoDup E -> is_id_of E x r -> at_id E id = Some x -> r = Some id.
Proof.
  intros Hn Hr Hid. destruct r as [j|]; cbn in Hr; [f_equal; by eapply at_id_inj|]. by apply at_id_elem in Hid.
Qed.

(** ** The provided methods *)

(** A string triple and the id triple it stands for. *)
Definition denotes (m : layer_model) (t : IdTriple.t) (x : StringTriple.t) : Prop :=
  at_id (model_entries m) (IdTriple.subject t) = Some (Node (StringTriple.subject x)) /\
  at_id (model_predicates m) (IdTriple.predicate t) = Some (StringTriple.predicate x) /\
  at_id (model_entries m) (IdTriple.object t) = Some (StringTriple.object x).

(** The strings that are looked up. *)
Definition nonempty_strings (x : StringTriple.t) : Prop :=
  StringTriple.subject x <> [] /\ StringTriple.predicate x <> [] /\
  match StringTriple.object x with Node s | Value s => s <> [] end.

Section laws.
Context `{LayerLaws L implements} (l : L) (m : layer_model) (Hl : implements l m).

Lemma object_id_law (o : ObjectType) : match o with Node s | Value s => s <> [] end ->
  exists r, (match o with Node node => object_node_id l node | Value value => object_value_id l value end) = Some r /\
    is_id_of (model_entries m) o r.
Proof using All. destruct o as [s|s]; [by apply object_node_id_law|by apply object_value_id_law]. Qed.

Lemma denotes_inj t t' x : denotes m t x -> denotes m t' x -> t = t'.
Proof using All.
  intros (H1 & H2 & H3) (H1' & H2' & H3'). destruct (model_law l m Hl) as [Hn Hp _ _]. destruct t as [s p o], t' as [s' p' o'].
  cbn in *. f_equal; [exact (at_id_inj _ _ _ _ Hn H1 H1')|exact (at_id_inj _ _ _ _ Hp H2 H2')|exact (at_id_inj _ _ _ _ Hn H3 H3')].
Qed.

Lemma string_triple_to_id_spec x : nonempty_strings x ->
  exists r, string_triple_to_id l x = Some r /\
    match r with
    | Some t => denotes m t x
    | None => forall t, ~ denotes m t x
    end.
Proof using All.
  intros (Hs & Hp & Ho). unfold string_triple_to_id.
  destruct (subject_id_law l m _ Hl Hs) as (rs & -> & His). rewrite bind_Some_eq.
  destruct rs as [s|]; [|exists None; split; [done|intros t (Ht & _); by apply at_id_elem in Ht]].
  destruct (predicate_id_law l m _ Hl Hp) as (rp & -> & Hip). rewrite bind_Some_eq.
  destruct rp as [p|]; [|exists None; split; [done|intros t (_ & Ht & _); by apply at_id_elem in Ht]].
  destruct (object_id_law (StringTriple.object x) Ho) as (ro & -> & Hio). rewrite bind_Some_eq.
  destruct ro as [o|]; [|exists None; split; [done|intros t (_ & _ & Ht); by apply at_id_elem in Ht]].
  eexists. split; [done|]. done.
Qed.

Lemma id_triple_to_string_spec t : exists r, id_triple_to_string l t = Some r /\
  match r with
  | Some x => denotes m t x
  | None => forall x, ~ denotes m t x
  end.
Proof using All.
  unfold id_triple_to_string. rewrite (id_subject_law l m) by done. rewrite bind_Some_eq.
  destruct (at_id (model_entries m) (IdTriple.subject t)) as [[s|v]|] eqn:Es; cbn [mbind option_bind node_of_entry];
    [|exists None; split; [done|intros x (Hx & _); congruence]..].
  rewrite (id_predicate_law l m), bind_Some_eq by done.
  destruct (at_id (model_predicates m) (IdTriple.predicate t)) as [p|] eqn:Ep; [|exists None; split; [done|intros x (_ & Hx & _); congruence]].
  rewrite (id_object_law l m), bind_Some_eq by done.
  destruct (at_id (model_entries m) (IdTriple.object t)) as [o|] eqn:Eo; [|exists None; split; [done|intros x (_ & _ & Hx); congruence]].
  eexists. split; [done|]. done.
Qed.

Lemma string_triple_exists_by x rs rp ro : subject_id l (StringTriple.subject x) = Some rs ->
  predicate_id l (StringTriple.predicate x) = Some rp ->
  (match StringTriple.object x with Node node => object_node_id l node | Value value => object_value_id l value end) = Some ro ->
  string_triple_exists l x = Some (match rs, rp, ro with
    | Some s, Some p, Some o => bool_decide (IdTriple.mk s p o ∈ model_triples m)
    | _, _, _ => false
    end).
Proof using All.
  intros Es Ep Eo. unfold string_triple_exists, string_triple_to_id. rewrite Es, bind_Some_eq. destruct rs as [s|]; [|done].
  rewrite Ep, bind_Some_eq. destruct rp as [p|]; [|done]. rewrite Eo, bind_Some_eq. destruct ro as [o|]; [|done].
  rewrite bind_Some_eq. unfold id_triple_exists. by rewrite (triple_exists_law l m).
Qed.

Lemma string_triple_exists_spec x : nonempty_strings x ->
  exists b, string_triple_exists l x = Some b /\ (b = true <-> exists t, t ∈ model_triples m /\ denotes m t x).
Proof using All.
  intros Hx. unfold string_triple_exists. destruct (string_triple_to_id_spec x Hx) as (r & -> & Hr). rewrite bind_Some_eq.
  destruct r as [t|].
  - unfold id_triple_exists. rewrite (triple_exists_law l m) by done. eexists. split; [done|]. rewrite bool_decide_eq_true.
    destruct t as [s p o]. cbn [IdTriple.subject IdTriple.predicate IdTriple.object]. split; [intros Hin; by exists (IdTriple.mk s p o)|].
    intros (t & Hin & Ht). by rewrite (denotes_inj _ _ _ Hr Ht).
  - exists false. split; [done|]. split; [done|]. intros (t & _ & Ht). by destruct (Hr t).
Qed.
End laws.
