(* ===== verification/Triples.v ===== *)
(** * The triples of one layer, by subject
      (src/layer/internal/subject_iterator.rs and mod.rs)

    A layer stores its triples as two adjacency lists, one from subjects to
    predicates and one from the positions of the first to objects, and, when
    not all subjects occur, the array of those that do.  The file holds the
    membership test of layer_triple_exists and the iterator with its seeks. *)

From S2P Require Import Prelude.
From S2P Require Import Words.
From S2P Require Import Codec.
From S2P Require Import LogArrays.
From S2P Require Import BitArrays.
From S2P Require Import BitIndexes.
From S2P Require Import AdjacencyLists.
From S2P Require Import LayerTypes.
Open Scope N_scope.

Module InternalLayerTripleSubjectIterator.

Record t : Type := mk {
  subjects : option LogArray.t;
  s_p_adjacency_list : AdjacencyList.t;
  sp_o_adjacency_list : AdjacencyList.t;
  s_position : N;
  s_p_position : N;
  sp_o_position : N;
  peeked : option IdTriple.t
}.

Definition new (subjects : option LogArray.t) (s_p_adjacency_list sp_o_adjacency_list : AdjacencyList.t) : t :=
  mk subjects s_p_adjacency_list sp_o_adjacency_list 0 0 0 None.

(** The iterator at other positions, with nothing peeked. *)
Definition set_positions (it : t) (s_position s_p_position sp_o_position : N) : t :=
  mk (subjects it) (s_p_adjacency_list it) (sp_o_adjacency_list it) s_position s_p_position sp_o_position None.

(** Where a subject, or the next one in use, is. *)
Definition seek_position (it : t) (subject : N) : option N :=
  match subjects it with
  | None => csub subject 1
  | Some subjects => MonotonicLogArray.nearest_index_of subjects subject
  end.

Definition seek_subject_ref (it : t) (subject : N) : option t :=
  if subject =? 0 then Some (set_positions it 0 0 0)
  else
    s_position ← seek_position it subject;
    left_count ← AdjacencyList.left_count (s_p_adjacency_list it);
    if left_count <=? s_position then
      Some (set_positions it s_position (AdjacencyList.right_count (s_p_adjacency_list it))
              (AdjacencyList.right_count (sp_o_adjacency_list it)))
    else
      s_p_position ← AdjacencyList.offset_for (s_p_adjacency_list it) (s_position + 1);
      sp_o_position ← AdjacencyList.offset_for (sp_o_adjacency_list it) (s_p_position + 1);
      Some (set_positions it s_position s_p_position sp_o_position).

(** The loop over the predicates of a subject; [fuel] bounds their number. *)
Fixpoint seek_predicate_loop (fuel : nat) (it : t) (predicate s_position s_p_position : N) : option (N * N) :=
  match fuel with
  | O => None
  | S fuel =>
      num ← AdjacencyList.num_at_pos (s_p_adjacency_list it) s_p_position;
      if num <? predicate then
        let s_p_position := s_p_position + 1 in
        last ← AdjacencyList.bit_at_pos (s_p_adjacency_list it) (s_p_position - 1);
        if (last : bool) then Some (s_position + 1, s_p_position)
        else seek_predicate_loop fuel it predicate s_position s_p_position
      else Some (s_position, s_p_position)
  end.

Definition seek_subject_predicate_ref (it : t) (subject predicate : N) : option t :=
  if predicate =? 0 then seek_subject_ref it subject
  else if subject =? 0 then Some (set_positions it 0 0 0)
  else
    s_position ← seek_position it subject;
    left_count ← AdjacencyList.left_count (s_p_adjacency_list it);
    if left_count <=? s_position then
      Some (set_positions it s_position (AdjacencyList.right_count (s_p_adjacency_list it))
              (AdjacencyList.right_count (sp_o_adjacency_list it)))
    else
      s_p_position ← AdjacencyList.offset_for (s_p_adjacency_list it) (s_position + 1);
      '(s_position, s_p_position) ←
        seek_predicate_loop (S (N.to_nat (AdjacencyList.right_count (s_p_adjacency_list it))))
          it predicate s_position s_p_position;
      sp_o_position ← AdjacencyList.offset_for (sp_o_adjacency_list it) (s_p_position + 1);
      Some (set_positions it s_position s_p_position sp_o_position).

Definition seek_s_p_pos (it : t) (pos : N) : option t :=
  left ← AdjacencyList.left_at_pos (s_p_adjacency_list it) pos;
  s_position ← csub left 1;
  sp_o_position ← AdjacencyList.offset_for (sp_o_adjacency_list it) (pos + 1);
  Some (set_positions it s_position pos sp_o_position).

(** The loop of [next]; [fuel] bounds the number of positions. *)
Fixpoint next_loop (fuel : nat) (it : t) : option (option IdTriple.t * t) :=
  match fuel with
  | O => None
  | S fuel =>
      if AdjacencyList.right_count (sp_o_adjacency_list it) <=? sp_o_position it then Some (None, it)
      else
        subject ← (match subjects it with
                   | Some subjects => LogArray.entry subjects (s_position it)
                   | None => Some (s_position it + 1)
                   end);
        s_p_bit ← AdjacencyList.bit_at_pos (s_p_adjacency_list it) (s_p_position it);
        predicate ← AdjacencyList.num_at_pos (s_p_adjacency_list it) (s_p_position it);
        let s_next := if (s_p_bit : bool) then s_position it + 1 else s_position it in
        if predicate =? 0 then
          next_loop fuel (set_positions it s_next (s_p_position it + 1) (sp_o_position it + 1))
        else
          sp_o_bit ← AdjacencyList.bit_at_pos (sp_o_adjacency_list it) (sp_o_position it);
          object ← AdjacencyList.num_at_pos (sp_o_adjacency_list it) (sp_o_position it);
          let it :=
            if (sp_o_bit : bool) then set_positions it s_next (s_p_position it + 1) (sp_o_position it + 1)
            else set_positions it (s_position it) (s_p_position it) (sp_o_position it + 1) in
          if object =? 0 then next_loop fuel it
          else Some (Some (IdTriple.new subject predicate object), it)
  end.

Definition next (it : t) : option (option IdTriple.t * t) :=
  match peeked it with
  | Some peeked => Some (Some peeked, set_positions it (s_position it) (s_p_position it) (sp_o_position it))
  | None => next_loop (S (N.to_nat (AdjacencyList.right_count (sp_o_adjacency_list it)))) it
  end.

Definition set_peeked (it : t) (peeked : option IdTriple.t) : t :=
  mk (subjects it) (s_p_adjacency_list it) (sp_o_adjacency_list it) (s_position it) (s_p_position it)
    (sp_o_position it) peeked.

Definition peek (it : t) : option (option IdTriple.t * t) :=
  '(r, it) ← next it;
  Some (r, set_peeked it r).

(** Draining the iterator. *)
Fixpoint collect (fuel : nat) (it : t) : option (list IdTriple.t) :=
  match fuel with
  | O => None
  | S fuel =>
      '(r, it) ← next it;
      match r with
      | None => Some []
      | Some x => xs ← collect fuel it; Some (x :: xs)
      end
  end.

End InternalLayerTripleSubjectIterator.

(** ** Membership *)

(** The loop over the predicates: the position of the predicate, or [None] when
    the subject does not have it. *)
Fixpoint find_predicate (fuel : nat) (s_p : AdjacencyList.t) (s_p_position predicate : N) : option (option N) :=
  match fuel with
  | O => None
  | S fuel =>
      bit ← AdjacencyList.bit_at_pos s_p s_p_position;
      num ← AdjacencyList.num_at_pos s_p s_p_position;
      if num =? predicate then Some (Some s_p_position)
      else if (bit : bool) then Some None
      else find_predicate fuel s_p (s_p_position + 1) predicate
  end.

(** The loop over the objects. *)
Fixpoint find_object (fuel : nat) (sp_o : AdjacencyList.t) (sp_o_position object : N) : option bool :=
  match fuel with
  | O => None
  | S fuel =>
      bit ← AdjacencyList.bit_at_pos sp_o sp_o_position;
      num ← AdjacencyList.num_at_pos sp_o sp_o_position;
      if num =? object then Some true
      else if (bit : bool) then Some false
      else find_object fuel sp_o (sp_o_position + 1) object
  end.

Definition layer_triple_exists (subjects : option LogArray.t) (s_p sp_o : AdjacencyList.t)
    (subject predicate object : N) : option bool :=
  if (subject =? 0) || (predicate =? 0) || (object =? 0) then Some false
  else
    s_position ← (match subjects with
                  | None =>
                      left_count ← AdjacencyList.left_count s_p;
                      if left_count <? subject then Some None else Some (Some (subject - 1))
                  | Some subjects => MonotonicLogArray.index_of subjects subject
                  end);
    match s_position with
    | None => Some false
    | Some s_position =>
        s_p_position ← AdjacencyList.offset_for s_p (s_position + 1);
        r ← find_predicate (S (N.to_nat (AdjacencyList.right_count s_p))) s_p s_p_position predicate;
        match r with
        | None => Some false
        | Some s_p_position =>
            sp_o_position ← AdjacencyList.offset_for sp_o (s_p_position + 1);
            find_object (S (N.to_nat (AdjacencyList.right_count sp_o))) sp_o sp_o_position object
        end
    end.

(** ** What is stored *)

(** The subject with the position [l], from 1. *)
Definition subject_at (subs : option (list N)) (l : N) : option N :=
  match subs with
  | Some xs => if l =? 0 then None else xs.[l - 1]
  | None => Some l
  end.

(** The triple of an element of the second list: position and object. *)
Definition triple_of (subs : option (list N)) (sp : list (list N)) (x : N * N) : option IdTriple.t :=
  if x.2 =? 0 then None
  else
    '(l, p) ← (flat sp).[x.1 - 1];
    s ← subject_at subs l;
    Some (IdTriple.mk s p x.2).

Definition triples_of (subs : option (list N)) (sp spo : list (list N)) : list IdTriple.t :=
  omap (triple_of subs sp) (flat spo).

Definition subjects_repr (subjects : option LogArray.t) (subs : option (list N)) (sp : list (list N)) : Prop :=
  match subjects, subs with
  | Some la, Some xs => la_repr la xs /\ increasing xs /\ lenN xs = lenN sp /\ Forall (fun s => 0 < s) xs
  | None, None => True
  | _, _ => False
  end.

(** The predicates of a subject increase; a predicate that is 0 stands for a
    subject without triples. *)
Definition gaps_ok (sp spo : list (list N)) : Prop :=
  Forall increasing sp /\ forall k p seg, (concat sp).[k] = Some p -> spo.[k] = Some seg ->
    if p =? 0 then seg = [0] else Forall (fun o => o <> 0) seg.

Definition stored_as (subjects : option LogArray.t) (s_p sp_o : AdjacencyList.t)
    (subs : option (list N)) (sp spo : list (list N)) : Prop :=
  al_repr s_p sp /\ al_repr sp_o spo /\ subjects_repr subjects subs sp /\
  lenN spo = lenN (concat sp) /\ gaps_ok sp spo /\
  StronglySorted triple_lt (triples_of subs sp spo).

(** The structures store the triples [ts]. *)
Definition stored (subjects : option LogArray.t) (s_p sp_o : AdjacencyList.t) (ts : list IdTriple.t) : Prop :=
  exists subs sp spo, stored_as subjects s_p sp_o subs sp spo /\ ts = triples_of subs sp spo.

(** ** Positions *)

Section flat_from.

(** Every stored number with its left number, the first segment having [c]. *)
Definition flat_from (c : N) (segs : list (list N)) : list (N * N) :=
  zip (AdjacencyBitCountStream.run c (bits_of segs)) (concat segs).

Lemma flat_from_app a b c : Forall (fun s => s <> []) a ->
  flat_from c (a ++ b) = flat_from c a ++ flat_from (c + lenN a) b.
Proof.
  intros Ha. unfold flat_from. rewrite bits_of_app, run_app, concat_app, lenN_bits_of, rank_bits_of by done.
  apply zip_with_app. rewrite length_run. pose proof (lenN_bits_of a Ha). unfold lenN in *. lia.
Qed.

Lemma flat_from_cons s c b : s <> [] -> flat_from c (s :: b) = (pair c <$> s) ++ flat_from (c + 1) b.
Proof.
  intros Hs. change (s :: b) with ([s] ++ b). rewrite flat_from_app by (by constructor). f_equal.
  unfold flat_from. rewrite bits_of_cons. change (bits_of []) with (@nil bool). cbn [concat].
  by rewrite !app_nil_r, run_seg, zip_replicate.
Qed.

Lemma flat_from_zeros n : forall c, Forall (fun x => x.2 = 0) (flat_from c (replicate n [0])).
Proof. induction n as [|n IH]; intros c; [constructor|]. cbn [replicate]. rewrite flat_from_cons by done. by constructor. Qed.

Lemma snd_flat segs : Forall (fun s => s <> []) segs -> (flat segs).*2 = concat segs.
Proof.
  intros Hs. unfold flat. apply snd_zip. rewrite length_run. pose proof (lenN_bits_of segs Hs). unfold lenN in *. lia.
Qed.
End flat_from.

Section positions.
Context (segs : list (list N)) (Hs : Forall (fun s => s <> []) segs).

Lemma flat_of pre s post j x : segs = pre ++ s :: post -> s.[j] = Some x ->
  (flat segs).[lenN (concat pre) + j] = Some (lenN pre + 1, x).
Proof.
  intros E Hx. pose proof (nget_Some_lt _ _ _ Hx) as Hj. pose proof Hs as Hpre. rewrite E, Forall_app in Hpre.
  destruct Hpre as [Hpre _]. rewrite (flat_get segs _ x); [|done|by rewrite E, position_num].
  rewrite E, position_rank by done. do 2 f_equal. lia.
Qed.

Lemma concat_split_at q : q < lenN (concat segs) ->
  exists pre s post j x, segs = pre ++ s :: post /\ q = lenN (concat pre) + j /\ s.[j] = Some x.
Proof.
  clear Hs. revert q. induction segs as [|s l IH]; intros q Hq; [change (lenN (concat [])) with 0 in Hq; lia|].
  cbn [concat] in Hq. rewrite lenN_app in Hq. destruct (N.lt_ge_cases q (lenN s)) as [Hlt|Hge].
  - destruct (nget_lt s q Hlt) as [x Hx]. by exists [], s, l, q, x.
  - destruct (IH (q - lenN s)) as (pre & s' & post & j & x & -> & Hj & Hx); [lia|].
    exists (s :: pre), s', post, j, x. split; [done|]. split; [|done]. cbn [concat]. rewrite lenN_app. lia.
Qed.

Lemma flat_split q l x : (flat segs).[q] = Some (l, x) ->
  exists pre s post j, segs = pre ++ s :: post /\ l = lenN pre + 1 /\ q = lenN (concat pre) + j /\ s.[j] = Some x.
Proof.
  intros Hq. pose proof (nget_Some_lt _ _ _ Hq) as Hlt. rewrite lenN_flat in Hlt by done.
  destruct (concat_split_at q Hlt) as (pre & s & post & j & y & E & -> & Hy).
  rewrite (flat_of pre s post j y E Hy) in Hq. injection Hq as <- <-. by exists pre, s, post, j.
Qed.

Lemma flat_num q l x : (flat segs).[q] = Some (l, x) -> (concat segs).[q] = Some x.
Proof. intros (pre & s & post & j & -> & _ & -> & Hx)%flat_split. pose proof (nget_Some_lt _ _ _ Hx). by rewrite position_num. Qed.

Lemma flat_left q l x : (flat segs).[q] = Some (l, x) -> 1 <= l <= lenN segs.
Proof. intros (pre & s & post & j & -> & -> & _ & _)%flat_split. rewrite lenN_app, lenN_cons. lia. Qed.

(** The bit of a position tells whether the next position has the same left number. *)
Lemma flat_next q l x : (flat segs).[q] = Some (l, x) ->
  (bit_at (bits_of segs) q = false -> exists x', (flat segs).[q + 1] = Some (l, x')) /\
  (bit_at (bits_of segs) q = true -> forall l' x', (flat segs).[q + 1] = Some (l', x') -> l' = l + 1) /\
  (bit_at (bits_of segs) q = true -> q + 1 < lenN (concat segs) -> exists x', (flat segs).[q + 1] = Some (l + 1, x')).
Proof.
  intros (pre & s & post & j & E & -> & -> & Hx)%flat_split. pose proof (nget_Some_lt _ _ _ Hx) as Hj.
  pose proof Hs as Hs'. rewrite E, Forall_app, Forall_cons in Hs'. destruct Hs' as (Hpre & Hsne & Hpost).
  assert (Hbit : bit_at (bits_of segs) (lenN (concat pre) + j) = (j + 1 =? lenN s)).
  { by rewrite E, position_bit by done. }
  rewrite Hbit. clear Hbit.
  assert (Hend : j + 1 = lenN s -> forall s' post', post = s' :: post' -> exists x',
    s'.[0] = Some x' /\ (flat segs).[lenN (concat pre) + j + 1] = Some (lenN pre + 1 + 1, x')).
  { intros Hl s' post' ->. apply Forall_cons in Hpost as [Hs'ne _]. destruct s' as [|x' s']; [done|]. exists x'.
    split; [done|]. rewrite cons_middle, app_assoc in E. pose proof (flat_of _ _ _ 0 x' E eq_refl) as H.
    rewrite concat_app, !lenN_app in H. cbn [concat] in H. rewrite app_nil_r in H. change (lenN [s]) with 1 in H.
    rewrite <- H. f_equal. lia. }
  assert (Hnone : j + 1 = lenN s -> post = [] -> (flat segs).[lenN (concat pre) + j + 1] = None).
  { intros Hl ->. apply nget_None. rewrite lenN_flat by done. rewrite E, concat_app, lenN_app. cbn [concat].
    rewrite app_nil_r. lia. }
  split; [|split].
  - intros Hb%N.eqb_neq. destruct (nget_lt s (j + 1)) as [x' Hx']; [lia|]. exists x'.
    rewrite <- (flat_of pre s post (j + 1) x' E Hx'). f_equal. lia.
  - intros Hl%N.eqb_eq l' x' Hn. destruct post as [|s' post']; [by rewrite Hnone in Hn|].
    destruct (Hend Hl s' post' eq_refl) as (y & _ & Hy). rewrite Hy in Hn. by injection Hn as <- _.
  - intros Hl%N.eqb_eq Hlt. destruct post as [|s' post'].
    + rewrite E, concat_app, lenN_app in Hlt. cbn [concat] in Hlt. rewrite app_nil_r in Hlt. lia.
    + destruct (Hend Hl s' post' eq_refl) as (y & _ & Hy). by exists y.
Qed.

Lemma flat_first x0 : (flat segs).[0] = Some x0 -> x0.1 = 1.
Proof.
  destruct x0 as [l x]. intros (pre & s & post & j & E & -> & Hq & _)%flat_split. cbn [fst].
  destruct pre as [|s0 pre]; [done|]. exfalso. pose proof Hs as Hs0. rewrite E in Hs0. cbn [app] in Hs0. apply Forall_cons in Hs0 as [Hs0 _].
  cbn [concat] in Hq. rewrite lenN_app in Hq. destruct s0; [done|]. rewrite lenN_cons in Hq. lia.
Qed.
End positions.

Section al_positions.
Import AdjacencyList.
Context (al : t) (segs : list (list N)) (Hal : al_repr al segs).

Lemma al_nonempty : Forall (fun s => s <> []) segs.
Proof. by destruct Hal. Qed.

Lemma al_right_count : right_count al = lenN (concat segs).
Proof. unfold right_count. by apply al_len. Qed.

Lemma al_at q l x : (flat segs).[q] = Some (l, x) ->
  pair_at_pos al q = Some (l, x) /\ left_at_pos al q = Some l /\
  bit_at_pos al q = Some (bit_at (bits_of segs) q) /\ num_at_pos al q = Some x.
Proof.
  intros (pre & s & post & j & E & -> & -> & Hx)%(flat_split _ al_nonempty).
  destruct (al_pair_at_pos al segs Hal pre s post j x E Hx) as (H1 & H2 & H3 & H4).
  split; [done|]. split; [done|]. split; [|done]. rewrite H3. f_equal.
  pose proof al_nonempty as Hne. rewrite E, Forall_app in Hne. destruct Hne as [Hne _].
  pose proof (nget_Some_lt _ _ _ Hx). by rewrite E, position_bit by done.
Qed.

(** Where the segment of a left number starts. *)
Lemma al_offset l : 1 <= l <= lenN segs -> exists q x, offset_for al l = Some q /\
  (flat segs).[q] = Some (l, x) /\ forall q' l' x', q' < q -> (flat segs).[q'] = Some (l', x') -> l' < l.
Proof.
  intros Hl. destruct (nget_lt segs (l - 1)) as [s Hsl]; [lia|].
  destruct (nget_split _ _ _ Hsl) as (pre & post & E & Hpre).
  pose proof al_nonempty as Hne. pose proof Hne as Hne'. rewrite E, Forall_app, Forall_cons in Hne'.
  destruct Hne' as (Hp & Hs & _). destruct s as [|x s]; [done|]. exists (lenN (concat pre)), x.
  replace l with (lenN pre + 1) by lia. split; [by apply (al_offset_for al segs Hal pre (x :: s) post)|]. split.
  - pose proof (flat_of segs Hne pre (x :: s) post 0 x E eq_refl) as H. by rewrite N.add_0_r in H.
  - intros q' l' x' Hq' Hf. pose proof (flat_split segs Hne _ _ _ Hf) as (pre' & s' & post' & j & E' & -> & -> & Hx').
    destruct (N.lt_ge_cases (lenN pre') (lenN pre)) as [|Hge]; [lia|]. exfalso.
    assert (Hle : lenN (concat pre) <= lenN (concat pre')); [|lia].
    assert (Hpp : pre = takeN (lenN pre) pre').
    { rewrite E' in E. rewrite <- (takeN_dropN (lenN pre) pre'), <- app_assoc in E.
      apply app_inj_1 in E as [E _]; [done|]. unfold lenN, takeN in *. rewrite length_take. lia. }
    rewrite Hpp. rewrite <- (takeN_dropN (lenN pre) pre') at 2. rewrite concat_app, lenN_app. lia.
Qed.

(** The position after the last one. *)
Lemma al_offset_end : al_repr al segs -> 0 < lenN segs -> offset_for al (lenN segs + 1) = Some (lenN (concat segs)).
Proof.
  intros _ Hpos. unfold offset_for. ncmp. mstep. rewrite N.add_sub.
  destruct (exists_last (l := segs)) as (pre & s & E); [by intros E; rewrite E in Hpos|].
  pose proof (al_select al segs Hal pre s [] E) as Hsel. pose proof al_nonempty as Hne.
  rewrite E, Forall_app, Forall_singleton in Hne. destruct Hne as [_ Hs].
  rewrite E, lenN_app. change (lenN [s]) with 1. rewrite Hsel, bind_Some_eq. mcbn. f_equal.
  rewrite concat_app, lenN_app. cbn [concat]. rewrite app_nil_r. destruct s; [done|]. rewrite lenN_cons. lia.
Qed.
End al_positions.

(** ** The iterator *)

Section iterator.
Import InternalLayerTripleSubjectIterator.
Context (subjs : option LogArray.t) (s_p sp_o : AdjacencyList.t).
Context (subs : option (list N)) (sp spo : list (list N)).
Context (Hst : stored_as subjs s_p sp_o subs sp spo).

Definition triples_from (q : N) : list IdTriple.t := omap (triple_of subs sp) (dropN q (flat spo)).

Lemma sp_nonempty : Forall (fun s => s <> []) sp.
Proof. destruct Hst as (H & _). by destruct H. Qed.

Lemma spo_nonempty : Forall (fun s => s <> []) spo.
Proof. destruct Hst as (_ & H & _). by destruct H. Qed.

Lemma flat_spo_len : lenN (flat spo) = lenN (concat spo).
Proof. apply lenN_flat, spo_nonempty. Qed.

Lemma flat_sp_len : lenN (flat sp) = lenN spo.
Proof. rewrite lenN_flat by apply sp_nonempty. by destruct Hst as (_ & _ & _ & -> & _). Qed.

Lemma subject_at_total l : 1 <= l <= lenN sp -> exists s, subject_at subs l = Some s /\
  (match subjs with Some subjects => LogArray.entry subjects (l - 1) | None => Some (l - 1 + 1) end) = Some s.
Proof.
  intros Hl. destruct Hst as (_ & _ & Hsub & _). unfold subjects_repr, subject_at in *.
  destruct subjs as [la|], subs as [xs|]; try done.
  - destruct Hsub as (Hla & _ & Hlen & _). destruct (nget_lt xs (l - 1)) as [s Hs]; [lia|]. exists s.
    rewrite (la_entry _ _ _ Hla), Hs. replace (l =? 0) with false by (symmetry; apply N.eqb_neq; lia). done.
  - exists l. split; [done|]. f_equal. lia.
Qed.

(** An element of the second list, and the one of the first list it belongs to. *)
Lemma row_at q k o : (flat spo).[q] = Some (k, o) -> exists l p s,
  1 <= k /\ (flat sp).[k - 1] = Some (l, p) /\ subject_at subs l = Some s /\ 1 <= l <= lenN sp /\
  triple_of subs sp (k, o) = (if o =? 0 then None else Some (IdTriple.mk s p o)) /\
  (p = 0 <-> o = 0) /\ (p = 0 -> bit_at (bits_of spo) q = true).
Proof.
  intros Hq. pose proof (flat_left spo spo_nonempty _ _ _ Hq) as Hk.
  destruct (nget_lt (flat sp) (k - 1)) as [[l p] Hp]; [rewrite flat_sp_len; lia|].
  pose proof (flat_left sp sp_nonempty _ _ _ Hp) as Hl. destruct (subject_at_total l Hl) as (s & Hs & _).
  exists l, p, s. split; [lia|]. split; [done|]. split; [done|]. split; [done|]. split.
  { unfold triple_of. cbn [fst snd]. rewrite Hp, bind_Some_eq. cbn [fst snd]. by rewrite Hs. }
  destruct (flat_split spo spo_nonempty _ _ _ Hq) as (pre & seg & post & j & E & -> & -> & Hj).
  destruct Hst as (_ & _ & _ & _ & [_ Hgap] & _). pose proof (flat_num sp sp_nonempty _ _ _ Hp) as Hcp.
  assert (Hseg : spo.[lenN pre + 1 - 1] = Some seg) by (rewrite N.add_sub, E, nget_app_r by lia; by rewrite N.sub_diag).
  specialize (Hgap _ _ _ Hcp Hseg). pose proof (nget_Some_lt _ _ _ Hj) as Hjl.
  destruct (N.eqb_spec p 0) as [Hz|Hz].
  - subst seg. change (lenN [0]) with 1 in Hjl. replace j with 0 in * by lia. rewrite nget_cons_0 in Hj. injection Hj as <-.
    split; [done|]. intros _. pose proof spo_nonempty as Hne. rewrite E, Forall_app in Hne. destruct Hne as [Hne _].
    by rewrite E, position_bit.
  - pose proof (Forall_nget _ _ _ _ Hgap Hj) as Ho. cbn in Ho. split; [|done]. by split.
Qed.

Definition at_pos (it : t) (q : N) : Prop :=
  subjects it = subjs /\ s_p_adjacency_list it = s_p /\ sp_o_adjacency_list it = sp_o /\ sp_o_position it = q /\
  forall k o, (flat spo).[q] = Some (k, o) -> exists l p,
    (flat sp).[k - 1] = Some (l, p) /\ s_p_position it = k - 1 /\ s_position it = l - 1.

(** Moving to the next position of the second list. *)
Lemma at_pos_next it q k o l p : at_pos it q -> (flat spo).[q] = Some (k, o) -> (flat sp).[k - 1] = Some (l, p) ->
  let s_next := if bit_at (bits_of sp) (k - 1) then s_position it + 1 else s_position it in
  at_pos (if bit_at (bits_of spo) q then set_positions it s_next (s_p_position it + 1) (q + 1)
          else set_positions it (s_position it) (s_p_position it) (q + 1)) (q + 1).
Proof.
  intros (H1 & H2 & H3 & H4 & Hat) Hq Hk s_next. destruct (Hat k o Hq) as (l' & p' & Hk' & Hsp & Hs).
  rewrite Hk in Hk'. injection Hk' as <- <-. pose proof (flat_left spo spo_nonempty _ _ _ Hq) as Hk1.
  pose proof (flat_left sp sp_nonempty _ _ _ Hk) as Hl1.
  destruct (flat_next spo spo_nonempty _ _ _ Hq) as (Hf & Ht & _).
  destruct (bit_at (bits_of spo) q) eqn:Eb.
  - split; [done|]. split; [done|]. split; [done|]. split; [done|]. intros k' o' Hq'.
    pose proof (Ht eq_refl k' o' Hq') as ->. clear Ht Hf. pose proof (flat_left spo spo_nonempty _ _ _ Hq') as Hk2.
    destruct (nget_lt (flat sp) (k + 1 - 1)) as [[l' p'] Hp']; [rewrite flat_sp_len; lia|].
    exists l', p'. split; [done|]. cbn [s_p_position s_position set_positions]. split; [lia|].
    destruct (flat_next sp sp_nonempty _ _ _ Hk) as (Hf & Ht & _).
    replace (k + 1 - 1) with (k - 1 + 1) in Hp' by lia. unfold s_next.
    destruct (bit_at (bits_of sp) (k - 1)).
    + rewrite (Ht eq_refl _ _ Hp'). lia.
    + destruct (Hf eq_refl) as (x' & Hx'). rewrite Hp' in Hx'. injection Hx' as -> _. lia.
  - split; [done|]. split; [done|]. split; [done|]. split; [done|]. intros k' o' Hq'.
    destruct (Hf eq_refl) as (x' & Hx'). rewrite Hq' in Hx'. injection Hx' as -> _. by exists l, p.
Qed.

Lemma next_loop_spec fuel : forall it q, at_pos it q -> peeked it = None -> lenN (flat spo) - q < N.of_nat fuel ->
  exists it' q', next_loop fuel it = Some (head (triples_from q), it') /\ at_pos it' q' /\ peeked it' = None /\
    triples_from q' = tail (triples_from q).
Proof.
  induction fuel as [|fuel IH]; intros it q Hat Hpk Hf; [lia|]. cbn [next_loop].
  pose proof Hat as (H1 & H2 & H3 & H4 & Hpos). pose proof Hst as (Hsp & Hspo & _). rewrite H1, H2, H3, H4.
  rewrite (al_right_count sp_o spo Hspo), <- flat_spo_len. destruct (N.leb_spec (lenN (flat spo)) q) as [Hge|Hlt].
  - exists it, q. assert (Hnil : triples_from q = []).
    { unfold triples_from, dropN. by rewrite drop_ge by (unfold lenN in Hge; lia). }
    rewrite Hnil. done.
  - destruct (nget_lt (flat spo) q Hlt) as [[k o] Hq]. destruct (Hpos k o Hq) as (l & p & Hk & Hps & Hss).
    destruct (row_at q k o Hq) as (l' & p' & s & Hk1 & Hk' & Hs & Hl & Htr & Hz & Hb).
    rewrite Hk in Hk'. injection Hk' as <- <-.
    destruct (subject_at_total l Hl) as (s' & Hs' & He). rewrite Hs in Hs'. injection Hs' as <-.
    rewrite Hss, He, bind_Some_eq, Hps.
    destruct (al_at s_p sp Hsp _ _ _ Hk) as (_ & _ & -> & ->). rewrite !bind_Some_eq.
    destruct (al_at sp_o spo Hspo _ _ _ Hq) as (_ & _ & -> & ->). rewrite !bind_Some_eq.
    pose proof (at_pos_next it q k o l p Hat Hq Hk) as Hnext. cbv zeta in Hnext. rewrite Hss, Hps in Hnext.
    assert (Hdrop : triples_from q = option_list (triple_of subs sp (k, o)) ++ triples_from (q + 1)).
    { unfold triples_from. rewrite (dropN_cons _ _ _ Hq). cbn [omap list_omap]. by destruct (triple_of subs sp (k, o)). }
    destruct (N.eqb_spec p 0) as [Hp0|Hp0].
    + rewrite (Hb Hp0) in Hnext. assert (o = 0) by tauto. subst o. rewrite Htr in Hdrop. cbn [N.eqb option_list app] in Hdrop.
      rewrite Hdrop. apply IH; [exact Hnext|done|lia].
    + assert (Ho : o <> 0) by tauto. apply N.eqb_neq in Ho. rewrite Ho in *. rewrite Htr in Hdrop. cbn [option_list app] in Hdrop.
      rewrite Hdrop. eexists _, (q + 1). split; [done|]. split; [|split; [|done]].
      * destruct (bit_at (bits_of spo) q); exact Hnext.
      * by destruct (bit_at (bits_of spo) q).
Qed.

(** The iterator is to yield the triples [ts]. *)
Definition yields (it : t) (ts : list IdTriple.t) : Prop :=
  exists q, at_pos it q /\
    ts = match peeked it with Some x => x :: triples_from q | None => triples_from q end.

Lemma at_pos_peeked it q x : at_pos it q -> at_pos (set_peeked it x) q.
Proof. done. Qed.

Lemma next_yields it ts : yields it ts -> exists it', next it = Some (head ts, it') /\ yields it' (tail ts) /\ peeked it' = None.
Proof.
  intros (q & Hat & ->). unfold next. destruct (peeked it) as [x|] eqn:Ep.
  - eexists. split; [done|]. split; [|done]. exists q. split; [|done].
    destruct Hat as (H1 & H2 & H3 & H4 & Hpos). by split.
  - pose proof Hat as (_ & _ & H3 & _). destruct Hst as (_ & Hspo & _). rewrite H3, (al_right_count sp_o spo Hspo), <- flat_spo_len.
    destruct (next_loop_spec (S (N.to_nat (lenN (flat spo)))) it q Hat Ep) as (it' & q' & -> & Hat' & Hp' & Ht); [lia|].
    exists it'. split; [done|]. split; [|done]. exists q'. by rewrite Hp', Ht.
Qed.

Lemma peek_yields it ts : yields it ts -> exists it', peek it = Some (head ts, it') /\ yields it' ts.
Proof.
  intros Hy. destruct (next_yields it ts Hy) as (it' & Hn & (q & Hat & Ht) & Hp). unfold peek. rewrite Hn, bind_Some_eq.
  cbn [fst snd]. eexists. split; [done|]. exists q. split; [by apply at_pos_peeked|]. cbn [peeked set_peeked].
  rewrite Hp in Ht. destruct ts as [|x ts]; cbn [head tail] in *; [done|by rewrite Ht].
Qed.

Lemma collect_yields ts : forall it, yields it ts -> collect (S (length ts)) it = Some ts.
Proof.
  assert (Hstep : forall fuel it, collect (S fuel) it = '(r, it) ← next it;
    match r with None => Some [] | Some x => xs ← collect fuel it; Some (x :: xs) end) by done.
  induction ts as [|x ts IH]; intros it Hy; rewrite Hstep;
    destruct (next_yields it _ Hy) as (it' & -> & Hy' & _); rewrite bind_Some_eq; cbn [fst snd head tail] in *; [done|].
  cbn [length]. by rewrite (IH it' Hy').
Qed.

Lemma new_yields : yields (new subjs s_p sp_o) (triples_of subs sp spo).
Proof.
  exists 0. split; [|done]. split; [done|]. split; [done|]. split; [done|]. split; [done|]. intros k o Hq.
  pose proof (flat_first spo spo_nonempty _ Hq) as Hk. cbn [fst] in Hk. subst k.
  destruct (row_at 0 1 o Hq) as (l & p & s & _ & Hp & _). exists l, p. split; [done|]. split; [done|].
  pose proof (flat_first sp sp_nonempty _ Hp) as Hl. cbn [fst] in Hl. by subst l.
Qed.
End iterator.

(** ** Seeking *)

(** Left numbers never decrease. *)
Lemma flat_mono segs q q' x y : Forall (fun s => s <> []) segs ->
  (flat segs).[q] = Some x -> (flat segs).[q'] = Some y -> q <= q' -> x.1 <= y.1.
Proof.
  intros Hs Hx Hy Hle. assert (Hleft : forall q x, (flat segs).[q] = Some x -> x.1 = 1 + rank (bit_at (bits_of segs)) q).
  { intros r [l n] Hr. pose proof (flat_num segs Hs _ _ _ Hr) as Hn. rewrite (flat_get segs r n Hs Hn) in Hr.
    by injection Hr as <-. }
  rewrite (Hleft _ _ Hx), (Hleft _ _ Hy). pose proof (rank_mono (bit_at (bits_of segs)) q q' Hle). lia.
Qed.

Lemma filter_suffix {A} (P : A -> Prop) `{forall x, Decision (P x)} l k :
  Forall (fun x => ~ P x) l -> Forall P k -> filter P (l ++ k) = k.
Proof. intros Hl Hk. by rewrite filter_app, (filter_none _ l), (filter_all _ k). Qed.

Section seeking.
Import InternalLayerTripleSubjectIterator.
Context (subjs : option LogArray.t) (s_p sp_o : AdjacencyList.t).
Context (subs : option (list N)) (sp spo : list (list N)).
Context (Hst : stored_as subjs s_p sp_o subs sp spo).
Let ts := triples_of subs sp spo.

(** The triples before and after a position of the second list. *)
Lemma triples_split q : ts = omap (triple_of subs sp) (takeN q (flat spo)) ++ triples_from subs sp spo q.
Proof using. unfold ts, triples_of, triples_from. rewrite <- omap_app. by rewrite takeN_dropN. Qed.

(** A triple and the elements it is made of. *)
Definition at_row (q : N) (x : IdTriple.t) : Prop := exists k l,
  (flat spo).[q] = Some (k, IdTriple.object x) /\ (flat sp).[k - 1] = Some (l, IdTriple.predicate x) /\
  1 <= k /\ subject_at subs l = Some (IdTriple.subject x) /\ IdTriple.object x <> 0 /\ IdTriple.predicate x <> 0.

Lemma triple_row k o q x : (flat spo).[q] = Some (k, o) -> triple_of subs sp (k, o) = Some x -> at_row q x.
Proof.
  intros Hq Hx. destruct (row_at _ _ _ _ _ _ Hst q k o Hq) as (l & p & s & Hk1 & Hp & Hs & _ & Htr & Hz & _).
  rewrite Htr in Hx. destruct (N.eqb_spec o 0) as [|Ho]; [done|]. injection Hx as <-.
  exists k, l. cbn. repeat (split; [done|]). tauto.
Qed.

Lemma elem_of_take q x : x ∈ omap (triple_of subs sp) (takeN q (flat spo)) -> exists q', q' < q /\ at_row q' x.
Proof.
  intros ([k o] & [i Hi]%elem_nget & Hx)%list_elem_of_omap.
  pose proof (nget_Some_lt _ _ _ Hi) as Hlt. rewrite lenN_takeN in Hlt. rewrite nget_takeN in Hi by lia.
  exists i. split; [lia|]. by eapply triple_row.
Qed.

Lemma elem_of_from q x : x ∈ triples_from subs sp spo q -> exists q', q <= q' /\ at_row q' x.
Proof.
  intros ([k o] & [i Hi]%elem_nget & Hx)%list_elem_of_omap. rewrite nget_dropN in Hi.
  exists (q + i). split; [lia|]. by eapply triple_row.
Qed.

Lemma at_row_elem q x : at_row q x -> x ∈ ts.
Proof.
  intros (k & l & Hq & Hk & Hk1 & Hs & Ho & _). apply list_elem_of_omap. exists (k, IdTriple.object x).
  split; [by eapply nget_elem|]. unfold triple_of. cbn [fst snd]. apply N.eqb_neq in Ho. rewrite Ho, Hk, bind_Some_eq.
  cbn [fst snd]. rewrite Hs, bind_Some_eq. by destruct x.
Qed.

Lemma ts_rows x : x ∈ ts <-> exists q, at_row q x.
Proof.
  split; [|by intros (q & H); eapply at_row_elem]. intros H.
  assert (Hx : x ∈ triples_from subs sp spo 0) by (unfold triples_from; by rewrite dropN_0).
  apply elem_of_from in Hx as (q & _ & Hq). by exists q.
Qed.

(** Subjects increase with their positions. *)
Lemma subject_at_lt l l' s s' : subject_at subs l = Some s -> subject_at subs l' = Some s' -> 1 <= l -> l < l' -> s < s'.
Proof.
  destruct Hst as (_ & _ & Hsub & _). unfold subjects_repr, subject_at in *. destruct subjs as [la|], subs as [xs|]; try done.
  - destruct Hsub as (_ & Hinc & _). intros Hl Hl' H1 Hlt. destruct (N.eqb_spec l 0); [done|]. destruct (N.eqb_spec l' 0); [done|].
    apply (increasing_nget xs (l - 1) (l' - 1)); [done|done|done|lia].
  - intros [= <-] [= <-]. lia.
Qed.

Lemma seek_position_spec it subject : subjects it = subjs -> 0 < subject -> exists i, seek_position it subject = Some i /\
  forall l s, 1 <= l <= lenN sp -> subject_at subs l = Some s -> (l <= i <-> s < subject).
Proof.
  intros Hit Hpos. unfold seek_position. rewrite Hit. destruct Hst as (_ & _ & Hsub & _).
  unfold subjects_repr, subject_at in *. destruct subjs as [la|], subs as [xs|]; try done.
  - destruct Hsub as (Hla & Hinc & _). exists (lt_count subject xs). split; [by apply nearest_index_of_spec|].
    intros l s Hl Hs. destruct (N.eqb_spec l 0); [done|]. pose proof (lt_count_spec subject xs (l - 1) s Hinc Hs). lia.
  - exists (subject - 1). split; [by rewrite csub_Some by lia|]. intros l s Hl [= <-]. lia.
Qed.

(** At the first element of the second list that belongs to position [k] of
    the first. *)
Lemma at_pos_row it k l p : subjects it = subjs -> s_p_adjacency_list it = s_p -> sp_o_adjacency_list it = sp_o ->
  (flat sp).[k] = Some (l, p) -> exists q, AdjacencyList.offset_for sp_o (k + 1) = Some q /\
    at_pos subjs s_p sp_o sp spo (set_positions it (l - 1) k q) q /\
    (forall q' k' o, (flat spo).[q'] = Some (k', o) -> q' < q <-> k' <= k) /\
    exists o, (flat spo).[q] = Some (k + 1, o).
Proof.
  intros H1 H2 H3 Hk. pose proof Hst as (Hsp & Hspo & _). pose proof (nget_Some_lt _ _ _ Hk) as Hlt.
  rewrite (flat_sp_len _ _ _ _ _ _ Hst) in Hlt.
  destruct (al_offset sp_o spo Hspo (k + 1)) as (q & o & Hoff & Hq & Hbefore); [lia|]. exists q.
  split; [done|]. split; [|split; [|by exists o]].
  - split; [done|]. split; [done|]. split; [done|]. split; [done|]. intros k' o' Hq'. rewrite Hq in Hq'.
    injection Hq' as <- <-. exists l, p. rewrite N.add_sub. done.
  - intros q' k' o' Hq'. split.
    + intros Hlt'. pose proof (Hbefore q' k' o' Hlt' Hq'). lia.
    + intros Hle. destruct (N.lt_ge_cases q' q) as [|Hge]; [done|].
      pose proof (flat_mono spo q q' _ _ (spo_nonempty _ _ _ _ _ _ Hst) Hq Hq' Hge) as H. cbn in H. lia.
Qed.

(** At the end. *)
Lemma at_pos_end it i j : subjects it = subjs -> s_p_adjacency_list it = s_p -> sp_o_adjacency_list it = sp_o ->
  yields subjs s_p sp_o subs sp spo (set_positions it i j (lenN (concat spo))) [].
Proof.
  intros H1 H2 H3. exists (lenN (concat spo)). rewrite <- (flat_spo_len _ _ _ _ _ _ Hst). split.
  - split; [done|]. split; [done|]. split; [done|]. split; [done|]. intros k o Hq%nget_Some_lt. lia.
  - cbn [peeked set_positions]. unfold triples_from, dropN. rewrite drop_ge; [done|]. unfold lenN. lia.
Qed.

(** The conditions that the seeks establish. *)
Definition from_subject (subject : N) (x : IdTriple.t) : Prop := subject <= IdTriple.subject x.

Definition from_pair (subject predicate : N) (x : IdTriple.t) : Prop :=
  subject < IdTriple.subject x \/ (IdTriple.subject x = subject /\ predicate <= IdTriple.predicate x).

#[export] Instance from_subject_dec subject x : Decision (from_subject subject x).
Proof. unfold from_subject. apply _. Defined.
#[export] Instance from_pair_dec subject predicate x : Decision (from_pair subject predicate x).
Proof. unfold from_pair. apply _. Defined.

Definition same_source (it : t) : Prop :=
  subjects it = subjs /\ s_p_adjacency_list it = s_p /\ sp_o_adjacency_list it = sp_o.

Lemma rewind_yields it : same_source it -> yields subjs s_p sp_o subs sp spo (set_positions it 0 0 0) ts.
Proof.
  intros (H1 & H2 & H3). pose proof (new_yields _ _ _ _ _ _ Hst) as H. unfold set_positions. by rewrite H1, H2, H3.
Qed.

Lemma seek_subject_spec it subject : same_source it ->
  exists it', seek_subject_ref it subject = Some it' /\
    yields subjs s_p sp_o subs sp spo it' (filter (from_subject subject) ts).
Proof.
  intros Hit. pose proof Hit as (H1 & H2 & H3). unfold seek_subject_ref. destruct (N.eqb_spec subject 0) as [->|Hs0].
  { eexists. split; [done|]. rewrite filter_all; [by apply rewind_yields|]. apply Forall_true. unfold from_subject. lia. }
  destruct (seek_position_spec it subject H1 ltac:(lia)) as (i & -> & Hi). rewrite bind_Some_eq, H2, H3.
  pose proof Hst as (Hsp & Hspo & _). rewrite (al_left_count _ _ Hsp), bind_Some_eq.
  destruct (N.leb_spec (lenN sp) i) as [Hge|Hlt].
  - eexists. split; [done|]. rewrite filter_none.
    + rewrite (al_right_count _ _ Hspo). by apply at_pos_end.
    + apply Forall_forall. intros x Hx. apply ts_rows in Hx as (q & k & l & _ & Hk & _ & Hs & _).
      pose proof (flat_left _ (sp_nonempty _ _ _ _ _ _ Hst) _ _ _ Hk) as Hl. unfold from_subject.
      specialize (Hi l _ Hl Hs). lia.
  - destruct (al_offset s_p sp Hsp (i + 1)) as (k0 & p0 & -> & Hk0 & Hbefore); [lia|]. rewrite bind_Some_eq.
    destruct (at_pos_row it k0 _ _ H1 H2 H3 Hk0) as (q & -> & Hat & Hq & _). rewrite bind_Some_eq, N.add_sub in *.
    eexists. split; [done|]. exists q. split; [done|]. cbn [peeked set_positions]. rewrite (triples_split q).
    apply filter_suffix; apply Forall_forall; unfold from_subject.
    + intros x (q' & Hlt' & k & l & Hb & Hk & Hk1 & Hs & _)%elem_of_take.
      pose proof (flat_left _ (sp_nonempty _ _ _ _ _ _ Hst) _ _ _ Hk) as Hl. specialize (Hi l _ Hl Hs).
      apply (Hq q' k _ Hb) in Hlt'. assert (l < i + 1); [|lia]. apply (Hbefore (k - 1) l (IdTriple.predicate x)); [lia|done].
    + intros x (q' & Hge' & k & l & Hb & Hk & Hk1 & Hs & _)%elem_of_from.
      pose proof (flat_left _ (sp_nonempty _ _ _ _ _ _ Hst) _ _ _ Hk) as Hl. specialize (Hi l _ Hl Hs).
      assert (Hkk : k0 <= k - 1). { destruct (N.le_gt_cases k k0) as [Hle|]; [|lia]. apply (Hq q' k _ Hb) in Hle. lia. }
      pose proof (flat_mono sp k0 (k - 1) _ _ (sp_nonempty _ _ _ _ _ _ Hst) Hk0 Hk Hkk) as Hm. cbn in Hm. lia.
Qed.

(** The loop leaves the segment, or stops at a predicate that is large enough. *)
Lemma seek_predicate_loop_spec fuel it predicate : s_p_adjacency_list it = s_p ->
  forall i k p, (flat sp).[k] = Some (i + 1, p) -> lenN (concat sp) - k < N.of_nat fuel ->
  exists i' k', seek_predicate_loop fuel it predicate i k = Some (i', k') /\ k <= k' /\
    (forall r l' p', k <= r < k' -> (flat sp).[r] = Some (l', p') -> l' = i + 1 /\ p' < predicate) /\
    ((exists p', i' = i /\ (flat sp).[k'] = Some (i + 1, p') /\ predicate <= p') \/
     (i' = i + 1 /\ (k' < lenN (concat sp) -> exists p', (flat sp).[k'] = Some (i + 1 + 1, p')) /\ k' <= lenN (concat sp))).
Proof.
  intros Hsp_it. pose proof Hst as (Hsp & _). pose proof (sp_nonempty _ _ _ _ _ _ Hst) as Hne.
  induction fuel as [|fuel IH]; intros i k p Hk Hf; [lia|]. cbn [seek_predicate_loop].
  pose proof (nget_Some_lt _ _ _ Hk) as Hlt. rewrite lenN_flat in Hlt by done.
  rewrite Hsp_it. destruct (al_at s_p sp Hsp _ _ _ Hk) as (_ & _ & Hbit & ->). rewrite bind_Some_eq.
  destruct (N.ltb_spec p predicate) as [Hp|Hp].
  - rewrite N.add_sub, Hbit, bind_Some_eq. destruct (flat_next sp Hne _ _ _ Hk) as (Hnf & _ & Hnt).
    destruct (bit_at (bits_of sp) k).
    + exists (i + 1), (k + 1). split; [done|]. split; [lia|]. split.
      * intros r l' p' Hr Hrp. replace r with k in Hrp by lia. rewrite Hk in Hrp. by injection Hrp as <- <-.
      * right. split; [done|]. split; [by apply Hnt|lia].
    + destruct (Hnf eq_refl) as (p1 & Hp1). destruct (IH i (k + 1) p1 Hp1) as (i' & k' & Hl & Hkk & Hall & Hend); [lia|].
      exists i', k'. split; [done|]. split; [lia|]. split; [|done]. intros r l' p' Hr Hrp.
      destruct (N.eq_dec r k) as [->|]; [|apply (Hall r); [lia|done]]. rewrite Hk in Hrp. by injection Hrp as <- <-.
  - exists i, k. split; [done|]. split; [done|]. split; [lia|]. left. by exists p.
Qed.

Lemma ts_sorted : StronglySorted triple_lt ts.
Proof. by destruct Hst as (_ & _ & _ & _ & _ & ?). Qed.

Lemma from_sorted q : StronglySorted triple_lt (triples_from subs sp spo q).
Proof.
  pose proof ts_sorted as H. rewrite (triples_split q) in H. revert H. generalize (triples_from subs sp spo q).
  induction (omap (triple_of subs sp) (takeN q (flat spo))) as [|x l IH]; intros k H; [done|].
  apply IH. by apply StronglySorted_inv in H as [H _].
Qed.

(** What follows a triple that satisfies an upward closed condition satisfies it. *)
Lemma from_pair_later s0 predicate x y : triple_lt x y -> from_pair s0 predicate x -> from_pair s0 predicate y.
Proof using. rewrite triple_lt_iff. unfold from_pair. lia. Qed.

Lemma subject_pos x : x ∈ ts -> 0 < IdTriple.subject x.
Proof.
  intros (q & k & l & _ & Hk & _ & Hs & _)%ts_rows. pose proof (flat_left _ (sp_nonempty _ _ _ _ _ _ Hst) _ _ _ Hk) as Hl.
  destruct Hst as (_ & _ & Hsub & _). unfold subjects_repr, subject_at in *. destruct subjs as [la|], subs as [xs|]; try done.
  - destruct Hsub as (_ & _ & _ & Hpos). destruct (l =? 0); [done|]. by apply (Forall_nget _ _ _ _ Hpos Hs).
  - injection Hs as <-. lia.
Qed.

Lemma seek_subject_predicate_spec it subject predicate : same_source it ->
  exists it' s0, seek_subject_predicate_ref it subject predicate = Some it' /\ subject <= s0 /\
    (forall x, x ∈ ts -> IdTriple.subject x = subject -> s0 = subject) /\
    (forall x, x ∈ ts -> IdTriple.subject x < s0 -> IdTriple.subject x < subject) /\
    yields subjs s_p sp_o subs sp spo it' (filter (from_pair s0 predicate) ts).
Proof.
  intros Hit. pose proof Hit as (H1 & H2 & H3). unfold seek_subject_predicate_ref. destruct (N.eqb_spec predicate 0) as [->|Hp0].
  { destruct (seek_subject_spec it subject Hit) as (it' & Hseek & Hy). exists it', subject. split; [done|]. split; [done|].
    split; [done|]. split; [done|]. replace (filter (from_pair subject 0) ts) with (filter (from_subject subject) ts); [done|].
    apply list_filter_iff. intros x. unfold from_subject, from_pair. lia. }
  destruct (N.eqb_spec subject 0) as [->|Hs0].
  { eexists _, 0. split; [done|]. split; [done|]. split; [done|]. split; [done|]. rewrite filter_all; [by apply rewind_yields|].
    apply Forall_forall. intros x Hx. left. by apply subject_pos. }
  destruct (seek_position_spec it subject H1 ltac:(lia)) as (i & -> & Hi). rewrite bind_Some_eq, H2, H3.
  pose proof Hst as (Hsp & Hspo & _ & Hlen & _). rewrite (al_left_count _ _ Hsp), bind_Some_eq.
  assert (Hrow : forall q x k l, (flat spo).[q] = Some (k, IdTriple.object x) -> (flat sp).[k - 1] = Some (l, IdTriple.predicate x) ->
    subject_at subs l = Some (IdTriple.subject x) -> 1 <= l <= lenN sp /\ (l <= i <-> IdTriple.subject x < subject)).
  { intros q x k l _ Hk Hs. pose proof (flat_left _ (sp_nonempty _ _ _ _ _ _ Hst) _ _ _ Hk) as Hl. split; [done|by apply Hi]. }
  destruct (N.leb_spec (lenN sp) i) as [Hge|Hlt].
  - eexists _, subject. split; [done|]. split; [done|]. split; [done|]. split; [done|]. rewrite filter_none.
    + rewrite (al_right_count _ _ Hspo). by apply at_pos_end.
    + apply Forall_forall. intros x (q & k & l & Hb & Hk & _ & Hs & _)%ts_rows. unfold from_pair.
      destruct (Hrow q x k l Hb Hk Hs). lia.
  - destruct (subject_at_total _ _ _ _ _ _ Hst (i + 1)) as (s0 & Hs0' & _); [lia|].
    assert (Hle0 : subject <= s0). { destruct (Hi (i + 1) s0) as [_ Hi']; [lia|done|]. lia. }
    assert (Hord : forall l s, subject_at subs l = Some s -> 1 <= l -> (l < i + 1 <-> s < s0) /\ (l = i + 1 -> s = s0)).
    { intros l s Hs Hl. split; [|intros ->; congruence]. split; [intros; by apply (subject_at_lt l (i + 1))|].
      intros Hlt'. destruct (N.lt_trichotomy l (i + 1)) as [|[->|Hgt]]; [done| |].
      - rewrite Hs in Hs0'. injection Hs0' as ->. lia.
      - pose proof (subject_at_lt (i + 1) l _ _ Hs0' Hs ltac:(lia) Hgt). lia. }
    destruct (al_offset s_p sp Hsp (i + 1)) as (k0 & p0 & -> & Hk0 & Hbefore); [lia|]. rewrite bind_Some_eq.
    destruct (seek_predicate_loop_spec (S (N.to_nat (lenN (concat sp)))) it predicate H2 i k0 p0 Hk0) as (i' & k' & Hloop & Hkk & Hskip & Hend); [lia|].
    rewrite (al_right_count _ _ Hsp), Hloop, bind_Some_eq. cbn [fst snd].
    assert (Hbelow : forall k l p s, 1 <= k <= k' -> (flat sp).[k - 1] = Some (l, p) -> subject_at subs l = Some s ->
      s < s0 \/ s = s0 /\ p < predicate).
    { intros k l p s Hk Hf Hs. pose proof (flat_left _ (sp_nonempty _ _ _ _ _ _ Hst) _ _ _ Hf) as Hl.
      destruct (Hord l s Hs ltac:(lia)) as [Ho He]. destruct (N.lt_ge_cases (k - 1) k0) as [Hb|Hb].
      - left. apply Ho. by apply (Hbefore (k - 1) l p).
      - right. destruct (Hskip (k - 1) l p ltac:(lia) Hf) as [-> Hp]. split; [by apply He|done]. }
    assert (Hfacts : subject <= s0 /\ (forall x, x ∈ ts -> IdTriple.subject x = subject -> s0 = subject) /\
      (forall x, x ∈ ts -> IdTriple.subject x < s0 -> IdTriple.subject x < subject)).
    { split; [done|]. split; intros x (q & k & l & Hb & Hk & _ & Hs & _)%ts_rows Hx;
        destruct (Hrow q x k l Hb Hk Hs) as [Hl Hli]; (destruct (Hord l (IdTriple.subject x) Hs) as [Ho _]; [lia|]); clear - Hle0 Hx Hl Hli Ho; lia. }
    destruct Hfacts as (F1 & F2 & F3).
    assert (Hnot : forall x k l, 1 <= k <= k' -> (flat sp).[k - 1] = Some (l, IdTriple.predicate x) ->
      subject_at subs l = Some (IdTriple.subject x) -> ~ from_pair s0 predicate x).
    { intros x k l Hk Hf Hs. unfold from_pair. pose proof (Hbelow k l _ _ Hk Hf Hs). lia. }
    assert (Hbefore' : forall q, (forall r k o, (flat spo).[r] = Some (k, o) -> r < q <-> k <= k') ->
      Forall (fun x => ~ from_pair s0 predicate x) (omap (triple_of subs sp) (takeN q (flat spo)))).
    { intros q Hq. apply Forall_forall. intros x (q' & Hlt' & k & l & Hb & Hk & Hk1 & Hs & _)%elem_of_take.
      apply (Hq q' k _ Hb) in Hlt'. by apply (Hnot x k l). }
    destruct Hend as [(p' & -> & Hk' & Hp')|(-> & Hk' & Hkend)].
    + destruct (at_pos_row it k' _ _ H1 H2 H3 Hk') as (q & Hoff & Hat & Hq & (o & Ho)).
      rewrite Hoff, bind_Some_eq, N.add_sub in *. eexists _, s0. do 4 (split; [done|]). exists q. split; [done|].
      cbn [peeked set_positions]. rewrite (triples_split q) at 1. apply filter_suffix; [by apply Hbefore'|].
      destruct (row_at _ _ _ _ _ _ Hst q _ _ Ho) as (l & p & s & _ & Hl & Hs & _ & Htr & Hz & _).
      rewrite N.add_sub, Hk' in Hl. injection Hl as <- <-. rewrite Hs0' in Hs. injection Hs as <-.
      replace (o =? 0) with false in Htr by (symmetry; apply N.eqb_neq; intros E; apply Hz in E; lia).
      pose proof (from_sorted q) as Hsort. unfold triples_from in *. rewrite (dropN_cons _ _ _ Ho) in *.
      cbn [omap list_omap] in *. rewrite Htr in *. apply StronglySorted_inv in Hsort as [_ Hsort].
      assert (Hhead : from_pair s0 predicate (IdTriple.mk s0 p' o)) by (right; cbn; lia).
      constructor; [done|]. eapply Forall_impl; [exact Hsort|]. intros y Hy. by eapply from_pair_later.
    + destruct (N.lt_ge_cases k' (lenN (concat sp))) as [Hin|Hout].
      * destruct (Hk' Hin) as (p1 & Hp1). destruct (at_pos_row it k' _ _ H1 H2 H3 Hp1) as (q & Hoff & Hat & Hq & _).
        rewrite Hoff, bind_Some_eq, N.add_sub in *. eexists _, s0. do 4 (split; [done|]). exists q. split; [done|].
        cbn [peeked set_positions]. rewrite (triples_split q) at 1. apply filter_suffix; [by apply Hbefore'|].
        apply Forall_forall. intros x (q' & Hge' & k & l & Hb & Hk & Hk1 & Hs & _)%elem_of_from. left.
        apply (subject_at_lt (i + 1) l); [done|done|lia|].
        assert (Hkk' : k' <= k - 1). { destruct (N.le_gt_cases k k') as [Hle|]; [|lia]. apply (Hq q' k _ Hb) in Hle. lia. }
        pose proof (flat_mono sp k' (k - 1) _ _ (sp_nonempty _ _ _ _ _ _ Hst) Hp1 Hk Hkk') as Hm. cbn in Hm. lia.
      * pose proof (nget_Some_lt _ _ _ Hk0) as Hk0l. rewrite (flat_sp_len _ _ _ _ _ _ Hst) in Hk0l.
        replace (k' + 1) with (lenN spo + 1) by lia. rewrite (al_offset_end _ _ Hspo Hspo), bind_Some_eq by lia.
        eexists _, s0. do 4 (split; [done|]). rewrite filter_none; [by apply at_pos_end|].
        apply Forall_forall. intros x (q & k & l & Hb & Hk & Hk1 & Hs & _)%ts_rows. apply (Hnot x k l); [|done|done].
        pose proof (nget_Some_lt _ _ _ Hk) as Hkl. rewrite (flat_sp_len _ _ _ _ _ _ Hst) in Hkl. lia.
Qed.

(** Seeking a position of the first list. *)
Lemma seek_s_p_pos_spec it k l p : same_source it -> (flat sp).[k] = Some (l, p) ->
  exists it' q, seek_s_p_pos it k = Some it' /\ yields subjs s_p sp_o subs sp spo it' (triples_from subs sp spo q) /\
    (forall r k' o, (flat spo).[r] = Some (k', o) -> r < q <-> k' <= k).
Proof.
  intros (H1 & H2 & H3) Hk. unfold seek_s_p_pos. pose proof Hst as (Hsp & _). rewrite H2, H3.
  destruct (al_at s_p sp Hsp _ _ _ Hk) as (_ & -> & _). pose proof (flat_left _ (sp_nonempty _ _ _ _ _ _ Hst) _ _ _ Hk) as Hl.
  rewrite bind_Some_eq, csub_Some, bind_Some_eq by lia.
  destruct (at_pos_row it k l p H1 H2 H3 Hk) as (q & -> & Hat & Hq & _). rewrite bind_Some_eq.
  eexists _, q. split; [done|]. split; [|done]. by exists q.
Qed.
End seeking.

(** ** Membership *)

(** In increasing segments an element is at one position of its segment. *)
Lemma flat_inj segs q q' y : Forall (fun s => s <> []) segs -> Forall increasing segs ->
  (flat segs).[q] = Some y -> (flat segs).[q'] = Some y -> q = q'.
Proof.
  destruct y as [l x]. intros Hne Hinc (pre & s & post & j & E & El & -> & Hj)%(flat_split _ Hne)
    (pre' & s' & post' & j' & E' & El' & -> & Hj')%(flat_split _ Hne).
  rewrite E in E'. apply app_inj_1 in E' as [-> E']; [|unfold lenN in *; lia]. injection E' as <- <-.
  rewrite E in Hinc. apply Forall_app in Hinc as [_ Hinc]. apply Forall_cons in Hinc as [Hinc _].
  f_equal. by eapply increasing_inj.
Qed.

Lemma find_predicate_spec al segs v : al_repr al segs -> forall fuel q l x, (flat segs).[q] = Some (l, x) ->
  lenN (concat segs) - q < N.of_nat fuel -> exists r, find_predicate fuel al q v = Some r /\
    match r with
    | Some q' => q <= q' /\ (flat segs).[q'] = Some (l, v)
    | None => forall q', q <= q' -> (flat segs).[q'] <> Some (l, v)
    end.
Proof.
  intros Hal. pose proof (al_nonempty al segs Hal) as Hne. induction fuel as [|fuel IH]; intros q l x Hq Hf; [lia|].
  cbn [find_predicate]. pose proof (nget_Some_lt _ _ _ Hq) as Hlt. rewrite lenN_flat in Hlt by done.
  destruct (al_at al segs Hal _ _ _ Hq) as (_ & _ & -> & ->). rewrite !bind_Some_eq.
  destruct (N.eqb_spec x v) as [->|Hx]; [by exists (Some q)|].
  destruct (flat_next segs Hne _ _ _ Hq) as (Hnf & Hnt & _). destruct (bit_at (bits_of segs) q).
  - exists None. split; [done|]. intros q' Hq' Hv. destruct (N.eq_dec q' q) as [->|Hne']; [rewrite Hq in Hv; congruence|].
    pose proof (nget_Some_lt _ _ _ Hv) as Hlt'. destruct (nget_lt (flat segs) (q + 1)) as [[l1 x1] Hq1]; [lia|].
    pose proof (Hnt eq_refl _ _ Hq1). pose proof (flat_mono segs (q + 1) q' _ _ Hne Hq1 Hv ltac:(lia)) as Hm. cbn in Hm. lia.
  - destruct (Hnf eq_refl) as (x1 & Hx1). destruct (IH (q + 1) l x1 Hx1 ltac:(lia)) as (r & Hr & Hspec).
    exists r. split; [done|]. destruct r as [q'|].
    + destruct Hspec. split; [lia|done].
    + intros q' Hq'. destruct (N.eq_dec q' q) as [->|Hne']; [rewrite Hq; congruence|]. apply Hspec. lia.
Qed.

Lemma find_object_predicate fuel al v : forall q,
  find_object fuel al q v = option_map (fun r : option N => match r with Some _ => true | None => false end) (find_predicate fuel al q v).
Proof.
  induction fuel as [|fuel IH]; intros q; [done|]. cbn [find_object find_predicate].
  destruct (AdjacencyList.bit_at_pos al q) as [b|]; [|done]. rewrite !bind_Some_eq.
  destruct (AdjacencyList.num_at_pos al q) as [n|]; [|done]. rewrite !bind_Some_eq.
  destruct (n =? v); [done|]. destruct b; [done|]. apply IH.
Qed.

Lemma triple_exists_spec subjs s_p sp_o ts s p o : stored subjs s_p sp_o ts ->
  layer_triple_exists subjs s_p sp_o s p o = Some (bool_decide (IdTriple.mk s p o ∈ ts)).
Proof.
  intros (subs & sp & spo & Hst & ->). set (x := IdTriple.mk s p o).
  pose proof (ts_rows _ _ _ _ _ _ Hst x) as Hrows. unfold layer_triple_exists.
  destruct (N.eqb_spec s 0) as [Hs0|Hs0].
  { cbn [orb]. rewrite bool_decide_false; [done|]. intros Hx. apply (subject_pos _ _ _ _ _ _ Hst) in Hx. cbn in Hx. lia. }
  destruct (N.eqb_spec p 0) as [Hp0|Hp0].
  { cbn [orb]. rewrite bool_decide_false; [done|]. intros Hx. apply Hrows in Hx as (q & k & l & H). cbn in H. tauto. }
  destruct (N.eqb_spec o 0) as [Ho0|Ho0].
  { cbn [orb]. rewrite bool_decide_false; [done|]. intros Hx. apply Hrows in Hx as (q & k & l & H). cbn in H. tauto. }
  cbn [orb]. pose proof Hst as (Hsp & Hspo & Hsub & Hlen & _). pose proof (al_nonempty _ _ Hsp) as Hne. 
  assert (Hpos : exists r, match subjs with
      | Some subjects => MonotonicLogArray.index_of subjects s
      | None => left_count ← AdjacencyList.left_count s_p; if left_count <? s then Some None else Some (Some (s - 1))
      end = Some r /\ forall i, r = Some i <-> 1 <= i + 1 <= lenN sp /\ subject_at subs (i + 1) = Some s).
  { unfold subjects_repr, subject_at in *. destruct subjs as [la|], subs as [xs|]; try done.
    - destruct Hsub as (Hla & Hinc & Hl & _). eexists. split; [by apply (index_of_spec la xs)|]. intros i.
      replace (i + 1 =? 0) with false by (symmetry; apply N.eqb_neq; lia). rewrite N.add_sub. destruct (decide (s ∈ xs)) as [Hin|Hin].
      + apply elem_nget in Hin as [j Hj]. rewrite (lt_count_nget s xs j Hinc Hj). pose proof (nget_Some_lt _ _ _ Hj). split.
        * intros [= <-]. split; [lia|done].
        * intros [_ Hi]. f_equal. by eapply increasing_inj.
      + split; [done|]. intros [_ Hi%nget_elem]. done.
    - rewrite (al_left_count _ _ Hsp), bind_Some_eq. destruct (N.ltb_spec (lenN sp) s).
      + exists None. split; [done|]. intros i. split; [done|]. intros [? [= ?]]. lia.
      + exists (Some (s - 1)). split; [done|]. intros i. split; [intros [= <-]; split; [lia|f_equal; lia]|].
        intros [? [= ?]]. f_equal. lia. }
  destruct Hpos as (r & Hr & Hri). rewrite Hr, bind_Some_eq. destruct r as [i|].
  - destruct (Hri i) as [Hi _]. destruct (Hi eq_refl) as [Hil His]. clear Hi Hri.
    destruct (al_offset s_p sp Hsp (i + 1)) as (k0 & p0 & -> & Hk0 & Hk0b); [lia|]. rewrite bind_Some_eq.
    rewrite (al_right_count _ _ Hsp).
    destruct (find_predicate_spec s_p sp p Hsp (S (N.to_nat (lenN (concat sp)))) k0 (i + 1) p0 Hk0) as (r & -> & Hr'); [lia|].
    rewrite bind_Some_eq.
    assert (Huniq : forall q k l, (flat spo).[q] = Some (k, o) -> (flat sp).[k - 1] = Some (l, p) ->
      subject_at subs l = Some s -> l = i + 1 /\ k0 <= k - 1).
    { intros q k l Hq Hk Hs. pose proof (flat_left _ (sp_nonempty _ _ _ _ _ _ Hst) _ _ _ Hk) as Hl.
      assert (El : l = i + 1).
      { destruct (N.lt_trichotomy l (i + 1)) as [Hlt|[|Hgt]]; [|done|].
        - pose proof (subject_at_lt _ _ _ _ _ _ Hst l (i + 1) _ _ Hs His ltac:(lia) Hlt). lia.
        - pose proof (subject_at_lt _ _ _ _ _ _ Hst (i + 1) l _ _ His Hs ltac:(lia) Hgt). lia. }
      split; [done|]. destruct (N.le_gt_cases k0 (k - 1)) as [|Hlt]; [done|].
      pose proof (Hk0b _ _ _ Hlt Hk). lia. }
    destruct r as [k'|].
    + destruct Hr' as [Hkk Hk'].
      pose proof (nget_Some_lt _ _ _ Hk') as Hk'l. rewrite (flat_sp_len _ _ _ _ _ _ Hst) in Hk'l.
      destruct (al_offset sp_o spo Hspo (k' + 1)) as (q0 & o0 & -> & Hq0 & Hq0b); [lia|]. rewrite bind_Some_eq.
      rewrite (al_right_count _ _ Hspo), find_object_predicate.
      destruct (find_predicate_spec sp_o spo o Hspo (S (N.to_nat (lenN (concat spo)))) q0 (k' + 1) o0 Hq0) as (r & -> & Hr''); [lia|].
      cbn [option_map]. f_equal. symmetry. destruct r as [q|].
      * apply bool_decide_true, Hrows. destruct Hr'' as [_ Hq]. exists q, (k' + 1), (i + 1). rewrite N.add_sub.
        repeat (split; [done || lia|]). done.
      * apply bool_decide_false. intros (q & k & l & Hq & Hk & Hk1 & Hs & _)%Hrows.
        destruct (Huniq q k l Hq Hk Hs) as [-> Hkk'].
        assert (k' = k - 1) as ->.
        { apply (flat_inj sp _ _ (i + 1, p) Hne); [by destruct Hst as (_ & _ & _ & _ & [? _] & _)|done|done]. }
        rewrite N.sub_add in Hr'', Hq0b by done. apply (Hr'' q); [|done].
        destruct (N.le_gt_cases q0 q) as [|Hlt]; [done|]. pose proof (Hq0b _ _ _ Hlt Hq). lia.
    + f_equal. symmetry. apply bool_decide_false. intros (q & k & l & Hq & Hk & Hk1 & Hs & _)%Hrows.
      destruct (Huniq q k l Hq Hk Hs) as [-> Hkk']. by apply (Hr' (k - 1)).
  - f_equal. symmetry. apply bool_decide_false. intros (q & k & l & Hq & Hk & Hk1 & Hs & _)%Hrows.
    pose proof (flat_left _ (sp_nonempty _ _ _ _ _ _ Hst) _ _ _ Hk) as Hl.
    destruct (Hri (l - 1)) as [_ Hl']. rewrite N.sub_add in Hl' by lia. by discriminate Hl'.
Qed.
