(* ===== verification/TripleBuilder.v ===== *)
(** * Writing a layer's files (src/layer/builder.rs, calculate_width of
      src/structure/util.rs)

    The dictionaries, the two adjacency lists of the triples with the optional
    array of subjects, and the indexes by object and by predicate that are
    derived from them. *)

From S2P Require Import Prelude.
From S2P Require Import Words.
From S2P Require Import Codec.
From S2P Require Import LogArrays.
From S2P Require Import BitArrays.
From S2P Require Import BitIndexes.
From S2P Require Import AdjacencyLists.
From S2P Require Import WaveletTrees.
From S2P Require Import PfcDicts.
From S2P Require Import LayerTypes.
From S2P Require Import Triples.
Open Scope N_scope.

(** ** Widths *)

(** [n as f32] for a [u64], as the integer it is: 24 bits, ties to even. *)
Definition f32_of_u64 (n : N) : N :=
  if n <? 2 ^ 24 then n
  else
    let e := N.log2 n - 23 in
    let q := n / 2 ^ e in
    let r := n mod 2 ^ e in
    (if (2 ^ (e - 1) <? r) || ((r =? 2 ^ (e - 1)) && N.odd q) then q + 1 else q) * 2 ^ e.

(** [x.log2().ceil() as u8] of an [f32] that is an integer.  The precision of
    [f32::log2] is unspecified, so that the function is a parameter. *)
Class Log2F32 : Type := ceil_log2_f32 : N -> N.

Definition calculate_width `{Log2F32} (size : N) : option N :=
  size ← cadd 64 size 1;
  Some (ceil_log2_f32 (f32_of_u64 size)).

(** [par_sort_unstable] on pairs, of the rayon crate. *)
Class ParSort : Type := {
  par_sort_unstable : list (N * N) -> list (N * N);
  par_sort_permutation l : par_sort_unstable l ≡ₚ l;
  par_sort_sorted l : StronglySorted (fun x y : N * N => x.1 < y.1 \/ (x.1 = y.1 /\ x.2 <= y.2)) (par_sort_unstable l)
}.

(** ** Dictionaries *)

Module DictionarySetFileBuilder.

Record t : Type := mk {
  node_dictionary_builder : PfcDictFileBuilder.t;
  predicate_dictionary_builder : PfcDictFileBuilder.t;
  value_dictionary_builder : PfcDictFileBuilder.t
}.

(** On files that have just been created. *)
Definition from_files : t :=
  mk (PfcDictFileBuilder.new [] []) (PfcDictFileBuilder.new [] []) (PfcDictFileBuilder.new [] []).

Definition add_node (b : t) (node : list N) : option (N * t) :=
  '(id, d) ← PfcDictFileBuilder.add (node_dictionary_builder b) node;
  Some (id, mk d (predicate_dictionary_builder b) (value_dictionary_builder b)).

Definition add_predicate (b : t) (predicate : list N) : option (N * t) :=
  '(id, d) ← PfcDictFileBuilder.add (predicate_dictionary_builder b) predicate;
  Some (id, mk (node_dictionary_builder b) d (value_dictionary_builder b)).

Definition add_value (b : t) (value : list N) : option (N * t) :=
  '(id, d) ← PfcDictFileBuilder.add (value_dictionary_builder b) value;
  Some (id, mk (node_dictionary_builder b) (predicate_dictionary_builder b) d).

Section add_list.
Context (add : t -> list N -> option (N * t)).

Fixpoint add_list (b : t) (strings : list (list N)) (ids : list N) : option (list N * t) :=
  match strings with
  | [] => Some (ids, b)
  | s :: strings => '(id, b) ← add b s; add_list b strings (ids ++ [id])
  end.
End add_list.

Definition add_nodes (b : t) (nodes : list (list N)) : option (list N * t) := add_list add_node b nodes [].
Definition add_predicates (b : t) (predicates : list (list N)) : option (list N * t) :=
  add_list add_predicate b predicates [].
Definition add_values (b : t) (values : list (list N)) : option (list N * t) := add_list add_value b values [].

(** Blocks and offsets of the three dictionaries. *)
Definition finalize (b : t) : outcome io_error ((list N * list N) * (list N * list N) * (list N * list N)) :=
  nodes ← PfcDictFileBuilder.finalize (node_dictionary_builder b);
  predicates ← PfcDictFileBuilder.finalize (predicate_dictionary_builder b);
  values ← PfcDictFileBuilder.finalize (value_dictionary_builder b);
  Ok (nodes, predicates, values).

End DictionarySetFileBuilder.

(** ** Triples *)

(** The files of an adjacency list: bits, blocks, sblocks, nums. *)
Abbreviation adjacency_files := (list N * list N * list N * list N)%type.

Module TripleFileBuilder.

Record t : Type := mk {
  subjects : option (list N);
  s_p_adjacency_list_builder : AdjacencyListBuilder.t;
  sp_o_adjacency_list_builder : AdjacencyListBuilder.t;
  last_subject : N;
  last_predicate : N
}.

(** [sparse]: there is a file for the subjects. *)
Definition new `{Log2F32} (num_nodes num_predicates num_values : N) (sparse : bool) : outcome io_error t :=
  s_p_width ← or_panic (calculate_width num_predicates);
  num_objects ← or_panic (cadd 64 num_nodes num_values);
  sp_o_width ← or_panic (calculate_width num_objects);
  Ok (mk (if sparse then Some [] else None) (AdjacencyListBuilder.new s_p_width)
        (AdjacencyListBuilder.new sp_o_width) 0 0).

Definition add_triple (b : t) (subject predicate object : N) : outcome io_error t :=
  if (subject =? 0) || (predicate =? 0) || (object =? 0) then Ok b
  else if subject <? last_subject b then Panic
  else if (last_subject b =? subject) && (last_predicate b =? predicate) then
    count ← or_panic (cadd 64 (AdjacencyListBuilder.count (s_p_adjacency_list_builder b)) 1);
    sp_o ← AdjacencyListBuilder.push (sp_o_adjacency_list_builder b) count object;
    Ok (mk (subjects b) (s_p_adjacency_list_builder b) sp_o subject predicate)
  else
    let subjects :=
      match subjects b with
      | Some l => if negb (subject =? last_subject b) then Some (l ++ [subject]) else Some l
      | None => None
      end in
    let mapped_subject := match subjects with Some l => lenN l | None => subject end in
    s_p ← AdjacencyListBuilder.push (s_p_adjacency_list_builder b) mapped_subject predicate;
    count ← or_panic (cadd 64 (AdjacencyListBuilder.count s_p) 1);
    sp_o ← AdjacencyListBuilder.push (sp_o_adjacency_list_builder b) count object;
    Ok (mk subjects s_p sp_o subject predicate).

Definition add_id_triples (b : t) (triples : list IdTriple.t) : outcome io_error t :=
  fold_outcome (fun b x => add_triple b (IdTriple.subject x) (IdTriple.predicate x) (IdTriple.object x)) b triples.

(** The files of both lists and of the subjects. *)
Definition finalize `{FramedRead} `{Log2F32} (b : t)
    : outcome io_error (adjacency_files * adjacency_files * option (list N)) :=
  s_p ← AdjacencyListBuilder.finalize (s_p_adjacency_list_builder b);
  sp_o ← AdjacencyListBuilder.finalize (sp_o_adjacency_list_builder b);
  match subjects b with
  | Some subjects =>
      let max_subject := default 0 (last subjects) in
      subjects_width ← or_panic (calculate_width max_subject);
      builder ← LogArrayFileBuilder.push_vec (LogArrayFileBuilder.new [] subjects_width) subjects;
      Ok (s_p, sp_o, Some (LogArrayFileBuilder.finalize builder))
  | None => Ok (s_p, sp_o, None)
  end.

End TripleFileBuilder.

(** ** Indexes *)

(** The loop that numbers the objects in use. *)
Definition push_sparse (st : AdjacencyListBuilder.t * list N * N * N) (pair : N * N)
    : outcome io_error (AdjacencyListBuilder.t * list N * N * N) :=
  let '(b, objects, last_object, object_ix) := st in
  let '(object, sp) := pair in
  '(objects, last_object, object_ix) ←
    (if last_object <? object then
       object_ix ← or_panic (cadd 64 object_ix 1); Ok (objects ++ [object], object, object_ix)
     else Ok (objects, last_object, object_ix));
  b ← AdjacencyListBuilder.push b object_ix sp;
  Ok (b, objects, last_object, object_ix).

(** The files of the list of the pairs of each object, and of the objects. *)
Definition build_object_index `{FramedRead} `{Log2F32} `{ParSort} (sp_o_bits sp_o_nums : list N) (sparse : bool)
    : outcome io_error (adjacency_files * option (list N)) :=
  stream ← adjacency_list_stream_pairs sp_o_bits sp_o_nums;
  let greatest_sp := match last stream with Some p => p.1 | None => 0 end in
  let pairs := par_sort_unstable ((fun p : N * N => (p.2, p.1)) <$> stream) in
  aj_width ← or_panic (calculate_width greatest_sp);
  let b := AdjacencyListBuilder.new aj_width in
  if sparse then
    '(b, objects, last_object, _) ← fold_outcome push_sparse (b, [], 0, 0) pairs;
    objects_width ← or_panic (calculate_width last_object);
    builder ← LogArrayFileBuilder.push_vec (LogArrayFileBuilder.new [] objects_width) objects;
    files ← AdjacencyListBuilder.finalize b;
    Ok (files, Some (LogArrayFileBuilder.finalize builder))
  else
    b ← AdjacencyListBuilder.push_all b (Ok <$> pairs);
    files ← AdjacencyListBuilder.finalize b;
    Ok (files, None).

(** The wavelet tree of the predicates: bits, blocks, sblocks. *)
Definition build_predicate_index `{FramedRead} (source : list N) : outcome io_error (list N * list N * list N) :=
  build_wavelet_tree_from_logarray source.

(** Both indexes; the tasks run side by side and share nothing. *)
Definition build_indexes `{FramedRead} `{Log2F32} `{ParSort} (s_p_nums sp_o_bits sp_o_nums : list N) (sparse : bool)
    : outcome io_error ((adjacency_files * option (list N)) * (list N * list N * list N)) :=
  object_index ← build_object_index sp_o_bits sp_o_nums sparse;
  predicate_index ← build_predicate_index s_p_nums;
  Ok (object_index, predicate_index).

(** ** Extending the lists *)

Lemma omap_ext_Forall {A B} (f g : A -> option B) l : Forall (fun x => f x = g x) l -> omap f l = omap g l.
Proof. induction 1 as [|x l Hx _ IH]; [done|]. cbn. by rewrite Hx, IH. Qed.

Lemma fmap_zero (mid : list (N * N)) : Forall (fun x => x.2 = 0) mid -> mid.*2 = replicate (length mid) 0.
Proof. induction 1 as [|x mid Hx _ IH]; [done|]. cbn. by rewrite Hx, IH. Qed.

(** What a pair adds to the stored numbers: zeros for the left numbers that
    are skipped, and itself. *)
Lemma flat_snoc w pairs l r : adjacency_ok w (pairs ++ [(l, r)]) -> exists mid,
  flat (segments (pairs ++ [(l, r)])) = flat (segments pairs) ++ mid ++ [(l, r)] /\
  Forall (fun x => x.2 = 0) mid /\ lenN mid = l - max_left pairs - 1.
Proof.
  intros Hok. destruct (adjacency_snoc w pairs l r Hok) as (_ & Hl0 & _ & Hle & _ & Heq).
  destruct (N.eq_dec l (max_left pairs)) as [E|Hne].
  - destruct (Heq E) as [Hne _]. destruct (segments_same pairs l r Hne ltac:(lia) E) as [Hs Hs'].
    assert (Hr : rights pairs l <> []) by (rewrite E; by apply rights_max).
    assert (Hpre : Forall (fun s : list N => s <> []) (segment pairs <$> seqN 1 (l - 1))).
    { pose proof (segments_nonempty pairs) as H. rewrite Hs in H. by apply Forall_app in H as [H _]. }
    exists []. split; [|split; [constructor|rewrite lenN_nil; lia]]. rewrite Hs', Hs. unfold flat.
    change (flat_from 1 ((segment pairs <$> seqN 1 (l - 1)) ++ [rights pairs l ++ [r]]) =
            flat_from 1 ((segment pairs <$> seqN 1 (l - 1)) ++ [rights pairs l]) ++ [] ++ [(l, r)]).
    rewrite !flat_from_app by done. rewrite !flat_from_cons by (done || by intros [_ ?]%app_nil).
    rewrite lenN_map, lenN_seqN. replace (1 + (l - 1)) with l by lia. rewrite fmap_app, <- !app_assoc. done.
  - exists (flat_from (1 + max_left pairs) (replicate (N.to_nat (l - max_left pairs - 1)) [0])).
    rewrite segments_later by lia. unfold flat.
    change (flat_from 1 (segments pairs ++ replicate (N.to_nat (l - max_left pairs - 1)) [0] ++ [[r]]) =
      flat_from 1 (segments pairs) ++
      flat_from (1 + max_left pairs) (replicate (N.to_nat (l - max_left pairs - 1)) [0]) ++ [(l, r)] /\
      Forall (fun x => x.2 = 0) (flat_from (1 + max_left pairs) (replicate (N.to_nat (l - max_left pairs - 1)) [0])) /\
      lenN (flat_from (1 + max_left pairs) (replicate (N.to_nat (l - max_left pairs - 1)) [0])) = l - max_left pairs - 1).
    split; [|split; [apply flat_from_zeros|]].
    + rewrite flat_from_app by apply segments_nonempty. rewrite lenN_segments. f_equal.
      rewrite flat_from_app by (by apply Forall_replicate). f_equal. rewrite flat_from_cons by done.
      rewrite lenN_replicate. replace (1 + max_left pairs + N.of_nat (N.to_nat (l - max_left pairs - 1))) with l by lia. done.
    + unfold flat_from. unfold lenN. rewrite length_zip_with, length_run, bits_of_replicate, concat_replicate_0.
      rewrite !length_replicate. lia.
Qed.

Lemma concat_snoc w pairs l r : adjacency_ok w (pairs ++ [(l, r)]) ->
  concat (segments (pairs ++ [(l, r)])) =
    concat (segments pairs) ++ replicate (N.to_nat (l - max_left pairs - 1)) 0 ++ [r].
Proof.
  intros Hok. destruct (flat_snoc w pairs l r Hok) as (mid & E & Hmid & Hlen).
  rewrite <- !snd_flat by apply segments_nonempty. rewrite E, !fmap_app, (fmap_zero mid Hmid). cbn.
  do 3 f_equal. unfold lenN in Hlen. lia.
Qed.

(** The segments of accepted pairs increase. *)
Lemma segments_increasing w pairs : adjacency_ok w pairs -> Forall increasing (segments pairs).
Proof.
  intros (_ & Hs & _). unfold segments. apply Forall_fmap, Forall_true. intros l. unfold compose, segment.
  assert (H : increasing (rights pairs l)).
  { unfold rights. induction Hs as [|[l' r'] pairs Hs IH Hall]; [constructor|]. rewrite filter_cons. cbn [fst].
    destruct (decide (l' = l)) as [->|]; [|done]. cbn. constructor; [done|]. apply Forall_fmap, Forall_forall.
    intros [l1 r1] [Hl1 Hin]%list_elem_of_filter. cbn in *. rewrite Forall_forall in Hall.
    destruct (Hall _ Hin) as [H|[_ H]]; cbn in *; [lia|done]. }
  destruct (rights pairs l); [by repeat constructor|done].
Qed.

Lemma StronglySorted_last {A} (R : A -> A -> Prop) `{!Transitive R} l x y : StronglySorted R (l ++ [x]) -> R x y ->
  StronglySorted R ((l ++ [x]) ++ [y]).
Proof.
  intros Hs Hxy. apply StronglySorted_snoc. split; [done|]. apply StronglySorted_snoc in Hs as [_ Hs].
  apply Forall_app. split; [|by constructor]. eapply Forall_impl; [exact Hs|]. intros z Hz. cbn in *. by etransitivity.
Qed.

#[export] Instance pair_lt_trans : Transitive pair_lt.
Proof. intros x y z. unfold pair_lt. lia. Qed.

(** When a pair can be added. *)
Lemma adjacency_ok_snoc w pairs l r : adjacency_ok w pairs ->
  (pairs = [] \/ exists l0 r0, last pairs = Some (l0, r0) /\ pair_lt (l0, r0) (l, r)) ->
  1 <= l -> 1 <= r < 2 ^ w -> max_left pairs <= l -> lenN pairs + l + 1 < 2 ^ 32 -> adjacency_ok w (pairs ++ [(l, r)]).
Proof.
  intros (Hw & Hs & Hb & Hn) Hlast Hl Hr Hle Hsz. split; [done|]. split; [|split].
  - destruct Hlast as [->|(l0 & r0 & Hlast & Hlt)]; [by repeat constructor|].
    apply last_Some in Hlast as [pre ->]. apply StronglySorted_last; [apply _|done|done].
  - apply Forall_app. split; [done|]. by constructor.
  - rewrite lenN_app, lenN_cons, lenN_nil, max_left_snoc. lia.
Qed.

(** ** What the builder has written *)

Definition gap (p : N) (seg : list N) : Prop := if p =? 0 then seg = [0] else Forall (fun o => o <> 0) seg.

Lemma gaps_ok_intro sp spo : Forall increasing sp -> Forall2 gap (concat sp) spo -> gaps_ok sp spo.
Proof.
  intros Hinc Hgap. split; [done|]. intros k p seg Hp Hseg. exact (Forall2_lookup_lr _ _ _ _ _ _ Hgap Hp Hseg).
Qed.

Definition subjects_ok (subs : option (list N)) (n m : N) : Prop :=
  match subs with
  | Some xs => increasing xs /\ lenN xs = m /\ Forall (fun s => 0 < s) xs /\ m <= n
  | None => True
  end.

(** The pairs of both lists when the triples [ts] have been added. *)
Record layout (w1 w2 : N) (subs : option (list N)) (sp spo : list (N * N)) (ts : list IdTriple.t) : Prop := {
  layout_sp : adjacency_ok w1 sp;
  layout_spo : adjacency_ok w2 spo;
  layout_gaps : Forall2 gap (concat (segments sp)) (segments spo);
  layout_subjects : subjects_ok subs (lenN sp) (max_left sp);
  layout_dense : is_Some subs -> forall l, 1 <= l <= max_left sp -> l ∈ sp.*1;
  layout_triples : triples_of subs (segments sp) (segments spo) = ts;
  layout_spo_len : lenN spo = lenN ts;
  layout_sp_len : lenN sp <= lenN ts;
  layout_last :
    match last ts with
    | None => sp = [] /\ spo = [] /\ match subs with Some xs => xs = [] | None => True end
    | Some t =>
        last sp = Some (max_left sp, IdTriple.predicate t) /\
        last spo = Some (max_left spo, IdTriple.object t) /\
        subject_at subs (max_left sp) = Some (IdTriple.subject t)
    end
}.

Lemma layout_new w1 w2 sparse : w1 <= 64 -> w2 <= 64 ->
  layout w1 w2 (if sparse : bool then Some [] else None) [] [] [].
Proof.
  intros H1 H2. split; try done; try (split; [done|]; by repeat constructor).
  - destruct sparse; by repeat constructor.
  - cbn. intros _ l. lia.
  - by destruct sparse.
Qed.

Section extend.
Context {w1 w2 : N} {subs : option (list N)} {sp spo : list (N * N)} {ts : list IdTriple.t}.
Context (Hlay : layout w1 w2 subs sp spo ts).

Lemma layout_max : max_left spo = lenN (concat (segments sp)).
Proof.
  pose proof (Forall2_length _ _ _ (layout_gaps _ _ _ _ _ _ Hlay)) as H. rewrite <- lenN_segments.
  unfold lenN. by rewrite H.
Qed.

(** An element keeps its triple when the lists are extended. *)
Lemma triple_of_extend subs' sp' k o : 1 <= k <= max_left spo ->
  (exists rest, flat sp' = flat (segments sp) ++ rest) ->
  (forall l, 1 <= l <= max_left sp -> subject_at subs' l = subject_at subs l) ->
  triple_of subs' sp' (k, o) = triple_of subs (segments sp) (k, o).
Proof.
  intros Hk [rest Hrest] Hsub. unfold triple_of. cbn [fst snd]. destruct (o =? 0); [done|].
  pose proof (segments_nonempty sp) as Hne. rewrite Hrest.
  destruct (nget_lt (flat (segments sp)) (k - 1)) as [[l p] Hp]; [rewrite lenN_flat by done; rewrite layout_max in Hk; lia|].
  rewrite nget_app_l by (by eapply nget_Some_lt). rewrite Hp, !bind_Some_eq.
  pose proof (flat_left _ Hne _ _ _ Hp) as Hl. rewrite lenN_segments in Hl. by rewrite Hsub.
Qed.

Lemma triples_of_extend subs' sp' l p k t :
  adjacency_ok w2 (spo ++ [(k, IdTriple.object t)]) -> IdTriple.object t <> 0 ->
  (exists rest, flat sp' = flat (segments sp) ++ rest) ->
  (forall l, 1 <= l <= max_left sp -> subject_at subs' l = subject_at subs l) ->
  (flat sp').[k - 1] = Some (l, p) -> subject_at subs' l = Some (IdTriple.subject t) -> p = IdTriple.predicate t ->
  triples_of subs' sp' (segments (spo ++ [(k, IdTriple.object t)])) = ts ++ [t].
Proof.
  intros Hok Ho Hsp' Hsub Hk Hl ->. destruct (flat_snoc _ _ _ _ Hok) as (mid & Hflat & Hmid & _).
  unfold triples_of. rewrite Hflat, !omap_app. pose proof (layout_triples _ _ _ _ _ _ Hlay) as Hts.
  assert (Hold : omap (triple_of subs' sp') (flat (segments spo)) = ts).
  { rewrite <- Hts. unfold triples_of. apply omap_ext_Forall. apply Forall_forall. intros [k' o'] [q Hq]%elem_nget.
    apply triple_of_extend; [|done|done]. pose proof (flat_left _ (segments_nonempty spo) _ _ _ Hq) as Hb.
    by rewrite lenN_segments in Hb. }
  rewrite Hold. f_equal. replace (omap (triple_of subs' sp') mid) with (@nil IdTriple.t).
  - cbn. unfold triple_of. cbn [fst snd]. apply N.eqb_neq in Ho. rewrite Ho, Hk, bind_Some_eq, Hl, bind_Some_eq. by destruct t.
  - symmetry. clear - Hmid. induction Hmid as [|[k' o'] mid Hx _ IH]; [done|]. cbn in *. unfold triple_of at 1. cbn [fst snd].
    by rewrite Hx.
Qed.

(** Another object of the last subject and predicate. *)
Lemma layout_object t0 t : last ts = Some t0 -> IdTriple.subject t0 = IdTriple.subject t ->
  IdTriple.predicate t0 = IdTriple.predicate t -> IdTriple.object t0 < IdTriple.object t < 2 ^ w2 ->
  lenN spo + max_left spo + 1 < 2 ^ 32 ->
  adjacency_ok w2 (spo ++ [(max_left spo, IdTriple.object t)]) /\
  layout w1 w2 subs sp (spo ++ [(max_left spo, IdTriple.object t)]) (ts ++ [t]).
Proof.
  intros Ht0 Hs Hp Ho Hsz. pose proof (layout_last _ _ _ _ _ _ Hlay) as Hl. rewrite Ht0 in Hl.
  destruct Hl as (Hsp & Hspo & Hsub). pose proof (layout_sp _ _ _ _ _ _ Hlay) as Hoksp.
  pose proof (layout_spo _ _ _ _ _ _ Hlay) as Hokspo. pose proof layout_max as Hmax.
  apply last_Some in Hsp as [sp0 Esp]. apply last_Some in Hspo as Espo. destruct Espo as [spo0 Espo].
  assert (Hne : spo <> []) by (rewrite Espo; by intros [_ ?]%app_nil).
  pose proof Hoksp as Hoksp0. rewrite Esp in Hoksp0.
  destruct (flat_snoc _ _ _ _ Hoksp0) as (mid & Hflat & _). rewrite <- Esp in Hflat.
  assert (Hk : (flat (segments sp)).[max_left spo - 1] = Some (max_left sp, IdTriple.predicate t0)).
  { rewrite Hmax, <- lenN_flat by apply segments_nonempty. rewrite Hflat, app_assoc, !lenN_app, lenN_cons, lenN_nil.
    rewrite nget_app_r by (rewrite lenN_app; lia). rewrite lenN_app.
    replace (_ - _) with 0 by lia. done. }
  destruct (adjacency_snoc _ _ _ _ Hoksp0) as (_ & Hl1 & [Hp1 _] & _).
  assert (Hpos : 1 <= max_left spo).
  { rewrite Espo in Hokspo. by destruct (adjacency_snoc _ _ _ _ Hokspo) as (_ & ? & _). }
  assert (Hok : adjacency_ok w2 (spo ++ [(max_left spo, IdTriple.object t)])).
  { apply adjacency_ok_snoc; [done| |done|lia|lia|lia]. right. eexists _, _. split; [exact Hspo|]. right. cbn. lia. }
  split; [done|]. split; try by apply Hlay.
  - done.
  - destruct (segments_same spo (max_left spo) (IdTriple.object t) Hne ltac:(lia) eq_refl) as [E E'].
    pose proof (layout_gaps _ _ _ _ _ _ Hlay) as Hgap. rewrite E'. rewrite E in Hgap.
    pose proof (concat_snoc _ _ _ _ Hoksp0) as Hc. rewrite <- Esp, app_assoc in Hc. rewrite Hc in *.
    apply Forall2_app_inv in Hgap as [Hg1 Hg2]; [|apply Forall2_length in Hgap; rewrite (length_app _ [IdTriple.predicate t0]), (length_app _ [rights spo (max_left spo)]) in Hgap; cbn [length] in Hgap; lia].
    apply Forall2_app; [done|]. constructor; [|constructor]. apply Forall2_cons_1 in Hg2 as [Hg _]. unfold gap in *.
    destruct (N.eqb_spec (IdTriple.predicate t0) 0); [lia|]. apply Forall_app. split; [done|]. constructor; [lia|constructor].
  - apply (triples_of_extend subs (segments sp) (max_left sp) (IdTriple.predicate t0)); [done|lia|by exists []; rewrite app_nil_r|done|done|congruence|done].
  - rewrite !lenN_app, !lenN_cons, !lenN_nil. by rewrite (layout_spo_len _ _ _ _ _ _ Hlay).
  - rewrite !lenN_app, !lenN_cons, !lenN_nil. pose proof (layout_sp_len _ _ _ _ _ _ Hlay). lia.
  - rewrite !last_snoc, max_left_snoc, N.max_id. rewrite Esp at 1. rewrite last_snoc. split; [congruence|]. split; [done|congruence].
Qed.

(** Another predicate, and perhaps another subject. *)
Lemma layout_pair subs' l t :
  adjacency_ok w1 (sp ++ [(l, IdTriple.predicate t)]) ->
  (forall l, 1 <= l <= max_left sp -> subject_at subs' l = subject_at subs l) ->
  subject_at subs' l = Some (IdTriple.subject t) -> subjects_ok subs' (lenN sp + 1) l ->
  (is_Some subs' -> is_Some subs /\ l <= max_left sp + 1) -> 1 <= IdTriple.object t < 2 ^ w2 ->
  let k := lenN (concat (segments (sp ++ [(l, IdTriple.predicate t)]))) in
  lenN spo + k + 1 < 2 ^ 32 ->
  adjacency_ok w2 (spo ++ [(k, IdTriple.object t)]) /\
  layout w1 w2 subs' (sp ++ [(l, IdTriple.predicate t)]) (spo ++ [(k, IdTriple.object t)]) (ts ++ [t]).
Proof.
  intros Hoksp Hold Hl Hsub Hdense Ho k Hsz. destruct (adjacency_snoc _ _ _ _ Hoksp) as (_ & Hl1 & [Hp1 _] & Hle & _).
  destruct (flat_snoc _ _ _ _ Hoksp) as (mid & Hflat & _). pose proof layout_max as Hmax.
  pose proof (concat_snoc _ _ _ _ Hoksp) as Hc. set (sp' := sp ++ [(l, IdTriple.predicate t)]) in *.
  assert (Hk : k = max_left spo + (l - max_left sp - 1) + 1).
  { unfold k. rewrite Hc, !lenN_app, lenN_replicate, lenN_cons, lenN_nil, Hmax. lia. }
  assert (Hlast : (flat (segments sp')).[k - 1] = Some (l, IdTriple.predicate t)).
  { unfold k. rewrite <- lenN_flat by apply segments_nonempty. rewrite Hflat, app_assoc, !lenN_app, lenN_cons, lenN_nil.
    rewrite nget_app_r by (rewrite lenN_app; lia). rewrite lenN_app. replace (_ - _) with 0 by lia. done. }
  assert (Hok : adjacency_ok w2 (spo ++ [(k, IdTriple.object t)])).
  { apply adjacency_ok_snoc; [by apply Hlay| |lia|done|lia|lia]. pose proof (layout_last _ _ _ _ _ _ Hlay) as Hlst.
    destruct (last ts) as [t0|]; [|left; tauto]. right. destruct Hlst as (_ & -> & _).
    eexists _, _. split; [done|]. left. cbn. lia. }
  split; [done|]. split; [done|done| | | | | | |].
  - rewrite Hc, (segments_later spo) by lia. replace (k - max_left spo - 1) with (l - max_left sp - 1) by lia.
    apply Forall2_app; [by apply Hlay|]. apply Forall2_app.
    + by apply Forall2_replicate.
    + constructor; [|constructor]. unfold gap. destruct (N.eqb_spec (IdTriple.predicate t) 0); [lia|]. constructor; [lia|constructor].
  - unfold sp'. rewrite lenN_app, lenN_cons, lenN_nil, max_left_snoc, N.max_r by done. done.
  - intros Hs j. unfold sp'. rewrite max_left_snoc, N.max_r by done. intros Hj. destruct (Hdense Hs) as [Hs0 Hl2].
    rewrite fmap_app, elem_of_app. destruct (decide (j = l)) as [->|Hne]; [right; by left|left].
    apply (layout_dense _ _ _ _ _ _ Hlay Hs0). lia.
  - apply (triples_of_extend subs' (segments sp') l (IdTriple.predicate t)); [done|lia|by eexists|done|done|done|done].
  - rewrite !lenN_app, !lenN_cons, !lenN_nil. by rewrite (layout_spo_len _ _ _ _ _ _ Hlay).
  - unfold sp'. rewrite !lenN_app, !lenN_cons, !lenN_nil. pose proof (layout_sp_len _ _ _ _ _ _ Hlay). lia.
  - rewrite last_snoc. unfold sp'. rewrite !last_snoc, !max_left_snoc, (N.max_r (max_left sp)) by done.
    rewrite N.max_r by lia. done.
Qed.
End extend.

Lemma lenN_removelast {A} (l : list A) : lenN (removelast l) = lenN l - 1.
Proof. destruct l as [|x l _] using rev_ind; [done|]. rewrite removelast_last, lenN_app, lenN_cons, lenN_nil. lia. Qed.

Lemma builder_count w b pairs l r : adjacency_ok w (pairs ++ [(l, r)]) -> adjacency_builder_repr w b (pairs ++ [(l, r)]) ->
  AdjacencyListBuilder.count b + 1 = lenN (concat (segments (pairs ++ [(l, r)]))).
Proof.
  intros Hok (Hb & _). unfold AdjacencyListBuilder.count. assert (Hc : BitArrayFileBuilder.count (AdjacencyListBuilder.bitarray b) =
    lenN (removelast (bits_of (segments (pairs ++ [(l, r)]))))) by (by destruct Hb).
  rewrite Hc, lenN_removelast, lenN_bits_of by apply segments_nonempty.
  rewrite (concat_snoc w) by done. rewrite !lenN_app, lenN_cons, lenN_nil. lia.
Qed.

(** The size of the numbers of the first list's lefts. *)
Definition left_bound (sparse : bool) (n subject : N) : N := if sparse then n else subject.

Lemma lenN_snoc {A} (l : list A) x : lenN (l ++ [x]) = lenN l + 1.
Proof. rewrite lenN_app, lenN_cons, lenN_nil. lia. Qed.

(** The position of the subject of a new pair. *)
Lemma new_subject w1 w2 subs sp spo ts s p : layout w1 w2 subs sp spo ts -> 0 < s ->
  (forall x, last ts = Some x -> IdTriple.subject x < s \/ (IdTriple.subject x = s /\ IdTriple.predicate x < p)) ->
  let ls := match last ts with Some x => IdTriple.subject x | None => 0 end in
  let subs' := match subs with
    | Some l => if negb (s =? ls) then Some (l ++ [s]) else Some l
    | None => None
    end in
  let l := match subs' with Some l => lenN l | None => s end in
  (is_Some subs' <-> is_Some subs) /\ 1 <= l /\ max_left sp <= l /\
  (sp = [] \/ exists l0 r0, last sp = Some (l0, r0) /\ pair_lt (l0, r0) (l, p)) /\
  (forall k, 1 <= k <= max_left sp -> subject_at subs' k = subject_at subs k) /\
  subject_at subs' l = Some s /\ subjects_ok subs' (lenN sp + 1) l /\
  l <= left_bound (bool_decide (is_Some subs)) (lenN ts + 1) s /\ (is_Some subs -> l <= max_left sp + 1).
Proof.
  intros Hlay Hs Hord ls. pose proof (layout_last _ _ _ _ _ _ Hlay) as Hlast.
  pose proof (layout_subjects _ _ _ _ _ _ Hlay) as Hsub. pose proof (layout_sp_len _ _ _ _ _ _ Hlay) as Hl1.
  unfold left_bound. destruct subs as [xs|]; cbn zeta.
  - rewrite bool_decide_true by done. destruct Hsub as (Hinc & Hm & Hpos & Hmn).
    assert (Hle : forall k y, xs.[k] = Some y -> y <= ls /\ (0 < ls)).
    { intros k y Hk. pose proof (nget_Some_lt _ _ _ Hk) as Hkl. unfold ls. destruct (last ts) as [x|].
      - destruct Hlast as (_ & _ & Hx). unfold subject_at in Hx. rewrite <- Hm in *. destruct (N.eqb_spec (lenN xs) 0); [lia|].
        pose proof (Forall_nget _ _ _ _ Hpos Hx) as Hp. cbn in Hp. split; [|done].
        destruct (N.eq_dec k (lenN xs - 1)) as [->|]; [rewrite Hk in Hx; by injection Hx as ->|].
        pose proof (increasing_nget xs k (lenN xs - 1) _ _ Hinc Hk Hx ltac:(lia)). lia.
      - destruct Hlast as (_ & _ & ->). done. }
    destruct (N.eqb_spec s ls) as [E|Hne]; cbn [negb].
    + destruct (last ts) as [x|]; [|by unfold ls in E; lia]. destruct Hlast as (Hsp & _ & Hx). subst ls.
      assert (1 <= lenN xs).
      { unfold subject_at in Hx. destruct (N.eqb_spec (max_left sp) 0); [done|]. pose proof (nget_Some_lt _ _ _ Hx). lia. }
      split; [done|]. split; [done|]. split; [lia|]. split.
      { right. eexists _, _. split; [exact Hsp|]. right. cbn. destruct (Hord x eq_refl); lia. }
      split; [done|]. split; [by rewrite Hm, Hx, E|]. split; [|split; [lia|intros _; lia]]. split; [done|]. split; [done|]. split; [done|lia].
    + assert (Hls : forall x, last ts = Some x -> ls < s).
      { intros x Hx. destruct (Hord x Hx) as [H|[H _]]; unfold ls in *; rewrite Hx in *; [done|congruence]. }
      rewrite lenN_snoc. split; [done|]. split; [lia|]. split; [lia|]. split.
      { destruct (last ts) as [x|]; [|left; tauto]. destruct Hlast as (Hsp & _ & _). right. eexists _, _. split; [exact Hsp|].
        left. cbn. lia. }
      split; [|split; [|split; [|split; [lia|intros _; lia]]]].
      * intros k Hk. unfold subject_at. destruct (k =? 0); [done|]. by rewrite nget_app_l by lia.
      * unfold subject_at. replace (lenN xs + 1 =? 0) with false by (symmetry; apply N.eqb_neq; lia).
        rewrite nget_app_r by lia. by replace (lenN xs + 1 - 1 - lenN xs) with 0 by lia.
      * split; [|split; [by rewrite lenN_snoc|split; [apply Forall_app; split; [done|by constructor]|lia]]].
        apply StronglySorted_snoc. split; [done|]. apply Forall_forall. intros y [k Hk]%elem_nget.
        destruct (Hle k y Hk) as [Hy Hls0]. destruct (last ts) as [x|]; [specialize (Hls x eq_refl); lia|by unfold ls in Hls0; lia].
  - rewrite bool_decide_false by (intros [? ?]; done). split; [done|]. split; [lia|].
    destruct (last ts) as [x|].
    + destruct Hlast as (Hsp & _ & [= Hx]). rewrite Hx in *. destruct (Hord x eq_refl) as [H|[H1 H2]].
      * split; [lia|]. split; [right; eexists _, _; split; [exact Hsp|left; cbn; lia]|]. done.
      * split; [lia|]. split; [right; eexists _, _; split; [exact Hsp|right; cbn; lia]|]. done.
    + destruct Hlast as (-> & _). split; [cbn; lia|]. split; [by left|]. done.
Qed.

Section builder.
Import TripleFileBuilder.

(** The builder has got the triples [ts]. *)
Definition triple_builder_repr (w1 w2 : N) (b : t) (ts : list IdTriple.t) : Prop :=
  exists sp spo, layout w1 w2 (subjects b) sp spo ts /\
    adjacency_builder_repr w1 (s_p_adjacency_list_builder b) sp /\
    adjacency_builder_repr w2 (sp_o_adjacency_list_builder b) spo /\
    last_subject b = match last ts with Some x => IdTriple.subject x | None => 0 end /\
    last_predicate b = match last ts with Some x => IdTriple.predicate x | None => 0 end.

Lemma add_triple_spec w1 w2 b ts x : triple_builder_repr w1 w2 b ts -> StronglySorted triple_lt (ts ++ [x]) ->
  0 < IdTriple.subject x -> 0 < IdTriple.predicate x < 2 ^ w1 -> 0 < IdTriple.object x < 2 ^ w2 ->
  2 * lenN (ts ++ [x]) + left_bound (bool_decide (is_Some (subjects b))) (lenN (ts ++ [x])) (IdTriple.subject x) + 1 < 2 ^ 32 ->
  exists b', add_triple b (IdTriple.subject x) (IdTriple.predicate x) (IdTriple.object x) = Ok b' /\
    triple_builder_repr w1 w2 b' (ts ++ [x]) /\ (is_Some (subjects b') <-> is_Some (subjects b)).
Proof.
  intros (sp & spo & Hlay & Hsp & Hspo & Hls & Hlp) Hsort Hs Hp Ho Hsz. unfold add_triple.
  destruct x as [s p o]. cbn [IdTriple.subject IdTriple.predicate IdTriple.object] in *. rewrite lenN_snoc in Hsz.
  replace ((s =? 0) || (p =? 0) || (o =? 0)) with false by (symmetry; ncmp; done).
  pose proof (layout_last _ _ _ _ _ _ Hlay) as Hlast. pose proof (layout_sp _ _ _ _ _ _ Hlay) as Hoksp.
  pose proof (lenN_concat_segments _ _ Hoksp) as Hlen. pose proof (layout_max Hlay) as Hmax.
  pose proof (layout_sp_len _ _ _ _ _ _ Hlay) as Hl1. pose proof (layout_spo_len _ _ _ _ _ _ Hlay) as Hl2.
  pose proof (layout_subjects _ _ _ _ _ _ Hlay) as Hsub.
  apply StronglySorted_snoc in Hsort as [Hsort Hbefore].
  assert (Hord : forall t, last ts = Some t -> triple_lt t (IdTriple.mk s p o)).
  { intros t [pre Ht]%last_Some. rewrite Ht in Hbefore. apply Forall_app in Hbefore as [_ H]. by apply Forall_inv in H. }
  replace (s <? last_subject b) with false.
  2:{ symmetry. apply N.ltb_ge. rewrite Hls. destruct (last ts) as [t|]; [|lia]. specialize (Hord t eq_refl).
      apply triple_lt_iff in Hord. cbn in Hord. lia. }
  destruct ((last_subject b =? s) && (last_predicate b =? p)) eqn:Hsame.
  - apply andb_true_iff in Hsame as [Es%N.eqb_eq Ep%N.eqb_eq]. rewrite Hls in Es. rewrite Hlp in Ep.
    destruct (last ts) as [t|] eqn:Ht; [|lia]. pose proof (Hord t eq_refl) as Hlt%triple_lt_iff.
    cbn [IdTriple.subject IdTriple.predicate IdTriple.object] in Hlt.
    assert (Hml : max_left sp <= left_bound (bool_decide (is_Some (subjects b))) (lenN ts) s).
    { destruct Hlast as (_ & _ & Hx). unfold left_bound. destruct (subjects b) as [xs|].
      - destruct Hsub as (_ & _ & _ & ?). rewrite bool_decide_true by done. lia.
      - rewrite bool_decide_false by (intros [? ?]; done). injection Hx as Hx. lia. }
    destruct (layout_object Hlay t (IdTriple.mk s p o) Ht Es Ep) as [Hok Hlay'].
    { cbn. lia. }
    { unfold left_bound in *. destruct (bool_decide _); lia. }
    cbn [IdTriple.predicate IdTriple.object] in *. destruct Hlast as (Hsp0%last_Some & _). destruct Hsp0 as [sp0 Esp]. pose proof Hsp as Hsp1. pose proof Hoksp as Hoksp1.
    rewrite Esp in Hsp1, Hoksp1. pose proof (builder_count _ _ _ _ _ Hoksp1 Hsp1) as Hcount. rewrite <- Esp in Hcount.
    rewrite cadd_Some by (unfold left_bound in *; destruct (bool_decide _); lia). cbn [or_panic]. rewrite bind_Ok_eq, Hcount, <- Hmax.
    destruct (adjacency_push _ _ _ _ _ Hspo Hok) as (b' & -> & Hspo'). rewrite bind_Ok_eq. eexists. split; [done|].
    split; [|done]. exists sp, (spo ++ [(max_left spo, o)]). cbn [subjects s_p_adjacency_list_builder sp_o_adjacency_list_builder last_subject last_predicate].
    rewrite last_snoc. done.
  - destruct (new_subject w1 w2 (subjects b) sp spo ts s p Hlay Hs) as (Hsome & Hl & Hle & Hpair & Hold & Hat & Hsubok & Hbound & Hdense).
    { intros t Ht. pose proof (Hord t Ht) as Hlt%triple_lt_iff. cbn in Hlt. rewrite Ht in Hls, Hlp. rewrite Hls, Hlp in Hsame.
      destruct (N.eqb_spec (IdTriple.subject t) s), (N.eqb_spec (IdTriple.predicate t) p); try done; lia. }
    rewrite <- Hls in *. cbn zeta in *. set (subs' := match subjects b with Some l => _ | None => None end) in *.
    set (l := match subs' with Some l => lenN l | None => s end) in *.
    assert (Hoksp' : adjacency_ok w1 (sp ++ [(l, p)])).
    { apply adjacency_ok_snoc; [done|done|done|lia|done|]. unfold left_bound in *. destruct (bool_decide _); lia. }
    pose proof (lenN_concat_segments _ _ Hoksp') as Hlen'. rewrite lenN_snoc, max_left_snoc, N.max_r in Hlen' by done.
    destruct (layout_pair Hlay subs' l (IdTriple.mk s p o) Hoksp' Hold Hat Hsubok) as [Hok Hlay'].
    { intros Hx. apply Hsome in Hx. split; [done|]. by apply Hdense. }
    { cbn. lia. }
    { cbn [IdTriple.predicate]. unfold left_bound in *. destruct (bool_decide _); lia. }
    cbn [IdTriple.predicate IdTriple.object] in *.
    destruct (adjacency_push _ _ _ _ _ Hsp Hoksp') as (b1 & -> & Hsp'). rewrite bind_Ok_eq.
    pose proof (builder_count _ _ _ _ _ Hoksp' Hsp') as Hcount.
    rewrite cadd_Some by (unfold left_bound in *; destruct (bool_decide _); lia). cbn [or_panic]. rewrite bind_Ok_eq, Hcount.
    destruct (adjacency_push _ _ _ _ _ Hspo Hok) as (b2 & -> & Hspo'). rewrite bind_Ok_eq. eexists. split; [done|].
    split; [|done]. eexists _, _. cbn [subjects s_p_adjacency_list_builder sp_o_adjacency_list_builder last_subject last_predicate].
    rewrite last_snoc. split; [exact Hlay'|]. done.
Qed.
End builder.

(** ** From triples to files *)

(** The width that is calculated for [n] holds [n]. *)
Definition width_holds `{Log2F32} (n : N) : Prop :=
  exists w, calculate_width n = Some w /\ w <= 64 /\ n < 2 ^ w.

Definition real_triple (x : IdTriple.t) : Prop :=
  0 < IdTriple.subject x /\ 0 < IdTriple.predicate x /\ 0 < IdTriple.object x.

#[export] Instance real_triple_dec x : Decision (real_triple x).
Proof. unfold real_triple. apply _. Defined.

(** The triples a builder takes: increasing, within the bounds [np] and [no]
    of predicates and objects, and not too many. *)
Record triples_input (sparse : bool) (ns np no : N) (ts : list IdTriple.t) : Prop := {
  input_sorted : StronglySorted triple_lt ts;
  input_bounds : Forall (fun x => real_triple x /\ IdTriple.subject x <= ns /\ IdTriple.predicate x <= np /\
    IdTriple.object x <= no) ts;
  input_size : 2 * lenN ts + left_bound sparse (lenN ts) ns + 1 < 2 ^ 32
}.

Lemma triples_input_prefix sparse ns np no ts ts' :
  triples_input sparse ns np no (ts ++ ts') -> triples_input sparse ns np no ts.
Proof.
  intros [Hs Hb Hsz]. split; [by eapply StronglySorted_app_l|by apply Forall_app in Hb as [? _]|].
  rewrite lenN_app in Hsz. unfold left_bound in *. destruct sparse; lia.
Qed.

(** An adjacency list from its files. *)
Definition parse_files (debug : bool) (files : adjacency_files) : option AdjacencyList.t :=
  let '(bits, blocks, sblocks, nums) := files in AdjacencyList.parse debug nums bits blocks sblocks.

(** An array of subjects or objects from its file. *)
Definition parse_monotonic (debug : bool) (file : list N) : option LogArray.t :=
  la ← unwrap (LogArray.parse file);
  MonotonicLogArray.from_logarray debug la.

Definition parse_optional (debug : bool) (file : option (list N)) : option (option LogArray.t) :=
  match file with
  | Some file => la ← parse_monotonic debug file; Some (Some la)
  | None => Some None
  end.

Lemma positive_width w xs : Forall (fun x => x < 2 ^ w) xs -> Forall (fun x => 0 < x) xs -> xs = [] \/ 0 < w.
Proof.
  intros Hxs Hpos. destruct xs as [|x xs]; [by left|right]. apply Forall_inv in Hxs, Hpos. cbn in *.
  destruct (N.eq_dec w 0) as [->|]; [|lia]. change (2 ^ 0) with 1 in Hxs. lia.
Qed.

(** Writing an increasing list and reading it back. *)
Lemma monotonic_file debug w xs : w <= 64 -> Forall (fun x => x < 2 ^ w) xs -> increasing xs ->
  Forall (fun x => 0 < x) xs -> lenN xs < 2 ^ 32 -> exists b la,
    LogArrayFileBuilder.push_vec (LogArrayFileBuilder.new [] w) xs = Ok b /\
    parse_monotonic debug (LogArrayFileBuilder.finalize b) = Some la /\ la_repr la xs.
Proof.
  intros Hw Hxs Hinc Hpos Hn. destruct (la_build w xs Hw) as (b & la & Hb & Hla & Hr & _); [|done|done|].
  - by apply positive_width.
  - exists b, la. split; [done|]. split; [|done]. unfold parse_monotonic. rewrite Hla. cbn [unwrap]. rewrite bind_Some_eq.
    by apply (from_logarray_increasing la xs).
Qed.

(** The same list, streamed from the file. *)
Lemma increasing_stream `{FramedRead} w xs b : w <= 64 -> Forall (fun x => x < 2 ^ w) xs -> Forall (fun x => 0 < x) xs ->
  lenN xs < 2 ^ 32 -> LogArrayFileBuilder.push_vec (LogArrayFileBuilder.new [] w) xs = Ok b ->
  logarray_stream_entries (LogArrayFileBuilder.finalize b) = Ok xs.
Proof.
  intros Hw Hxs Hpos Hn Hb. destruct (builder_push_vec xs _ _ (builder_new w Hw)) as (b' & Hb' & Hr & _); [|done|done|].
  - by apply positive_width.
  - rewrite Hb in Hb'. injection Hb' as <-. by apply logarray_stream_repr.
Qed.

(** The subjects of a file, when there is one. *)
Definition subjects_streamed `{FramedRead} (file : option (list N)) (subs : option (list N)) : Prop :=
  match file, subs with
  | Some file, Some xs => logarray_stream_entries file = Ok xs
  | None, None => True
  | _, _ => False
  end.

Section triples.
Context `{FramedRead} `{Log2F32}.
Import TripleFileBuilder.

Lemma add_id_triples_spec sparse ns np no w1 w2 : np < 2 ^ w1 -> no < 2 ^ w2 ->
  forall T b ts, triple_builder_repr w1 w2 b ts -> bool_decide (is_Some (subjects b)) = sparse ->
  triples_input sparse ns np no (ts ++ filter real_triple T) ->
  exists b', add_id_triples b T = Ok b' /\ triple_builder_repr w1 w2 b' (ts ++ filter real_triple T) /\
    bool_decide (is_Some (subjects b')) = sparse.
Proof.
  intros Hnp Hno. induction T as [|x T IH]; intros b ts Hb Hsparse Hin.
  { exists b. rewrite app_nil_r. done. }
  unfold add_id_triples. cbn [fold_outcome]. rewrite filter_cons in *. destruct (decide (real_triple x)) as [Hx|Hx].
  - rewrite cons_middle, app_assoc in Hin. pose proof (triples_input_prefix _ _ _ _ _ _ Hin) as [Hs Hbd Hsz].
    destruct Hx as (Hs0 & Hp0 & Ho0). apply Forall_app in Hbd as [_ Hbd%Forall_inv]. cbn in Hbd.
    destruct (add_triple_spec w1 w2 b ts x Hb Hs Hs0 ltac:(lia) ltac:(lia)) as (b1 & -> & Hb1 & Hsome).
    { rewrite Hsparse. unfold left_bound in *. destruct sparse; lia. }
    rewrite bind_Ok_eq. destruct (IH b1 (ts ++ [x]) Hb1) as (b2 & Hb2 & Hr & Hsp); [|done|].
    { rewrite <- Hsparse. by apply bool_decide_ext. }
    exists b2. rewrite <- app_assoc in Hr. done.
  - assert (Hskip : add_triple b (IdTriple.subject x) (IdTriple.predicate x) (IdTriple.object x) = Ok b).
    { unfold add_triple. destruct (N.eqb_spec (IdTriple.subject x) 0); [done|]. destruct (N.eqb_spec (IdTriple.predicate x) 0); [done|].
      destruct (N.eqb_spec (IdTriple.object x) 0); [done|]. destruct Hx. unfold real_triple. lia. }
    rewrite Hskip, bind_Ok_eq. by apply IH.
Qed.

Lemma new_spec nn np nv sparse : width_holds np -> nn + nv < 2 ^ 64 -> width_holds (nn + nv) ->
  exists w1 w2 b, calculate_width np = Some w1 /\ calculate_width (nn + nv) = Some w2 /\ np < 2 ^ w1 /\ nn + nv < 2 ^ w2 /\
    new nn np nv sparse = Ok b /\ triple_builder_repr w1 w2 b [] /\ bool_decide (is_Some (subjects b)) = sparse.
Proof.
  intros (w1 & Hw1 & H1 & Hnp) Hn (w2 & Hw2 & H2 & Hno). exists w1, w2. eexists. repeat (split; [done|]).
  unfold new. rewrite Hw1. cbn [or_panic]. rewrite bind_Ok_eq, cadd_Some by done. cbn [or_panic]. rewrite bind_Ok_eq, Hw2.
  cbn [or_panic]. rewrite bind_Ok_eq. split; [done|]. split; [|by destruct sparse].
  exists [], []. split; [by apply layout_new|]. split; [by apply adjacency_builder_new|]. split; [by apply adjacency_builder_new|]. done.
Qed.

(** The largest subject. *)
Definition last_subject_of (ts : list IdTriple.t) : N :=
  match last ts with Some x => IdTriple.subject x | None => 0 end.

Lemma layout_stored w1 w2 subs sp spo ts subjs s_p sp_o : layout w1 w2 subs sp spo ts ->
  StronglySorted triple_lt ts -> al_repr s_p (segments sp) -> al_repr sp_o (segments spo) ->
  match subjs, subs with Some la, Some xs => la_repr la xs | None, None => True | _, _ => False end ->
  stored_as subjs s_p sp_o subs (segments sp) (segments spo) /\ ts = triples_of subs (segments sp) (segments spo).
Proof.
  intros Hlay Hsort Hsp Hspo Hla. pose proof (layout_triples _ _ _ _ _ _ Hlay) as Hts.
  pose proof (layout_subjects _ _ _ _ _ _ Hlay) as Hsub. split; [|done].
  split; [done|]. split; [done|]. split; [|split; [|split]].
  - unfold subjects_repr, subjects_ok in *. destruct subjs, subs; try done. rewrite lenN_segments. tauto.
  - pose proof (Forall2_length _ _ _ (layout_gaps _ _ _ _ _ _ Hlay)) as Hl. unfold lenN. lia.
  - apply gaps_ok_intro; [|by apply Hlay]. eapply segments_increasing, Hlay.
  - by rewrite Hts.
Qed.

Lemma last_of_subjects w1 w2 xs sp spo ts : layout w1 w2 (Some xs) sp spo ts -> default 0 (last xs) = last_subject_of ts.
Proof.
  intros Hlay. pose proof (layout_last _ _ _ _ _ _ Hlay) as Hl. pose proof (layout_subjects _ _ _ _ _ _ Hlay) as (_ & Hm & _).
  unfold last_subject_of. destruct (last ts) as [x|].
  - destruct Hl as (_ & _ & Hx). unfold subject_at in Hx. rewrite <- Hm in Hx. destruct (N.eqb_spec (lenN xs) 0); [done|].
    rewrite last_lookup. unfold nget, lenN in *. replace (pred (length xs)) with (N.to_nat (N.of_nat (length xs) - 1)) by lia.
    by rewrite Hx.
  - by destruct Hl as (_ & _ & ->).
Qed.

Lemma finalize_spec w1 w2 b ts debug : triple_builder_repr w1 w2 b ts -> StronglySorted triple_lt ts ->
  (is_Some (subjects b) -> width_holds (last_subject_of ts)) -> lenN ts < 2 ^ 32 ->
  exists s_p_bits s_p_blocks s_p_sblocks s_p_nums sp_o_bits sp_o_blocks sp_o_sblocks sp_o_nums subjects_file sp spo,
    finalize b = Ok ((s_p_bits, s_p_blocks, s_p_sblocks, s_p_nums),
                     (sp_o_bits, sp_o_blocks, sp_o_sblocks, sp_o_nums), subjects_file) /\
    layout w1 w2 (subjects b) sp spo ts /\
    adjacency_list_stream_pairs sp_o_bits sp_o_nums = Ok spo /\
    adjacency_list_stream_pairs s_p_bits s_p_nums = Ok sp /\
    subjects_streamed subjects_file (subjects b) /\
    (exists nums, LogArray.parse s_p_nums = Ok nums /\ la_repr nums (concat (segments sp)) /\ LogArray.width nums = w1) /\
    exists subjs s_p sp_o,
      AdjacencyList.parse debug s_p_nums s_p_bits s_p_blocks s_p_sblocks = Some s_p /\
      AdjacencyList.parse debug sp_o_nums sp_o_bits sp_o_blocks sp_o_sblocks = Some sp_o /\
      parse_optional debug subjects_file = Some subjs /\
      stored_as subjs s_p sp_o (subjects b) (segments sp) (segments spo) /\
      ts = triples_of (subjects b) (segments sp) (segments spo).
Proof.
  intros (sp & spo & Hlay & Hsp & Hspo & _) Hsort Hwidth Hn.
  destruct (adjacency_finalize w1 _ sp debug Hsp (layout_sp _ _ _ _ _ _ Hlay)) as (b1 & bl1 & sl1 & n1 & al1 & Hf1 & Hp1 & Hr1 & _ & _ & Hs1 & Hn1 & Hw1).
  destruct (adjacency_finalize w2 _ spo debug Hspo (layout_spo _ _ _ _ _ _ Hlay)) as (b2 & bl2 & sl2 & n2 & al2 & Hf2 & Hp2 & Hr2 & _ & _ & Hs2 & _).
  assert (Hsubj : exists subjects_file subjs, finalize b = Ok ((b1, bl1, sl1, n1), (b2, bl2, sl2, n2), subjects_file) /\
    parse_optional debug subjects_file = Some subjs /\
    match subjs, subjects b with Some la, Some xs => la_repr la xs | None, None => True | _, _ => False end /\
    subjects_streamed subjects_file (subjects b)).
  { unfold finalize. rewrite Hf1, bind_Ok_eq, Hf2, bind_Ok_eq. destruct (subjects b) as [xs|] eqn:Ex.
    - rewrite (last_of_subjects _ _ _ _ _ _ Hlay). destruct Hwidth as (w & Hw & Hw64 & Hlast); [by eexists|].
      rewrite Hw. cbn [or_panic]. rewrite bind_Ok_eq. pose proof (layout_subjects _ _ _ _ _ _ Hlay) as (Hinc & Hm & Hpos & Hmn).
      pose proof (layout_sp_len _ _ _ _ _ _ Hlay) as Hl1.
      assert (Hxs : Forall (fun x => x < 2 ^ w) xs).
      { rewrite <- (last_of_subjects _ _ _ _ _ _ Hlay) in Hlast. apply Forall_forall. intros x [k Hk]%elem_nget.
        apply N.le_lt_trans with (default 0 (last xs)); [|done]. rewrite last_lookup.
        pose proof (nget_Some_lt _ _ _ Hk) as Hkl. destruct (nget_lt xs (lenN xs - 1)) as [y Hy]; [lia|].
        replace (xs !! pred (length xs)) with (Some y).
        2:{ rewrite <- Hy. unfold nget, lenN. f_equal. lia. }
        cbn. destruct (N.eq_dec k (lenN xs - 1)) as [->|]; [rewrite Hk in Hy; by injection Hy as ->|].
        pose proof (increasing_nget xs k (lenN xs - 1) _ _ Hinc Hk Hy ltac:(lia)). lia. }
      destruct (monotonic_file debug w xs Hw64 Hxs Hinc Hpos) as (lb & la & Hlb & Hla & Hr); [lia|]. rewrite Hlb, bind_Ok_eq.
      eexists _, (Some la). split; [done|]. split; [cbn [parse_optional]; by rewrite Hla|]. split; [done|].
      apply (increasing_stream w); [done|done|done|lia|done].
    - by eexists _, None. }
  destruct Hsubj as (sf & subjs & Hfin & Hsf & Hla & Hstream).
  exists b1, bl1, sl1, n1, b2, bl2, sl2, n2, sf, sp, spo. do 5 (split; [done|]).
  split; [by exists (AdjacencyList.nums al1); split; [done|]; split; [by destruct Hr1 as (_ & _ & ? & _)|done]|].
  exists subjs, al1, al2. split; [done|]. split; [done|]. split; [done|]. by apply (layout_stored w1 w2).
Qed.
End triples.

(** ** The index by object *)

(** The pairs of an object and a position of the first list, by object: zeros
    stand for objects that do not occur. *)
Definition entry_of (objs : option (list N)) (x : N * N) : option (N * N) :=
  if x.2 =? 0 then None else o ← subject_at objs x.1; Some (o, x.2).

Definition entries_of (objs : option (list N)) (ops : list (list N)) : list (N * N) := omap (entry_of objs) (flat ops).

Lemma omap_filter {A B} (P : A -> Prop) `{forall x, Decision (P x)} (f : A -> option B) (l : list A) :
  (forall x, ~ P x -> f x = None) -> omap f (filter P l) = omap f l.
Proof.
  intros Hf. induction l as [|x l IH]; [done|]. rewrite filter_cons. destruct (decide (P x)) as [Hx|Hx]; cbn.
  - by rewrite IH.
  - by rewrite (Hf x Hx).
Qed.

Lemma entries_of_pairs w objs pairs : adjacency_ok w pairs -> entries_of objs (segments pairs) = omap (entry_of objs) pairs.
Proof.
  intros Hok. unfold entries_of. rewrite <- (omap_filter (fun p : N * N => p.2 <> 0)).
  - unfold flat. rewrite filter_flat_from by apply segments_nonempty. by rewrite (pairs_from_segments w).
  - intros x Hx. unfold entry_of. destruct (N.eqb_spec (snd x) 0); [done|]. tauto.
Qed.

Lemma entries_of_dense w pairs : adjacency_ok w pairs -> entries_of None (segments pairs) = pairs.
Proof.
  intros Hok. rewrite (entries_of_pairs w) by done. destruct Hok as (_ & _ & Hb & _).
  induction Hb as [|[o k] pairs Hx _ IH]; [done|]. cbn in *. unfold entry_of at 1. cbn [fst snd].
  destruct (N.eqb_spec k 0); [lia|]. cbn. by rewrite IH.
Qed.

(** What the loop that numbers the objects in use has written: [ranks] are the
    pairs [done_] with the numbers of the objects. *)
Record ranked (w : N) (b : AdjacencyListBuilder.t) (objects : list N) (ranks done_ : list (N * N)) : Prop := {
  ranked_builder : adjacency_builder_repr w b ranks;
  ranked_ok : adjacency_ok w ranks;
  ranked_increasing : increasing objects;
  ranked_positive : Forall (fun o => 0 < o) objects;
  ranked_count : lenN objects = max_left ranks;
  ranked_le : lenN objects <= lenN done_;
  ranked_len : lenN ranks = lenN done_;
  ranked_last : default 0 (last objects) = match last done_ with Some p => p.1 | None => 0 end;
  ranked_last_pair :
    match last done_ with
    | Some p => last ranks = Some (max_left ranks, p.2)
    | None => ranks = []
    end;
  ranked_entries : omap (entry_of (Some objects)) ranks = done_
}.

Lemma ranked_new w : w <= 64 -> ranked w (AdjacencyListBuilder.new w) [] [] [].
Proof.
  intros Hw. split; [by apply adjacency_builder_new| |constructor|constructor|done..].
  split; [done|]. split; [constructor|]. split; [constructor|done].
Qed.

Lemma last_le (xs : list N) x : increasing xs -> x ∈ xs -> x <= default 0 (last xs).
Proof.
  intros Hinc [k Hk]%elem_nget. pose proof (nget_Some_lt _ _ _ Hk) as Hkl.
  destruct xs as [|y xs _] using rev_ind; [done|]. rewrite last_snoc. cbn. rewrite lenN_snoc in Hkl.
  destruct (N.eq_dec k (lenN xs)) as [->|Hne].
  - rewrite nget_app_r, N.sub_diag in Hk by done. injection Hk as ->. done.
  - apply N.lt_le_incl, (increasing_nget (xs ++ [y]) k (lenN xs)); [done|done| |lia].
    by rewrite nget_app_r, N.sub_diag by done.
Qed.

Lemma push_sparse_spec w b objects ranks done_ o k : ranked w b objects ranks done_ ->
  StronglySorted pair_lt (done_ ++ [(o, k)]) -> 1 <= o -> 1 <= k < 2 ^ w -> 2 * lenN done_ + 2 < 2 ^ 32 ->
  exists b' objects' ranks', push_sparse (b, objects, default 0 (last objects), lenN objects) (o, k) =
      Ok (b', objects', default 0 (last objects'), lenN objects') /\
    ranked w b' objects' ranks' (done_ ++ [(o, k)]).
Proof.
  intros [Hb Hok Hinc Hpos Hc Hle Hlen Hlast Hlp Hent] Hs Ho Hk Hn. apply StronglySorted_snoc in Hs as [_ Hs].
  unfold push_sparse. destruct (N.ltb_spec (default 0 (last objects)) o) as [Hlt|Hge].
  - rewrite cadd_Some by lia. cbn [or_panic]. rewrite !bind_Ok_eq.
    assert (Hok' : adjacency_ok w (ranks ++ [(lenN objects + 1, k)])).
    { apply adjacency_ok_snoc; [done| |lia|done|lia|lia]. destruct (last ranks) as [[l0 r0]|] eqn:El; [right|left; by apply last_None].
      exists l0, r0. split; [done|]. left. cbn. apply last_Some in El as [pre El].
      pose proof (max_left_le ranks (l0, r0)) as H. rewrite El in H at 1. cbn in H.
      specialize (H ltac:(apply elem_of_app; right; by constructor)). lia. }
    destruct (adjacency_push _ _ _ _ _ Hb Hok') as (b' & -> & Hb'). rewrite bind_Ok_eq.
    exists b', (objects ++ [o]), (ranks ++ [(lenN objects + 1, k)]). rewrite last_snoc, lenN_snoc. split; [done|].
    split; [done|done| | | | | | | |].
    + apply StronglySorted_snoc. split; [done|]. apply Forall_forall. intros x Hx. pose proof (last_le _ _ Hinc Hx). lia.
    + apply Forall_app. split; [done|]. constructor; [lia|constructor].
    + rewrite lenN_snoc, max_left_snoc. lia.
    + rewrite !lenN_snoc. lia.
    + rewrite !lenN_snoc. lia.
    + by rewrite !last_snoc.
    + rewrite !last_snoc, max_left_snoc. cbn [snd]. do 2 f_equal. lia.
    + rewrite omap_app. f_equal.
      * transitivity (omap (entry_of (Some objects)) ranks); [|done]. apply omap_ext_Forall. destruct Hok as (_ & _ & Hbd & _). rewrite Forall_forall in Hbd.
        apply Forall_forall. intros [l r] Hin. pose proof (max_left_le _ _ Hin) as Hm. specialize (Hbd _ Hin). cbn in Hm, Hbd.
        unfold entry_of, subject_at. cbn [fst snd]. destruct (r =? 0); [done|]. destruct (l =? 0); [done|].
        by rewrite nget_app_l by lia.
      * cbn. unfold entry_of, subject_at. cbn [fst snd]. destruct (N.eqb_spec k 0); [lia|].
        destruct (N.eqb_spec (lenN objects + 1) 0); [lia|]. rewrite nget_app_r by lia.
        by replace (lenN objects + 1 - 1 - lenN objects) with 0 by lia.
  - destruct (last done_) as [[o0 k0]|] eqn:Ed; [|rewrite Hlast in Hge; lia].
    apply last_Some in Ed as Edone. destruct Edone as [pre Epre]. rewrite Hlast in Hge. cbn [fst snd] in *.
    rewrite Epre in Hs. apply Forall_app in Hs as [_ Hs%Forall_inv]. unfold pair_lt in Hs. cbn in Hs.
    assert (o0 = o) as -> by lia. rewrite !bind_Ok_eq.
    assert (Hok' : adjacency_ok w (ranks ++ [(lenN objects, k)])).
    { rewrite Hc. apply adjacency_ok_snoc; [done| | |done|done|lia].
      - right. eexists _, _. split; [exact Hlp|]. right. cbn. lia.
      - apply last_Some in Hlp as [pre' Er]. destruct Hok as (_ & _ & Hbd & _). rewrite Er in Hbd at 1.
        apply Forall_app in Hbd as [_ Hbd%Forall_inv]. cbn in Hbd. lia. }
    destruct (adjacency_push _ _ _ _ _ Hb Hok') as (b' & -> & Hb'). rewrite bind_Ok_eq.
    exists b', objects, (ranks ++ [(lenN objects, k)]). split; [done|]. split; try done.
    + rewrite max_left_snoc. lia.
    + rewrite !lenN_snoc. lia.
    + rewrite !lenN_snoc. lia.
    + by rewrite Hlast, last_snoc.
    + rewrite !last_snoc, max_left_snoc. cbn [snd]. do 2 f_equal. lia.
    + rewrite omap_app, Hent. f_equal. cbn. unfold entry_of, subject_at. cbn [fst snd]. destruct (N.eqb_spec k 0); [lia|].
      assert (0 < lenN objects).
      { destruct objects; [cbn in Hlast; lia|rewrite lenN_cons; lia]. }
      destruct (N.eqb_spec (lenN objects) 0); [lia|].
      destruct objects as [|o1 objects _] using rev_ind; [done|]. rewrite last_snoc in Hlast. cbn in Hlast. subst o1.
      rewrite lenN_snoc, N.add_sub, nget_app_r, N.sub_diag by done. done.
Qed.

Lemma push_sparse_loop w pairs : forall b objects ranks done_, ranked w b objects ranks done_ ->
  StronglySorted pair_lt (done_ ++ pairs) -> Forall (fun p => 1 <= p.1 /\ 1 <= p.2 < 2 ^ w) pairs ->
  2 * lenN (done_ ++ pairs) < 2 ^ 32 ->
  exists b' objects' ranks', fold_outcome push_sparse (b, objects, default 0 (last objects), lenN objects) pairs =
      Ok (b', objects', default 0 (last objects'), lenN objects') /\
    ranked w b' objects' ranks' (done_ ++ pairs).
Proof.
  induction pairs as [|[o k] pairs IH]; intros b objects ranks done_ Hr Hs Hb Hn.
  { exists b, objects, ranks. by rewrite app_nil_r. }
  apply Forall_cons in Hb as [[Ho Hk] Hb]. cbn in Ho, Hk. rewrite cons_middle, app_assoc in *.
  destruct (push_sparse_spec w b objects ranks done_ o k Hr) as (b1 & objects1 & ranks1 & Hp & Hr1); [|done|done| |].
  { by eapply StronglySorted_app_l. }
  { rewrite !lenN_app, lenN_cons, lenN_nil in Hn. lia. }
  cbn [fold_outcome]. rewrite Hp, bind_Ok_eq. by apply (IH _ _ ranks1).
Qed.

Lemma pairs_sorted_strict (l : list (N * N)) : NoDup l ->
  StronglySorted (fun x y : N * N => x.1 < y.1 \/ (x.1 = y.1 /\ x.2 <= y.2)) l -> StronglySorted pair_lt l.
Proof.
  intros Hnd Hs. induction Hs as [|[o k] l Hs IH Hall]; [constructor|]. apply NoDup_cons in Hnd as [Hx Hnd].
  constructor; [by apply IH|]. rewrite Forall_forall in *. intros [o' k'] Hin. specialize (Hall _ Hin). unfold pair_lt. cbn in *.
  destruct (N.eq_dec o o') as [->|], (N.eq_dec k k') as [->|]; [by destruct Hx|lia..].
Qed.

Lemma sorted_pairs_nodup (l : list (N * N)) : StronglySorted pair_lt l -> NoDup l.
Proof.
  induction 1 as [|x l Hs IH Hall]; [constructor|]. constructor; [|done]. intros Hin.
  rewrite Forall_forall in Hall. specialize (Hall x Hin). unfold pair_lt in Hall. lia.
Qed.

Lemma last_left_max w pairs : adjacency_ok w pairs -> match last pairs with Some p => p.1 | None => 0 end = max_left pairs.
Proof.
  intros Hok. destruct pairs as [|[l r] pairs _] using rev_ind; [done|]. rewrite last_snoc, max_left_snoc.
  destruct (adjacency_snoc _ _ _ _ Hok) as (_ & _ & _ & H & _). cbn. lia.
Qed.

Lemma max_left_bound pairs n : Forall (fun p => p.1 <= n) pairs -> max_left pairs <= n.
Proof. induction 1 as [|p pairs Hp _ IH]; [simpl; lia|]. unfold max_left in *. cbn in *. lia. Qed.

Definition swap (p : N * N) : N * N := (p.2, p.1).

(** The numbers of [entries] are stored by object. *)
Definition by_object `{FramedRead} (debug : bool) (files : adjacency_files) (objects_file : option (list N))
    (entries : list (N * N)) : Prop :=
  exists objs oidx o_ps ops, parse_files debug files = Some o_ps /\ parse_optional debug objects_file = Some objs /\
    al_repr o_ps ops /\ subjects_repr objs oidx ops /\ entries_of oidx ops = entries.

Section index.
Context `{FramedRead} `{Log2F32} `{ParSort}.
Context (w2 : N) (spo : list (N * N)) (bits nums : list N) (debug : bool).
Hypothesis Hstream : adjacency_list_stream_pairs bits nums = Ok spo.
Hypothesis Hok : adjacency_ok w2 spo.
Hypothesis Hwidth : width_holds (max_left spo).

Let entries := par_sort_unstable (swap <$> spo).

Lemma entries_perm : entries ≡ₚ swap <$> spo.
Proof using Hok. apply par_sort_permutation. Qed.

Lemma entries_sorted : StronglySorted pair_lt entries.
Proof using Hok.
  apply pairs_sorted_strict; [|apply par_sort_sorted]. rewrite entries_perm. apply NoDup_fmap_2_strong.
  - intros [? ?] [? ?] _ _ [= -> ->]. done.
  - apply sorted_pairs_nodup. by destruct Hok as (_ & ? & _).
Qed.

Lemma entries_bounds w : max_left spo < 2 ^ w -> Forall (fun p => 1 <= p.1 /\ 1 <= p.2 < 2 ^ w) entries.
Proof using Hok.
  intros Hw. apply Forall_forall. intros x Hx. rewrite entries_perm in Hx. apply list_elem_of_fmap in Hx as ([k o] & -> & Hin).
  pose proof (max_left_le _ _ Hin) as Hm. destruct Hok as (_ & _ & Hb & _). rewrite Forall_forall in Hb. specialize (Hb _ Hin).
  cbn in *. lia.
Qed.

Lemma lenN_entries : lenN entries = lenN spo.
Proof using Hok. unfold lenN. rewrite entries_perm. by rewrite length_fmap. Qed.

Lemma object_index_dense no : Forall (fun p => p.2 <= no) spo -> lenN spo + no < 2 ^ 32 ->
  exists files, build_object_index bits nums false = Ok (files, None) /\ by_object debug files None entries.
Proof using All.
  intros Hno Hn. destruct Hwidth as (w & Hw & Hw64 & Hmax).
  assert (Hmo : max_left entries <= no).
  { apply max_left_bound. apply Forall_forall. intros x Hx. rewrite entries_perm in Hx.
    apply list_elem_of_fmap in Hx as ([k o] & -> & Hin). rewrite Forall_forall in Hno. by apply (Hno _ Hin). }
  assert (Hoke : adjacency_ok w entries).
  { split; [done|]. split; [apply entries_sorted|]. split; [by apply entries_bounds|]. rewrite lenN_entries. lia. }
  destruct (adjacency_push_list w entries _ [] (adjacency_builder_new w Hw64) Hoke) as (b & Hp & Hb). cbn [app] in Hb.
  destruct (adjacency_finalize w b entries debug Hb Hoke) as (b1 & bl1 & sl1 & n1 & al & Hf & Hparse & Hal & _).
  exists (b1, bl1, sl1, n1). split.
  - unfold build_object_index. rewrite Hstream, bind_Ok_eq. rewrite (last_left_max w2) by done. rewrite Hw.
    cbn [or_panic]. rewrite bind_Ok_eq.
    change (par_sort_unstable ((fun p : N * N => (p.2, p.1)) <$> spo)) with entries.
    by rewrite Hp, bind_Ok_eq, Hf, bind_Ok_eq.
  - exists None, None, al, (segments entries). repeat (split; [done|]). by apply (entries_of_dense w).
Qed.

Lemma object_index_sparse : width_holds 0 -> Forall (fun p => width_holds p.2) spo -> 2 * lenN spo < 2 ^ 32 ->
  exists files objects_file, build_object_index bits nums true = Ok (files, Some objects_file) /\
    by_object debug files (Some objects_file) entries.
Proof using All.
  intros Hzero Hobj Hn. destruct Hwidth as (w & Hw & Hw64 & Hmax).
  destruct (push_sparse_loop w entries _ [] [] [] (ranked_new w Hw64)) as (b & objects & ranks & Hfold & Hr).
  { apply entries_sorted. }
  { by apply entries_bounds. }
  { cbn [app]. rewrite lenN_entries. lia. }
  cbn [app last default] in Hfold, Hr. change (lenN []) with 0 in Hfold.
  destruct Hr as [Hb Hokr Hinc Hpos Hc Hle Hlen Hlast _ Hent].
  assert (Hwo : width_holds (default 0 (last objects))).
  { rewrite Hlast. destruct (last entries) as [[o k]|] eqn:El; [|done]. apply last_Some in El as [pre El].
    assert (Hin : (o, k) ∈ entries) by (rewrite El; apply elem_of_app; right; by constructor).
    rewrite entries_perm in Hin. apply list_elem_of_fmap in Hin as ([k' o'] & [= -> ->] & Hin).
    rewrite Forall_forall in Hobj. apply (Hobj _ Hin). }
  destruct Hwo as (wo & Hwo & Hwo64 & Hlo).
  destruct (monotonic_file debug wo objects Hwo64) as (lb & la & Hlb & Hla & Hlar); [|done|done| |].
  { apply Forall_forall. intros x Hx. pose proof (last_le _ _ Hinc Hx). lia. }
  { rewrite lenN_entries in Hle. lia. }
  destruct (adjacency_finalize w b ranks debug Hb Hokr) as (b1 & bl1 & sl1 & n1 & al & Hf & Hparse & Hal & _).
  exists (b1, bl1, sl1, n1), (LogArrayFileBuilder.finalize lb). split.
  - unfold build_object_index. rewrite Hstream, bind_Ok_eq. rewrite (last_left_max w2) by done. rewrite Hw.
    cbn [or_panic]. rewrite bind_Ok_eq.
    change (par_sort_unstable ((fun p : N * N => (p.2, p.1)) <$> spo)) with entries.
    rewrite Hfold, bind_Ok_eq, Hwo. cbn [or_panic]. by rewrite bind_Ok_eq, Hlb, bind_Ok_eq, Hf, bind_Ok_eq.
  - exists (Some la), (Some objects), al, (segments ranks). split; [done|]. split; [cbn [parse_optional]; by rewrite Hla|].
    split; [done|]. split; [unfold subjects_repr; by rewrite lenN_segments|]. by rewrite (entries_of_pairs w).
Qed.
End index.

(** ** The index by predicate *)

(** [wt] is a wavelet tree of [xs], perhaps one without layers. *)
Definition wavelet_of (wt : WaveletTree.t) (xs : list N) : Prop :=
  wt_repr wt xs \/ (WaveletTree.num_layers wt = 0 /\ xs = []).

Definition parse_wavelet (files : list N * list N * list N) (width : N) : option WaveletTree.t :=
  let '(bits, blocks, sblocks) := files in
  bits ← BitIndex.from_maps bits blocks sblocks;
  WaveletTree.from_parts bits width.

Lemma wavelet_files_spec `{FramedRead} width xs : width < 58 -> xs = [] \/ 0 < width -> Forall (fun x => x < 2 ^ width) xs ->
  width * lenN xs < 2 ^ 32 ->
  exists files wt, build_wavelet_tree_from_iter width xs = Ok files /\ parse_wavelet files width = Some wt /\
    wavelet_of wt xs /\ WaveletTree.num_layers wt = width.
Proof.
  intros Hw Hw0 Hxs Hn. destruct (N.eq_dec width 0) as [->|Hz].
  - destruct Hw0 as [->|]; [|lia]. destruct (bit_builder_push_all [] _ _ bit_builder_new) as (b & Hpb & Hb); [done|].
    destruct (build_bitindex_spec b _ Hb) as (bl & sl & bi & Hbuild & Hmaps & Hbi); [done|].
    eexists (_, bl, sl), (WaveletTree.mk bi 0). split; [|split; [|split; [by right|done]]].
    + unfold build_wavelet_tree_from_iter. change (create_fragments 0) with (Some (@nil FragmentBuilder.t)). cbn [or_panic].
      rewrite bind_Ok_eq. cbn [push_source or_panic]. rewrite bind_Ok_eq. cbn [concat fmap list_fmap].
      cbn [fmap list_fmap] in Hpb. rewrite Hpb, bind_Ok_eq, Hbuild. done.
    + cbn [parse_wavelet]. rewrite Hmaps. done.
  - destruct (wavelet_build width xs) as (bits & bl & sl & bi & Hb & Hm & Hf & Hwt); [lia|done|done|].
    exists (bits, bl, sl), (WaveletTree.mk bi width). split; [done|]. split; [|split; [by left|done]].
    cbn [parse_wavelet]. by rewrite Hm, bind_Some_eq.
Qed.

Lemma predicate_index_spec `{FramedRead} source nums xs : LogArray.parse source = Ok nums -> la_repr nums xs ->
  LogArray.width nums < 58 -> LogArray.width nums * lenN xs < 2 ^ 32 ->
  exists files wt, build_predicate_index source = Ok files /\ parse_wavelet files (LogArray.width nums) = Some wt /\
    wavelet_of wt xs /\ WaveletTree.num_layers wt = LogArray.width nums.
Proof.
  intros Hp Hr Hw Hn. unfold build_predicate_index, build_wavelet_tree_from_logarray. rewrite Hp. cbn [map_err].
  rewrite bind_Ok_eq. pose proof Hr as (Hlen & _ & Hw0 & Hxs & _). rewrite Hlen.
  rewrite (mapM_nget (LogArray.entry nums) xs) by (intros; by apply la_entry). cbn [or_panic]. rewrite bind_Ok_eq.
  apply wavelet_files_spec; [done|by destruct Hw0; [left|right]|done|done].
Qed.

(** ** Properties *)

(** The files of the triples, and what is read from them. *)
Definition write_triples `{FramedRead} `{Log2F32} (num_nodes num_predicates num_values : N) (sparse : bool)
    (triples : list IdTriple.t) : outcome io_error (adjacency_files * adjacency_files * option (list N)) :=
  b ← TripleFileBuilder.new num_nodes num_predicates num_values sparse;
  b ← TripleFileBuilder.add_id_triples b triples;
  TripleFileBuilder.finalize b.

Definition read_triples (debug : bool) (files : adjacency_files * adjacency_files * option (list N))
    : option (option LogArray.t * AdjacencyList.t * AdjacencyList.t) :=
  let '(s_p, sp_o, subjects) := files in
  subjects ← parse_optional debug subjects;
  s_p ← parse_files debug s_p;
  sp_o ← parse_files debug sp_o;
  Some (subjects, s_p, sp_o).

(** The widths that are calculated hold the numbers they are calculated for. *)
Definition widths_hold `{Log2F32} (sparse : bool) (np no : N) (ts : list IdTriple.t) : Prop :=
  width_holds np /\ width_holds no /\ (sparse = true -> width_holds (last_subject_of ts)).

Lemma write_triples_spec `{FramedRead} `{Log2F32} debug sparse nn np nv ns T :
  nn + nv < 2 ^ 64 -> widths_hold sparse np (nn + nv) (filter real_triple T) ->
  triples_input sparse ns np (nn + nv) (filter real_triple T) ->
  exists w1 w2 s_p_bits s_p_blocks s_p_sblocks s_p_nums sp_o_bits sp_o_blocks sp_o_sblocks sp_o_nums subjects_file sp spo subs,
    calculate_width np = Some w1 /\ calculate_width (nn + nv) = Some w2 /\
    write_triples nn np nv sparse T = Ok ((s_p_bits, s_p_blocks, s_p_sblocks, s_p_nums),
      (sp_o_bits, sp_o_blocks, sp_o_sblocks, sp_o_nums), subjects_file) /\
    layout w1 w2 subs sp spo (filter real_triple T) /\ bool_decide (is_Some subs) = sparse /\
    adjacency_list_stream_pairs sp_o_bits sp_o_nums = Ok spo /\
    adjacency_list_stream_pairs s_p_bits s_p_nums = Ok sp /\
    subjects_streamed subjects_file subs /\
    (exists nums, LogArray.parse s_p_nums = Ok nums /\ la_repr nums (concat (segments sp)) /\ LogArray.width nums = w1) /\
    exists subjs s_p sp_o, read_triples debug ((s_p_bits, s_p_blocks, s_p_sblocks, s_p_nums),
        (sp_o_bits, sp_o_blocks, sp_o_sblocks, sp_o_nums), subjects_file) = Some (subjs, s_p, sp_o) /\
      stored_as subjs s_p sp_o subs (segments sp) (segments spo) /\
      filter real_triple T = triples_of subs (segments sp) (segments spo).
Proof.
  intros Hn (Hnp & Hno & Hns) Hin.
  destruct (new_spec nn np nv sparse Hnp Hn Hno) as (w1 & w2 & b0 & Hw1 & Hw2 & Hnp' & Hno' & Hnew & Hb0 & Hsp0).
  destruct (add_id_triples_spec sparse ns np (nn + nv) w1 w2 Hnp' Hno' T b0 [] Hb0 Hsp0 Hin) as (b & Hadd & Hb & Hsp).
  cbn [app] in Hb. destruct Hin as [Hsort _ Hsz].
  destruct (finalize_spec w1 w2 b _ debug Hb Hsort) as
    (b1 & bl1 & sl1 & n1 & b2 & bl2 & sl2 & n2 & sf & sp & spo & Hf & Hlay & Hst & Hst' & Hsubs & Hnums & subjs & s_p & sp_o & Hp1 & Hp2 & Hps & Hs & Hts); [|lia|].
  { intros Hsome. apply Hns. rewrite <- Hsp. by apply bool_decide_true. }
  exists w1, w2, b1, bl1, sl1, n1, b2, bl2, sl2, n2, sf, sp, spo, (TripleFileBuilder.subjects b).
  split; [done|]. split; [done|]. split; [unfold write_triples; by rewrite Hnew, bind_Ok_eq, Hadd, bind_Ok_eq|].
  do 6 (split; [done|]). exists subjs, s_p, sp_o. split; [|done].
  unfold read_triples, parse_files. by rewrite Hps, bind_Some_eq, Hp1, bind_Some_eq, Hp2.
Qed.

(** C39: adding any triples in order, those with a zero among them included, and
    finishing the files gives files from which exactly the triples without
    zeros are read back: iterating gives them in order, and the membership test
    answers for each triple of numbers whether it is one of them.  It holds
    with and without the array of subjects. *)
Theorem triple_files_roundtrip `{FramedRead} `{Log2F32} debug sparse nn np nv ns T :
  nn + nv < 2 ^ 64 -> widths_hold sparse np (nn + nv) (filter real_triple T) ->
  triples_input sparse ns np (nn + nv) (filter real_triple T) ->
  exists files subjs s_p sp_o, write_triples nn np nv sparse T = Ok files /\
    read_triples debug files = Some (subjs, s_p, sp_o) /\
    InternalLayerTripleSubjectIterator.collect (S (length (filter real_triple T)))
      (InternalLayerTripleSubjectIterator.new subjs s_p sp_o) =
      Some (filter real_triple T) /\
    forall s p o, layer_triple_exists subjs s_p sp_o s p o = Some (bool_decide (IdTriple.mk s p o ∈ filter real_triple T)).
Proof.
  intros Hn Hw Hin. destruct (write_triples_spec debug sparse nn np nv ns T Hn Hw Hin) as
    (w1 & w2 & b1 & bl1 & sl1 & n1 & b2 & bl2 & sl2 & n2 & sf & sp & spo & subs & _ & _ & Hwr & _ & _ & _ & _ & _ & _ & subjs & s_p & sp_o & Hrd & Hst & Hts).
  eexists _, subjs, s_p, sp_o. split; [exact Hwr|]. split; [exact Hrd|].
  assert (Hstored : stored subjs s_p sp_o (filter real_triple T)) by (by exists subs, (segments sp), (segments spo)).
  split; [|intros; by apply triple_exists_spec].
  rewrite Hts. by apply (collect_yields _ _ _ _ _ _ Hst), new_yields.
Qed.

#[local] Instance exact_log2 : Log2F32 := N.log2_up.

Definition sample_triples : list IdTriple.t :=
  [IdTriple.mk 2 1 4; IdTriple.mk 2 1 6; IdTriple.mk 2 3 1; IdTriple.mk 3 0 1; IdTriple.mk 5 2 2; IdTriple.mk 5 3 6].

Lemma sample_triples_input sparse : triples_input sparse 5 3 7 (filter real_triple sample_triples).
Proof.
  assert (E : filter real_triple sample_triples =
    [IdTriple.mk 2 1 4; IdTriple.mk 2 1 6; IdTriple.mk 2 3 1; IdTriple.mk 5 2 2; IdTriple.mk 5 3 6]) by (vm_compute; reflexivity).
  rewrite E. split.
  - repeat (constructor; try (repeat constructor; apply triple_lt_iff; cbn; lia)).
  - repeat constructor; unfold real_triple; cbn; lia.
  - by destruct sparse.
Qed.

Lemma sample_width n : n < 100 -> width_holds n.
Proof.
  intros Hn. exists (N.log2_up (n + 1)). unfold calculate_width. rewrite cadd_Some by lia. split; [|split].
  - unfold f32_of_u64. rewrite bind_Some_eq. replace (n + 1 <? 2 ^ 24) with true; [done|]. symmetry. apply N.ltb_lt. lia.
  - apply N.le_trans with (N.log2_up 128); [apply N.log2_up_le_mono; lia|by vm_compute].
  - pose proof (N.log2_up_spec (n + 1)) as H. destruct (N.eq_dec n 0) as [->|]; [done|]. lia.
Qed.

Lemma triple_files_roundtrip_witness : exists files subjs s_p sp_o,
    write_triples (H := whole_file) 5 3 2 true sample_triples = Ok files /\
    read_triples true files = Some (subjs, s_p, sp_o) /\
    InternalLayerTripleSubjectIterator.collect 6 (InternalLayerTripleSubjectIterator.new subjs s_p sp_o) =
      Some [IdTriple.mk 2 1 4; IdTriple.mk 2 1 6; IdTriple.mk 2 3 1; IdTriple.mk 5 2 2; IdTriple.mk 5 3 6] /\
    forall s p o, layer_triple_exists subjs s_p sp_o s p o = Some (bool_decide (IdTriple.mk s p o ∈
      [IdTriple.mk 2 1 4; IdTriple.mk 2 1 6; IdTriple.mk 2 3 1; IdTriple.mk 5 2 2; IdTriple.mk 5 3 6])).
Proof.
  apply (triple_files_roundtrip (H := whole_file) true true 5 3 2 5 sample_triples); [done| |apply sample_triples_input].
  split; [by apply sample_width|]. split; [by apply sample_width|]. intros _. by apply sample_width.
Defined.

(** The builder accepts the triples in order only: after any triples, a
    triple without zeros that is not greater than the last one makes it
    panic. *)
Theorem add_triple_unordered `{Log2F32} sparse nn np nv ns ts x y b0 b :
  nn + nv < 2 ^ 64 -> widths_hold sparse np (nn + nv) (ts ++ [x]) -> triples_input sparse ns np (nn + nv) (ts ++ [x]) ->
  TripleFileBuilder.new nn np nv sparse = Ok b0 -> TripleFileBuilder.add_id_triples b0 (ts ++ [x]) = Ok b ->
  real_triple y -> ~ triple_lt x y ->
  TripleFileBuilder.add_triple b (IdTriple.subject y) (IdTriple.predicate y) (IdTriple.object y) = Panic.
Proof.
  intros Hn (Hnp & Hno & _) Hin Hnew Hadd (Hs & Hp & Ho) Hlt.
  destruct (new_spec nn np nv sparse Hnp Hn Hno) as (w1 & w2 & b0' & Hw1 & Hw2 & Hnp' & Hno' & Hnew' & Hb0 & Hsp0).
  rewrite Hnew in Hnew'. injection Hnew' as <-.
  assert (Hreal : filter real_triple (ts ++ [x]) = ts ++ [x]).
  { apply filter_all. destruct Hin as [_ Hb _]. eapply Forall_impl; [exact Hb|]. intros z Hz. apply Hz. }
  destruct (add_id_triples_spec sparse ns np (nn + nv) w1 w2 Hnp' Hno' (ts ++ [x]) b0 [] Hb0 Hsp0) as (b' & Hadd' & Hb & _).
  { cbn [app]. by rewrite Hreal. }
  rewrite Hadd in Hadd'. injection Hadd' as <-. cbn [app] in Hb. rewrite Hreal in Hb.
  destruct Hb as (sp & spo & Hlay & Hspr & Hspor & Hls & Hlp). rewrite last_snoc in Hls, Hlp.
  pose proof (layout_last _ _ _ _ _ _ Hlay) as Hl. rewrite last_snoc in Hl. destruct Hl as (Hlsp & Hlspo & Hsub).
  rewrite triple_lt_iff in Hlt. unfold TripleFileBuilder.add_triple.
  replace ((IdTriple.subject y =? 0) || (IdTriple.predicate y =? 0) || (IdTriple.object y =? 0)) with false by (symmetry; ncmp; done).
  rewrite Hls, Hlp. destruct (N.ltb_spec (IdTriple.subject y) (IdTriple.subject x)) as [|Hge]; [done|].
  assert (IdTriple.subject x = IdTriple.subject y) as E by lia. rewrite E, N.eqb_refl. cbn [andb negb].
  assert (Hpanic : forall w bld pairs l r l0 r0, adjacency_builder_repr w bld pairs -> last pairs = Some (l0, r0) ->
    l0 = max_left pairs -> l = l0 -> r <= r0 -> AdjacencyListBuilder.push bld l r = Panic).
  { intros w bld pairs l r l0 r0 (_ & _ & _ & Hll & Hlr) Hlast -> -> Hr. unfold AdjacencyListBuilder.push.
    unfold last_right_of in Hlr. rewrite Hlast in Hlr. cbn in Hlr. rewrite Hll, Hlr, N.eqb_refl.
    replace (r <=? r0) with true by (symmetry; by apply N.leb_le). by rewrite orb_true_r. }
  destruct (N.eqb_spec (IdTriple.predicate x) (IdTriple.predicate y)) as [Ep|Hne].
  - pose proof Hspr as Hspr'. pose proof (layout_sp _ _ _ _ _ _ Hlay) as Hok. pose proof (layout_max Hlay) as Hmax.
    apply last_Some in Hlsp as [sp0 Esp]. pose proof Hok as Hok'. rewrite Esp in Hspr', Hok'.
    pose proof (builder_count _ _ _ _ _ Hok' Hspr') as Hcount. rewrite <- Esp in Hcount.
    unfold cadd. destruct (_ <? _); [|done]. cbn [or_panic]. rewrite bind_Ok_eq, Hcount, <- Hmax.
    by rewrite (Hpanic _ _ _ _ _ _ _ Hspor Hlspo) by (done || lia).
  - assert (El : match (match TripleFileBuilder.subjects b with Some l => Some l | None => None end) with
      | Some l => lenN l | None => IdTriple.subject y end = max_left sp).
    { pose proof (layout_subjects _ _ _ _ _ _ Hlay) as Hso. destruct (TripleFileBuilder.subjects b) as [xs|].
      - by destruct Hso as (_ & ? & _).
      - injection Hsub as Hsub. by rewrite Hsub. }
    rewrite El. by rewrite (Hpanic _ _ _ _ _ _ _ Hspr Hlsp) by (done || lia).
Qed.

Lemma add_triple_unordered_witness : exists b0 b, TripleFileBuilder.new 5 3 2 true = Ok b0 /\
  TripleFileBuilder.add_id_triples b0 ([IdTriple.mk 1 2 3] ++ [IdTriple.mk 1 3 2]) = Ok b /\
  TripleFileBuilder.add_triple b 1 2 5 = Panic.
Proof.
  eexists _, _. split; [vm_compute; reflexivity|]. split; [vm_compute; reflexivity|].
  apply (add_triple_unordered true 5 3 2 5 [IdTriple.mk 1 2 3] (IdTriple.mk 1 3 2) (IdTriple.mk 1 2 5)
    (TripleFileBuilder.mk (Some []) (AdjacencyListBuilder.new 2) (AdjacencyListBuilder.new 3) 0 0)).
  - done.
  - split; [by apply sample_width|]. split; [by apply sample_width|]. intros _. by apply sample_width.
  - split.
    + repeat constructor; by apply triple_lt_iff; cbn; lia.
    + repeat constructor; unfold real_triple; cbn; lia.
    + done.
  - vm_compute. reflexivity.
  - vm_compute. reflexivity.
  - unfold real_triple. cbn. lia.
  - rewrite triple_lt_iff. cbn. lia.
Defined.
