(* ===== verification/TripleStreams.v ===== *)
(** * Streams of the triples of files (src/layer/internal/base.rs,
      src/layer/internal/child.rs and src/structure/util.rs)

    The triples of a layer's files can be streamed without loading the layer:
    the stream of the subjects' predicates and the stream of their objects are
    polled together.  A poll may find nothing yet; what has been read then is
    kept for the next poll. *)

From S2P Require Import Prelude.
From S2P Require Import Words.
From S2P Require Import Codec.
From S2P Require Import Strings.
From S2P Require Import LogArrays.
From S2P Require Import BitArrays.
From S2P Require Import BitIndexes.
From S2P Require Import AdjacencyLists.
From S2P Require Import LayerTypes.
From S2P Require Import Triples.
From S2P Require Import TripleBuilder.
Open Scope N_scope.

(** ** Streams

    [Stream] and [Peekable] of the futures crate.  Peeking at an element keeps
    it: the next poll gives it at once. *)

Inductive Poll (A : Type) : Type := Ready (a : A) | Pending.
Arguments Ready {A}. Arguments Pending {A}.

Class Peekable (P A : Type) : Type := {
  poll_next : P -> P * Poll (option A);
  poll_peek : P -> P * Poll (option A)
}.

(** What the documentation promises, for a stream that is pending finitely
    often: [items] is what it is still to give, [waits] bounds how often it is
    still pending. *)
Class PeekableLaws (P A : Type) `{Peekable P A} (items : P -> list A) (waits : P -> nat) : Prop :=
  poll_peek_spec p : let '(q, r) := poll_peek p in items q = items p /\
    match r with
    | Pending => (waits q < waits p)%nat
    | Ready o => o = head (items p) /\ (waits q <= waits p)%nat /\
        forall x, o = Some x -> exists q', poll_next q = (q', Ready (Some x)) /\ items q' = tail (items p) /\ (waits q' <= waits q)%nat
    end.

(** [util::assert_poll_next]: [None] is its panic. *)
Definition assert_poll_next {P A} `{Peekable P A} (stream : P) : option (P * A) :=
  match poll_next stream with
  | (stream, Ready (Some item)) => Some (stream, item)
  | _ => None
  end.

(** [io::Result], the items of the streams. *)
Abbreviation result A := (sum io_error A).
Definition ok {A} (r : result A) : option A := match r with inr a => Some a | inl _ => None end.
Definition err {A} (r : result A) : option io_error := match r with inl e => Some e | inr _ => None end.

Abbreviation triple := (N * N * N)%type.

(** Polling to the end, or to the first error, as collecting does. *)
Section collect.
Context {T A : Type} (poll : T -> option (T * Poll (option (result A)))).

Fixpoint collect (fuel : nat) (self : T) : option (outcome io_error (list A)) :=
  match fuel with
  | O => None
  | S fuel =>
      '(self, r) ← poll self;
      match r with
      | Pending => collect fuel self
      | Ready None => Some (Ok [])
      | Ready (Some (inl e)) => Some (Err e)
      | Ready (Some (inr x)) => xs ← collect fuel self; Some (xs ← xs; Ok (x :: xs))
      end
  end.
End collect.

(** ** The triples of a base layer *)

Module BaseTripleStream.
Record t (P : Type) : Type := mk { s_p_stream : P; sp_o_stream : P; last_s_p : N * N; last_sp : N }.
Arguments mk {P}. Arguments s_p_stream {P}. Arguments sp_o_stream {P}. Arguments last_s_p {P}. Arguments last_sp {P}.

Section stream.
Context {P : Type} `{Peekable P (result (N * N))}.

Definition new (s_p_stream sp_o_stream : P) : t P := mk s_p_stream sp_o_stream (0, 0) 0.

Definition poll_next (self : t P) : option (t P * Poll (option (result triple))) :=
  let '(sp_o_stream, peeked) := poll_peek (sp_o_stream self) in
  let self := mk (s_p_stream self) sp_o_stream (last_s_p self) (last_sp self) in
  match peeked with
  | Ready (Some (inr (sp, o))) =>
      if last_sp self <? sp then
        let '(s_p_stream, peeked) := poll_peek (s_p_stream self) in
        let self := mk s_p_stream sp_o_stream (last_s_p self) (last_sp self) in
        match peeked with
        | Ready None => Some (self, Ready (Some (inl UnexpectedEof)))
        | Ready (Some (inr (s, p))) =>
            '(s_p_stream, r) ← assert_poll_next s_p_stream;
            _ ← ok r;
            '(sp_o_stream, r) ← assert_poll_next sp_o_stream;
            _ ← ok r;
            Some (mk s_p_stream sp_o_stream (s, p) sp, Ready (Some (inr (s, p, o))))
        | Ready (Some (inl _)) =>
            '(s_p_stream, r) ← assert_poll_next s_p_stream;
            e ← err r;
            Some (mk s_p_stream sp_o_stream (last_s_p self) (last_sp self), Ready (Some (inl e)))
        | Pending => Some (self, Pending)
        end
      else
        '(sp_o_stream, r) ← assert_poll_next sp_o_stream;
        _ ← ok r;
        Some (mk (s_p_stream self) sp_o_stream (last_s_p self) (last_sp self),
              Ready (Some (inr ((last_s_p self).1, (last_s_p self).2, o))))
  | Ready (Some (inl _)) =>
      '(sp_o_stream, r) ← assert_poll_next sp_o_stream;
      e ← err r;
      Some (mk (s_p_stream self) sp_o_stream (last_s_p self) (last_sp self), Ready (Some (inl e)))
  | Ready None => Some (self, Ready None)
  | Pending => Some (self, Pending)
  end.
End stream.
End BaseTripleStream.

(** ** The additions or removals of a child *)

Module ChildTripleStream.
Record t (P1 P2 : Type) : Type := mk {
  subjects_stream : P1;
  s_p_stream : P2;
  sp_o_stream : P2;
  last_mapped_s : N;
  last_s_p : N * N;
  last_sp : N
}.
Arguments mk {P1 P2}. Arguments subjects_stream {P1 P2}. Arguments s_p_stream {P1 P2}. Arguments sp_o_stream {P1 P2}.
Arguments last_mapped_s {P1 P2}. Arguments last_s_p {P1 P2}. Arguments last_sp {P1 P2}.

Section stream.
Context {P1 P2 : Type} `{Peekable P1 (result N)} `{Peekable P2 (result (N * N))}.

Definition new (subjects_stream : P1) (s_p_stream sp_o_stream : P2) : t P1 P2 :=
  mk subjects_stream s_p_stream sp_o_stream 0 (0, 0) 0.

(** The streams as they have been polled. *)
Definition with_streams (self : t P1 P2) (subjects_stream : P1) (s_p_stream sp_o_stream : P2) : t P1 P2 :=
  mk subjects_stream s_p_stream sp_o_stream (last_mapped_s self) (last_s_p self) (last_sp self).

(** A new pair of a subject and a predicate, where both [s_p_stream] and
    [sp_o_stream] have been peeked at. *)
Definition poll_pair (self : t P1 P2) (s p sp o : N) : option (t P1 P2 * Poll (option (result triple))) :=
  if (last_s_p self).1 <? s then
    let '(subjects_stream, mapped_s) := poll_peek (subjects_stream self) in
    let self := with_streams self subjects_stream (s_p_stream self) (sp_o_stream self) in
    match mapped_s with
    | Ready None => Some (self, Ready (Some (inl UnexpectedEof)))
    | Ready (Some (inr mapped_s)) =>
        '(subjects_stream, r) ← assert_poll_next subjects_stream;
        _ ← ok r;
        '(s_p_stream, r) ← assert_poll_next (s_p_stream self);
        _ ← ok r;
        '(sp_o_stream, r) ← assert_poll_next (sp_o_stream self);
        _ ← ok r;
        Some (mk subjects_stream s_p_stream sp_o_stream mapped_s (s, p) sp, Ready (Some (inr (mapped_s, p, o))))
    | Ready (Some (inl _)) =>
        '(subjects_stream, r) ← assert_poll_next subjects_stream;
        e ← err r;
        Some (with_streams self subjects_stream (s_p_stream self) (sp_o_stream self), Ready (Some (inl e)))
    | Pending => Some (self, Pending)
    end
  else
    '(s_p_stream, r) ← assert_poll_next (s_p_stream self);
    _ ← ok r;
    '(sp_o_stream, r) ← assert_poll_next (sp_o_stream self);
    _ ← ok r;
    Some (mk (subjects_stream self) s_p_stream sp_o_stream (last_mapped_s self) (s, p) sp,
          Ready (Some (inr (last_mapped_s self, p, o)))).

Definition poll_next (self : t P1 P2) : option (t P1 P2 * Poll (option (result triple))) :=
  let '(sp_o_stream, sp_o) := poll_peek (sp_o_stream self) in
  let self := with_streams self (subjects_stream self) (s_p_stream self) sp_o_stream in
  match sp_o with
  | Ready (Some (inr (sp, o))) =>
      if last_sp self <? sp then
        let '(s_p_stream, s_p) := poll_peek (s_p_stream self) in
        let self := with_streams self (subjects_stream self) s_p_stream sp_o_stream in
        match s_p with
        | Ready None => Some (self, Ready (Some (inl UnexpectedEof)))
        | Ready (Some (inr (s, p))) => poll_pair self s p sp o
        | Ready (Some (inl _)) =>
            '(s_p_stream, r) ← assert_poll_next s_p_stream;
            e ← err r;
            Some (with_streams self (subjects_stream self) s_p_stream sp_o_stream, Ready (Some (inl e)))
        | Pending => Some (self, Pending)
        end
      else
        '(sp_o_stream, r) ← assert_poll_next sp_o_stream;
        _ ← ok r;
        Some (with_streams self (subjects_stream self) (s_p_stream self) sp_o_stream,
              Ready (Some (inr (last_mapped_s self, (last_s_p self).2, o))))
  | Ready (Some (inl _)) =>
      '(sp_o_stream, r) ← assert_poll_next sp_o_stream;
      e ← err r;
      Some (with_streams self (subjects_stream self) (s_p_stream self) sp_o_stream, Ready (Some (inl e)))
  | Ready None => Some (self, Ready None)
  | Pending => Some (self, Pending)
  end.
End stream.
End ChildTripleStream.

(** ** Opening

    [start] makes a stream of what is read from a file: when it is pending is
    up to it. *)

Section open.
Context {P1 P2 : Type} (start1 : list (result N) -> P1) (start : list (result (N * N)) -> P2) `{FramedRead}.

Definition stream_pairs (files : adjacency_files) : outcome io_error P2 :=
  let '(bits, _, _, nums) := files in
  pairs ← adjacency_list_stream_pairs bits nums;
  Ok (start (inr <$> pairs)).

Definition open_base_triple_stream (s_p_files sp_o_files : adjacency_files) : outcome io_error (BaseTripleStream.t P2) :=
  s_p_stream ← stream_pairs s_p_files;
  sp_o_stream ← stream_pairs sp_o_files;
  Ok (BaseTripleStream.new s_p_stream sp_o_stream).

Definition open_child_triple_stream (subjects_file : list N) (s_p_files sp_o_files : adjacency_files)
    : outcome io_error (ChildTripleStream.t P1 P2) :=
  subjects ← logarray_stream_entries subjects_file;
  s_p_stream ← stream_pairs s_p_files;
  sp_o_stream ← stream_pairs sp_o_files;
  Ok (ChildTripleStream.new (start1 (inr <$> subjects)) s_p_stream sp_o_stream).
End open.

(** ** What is collected *)

(** The elements of both streams put together, up to the first error. *)
Fixpoint merge_base (last_s_p : N * N) (last_sp : N) (s_p sp_o : list (result (N * N))) : outcome io_error (list triple) :=
  match sp_o with
  | [] => Ok []
  | inl e :: _ => Err e
  | inr (sp, o) :: sp_o =>
      if last_sp <? sp then
        match s_p with
        | [] => Err UnexpectedEof
        | inl e :: _ => Err e
        | inr (s, p) :: s_p => ts ← merge_base (s, p) sp s_p sp_o; Ok ((s, p, o) :: ts)
        end
      else ts ← merge_base last_s_p last_sp s_p sp_o; Ok ((last_s_p.1, last_s_p.2, o) :: ts)
  end.

Fixpoint merge_child (last_mapped_s : N) (last_s_p : N * N) (last_sp : N) (subjects : list (result N)) (s_p sp_o : list (result (N * N)))
    : outcome io_error (list triple) :=
  match sp_o with
  | [] => Ok []
  | inl e :: _ => Err e
  | inr (sp, o) :: sp_o =>
      if last_sp <? sp then
        match s_p with
        | [] => Err UnexpectedEof
        | inl e :: _ => Err e
        | inr (s, p) :: s_p =>
            if last_s_p.1 <? s then
              match subjects with
              | [] => Err UnexpectedEof
              | inl e :: _ => Err e
              | inr mapped_s :: subjects =>
                  ts ← merge_child mapped_s (s, p) sp subjects s_p sp_o; Ok ((mapped_s, p, o) :: ts)
              end
            else ts ← merge_child last_mapped_s (s, p) sp subjects s_p sp_o; Ok ((last_mapped_s, p, o) :: ts)
        end
      else ts ← merge_child last_mapped_s last_s_p last_sp subjects s_p sp_o; Ok ((last_mapped_s, last_s_p.2, o) :: ts)
  end.

Section polling.
Context {P A : Type} `{HP : Peekable P A} {items : P -> list A} {waits : P -> nat} `{!PeekableLaws P A items waits}.

(** What a peek finds. *)
Lemma peeked p q r : poll_peek p = (q, r) -> items q = items p /\ (waits q <= waits p)%nat /\
  match r with
  | Pending => (waits q < waits p)%nat
  | Ready None => items p = []
  | Ready (Some x) => exists q', assert_poll_next q = Some (q', x) /\ items p = x :: items q' /\ (waits q' <= waits q)%nat
  end.
Proof using All.
  intros E. pose proof (poll_peek_spec p) as Hp. rewrite E in Hp. destruct Hp as [Hi Hr]. split; [done|].
  destruct r as [[x|]|]; [..|split; [lia|done]].
  - destruct Hr as (Hh & Hw & Hn). split; [done|]. destruct (Hn x eq_refl) as (q' & Eq & Ht & Hw'). exists q'.
    unfold assert_poll_next. rewrite Eq. split; [done|]. destruct (items p) as [|y l]; [done|]. cbn in *. split; [congruence|done].
  - destruct Hr as (Hh & Hw & _). split; [done|]. by destruct (items p).
Qed.
End polling.

(** Takes the next peek of the goal apart. *)
Ltac peek q x :=
  let r := fresh "r" in let E := fresh "E" in let Hi := fresh "Hi" in let Hw := fresh "Hw" in
  match goal with |- context [poll_peek ?p] =>
    destruct (poll_peek p) as [q r] eqn:E; apply peeked in E as (Hi & Hw & E); destruct r as [[[?|x]|]|];
    [destruct E as (? & E & ? & ?)..| |]
  end.
(** Asks for the elements that have been peeked at before. *)
Ltac poll_asserted :=
  repeat (cbn [mbind option_bind ok err]; match goal with H : assert_poll_next ?q = _ |- context [assert_poll_next ?q] => rewrite H end);
  cbn [mbind option_bind ok err].
(** What the streams still give. *)
Ltac items_known := repeat match goal with H : ?items ?p = _ |- context [?items ?p] => rewrite H end.

Ltac left_over :=
  cbn; repeat match goal with H : @eq (list _) _ _ |- _ => apply (f_equal length) in H; cbn [length] in H end; lia.

Section collected.
Context {P1 P : Type} `{HP1 : Peekable P1 (result N)} {items1 : P1 -> list (result N)} {waits1 : P1 -> nat}
  `{Hlaws1 : !PeekableLaws P1 (result N) items1 waits1}.
Context `{HP : Peekable P (result (N * N))} {items : P -> list (result (N * N))} {waits : P -> nat}
  `{Hlaws : !PeekableLaws P (result (N * N)) items waits}.

(** What is to come of a stream of triples, and how many polls that takes at
    most. *)
Definition base_triples (self : BaseTripleStream.t P) : outcome io_error (list triple) :=
  merge_base (BaseTripleStream.last_s_p self) (BaseTripleStream.last_sp self)
    (items (BaseTripleStream.s_p_stream self)) (items (BaseTripleStream.sp_o_stream self)).
Definition base_left (self : BaseTripleStream.t P) : nat :=
  waits (BaseTripleStream.s_p_stream self) + waits (BaseTripleStream.sp_o_stream self) + length (items (BaseTripleStream.sp_o_stream self)).
Definition child_triples (self : ChildTripleStream.t P1 P) : outcome io_error (list triple) :=
  merge_child (ChildTripleStream.last_mapped_s self) (ChildTripleStream.last_s_p self) (ChildTripleStream.last_sp self)
    (items1 (ChildTripleStream.subjects_stream self))
    (items (ChildTripleStream.s_p_stream self)) (items (ChildTripleStream.sp_o_stream self)).
Definition child_left (self : ChildTripleStream.t P1 P) : nat :=
  waits1 (ChildTripleStream.subjects_stream self) + waits (ChildTripleStream.s_p_stream self)
    + waits (ChildTripleStream.sp_o_stream self) + length (items (ChildTripleStream.sp_o_stream self)).

(** A poll that gives something gives the next of what is to come; one that
    does not has lost nothing. *)
Definition step_spec {T : Type} (poll : T -> option (T * Poll (option (result triple)))) (to_come : T -> outcome io_error (list triple))
    (left : T -> nat) : Prop := forall self,
  match poll self with
  | Some (self', Pending) => to_come self' = to_come self /\ (left self' < left self)%nat
  | Some (self', Ready None) => to_come self = Ok []
  | Some (self', Ready (Some (inl e))) => to_come self = Err e
  | Some (self', Ready (Some (inr x))) => to_come self = (xs ← to_come self'; Ok (x :: xs)) /\ (left self' < left self)%nat
  | None => False
  end.

Lemma collected {T : Type} (poll : T -> option (T * Poll (option (result triple)))) to_come left : step_spec poll to_come left ->
  forall fuel self, (left self < fuel)%nat -> collect poll fuel self = Some (to_come self).
Proof using.
  intros Hs. induction fuel as [|fuel IH]; intros self Hf; [lia|]. cbn. specialize (Hs self).
  destruct (poll self) as [[self' [[[e|x]|]|]]|]; cbn.
  - by rewrite Hs.
  - destruct Hs as [-> Hw]. rewrite IH by lia. cbn. done.
  - by rewrite Hs.
  - destruct Hs as [<- Hw]. apply IH. lia.
  - done.
Qed.

Ltac settled := cbn; repeat (items_known; cbn); try (split; [done|left_over]); try done.

Lemma poll_base : step_spec BaseTripleStream.poll_next base_triples base_left.
Proof using Hlaws.
  unfold base_triples, base_left. intros [a b l n]. unfold BaseTripleStream.poll_next. cbn [BaseTripleStream.sp_o_stream].
  peek b1 e; [by poll_asserted; settled| |settled..].
  destruct e as [sp o]. cbn. destruct (n <? sp) eqn:En; [|by poll_asserted; settled].
  peek a1 e; [by poll_asserted; settled| |settled..].
  destruct e as [s p]. poll_asserted. settled.
Qed.

Lemma poll_child : step_spec ChildTripleStream.poll_next child_triples child_left.
Proof using Hlaws Hlaws1.
  unfold child_triples, child_left. intros [c a b m l n]. unfold ChildTripleStream.poll_next, ChildTripleStream.with_streams.
  cbn [ChildTripleStream.sp_o_stream].
  peek b1 e; [by poll_asserted; settled| |settled..].
  destruct e as [sp o]. cbn. destruct (n <? sp) eqn:En; [|by poll_asserted; settled].
  peek a1 e; [by poll_asserted; settled| |settled..].
  destruct e as [s p]. unfold ChildTripleStream.poll_pair. cbn. destruct (l.1 <? s) eqn:El; [|by poll_asserted; settled].
  peek c1 e; [by poll_asserted; settled| |settled..]. poll_asserted. settled.
Qed.
End collected.

(** ** Streaming what a builder has written *)

Definition tuple (x : IdTriple.t) : triple := (IdTriple.subject x, IdTriple.predicate x, IdTriple.object x).

(** More objects of the last pair. *)
Lemma merge_base_objects s_p (rest : list (N * N)) s p c (os : list N) :
  merge_base (s, p) c s_p (inr <$> ((pair c <$> os) ++ rest)) =
    (ts ← merge_base (s, p) c s_p (inr <$> rest); Ok ((pair (s, p) <$> os) ++ ts)).
Proof.
  induction os as [|o os IH]; [cbn; by destruct (merge_base _ _ _ _)|]. cbn. rewrite N.ltb_irrefl, IH.
  clear IH. by destruct (merge_base _ _ _ _).
Qed.

Lemma merge_child_objects m subjects s_p (rest : list (N * N)) s p c (os : list N) :
  merge_child m (s, p) c subjects s_p (inr <$> ((pair c <$> os) ++ rest)) =
    (ts ← merge_child m (s, p) c subjects s_p (inr <$> rest); Ok ((pair (m, p) <$> os) ++ ts)).
Proof.
  induction os as [|o os IH]; [cbn; by destruct (merge_child _ _ _ _ _ _)|]. cbn. rewrite N.ltb_irrefl, IH.
  clear IH. by destruct (merge_child _ _ _ _ _ _).
Qed.

Section written.
Context {subs : option (list N)} {sp : list (list N)}.

(** The triples of one pair. *)
Lemma triples_of_pair c l p s (os : list N) : (flat sp).[c - 1] = Some (l, p) -> subject_at subs l = Some s ->
  Forall (fun o => o <> 0) os -> tuple <$> omap (triple_of subs sp) (pair c <$> os) = pair (s, p) <$> os.
Proof.
  intros Hc Hl. induction 1 as [|o os Ho _ IH]; [done|]. cbn. unfold triple_of at 1. cbn [fst snd].
  apply N.eqb_neq in Ho. rewrite Ho, Hc, bind_Some_eq, Hl, bind_Some_eq. cbn. by rewrite IH.
Qed.

(** A pair and its objects are one step of the merge; pairs that stand for
    nothing are passed by. *)
Lemma gap_cases c p (seg : list N) G : gap p seg -> seg <> [] ->
  p = 0 /\ pairs_from c (seg :: G) = pairs_from (c + 1) G \/
  p <> 0 /\ exists o os, seg = o :: os /\ Forall (fun o => o <> 0) (o :: os) /\
    pairs_from c (seg :: G) = (pair c <$> (o :: os)) ++ pairs_from (c + 1) G.
Proof.
  unfold gap. intros Hg Hne. cbn [pairs_from]. destruct (N.eqb_spec p 0) as [->|Hp]; [left|right; split; [done|]].
  - by rewrite Hg.
  - destruct seg as [|o os]; [done|]. exists o, os. by rewrite filter_all.
Qed.
End written.

Lemma merge_base_written sp F : forall pre G last n, flat sp = pre ++ F -> Forall2 gap F.*2 G -> Forall nonempty G ->
  n < lenN pre + 1 ->
  merge_base last n (inr <$> filter real F) (inr <$> pairs_from (lenN pre + 1) G) =
    Ok (tuple <$> omap (triple_of None sp) (pairs_from (lenN pre + 1) G)).
Proof.
  induction F as [|[l p] F IH]; intros pre G last n Hsp Hg Hne Hn.
  { by apply Forall2_nil_inv_l in Hg as ->. }
  apply Forall2_cons_inv_l in Hg as (seg & G' & Hseg & Hg & ->). apply Forall_cons in Hne as [Hs Hne].
  assert (Hnext : flat sp = (pre ++ [(l, p)]) ++ F) by by rewrite <- app_assoc.
  assert (Hlen : lenN (pre ++ [(l, p)]) = lenN pre + 1) by by rewrite lenN_app.
  pose proof (fun last n Hn => IH _ G' last n Hnext Hg Hne Hn) as IH'. rewrite Hlen in IH'. rewrite filter_cons.
  destruct (gap_cases (lenN pre + 1) p seg G' Hseg Hs) as [[-> ->]|(Hp & o & os & -> & Hos & ->)].
  - rewrite decide_False by (cbn; tauto). apply IH'. lia.
  - rewrite decide_True by done. rewrite omap_app, (fmap_app tuple).
    rewrite (triples_of_pair (subs := None) _ l p l) by (done || (rewrite Hsp, nget_app_r by lia; by replace (_ - _) with 0 by lia)).
    rewrite fmap_cons. cbn [app fmap list_fmap merge_base]. replace (n <? lenN pre + 1) with true by (symmetry; by apply N.ltb_lt).
    rewrite merge_base_objects, IH' by lia. done.
Qed.

(** The subjects go up by one: none is passed by. *)
Fixpoint steps (l0 : N) (pairs : list (N * N)) : Prop :=
  match pairs with
  | [] => True
  | (l, _) :: pairs => l0 <= l <= l0 + 1 /\ steps l pairs
  end.

Lemma steps_intro pairs : forall l0, StronglySorted pair_lt pairs -> Forall (fun x => l0 <= x.1) pairs ->
  (forall l, l0 < l <= max_left pairs -> l ∈ pairs.*1) -> steps l0 pairs.
Proof.
  induction pairs as [|[l p] pairs IH]; intros l0 Hs Hall Hd; [done|]. apply StronglySorted_inv in Hs as [Hs Hlt].
  apply Forall_cons in Hall as [Hl Hall]. cbn in Hl.
  change (max_left ((l, p) :: pairs)) with (N.max l (max_left pairs)) in Hd. rewrite Forall_forall in Hlt. split.
  - split; [done|]. destruct (N.le_gt_cases l (l0 + 1)) as [|Hgt]; [done|]. exfalso. specialize (Hd (l0 + 1) ltac:(lia)).
    apply elem_of_cons in Hd as [Hd|([l' p'] & E & Hin)%list_elem_of_fmap]; cbn in *; [lia|]. destruct (Hlt _ Hin); cbn in *; lia.
  - apply IH; [done| |].
    + apply Forall_forall. intros [l' p'] Hin. destruct (Hlt _ Hin); cbn in *; lia.
    + intros l' Hl'. specialize (Hd l' ltac:(lia)). apply elem_of_cons in Hd as [Hd|Hd]; cbn in *; [lia|done].
Qed.

Lemma merge_child_written xs sp F : forall pre G m l0 p0 n, flat sp = pre ++ F -> Forall2 gap F.*2 G -> Forall nonempty G ->
  n < lenN pre + 1 -> steps l0 (filter real F) -> Forall (fun x => 1 <= x.1 <= lenN xs) F ->
  (l0 = 0 \/ subject_at (Some xs) l0 = Some m) ->
  merge_child m (l0, p0) n (inr <$> drop (N.to_nat l0) xs) (inr <$> filter real F) (inr <$> pairs_from (lenN pre + 1) G) =
    Ok (tuple <$> omap (triple_of (Some xs) sp) (pairs_from (lenN pre + 1) G)).
Proof.
  induction F as [|[l p] F IH]; intros pre G m l0 p0 n Hsp Hg Hne Hn Hst Hb Hm.
  { by apply Forall2_nil_inv_l in Hg as ->. }
  apply Forall2_cons_inv_l in Hg as (seg & G' & Hseg & Hg & ->). apply Forall_cons in Hne as [Hs Hne].
  apply Forall_cons in Hb as [Hl Hb]. cbn in Hl.
  assert (Hnext : flat sp = (pre ++ [(l, p)]) ++ F) by by rewrite <- app_assoc.
  assert (Hlen : lenN (pre ++ [(l, p)]) = lenN pre + 1) by by rewrite lenN_app.
  pose proof (fun m l0 p0 n Hn Hst => IH _ G' m l0 p0 n Hnext Hg Hne Hn Hst Hb) as IH'. rewrite Hlen in IH'.
  rewrite filter_cons in *.
  destruct (gap_cases (lenN pre + 1) p seg G' Hseg Hs) as [[-> ->]|(Hp & o & os & -> & Hos & ->)].
  { rewrite decide_False in * by (cbn; tauto). apply IH'; [lia|done|done]. }
  rewrite decide_True in * by done. destruct Hst as [Hst Hst']. rewrite omap_app, (fmap_app tuple).
  destruct (nget_lt xs (l - 1)) as [s Hx]; [lia|].
  assert (Hsub : subject_at (Some xs) l = Some s) by (cbn; destruct (N.eqb_spec l 0); [lia|done]).
  rewrite (triples_of_pair (subs := Some xs) _ l p s) by (done || (rewrite Hsp, nget_app_r by lia; by replace (_ - _) with 0 by lia)).
  rewrite !(fmap_cons _ _ os). cbn [app fmap list_fmap merge_child fst].
  replace (n <? lenN pre + 1) with true by (symmetry; by apply N.ltb_lt).
  destruct (N.ltb_spec l0 l) as [Hlt|Hge].
  - assert (l0 = l - 1) as -> by lia. rewrite (drop_S xs s) by exact Hx. cbn [fmap list_fmap].
    replace (S (N.to_nat (l - 1))) with (N.to_nat l) by lia.
    by rewrite merge_child_objects, IH' by (done || lia || by right).
  - assert (l0 = l) as -> by lia. assert (m = s) as -> by (destruct Hm as [|Hm]; [lia|congruence]).
    by rewrite merge_child_objects, IH' by (done || lia || by right).
Qed.

Section layouts.
Context {w1 w2 : N} {sp spo : list (N * N)} {ts : list IdTriple.t}.

Lemma layout_tuples {subs} (Hlay : layout w1 w2 subs sp spo ts) :
  omap (triple_of subs (segments sp)) (pairs_from 1 (segments spo)) = ts.
Proof.
  pose proof (segments_nonempty spo) as Hne. rewrite <- (layout_triples _ _ _ _ _ _ Hlay). unfold triples_of, flat.
  rewrite <- filter_flat_from by done. apply omap_filter. intros x Hx. unfold triple_of.
  destruct (N.eqb_spec x.2 0); [done|]. tauto.
Qed.

Lemma layout_flats {subs} (Hlay : layout w1 w2 subs sp spo ts) :
  Forall2 gap (flat (segments sp)).*2 (segments spo) /\ filter real (flat (segments sp)) = sp /\ pairs_from 1 (segments spo) = spo.
Proof.
  pose proof (segments_nonempty sp) as Hne. split; [|split].
  - rewrite snd_flat by done. by apply Hlay.
  - unfold flat. rewrite filter_flat_from by done. eapply pairs_from_segments, Hlay.
  - eapply pairs_from_segments, Hlay.
Qed.

Lemma layout_merge_base (Hlay : layout w1 w2 None sp spo ts) : merge_base (0, 0) 0 (inr <$> sp) (inr <$> spo) = Ok (tuple <$> ts).
Proof.
  destruct (layout_flats Hlay) as (Hg & Esp & Espo). pose proof (layout_tuples Hlay) as Hts.
  pose proof (merge_base_written (segments sp) (flat (segments sp)) [] (segments spo) (0, 0) 0 eq_refl Hg (segments_nonempty spo)) as Hm.
  change (lenN [] + 1) with 1 in Hm. rewrite Esp, Hts, Espo in Hm. by apply Hm.
Qed.

Lemma layout_merge_child {xs} (Hlay : layout w1 w2 (Some xs) sp spo ts) :
  merge_child 0 (0, 0) 0 (inr <$> xs) (inr <$> sp) (inr <$> spo) = Ok (tuple <$> ts).
Proof.
  destruct (layout_flats Hlay) as (Hg & Esp & Espo). pose proof (layout_tuples Hlay) as Hts.
  pose proof (layout_subjects _ _ _ _ _ _ Hlay) as (_ & Hlen & _). destruct (layout_sp _ _ _ _ _ _ Hlay) as (_ & Hsort & _).
  pose proof (merge_child_written xs (segments sp) (flat (segments sp)) [] (segments spo) 0 0 0 0 eq_refl Hg (segments_nonempty spo)) as Hm.
  change (lenN [] + 1) with 1 in Hm. rewrite Esp, Hts, Espo in Hm. apply Hm; [done| | |by left].
  - apply steps_intro; [done|by apply Forall_true; intros; lia|]. intros l Hl. eapply layout_dense; [exact Hlay|by eexists|lia].
  - apply Forall_forall. intros [l p] [q Hq]%elem_nget. apply flat_left in Hq; [|apply segments_nonempty].
    rewrite lenN_segments in Hq. cbn. lia.
Qed.
End layouts.

(** ** Properties *)

(** A stream opened on written files, and the most polls that it takes. *)
Definition streams_out {T : Type} (opened : outcome io_error T) (poll : T -> option (T * Poll (option (result triple)))) (polls : T -> nat)
    (ts : list triple) : Prop :=
  exists self, opened = Ok self /\ forall fuel, (polls self < fuel)%nat -> collect poll fuel self = Some (Ok ts).

(** C18: streaming the triples of files always ends, however often the
    streams underneath have nothing yet, and gives exactly the triples that
    were written: a poll that is pending loses nothing that was peeked at.
    The number of polls is at most the number of triples and of times the
    streams are pending.  It holds for the stream of a base layer, whose files
    have no array of subjects, and for that of a child's additions or
    removals, whose subjects are numbered. *)
Theorem triples_streamed `{FramedRead} `{Log2F32} {P1 P : Type}
    `{HP1 : Peekable P1 (result N)} {items1 : P1 -> list (result N)} {waits1 : P1 -> nat} `{!PeekableLaws P1 (result N) items1 waits1}
    `{HP : Peekable P (result (N * N))} {items : P -> list (result (N * N))} {waits : P -> nat} `{!PeekableLaws P (result (N * N)) items waits}
    (start1 : list (result N) -> P1) (start : list (result (N * N)) -> P) (sparse : bool) nn np nv ns T :
  (forall l, items1 (start1 l) = l) -> (forall l, items (start l) = l) ->
  nn + nv < 2 ^ 64 -> widths_hold sparse np (nn + nv) (filter real_triple T) ->
  triples_input sparse ns np (nn + nv) (filter real_triple T) ->
  exists s_p sp_o subjects_file, write_triples nn np nv sparse T = Ok (s_p, sp_o, subjects_file) /\
    match subjects_file with
    | None => sparse = false /\
        streams_out (open_base_triple_stream start s_p sp_o) BaseTripleStream.poll_next
          (base_left (items := items) (waits := waits)) (tuple <$> filter real_triple T)
    | Some subjects_file => sparse = true /\
        streams_out (open_child_triple_stream start1 start subjects_file s_p sp_o) ChildTripleStream.poll_next
          (child_left (waits1 := waits1) (items := items) (waits := waits)) (tuple <$> filter real_triple T)
    end.
Proof.
  intros Hi1 Hi Hn Hw Hin. destruct (write_triples_spec true sparse nn np nv ns T Hn Hw Hin) as
    (w1 & w2 & b1 & bl1 & sl1 & n1 & b2 & bl2 & sl2 & n2 & sf & sp & spo & subs & _ & _ & Hwr & Hlay & Hs & Hstr & Hstr' & Hsubs & _).
  eexists _, _, sf. split; [exact Hwr|]. unfold streams_out, open_base_triple_stream, open_child_triple_stream, stream_pairs.
  rewrite Hstr, Hstr', !bind_Ok_eq. destruct sf as [f|], subs as [xs|]; try done; split; try done.
  - cbn in Hsubs. rewrite Hsubs, bind_Ok_eq. eexists. split; [done|]. intros fuel Hf.
    rewrite (collected _ _ _ poll_child) by exact Hf. unfold child_triples. cbn. rewrite Hi1, !Hi. f_equal. exact (layout_merge_child Hlay).
  - eexists. split; [done|]. intros fuel Hf.
    rewrite (collected _ _ _ poll_base) by exact Hf. unfold base_triples. cbn. rewrite !Hi. f_equal. exact (layout_merge_base Hlay).
Qed.

(** A stream given by what each poll finds. *)
#[local] Instance polls (A : Type) : Peekable (list (Poll A)) A := {
  poll_next p := match p with [] => ([], Ready None) | Ready x :: p => (p, Ready (Some x)) | Pending :: p => (p, Pending) end;
  poll_peek p := match p with [] => ([], Ready None) | Ready x :: _ => (p, Ready (Some x)) | Pending :: p => (p, Pending) end
}.
Definition polled {A} (p : list (Poll A)) : list A := omap (fun r => match r with Ready x => Some x | Pending => None end) p.
Definition pendings {A} (p : list (Poll A)) : nat := foldr (fun r n => match r with Pending => S n | Ready _ => n end) 0%nat p.

#[local] Instance polls_laws (A : Type) : PeekableLaws (list (Poll A)) A polled pendings.
Proof.
  intros [|[x|] p]; cbn; [done| |].
  - split; [done|]. split; [done|]. split; [done|]. intros y [= ->]. by eexists.
  - split; [done|]. apply Nat.lt_succ_diag_r.
Qed.

(** Every element is late. *)
Definition late {A} (l : list A) : list (Poll A) := l ≫= fun x => [Pending; Ready x].

Lemma polled_late {A} (l : list A) : polled (late l) = l.
Proof. unfold polled, late. induction l as [|x l IH]; [done|]. cbn. by f_equal. Qed.

#[local] Existing Instances exact_log2.

Lemma triples_streamed_witness : exists s_p sp_o subjects_file,
  write_triples (H := whole_file) 5 3 2 true sample_triples = Ok (s_p, sp_o, Some subjects_file) /\
  exists self, open_child_triple_stream (H := whole_file) late late subjects_file s_p sp_o = Ok self /\
    collect ChildTripleStream.poll_next 100 self = Some (Ok [(2, 1, 4); (2, 1, 6); (2, 3, 1); (5, 2, 2); (5, 3, 6)]).
Proof.
  destruct (triples_streamed (H := whole_file) late late true 5 3 2 5 sample_triples polled_late polled_late)
    as (s_p & sp_o & [f|] & Hwr & Hst); [done| |apply sample_triples_input| |by destruct Hst].
  { split; [by apply sample_width|]. split; [by apply sample_width|]. intros _. by apply sample_width. }
  exists s_p, sp_o, f. split; [exact Hwr|]. destruct Hst as (_ & self & Hself & Hc). exists self. split; [exact Hself|].
  apply Hc. vm_compute in Hwr. injection Hwr as <- <- <-. vm_compute in Hself. injection Hself as <-. vm_compute. lia.
Defined.
