(* ===== verification/SortedStreams.v ===== *)
(** * Sorted streams (src/structure/util.rs)

    A [SortedStream] gives the elements of several streams in the order of a
    function that picks the next one from what all of them have in front.  It
    is the asynchronous twin of [SortedIterator] (DictMerge): however often its
    streams are pending, the same elements come out. *)

From S2P Require Import Prelude.
From S2P Require Import DictMerge.
From S2P Require Import TripleStreams.
Open Scope N_scope.

Section sorted_stream.
Context {P T : Type} `{Peekable P T} (pick_fn : list (option T) -> option (option N)).

(** The loop over the streams: the first that is pending ends it. *)
Fixpoint peek_streams (streams : list P) : list P * Poll (list (option T)) :=
  match streams with
  | [] => ([], Ready [])
  | s :: streams =>
      let '(s, r) := poll_peek s in
      match r with
      | Ready val =>
          let '(streams, v) := peek_streams streams in
          (s :: streams, match v with Ready v => Ready (val :: v) | Pending => Pending end)
      | Pending => (s :: streams, Pending)
      end
  end.

Definition sorted_poll_next (streams : list P) : option (list P * Poll (option T)) :=
  let '(streams, v) := peek_streams streams in
  match v with
  | Pending => Some (streams, Pending)
  | Ready v =>
      ix ← pick_fn v;
      match ix with
      | None => Some (streams, Ready None)
      | Some ix =>
          s ← streams.[ix];
          match poll_next s with
          | (s, Ready next) => streams ← nset streams ix s; Some (streams, Ready next)
          | (_, Pending) => None
          end
      end
  end.

(** Polling to the end. *)
Fixpoint sorted_stream (fuel : nat) (streams : list P) : option (list T) :=
  match fuel with
  | O => None
  | S fuel =>
      '(streams, r) ← sorted_poll_next streams;
      match r with
      | Pending => sorted_stream fuel streams
      | Ready None => Some []
      | Ready (Some x) => xs ← sorted_stream fuel streams; Some (x :: xs)
      end
  end.

Context {items : P -> list T} {waits : P -> nat} `{!PeekableLaws P T items waits}.

Definition all_waits (streams : list P) : nat := sum_list (waits <$> streams).
Definition all_left (streams : list P) : nat := all_waits streams + length (concat (items <$> streams)).

(** What a stream gives that has been peeked at. *)
Definition in_front (s : P) (val : option T) : Prop := val = head (items s) /\
  forall x, val = Some x -> exists s', poll_next s = (s', Ready (Some x)) /\ items s' = tail (items s) /\ (waits s' <= waits s)%nat.

Lemma peek_streams_spec (streams : list P) : let '(streams', r) := peek_streams streams in
  items <$> streams' = items <$> streams /\ (all_waits streams' <= all_waits streams)%nat /\
  match r with
  | Ready v => Forall2 in_front streams' v
  | Pending => (all_waits streams' < all_waits streams)%nat
  end.
Proof using PeekableLaws0.
  unfold all_waits. induction streams as [|s streams IH]; [by repeat split|]. cbn. pose proof (poll_peek_spec s) as Hs.
  destruct (poll_peek s) as [s' [val|]]; destruct Hs as [Hi Hs].
  - destruct Hs as (Hv & Hw & Hn). destruct (peek_streams streams) as [streams' r]. destruct IH as (IHi & IHw & IHr). cbn.
    split; [by rewrite Hi, IHi|]. split; [lia|]. destruct r as [v|]; [|lia]. constructor; [|done]. split; [by rewrite Hi|].
    intros x ->. destruct (Hn x eq_refl) as (q & Hq & Ht & Hwq). exists q. by rewrite Hi.
  - cbn. split; [by rewrite Hi|]. lia.
Qed.

Lemma all_waits_set (streams : list P) : forall ix s s' streams', streams !! ix = Some s -> (waits s' <= waits s)%nat ->
  streams' = <[ix := s']> streams -> (all_waits streams' <= all_waits streams)%nat.
Proof using Type.
  unfold all_waits. induction streams as [|r streams IH]; intros [|ix] s s' ? Hs Hw ->; cbn in *; try done; [injection Hs as ->; lia|].
  apply Nat.add_le_mono_l. by apply (IH ix s s').
Qed.

(** The function picks a stream that has something in front. *)
Context (picks : forall v ix, pick_fn v = Some (Some ix) -> exists x, v.[ix] = Some (Some x)).

(** A poll is a step of the iterator over what the streams are to give, or one
    of them was pending and nothing is lost. *)
Lemma sorted_poll_spec (streams : list P) :
  match sorted_poll_next streams with
  | Some (streams', Pending) => items <$> streams' = items <$> streams /\ (all_left streams' < all_left streams)%nat
  | Some (streams', Ready o) => sorted_next pick_fn (items <$> streams) = Some (o, items <$> streams') /\
      (o <> None -> (all_left streams' < all_left streams)%nat)
  | None => sorted_next pick_fn (items <$> streams) = None
  end.
Proof using PeekableLaws0 picks.
  unfold sorted_poll_next, sorted_next, all_left. pose proof (peek_streams_spec streams) as Hall.
  destruct (peek_streams streams) as [streams1 [v|]]; destruct Hall as (Hi & Hw & Hv); [|rewrite Hi; split; [done|lia]]. rewrite <- Hi.
  assert (head <$> (items <$> streams1) = v) as ->.
  { clear -Hv. induction Hv as [|s o l v [Ho _] _ IH]; [done|]. cbn. by rewrite IH, Ho. }
  destruct (pick_fn v) as [[ix|]|] eqn:Ep; cbn [mbind option_bind]; [|done..].
  destruct (picks v ix Ep) as (x & Hx). unfold nget in Hx. destruct (Forall2_lookup_r _ _ _ _ _ Hv Hx) as (s & Hs & Hh & Hn).
  destruct (Hn x eq_refl) as (s' & Hpoll & Ht & Hw'). unfold nget. rewrite list_lookup_fmap, Hs. cbn. rewrite Hpoll.
  destruct (items s) as [|y it] eqn:Ei; [done|]. injection Hh as <-. cbn in Ht.
  assert (Hlt : (N.to_nat ix < length streams1)%nat) by by eapply lookup_lt_Some.
  assert (nset streams1 ix s' = Some (<[N.to_nat ix := s']> streams1)) as ->.
  { unfold nset. rewrite (proj2 (N.ltb_lt _ _)); [done|]. unfold lenN. lia. }
  set (streams' := <[N.to_nat ix := s']> streams1). cbn.
  destruct (concat_nset (items <$> streams1) ix x it) as (iters & Hset & Hperm & Hiters).
  { unfold nget. by rewrite list_lookup_fmap, Hs, <- Ei. }
  rewrite Hset. cbn. assert (items <$> streams' = iters) as <- by (unfold streams'; by rewrite Hiters, list_fmap_insert, Ht). split; [done|]. intros _.
  pose proof (all_waits_set streams1 _ s s' streams' Hs Hw' eq_refl). apply Permutation_length in Hperm. cbn in Hperm. lia.
Qed.

(** Polled to the end, a sorted stream gives what the sorted iterator gives, in
    the same order, and panics when it does. *)
Lemma sorted_stream_spec : forall fuel n (streams : list P), (all_left streams < fuel)%nat ->
  (length (concat (items <$> streams)) < n)%nat ->
  sorted_stream fuel streams = sorted_iterator pick_fn n (items <$> streams).
Proof using PeekableLaws0 picks.
  induction fuel as [|fuel IH]; intros n streams Hf Hn; [lia|]. destruct n as [|n]; [lia|]. cbn [sorted_stream].
  pose proof (sorted_poll_spec streams) as Hs. destruct (sorted_poll_next streams) as [[streams' [o|]]|]; cbn [mbind option_bind].
  - destruct Hs as [Hs Hl]. cbn [sorted_iterator]. rewrite Hs. cbn [mbind option_bind]. destruct o as [x|]; [|done].
    rewrite (IH n); [done|specialize (Hl ltac:(done)); lia|].
    pose proof Hs as Hc. unfold sorted_next in Hc. destruct (pick_fn _) as [[ix|]|]; [|done..]. cbn in Hc.
    destruct ((items <$> streams).[ix]) as [[|y it]|] eqn:Hit; [done| |done]. cbn in Hc.
    destruct (concat_nset _ ix y it Hit) as (iters' & Hset & Hperm & _). rewrite Hset in Hc. injection Hc as -> <-.
    apply Permutation_length in Hperm. cbn in Hperm. lia.
  - destruct Hs as [Hi Hl]. rewrite <- Hi. apply IH; [lia|]. by rewrite Hi.
  - cbn [sorted_iterator]. by rewrite Hs.
Qed.
End sorted_stream.

(** ** The streams of the unit test, when every element is late *)

#[local] Existing Instance polls.

Definition pick_least (results : list (option N)) : option (option N) :=
  r ← min_by (fun x y => Some (x ?= y)) None (present 0 results);
  Some (option_map fst r).

Example sort_some_streams :
  sorted_stream pick_least 40 [late [1; 3; 5; 8; 12]; late [7; 9; 15]; late [0; 1; 2; 3; 4]] =
    Some [0; 1; 1; 2; 3; 3; 4; 5; 7; 8; 9; 12; 15].
Proof. reflexivity. Qed.
