(* ===== verification/IdMaps.v ===== *)
(** * Id maps (src/layer/id_map.rs)

    The dictionary of a layer that merges several layers is sorted, so that
    the place of a string in it is not its id in the layers that were merged.
    An id map, a wavelet tree over the ids in the order of the dictionary,
    takes one to the other. *)

From stdpp Require Import gmap.
From S2P Require Import Prelude.
From S2P Require Import Words.
From S2P Require Import Codec.
From S2P Require Import Strings.
From S2P Require Import BitIndexes.
From S2P Require Import WaveletTrees.
From S2P Require Import PfcBlocks.
From S2P Require Import PfcDicts.
From S2P Require Import DictMerge.
From S2P Require Import LayerTypes.
From S2P Require Import TripleBuilder.
Open Scope N_scope.

(** The files of a bit index: bits, blocks, sblocks. *)
Abbreviation bitindex_files := (list N * list N * list N)%type.

Module IdMap.

Record t : Type := mk {
  id_wtree : option WaveletTree.t
}.

Definition from_parts (id_wtree : option WaveletTree.t) : t := mk id_wtree.

Definition default : t := from_parts None.

Definition from_maps (maps : bitindex_files) (width : N) : option t :=
  let '(bits_map, blocks_map, sblocks_map) := maps in
  bitindex ← BitIndex.from_maps bits_map blocks_map sblocks_map;
  id_wtree ← WaveletTree.from_parts bitindex width;
  Some (from_parts (Some id_wtree)).

Definition outer_to_inner (m : t) (id : N) : option N :=
  match id_wtree m with
  | None => Some id
  | Some wtree =>
      if WaveletTree.len wtree <=? id then Some id
      else r ← lookup_one wtree id; r
  end.

Definition inner_to_outer (m : t) (id : N) : option N :=
  match id_wtree m with
  | None => Some id
  | Some wtree =>
      if WaveletTree.len wtree <=? id then Some id
      else WaveletTree.decode_one wtree id
  end.

End IdMap.

(** ** Building the id maps of a merge *)

Section construct.
Context `{BytesSize} `{FramedRead} `{Log2F32}.

(** [dict.entries().enumerate().map(..)]: the entries with their ids; [first]
    is the place of the first one among the nodes and values of the layer. *)
Definition outer_entries (idmap : IdMap.t) (first offset : N) (dict : PfcDict.t) : option (list (N * PfcDictEntry.t)) :=
  entries ← dict_entries dict;
  mapM (fun '(i, e) =>
    inner ← cadd 64 i first;
    outer ← IdMap.inner_to_outer idmap inner;
    id ← cadd 64 outer offset;
    Some (id, e)) (zip (seqN 0 (lenN entries)) entries).

(** The three loops, from the layer [ix] on. *)
Fixpoint node_iters (node_dicts value_dicts : list PfcDict.t) (node_value_idmaps : list IdMap.t) (ix node_offset : N)
    : option (list (list (N * PfcDictEntry.t)) * N) :=
  match node_dicts with
  | [] => Some ([], node_offset)
  | dict :: node_dicts =>
      idmap ← node_value_idmaps.[ix];
      it ← outer_entries idmap 0 node_offset dict;
      value_dict ← value_dicts.[ix];
      count ← cadd 64 (PfcDict.len dict) (PfcDict.len value_dict);
      node_offset ← cadd 64 node_offset count;
      '(its, node_offset) ← node_iters node_dicts value_dicts node_value_idmaps (ix + 1) node_offset;
      Some (it :: its, node_offset)
  end.

Fixpoint value_iters (value_dicts node_dicts : list PfcDict.t) (node_value_idmaps : list IdMap.t) (ix value_offset : N)
    : option (list (list (N * PfcDictEntry.t))) :=
  match value_dicts with
  | [] => Some []
  | dict :: value_dicts =>
      idmap ← node_value_idmaps.[ix];
      node_dict ← node_dicts.[ix];
      let node_count := PfcDict.len node_dict in
      it ← outer_entries idmap node_count value_offset dict;
      count ← cadd 64 node_count (PfcDict.len dict);
      value_offset ← cadd 64 value_offset count;
      its ← value_iters value_dicts node_dicts node_value_idmaps (ix + 1) value_offset;
      Some (it :: its)
  end.

Fixpoint predicate_iters (predicate_dicts : list PfcDict.t) (predicate_idmaps : list IdMap.t) (ix predicate_offset : N)
    : option (list (list (N * PfcDictEntry.t)) * N) :=
  match predicate_dicts with
  | [] => Some ([], predicate_offset)
  | dict :: predicate_dicts =>
      idmap ← predicate_idmaps.[ix];
      it ← outer_entries idmap 0 predicate_offset dict;
      predicate_offset ← cadd 64 predicate_offset (PfcDict.len dict);
      '(its, predicate_offset) ← predicate_iters predicate_dicts predicate_idmaps (ix + 1) predicate_offset;
      Some (it :: its, predicate_offset)
  end.

(** [entry_comparator]. *)
Definition entry_comparator : list (option (N * PfcDictEntry.t)) -> option (option N) := pick_by snd.

(** [sorted_iterator(iters, entry_comparator)], drained. *)
Definition sorted_ids (iters : list (list (N * PfcDictEntry.t))) : option (list N) :=
  xs ← sorted_iterator entry_comparator (length (concat iters) + 1) iters;
  Some xs.*1.

(** The files of both maps; the two builds run in tasks of their own, that
    share nothing.  The assertions are those of a debug build. *)
Definition construct_idmaps_from_structures (debug : bool) (node_dicts predicate_dicts value_dicts : list PfcDict.t)
    (node_value_idmaps predicate_idmaps : list IdMap.t) : outcome io_error (bitindex_files * bitindex_files) :=
  _ ← or_panic (assert_ (negb debug ||
    ((lenN node_dicts =? lenN predicate_dicts) && (lenN node_dicts =? lenN value_dicts) &&
     (lenN node_dicts =? lenN node_value_idmaps) && (lenN node_dicts =? lenN predicate_idmaps))));
  '(node_iters, node_offset) ← or_panic (node_iters node_dicts value_dicts node_value_idmaps 0 0);
  value_iters ← or_panic (value_iters value_dicts node_dicts node_value_idmaps 0 0);
  '(predicate_iters, predicate_offset) ← or_panic (predicate_iters predicate_dicts predicate_idmaps 0 0);
  sorted_nodes ← or_panic (sorted_ids node_iters);
  sorted_values ← or_panic (sorted_ids value_iters);
  sorted_predicates ← or_panic (sorted_ids predicate_iters);
  node_value_width ← or_panic (calculate_width node_offset);
  node_value_files ← build_wavelet_tree_from_iter node_value_width (sorted_nodes ++ sorted_values);
  predicate_width ← or_panic (calculate_width predicate_offset);
  predicate_files ← build_wavelet_tree_from_iter predicate_width sorted_predicates;
  Ok (node_value_files, predicate_files).
End construct.

(** ** What a map holds *)

(** The ids in the order of the dictionary. *)
Definition permutation (perm : list N) : Prop := perm ≡ₚ seqN 0 (lenN perm).

Definition idmap_repr (m : IdMap.t) (perm : list N) : Prop :=
  permutation perm /\
  match IdMap.id_wtree m with
  | None => perm = seqN 0 (lenN perm)
  | Some wt => wavelet_of wt perm
  end.

(** The strings of a dictionary in the order of their ids. *)
Definition arrange {A} (perm : list N) (inner : list A) : list A :=
  omap (fun o => i ← position o perm; inner.[i]) (seqN 0 (lenN perm)).

Lemma omap_total {A B} (f : A -> option B) l : (forall x, x ∈ l -> is_Some (f x)) ->
  lenN (omap f l) = lenN l /\ forall k, (omap f l).[k] = x ← l.[k]; f x.
Proof.
  induction l as [|x l IH]; intros Hf; [done|]. destruct (Hf x ltac:(by left)) as [y Hy].
  destruct IH as [Hl Hk]; [intros; apply Hf; by right|]. cbn [omap list_omap]. rewrite Hy. split; [by rewrite !lenN_cons, <- Hl|].
  intros k. destruct (N.eq_dec k 0) as [->|Hne]; [by rewrite !nget_cons_0, bind_Some_eq|]. rewrite !nget_cons_pos by lia. apply Hk.
Qed.

Lemma position_spec c l : match position c l with
  | Some i => l.[i] = Some c
  | None => c ∉ l
  end.
Proof.
  induction l as [|x l IH]; cbn [position]; [by intros ?%elem_of_nil|]. destruct (N.eqb_spec x c) as [->|Hne]; [done|].
  destruct (position c l) as [i|]; cbn; [|by intros [|]%elem_of_cons].
  rewrite nget_cons_pos by lia. rewrite <- IH. f_equal. lia.
Qed.

Lemma perm_nodup perm : permutation perm -> NoDup perm.
Proof.
  unfold permutation. intros Hp. rewrite Hp. unfold seqN. apply NoDup_fmap_2; [intros x y ?; lia|]. apply NoDup_seq.
Qed.

Lemma elem_of_seqN x a n : x ∈ seqN a n <-> a <= x < a + n.
Proof.
  unfold seqN. rewrite list_elem_of_fmap. split.
  - intros (i & -> & Hi). apply elem_of_seq in Hi. lia.
  - intros Hx. exists (N.to_nat (x - a)). split; [lia|]. apply elem_of_seq. lia.
Qed.

Lemma perm_bound perm i o : permutation perm -> perm.[i] = Some o -> o < lenN perm.
Proof. unfold permutation. intros Hp Hi. apply nget_elem in Hi. rewrite Hp in Hi. apply elem_of_seqN in Hi. lia. Qed.

Lemma perm_onto perm o : permutation perm -> o < lenN perm -> exists i, perm.[i] = Some o.
Proof. unfold permutation. intros Hp Ho. apply elem_nget. rewrite Hp. apply elem_of_seqN. lia. Qed.

Lemma NoDup_nget {A} (l : list A) i j x : NoDup l -> l.[i] = Some x -> l.[j] = Some x -> i = j.
Proof. intros Hn Hi Hj. pose proof (NoDup_lookup _ _ _ _ Hn Hi Hj). lia. Qed.

Lemma position_perm perm i o : permutation perm -> perm.[i] = Some o -> position o perm = Some i.
Proof.
  intros Hp Hi. pose proof (position_spec o perm) as Hs. destruct (position o perm) as [j|].
  - f_equal. eapply NoDup_nget; [by apply perm_nodup|done|done].
  - by apply nget_elem in Hi.
Qed.

Lemma arrange_spec {A} perm (inner : list A) : permutation perm -> lenN inner = lenN perm ->
  lenN (arrange perm inner) = lenN perm /\
  forall i o, perm.[i] = Some o -> (arrange perm inner).[o] = inner.[i].
Proof.
  intros Hp Hl. destruct (omap_total (fun o => i ← position o perm; inner.[i]) (seqN 0 (lenN perm))) as [Hlen Hk].
  { intros o Ho%elem_of_seqN. destruct (perm_onto perm o Hp) as [i Hi]; [lia|]. rewrite (position_perm perm i o Hp Hi), bind_Some_eq.
    apply nget_lt. rewrite Hl. by eapply nget_Some_lt. }
  split; [unfold arrange; by rewrite Hlen, lenN_seqN|]. intros i o Hi. unfold arrange. pose proof (perm_bound _ _ _ Hp Hi).
  rewrite Hk, nget_seqN, bind_Some_eq, N.add_0_l by lia. by rewrite (position_perm perm i o Hp Hi), bind_Some_eq.
Qed.

Lemma arrange_perm {A} perm (inner : list A) : permutation perm -> lenN inner = lenN perm -> arrange perm inner ≡ₚ inner.
Proof.
  intros Hp Hl. symmetry. destruct (arrange_spec perm inner Hp Hl) as [Hlen Hget].
  assert (E : inner = omap (fun o => (arrange perm inner).[o]) perm).
  { destruct (omap_total (fun o => (arrange perm inner).[o]) perm) as [Hl2 Hk].
    - intros o [i Hi]%elem_nget. apply nget_lt. rewrite Hlen. by eapply perm_bound.
    - apply list_eq_nget. intros i. rewrite Hk. destruct (perm.[i]) as [o|] eqn:E.
      + rewrite bind_Some_eq. symmetry. by apply Hget.
      + cbn. apply nget_None. rewrite Hl. by apply nget_None. }
  rewrite E at 1. unfold permutation in Hp. rewrite <- Hlen in Hp. revert Hp. clear. generalize (arrange perm inner). intros l Hp. rewrite Hp.
  assert (E : omap (fun o => l.[o]) (seqN 0 (lenN l)) = l); [|by rewrite E].
  destruct (omap_total (fun o => l.[o]) (seqN 0 (lenN l))) as [_ Hk].
  { intros o Ho%elem_of_seqN. apply nget_lt. lia. }
  apply list_eq_nget. intros i. rewrite Hk. destruct (N.lt_ge_cases i (lenN l)) as [Hlt|Hge].
  - rewrite nget_seqN by done. cbn. by rewrite N.add_0_l.
  - rewrite (proj2 (nget_None _ _)) by (by rewrite lenN_seqN). cbn. symmetry. by apply nget_None.
Qed.

Lemma arrange_id {A} (inner : list A) n : lenN inner = n -> arrange (seqN 0 n) inner = inner.
Proof.
  intros Hl. assert (Hp : permutation (seqN 0 n)) by (unfold permutation; by rewrite lenN_seqN).
  destruct (arrange_spec (seqN 0 n) inner Hp) as [Hlen Hget]; [by rewrite lenN_seqN|]. rewrite lenN_seqN in Hlen.
  apply list_eq_nget. intros i. destruct (N.lt_ge_cases i n) as [Hlt|Hge].
  - apply Hget. by rewrite nget_seqN, N.add_0_l.
  - rewrite !(proj2 (nget_None _ _)); [done|lia|lia].
Qed.

(** ** Reading a map *)

Lemma lookup_one_perm wt perm i o : permutation perm -> wavelet_of wt perm -> perm.[i] = Some o -> lookup_one wt o = Some (Some i).
Proof.
  intros Hp Hwt Hi. destruct Hwt as [Hr|[_ ->]]; [|done]. unfold lookup_one. pose proof Hr as (_ & Hxs & _).
  pose proof (Forall_nget _ _ _ _ Hxs Hi) as Ho. cbn beta in Ho. rewrite (lookup_spec _ _ Hr o Ho), bind_Some_eq.
  rewrite decide_True by (by eapply nget_elem). rewrite (lookup_entry _ _ Hr o Ho i 0 Hi); [done|].
  rewrite filter_none; [done|]. apply Forall_forall. intros x [j Hj]%elem_nget ->.
  pose proof (nget_Some_lt _ _ _ Hj) as Hjl. rewrite lenN_takeN in Hjl. rewrite nget_takeN in Hj by lia.
  pose proof (NoDup_nget _ _ _ _ (perm_nodup _ Hp) Hi Hj). lia.
Qed.

Lemma wavelet_of_len wt xs : wavelet_of wt xs -> WaveletTree.len wt = lenN xs.
Proof. intros [Hr|[Hz ->]]; [by apply wt_len|]. unfold WaveletTree.len. by rewrite Hz. Qed.

Lemma inner_to_outer_spec m perm i : idmap_repr m perm ->
  IdMap.inner_to_outer m i = Some (match perm.[i] with Some o => o | None => i end).
Proof.
  intros [Hp Hm]. unfold IdMap.inner_to_outer. destruct (IdMap.id_wtree m) as [wt|].
  - rewrite (wavelet_of_len _ _ Hm). destruct (perm.[i]) as [o|] eqn:E.
    + pose proof (nget_Some_lt _ _ _ E). ncmp. destruct Hm as [Hr|[_ ->]]; [|done].
      destruct (decode_one_spec _ _ Hr i) as [->|]; [done|lia].
    + apply nget_None in E. by ncmp.
  - rewrite Hm. destruct (N.lt_ge_cases i (lenN perm)) as [Hlt|Hge].
    + by rewrite nget_seqN, N.add_0_l.
    + rewrite (proj2 (nget_None _ _)); [done|by rewrite lenN_seqN].
Qed.

Lemma outer_to_inner_spec m perm i o : idmap_repr m perm -> perm.[i] = Some o -> IdMap.outer_to_inner m o = Some i.
Proof.
  intros [Hp Hm] Hi. unfold IdMap.outer_to_inner. destruct (IdMap.id_wtree m) as [wt|].
  - rewrite (wavelet_of_len _ _ Hm). pose proof (perm_bound _ _ _ Hp Hi). ncmp. by rewrite (lookup_one_perm wt perm i o).
  - rewrite Hm in Hi. pose proof (nget_Some_lt _ _ _ Hi) as Hl. rewrite lenN_seqN in Hl. rewrite nget_seqN in Hi by done.
    injection Hi as <-. by rewrite N.add_0_l.
Qed.

Lemma outer_to_inner_past m perm o : idmap_repr m perm -> lenN perm <= o -> IdMap.outer_to_inner m o = Some o.
Proof.
  intros [Hp Hm] Ho. unfold IdMap.outer_to_inner. destruct (IdMap.id_wtree m) as [wt|]; [|done].
  rewrite (wavelet_of_len _ _ Hm). by ncmp.
Qed.

Lemma idmap_default n : idmap_repr IdMap.default (seqN 0 n).
Proof. split; [unfold permutation|cbn]; by rewrite lenN_seqN. Qed.

(** ** The names of a layer *)

(** The strings of the dictionaries of a layer, sorted, and the ids of its
    nodes and values, and of its predicates, in that order. *)
Record names : Type := mk_names {
  nodes : list (list N);
  values : list (list N);
  predicates : list (list N);
  node_value_perm : list N;
  predicate_perm : list N
}.

Definition names_ok (n : names) : Prop :=
  permutation (node_value_perm n) /\ lenN (node_value_perm n) = lenN (nodes n) + lenN (values n) /\
  permutation (predicate_perm n) /\ lenN (predicate_perm n) = lenN (predicates n).

(** What the ids of the layer stand for, in their order. *)
Definition entries_of_names (n : names) : list ObjectType :=
  arrange (node_value_perm n) ((Node <$> nodes n) ++ (Value <$> values n)).

Definition predicates_of_names (n : names) : list (list N) := arrange (predicate_perm n) (predicates n).

Lemma entries_of_names_spec n : names_ok n -> lenN (entries_of_names n) = lenN (nodes n) + lenN (values n) /\
  forall i o, (node_value_perm n).[i] = Some o ->
    (entries_of_names n).[o] = ((Node <$> nodes n) ++ (Value <$> values n)).[i].
Proof.
  intros (Hp & Hl & _). destruct (arrange_spec (node_value_perm n) ((Node <$> nodes n) ++ (Value <$> values n)) Hp) as [H1 H2].
  - by rewrite lenN_app, !lenN_map.
  - split; [by rewrite <- Hl|done].
Qed.

Lemma predicates_of_names_spec n : names_ok n -> lenN (predicates_of_names n) = lenN (predicates n) /\
  forall i o, (predicate_perm n).[i] = Some o -> (predicates_of_names n).[o] = (predicates n).[i].
Proof.
  intros (_ & _ & Hp & Hl). destruct (arrange_spec (predicate_perm n) (predicates n) Hp) as [H1 H2]; [done|].
  split; [by rewrite <- Hl|done].
Qed.

Record names_repr (node_dictionary predicate_dictionary value_dictionary : PfcDict.t) (node_value_idmap predicate_idmap : IdMap.t)
    (n : names) : Prop := {
  names_nodes : dict_repr node_dictionary (nodes n);
  names_predicates : dict_repr predicate_dictionary (predicates n);
  names_values : dict_repr value_dictionary (values n);
  names_node_value_map : idmap_repr node_value_idmap (node_value_perm n);
  names_predicate_map : idmap_repr predicate_idmap (predicate_perm n)
}.

(** ** Building maps *)

Lemma mapM_nth {A B} (f : N * A -> option B) l ys : forall k, lenN l = lenN ys ->
  (forall i x y, l.[i] = Some x -> ys.[i] = Some y -> f (k + i, x) = Some y) -> mapM f (zip (seqN k (lenN l)) l) = Some ys.
Proof.
  revert ys. induction l as [|x l IH]; intros ys k Hl Hf.
  - destruct ys; [done|]. rewrite lenN_cons, lenN_nil in Hl. lia.
  - destruct ys as [|y ys]; [rewrite lenN_cons, lenN_nil in Hl; lia|]. rewrite !lenN_cons in Hl.
    replace (seqN k (lenN (x :: l))) with (k :: seqN (k + 1) (lenN l)).
    2:{ rewrite lenN_cons. unfold seqN. replace (N.to_nat (1 + lenN l)) with (S (N.to_nat (lenN l))) by lia.
        cbn [seq fmap list_fmap]. f_equal; [lia|]. rewrite <- fmap_S_seq, <- list_fmap_compose. apply list_fmap_ext. intros. unfold compose. lia. }
    cbn [zip zip_with mapM]. rewrite <- (N.add_0_r k) at 1. rewrite (Hf 0 x y), bind_Some_eq by done.
    rewrite (IH ys (k + 1)); [done|lia|]. intros i x' y' Hx Hy. replace (k + 1 + i) with (k + (1 + i)) by lia.
    apply Hf; rewrite nget_cons_pos by lia; by replace (1 + i - 1) with i by lia.
Qed.

Section construct_spec.
Context `{BytesSize}.

Lemma outer_entries_spec idmap perm first offset d ss : idmap_repr idmap perm -> dict_repr d ss ->
  first + lenN ss <= lenN perm -> offset + lenN perm < 2 ^ 64 ->
  exists it, outer_entries idmap first offset d = Some it /\
    it.*1 = (fun o => o + offset) <$> takeN (lenN ss) (dropN first perm) /\ Forall2 entry_repr it.*2 ss.
Proof.
  intros Hm Hd Hl Hoff. destruct (dict_entries_spec d ss Hd) as (es & Hes & Hr). pose proof (Forall2_length _ _ _ Hr) as Hlen.
  set (ids := (fun o => o + offset) <$> takeN (lenN ss) (dropN first perm)).
  assert (Hids : lenN ids = lenN es).
  { unfold ids. rewrite lenN_map, lenN_takeN, lenN_dropN. unfold lenN in *. lia. }
  exists (zip ids es). assert (Hz : lenN es = lenN (zip ids es)).
  { unfold lenN in *. rewrite length_zip_with. lia. }
  split; [|split].
  - unfold outer_entries. rewrite Hes, bind_Some_eq. apply mapM_nth; [done|]. intros i e y He Hy. rewrite N.add_0_l.
    pose proof (nget_Some_lt _ _ _ He) as Hi. unfold nget in Hy, He. rewrite lookup_zip_with in Hy.
    apply bind_Some in Hy as (o & Ho & Hy). apply bind_Some in Hy as (e' & He' & Hy). rewrite He in He'. injection He' as <-.
    injection Hy as <-. assert (Hin : perm.[i + first] = Some (o - offset) /\ offset <= o).
    { change (ids.[i] = Some o) in Ho. unfold ids in Ho. rewrite nget_map in Ho.
      rewrite nget_takeN, nget_dropN in Ho by (unfold lenN in *; lia). rewrite N.add_comm.
      destruct (perm.[first + i]) as [z|]; [|done]. cbn in Ho. injection Ho as <-. split; [f_equal; lia|lia]. }
    destruct Hin as [Hin Hle]. pose proof (perm_bound _ _ _ (proj1 Hm) Hin) as Hb. pose proof (nget_Some_lt _ _ _ Hin).
    rewrite cadd_Some, bind_Some_eq by lia. rewrite (inner_to_outer_spec _ _ _ Hm), Hin, bind_Some_eq.
    rewrite cadd_Some, bind_Some_eq by lia. do 2 f_equal. lia.
  - apply fst_zip. unfold lenN in Hids. lia.
  - rewrite snd_zip by (unfold lenN in Hids; lia). done.
Qed.

(** The ids of the nodes, of the values and of the predicates of a stack of
    layers, the lowest one first. *)
Definition size_of (n : names) : N := lenN (nodes n) + lenN (values n).
Definition count_of (ls : list names) : N := foldr (fun n c => size_of n + c) 0 ls.
Definition predicate_count_of (ls : list names) : N := foldr (fun n c => lenN (predicates n) + c) 0 ls.

Fixpoint node_ids (off : N) (ls : list names) : list N :=
  match ls with
  | [] => []
  | n :: ls => ((fun o => o + off) <$> takeN (lenN (nodes n)) (node_value_perm n)) ++ node_ids (off + size_of n) ls
  end.

Fixpoint value_ids (off : N) (ls : list names) : list N :=
  match ls with
  | [] => []
  | n :: ls => ((fun o => o + off) <$> dropN (lenN (nodes n)) (node_value_perm n)) ++ value_ids (off + size_of n) ls
  end.

Fixpoint predicate_ids (off : N) (ls : list names) : list N :=
  match ls with
  | [] => []
  | n :: ls => ((fun o => o + off) <$> predicate_perm n) ++ predicate_ids (off + lenN (predicates n)) ls
  end.

Lemma shifted_seq perm off n : permutation perm -> lenN perm = n -> (fun o => o + off) <$> perm ≡ₚ seqN off n.
Proof.
  unfold permutation. intros Hp <-. rewrite Hp at 1. unfold seqN. rewrite <- list_fmap_compose.
  assert (E : forall l : list nat, (fun o => o + off) ∘ (fun i => 0 + N.of_nat i) <$> l = (fun i => off + N.of_nat i) <$> l); [|by rewrite E].
  intros l. apply list_fmap_ext. intros. unfold compose. lia.
Qed.

Lemma node_value_ids ls : forall off, Forall names_ok ls -> node_ids off ls ++ value_ids off ls ≡ₚ seqN off (count_of ls).
Proof.
  induction ls as [|n ls IH]; intros off Hok; [done|]. apply Forall_cons in Hok as [(Hp & Hl & _) Hok].
  cbn [node_ids value_ids count_of foldr]. fold (count_of ls). rewrite seqN_app, <- (IH (off + size_of n) Hok).
  rewrite <- (shifted_seq (node_value_perm n) off (size_of n) Hp Hl).
  rewrite <- (takeN_dropN (lenN (nodes n)) (node_value_perm n)) at 3. rewrite fmap_app. solve_Permutation.
Qed.

Lemma predicate_ids_perm ls : forall off, Forall names_ok ls -> predicate_ids off ls ≡ₚ seqN off (predicate_count_of ls).
Proof.
  induction ls as [|n ls IH]; intros off Hok; [done|]. apply Forall_cons in Hok as [(_ & _ & Hp & Hl) Hok].
  cbn [predicate_ids predicate_count_of foldr]. fold (predicate_count_of ls). rewrite seqN_app, <- (IH _ Hok).
  by rewrite <- (shifted_seq (predicate_perm n) off (lenN (predicates n)) Hp Hl).
Qed.

(** The entries that the ids stand for. *)
Definition stands_for {A} (off : N) (E : list A) (id : N) (x : A) : Prop := off <= id /\ E.[id - off] = Some x.

Lemma stands_for_later {A} off (E F : list A) id x : stands_for (off + lenN E) F id x -> stands_for off (E ++ F) id x.
Proof.
  intros [H1 H2]. split; [lia|]. rewrite nget_app_r by lia. rewrite <- H2. f_equal. lia.
Qed.

Lemma stands_for_layer {A} off perm (inner E F : list A) (ids : list N) xs k :
  (forall i o, perm.[i] = Some o -> E.[o] = inner.[i]) ->
  (forall i o, ids.[i] = Some o -> perm.[k + i] = Some o) -> (forall i x, xs.[i] = Some x -> inner.[k + i] = Some x) ->
  lenN ids = lenN xs -> Forall2 (stands_for off (E ++ F)) ((fun o => o + off) <$> ids) xs.
Proof.
  intros HE Hids Hxs Hl. apply Forall2_fmap_l. apply Forall2_same_length_lookup_2; [unfold lenN in Hl; lia|].
  intros i o x Ho Hx. assert (Ho' : ids.[N.of_nat i] = Some o) by (unfold nget; by rewrite Nat2N.id).
  assert (Hx' : xs.[N.of_nat i] = Some x) by (unfold nget; by rewrite Nat2N.id).
  specialize (HE _ _ (Hids _ _ Ho')). rewrite (Hxs _ _ Hx') in HE.
  split; [lia|]. rewrite N.add_sub. rewrite nget_app_l; [done|]. by eapply nget_Some_lt.
Qed.

Lemma node_ids_stand ls : forall off, Forall names_ok ls ->
  Forall2 (stands_for off (concat (entries_of_names <$> ls))) (node_ids off ls) (Node <$> concat (nodes <$> ls)).
Proof.
  induction ls as [|n ls IH]; intros off Hok; [constructor|]. apply Forall_cons in Hok as [Hn Hok].
  cbn [node_ids fmap list_fmap concat]. rewrite fmap_app. destruct (entries_of_names_spec n Hn) as [Hlen Hget].
  destruct Hn as (Hp & Hl & _). apply Forall2_app.
  - apply (stands_for_layer off (node_value_perm n) _ _ _ _ _ 0 Hget).
    + intros i o Hi. rewrite N.add_0_l. pose proof (nget_Some_lt _ _ _ Hi) as Hlt. rewrite lenN_takeN in Hlt.
      by rewrite nget_takeN in Hi by lia.
    + intros i x Hi. rewrite N.add_0_l. rewrite nget_app_l; [done|]. by eapply nget_Some_lt.
    + rewrite lenN_takeN, lenN_map. lia.
  - eapply Forall2_impl; [apply (IH (off + size_of n) Hok)|]. intros id x Hx. apply stands_for_later. by rewrite Hlen.
Qed.

Lemma value_ids_stand ls : forall off, Forall names_ok ls ->
  Forall2 (stands_for off (concat (entries_of_names <$> ls))) (value_ids off ls) (Value <$> concat (values <$> ls)).
Proof.
  induction ls as [|n ls IH]; intros off Hok; [constructor|]. apply Forall_cons in Hok as [Hn Hok].
  cbn [value_ids fmap list_fmap concat]. rewrite fmap_app. destruct (entries_of_names_spec n Hn) as [Hlen Hget].
  destruct Hn as (Hp & Hl & _). apply Forall2_app.
  - apply (stands_for_layer off (node_value_perm n) _ _ _ _ _ (lenN (nodes n)) Hget).
    + intros i o Hi. by rewrite nget_dropN in Hi.
    + intros i x Hi. rewrite nget_app_r by (rewrite lenN_map; lia). rewrite lenN_map. by replace (lenN (nodes n) + i - lenN (nodes n)) with i by lia.
    + rewrite lenN_dropN, lenN_map. lia.
  - eapply Forall2_impl; [apply (IH (off + size_of n) Hok)|]. intros id x Hx. apply stands_for_later. by rewrite Hlen.
Qed.

Lemma predicate_ids_stand ls : forall off, Forall names_ok ls ->
  Forall2 (stands_for off (concat (predicates_of_names <$> ls))) (predicate_ids off ls) (concat (predicates <$> ls)).
Proof.
  induction ls as [|n ls IH]; intros off Hok; [constructor|]. apply Forall_cons in Hok as [Hn Hok].
  cbn [predicate_ids fmap list_fmap concat]. destruct (predicates_of_names_spec n Hn) as [Hlen Hget].
  destruct Hn as (_ & _ & Hp & Hl). apply Forall2_app.
  - apply (stands_for_layer off (predicate_perm n) _ _ _ _ _ 0 Hget); [by intros; rewrite N.add_0_l..|done].
  - eapply Forall2_impl; [apply (IH (off + lenN (predicates n)) Hok)|]. intros id x Hx. apply stands_for_later. by rewrite Hlen.
Qed.

(** What the iterators of the entries of all layers yield. *)
Record items_of (its : list (list (N * PfcDictEntry.t))) (ids : list N) (ss : list (list N)) : Prop := {
  items_ids : (concat its).*1 = ids;
  items_texts : Forall2 entry_repr (concat its).*2 ss;
  items_sorted : Forall (fun it => StronglySorted lex_lt (text snd <$> it)) its
}.

Lemma items_text (it : list (N * PfcDictEntry.t)) ss : Forall2 entry_repr it.*2 ss -> text snd <$> it = ss.
Proof. intros [Hk _]%entries_keys. rewrite <- Hk. rewrite <- list_fmap_compose. done. Qed.

Lemma items_cons it its ids idss ss sss : it.*1 = ids -> Forall2 entry_repr it.*2 ss -> StronglySorted lex_lt ss ->
  items_of its idss sss -> items_of (it :: its) (ids ++ idss) (ss ++ sss).
Proof.
  intros Hi Ht Hs [H1 H2 H3]. split; cbn [concat].
  - rewrite fmap_app. by f_equal.
  - rewrite fmap_app. by apply Forall2_app.
  - constructor; [|done]. by rewrite (items_text _ _ Ht).
Qed.

Lemma items_nil : items_of [] [] [].
Proof. split; constructor. Qed.

Lemma dict_repr_sorted d ss : dict_repr d ss -> StronglySorted lex_lt ss.
Proof. by intros (_ & _ & ? & _). Qed.

Lemma node_iters_spec ls : forall nd vd nm ix off, Forall2 dict_repr nd (nodes <$> ls) ->
  (forall k n, ls.[k] = Some n -> exists d m, vd.[ix + k] = Some d /\ dict_repr d (values n) /\
    nm.[ix + k] = Some m /\ idmap_repr m (node_value_perm n)) -> Forall names_ok ls -> off + count_of ls < 2 ^ 64 ->
  exists its, node_iters nd vd nm ix off = Some (its, off + count_of ls) /\ items_of its (node_ids off ls) (concat (nodes <$> ls)).
Proof.
  induction ls as [|n ls IH]; intros nd vd nm ix off Hnd Hvd Hok Hoff.
  - apply Forall2_nil_inv_r in Hnd as ->. exists []. cbn. rewrite N.add_0_r. split; [done|apply items_nil].
  - cbn [fmap list_fmap] in Hnd. apply Forall2_cons_inv_r in Hnd as (d & nd' & Hd & Hnd & ->).
    apply Forall_cons in Hok as [Hn Hok]. destruct (Hvd 0 n eq_refl) as (v & m & Hv & Hvr & Hm & Hmr). rewrite N.add_0_r in Hv, Hm.
    cbn [count_of foldr] in Hoff. fold (count_of ls) in Hoff. pose proof Hn as (_ & Hl & _). unfold size_of in Hoff.
    cbn [node_iters]. rewrite Hm, bind_Some_eq.
    destruct (outer_entries_spec m (node_value_perm n) 0 off d (nodes n) Hmr Hd) as (it & -> & Hi & Ht); [lia|lia|].
    rewrite bind_Some_eq, Hv, bind_Some_eq. unfold PfcDict.len. destruct Hd as (-> & Hd2). destruct Hvr as (-> & _).
    rewrite cadd_Some, bind_Some_eq, cadd_Some, bind_Some_eq by lia.
    destruct (IH nd' vd nm (ix + 1) (off + size_of n) Hnd) as (its & Hits & Hitems); [|done|unfold size_of; lia|].
    { intros k n' Hk. replace (ix + 1 + k) with (ix + (k + 1)) by lia. apply Hvd. rewrite nget_cons_pos by lia.
      by replace (k + 1 - 1) with k by lia. }
    fold (size_of n). rewrite Hits, bind_Some_eq. cbn [fst snd]. exists (it :: its). split; [cbn [count_of foldr]; fold (count_of ls); do 2 f_equal; lia|].
    rewrite dropN_0 in Hi. apply items_cons; [done|done|by destruct Hd2 as (_ & ? & _)|done].
Qed.

Lemma value_iters_spec ls : forall vd nd nm ix off, Forall2 dict_repr vd (values <$> ls) ->
  (forall k n, ls.[k] = Some n -> exists d m, nd.[ix + k] = Some d /\ dict_repr d (nodes n) /\
    nm.[ix + k] = Some m /\ idmap_repr m (node_value_perm n)) -> Forall names_ok ls -> off + count_of ls < 2 ^ 64 ->
  exists its, value_iters vd nd nm ix off = Some its /\ items_of its (value_ids off ls) (concat (values <$> ls)).
Proof.
  induction ls as [|n ls IH]; intros vd nd nm ix off Hvd Hnd Hok Hoff.
  - apply Forall2_nil_inv_r in Hvd as ->. exists []. split; [done|apply items_nil].
  - cbn [fmap list_fmap] in Hvd. apply Forall2_cons_inv_r in Hvd as (d & vd' & Hd & Hvd & ->).
    apply Forall_cons in Hok as [Hn Hok]. destruct (Hnd 0 n eq_refl) as (v & m & Hv & Hvr & Hm & Hmr). rewrite N.add_0_r in Hv, Hm.
    cbn [count_of foldr] in Hoff. fold (count_of ls) in Hoff. pose proof Hn as (_ & Hl & _). unfold size_of in Hoff.
    cbn [value_iters]. rewrite Hm, bind_Some_eq, Hv, bind_Some_eq. cbv zeta. assert (Hvl : PfcDict.len v = lenN (nodes n)) by apply Hvr. rewrite Hvl.
    destruct (outer_entries_spec m (node_value_perm n) (lenN (nodes n)) off d (values n) Hmr Hd) as (it & -> & Hi & Ht); [lia|lia|].
    rewrite bind_Some_eq. assert (Hdl : PfcDict.len d = lenN (values n)) by apply Hd. rewrite Hdl.
    rewrite cadd_Some, bind_Some_eq, cadd_Some, bind_Some_eq by lia.
    destruct (IH vd' nd nm (ix + 1) (off + size_of n) Hvd) as (its & Hits & Hitems); [|done|unfold size_of; lia|].
    { intros k n' Hk. replace (ix + 1 + k) with (ix + (k + 1)) by lia. apply Hnd. rewrite nget_cons_pos by lia.
      by replace (k + 1 - 1) with k by lia. }
    fold (size_of n). rewrite Hits, bind_Some_eq. exists (it :: its). split; [done|].
    assert (Hall : takeN (lenN (values n)) (dropN (lenN (nodes n)) (node_value_perm n)) = dropN (lenN (nodes n)) (node_value_perm n)).
    { unfold takeN. apply take_ge. pose proof (lenN_dropN (lenN (nodes n)) (node_value_perm n)) as HL. unfold lenN in HL at 1. lia. }
    rewrite Hall in Hi. apply items_cons; [done|done|by eapply dict_repr_sorted|done].
Qed.

Lemma predicate_iters_spec ls : forall pd pm ix off, Forall2 dict_repr pd (predicates <$> ls) ->
  (forall k n, ls.[k] = Some n -> exists m, pm.[ix + k] = Some m /\ idmap_repr m (predicate_perm n)) ->
  Forall names_ok ls -> off + predicate_count_of ls < 2 ^ 64 ->
  exists its, predicate_iters pd pm ix off = Some (its, off + predicate_count_of ls) /\
    items_of its (predicate_ids off ls) (concat (predicates <$> ls)).
Proof.
  induction ls as [|n ls IH]; intros pd pm ix off Hpd Hpm Hok Hoff.
  - apply Forall2_nil_inv_r in Hpd as ->. exists []. cbn. rewrite N.add_0_r. split; [done|apply items_nil].
  - cbn [fmap list_fmap] in Hpd. apply Forall2_cons_inv_r in Hpd as (d & pd' & Hd & Hpd & ->).
    apply Forall_cons in Hok as [Hn Hok]. destruct (Hpm 0 n eq_refl) as (m & Hm & Hmr). rewrite N.add_0_r in Hm.
    cbn [predicate_count_of foldr] in Hoff. fold (predicate_count_of ls) in Hoff. pose proof Hn as (_ & _ & _ & Hl).
    cbn [predicate_iters]. rewrite Hm, bind_Some_eq.
    destruct (outer_entries_spec m (predicate_perm n) 0 off d (predicates n) Hmr Hd) as (it & -> & Hi & Ht); [lia|lia|].
    rewrite bind_Some_eq. unfold PfcDict.len. destruct Hd as (-> & Hd2). rewrite cadd_Some, bind_Some_eq by lia.
    destruct (IH pd' pm (ix + 1) (off + lenN (predicates n)) Hpd) as (its & Hits & Hitems); [|done|lia|].
    { intros k n' Hk. replace (ix + 1 + k) with (ix + (k + 1)) by lia. apply Hpm. rewrite nget_cons_pos by lia.
      by replace (k + 1 - 1) with k by lia. }
    rewrite Hits, bind_Some_eq. cbn [fst snd]. exists (it :: its).
    split; [cbn [predicate_count_of foldr]; fold (predicate_count_of ls); do 2 f_equal; lia|].
    rewrite dropN_0, <- Hl, takeN_all in Hi. cbn [fmap list_fmap concat predicate_ids].
    apply items_cons; [done|done|by destruct Hd2 as (_ & ? & _)|done].
Qed.

(** Sorted by their strings, the ids still stand for the same entries. *)
Lemma sorted_ids_spec its ids ss : items_of its ids ss -> exists ids' ss', sorted_ids its = Some ids' /\ ids' ≡ₚ ids /\
  ss' ≡ₚ ss /\ StronglySorted lex_le ss' /\ forall P, Forall2 P ids ss -> Forall2 P ids' ss'.
Proof using.
  intros [Hi Ht Hs]. assert (Hok : Forall (Forall (item_ok snd)) its).
  { apply entries_keys in Ht as [_ Hok]. rewrite Forall_fmap in Hok. apply Forall_forall. intros it Hit. apply Forall_forall.
    intros x Hx. rewrite Forall_forall in Hok. apply (Hok x). apply list_elem_of_In, in_concat. exists it. by rewrite <- !list_elem_of_In. }
  destruct (sorted_iterator_spec snd (length (concat its) + 1) its ltac:(lia) Hok Hs) as (out & Hout & Hp & Hsort).
  exists out.*1, (text snd <$> out). split; [|split; [|split; [|split; [done|]]]].
  - unfold sorted_ids, entry_comparator. by rewrite Hout, bind_Some_eq.
  - by rewrite Hp, Hi.
  - rewrite Hp. by rewrite (items_text _ _ Ht).
  - intros P HP. rewrite <- Hi, <- (items_text _ _ Ht) in HP. apply Forall2_fmap. apply Forall2_fmap in HP. apply Forall_Forall2_diag. rewrite Hp. clear -HP.
    induction (concat its) as [|x l IH]; [constructor|]. apply Forall2_cons in HP as [? ?]. constructor; [done|by apply IH].
Qed.

Lemma arrange_stands {A} perm (inner E : list A) : permutation perm -> lenN E = lenN perm ->
  Forall2 (stands_for 0 E) perm inner -> arrange perm inner = E.
Proof using.
  intros Hp Hl Hst. pose proof (Forall2_length _ _ _ Hst) as Hlen.
  destruct (arrange_spec perm inner Hp) as [Hal Hget]; [unfold lenN; lia|]. apply list_eq_nget. intros o.
  destruct (N.lt_ge_cases o (lenN perm)) as [Hlt|Hge]; [|rewrite !(proj2 (nget_None _ _)); [done|lia|lia]].
  destruct (perm_onto perm o Hp Hlt) as [i Hi]. rewrite (Hget i o Hi). destruct (nget_lt inner i) as [x Hx].
  { apply nget_Some_lt in Hi. unfold lenN in *. lia. }
  rewrite Hx. pose proof (Forall2_lookup_lr _ _ _ _ _ _ Hst Hi Hx) as [_ H1]. by rewrite N.sub_0_r in H1.
Qed.

Lemma count_of_entries ls : Forall names_ok ls -> lenN (concat (entries_of_names <$> ls)) = count_of ls.
Proof using.
  induction 1 as [|n ls Hn _ IH]; [done|]. cbn [fmap list_fmap concat count_of foldr]. fold (count_of ls).
  rewrite lenN_app, IH. unfold size_of. by rewrite (proj1 (entries_of_names_spec n Hn)).
Qed.

Lemma predicate_count_of_entries ls : Forall names_ok ls -> lenN (concat (predicates_of_names <$> ls)) = predicate_count_of ls.
Proof using.
  induction 1 as [|n ls Hn _ IH]; [done|]. cbn [fmap list_fmap concat predicate_count_of foldr]. fold (predicate_count_of ls).
  rewrite lenN_app, IH. by rewrite (proj1 (predicates_of_names_spec n Hn)).
Qed.
End construct_spec.

(** The width that is calculated for [n] ids suits a wavelet tree. *)
Definition map_width `{Log2F32} (n : N) : Prop :=
  exists w, calculate_width n = Some w /\ w < 58 /\ n < 2 ^ w /\ w * n < 2 ^ 32.

(** [n] has the names of all layers, sorted, and their ids are the same. *)
Record merged (ls : list names) (n : names) : Prop := {
  merged_ok : names_ok n;
  merged_nodes : nodes n ≡ₚ concat (nodes <$> ls);
  merged_values : values n ≡ₚ concat (values <$> ls);
  merged_predicates : predicates n ≡ₚ concat (predicates <$> ls);
  merged_sorted : StronglySorted lex_le (nodes n) /\ StronglySorted lex_le (values n) /\ StronglySorted lex_le (predicates n);
  merged_entries : entries_of_names n = concat (entries_of_names <$> ls);
  merged_predicate_entries : predicates_of_names n = concat (predicates_of_names <$> ls)
}.

Lemma id_map_files `{FramedRead} `{Log2F32} n perm : map_width n -> permutation perm -> lenN perm = n ->
  exists w files m, calculate_width n = Some w /\ build_wavelet_tree_from_iter w perm = Ok files /\
    IdMap.from_maps files w = Some m /\ idmap_repr m perm.
Proof.
  intros (w & Hw & Hw64 & Hn & Hsz) Hp Hl.
  destruct (wavelet_files_spec w perm Hw64) as (files & wt & Hb & Hpw & Hwt & _).
  - destruct (N.eq_dec w 0) as [->|]; [left|right; lia]. apply length_zero_iff_nil. unfold lenN in Hl. cbn in Hn. lia.
  - apply Forall_forall. intros x [i Hi]%elem_nget. pose proof (perm_bound _ _ _ Hp Hi). lia.
  - by rewrite Hl.
  - exists w, files, (IdMap.from_parts (Some wt)). split; [done|]. split; [done|]. split; [|by split].
    destruct files as [[bits blocks] sblocks]. cbn in Hpw |- *. apply bind_Some in Hpw as (bi & -> & Hf). by rewrite bind_Some_eq, Hf.
Qed.

Lemma construct_spec `{BytesSize} `{FramedRead} `{Log2F32} debug ls nd pd vd nm pm :
  Forall names_ok ls -> Forall2 dict_repr nd (nodes <$> ls) -> Forall2 dict_repr pd (predicates <$> ls) ->
  Forall2 dict_repr vd (values <$> ls) -> Forall2 idmap_repr nm (node_value_perm <$> ls) -> Forall2 idmap_repr pm (predicate_perm <$> ls) ->
  map_width (count_of ls) -> map_width (predicate_count_of ls) -> count_of ls < 2 ^ 64 -> predicate_count_of ls < 2 ^ 64 ->
  exists files pfiles w pw m pm' n, construct_idmaps_from_structures debug nd pd vd nm pm = Ok (files, pfiles) /\
    calculate_width (count_of ls) = Some w /\ IdMap.from_maps files w = Some m /\
    calculate_width (predicate_count_of ls) = Some pw /\ IdMap.from_maps pfiles pw = Some pm' /\
    idmap_repr m (node_value_perm n) /\ idmap_repr pm' (predicate_perm n) /\ merged ls n.
Proof.
  intros Hok Hnd Hpd Hvd Hnm Hpm Hw Hpw Hc Hpc.
  assert (Hlook : forall {A} (R : A -> list (list N) -> Prop) (l : list A) (f : names -> list (list N)) k n,
    Forall2 R l (f <$> ls) -> ls.[k] = Some n -> exists d, l.[k] = Some d /\ R d (f n)).
  { intros A R l f k n HF Hk. destruct (Forall2_lookup_r _ _ _ (N.to_nat k) (f n) HF) as (d & Hd & HR); [|by exists d].
    rewrite list_lookup_fmap. unfold nget in Hk. by rewrite Hk. }
  assert (Hlook2 : forall (l : list IdMap.t) (f : names -> list N) k n,
    Forall2 idmap_repr l (f <$> ls) -> ls.[k] = Some n -> exists d, l.[k] = Some d /\ idmap_repr d (f n)).
  { intros l f k n HF Hk. destruct (Forall2_lookup_r _ _ _ (N.to_nat k) (f n) HF) as (d & Hd & HR); [|by exists d].
    rewrite list_lookup_fmap. unfold nget in Hk. by rewrite Hk. }
  destruct (node_iters_spec ls nd vd nm 0 0 Hnd) as (nits & Hn1 & Hn2); [|done|done|].
  { intros k n Hk. rewrite N.add_0_l. destruct (Hlook _ _ _ _ k n Hvd Hk) as (d & ? & ?). destruct (Hlook2 _ _ k n Hnm Hk) as (m & ? & ?). by exists d, m. }
  destruct (value_iters_spec ls vd nd nm 0 0 Hvd) as (vits & Hv1 & Hv2); [|done|done|].
  { intros k n Hk. rewrite N.add_0_l. destruct (Hlook _ _ _ _ k n Hnd Hk) as (d & ? & ?). destruct (Hlook2 _ _ k n Hnm Hk) as (m & ? & ?). by exists d, m. }
  destruct (predicate_iters_spec ls pd pm 0 0 Hpd) as (pits & Hp1 & Hp2); [|done|done|].
  { intros k n Hk. rewrite N.add_0_l. by apply Hlook2. }
  destruct (sorted_ids_spec _ _ _ Hn2) as (nids & ns & Hsn & Hnp & Hnsp & Hns & HnP).
  destruct (sorted_ids_spec _ _ _ Hv2) as (vids & vs & Hsv & Hvp & Hvsp & Hvs & HvP).
  destruct (sorted_ids_spec _ _ _ Hp2) as (pids & ps & Hsp & Hpp & Hpsp & Hps & HpP).
  assert (Hnv : nids ++ vids ≡ₚ seqN 0 (count_of ls)) by (rewrite Hnp, Hvp; by apply node_value_ids).
  assert (Hpi : pids ≡ₚ seqN 0 (predicate_count_of ls)) by (rewrite Hpp; by apply predicate_ids_perm).
  assert (Hl1 : lenN (nids ++ vids) = count_of ls) by (rewrite (lenN_perm _ _ Hnv); apply lenN_seqN).
  assert (Hl2 : lenN pids = predicate_count_of ls) by (rewrite (lenN_perm _ _ Hpi); apply lenN_seqN).
  assert (Hperm : permutation (nids ++ vids)) by (unfold permutation; by rewrite Hl1).
  assert (Hpperm : permutation pids) by (unfold permutation; by rewrite Hl2).
  destruct (id_map_files _ _ Hw Hperm Hl1) as (w & files & m & Hcw & Hb & Hm & Hmr).
  destruct (id_map_files _ _ Hpw Hpperm Hl2) as (pw & pfiles & pm' & Hcpw & Hpb & Hpm' & Hpmr).
  assert (Hstn : Forall2 (stands_for 0 (concat (entries_of_names <$> ls))) nids (Node <$> ns)).
  { apply Forall2_fmap_r, HnP. apply Forall2_fmap_r. by apply node_ids_stand. }
  assert (Hstv : Forall2 (stands_for 0 (concat (entries_of_names <$> ls))) vids (Value <$> vs)).
  { apply Forall2_fmap_r, HvP. apply Forall2_fmap_r. by apply value_ids_stand. }
  assert (Hstp : Forall2 (stands_for 0 (concat (predicates_of_names <$> ls))) pids ps) by (apply HpP; by apply predicate_ids_stand).
  exists files, pfiles, w, pw, m, pm', (mk_names ns vs ps (nids ++ vids) pids). split.
  { unfold construct_idmaps_from_structures. rewrite assert_true.
    2:{ apply orb_true_iff. right. rewrite !andb_true_iff, !N.eqb_eq. unfold lenN.
        rewrite (Forall2_length _ _ _ Hnd), (Forall2_length _ _ _ Hpd), (Forall2_length _ _ _ Hvd),
          (Forall2_length _ _ _ Hnm), (Forall2_length _ _ _ Hpm), !length_fmap. done. }
    cbn [or_panic]. rewrite bind_Ok_eq, Hn1. cbn [or_panic]. rewrite bind_Ok_eq. cbn [fst snd]. rewrite Hv1. cbn [or_panic].
    rewrite bind_Ok_eq, Hp1. cbn [or_panic]. rewrite bind_Ok_eq. cbn [fst snd]. rewrite Hsn, Hsv, Hsp. cbn [or_panic].
    rewrite !bind_Ok_eq, !N.add_0_l, Hcw. cbn [or_panic]. rewrite bind_Ok_eq, Hb, bind_Ok_eq, Hcpw. cbn [or_panic].
    by rewrite bind_Ok_eq, Hpb, bind_Ok_eq. }
  do 6 (split; [done|]). pose proof (Forall2_length _ _ _ Hstn) as Hnl. pose proof (Forall2_length _ _ _ Hstv) as Hvl.
  pose proof (Forall2_length _ _ _ Hstp) as Hpl. rewrite length_fmap in Hnl, Hvl. split; cbn [nodes values predicates node_value_perm predicate_perm].
  - repeat split; cbn; [done|rewrite lenN_app; unfold lenN; lia|done|unfold lenN; lia].
  - done.
  - done.
  - done.
  - done.
  - apply arrange_stands; [done|by rewrite count_of_entries|by apply Forall2_app].
  - apply arrange_stands; [done|by rewrite predicate_count_of_entries|done].
Qed.

Lemma sorted_unique l k : StronglySorted lex_lt l -> StronglySorted lex_le k -> k ≡ₚ l -> k = l.
Proof.
  intros Hl Hk Hp. assert (Hnd : NoDup l).
  { clear -Hl. induction Hl as [|x l _ IH Hx]; [constructor|]. constructor; [|done]. intros Hin. rewrite Forall_forall in Hx.
    by apply (lex_lt_irrefl x), Hx. }
  apply (StronglySorted_unique_strong lex_lt); [|apply sorted_strict; [done|by rewrite Hp]|done|done].
  intros x y _ _ Hxy Hyx. by destruct (lex_lt_not_refl x y).
Qed.

(** Merging dictionaries and building the maps of the merge. *)
Lemma merge_structures_spec `{BytesSize} `{FramedRead} `{Log2F32} debug ls nd pd vd nm pm :
  Forall names_ok ls -> Forall2 dict_repr nd (nodes <$> ls) -> Forall2 dict_repr pd (predicates <$> ls) ->
  Forall2 dict_repr vd (values <$> ls) -> Forall2 idmap_repr nm (node_value_perm <$> ls) -> Forall2 idmap_repr pm (predicate_perm <$> ls) ->
  map_width (count_of ls) -> map_width (predicate_count_of ls) -> count_of ls < 2 ^ 35 -> predicate_count_of ls < 2 ^ 35 ->
  Forall (fun sss => NoDup (concat sss) /\ total (concat sss) < 2 ^ 64 /\ lenN (concat sss) < 2 ^ 35)
    [nodes <$> ls; values <$> ls; predicates <$> ls] ->
  exists nfiles pfiles vfiles nd' pd' vd' files pfiles' w pw m pm' n,
    merge_dictionaries nd [] [] = Ok nfiles /\ PfcDict.parse nfiles.1 nfiles.2 = Ok nd' /\
    merge_dictionaries pd [] [] = Ok pfiles /\ PfcDict.parse pfiles.1 pfiles.2 = Ok pd' /\
    merge_dictionaries vd [] [] = Ok vfiles /\ PfcDict.parse vfiles.1 vfiles.2 = Ok vd' /\
    construct_idmaps_from_structures debug nd pd vd nm pm = Ok (files, pfiles') /\
    calculate_width (PfcDict.len nd' + PfcDict.len vd') = Some w /\ IdMap.from_maps files w = Some m /\
    calculate_width (PfcDict.len pd') = Some pw /\ IdMap.from_maps pfiles' pw = Some pm' /\
    names_repr nd' pd' vd' m pm' n /\ names_ok n /\
    entries_of_names n = concat (entries_of_names <$> ls) /\ predicates_of_names n = concat (predicates_of_names <$> ls).
Proof.
  intros Hok Hnd Hpd Hvd Hnm Hpm Hw Hpw Hc Hpc Hall.
  destruct (construct_spec debug ls nd pd vd nm pm) as (files & pfiles' & w & pw & m & pm' & n & Hcon & Hcw & Hm & Hcpw & Hpm' & Hmr & Hpmr & Hmerged);
    [done..|lia|lia|]. destruct Hmerged as [Hokn Hn1 Hv1 Hp1 (Hsn & Hsv & Hsp) He1 He2].
  apply Forall_cons in Hall as [(Hnn & Hnt & Hnl) Hall]. apply Forall_cons in Hall as [(Hvn & Hvt & Hvl) Hall].
  apply Forall_cons in Hall as [(Hpn & Hpt & Hpl) _].
  assert (Hmd : forall (ds : list PfcDict.t) (sss : list (list (list N))) ss0, Forall2 dict_repr ds sss -> NoDup (concat sss) ->
    total (concat sss) < 2 ^ 64 -> lenN (concat sss) < 2 ^ 35 -> ss0 ≡ₚ concat sss -> StronglySorted lex_le ss0 ->
    exists f d, merge_dictionaries ds [] [] = Ok f /\ PfcDict.parse f.1 f.2 = Ok d /\ dict_repr d ss0).
  { intros ds sss ss0 Hds Hn' Ht' Hl' Hss Hs0. destruct (merge_spec ds sss Hds Hn' Ht' Hl') as (ss & Hperm & Hss' & Hf).
    destruct (dict_build ss Hss') as (b & blocks & offsets & d & Hadd & Hfin & Hparse & Hr & _).
    exists (blocks, offsets), d. rewrite Hf. unfold dictionary_files. rewrite Hadd. cbn [or_panic]. rewrite bind_Ok_eq. cbn [fst snd].
    split; [done|]. split; [done|]. rewrite (sorted_unique ss ss0); [done|by destruct Hss' as (_ & ? & _)|done|by rewrite Hperm]. }
  destruct (Hmd _ _ _ Hnd Hnn Hnt Hnl Hn1 Hsn) as (nf & nd' & ? & ? & Hnr).
  destruct (Hmd _ _ _ Hpd Hpn Hpt Hpl Hp1 Hsp) as (pf & pd' & ? & ? & Hpr).
  destruct (Hmd _ _ _ Hvd Hvn Hvt Hvl Hv1 Hsv) as (vf & vd' & ? & ? & Hvr).
  exists nf, pf, vf, nd', pd', vd', files, pfiles', w, pw, m, pm', n. do 7 (split; [done|]).
  assert (Hl1 : PfcDict.len nd' + PfcDict.len vd' = count_of ls).
  { rewrite <- (count_of_entries ls Hok), <- He1. rewrite (proj1 (entries_of_names_spec n Hokn)). unfold PfcDict.len.
    by rewrite (proj1 Hnr), (proj1 Hvr). }
  assert (Hl2 : PfcDict.len pd' = predicate_count_of ls).
  { rewrite <- (predicate_count_of_entries ls Hok), <- He2. rewrite (proj1 (predicates_of_names_spec n Hokn)). unfold PfcDict.len. apply Hpr. }
  rewrite Hl1, Hl2. by do 5 (split; [done|]).
Qed.

(** ** Properties *)

(** A map whose wavelet tree was built over the ids of a dictionary's
    strings takes each place to its id and back, whatever the ids; it leaves
    numbers past its end alone. *)
Theorem idmap_inverse `{FramedRead} width perm files m :
  permutation perm -> 0 < width < 58 -> lenN perm <= 2 ^ width -> width * lenN perm < 2 ^ 32 ->
  build_wavelet_tree_from_iter width perm = Ok files -> IdMap.from_maps files width = Some m ->
  (forall i, i < lenN perm -> exists o, IdMap.inner_to_outer m i = Some o /\ perm.[i] = Some o /\ o < lenN perm /\
     IdMap.outer_to_inner m o = Some i) /\
  (forall o, o < lenN perm -> exists i, IdMap.outer_to_inner m o = Some i /\ IdMap.inner_to_outer m i = Some o) /\
  (forall i, lenN perm <= i -> IdMap.inner_to_outer m i = Some i /\ IdMap.outer_to_inner m i = Some i).
Proof.
  intros Hp Hw Hl Hsz Hb Hm. destruct (wavelet_files_spec width perm) as (files' & wt & Hb' & Hpw & Hwt & _); [lia|by right; lia| |done|].
  { apply Forall_forall. intros x [i Hi]%elem_nget. pose proof (perm_bound _ _ _ Hp Hi). lia. }
  rewrite Hb in Hb'. injection Hb' as <-. assert (Hr : idmap_repr m perm).
  { destruct files as [[bits blocks] sblocks]. cbn in Hpw, Hm. apply bind_Some in Hpw as (bi & Hbi & Hf).
    rewrite Hbi, bind_Some_eq, Hf, bind_Some_eq in Hm. injection Hm as <-. by split. }
  split; [|split].
  - intros i Hi. destruct (nget_lt perm i Hi) as [o Ho]. exists o. rewrite (inner_to_outer_spec m perm i Hr), Ho.
    split; [done|]. split; [done|]. split; [by eapply perm_bound|by eapply outer_to_inner_spec].
  - intros o Ho. destruct (perm_onto perm o Hp Ho) as [i Hi]. exists i. rewrite (inner_to_outer_spec m perm i Hr), Hi.
    split; [by eapply outer_to_inner_spec|done].
  - intros i Hi. rewrite (inner_to_outer_spec m perm i Hr), (proj2 (nget_None _ _)) by done.
    split; [done|]. by eapply outer_to_inner_past.
Qed.

Lemma idmap_inverse_witness : exists files m, build_wavelet_tree_from_iter (H := whole_file) 3 [2; 0; 4; 1; 3] = Ok files /\
  IdMap.from_maps files 3 = Some m /\
  (forall i, i < 5 -> exists o, IdMap.inner_to_outer m i = Some o /\ [2; 0; 4; 1; 3].[i] = Some o /\ o < 5 /\
     IdMap.outer_to_inner m o = Some i) /\
  (forall o, o < 5 -> exists i, IdMap.outer_to_inner m o = Some i /\ IdMap.inner_to_outer m i = Some o) /\
  (forall i, 5 <= i -> IdMap.inner_to_outer m i = Some i /\ IdMap.outer_to_inner m i = Some i).
Proof.
  eexists _, _. split; [vm_compute; reflexivity|]. split; [vm_compute; reflexivity|].
  eapply (idmap_inverse (H := whole_file) 3 [2; 0; 4; 1; 3]); [|done|by vm_compute|by vm_compute|vm_compute; reflexivity|vm_compute; reflexivity].
  unfold permutation. apply (bool_decide_unpack _). vm_compute. reflexivity.
Defined.

(** C29: merging the dictionaries of a stack of layers and building the id maps
    of the merge gives dictionaries and maps under which every id stands for
    the same node, value or predicate as in the stack. *)
Theorem merge_keeps_ids `{BytesSize} `{FramedRead} `{Log2F32} debug ls nd pd vd nm pm :
  Forall names_ok ls -> Forall2 dict_repr nd (nodes <$> ls) -> Forall2 dict_repr pd (predicates <$> ls) ->
  Forall2 dict_repr vd (values <$> ls) -> Forall2 idmap_repr nm (node_value_perm <$> ls) -> Forall2 idmap_repr pm (predicate_perm <$> ls) ->
  map_width (count_of ls) -> map_width (predicate_count_of ls) -> count_of ls < 2 ^ 35 -> predicate_count_of ls < 2 ^ 35 ->
  Forall (fun sss => NoDup (concat sss) /\ total (concat sss) < 2 ^ 64 /\ lenN (concat sss) < 2 ^ 35)
    [nodes <$> ls; values <$> ls; predicates <$> ls] ->
  exists nfiles pfiles vfiles nd' pd' vd' files pfiles' w pw m pm' n,
    merge_dictionaries nd [] [] = Ok nfiles /\ PfcDict.parse nfiles.1 nfiles.2 = Ok nd' /\
    merge_dictionaries pd [] [] = Ok pfiles /\ PfcDict.parse pfiles.1 pfiles.2 = Ok pd' /\
    merge_dictionaries vd [] [] = Ok vfiles /\ PfcDict.parse vfiles.1 vfiles.2 = Ok vd' /\
    construct_idmaps_from_structures debug nd pd vd nm pm = Ok (files, pfiles') /\
    calculate_width (PfcDict.len nd' + PfcDict.len vd') = Some w /\ IdMap.from_maps files w = Some m /\
    calculate_width (PfcDict.len pd') = Some pw /\ IdMap.from_maps pfiles' pw = Some pm' /\
    names_repr nd' pd' vd' m pm' n /\ names_ok n /\
    entries_of_names n = concat (entries_of_names <$> ls) /\ predicates_of_names n = concat (predicates_of_names <$> ls).
Proof. apply merge_structures_spec. Qed.

Definition sample_names : list names :=
  [mk_names [[97]; [99]] [[98]] [[112]] [0; 1; 2] [0]; mk_names [[98]] [[97]] [[97]; [113]] [1; 0] [0; 1]].

Lemma merge_keeps_ids_witness : exists n1 n2 v1 v2 p1 p2 m, idmap_repr m [1; 0] /\
  exists nfiles pfiles vfiles nd' pd' vd' files pfiles' w pw m' pm' n,
    merge_dictionaries (H := {| bytes_size := 32 |}) [n1; n2] [] [] = Ok nfiles /\ PfcDict.parse nfiles.1 nfiles.2 = Ok nd' /\
    merge_dictionaries (H := {| bytes_size := 32 |}) [p1; p2] [] [] = Ok pfiles /\ PfcDict.parse pfiles.1 pfiles.2 = Ok pd' /\
    merge_dictionaries (H := {| bytes_size := 32 |}) [v1; v2] [] [] = Ok vfiles /\ PfcDict.parse vfiles.1 vfiles.2 = Ok vd' /\
    construct_idmaps_from_structures (H := {| bytes_size := 32 |}) (H0 := whole_file) (H1 := exact_log2) true
      [n1; n2] [p1; p2] [v1; v2] [IdMap.default; m] [IdMap.default; IdMap.default] = Ok (files, pfiles') /\
    calculate_width (H := exact_log2) (PfcDict.len nd' + PfcDict.len vd') = Some w /\ IdMap.from_maps files w = Some m' /\
    calculate_width (H := exact_log2) (PfcDict.len pd') = Some pw /\ IdMap.from_maps pfiles' pw = Some pm' /\
    names_repr nd' pd' vd' m' pm' n /\ names_ok n /\
    entries_of_names n = [Node [97]; Node [99]; Value [98]; Value [97]; Node [98]] /\
    predicates_of_names n = [[112]; [97]; [113]].
Proof.
  destruct (id_map_files (H := whole_file) (H0 := exact_log2) 2 [1; 0]) as (w & files & m & _ & _ & _ & Hm);
    [exists 2; by vm_compute| |done|].
  { unfold permutation. apply (bool_decide_unpack _). vm_compute. reflexivity. }
  assert (Hd : forall ss, dict_input ss -> exists d, dict_repr d ss).
  { intros ss Hss. destruct (dict_build ss Hss) as (b & bl & off & d & _ & _ & _ & Hd & _). by exists d. }
  destruct (Hd [[97]; [99]]) as [n1 Hn1]; [concrete_input|]. destruct (Hd [[98]]) as [n2 Hn2]; [concrete_input|].
  destruct (Hd [[97]]) as [v2 Hv2]; [concrete_input|]. destruct (Hd [[112]]) as [p1 Hp1]; [concrete_input|].
  destruct (Hd [[97]; [113]]) as [p2 Hp2]; [concrete_input|]. exists n1, n2, n2, v2, p1, p2, m. split; [done|].
  apply (merge_keeps_ids (H := {| bytes_size := 32 |}) (H0 := whole_file) (H1 := exact_log2) true sample_names).
  - repeat constructor; apply (bool_decide_unpack _); vm_compute; reflexivity.
  - apply Forall2_cons_2; [done|]. apply Forall2_cons_2; [done|constructor].
  - apply Forall2_cons_2; [done|]. apply Forall2_cons_2; [done|constructor].
  - apply Forall2_cons_2; [done|]. apply Forall2_cons_2; [done|constructor].
  - apply Forall2_cons_2; [apply (idmap_default 3)|]. apply Forall2_cons_2; [done|constructor].
  - apply Forall2_cons_2; [apply (idmap_default 1)|]. apply Forall2_cons_2; [apply (idmap_default 2)|constructor].
  - exists 3. by vm_compute.
  - exists 2. by vm_compute.
  - by vm_compute.
  - by vm_compute.
  - repeat (apply Forall_cons; split); [..|constructor]; (split; [apply (bool_decide_unpack _); vm_compute; reflexivity|by vm_compute]).
Defined.
