(* ===== verification/Iterators.v ===== *)
(** * The triples of one layer, by object and by predicate
      (src/layer/internal/object_iterator.rs and predicate_iterator.rs)

    Both iterators give the triples of the two adjacency lists in another
    way: through the index by object, and through the positions at which the
    wavelet tree finds a predicate. *)

From S2P Require Import Prelude.
From S2P Require Import Words.
From S2P Require Import Codec.
From S2P Require Import LogArrays.
From S2P Require Import BitArrays.
From S2P Require Import BitIndexes.
From S2P Require Import AdjacencyLists.
From S2P Require Import WaveletTrees.
From S2P Require Import LayerTypes.
From S2P Require Import Triples.
From S2P Require Import TripleBuilder.
Open Scope N_scope.

Module InternalLayerTripleObjectIterator.

Record t : Type := mk {
  subjects : option LogArray.t;
  objects : option LogArray.t;
  o_ps_adjacency_list : AdjacencyList.t;
  s_p_adjacency_list : AdjacencyList.t;
  o_position : N;
  o_ps_position : N;
  peeked : option IdTriple.t
}.

Definition new (subjects objects : option LogArray.t) (o_ps_adjacency_list s_p_adjacency_list : AdjacencyList.t) : t :=
  mk subjects objects o_ps_adjacency_list s_p_adjacency_list 0 0 None.

(** The iterator at other positions, with nothing peeked. *)
Definition set_positions (it : t) (o_position o_ps_position : N) : t :=
  mk (subjects it) (objects it) (o_ps_adjacency_list it) (s_p_adjacency_list it) o_position o_ps_position None.

Definition seek_object_ref (it : t) (object : N) : option t :=
  if object =? 0 then Some (set_positions it 0 0)
  else
    o_position ← (match objects it with
                  | None => csub object 1
                  | Some objects => MonotonicLogArray.nearest_index_of objects object
                  end);
    left_count ← AdjacencyList.left_count (o_ps_adjacency_list it);
    o_ps_position ←
      (if left_count <=? o_position then Some (AdjacencyList.right_count (o_ps_adjacency_list it))
       else AdjacencyList.offset_for (o_ps_adjacency_list it) (o_position + 1));
    Some (set_positions it o_position o_ps_position).

(** The loop of [next]; [fuel] bounds the number of positions. *)
Fixpoint next_loop (fuel : nat) (it : t) : option (option IdTriple.t * t) :=
  match fuel with
  | O => None
  | S fuel =>
      if AdjacencyList.right_count (o_ps_adjacency_list it) <=? o_ps_position it then Some (None, it)
      else
        object ← (match objects it with
                  | Some objects => LogArray.entry objects (o_position it)
                  | None => Some (o_position it + 1)
                  end);
        o_ps_bit ← AdjacencyList.bit_at_pos (o_ps_adjacency_list it) (o_ps_position it);
        sp_pair_num ← AdjacencyList.num_at_pos (o_ps_adjacency_list it) (o_ps_position it);
        let o_position := if (o_ps_bit : bool) then o_position it + 1 else o_position it in
        let it := set_positions it o_position (o_ps_position it + 1) in
        if sp_pair_num =? 0 then next_loop fuel it
        else
          '(mapped_subject, predicate) ← AdjacencyList.pair_at_pos (s_p_adjacency_list it) (sp_pair_num - 1);
          subject ← (match subjects it with
                     | Some subjects => i ← csub mapped_subject 1; LogArray.entry subjects i
                     | None => Some mapped_subject
                     end);
          Some (Some (IdTriple.new subject predicate object), it)
  end.

Definition next (it : t) : option (option IdTriple.t * t) :=
  match peeked it with
  | Some peeked => Some (Some peeked, set_positions it (o_position it) (o_ps_position it))
  | None => next_loop (S (N.to_nat (AdjacencyList.right_count (o_ps_adjacency_list it)))) it
  end.

Definition set_peeked (it : t) (peeked : option IdTriple.t) : t :=
  mk (subjects it) (objects it) (o_ps_adjacency_list it) (s_p_adjacency_list it) (o_position it) (o_ps_position it) peeked.

Definition peek (it : t) : option (option IdTriple.t * t) :=
  '(r, it) ← next it;
  Some (r, set_peeked it r).

End InternalLayerTripleObjectIterator.

Module InternalLayerTriplePredicateIterator.

Record t : Type := mk {
  len : N;
  predicate_wavelet_lookup : WaveletLookup.t;
  subject_iterator : InternalLayerTripleSubjectIterator.t;
  predicate_pos : N;
  sp_boundary : bool;
  peeked : option IdTriple.t
}.

Definition new (predicate_wavelet_lookup : WaveletLookup.t) (subjects : option LogArray.t)
    (s_p_adjacency_list sp_o_adjacency_list : AdjacencyList.t) : option t :=
  len ← WaveletLookup.len predicate_wavelet_lookup;
  Some (mk len predicate_wavelet_lookup
          (InternalLayerTripleSubjectIterator.new subjects s_p_adjacency_list sp_o_adjacency_list) 0 true None).

Definition next_pos (it : t) : option (bool * t) :=
  if len it <=? predicate_pos it then Some (false, it)
  else
    s_p_pos ← WaveletLookup.entry (predicate_wavelet_lookup it) (predicate_pos it);
    subject_iterator ← InternalLayerTripleSubjectIterator.seek_s_p_pos (subject_iterator it) s_p_pos;
    Some (true, mk (len it) (predicate_wavelet_lookup it) subject_iterator (predicate_pos it + 1) (sp_boundary it) (peeked it)).

Definition subject_predicate (x : IdTriple.t) : N * N := (IdTriple.subject x, IdTriple.predicate x).

(** The end of [next]: the triple, and whether the next one belongs to another
    subject and predicate. *)
Definition advance (it : t) : option (option IdTriple.t * t) :=
  '(result, subject_iterator) ← InternalLayerTripleSubjectIterator.next (subject_iterator it);
  '(next, subject_iterator) ← InternalLayerTripleSubjectIterator.peek subject_iterator;
  let boundary := match next with
    | None => true
    | Some _ => negb (bool_decide (option_map subject_predicate next = option_map subject_predicate result))
    end in
  Some (result, mk (len it) (predicate_wavelet_lookup it) subject_iterator (predicate_pos it) boundary (peeked it)).

Definition set_peeked (it : t) (peeked : option IdTriple.t) : t :=
  mk (len it) (predicate_wavelet_lookup it) (subject_iterator it) (predicate_pos it) (sp_boundary it) peeked.

Definition next (it : t) : option (option IdTriple.t * t) :=
  match peeked it with
  | Some peeked => Some (Some peeked, set_peeked it None)
  | None =>
      '(more, it) ← (if sp_boundary it then next_pos it else Some (true, it));
      if (more : bool) then advance it else Some (None, it)
  end.

Definition peek (it : t) : option (option IdTriple.t * t) :=
  '(r, it) ← next it;
  Some (r, set_peeked it r).

End InternalLayerTriplePredicateIterator.

(** ** What a layer without the structures yields

    The [Opt..] iterators have nothing to yield when there is no iterator. *)

(** Iterators that can look ahead: [None] outside is a panic. *)
Class PeekIterator (I : Type) : Type := {
  it_next : I -> option (option IdTriple.t * I);
  it_peek : I -> option (option IdTriple.t * I)
}.

Section opt.
Context {I : Type}.

Definition opt_step (f : I -> option (option IdTriple.t * I)) (it : option I) : option (option IdTriple.t * option I) :=
  match it with
  | Some it => '(r, it) ← f it; Some (r, Some it)
  | None => Some (None, None)
  end.

Definition opt_seek (seek : I -> option I) (it : option I) : option (option I) :=
  match it with
  | Some it => it ← seek it; Some (Some it)
  | None => Some None
  end.
End opt.

Module OptInternalLayerTripleSubjectIterator.

Definition t : Type := option InternalLayerTripleSubjectIterator.t.
Definition next : t -> option (option IdTriple.t * t) := opt_step InternalLayerTripleSubjectIterator.next.
Definition peek : t -> option (option IdTriple.t * t) := opt_step InternalLayerTripleSubjectIterator.peek.
Definition seek_subject_ref (it : t) (subject : N) : option t :=
  opt_seek (fun it => InternalLayerTripleSubjectIterator.seek_subject_ref it subject) it.
Definition seek_subject_predicate_ref (it : t) (subject predicate : N) : option t :=
  opt_seek (fun it => InternalLayerTripleSubjectIterator.seek_subject_predicate_ref it subject predicate) it.

#[global] Instance peek_iterator : PeekIterator t := {| it_next := next; it_peek := peek |}.

End OptInternalLayerTripleSubjectIterator.

Module OptInternalLayerTripleObjectIterator.

Definition t : Type := option InternalLayerTripleObjectIterator.t.
Definition next : t -> option (option IdTriple.t * t) := opt_step InternalLayerTripleObjectIterator.next.
Definition peek : t -> option (option IdTriple.t * t) := opt_step InternalLayerTripleObjectIterator.peek.
Definition seek_object_ref (it : t) (object : N) : option t :=
  opt_seek (fun it => InternalLayerTripleObjectIterator.seek_object_ref it object) it.

#[global] Instance peek_iterator : PeekIterator t := {| it_next := next; it_peek := peek |}.

End OptInternalLayerTripleObjectIterator.

Module OptInternalLayerTriplePredicateIterator.

Definition t : Type := option InternalLayerTriplePredicateIterator.t.
Definition next : t -> option (option IdTriple.t * t) := opt_step InternalLayerTriplePredicateIterator.next.
Definition peek : t -> option (option IdTriple.t * t) := opt_step InternalLayerTriplePredicateIterator.peek.

#[global] Instance peek_iterator : PeekIterator t := {| it_next := next; it_peek := peek |}.

End OptInternalLayerTriplePredicateIterator.

(** Draining an iterator. *)
Fixpoint it_collect {I} `{PeekIterator I} (fuel : nat) (it : I) : option (list IdTriple.t) :=
  match fuel with
  | O => None
  | S fuel =>
      '(r, it) ← it_next it;
      match r with
      | None => Some []
      | Some x => xs ← it_collect fuel it; Some (x :: xs)
      end
  end.

(** [take_while], drained. *)
Fixpoint it_take_while {I} `{PeekIterator I} (fuel : nat) (it : I) (f : IdTriple.t -> bool) : option (list IdTriple.t) :=
  match fuel with
  | O => None
  | S fuel =>
      '(r, it) ← it_next it;
      match r with
      | None => Some []
      | Some x => if f x then xs ← it_take_while fuel it f; Some (x :: xs) else Some []
      end
  end.

(** ** The interface that the iterators satisfy *)

Class Yields (I : Type) `{PeekIterator I} (yields : I -> list IdTriple.t -> Prop) : Prop := {
  next_law it xs : yields it xs -> exists it', it_next it = Some (head xs, it') /\ yields it' (tail xs);
  peek_law it xs : yields it xs -> exists it', it_peek it = Some (head xs, it') /\ yields it' xs
}.

Section yields.
Context {I : Type} `{PeekIterator I} (yields : I -> list IdTriple.t -> Prop) `{!Yields I yields}.

(** The elements before the first one for which [f] is false. *)
Fixpoint list_while (f : IdTriple.t -> bool) (xs : list IdTriple.t) : list IdTriple.t :=
  match xs with
  | [] => []
  | x :: xs => if f x then x :: list_while f xs else []
  end.

Lemma it_take_while_spec f xs : forall it fuel, yields it xs -> (length xs < fuel)%nat ->
  it_take_while fuel it f = Some (list_while f xs).
Proof.
  induction xs as [|x xs IH]; intros it fuel Hy Hf; (destruct fuel as [|fuel]; [cbn in Hf; lia|]); cbn [it_take_while];
    destruct (next_law _ _ Hy) as (it' & -> & Hy'); rewrite bind_Some_eq; cbn [fst snd head tail] in *; [done|].
  cbn [list_while]. destruct (f x); [|done]. cbn [length] in Hf. by rewrite (IH it' fuel Hy' ltac:(lia)).
Qed.

Lemma it_collect_spec xs : forall it fuel, yields it xs -> (length xs < fuel)%nat -> it_collect fuel it = Some xs.
Proof.
  induction xs as [|x xs IH]; intros it fuel Hy Hf; (destruct fuel as [|fuel]; [cbn in Hf; lia|]); cbn [it_collect];
    destruct (next_law _ _ Hy) as (it' & -> & Hy'); rewrite bind_Some_eq; cbn [fst snd head tail] in *; [done|].
  cbn [length] in Hf. by rewrite (IH it' fuel Hy' ltac:(lia)).
Qed.
End yields.

(** The iterator yields the list, whatever it is made from. *)
Definition gives {I} `{PeekIterator I} (it : I) (xs : list IdTriple.t) : Prop :=
  exists yields, Yields I yields /\ yields it xs.

#[export] Instance gives_yields {I} `{PeekIterator I} : Yields I gives.
Proof.
  split; intros it xs (yields & Hlaw & Hy).
  - destruct (next_law it xs Hy) as (it' & Hn & Hy'). exists it'. split; [done|]. by exists yields.
  - destruct (peek_law it xs Hy) as (it' & Hn & Hy'). exists it'. split; [done|]. by exists yields.
Qed.

(** An optional iterator yields nothing when there is none. *)
Definition opt_yields {I} (yields : I -> list IdTriple.t -> Prop) (it : option I) (xs : list IdTriple.t) : Prop :=
  match it with Some it => yields it xs | None => xs = [] end.

Lemma opt_step_law {I} (f : I -> option (option IdTriple.t * I)) (yields : I -> list IdTriple.t -> Prop) g :
  (forall it xs, yields it xs -> exists it', f it = Some (head xs, it') /\ yields it' (g xs)) -> g [] = [] ->
  forall it xs, opt_yields yields it xs -> exists it', opt_step f it = Some (head xs, it') /\ opt_yields yields it' (g xs).
Proof.
  intros Hf Hg [it|] xs Hy; cbn in *.
  - destruct (Hf it xs Hy) as (it' & -> & Hy'). by exists (Some it').
  - subst xs. by exists None.
Qed.

#[export] Instance subject_yields subjs s_p sp_o subs sp spo (Hst : stored_as subjs s_p sp_o subs sp spo) :
  Yields OptInternalLayerTripleSubjectIterator.t (opt_yields (yields subjs s_p sp_o subs sp spo)).
Proof.
  split; apply opt_step_law; try done; intros it xs Hy.
  - destruct (next_yields _ _ _ _ _ _ Hst it xs Hy) as (it' & ? & ? & _). by exists it'.
  - by apply (peek_yields _ _ _ _ _ _ Hst).
Qed.

(** ** By object *)

(** Positions further on have a greater pair. *)
Lemma flat_increasing segs q q' x y : Forall (fun s => s <> []) segs -> Forall increasing segs ->
  (flat segs).[q] = Some x -> (flat segs).[q'] = Some y -> q < q' -> pair_lt x y.
Proof.
  destruct x as [l x], y as [l' y]. intros Hne Hinc Hx Hy Hlt.
  pose proof (flat_mono segs q q' _ _ Hne Hx Hy ltac:(lia)) as Hm. unfold pair_lt. cbn [fst snd] in *.
  destruct (N.eq_dec l l') as [->|]; [right|left; lia]. split; [done|].
  apply (flat_split _ Hne) in Hx as (pre & s & post & j & E & El & -> & Hj).
  apply (flat_split _ Hne) in Hy as (pre' & s' & post' & j' & E' & El' & -> & Hj').
  rewrite E in E'. apply app_inj_1 in E' as [-> E']; [|unfold lenN in *; lia]. injection E' as <- <-.
  rewrite E in Hinc. apply Forall_app in Hinc as [_ Hinc]. apply Forall_cons in Hinc as [Hinc _].
  apply (increasing_nget s j j'); [done|done|done|lia].
Qed.

Lemma omap_fmap {A B C} (g : A -> B) (f : B -> option C) (l : list A) : omap f (g <$> l) = omap (fun x => f (g x)) l.
Proof. induction l as [|x l IH]; [done|]. cbn. by rewrite IH. Qed.

(** The order by object, subject and predicate. *)
Definition object_lt (x y : IdTriple.t) : Prop :=
  IdTriple.object x < IdTriple.object y \/
  (IdTriple.object x = IdTriple.object y /\
   (IdTriple.subject x < IdTriple.subject y \/
    (IdTriple.subject x = IdTriple.subject y /\ IdTriple.predicate x < IdTriple.predicate y))).

Section by_object.
Import InternalLayerTripleObjectIterator.
Context (subjs : option LogArray.t) (s_p sp_o : AdjacencyList.t).
Context (subs : option (list N)) (sp spo : list (list N)).
Context (Hst : stored_as subjs s_p sp_o subs sp spo).
Context (objs : option LogArray.t) (o_ps : AdjacencyList.t).
Context (oidx : option (list N)) (ops : list (list N)).
Hypothesis Hops : al_repr o_ps ops.
Hypothesis Hobjs : subjects_repr objs oidx ops.
Hypothesis Hentries : entries_of oidx ops ≡ₚ swap <$> filter (fun p : N * N => p.2 <> 0) (flat spo).

(** The triple of an object and a position of the first list. *)
Definition object_triple (x : N * N) : option IdTriple.t :=
  '(l, p) ← (flat sp).[x.2 - 1];
  s ← subject_at subs l;
  Some (IdTriple.mk s p x.1).

Definition object_triples (l : list (N * N)) : list IdTriple.t := omap object_triple (omap (entry_of oidx) l).

Lemma ops_nonempty : Forall (fun s => s <> []) ops.
Proof. by destruct Hops. Qed.

Lemma object_at_total l : 1 <= l <= lenN ops -> exists o, subject_at oidx l = Some o /\
  (match objs with Some objects => LogArray.entry objects (l - 1) | None => Some (l - 1 + 1) end) = Some o.
Proof.
  intros Hl. unfold subjects_repr, subject_at in *. destruct objs as [la|], oidx as [xs|]; try done.
  - destruct Hobjs as (Hla & _ & Hlen & _). destruct (nget_lt xs (l - 1)) as [o Ho]; [lia|]. exists o.
    rewrite (la_entry _ _ _ Hla), Ho. replace (l =? 0) with false by (symmetry; apply N.eqb_neq; lia). done.
  - exists l. split; [done|]. f_equal. lia.
Qed.

(** An entry belongs to an element of the second list. *)
Lemma entry_row o k : (o, k) ∈ entries_of oidx ops -> exists q, (flat spo).[q] = Some (k, o) /\ o <> 0 /\ 1 <= k.
Proof.
  intros Hin. rewrite Hentries in Hin. apply list_elem_of_fmap in Hin as ([k' o'] & [= -> ->] & Hin).
  apply list_elem_of_filter in Hin as [Ho [q Hq]%elem_nget]. exists q. split; [done|]. split; [done|].
  by apply (flat_left _ (spo_nonempty _ _ _ _ _ _ Hst)) in Hq as [? _].
Qed.

Lemma entry_triple o k : (o, k) ∈ entries_of oidx ops -> exists l p s, (flat sp).[k - 1] = Some (l, p) /\
  subject_at subs l = Some s /\ 1 <= l /\ object_triple (o, k) = Some (IdTriple.mk s p o) /\
  triple_of subs sp (k, o) = Some (IdTriple.mk s p o).
Proof.
  intros (q & Hq & Ho & Hk)%entry_row. destruct (row_at _ _ _ _ _ _ Hst q k o Hq) as (l & p & s & _ & Hl & Hs & Hb & Htr & _).
  exists l, p, s. split; [done|]. split; [done|]. split; [lia|]. split.
  - unfold object_triple. cbn [fst snd]. rewrite Hl, bind_Some_eq. cbn [fst snd]. by rewrite Hs.
  - apply N.eqb_neq in Ho. by rewrite Ho in Htr.
Qed.

(** The triples by object are the triples, in another order. *)
Lemma object_triples_perm : object_triples (flat ops) ≡ₚ triples_of subs sp spo.
Proof using Hst Hentries.
  change (omap object_triple (entries_of oidx ops) ≡ₚ triples_of subs sp spo).
  assert (Hperm : omap (fun x => triple_of subs sp (swap x)) (entries_of oidx ops) ≡ₚ triples_of subs sp spo).
  { rewrite Hentries. rewrite omap_fmap.
    rewrite (omap_ext_Forall _ (triple_of subs sp)) by (apply Forall_true; by intros [k o]).
    apply reflexive_eq, omap_filter. intros [k o] Hz. unfold triple_of. cbn in *. destruct (N.eqb_spec o 0); [done|tauto]. }
  rewrite <- Hperm. apply reflexive_eq. apply omap_ext_Forall, Forall_forall. intros [o k] Hin.
  destruct (entry_triple o k Hin) as (l & p & s & _ & _ & _ & -> & Htr). unfold swap. cbn [fst snd]. by rewrite Htr.
Qed.

Lemma object_triples_sorted : StronglySorted pair_lt (entries_of oidx ops) -> StronglySorted object_lt (object_triples (flat ops)).
Proof using Hst Hentries.
  intros Hsorted.
  change (StronglySorted object_lt (omap object_triple (entries_of oidx ops))).
  assert (Hgen : forall l, StronglySorted pair_lt l -> Forall (fun x => x ∈ entries_of oidx ops) l ->
    StronglySorted object_lt (omap object_triple l)); [|apply Hgen; [done|by apply Forall_forall]].
  induction 1 as [|[o k] l Hs IH Hlt]; intros Hall; [constructor|]. apply Forall_cons in Hall as [Hin Hall].
  destruct (entry_triple o k Hin) as (l0 & p & s & Hk & Hsub & Hl0 & Hot & _). cbn. rewrite Hot. constructor; [by apply IH|].
  apply Forall_forall. intros x ([o' k'] & Hin' & Hx)%list_elem_of_omap. rewrite Forall_forall in Hlt, Hall.
  specialize (Hlt _ Hin'). pose proof (Hall _ Hin') as Hin2. destruct (entry_triple o' k' Hin2) as (l1 & p' & s' & Hk' & Hsub' & _ & Hot' & _).
  rewrite Hot' in Hx. injection Hx as <-. unfold object_lt, pair_lt in *. cbn in Hlt |- *.
  destruct Hlt as [|[-> Hkk]]; [by left|right]. split; [done|].
  destruct (entry_row _ _ Hin) as (_ & _ & _ & Hk1). destruct (entry_row _ _ Hin2) as (_ & _ & _ & Hk2).
  assert (Hlt : pair_lt (l0, p) (l1, p')).
  { apply (flat_increasing sp (k - 1) (k' - 1)); [apply (sp_nonempty _ _ _ _ _ _ Hst)|by destruct Hst as (_ & _ & _ & _ & [? _] & _)|done|done|lia]. }
  destruct Hlt as [Hlt|[Heq Hlt]]; cbn in *.
  - left. by apply (subject_at_lt _ _ _ _ _ _ Hst l0 l1).
  - right. subst l1. rewrite Hsub in Hsub'. by injection Hsub' as ->.
Qed.

Definition o_at_pos (it : t) (q : N) : Prop :=
  subjects it = subjs /\ objects it = objs /\ o_ps_adjacency_list it = o_ps /\ s_p_adjacency_list it = s_p /\
  o_ps_position it = q /\ forall l k, (flat ops).[q] = Some (l, k) -> o_position it = l - 1.

Definition object_triples_from (q : N) : list IdTriple.t := object_triples (dropN q (flat ops)).

Lemma o_next_loop_spec fuel : forall it q, o_at_pos it q -> peeked it = None -> lenN (flat ops) - q < N.of_nat fuel ->
  exists it' q', next_loop fuel it = Some (head (object_triples_from q), it') /\ o_at_pos it' q' /\ peeked it' = None /\
    object_triples_from q' = tail (object_triples_from q).
Proof.
  induction fuel as [|fuel IH]; intros it q Hat Hpk Hf; [lia|]. cbn [next_loop].
  pose proof Hat as (H1 & H2 & H3 & H4 & H5 & Hpos). rewrite H2, H3, H5.
  rewrite (al_right_count o_ps ops Hops), <- lenN_flat by apply ops_nonempty.
  destruct (N.leb_spec (lenN (flat ops)) q) as [Hge|Hlt].
  - exists it, q. assert (Hnil : object_triples_from q = []).
    { unfold object_triples_from, dropN. by rewrite drop_ge by (unfold lenN in Hge; lia). }
    rewrite Hnil. done.
  - destruct (nget_lt (flat ops) q Hlt) as [[l k] Hq]. rewrite (Hpos l k Hq).
    pose proof (flat_left _ ops_nonempty _ _ _ Hq) as Hl. destruct (object_at_total l Hl) as (o & Ho & ->). rewrite bind_Some_eq.
    destruct (al_at o_ps ops Hops _ _ _ Hq) as (_ & _ & -> & ->). rewrite !bind_Some_eq.
    set (it' := set_positions it _ _).
    assert (Hat' : o_at_pos it' (q + 1)).
    { split; [done|]. split; [done|]. split; [done|]. split; [done|]. split; [cbn; lia|]. intros l' k' Hq'.
      destruct (flat_next _ ops_nonempty _ _ _ Hq) as (Hbf & Hbt & _). cbn [o_position it' set_positions].
      destruct (bit_at (bits_of ops) q).
      - rewrite (Hbt eq_refl _ _ Hq'). lia.
      - destruct (Hbf eq_refl) as (k1 & Hk1). rewrite Hq' in Hk1. by injection Hk1 as -> _. }
    assert (Hdrop : object_triples_from q = option_list (x ← entry_of oidx (l, k); object_triple x) ++ object_triples_from (q + 1)).
    { unfold object_triples_from, object_triples. rewrite (dropN_cons _ _ _ Hq). cbn [omap list_omap].
      destruct (entry_of oidx (l, k)) as [x|]; [|done]. rewrite bind_Some_eq. cbn [omap list_omap]. by destruct (object_triple x). }
    assert (Hentry : entry_of oidx (l, k) = if k =? 0 then None else Some (o, k)).
    { unfold entry_of. cbn [fst snd]. destruct (k =? 0); [done|]. by rewrite Ho. }
    rewrite Hentry in Hdrop. destruct (N.eqb_spec k 0) as [->|Hk0].
    + cbn [option_list app mbind option_bind] in Hdrop. rewrite Hdrop. apply (IH it' (q + 1) Hat'); [done|lia].
    + assert (Hin : (o, k) ∈ entries_of oidx ops).
      { apply list_elem_of_omap. exists (l, k). split; [by eapply nget_elem|done]. }
      destruct (entry_triple o k Hin) as (l1 & p & s & Hk & Hs & Hl1 & Hot & _). rewrite bind_Some_eq, Hot in Hdrop.
      cbn [option_list app] in Hdrop. rewrite Hdrop. cbn [head tail].
      change (s_p_adjacency_list it') with (s_p_adjacency_list it). change (subjects it') with (subjects it). rewrite H1, H4.
      pose proof Hst as (Hsp & _). destruct (al_at s_p sp Hsp _ _ _ Hk) as (-> & _). rewrite bind_Some_eq. cbn [fst snd].
      pose proof (flat_left _ (sp_nonempty _ _ _ _ _ _ Hst) _ _ _ Hk) as Hlb.
      assert (Hsubj : match subjs with Some subjects => i ← csub l1 1; LogArray.entry subjects i | None => Some l1 end = Some s).
      { destruct (subject_at_total _ _ _ _ _ _ Hst l1 Hlb) as (s' & Hs' & He). rewrite Hs in Hs'. injection Hs' as <-.
        destruct subjs as [la|]; [by rewrite csub_Some, bind_Some_eq by lia|]. rewrite <- He. f_equal. lia. }
      rewrite Hsubj, bind_Some_eq. by exists it', (q + 1).
Qed.

Definition o_yields (it : t) (xs : list IdTriple.t) : Prop :=
  exists q, o_at_pos it q /\
    xs = match peeked it with Some x => x :: object_triples_from q | None => object_triples_from q end.

Lemma o_next_yields it xs : o_yields it xs -> exists it', next it = Some (head xs, it') /\ o_yields it' (tail xs) /\ peeked it' = None.
Proof.
  intros (q & Hat & ->). unfold next. destruct (peeked it) as [x|] eqn:Ep.
  - eexists. split; [done|]. split; [|done]. exists q. split; [|done].
    destruct Hat as (H1 & H2 & H3 & H4 & H5 & Hpos). by split.
  - pose proof Hat as (_ & _ & H3 & _). rewrite H3, (al_right_count o_ps ops Hops), <- lenN_flat by apply ops_nonempty.
    destruct (o_next_loop_spec (S (N.to_nat (lenN (flat ops)))) it q Hat Ep) as (it' & q' & -> & Hat' & Hp' & Ht); [lia|].
    exists it'. split; [done|]. split; [|done]. exists q'. by rewrite Hp', Ht.
Qed.

Lemma o_peek_yields it xs : o_yields it xs -> exists it', peek it = Some (head xs, it') /\ o_yields it' xs.
Proof.
  intros Hy. destruct (o_next_yields it xs Hy) as (it' & Hn & (q & Hat & Ht) & Hp). unfold peek. rewrite Hn, bind_Some_eq.
  cbn [fst snd]. eexists. split; [done|]. exists q. split.
  - destruct Hat as (H1 & H2 & H3 & H4 & H5 & Hpos). by split.
  - cbn [peeked set_peeked]. rewrite Hp in Ht. destruct xs as [|x xs]; cbn [head tail] in *; [done|by rewrite Ht].
Qed.

Lemma o_new_yields : o_yields (new subjs objs o_ps s_p) (object_triples (flat ops)).
Proof.
  exists 0. split; [|done]. split; [done|]. split; [done|]. split; [done|]. split; [done|]. split; [done|]. intros l k Hq.
  pose proof (flat_first ops ops_nonempty _ Hq) as Hl. cbn [fst] in Hl. by subst l.
Qed.

(** Seeking an object skips the triples with lower objects. *)
Definition from_object (object : N) (x : IdTriple.t) : Prop := object <= IdTriple.object x.

#[export] Instance from_object_dec object x : Decision (from_object object x).
Proof. unfold from_object. apply _. Defined.

(** A triple and the element of the index it comes from. *)
Lemma object_triple_row l x : x ∈ object_triples l -> exists i k, (i, k) ∈ l /\ k <> 0 /\ subject_at oidx i = Some (IdTriple.object x).
Proof.
  intros ([o k] & ([i k'] & Hin & He)%list_elem_of_omap & Hx)%list_elem_of_omap. unfold entry_of in He. cbn [fst snd] in He.
  destruct (N.eqb_spec k' 0) as [|Hk]; [done|]. destruct (subject_at oidx i) as [o'|] eqn:Ho; [|done]. injection He as -> ->.
  exists i, k. split; [done|]. split; [done|]. unfold object_triple in Hx. cbn [fst snd] in Hx.
  destruct ((flat sp).[k - 1]) as [[l1 p]|]; [|done]. rewrite bind_Some_eq in Hx. cbn [fst snd] in Hx.
  destruct (subject_at subs l1); [|done]. rewrite bind_Some_eq in Hx. by injection Hx as <-.
Qed.

Lemma seek_object_spec it object : subjects it = subjs -> objects it = objs -> o_ps_adjacency_list it = o_ps ->
  s_p_adjacency_list it = s_p ->
  exists it', seek_object_ref it object = Some it' /\
    o_yields it' (filter (from_object object) (object_triples (flat ops))).
Proof.
  intros H1 H2 H3 H4. unfold seek_object_ref. destruct (N.eqb_spec object 0) as [->|Ho0].
  { eexists. split; [done|]. rewrite filter_all; [|apply Forall_true; unfold from_object; lia].
    pose proof o_new_yields as H. unfold set_positions. by rewrite H1, H2, H3, H4. }
  rewrite H2, H3, (al_left_count _ _ Hops).
  assert (Hpos : exists i, match objs with None => csub object 1 | Some objects => MonotonicLogArray.nearest_index_of objects object end = Some i /\
    forall l o, 1 <= l <= lenN ops -> subject_at oidx l = Some o -> (l <= i <-> o < object)).
  { unfold subjects_repr, subject_at in *. destruct objs as [la|], oidx as [xs|]; try done.
    - destruct Hobjs as (Hla & Hinc & _). exists (lt_count object xs). split; [by apply nearest_index_of_spec|].
      intros l o Hl Ho. destruct (N.eqb_spec l 0); [done|]. pose proof (lt_count_spec object xs (l - 1) o Hinc Ho). lia.
    - exists (object - 1). split; [by rewrite csub_Some by lia|]. intros l o Hl [= <-]. lia. }
  destruct Hpos as (i & -> & Hi). rewrite !bind_Some_eq.
  assert (Hbounds : forall l k, (l, k) ∈ flat ops -> 1 <= l <= lenN ops).
  { intros l k [q Hq]%elem_nget. by apply (flat_left _ ops_nonempty) in Hq. }
  destruct (N.leb_spec (lenN ops) i) as [Hge|Hlt].
  - rewrite bind_Some_eq, (al_right_count _ _ Hops). eexists. split; [done|]. exists (lenN (concat ops)). split.
    + split; [done|]. split; [done|]. split; [done|]. split; [done|]. split; [done|]. intros l k Hq%nget_Some_lt.
      rewrite lenN_flat in Hq by apply ops_nonempty. lia.
    + cbn [peeked set_positions]. unfold object_triples_from, dropN. rewrite drop_ge.
      2:{ pose proof (lenN_flat _ ops_nonempty) as Hl. unfold lenN in *. lia. }
      apply filter_none, Forall_forall. intros x (l & k & Hin & _ & Ho)%object_triple_row. unfold from_object.
      pose proof (Hbounds l k Hin) as Hl. specialize (Hi l _ Hl Ho). lia.
  - destruct (al_offset o_ps ops Hops (i + 1)) as (q & k0 & -> & Hq & Hbefore); [lia|]. rewrite bind_Some_eq.
    eexists. split; [done|]. exists q. split.
    + split; [done|]. split; [done|]. split; [done|]. split; [done|]. split; [done|]. intros l k Hlk. rewrite Hq in Hlk.
      injection Hlk as <- <-. cbn [o_position set_positions]. lia.
    + cbn [peeked set_positions]. unfold object_triples_from. rewrite <- (takeN_dropN q (flat ops)) at 1.
      unfold object_triples at 1. rewrite !omap_app. apply filter_suffix; apply Forall_forall; unfold from_object;
        intros x (l & k & Hin & _ & Ho)%object_triple_row.
      * apply elem_nget in Hin as [q' Hq']. pose proof (nget_Some_lt _ _ _ Hq') as Hl. rewrite lenN_takeN in Hl.
        rewrite nget_takeN in Hq' by lia. assert (l < i + 1) by (apply (Hbefore q' l k); [lia|done]).
        pose proof (flat_left _ ops_nonempty _ _ _ Hq') as Hlb. specialize (Hi l _ Hlb Ho). lia.
      * apply elem_nget in Hin as [q' Hq']. rewrite nget_dropN in Hq'.
        pose proof (flat_mono ops q (q + q') _ _ ops_nonempty Hq Hq' ltac:(lia)) as Hm. cbn in Hm.
        pose proof (flat_left _ ops_nonempty _ _ _ Hq') as Hlb. specialize (Hi l _ Hlb Ho). lia.
Qed.
End by_object.

#[export] Instance object_yields subjs s_p sp_o subs sp spo (Hst : stored_as subjs s_p sp_o subs sp spo) objs o_ps oidx ops
    (Hops : al_repr o_ps ops) (Hobjs : subjects_repr objs oidx ops)
    (Hentries : entries_of oidx ops ≡ₚ swap <$> filter (fun p : N * N => p.2 <> 0) (flat spo)) :
  Yields OptInternalLayerTripleObjectIterator.t (opt_yields (o_yields subjs s_p subs sp objs o_ps oidx ops)).
Proof.
  split; apply opt_step_law; try done; intros it xs Hy.
  - destruct (o_next_yields _ _ _ _ _ _ Hst objs o_ps oidx ops Hops Hobjs Hentries it xs Hy) as (it' & ? & ? & _). by exists it'.
  - by apply (o_peek_yields _ _ _ _ _ _ Hst objs o_ps oidx ops Hops Hobjs Hentries).
Qed.

(** ** By predicate *)

(** What a lookup in a wavelet tree finds. *)
Lemma lookup_positions wt xs e : wt_repr wt xs ->
  match positions e xs with
  | [] => lookup wt e = Some None
  | ps => exists l, lookup wt e = Some (Some l) /\ WaveletLookup.len l = Some (lenN ps) /\
      forall i k, ps.[i] = Some k -> WaveletLookup.entry l i = Some k
  end.
Proof.
  intros Hr. destruct (positions_spec e xs) as [Hlen Hpos]. pose proof Hr as (HW & Hxs & _).
  destruct (N.lt_ge_cases e (2 ^ WaveletTree.num_layers wt)) as [He|Hge].
  - pose proof (lookup_spec wt xs Hr e He) as Hl. pose proof (lookup_len wt xs Hr e He) as Hll. rewrite <- Hlen in Hll.
    destruct (positions e xs) as [|p ps] eqn:E.
    + rewrite decide_False in Hl; [done|]. intros [q Hq]%elem_nget.
      assert (Hz : e ∈ filter (fun x => x = e) xs) by (apply list_elem_of_filter; split; [done|by eapply nget_elem]).
      change (lenN []) with 0 in Hlen. destruct (filter (fun x => x = e) xs); [by apply elem_of_nil in Hz|].
      rewrite lenN_cons in Hlen. lia.
    + destruct (Hpos 0 p eq_refl) as [Hp _]. rewrite decide_True in Hl by (by eapply nget_elem).
      eexists. split; [exact Hl|]. split; [exact Hll|]. intros i k [Hk Hc]%Hpos. by apply (lookup_entry wt xs Hr e He k i).
  - assert (Hnil : positions e xs = []).
    { destruct (positions e xs) as [|p ps]; [done|]. destruct (Hpos 0 p eq_refl) as [Hp _].
      pose proof (Forall_nget _ _ _ _ Hxs Hp) as Hlt. cbn in Hlt. lia. }
    rewrite Hnil. unfold lookup, pow2_u64. replace (WaveletTree.num_layers wt =? 0) with false by (symmetry; apply N.eqb_neq; lia).
    replace (WaveletTree.num_layers wt <? 64) with true by (symmetry; apply N.ltb_lt; lia). rewrite bind_Some_eq.
    by replace (2 ^ WaveletTree.num_layers wt <=? e) with true by (symmetry; by apply N.leb_le).
Qed.

Lemma lookup_wavelet_of wt xs e : wavelet_of wt xs ->
  match positions e xs with
  | [] => lookup wt e = Some None
  | ps => exists l, lookup wt e = Some (Some l) /\ WaveletLookup.len l = Some (lenN ps) /\
      forall i k, ps.[i] = Some k -> WaveletLookup.entry l i = Some k
  end.
Proof.
  intros [Hr|[Hz ->]]; [by apply lookup_positions|]. cbn. unfold lookup. by rewrite Hz.
Qed.

Section by_predicate.
Import InternalLayerTriplePredicateIterator.
Context (subjs : option LogArray.t) (s_p sp_o : AdjacencyList.t).
Context (subs : option (list N)) (sp spo : list (list N)).
Context (Hst : stored_as subjs s_p sp_o subs sp spo).

(** The triples of a position of the first list. *)
Definition row (k : N) : list IdTriple.t := omap (triple_of subs sp) (pair (k + 1) <$> default [] (spo.[k])).
Definition rows (ks : list N) : list IdTriple.t := concat (row <$> ks).

Lemma rows_from m : forall k, k <= lenN spo -> N.to_nat (lenN spo - k) = m ->
  omap (triple_of subs sp) (flat_from (k + 1) (dropN k spo)) = rows (seqN k (lenN spo - k)).
Proof using Hst.
  induction m as [|m IH]; intros k Hk Hm.
  - replace (lenN spo - k) with 0 by lia. replace (dropN k spo) with (@nil (list N)); [done|].
    symmetry. unfold dropN. apply drop_ge. unfold lenN in *. lia.
  - destruct (nget_lt spo k) as [seg Hseg]; [lia|]. rewrite (dropN_cons _ _ _ Hseg). rewrite (seqN_cons k) by lia.
    pose proof (Forall_nget _ _ _ _ (spo_nonempty _ _ _ _ _ _ Hst) Hseg) as Hne. cbn in Hne.
    rewrite flat_from_cons, omap_app by done. unfold rows. cbn [fmap list_fmap concat]. f_equal.
    + unfold row. by rewrite Hseg.
    + rewrite IH by lia. unfold rows. do 3 f_equal. lia.
Qed.

Lemma triples_rows : triples_of subs sp spo = rows (seqN 0 (lenN spo)).
Proof using Hst. pose proof (rows_from (N.to_nat (lenN spo)) 0) as H. rewrite !N.sub_0_r in H. apply H; [lia|done]. Qed.

(** The triples of one position share subject and predicate. *)
Lemma row_of k p : (concat sp).[k] = Some p -> p <> 0 -> exists l s seg, (flat sp).[k] = Some (l, p) /\
  subject_at subs l = Some s /\ spo.[k] = Some seg /\ seg <> [] /\ row k = IdTriple.mk s p <$> seg.
Proof.
  intros Hp Hp0. pose proof Hst as (Hsp & Hspo & _ & Hlen & [_ Hgap] & _). pose proof (nget_Some_lt _ _ _ Hp) as Hk.
  destruct (nget_lt spo k) as [seg Hseg]; [lia|].
  pose proof (flat_get sp k p (sp_nonempty _ _ _ _ _ _ Hst) Hp) as Hf. set (l := 1 + _) in Hf.
  pose proof (flat_left _ (sp_nonempty _ _ _ _ _ _ Hst) _ _ _ Hf) as Hl.
  destruct (subject_at_total _ _ _ _ _ _ Hst l Hl) as (s & Hs & _). exists l, s, seg. split; [done|]. split; [done|].
  split; [done|]. split; [by apply (Forall_nget _ _ _ _ (spo_nonempty _ _ _ _ _ _ Hst) Hseg)|].
  specialize (Hgap k p seg Hp Hseg). apply N.eqb_neq in Hp0. rewrite Hp0 in Hgap. unfold row. rewrite Hseg. cbn [default].
  unfold id. clear Hseg. induction Hgap as [|o seg Ho _ IH]; [done|]. cbn [fmap list_fmap omap list_omap].
  unfold triple_of at 1. cbn [fst snd]. apply N.eqb_neq in Ho. rewrite Ho, N.add_sub, Hf, bind_Some_eq. cbn [fst snd].
  rewrite Hs, bind_Some_eq. f_equal. exact IH.
Qed.

Lemma row_zero k : (concat sp).[k] = Some 0 -> row k = [].
Proof.
  intros Hp. pose proof Hst as (Hsp & Hspo & _ & Hlen & [_ Hgap] & _). pose proof (nget_Some_lt _ _ _ Hp) as Hk.
  destruct (nget_lt spo k) as [seg Hseg]; [lia|]. specialize (Hgap k 0 seg Hp Hseg). cbn in Hgap. unfold row.
  rewrite Hseg, Hgap. done.
Qed.

Lemma row_predicate k x : x ∈ row k -> (concat sp).[k] = Some (IdTriple.predicate x).
Proof.
  intros Hx. destruct (spo.[k]) as [seg|] eqn:Hseg; [|unfold row in Hx; rewrite Hseg in Hx; by apply elem_of_nil in Hx].
  pose proof (nget_Some_lt _ _ _ Hseg) as Hk. pose proof Hst as (_ & _ & _ & Hlen & _).
  destruct (nget_lt (concat sp) k) as [p Hp]; [lia|]. destruct (N.eq_dec p 0) as [->|Hp0].
  { rewrite row_zero in Hx by done. by apply elem_of_nil in Hx. }
  destruct (row_of k p Hp Hp0) as (l & s & seg' & _ & _ & _ & _ & Hr). rewrite Hr in Hx.
  by apply list_elem_of_fmap in Hx as (o & -> & _).
Qed.

Lemma filter_rows e ks : filter (fun x => IdTriple.predicate x = e) (rows ks) =
  rows (filter (fun k => (concat sp).[k] = Some e) ks).
Proof using Hst.
  unfold rows. induction ks as [|k ks IH]; [done|]. cbn [fmap list_fmap concat]. rewrite filter_app, IH, filter_cons.
  destruct (decide ((concat sp).[k] = Some e)) as [He|He].
  - cbn [fmap list_fmap concat]. f_equal. apply filter_all, Forall_forall. intros x Hx%row_predicate. congruence.
  - replace (filter (fun x => IdTriple.predicate x = e) (row k)) with (@nil IdTriple.t); [done|]. symmetry.
    apply filter_none, Forall_forall. intros x Hx%row_predicate Hxe. apply He. congruence.
Qed.

Lemma row_later k p l s x : (flat sp).[k] = Some (l, p) -> subject_at subs l = Some s ->
  x ∈ rows (seqN (k + 1) (lenN spo - (k + 1))) -> subject_predicate x <> (s, p).
Proof using Hst.
  intros Hk Hs Hx E. unfold rows in Hx. apply elem_of_concat in Hx as (r & Hr & Hx). apply list_elem_of_fmap in Hr as (k' & -> & Hk').
  apply elem_nget in Hk' as [i Hi]. pose proof (nget_Some_lt _ _ _ Hi) as Hil. rewrite lenN_seqN in Hil.
  rewrite nget_seqN in Hi by done. injection Hi as <-. pose proof (row_predicate _ _ Hx) as Hp. injection E as Es Ep.
  destruct (N.eq_dec (IdTriple.predicate x) 0) as [Hz|Hz].
  { rewrite Hz in Hp. rewrite (row_zero _ Hp) in Hx. by apply elem_of_nil in Hx. }
  destruct (row_of _ _ Hp Hz) as (l' & s' & seg & Hk' & Hs' & _ & _ & Hrow). rewrite Hrow in Hx.
  apply list_elem_of_fmap in Hx as (o & Hxo & _). rewrite Hxo in Es, Ep. cbn in Es, Ep. rewrite Ep in *. subst s'.
  pose proof (sp_nonempty _ _ _ _ _ _ Hst) as Hne. pose proof (flat_left _ Hne _ _ _ Hk) as Hl.
  pose proof (flat_left _ Hne _ _ _ Hk') as Hl'.
  assert (l' = l) as ->.
  { destruct (N.lt_trichotomy l l') as [Hlt|[|Hlt]]; [|done|].
    - pose proof (subject_at_lt _ _ _ _ _ _ Hst l l' _ _ Hs Hs' ltac:(lia) Hlt). lia.
    - pose proof (subject_at_lt _ _ _ _ _ _ Hst l' l _ _ Hs' Hs ltac:(lia) Hlt). lia. }
  assert (k = k + 1 + i); [|lia].
  apply (flat_inj sp _ _ (l, p) Hne); [by destruct Hst as (_ & _ & _ & _ & [? _] & _)|done|done].
Qed.

Lemma yields_source it xs : yields subjs s_p sp_o subs sp spo it xs -> same_source subjs s_p sp_o it.
Proof using. by intros (q & (H1 & H2 & H3 & _) & _). Qed.

Lemma seek_row it k l p : same_source subjs s_p sp_o it -> (flat sp).[k] = Some (l, p) ->
  exists it', InternalLayerTripleSubjectIterator.seek_s_p_pos it k = Some it' /\
    yields subjs s_p sp_o subs sp spo it' (rows (seqN k (lenN spo - k))).
Proof using Hst.
  intros Hit Hk. destruct (seek_s_p_pos_spec _ _ _ _ _ _ Hst it k l p Hit Hk) as (it' & q & Hseek & Hy & Hq).
  exists it'. split; [done|]. pose proof (nget_Some_lt _ _ _ Hk) as Hkl. rewrite (flat_sp_len _ _ _ _ _ _ Hst) in Hkl.
  replace (rows (seqN k (lenN spo - k))) with (triples_from subs sp spo q); [done|]. unfold triples_from.
  rewrite <- (rows_from (N.to_nat (lenN spo - k)) k) by lia. f_equal.
  pose proof (spo_nonempty _ _ _ _ _ _ Hst) as Hne.
  assert (Hne' : Forall (fun s : list N => s <> []) (takeN k spo) /\ Forall (fun s : list N => s <> []) (dropN k spo)).
  { rewrite <- Forall_app. by rewrite takeN_dropN. }
  destruct Hne' as [Hne1 Hne2].
  assert (Hsplit : flat spo = flat_from 1 (takeN k spo) ++ flat_from (k + 1) (dropN k spo)).
  { unfold flat. rewrite <- (takeN_dropN k spo) at 1 2. fold (flat_from 1 (takeN k spo ++ dropN k spo)).
    rewrite flat_from_app by done. rewrite lenN_takeN. do 2 f_equal. lia. }
  set (a := flat_from 1 (takeN k spo)) in *. set (b := flat_from (k + 1) (dropN k spo)) in *.
  assert (Ha : forall r k' o, a.[r] = Some (k', o) -> k' <= k).
  { intros r k' o Hr. pose proof (flat_left _ Hne1 _ _ _ Hr) as H. rewrite lenN_takeN in H. lia. }
  assert (Hb : exists k' o, b.[0] = Some (k', o) /\ k < k').
  { unfold b. destruct (nget_lt spo k Hkl) as [seg Hseg]. rewrite (dropN_cons _ _ _ Hseg).
    pose proof (Forall_nget _ _ _ _ Hne Hseg) as Hs. cbn in Hs. rewrite flat_from_cons by done. destruct seg as [|o seg]; [done|].
    exists (k + 1), o. split; [done|lia]. }
  assert (q = lenN a) as ->.
  { destruct (N.lt_trichotomy q (lenN a)) as [Hlt|[|Hgt]]; [|done|].
    - destruct (nget_lt a q Hlt) as [[k' o] Hr]. pose proof (Ha _ _ _ Hr) as Hle.
      assert (Hf : (flat spo).[q] = Some (k', o)) by (rewrite Hsplit; by rewrite nget_app_l).
      apply (Hq _ _ _ Hf) in Hle. lia.
    - destruct Hb as (k' & o & Hb0 & Hlt'). assert (Hf : (flat spo).[lenN a] = Some (k', o)).
      { rewrite Hsplit, nget_app_r by lia. by rewrite N.sub_diag. }
      apply (Hq _ _ _ Hf) in Hgt. lia. }
  rewrite Hsplit. apply dropN_app.
Qed.

Section lookup.
Context (lk : WaveletLookup.t) (e : N).
Hypothesis He : e <> 0.
Let ps := positions e (concat sp).
Hypothesis Hlen : WaveletLookup.len lk = Some (lenN ps).
Hypothesis Hent : forall i k, ps.[i] = Some k -> WaveletLookup.entry lk i = Some k.

Definition p_inv (it : t) (xs : list IdTriple.t) : Prop :=
  len it = lenN ps /\ predicate_wavelet_lookup it = lk /\ predicate_pos it <= lenN ps /\
  if sp_boundary it then same_source subjs s_p sp_o (subject_iterator it) /\ xs = rows (dropN (predicate_pos it) ps)
  else exists k pre rest, 0 < predicate_pos it /\ ps.[predicate_pos it - 1] = Some k /\ rest <> [] /\ row k = pre ++ rest /\
    yields subjs s_p sp_o subs sp spo (subject_iterator it) (rest ++ rows (seqN (k + 1) (lenN spo - (k + 1)))) /\
    xs = rest ++ rows (dropN (predicate_pos it) ps).

Lemma position_row k : k ∈ ps -> exists l s seg, (flat sp).[k] = Some (l, e) /\ subject_at subs l = Some s /\
  seg <> [] /\ row k = IdTriple.mk s e <$> seg.
Proof using Hst He.
  intros [i Hi]%elem_nget. destruct (positions_spec e (concat sp)) as [_ Hpos]. destruct (Hpos i k Hi) as [Hk _].
  destruct (row_of k e Hk He) as (l & s & seg & H1 & H2 & _ & H3 & H4). by exists l, s, seg.
Qed.

Lemma advance_spec it k pre x rest : len it = lenN ps -> predicate_wavelet_lookup it = lk -> predicate_pos it <= lenN ps ->
  0 < predicate_pos it -> ps.[predicate_pos it - 1] = Some k -> row k = pre ++ x :: rest ->
  yields subjs s_p sp_o subs sp spo (subject_iterator it) (x :: rest ++ rows (seqN (k + 1) (lenN spo - (k + 1)))) ->
  exists it', advance it = Some (Some x, it') /\ p_inv it' (rest ++ rows (dropN (predicate_pos it) ps)) /\ peeked it' = peeked it.
Proof using Hst He.
  intros H1 H2 H3 H4 Hk Hrow Hy. destruct (position_row k) as (l & s & seg & Hf & Hs & _ & Hseg); [by eapply nget_elem|].
  assert (Hin : forall y, y ∈ row k -> subject_predicate y = (s, e)).
  { intros y. rewrite Hseg. by intros (o & -> & _)%list_elem_of_fmap. }
  assert (Hx : subject_predicate x = (s, e)) by (apply Hin; rewrite Hrow; apply elem_of_app; right; by constructor).
  unfold advance. destruct (next_yields _ _ _ _ _ _ Hst _ _ Hy) as (it1 & -> & Hy1 & _). rewrite bind_Some_eq. cbn [fst snd head tail] in *.
  destruct (peek_yields _ _ _ _ _ _ Hst _ _ Hy1) as (it2 & -> & Hy2). rewrite bind_Some_eq. cbn [fst snd].
  eexists. split; [done|]. split; [|done]. split; [done|]. split; [done|]. split; [done|].
  cbn [sp_boundary subject_iterator predicate_pos]. destruct rest as [|y rest]; cbn [app head] in *.
  - assert (Hb : match head (rows (seqN (k + 1) (lenN spo - (k + 1)))) with
      | Some _ => negb (bool_decide (option_map subject_predicate (head (rows (seqN (k + 1) (lenN spo - (k + 1))))) = option_map subject_predicate (Some x)))
      | None => true end = true).
    { destruct (rows (seqN (k + 1) (lenN spo - (k + 1)))) as [|y ys] eqn:E; [done|]. cbn [head option_map].
      rewrite bool_decide_false; [done|]. rewrite Hx. intros [= Hc]. apply (row_later k e l s y Hf Hs); [rewrite E; by constructor|].
      unfold subject_predicate. congruence. }
    rewrite Hb. split; [by eapply yields_source|done].
  - assert (Hyin : subject_predicate y = (s, e)) by (apply Hin; rewrite Hrow; apply elem_of_app; right; by right; left).
    cbn [option_map]. rewrite Hyin, Hx, bool_decide_true by done. cbn [negb]. exists k, (pre ++ [x]), (y :: rest).
    rewrite <- app_assoc. done.
Qed.

Lemma p_next it xs : p_inv it xs -> peeked it = None ->
  exists it', next it = Some (head xs, it') /\ p_inv it' (tail xs) /\ peeked it' = None.
Proof using All.
  intros (H1 & H2 & H3 & Hb) Hpk. unfold next. rewrite Hpk. destruct (sp_boundary it) eqn:Eb.
  - destruct Hb as [Hsrc ->]. unfold next_pos. rewrite H1, H2. destruct (N.leb_spec (lenN ps) (predicate_pos it)) as [Hge|Hlt].
    + rewrite bind_Some_eq. cbn [fst snd]. exists it. assert (Hnil : dropN (predicate_pos it) ps = []).
      { unfold dropN. apply drop_ge. unfold lenN in *. lia. }
      rewrite Hnil. split; [done|]. split; [|done]. split; [done|]. split; [done|]. split; [done|]. rewrite Eb, Hnil. done.
    + destruct (nget_lt ps (predicate_pos it) Hlt) as [k Hk]. rewrite (Hent _ _ Hk), bind_Some_eq.
      destruct (position_row k) as (l & s & seg & Hf & Hs & Hseg & Hrow); [by eapply nget_elem|].
      destruct (seek_row _ k l e Hsrc Hf) as (sit & -> & Hy). rewrite !bind_Some_eq. cbn [fst snd].
      pose proof (nget_Some_lt _ _ _ Hf) as Hkl. rewrite (flat_sp_len _ _ _ _ _ _ Hst) in Hkl.
      rewrite (seqN_cons k) in Hy by lia. unfold rows in Hy. cbn [fmap list_fmap concat] in Hy.
      rewrite (dropN_cons _ _ _ Hk). unfold rows at 1 2. cbn [fmap list_fmap concat]. destruct seg as [|o seg]; [done|].
      rewrite Hrow in *. cbn [fmap list_fmap app head tail] in *.
      replace (lenN spo - k - 1) with (lenN spo - (k + 1)) in Hy by lia.
      destruct (advance_spec (mk (len it) lk sit (predicate_pos it + 1) (sp_boundary it) (peeked it)) k []
        (IdTriple.mk s e o) (IdTriple.mk s e <$> seg)) as (it' & Hadv & Hinv & Hp).
      * done.
      * done.
      * cbn. lia.
      * cbn. lia.
      * cbn. by rewrite N.add_sub.
      * done.
      * done.
      * rewrite H1 in Hadv. exists it'. rewrite Hadv. split; [done|]. split; [done|]. rewrite Hp. cbn. done.
  - destruct Hb as (k & pre & rest & Hi & Hk & Hne & Hrow & Hy & ->). destruct rest as [|x rest]; [done|].
    rewrite bind_Some_eq. cbn [fst snd]. destruct (advance_spec it k pre x rest) as (it' & Hadv & Hinv & Hp); try done.
    exists it'. rewrite Hadv. split; [done|]. split; [done|]. congruence.
Qed.

Definition p_yields (it : t) (xs : list IdTriple.t) : Prop :=
  exists ys, p_inv (set_peeked it None) ys /\ xs = match peeked it with Some x => x :: ys | None => ys end.

Lemma p_next_yields it xs : p_yields it xs -> exists it', next it = Some (head xs, it') /\ p_yields it' (tail xs) /\ peeked it' = None.
Proof using All.
  intros (ys & Hinv & ->). destruct (peeked it) as [x|] eqn:Ep.
  - unfold next. rewrite Ep. eexists. split; [done|]. split; [|done]. by exists ys.
  - assert (E : set_peeked it None = it) by (destruct it; cbn in *; by subst).
    rewrite E in Hinv. destruct (p_next it ys Hinv Ep) as (it' & Hn & Hinv' & Hp). exists it'. split; [done|]. split; [|done].
    exists (tail ys). rewrite Hp. split; [|done]. assert (E' : set_peeked it' None = it') by (destruct it'; cbn in *; by subst).
    by rewrite E'.
Qed.

Lemma p_peek_yields it xs : p_yields it xs -> exists it', peek it = Some (head xs, it') /\ p_yields it' xs.
Proof using All.
  intros Hy. destruct (p_next_yields it xs Hy) as (it' & Hn & (ys & Hinv & Ht) & Hp). unfold peek. rewrite Hn, bind_Some_eq.
  cbn [fst snd]. eexists. split; [done|]. exists ys. split; [done|].
  cbn [peeked set_peeked]. rewrite Hp in Ht. destruct xs as [|x xs]; cbn [head tail] in *; [done|by rewrite Ht].
Qed.

Lemma p_new_yields : exists it, new lk subjs s_p sp_o = Some it /\
  p_yields it (filter (fun x => IdTriple.predicate x = e) (triples_of subs sp spo)).
Proof using All.
  unfold new. rewrite Hlen, bind_Some_eq. eexists. split; [done|].
  eexists. split; [|cbn [peeked]; done]. split; [done|]. split; [done|]. split; [cbn; lia|]. cbn [sp_boundary set_peeked].
  split; [done|]. rewrite triples_rows, filter_rows. unfold ps, positions. cbn [predicate_pos set_peeked].
  pose proof Hst as (_ & _ & _ & -> & _). done.
Qed.
End lookup.
End by_predicate.

#[export] Instance predicate_yields subjs s_p sp_o subs sp spo (Hst : stored_as subjs s_p sp_o subs sp spo) lk e (He : e <> 0)
    (Hlen : WaveletLookup.len lk = Some (lenN (positions e (concat sp))))
    (Hent : forall i k, (positions e (concat sp)).[i] = Some k -> WaveletLookup.entry lk i = Some k) :
  Yields OptInternalLayerTriplePredicateIterator.t (opt_yields (p_yields subjs s_p sp_o subs sp spo lk e)).
Proof.
  split; apply opt_step_law; try done; intros it xs Hy.
  - destruct (p_next_yields _ _ _ _ _ _ Hst lk e He Hlen Hent it xs Hy) as (it' & ? & ? & _). by exists it'.
  - by apply (p_peek_yields _ _ _ _ _ _ Hst lk e He Hlen Hent).
Qed.

(** ** From the builder to the iterators *)

Section built.
Context `{FramedRead} `{Log2F32} `{ParSort}.
Context (debug sparse : bool) (nn np nv ns M : N) (T : list IdTriple.t).
Let ts := filter real_triple T.

(** Everything that is written about the triples [T] can be: the widths that
    are calculated up to [M] hold. *)
Definition layer_input : Prop :=
  (forall n, n <= M -> width_holds n) /\ (forall w, calculate_width np = Some w -> w < 58) /\ nn + nv < 2 ^ 64 /\ np <= M /\ nn + nv <= M /\ ns <= M /\
  lenN ts + left_bound sparse (lenN ts) ns <= M /\ 64 * (2 * lenN ts + left_bound sparse (lenN ts) ns + nn + nv + 1) < 2 ^ 32 /\
  triples_input sparse ns np (nn + nv) ts.

Lemma last_subject_bound : layer_input -> last_subject_of ts <= ns.
Proof using.
  intros (_ & _ & _ & _ & _ & _ & _ & _ & [_ Hb _]). unfold last_subject_of. destruct (last ts) as [x|] eqn:E; [|lia].
  apply last_Some in E as [pre E]. rewrite E in Hb. apply Forall_app in Hb as [_ Hb%Forall_inv]. cbn in Hb. lia.
Qed.

Lemma layer_input_widths : layer_input -> widths_hold sparse np (nn + nv) ts.
Proof using.
  intros Hin. pose proof (last_subject_bound Hin) as Hl. destruct Hin as (Hw & _ & Hn & Hb1 & Hb2 & Hb3 & _).
  split; [by apply Hw|]. split; [by apply Hw|]. intros _. apply Hw. lia.
Qed.

Lemma positions_bound w1 w2 subs sp spo : layer_input -> layout w1 w2 subs sp spo ts -> bool_decide (is_Some subs) = sparse ->
  max_left spo <= lenN ts + left_bound sparse (lenN ts) ns.
Proof using.
  intros Hin Hlay Hsp. pose proof (last_subject_bound Hin) as Hl. rewrite (layout_max Hlay).
  pose proof (lenN_concat_segments _ _ (layout_sp _ _ _ _ _ _ Hlay)) as Hc. pose proof (layout_sp_len _ _ _ _ _ _ Hlay) as Hlen.
  pose proof (layout_subjects _ _ _ _ _ _ Hlay) as Hs. pose proof (layout_last _ _ _ _ _ _ Hlay) as Hlast.
  unfold last_subject_of in Hl. unfold left_bound. rewrite <- Hsp. destruct subs as [xs|].
  - rewrite bool_decide_true by done. destruct Hs as (_ & _ & _ & ?). lia.
  - rewrite bool_decide_false by (by intros [? ?]). destruct (last ts) as [x|].
    + destruct Hlast as (_ & _ & [= Hx]). lia.
    + destruct Hlast as (-> & _). cbn in *. lia.
Qed.

(** The files of a layer's triples with its indexes. *)
Definition write_layer : outcome io_error
    (adjacency_files * adjacency_files * option (list N) *
     ((adjacency_files * option (list N)) * (list N * list N * list N))) :=
  '(s_p, sp_o, subjects) ← write_triples nn np nv sparse T;
  let '(_, _, _, s_p_nums) := s_p in
  let '(sp_o_bits, _, _, sp_o_nums) := sp_o in
  indexes ← build_indexes s_p_nums sp_o_bits sp_o_nums sparse;
  Ok (s_p, sp_o, subjects, indexes).

(** What is read from them. *)
Definition read_layer (files : adjacency_files * adjacency_files * option (list N) *
     ((adjacency_files * option (list N)) * (list N * list N * list N)))
    : option (option LogArray.t * AdjacencyList.t * AdjacencyList.t * option LogArray.t * AdjacencyList.t * WaveletTree.t) :=
  let '(triples, ((o_ps, objects), wavelet)) := files in
  '(subjs, s_p, sp_o) ← read_triples debug triples;
  objs ← parse_optional debug objects;
  o_ps ← parse_files debug o_ps;
  wt ← parse_wavelet wavelet (LogArray.width (AdjacencyList.nums s_p));
  Some (subjs, s_p, sp_o, objs, o_ps, wt).
End built.

(** The structures of a layer hold the triples [ts], with their indexes. *)
Definition holds (subjs : option LogArray.t) (s_p sp_o : AdjacencyList.t) (objs : option LogArray.t)
    (o_ps : AdjacencyList.t) (wt : WaveletTree.t) (ts : list IdTriple.t) : Prop :=
  exists subs sp spo oidx ops,
    stored_as subjs s_p sp_o subs sp spo /\ ts = triples_of subs sp spo /\
    al_repr o_ps ops /\ subjects_repr objs oidx ops /\
    entries_of oidx ops ≡ₚ swap <$> filter (fun p : N * N => p.2 <> 0) (flat spo) /\
    StronglySorted pair_lt (entries_of oidx ops) /\ wavelet_of wt (concat sp).

Lemma parse_nums debug nums bits blocks sblocks al : AdjacencyList.parse debug nums bits blocks sblocks = Some al ->
  LogArray.parse nums = Ok (AdjacencyList.nums al).
Proof.
  unfold AdjacencyList.parse, AdjacencyList.from_parts. destruct (LogArray.parse nums) as [la| |]; cbn [unwrap]; try done.
  rewrite bind_Some_eq. intros H. apply bind_Some in H as (b & _ & H). apply bind_Some in H as (sb & _ & H).
  repeat (apply bind_Some in H as (? & _ & H)). injection H as <-. done.
Qed.

(** The objects of the pairs are those of the triples. *)
Lemma layout_objects w1 w2 subs sp spo ts subjs s_p sp_o k o : layout w1 w2 subs sp spo ts ->
  stored_as subjs s_p sp_o subs (segments sp) (segments spo) -> (k, o) ∈ spo ->
  exists x, x ∈ ts /\ IdTriple.object x = o.
Proof.
  intros Hlay Hst Hin. pose proof (layout_triples _ _ _ _ _ _ Hlay) as <-.
  rewrite <- (pairs_from_segments w2 spo) in Hin by apply Hlay. rewrite <- filter_flat_from in Hin by apply segments_nonempty.
  apply list_elem_of_filter in Hin as [Ho [q Hq]%elem_nget]. cbn in Ho.
  destruct (row_at _ _ _ _ _ _ Hst q k o Hq) as (l & p & s & _ & _ & _ & _ & Htr & _).
  apply N.eqb_neq in Ho. rewrite Ho in Htr. exists (IdTriple.mk s p o). split; [|done].
  apply list_elem_of_omap. exists (k, o). split; [by eapply nget_elem|done].
Qed.

Lemma write_layer_spec `{FramedRead} `{Log2F32} `{ParSort} debug sparse nn np nv ns M T :
  layer_input sparse nn np nv ns M T ->
  exists files subjs s_p sp_o objs o_ps wt, write_layer sparse nn np nv T = Ok files /\
    read_layer debug files = Some (subjs, s_p, sp_o, objs, o_ps, wt) /\
    holds subjs s_p sp_o objs o_ps wt (filter real_triple T) /\ bool_decide (is_Some subjs) = sparse.
Proof.
  intros Hin. pose proof (layer_input_widths _ _ _ _ _ _ _ Hin) as Hws. pose proof Hin as (Hw & Hw1 & Hn & Hb1 & Hb2 & Hb3 & Hb4 & Hsz & Hti).
  destruct (write_triples_spec debug sparse nn np nv ns T Hn Hws Hti) as
    (w1 & w2 & b1 & bl1 & sl1 & n1 & b2 & bl2 & sl2 & n2 & sf & sp & spo & subs & Hcw1 & Hcw2 & Hwr & Hlay & Hsub & Hstr & _ & _ & (nums & Hnp & Hnr & Hnw) & subjs & s_p & sp_o & Hrd & Hst & Hts).
  pose proof (positions_bound _ _ _ _ _ _ _ _ _ _ _ _ Hin Hlay Hsub) as Hpos.
  pose proof Hst as (Hal & Halo & _). pose proof (layout_spo _ _ _ _ _ _ Hlay) as Hok.
  assert (Hobj : Forall (fun p => p.2 <= nn + nv) spo).
  { apply Forall_forall. intros [k o] Hin'. destruct (layout_objects _ _ _ _ _ _ _ _ _ _ _ Hlay Hst Hin') as (x & Hx & <-).
    destruct Hti as [_ Hb _]. rewrite Forall_forall in Hb. specialize (Hb x Hx). cbn. lia. }
  assert (Hidx : exists files objects_file, build_object_index b2 n2 sparse = Ok (files, objects_file) /\
    by_object debug files objects_file (par_sort_unstable (swap <$> spo))).
  { pose proof (layout_spo_len _ _ _ _ _ _ Hlay) as Hl. destruct sparse.
    - destruct (object_index_sparse w2 spo b2 n2 debug Hstr Hok) as (files & f & Hbi & Hbo); [apply Hw; lia|apply Hw; lia| |lia|].
      + eapply Forall_impl; [exact Hobj|]. intros x Hx. cbn in Hx. apply Hw. lia.
      + by exists files, (Some f).
    - destruct (object_index_dense w2 spo b2 n2 debug Hstr Hok ltac:(apply Hw; lia) (nn + nv) Hobj) as (files & Hbi & Hbo); [lia|].
      by exists files, None. }
  destruct Hidx as (ofiles & ofile & Hbi & (objs & oidx & o_ps & ops & Hpo & Hpobj & Hops & Hobjs & Hent)).
  destruct (predicate_index_spec n1 nums (concat (segments sp)) Hnp Hnr) as (wfiles & wt & Hbp & Hpw & Hwt & _).
  { rewrite Hnw. by apply Hw1. }
  { rewrite Hnw. specialize (Hw1 _ Hcw1). rewrite <- (layout_max Hlay). nia. }
  eexists _, subjs, s_p, sp_o, objs, o_ps, wt. split; [|split].
  - unfold write_layer, build_indexes. rewrite Hwr, bind_Ok_eq, Hbi, bind_Ok_eq, Hbp, !bind_Ok_eq. done.
  - unfold read_layer. rewrite Hrd, bind_Some_eq, Hpobj, bind_Some_eq, Hpo, bind_Some_eq.
    assert (Hnums : AdjacencyList.nums s_p = nums).
    { unfold read_triples, parse_files in Hrd. apply bind_Some in Hrd as (? & _ & Hrd). apply bind_Some in Hrd as (al & Hal1 & Hrd).
      apply bind_Some in Hrd as (? & _ & Hrd). injection Hrd as <- <- <-. apply parse_nums in Hal1. congruence. }
    by rewrite Hnums, Hpw.
  - split; [|rewrite <- Hsub; destruct Hst as (_ & _ & Hsr & _); by destruct subjs, subs].
    exists subs, (segments sp), (segments spo), oidx, ops. split; [done|]. split; [done|]. split; [done|]. split; [done|].
    assert (Hreal : filter (fun p : N * N => p.2 <> 0) (flat (segments spo)) = spo).
    { unfold flat. rewrite filter_flat_from by apply segments_nonempty. by apply (pairs_from_segments w2). }
    rewrite Hreal, Hent. split; [apply par_sort_permutation|]. split; [by apply (entries_sorted w2)|done].
Qed.

(** What a lookup of a predicate iterates over. *)
Lemma predicate_lookup subjs s_p sp_o subs sp spo wt e : stored_as subjs s_p sp_o subs sp spo -> wavelet_of wt (concat sp) -> e <> 0 ->
  match filter (fun x => IdTriple.predicate x = e) (triples_of subs sp spo) with
  | [] => lookup wt e = Some None
  | xs => exists l it, lookup wt e = Some (Some l) /\
      InternalLayerTriplePredicateIterator.new l subjs s_p sp_o = Some it /\
      WaveletLookup.len l = Some (lenN (positions e (concat sp))) /\
      (forall i k, (positions e (concat sp)).[i] = Some k -> WaveletLookup.entry l i = Some k) /\
      p_yields subjs s_p sp_o subs sp spo l e it xs
  end.
Proof.
  intros Hst Hwt He. pose proof (lookup_wavelet_of wt _ e Hwt) as Hl.
  assert (Hrows : filter (fun x => IdTriple.predicate x = e) (triples_of subs sp spo) = rows subs sp spo (positions e (concat sp))).
  { rewrite (triples_rows _ _ _ _ _ _ Hst), (filter_rows _ _ _ _ _ _ Hst). unfold positions. by destruct Hst as (_ & _ & _ & -> & _). }
  destruct (positions e (concat sp)) as [|k ps] eqn:Eps; [by rewrite Hrows|]. destruct Hl as (l & Hlk & Hlen & Hent).
  rewrite <- Eps in Hlen, Hent. destruct (p_new_yields _ _ _ _ _ _ Hst l e He Hlen Hent) as (it & Hnew & Hy).
  destruct (filter _ (triples_of subs sp spo)) as [|x xs] eqn:Ef; [|rewrite Eps in *; by exists l, it].
  exfalso. destruct (position_row _ _ _ _ _ _ Hst e He k) as (l0 & s & seg & _ & _ & Hne & Hrow); [rewrite Eps; by constructor|].
  unfold rows in Hrows. cbn [fmap list_fmap concat] in Hrows. rewrite Hrow in Hrows. by destruct seg.
Qed.

(** The index by object that is built from a layer's triples gives exactly
    these triples, ordered by object, then subject, then predicate; seeking an
    object skips precisely the triples with lower objects, whether or not the
    object occurs. *)
Theorem object_iteration `{FramedRead} `{Log2F32} `{ParSort} debug sparse nn np nv ns M T :
  layer_input sparse nn np nv ns M T ->
  exists files subjs s_p sp_o objs o_ps wt xs, write_layer sparse nn np nv T = Ok files /\
    read_layer debug files = Some (subjs, s_p, sp_o, objs, o_ps, wt) /\
    xs ≡ₚ filter real_triple T /\ StronglySorted object_lt xs /\
    let it : OptInternalLayerTripleObjectIterator.t := Some (InternalLayerTripleObjectIterator.new subjs objs o_ps s_p) in
    it_collect (S (length xs)) it = Some xs /\
    forall o, exists it', OptInternalLayerTripleObjectIterator.seek_object_ref it o = Some it' /\
      it_collect (S (length xs)) it' = Some (filter (from_object o) xs).
Proof.
  intros Hin. destruct (write_layer_spec debug sparse nn np nv ns M T Hin) as
    (files & subjs & s_p & sp_o & objs & o_ps & wt & Hw & Hr & (subs & sp & spo & oidx & ops & Hst & Hts & Hops & Hobjs & Hent & Hsort & _) & _).
  set (xs := object_triples subs sp oidx (flat ops)).
  pose proof (object_yields _ _ _ _ _ _ Hst objs o_ps oidx ops Hops Hobjs Hent) as Hlaw.
  exists files, subjs, s_p, sp_o, objs, o_ps, wt, xs. split; [done|]. split; [done|]. split.
  { rewrite Hts. by apply (object_triples_perm _ _ _ _ _ _ Hst). }
  split; [by apply (object_triples_sorted _ _ _ _ _ _ Hst)|]. cbv zeta. split.
  - eapply it_collect_spec; [exact Hlaw| |lia]. by apply o_new_yields.
  - intros o. destruct (seek_object_spec subjs s_p subs sp spo objs o_ps oidx ops Hops Hobjs Hent
      (InternalLayerTripleObjectIterator.new subjs objs o_ps s_p) o) as (it' & Hs & Hy); [done..|].
    exists (Some it'). split; [unfold OptInternalLayerTripleObjectIterator.seek_object_ref, opt_seek; by rewrite Hs|].
    eapply it_collect_spec; [exact Hlaw|exact Hy|]. pose proof (length_filter (from_object o) xs) as Hlen.
    fold xs. lia.
Qed.

(** A sort for the examples. *)
Definition pair_le (x y : N * N) : Prop := x.1 < y.1 \/ (x.1 = y.1 /\ x.2 <= y.2).

#[local] Instance pair_le_dec : RelDecision pair_le.
Proof. intros x y. unfold pair_le. apply _. Defined.
#[local] Instance pair_le_trans : Transitive pair_le.
Proof. intros x y z. unfold pair_le. lia. Qed.
#[local] Instance pair_le_total : Total pair_le.
Proof. intros x y. unfold pair_le. lia. Qed.

Definition merge_par_sort : ParSort.
Proof.
  refine {| par_sort_unstable := merge_sort pair_le |}.
  - apply merge_sort_Permutation.
  - apply StronglySorted_merge_sort; apply _.
Defined.

Lemma sample_layer_input : layer_input (H0 := exact_log2) true 5 3 2 5 10 sample_triples.
Proof.
  split; [intros; apply sample_width; lia|]. split.
  { intros w Hw. vm_compute in Hw. injection Hw as <-. done. }
  split; [done|]. split; [done|]. split; [done|]. split; [done|]. split; [by vm_compute|]. split; [by vm_compute|].
  apply sample_triples_input.
Qed.

Lemma object_iteration_witness : exists files subjs s_p sp_o objs o_ps wt xs,
    write_layer (H := whole_file) (H0 := exact_log2) (H1 := merge_par_sort) true 5 3 2 sample_triples = Ok files /\
    read_layer true files = Some (subjs, s_p, sp_o, objs, o_ps, wt) /\
    xs ≡ₚ filter real_triple sample_triples /\ StronglySorted object_lt xs /\
    let it : OptInternalLayerTripleObjectIterator.t := Some (InternalLayerTripleObjectIterator.new subjs objs o_ps s_p) in
    it_collect (S (length xs)) it = Some xs /\
    forall o, exists it', OptInternalLayerTripleObjectIterator.seek_object_ref it o = Some it' /\
      it_collect (S (length xs)) it' = Some (filter (from_object o) xs).
Proof.
  apply (object_iteration (H := whole_file) (H0 := exact_log2) (H1 := merge_par_sort) true true 5 3 2 5 10 sample_triples).
  exact sample_layer_input.
Defined.

(** Looking a predicate up in the wavelet tree that is built from a
    layer's triples finds nothing when no triple has it, and otherwise the
    iterator made from the lookup gives exactly the triples with that
    predicate, in order. *)
Theorem predicate_iteration `{FramedRead} `{Log2F32} `{ParSort} debug sparse nn np nv ns M T :
  layer_input sparse nn np nv ns M T ->
  exists files subjs s_p sp_o objs o_ps wt, write_layer sparse nn np nv T = Ok files /\
    read_layer debug files = Some (subjs, s_p, sp_o, objs, o_ps, wt) /\
    forall e, e <> 0 ->
    match filter (fun x => IdTriple.predicate x = e) (filter real_triple T) with
    | [] => lookup wt e = Some None
    | xs => exists l it, lookup wt e = Some (Some l) /\ InternalLayerTriplePredicateIterator.new l subjs s_p sp_o = Some it /\
        it_collect (S (length xs)) (Some it : OptInternalLayerTriplePredicateIterator.t) = Some xs
    end.
Proof.
  intros Hin. destruct (write_layer_spec debug sparse nn np nv ns M T Hin) as
    (files & subjs & s_p & sp_o & objs & o_ps & wt & Hw & Hr & (subs & sp & spo & oidx & ops & Hst & Hts & _ & _ & _ & _ & Hwt) & _).
  exists files, subjs, s_p, sp_o, objs, o_ps, wt. split; [done|]. split; [done|]. intros e He. rewrite Hts.
  pose proof (predicate_lookup _ _ _ _ _ _ wt e Hst Hwt He) as Hp.
  destruct (filter _ (triples_of subs sp spo)) as [|x xs]; [done|]. destruct Hp as (l & it & Hl & Hnew & Hlen & Hent & Hy).
  exists l, it. split; [done|]. split; [done|].
  eapply it_collect_spec; [exact (predicate_yields _ _ _ _ _ _ Hst l e He Hlen Hent)|exact Hy|lia].
Qed.

Lemma predicate_iteration_witness : exists files subjs s_p sp_o objs o_ps wt,
    write_layer (H := whole_file) (H0 := exact_log2) (H1 := merge_par_sort) true 5 3 2 sample_triples = Ok files /\
    read_layer true files = Some (subjs, s_p, sp_o, objs, o_ps, wt) /\
    forall e, e <> 0 ->
    match filter (fun x => IdTriple.predicate x = e) (filter real_triple sample_triples) with
    | [] => lookup wt e = Some None
    | xs => exists l it, lookup wt e = Some (Some l) /\ InternalLayerTriplePredicateIterator.new l subjs s_p sp_o = Some it /\
        it_collect (S (length xs)) (Some it : OptInternalLayerTriplePredicateIterator.t) = Some xs
    end.
Proof.
  apply (predicate_iteration (H := whole_file) (H0 := exact_log2) (H1 := merge_par_sort) true true 5 3 2 5 10 sample_triples).
  exact sample_layer_input.
Defined.
