(* ===== verification/Stacks.v ===== *)
(** * The triples of a stack of layers
      (the stack iterators of src/layer/internal/subject_iterator.rs,
      object_iterator.rs and predicate_iterator.rs)

    A layer on top of others adds and removes triples.  The iterators over a
    stack merge the additions of all layers and skip those that a layer above
    has removed.  The three of them share one loop and differ in the layer
    iterators and in the order; the change iterator cancels additions against
    removals. *)

From S2P Require Import Prelude.
From S2P Require Import LayerTypes.
From S2P Require Import Triples.
From S2P Require Import Iterators.
Open Scope N_scope.

Section operations.
Context {I : Type} `{PeekIterator I} (cmp : IdTriple.t -> IdTriple.t -> comparison).

(** [iter_mut().map(|p| p.peek())]. *)
Fixpoint peek_all (its : list I) : option (list (option IdTriple.t) * list I) :=
  match its with
  | [] => Some ([], [])
  | it :: its =>
      '(r, it) ← it_peek it;
      '(rs, its) ← peek_all its;
      Some (r :: rs, it :: its)
  end.

(** [enumerate().filter(is_some).min_by_key(..)]: the first of the lowest. *)
Fixpoint lowest_from (i : N) (peeks : list (option IdTriple.t)) (best : option (N * IdTriple.t)) : option (N * IdTriple.t) :=
  match peeks with
  | [] => best
  | None :: peeks => lowest_from (i + 1) peeks best
  | Some x :: peeks =>
      lowest_from (i + 1) peeks
        (match best with
         | Some (j, y) => match cmp x y with Lt => Some (i, x) | _ => best end
         | None => Some (i, x)
         end)
  end.

Definition lowest_index (peeks : list (option IdTriple.t)) : option N := option_map fst (lowest_from 0 peeks None).

(** The loop over the removals above the lowest triple. *)
Fixpoint cancel (negatives : list I) (lowest : IdTriple.t) : option (bool * list I) :=
  match negatives with
  | [] => Some (false, [])
  | it :: negatives =>
      '(p, it) ← it_peek it;
      if bool_decide (p = Some lowest) then
        '(r, it) ← it_next it;
        _ ← r;
        Some (true, it :: negatives)
      else
        '(b, negatives) ← cancel negatives lowest;
        Some (b, it :: negatives)
  end.

Record stack : Type := mk_stack {
  positives : list I;
  negatives : list I
}.

(** [next]; [fuel] bounds the triples that are skipped. *)
Fixpoint stack_next (fuel : nat) (st : stack) : option (option IdTriple.t * stack) :=
  match fuel with
  | O => None
  | S fuel =>
      '(peeks, positives) ← peek_all (positives st);
      match lowest_index peeks with
      | None => Some (None, mk_stack positives (negatives st))
      | Some lowest_index =>
          it ← positives.[lowest_index];
          '(r, it) ← it_next it;
          lowest ← r;
          let positives := <[N.to_nat lowest_index := it]> positives in
          _ ← assert_ (lowest_index <=? lenN (negatives st));
          '(found, negs) ← cancel (takeN lowest_index (negatives st)) lowest;
          let st := mk_stack positives (negs ++ dropN lowest_index (negatives st)) in
          if (found : bool) then stack_next fuel st else Some (Some lowest, st)
      end
  end.

(** [take_while], drained. *)
Fixpoint stack_take_while (fuel : nat) (st : stack) (f : IdTriple.t -> bool) : option (list IdTriple.t) :=
  match fuel with
  | O => None
  | S fuel =>
      '(r, st) ← stack_next (S fuel) st;
      match r with
      | None => Some []
      | Some x => if f x then xs ← stack_take_while fuel st f; Some (x :: xs) else Some []
      end
  end.

Definition stack_collect (fuel : nat) (st : stack) : option (list IdTriple.t) := stack_take_while fuel st (fun _ => true).
End operations.

Arguments stack : clear implicits.

(** ** The three iterators *)

(** [min_by_key] with the triples themselves. *)
Module InternalTripleSubjectIterator.
Definition next (fuel : nat) (st : stack OptInternalLayerTripleSubjectIterator.t)
    : option (option IdTriple.t * stack OptInternalLayerTripleSubjectIterator.t) :=
  stack_next IdTriple.cmp fuel st.

Definition seek_subject (st : stack OptInternalLayerTripleSubjectIterator.t) (subject : N)
    : option (stack OptInternalLayerTripleSubjectIterator.t) :=
  positives ← mapM (fun p => OptInternalLayerTripleSubjectIterator.seek_subject_ref p subject) (positives st);
  negatives ← mapM (fun n => OptInternalLayerTripleSubjectIterator.seek_subject_ref n subject) (negatives st);
  Some (mk_stack positives negatives).

Definition seek_subject_predicate (st : stack OptInternalLayerTripleSubjectIterator.t) (subject predicate : N)
    : option (stack OptInternalLayerTripleSubjectIterator.t) :=
  positives ← mapM (fun p => OptInternalLayerTripleSubjectIterator.seek_subject_predicate_ref p subject predicate) (positives st);
  negatives ← mapM (fun n => OptInternalLayerTripleSubjectIterator.seek_subject_predicate_ref n subject predicate) (negatives st);
  Some (mk_stack positives negatives).
End InternalTripleSubjectIterator.

(** The key (object, subject, predicate). *)
Definition object_cmp (x y : IdTriple.t) : comparison :=
  match N.compare (IdTriple.object x) (IdTriple.object y) with
  | Eq =>
      match N.compare (IdTriple.subject x) (IdTriple.subject y) with
      | Eq => N.compare (IdTriple.predicate x) (IdTriple.predicate y)
      | c => c
      end
  | c => c
  end.

Module InternalTripleObjectIterator.
Definition next (fuel : nat) (st : stack OptInternalLayerTripleObjectIterator.t)
    : option (option IdTriple.t * stack OptInternalLayerTripleObjectIterator.t) :=
  stack_next object_cmp fuel st.

Definition seek_object (st : stack OptInternalLayerTripleObjectIterator.t) (object : N)
    : option (stack OptInternalLayerTripleObjectIterator.t) :=
  positives ← mapM (fun p => OptInternalLayerTripleObjectIterator.seek_object_ref p object) (positives st);
  negatives ← mapM (fun n => OptInternalLayerTripleObjectIterator.seek_object_ref n object) (negatives st);
  Some (mk_stack positives negatives).
End InternalTripleObjectIterator.

Module InternalTriplePredicateIterator.
Definition next (fuel : nat) (st : stack OptInternalLayerTriplePredicateIterator.t)
    : option (option IdTriple.t * stack OptInternalLayerTriplePredicateIterator.t) :=
  stack_next IdTriple.cmp fuel st.
End InternalTriplePredicateIterator.

(** ** Changes between a layer and one of its ancestors *)

Inductive TripleChange : Type := Addition | Removal.

#[export] Instance TripleChange_eq_dec : EqDecision TripleChange.
Proof. solve_decision. Defined.

Module InternalTripleStackIterator.

Definition t : Type := stack OptInternalLayerTripleSubjectIterator.t.

Definition from_parts (positives negatives : list OptInternalLayerTripleSubjectIterator.t) : t := mk_stack positives negatives.

Definition merge (stacks : list t) : t :=
  mk_stack (concat (positives <$> stacks)) (concat (negatives <$> stacks)).

(** [iters[i].next().unwrap()]. *)
Definition pop (its : list OptInternalLayerTripleSubjectIterator.t) (i : N)
    : option (IdTriple.t * list OptInternalLayerTripleSubjectIterator.t) :=
  it ← its.[i];
  '(r, it) ← it_next it;
  x ← r;
  Some (x, <[N.to_nat i := it]> its).

(** [iters[i].peek().unwrap()]. *)
Definition look (its : list OptInternalLayerTripleSubjectIterator.t) (i : N)
    : option (IdTriple.t * list OptInternalLayerTripleSubjectIterator.t) :=
  it ← its.[i];
  '(r, it) ← it_peek it;
  x ← r;
  Some (x, <[N.to_nat i := it]> its).

(** [fuel] bounds the pairs that cancel. *)
Fixpoint next (fuel : nat) (st : t) : option (option (TripleChange * IdTriple.t) * t) :=
  match fuel with
  | O => None
  | S fuel =>
      '(pos_peeks, pos) ← peek_all (positives st);
      '(neg_peeks, neg) ← peek_all (negatives st);
      match lowest_index IdTriple.cmp pos_peeks, lowest_index IdTriple.cmp neg_peeks with
      | None, None => Some (None, mk_stack pos neg)
      | Some i, None => '(x, pos) ← pop pos i; Some (Some (Addition, x), mk_stack pos neg)
      | None, Some j => '(x, neg) ← pop neg j; Some (Some (Removal, x), mk_stack pos neg)
      | Some i, Some j =>
          '(lowest_pos, pos) ← look pos i;
          '(lowest_neg, neg) ← look neg j;
          match IdTriple.cmp lowest_pos lowest_neg with
          | Lt => '(x, pos) ← pop pos i; Some (Some (Addition, x), mk_stack pos neg)
          | Gt => '(x, neg) ← pop neg j; Some (Some (Removal, x), mk_stack pos neg)
          | Eq =>
              '(_, pos) ← pop pos i;
              '(_, neg) ← pop neg j;
              next fuel (mk_stack pos neg)
          end
      end
  end.

(** Drained. *)
Fixpoint collect (fuel : nat) (st : t) : option (list (TripleChange * IdTriple.t)) :=
  match fuel with
  | O => None
  | S fuel =>
      '(r, st) ← next (S fuel) st;
      match r with
      | None => Some []
      | Some x => xs ← collect fuel st; Some (x :: xs)
      end
  end.

End InternalTripleStackIterator.

(** ** What a stack holds *)

(** The order of the iterators. *)
Class KeyOrder (cmp : IdTriple.t -> IdTriple.t -> comparison) : Prop := {
  key_eq x y : cmp x y = Eq <-> x = y;
  key_gt x y : cmp x y = Gt <-> cmp y x = Lt;
  key_trans x y z : cmp x y = Lt -> cmp y z = Lt -> cmp x z = Lt
}.

Abbreviation change := (list IdTriple.t * list IdTriple.t)%type.

(** The triple is in the stack: the topmost layer that mentions it adds it. *)
Fixpoint stack_mem (ls : list change) (x : IdTriple.t) : Prop :=
  match ls with
  | [] => False
  | (additions, removals) :: ls => x ∈ additions \/ ((x ∉ removals) /\ stack_mem ls x)
  end.

#[export] Instance stack_mem_dec ls x : Decision (stack_mem ls x).
Proof. induction ls as [|[a r] ls IH]; cbn; apply _. Defined.

(** Layers add what the layers below them do not have, and remove what these
    have. *)
Fixpoint stack_ok (ls : list change) (x : IdTriple.t) : Prop :=
  match ls with
  | [] => True
  | (additions, removals) :: ls =>
      stack_ok ls x /\ (x ∈ additions -> (x ∉ removals) /\ ~ stack_mem ls x) /\ (x ∈ removals -> stack_mem ls x)
  end.

(** The same layers mention the triple. *)
Definition same_at (x : IdTriple.t) : list change -> list change -> Prop :=
  Forall2 (fun a b => (x ∈ a.1 <-> x ∈ b.1) /\ (x ∈ a.2 <-> x ∈ b.2)).

Lemma same_at_mem x ls ls' : same_at x ls ls' -> (stack_mem ls x <-> stack_mem ls' x).
Proof. induction 1 as [|[a r] [a' r'] ls ls' [Ha Hr] _ IH]; [done|]. cbn in *. by rewrite Ha, Hr, IH. Qed.

Lemma same_at_ok x ls ls' : same_at x ls ls' -> (stack_ok ls x <-> stack_ok ls' x).
Proof.
  induction 1 as [|[a r] [a' r'] ls ls' [Ha Hr] Hs IH]; [done|]. pose proof (same_at_mem _ _ _ Hs) as Hm.
  cbn in *. by rewrite Ha, Hr, IH, Hm.
Qed.

(** Layers that do not mention the triple. *)
Definition quiet (x : IdTriple.t) : list change -> Prop := Forall (fun a => (x ∉ a.1) /\ (x ∉ a.2)).

Lemma quiet_mem x above ls : quiet x above -> (stack_mem (above ++ ls) x <-> stack_mem ls x).
Proof. induction 1 as [|[a r] above [Ha Hr] _ IH]; [done|]. cbn in *. rewrite <- IH. tauto. Qed.

Lemma quiet_ok x above ls : quiet x above -> (stack_ok (above ++ ls) x <-> stack_ok ls x).
Proof. induction 1 as [|[a r] above [Ha Hr] _ IH]; [done|]. cbn in *. rewrite <- IH. tauto. Qed.

Lemma stack_mem_added ls x : stack_mem ls x -> exists a, a ∈ ls.*1 /\ x ∈ a.
Proof.
  induction ls as [|[a r] ls IH]; [done|]. intros [Ha|[_ Hm]]; [exists a; split; [by left|done]|].
  destruct (IH Hm) as (b & Hb & Hx). exists b. split; [by right|done].
Qed.

(** A triple that is not added above is removed at most once there. *)
Lemma mem_above x above ls : Forall (fun a => x ∉ a.1) above -> stack_mem (above ++ ls) x ->
  quiet x above /\ stack_mem ls x.
Proof.
  induction 1 as [|[a r] above Ha _ IH]; intros Hm; [split; [constructor|done]|]. cbn in *.
  destruct Hm as [|[Hr Hm]]; [done|]. destruct (IH Hm). split; [by constructor|done].
Qed.

Lemma stack_ok_app x above ls : stack_ok (above ++ ls) x -> stack_ok ls x.
Proof. induction above as [|[a r] above IH]; [done|]. intros [H _]. by apply IH. Qed.

Section merge.
Context {I : Type} `{PeekIterator I} (yields : I -> list IdTriple.t -> Prop) `{!Yields I yields}.
Context (cmp : IdTriple.t -> IdTriple.t -> comparison) `{!KeyOrder cmp}.

Abbreviation lt := (fun x y => cmp x y = Lt).

Lemma lt_irrefl x : cmp x x <> Lt.
Proof. by rewrite (proj2 (key_eq x x) eq_refl). Qed.

Lemma peek_all_spec its xss : Forall2 yields its xss -> exists its',
  peek_all its = Some (head <$> xss, its') /\ Forall2 yields its' xss.
Proof.
  induction 1 as [|it xs its xss Hy _ IH]; [by exists []|]. cbn [peek_all].
  destruct (peek_law _ _ Hy) as (it' & -> & Hy'). rewrite bind_Some_eq. cbn [fst snd].
  destruct IH as (its' & -> & IH). rewrite bind_Some_eq. cbn [fst snd]. exists (it' :: its'). split; [done|by constructor].
Qed.

(** [best] is the first of the lowest in [seen]. *)
Definition is_lowest (seen : list (option IdTriple.t)) (best : option (N * IdTriple.t)) : Prop :=
  match best with
  | None => Forall (fun p => p = None) seen
  | Some (j, x) =>
      seen.[j] = Some (Some x) /\ (forall k y, seen.[k] = Some (Some y) -> cmp y x <> Lt) /\
      (forall k y, k < j -> seen.[k] = Some (Some y) -> cmp x y = Lt)
  end.

Lemma is_lowest_snoc seen best p : is_lowest seen best ->
  is_lowest (seen ++ [p])
    (match p with
     | None => best
     | Some x =>
         match best with
         | Some (j, y) => match cmp x y with Lt => Some (lenN seen, x) | _ => best end
         | None => Some (lenN seen, x)
         end
     end).
Proof.
  intros Hb. assert (Hget : forall k q, (seen ++ [p]).[k] = Some q -> seen.[k] = Some q \/ k = lenN seen /\ q = p).
  { intros k q Hk. destruct (N.lt_ge_cases k (lenN seen)) as [Hlt|Hge]; [left; by rewrite nget_app_l in Hk by done|].
    rewrite nget_app_r in Hk by done. pose proof (nget_Some_lt _ _ _ Hk) as Hl. change (lenN [p]) with 1 in Hl.
    replace (k - lenN seen) with 0 in Hk by lia. injection Hk as <-. right. split; [lia|done]. }
  assert (Hlast : (seen ++ [p]).[lenN seen] = Some p) by (rewrite nget_app_r by lia; by rewrite N.sub_diag).
  destruct best as [[j y]|]; cbn in Hb.
  - destruct Hb as (Hj & Hmin & Hfirst). pose proof (nget_Some_lt _ _ _ Hj) as Hjl.
    destruct p as [x|]; [destruct (cmp x y) eqn:E|]; cbn; (split; [try done; by rewrite nget_app_l|split]).
    + intros k z [Hk|[_ [= ->]]]%Hget; [by eapply Hmin|by rewrite E].
    + intros k z Hlt [Hk|[? _]]%Hget; [by eapply Hfirst|lia].
    + intros k z [Hk|[_ [= ->]]]%Hget; [|by apply lt_irrefl]. intros Hzx. apply (Hmin k z Hk). by eapply key_trans.
    + intros k z Hlt [Hk|[? _]]%Hget; [|lia]. destruct (cmp y z) eqn:Eyz.
      * apply key_eq in Eyz as <-. done.
      * by eapply key_trans.
      * apply key_gt in Eyz. exfalso. by apply (Hmin k z Hk).
    + intros k z [Hk|[_ [= ->]]]%Hget; [by eapply Hmin|by rewrite E].
    + intros k z Hlt [Hk|[? _]]%Hget; [by eapply Hfirst|lia].
    + intros k z [Hk|[_ ?]]%Hget; [by eapply Hmin|done].
    + intros k z Hlt [Hk|[? _]]%Hget; [by eapply Hfirst|lia].
  - destruct p as [x|]; cbn.
    + split; [done|]. rewrite Forall_forall in Hb. split.
      * intros k z [Hk|[_ [= ->]]]%Hget; [|by apply lt_irrefl]. apply nget_elem, Hb in Hk. done.
      * intros k z Hlt [Hk|[? _]]%Hget; [|lia]. apply nget_elem, Hb in Hk. done.
    + apply Forall_app. split; [done|by constructor].
Qed.

Lemma lowest_from_spec peeks : forall seen best, is_lowest seen best ->
  is_lowest (seen ++ peeks) (lowest_from cmp (lenN seen) peeks best).
Proof.
  induction peeks as [|p peeks IH]; intros seen best Hb; [by rewrite app_nil_r|].
  pose proof (is_lowest_snoc seen best p Hb) as Hb'. specialize (IH _ _ Hb'). rewrite <- app_assoc in IH.
  replace (lenN (seen ++ [p])) with (lenN seen + 1) in IH by (rewrite lenN_app; done).
  destruct p as [x|]; exact IH.
Qed.

(** The removals, when one of them is next. *)
Fixpoint cancelled (ns : list (list IdTriple.t)) (x : IdTriple.t) : option (list (list IdTriple.t)) :=
  match ns with
  | [] => None
  | n :: ns => if bool_decide (head n = Some x) then Some (tail n :: ns) else option_map (cons n) (cancelled ns x)
  end.

Lemma cancel_spec x its xss : Forall2 yields its xss -> exists its',
  cancel its x = Some (match cancelled xss x with Some _ => true | None => false end, its') /\
  Forall2 yields its' (default xss (cancelled xss x)).
Proof.
  induction 1 as [|it xs its xss Hy Hys IH]; [by exists []|]. cbn [cancel cancelled].
  destruct (peek_law _ _ Hy) as (it' & -> & Hy'). rewrite bind_Some_eq. cbn [fst snd].
  destruct (bool_decide_reflect (head xs = Some x)) as [Hx|Hx].
  - destruct (next_law _ _ Hy') as (it2 & -> & Hy2). rewrite bind_Some_eq, Hx. cbn [fst snd]. rewrite bind_Some_eq.
    exists (it2 :: its). split; [done|]. by constructor.
  - destruct IH as (its' & -> & Hys'). rewrite bind_Some_eq. cbn [fst snd]. exists (it' :: its').
    destruct (cancelled xss x) as [ns|]; (split; [done|by constructor]).
Qed.

Lemma cancelled_split ns x : 
  match cancelled ns x with
  | Some ns' => exists a n b, ns = a ++ (x :: n) :: b /\ ns' = a ++ n :: b /\ Forall (fun n => head n <> Some x) a
  | None => Forall (fun n => head n <> Some x) ns
  end.
Proof.
  induction ns as [|n ns IH]; [constructor|]. cbn. destruct (bool_decide_reflect (head n = Some x)) as [Hx|Hx].
  - destruct n as [|y n]; [done|]. injection Hx as ->. by exists [], n, ns.
  - destruct (cancelled ns x) as [ns'|]; [|by constructor]. destruct IH as (a & n' & b & -> & -> & Ha).
    exists (n :: a), n', b. split; [done|]. split; [done|by constructor].
Qed.

Definition stack_repr (st : stack I) (ls : list change) : Prop :=
  Forall2 yields (positives st) ls.*1 /\ Forall2 yields (negatives st) ls.*2.

Definition sorted_stack : list change -> Prop := Forall (fun a => StronglySorted lt a.1 /\ StronglySorted lt a.2).

Lemma Forall2_split {A B} (P : A -> B -> Prop) l a x b : Forall2 P l (a ++ x :: b) ->
  exists l1 y l2, l = l1 ++ y :: l2 /\ length l1 = length a /\ Forall2 P l1 a /\ P y x /\ Forall2 P l2 b.
Proof.
  intros (l1 & l2 & Ha & Hb & ->)%Forall2_app_inv_r. apply Forall2_cons_inv_r in Hb as (y & l3 & Hy & Hb & ->).
  exists l1, y, l3. split; [done|]. split; [by apply Forall2_length in Ha|done].
Qed.

(** One round of the loop: there is nothing left, or [x] is the lowest triple,
    and it is cancelled or the result. *)
Lemma stack_round fuel st ls : stack_repr st ls ->
  (Forall (fun a => a.1 = []) ls /\ exists st', stack_next cmp (S fuel) st = Some (None, st')) \/
  exists above x p n below, ls = above ++ (x :: p, n) :: below /\
    (forall a y, a ∈ ls -> head a.1 = Some y -> cmp y x <> Lt) /\
    Forall (fun a => forall y, head a.1 = Some y -> cmp x y = Lt) above /\
    ((exists a1 p' n' a2 st', above = a1 ++ (p', x :: n') :: a2 /\ Forall (fun a => head a.2 <> Some x) a1 /\
        stack_next cmp (S fuel) st = stack_next cmp fuel st' /\
        stack_repr st' (a1 ++ (p', n') :: a2 ++ (p, n) :: below)) \/
     (Forall (fun a => head a.2 <> Some x) above /\
        exists st', stack_next cmp (S fuel) st = Some (Some x, st') /\ stack_repr st' (above ++ (p, n) :: below))).
Proof.
  intros [Hpos Hneg]. cbn [stack_next]. destruct (peek_all_spec _ _ Hpos) as (pos & -> & Hpos'). rewrite bind_Some_eq. cbn [fst snd].
  pose proof (lowest_from_spec (head <$> ls.*1) [] None (Forall_nil_2 _)) as Hl. change (lenN []) with 0 in Hl. cbn [app] in Hl.
  unfold lowest_index. destruct (lowest_from cmp 0 (head <$> ls.*1) None) as [[j x]|]; cbn [option_map fst].
  2:{ left. split; [|by eexists]. cbn in Hl. rewrite !Forall_fmap in Hl. eapply Forall_impl; [exact Hl|]. intros [[|y a] r]; [done|done]. }
  right. destruct Hl as (Hj & Hmin & Hfirst). rewrite !nget_map in Hj.
  destruct (ls.[j]) as [[a n]|] eqn:Els; [|done]. cbn in Hj. destruct a as [|x' p]; [done|]. injection Hj as ->.
  destruct (nget_split _ _ _ Els) as (above & below & E & Hlen). exists above, x, p, n, below. split; [done|].
  split; [|split].
  { intros a y [k Hk]%elem_nget Hy. apply (Hmin k y). by rewrite !nget_map, Hk, <- Hy. }
  { apply Forall_forall. intros a [k Hk]%elem_nget y Hy. pose proof (nget_Some_lt _ _ _ Hk). apply (Hfirst k y); [lia|].
    by rewrite !nget_map, E, nget_app_l, Hk, <- Hy by done. }
  subst ls. rewrite fmap_app in Hpos', Hneg. rewrite fmap_cons in Hpos', Hneg. cbn [fst snd] in *.
  destruct (Forall2_split _ _ _ _ _ Hpos') as (l1 & it & l2 & -> & Hl1 & Hy1 & Hit & Hy2). rewrite length_fmap in Hl1.
  assert (Hget : (l1 ++ it :: l2).[j] = Some it).
  { rewrite <- Hlen. unfold nget, lenN. rewrite Nat2N.id, <- Hl1. by apply list_lookup_middle. }
  rewrite Hget, bind_Some_eq. destruct (next_law _ _ Hit) as (it' & -> & Hit'). rewrite bind_Some_eq. cbn [fst snd head tail] in *.
  rewrite bind_Some_eq. assert (Hset : <[N.to_nat j := it']> (l1 ++ it :: l2) = l1 ++ it' :: l2).
  { rewrite <- Hlen. unfold lenN. rewrite Nat2N.id, <- Hl1, insert_app_r_alt, Nat.sub_diag by lia. done. }
  rewrite Hset. destruct (Forall2_split _ _ _ _ _ Hneg) as (m1 & nit & m2 & Em & Hm1 & Hn1 & Hnit & Hn2). rewrite length_fmap in Hm1.
  assert (Hjl : lenN m1 = j) by (unfold lenN in *; lia). rewrite Em.
  rewrite assert_true by (apply N.leb_le; rewrite lenN_app; lia). rewrite bind_Some_eq.
  assert (Htk : takeN j (m1 ++ nit :: m2) = m1 /\ dropN j (m1 ++ nit :: m2) = nit :: m2).
  { rewrite <- Hjl. split; [|apply dropN_app]. unfold takeN, lenN. rewrite Nat2N.id. apply take_app_length. }
  destruct Htk as [-> ->]. destruct (cancel_spec x _ _ Hn1) as (negs & -> & Hnegs). rewrite bind_Some_eq. cbn [fst snd].
  pose proof (cancelled_split (above.*2) x) as Hc. destruct (cancelled above.*2 x) as [ns'|]; cbn [default] in Hnegs; unfold id in Hnegs.
  - left. destruct Hc as (b1 & n' & b2 & Eb & -> & Hb1). apply fmap_app_inv in Eb as (a1 & rest & -> & Eb & ->).
    destruct rest as [|[p' r] a2]; [done|]. injection Eb as <- ->. rewrite Forall_fmap in Hb1.
    exists a1, p', n', a2. eexists. split; [done|]. split; [done|]. split; [done|]. split; cbn [positives negatives].
    + rewrite fmap_app, fmap_cons in Hy1. rewrite fmap_app, fmap_cons, fmap_app, fmap_cons. cbn [fst] in *.
      rewrite app_comm_cons, app_assoc. apply Forall2_app; [done|by constructor].
    + rewrite fmap_app, fmap_cons, fmap_app, fmap_cons. cbn [snd] in *.
      rewrite app_comm_cons, app_assoc. apply Forall2_app; [done|by constructor].
  - right. rewrite Forall_fmap in Hc. split; [done|]. eexists. split; [done|]. split; cbn [positives negatives].
    + rewrite fmap_app, fmap_cons. apply Forall2_app; [done|by constructor].
    + rewrite fmap_app, fmap_cons. apply Forall2_app; [done|by constructor].
Qed.

Definition total (ls : list change) : nat := length (concat ls.*1).

Lemma total_app a b : total (a ++ b) = (total a + total b)%nat.
Proof using. unfold total. by rewrite fmap_app, concat_app, length_app. Qed.
Lemma total_cons a b : total (a :: b) = (length a.1 + total b)%nat.
Proof using. unfold total. cbn. by rewrite length_app. Qed.

Lemma sorted_head x xs y : StronglySorted lt (x :: xs) -> y ∈ x :: xs -> y = x \/ cmp x y = Lt.
Proof using.
  intros [_ Hs]%StronglySorted_inv [->|Hy]%elem_of_cons; [by left|right]. rewrite Forall_forall in Hs. by apply Hs.
Qed.

(** Nothing that is added is below the lowest triple. *)
Lemma none_below ls x a y : sorted_stack ls -> (forall a y, a ∈ ls -> head a.1 = Some y -> cmp y x <> Lt) ->
  a ∈ ls -> y ∈ a.1 -> cmp y x <> Lt.
Proof.
  intros Hs Hmin Ha Hy Hlt. unfold sorted_stack in Hs. rewrite Forall_forall in Hs. destruct (Hs a Ha) as [Hsa _].
  destruct a as [[|h p] n]; cbn in *; [by apply elem_of_nil in Hy|].
  pose proof (Hmin _ h Ha eq_refl) as Hh. destruct (sorted_head _ _ _ Hsa Hy) as [->|Hhy]; [done|].
  apply Hh. by eapply key_trans.
Qed.

Lemma none_above_added ls above x : sorted_stack ls -> above ⊆ ls ->
  Forall (fun a => forall y, head a.1 = Some y -> cmp x y = Lt) above -> Forall (fun a => x ∉ a.1) above.
Proof.
  intros Hs Hsub Habove. apply Forall_forall. intros a Ha Hx. rewrite Forall_forall in Habove. specialize (Habove a Ha).
  unfold sorted_stack in Hs. rewrite Forall_forall in Hs. destruct (Hs a (Hsub a Ha)) as [Hsa _].
  destruct a as [[|h p] n]; cbn in *; [by apply elem_of_nil in Hx|]. specialize (Habove h eq_refl).
  destruct (sorted_head _ _ _ Hsa Hx) as [->|Hhx]; [by apply lt_irrefl in Habove|].
  apply (lt_irrefl x). by eapply key_trans.
Qed.

Section while.
Context (f : IdTriple.t -> bool).
Hypothesis f_down : forall x y, cmp x y = Lt -> f y = true -> f x = true.

(** Past the triples of interest, the stack yields none of them. *)
Lemma stack_next_past fuel : forall st ls, stack_repr st ls -> (total ls < fuel)%nat ->
  (forall a y, a ∈ ls -> y ∈ a.1 -> f y = false) ->
  exists r st', stack_next cmp fuel st = Some (r, st') /\ match r with Some y => f y = false | None => True end.
Proof.
  induction fuel as [|fuel IH]; intros st ls Hr Hf Hall; [lia|].
  destruct (stack_round fuel st ls Hr) as [[_ [st' Hn]]|(above & x & p & n & below & -> & _ & _ & [Hc|[_ (st' & Hn & _)]])].
  - by exists None, st'.
  - destruct Hc as (a1 & p' & n' & a2 & st' & -> & _ & -> & Hr'). apply (IH _ _ Hr').
    + rewrite !total_app, !total_cons, !total_app, !total_cons in *. cbn in *. lia.
    + intros a y Ha Hy. rewrite <- app_assoc, <- app_comm_cons in Hall.
      apply elem_of_app in Ha as [Ha|[->|[Ha|[->|Ha]%elem_of_cons]%elem_of_app]%elem_of_cons].
      * apply (Hall a); [|done]. apply elem_of_app. by left.
      * apply (Hall (p', x :: n')); [|done]. apply elem_of_app. right. by left.
      * apply (Hall a); [|done]. apply elem_of_app. right. right. apply elem_of_app. by left.
      * apply (Hall (x :: p, n)); [|by right]. apply elem_of_app. right. right. apply elem_of_app. right. by left.
      * apply (Hall a); [|done]. apply elem_of_app. right. right. apply elem_of_app. right. by right.
  - exists (Some x), st'. split; [done|]. apply (Hall (x :: p, n)); [|by left]. apply elem_of_app. right. by left.
Qed.

(** A removal of the lowest triple is the next one of its layer. *)
Lemma removal_next ls pre pa na post x : sorted_stack ls -> (forall t, f t = true -> stack_ok ls t) -> f x = true ->
  (forall a y, a ∈ ls -> head a.1 = Some y -> cmp y x <> Lt) -> ls = pre ++ (pa, na) :: post -> x ∈ na -> head na = Some x.
Proof using All.
  intros Hs Hok Hf Hmin E Hx. assert (Hin : (pa, na) ∈ ls) by (rewrite E; apply elem_of_app; right; by left).
  pose proof Hs as Hs'. unfold sorted_stack in Hs'. rewrite Forall_forall in Hs'. destruct (Hs' _ Hin) as [_ Hsn]. cbn in Hsn.
  destruct na as [|h na]; [by apply elem_of_nil in Hx|]. cbn. f_equal.
  destruct (sorted_head _ _ _ Hsn Hx) as [->|Hlt]; [done|]. exfalso.
  pose proof (Hok h (f_down _ _ Hlt Hf)) as Hh. rewrite E in Hh. apply stack_ok_app in Hh. cbn in Hh.
  destruct Hh as (_ & _ & Hh). specialize (Hh ltac:(by left)). apply stack_mem_added in Hh as (a & Ha & Hha).
  apply list_elem_of_fmap in Ha as (pn & -> & Hpn).
  apply (none_below ls x pn h Hs Hmin); [|done|done]. rewrite E. apply elem_of_app. right. by right.
Qed.

(** Layers above the one with the lowest triple that do not remove it do not
    mention it. *)
Lemma above_quiet ls above rest post x : sorted_stack ls -> (forall t, f t = true -> stack_ok ls t) -> f x = true ->
  (forall a y, a ∈ ls -> head a.1 = Some y -> cmp y x <> Lt) -> ls = above ++ rest ++ post ->
  Forall (fun a => forall y, head a.1 = Some y -> cmp x y = Lt) above ->
  Forall (fun a => head a.2 <> Some x) above -> quiet x above.
Proof using All.
  intros Hs Hok Hf Hmin E Ha Hr. assert (Hsub : above ⊆ ls) by (rewrite E; intros a Hin; apply elem_of_app; by left).
  pose proof (none_above_added _ _ _ Hs Hsub Ha) as Hadd. apply Forall_forall. intros [pa na] Hin.
  rewrite Forall_forall in Hadd, Hr. split; [by apply Hadd|]. cbn. intros Hx. apply (Hr _ Hin). cbn.
  apply list_elem_of_split in Hin as (l1 & l2 & Eab).
  apply (removal_next ls l1 pa na (l2 ++ rest ++ post) x Hs Hok Hf Hmin); [|done].
  by rewrite E, Eab, <- app_assoc.
Qed.

Lemma same_at_refl x ls : same_at x ls ls.
Proof using. induction ls as [|a ls IH]; by constructor. Qed.

Lemma same_cons (x y : IdTriple.t) xs : y <> x -> (y ∈ x :: xs <-> y ∈ xs).
Proof using. intros Hne. rewrite elem_of_cons. tauto. Qed.

Lemma sorted_notin x xs : StronglySorted lt (x :: xs) -> x ∉ xs.
Proof.
  intros [_ Hs]%StronglySorted_inv Hx. rewrite Forall_forall in Hs. specialize (Hs x Hx). by apply lt_irrefl in Hs.
Qed.

(** What there is to know when [x] has been taken from the lists. *)
Definition popped (x : IdTriple.t) (ls ls' : list change) : Prop :=
  sorted_stack ls' /\ (forall t, f t = true -> stack_ok ls' t) /\ (total ls' < total ls)%nat /\
  (forall t, f t = true -> (stack_mem ls' t <-> t <> x /\ stack_mem ls t)) /\
  (forall t, stack_mem ls' t -> cmp t x <> Lt).

Lemma popped_intro x ls ls' : (forall t, t <> x -> same_at t ls ls') -> sorted_stack ls' ->
  (forall t, f t = true -> stack_ok ls t) -> stack_ok ls' x -> ~ stack_mem ls' x -> (total ls' < total ls)%nat ->
  (forall t, stack_mem ls t -> cmp t x <> Lt) -> popped x ls ls'.
Proof using.
  intros Hsame Hs Hok Hokx Hmx Htot Hmin. split; [done|]. split; [|split; [done|split]].
  - intros t Ht. destruct (decide (t = x)) as [->|Hne]; [done|]. apply (same_at_ok t ls ls'); [by apply Hsame|by apply Hok].
  - intros t Ht. destruct (decide (t = x)) as [->|Hne]; [tauto|]. rewrite (same_at_mem t ls ls') by (by apply Hsame). tauto.
  - intros t Ht. destruct (decide (t = x)) as [->|Hne]; [done|]. apply Hmin. by apply (same_at_mem t ls ls'); [apply Hsame|].
Qed.

Lemma pop_result above x p n below : let ls := above ++ (x :: p, n) :: below in
  sorted_stack ls -> (forall t, f t = true -> stack_ok ls t) -> f x = true -> quiet x above ->
  (forall t, stack_mem ls t -> cmp t x <> Lt) ->
  stack_mem ls x /\ popped x ls (above ++ (p, n) :: below).
Proof.
  intros ls Hs Hok Hf Hq Hmin. unfold ls in *. pose proof Hs as Hs'. unfold sorted_stack in Hs'.
  apply Forall_app in Hs' as [Hsa [[Hsp Hsn] Hsb]%Forall_cons]. cbn [fst snd] in *.
  pose proof (Hok x Hf) as Hokx. rewrite quiet_ok in Hokx by done. cbn in Hokx. destruct Hokx as (Hb & Hadd & _).
  destruct (Hadd ltac:(by left)) as [Hn Hm]. split; [rewrite quiet_mem by done; left; by left|].
  pose proof (sorted_notin _ _ Hsp) as Hp. apply popped_intro; try done.
  - intros t Hne. apply Forall2_app; [apply same_at_refl|]. constructor; [|apply same_at_refl]. cbn. split; [by apply same_cons|done].
  - apply Forall_app. split; [done|]. constructor; [|done]. cbn. apply StronglySorted_inv in Hsp as [? _]. done.
  - rewrite quiet_ok by done. cbn. tauto.
  - rewrite quiet_mem by done. cbn. tauto.
  - rewrite !total_app, !total_cons. cbn. lia.
Qed.

Lemma pop_cancel a1 p' x n' a2 p n below : let ls := (a1 ++ (p', x :: n') :: a2) ++ (x :: p, n) :: below in
  sorted_stack ls -> (forall t, f t = true -> stack_ok ls t) -> f x = true -> quiet x a1 ->
  x ∉ p' -> Forall (fun a => x ∉ a.1) a2 -> (forall t, stack_mem ls t -> cmp t x <> Lt) ->
  ~ stack_mem ls x /\ popped x ls (a1 ++ (p', n') :: a2 ++ (p, n) :: below).
Proof.
  intros ls Hs Hok Hf Hq Hp' Ha2 Hmin. unfold ls in *. rewrite <- app_assoc, <- app_comm_cons in *.
  pose proof Hs as Hs'. unfold sorted_stack in Hs'.
  apply Forall_app in Hs' as [Hsa [[Hsp' Hsn'] [Hsa2 [[Hsp Hsn] Hsb]%Forall_cons]%Forall_app]%Forall_cons]. cbn [fst snd] in *.
  pose proof (Hok x Hf) as Hokx. rewrite quiet_ok in Hokx by done. cbn in Hokx. destruct Hokx as (Hb & _ & Hrem).
  specialize (Hrem ltac:(by left)). destruct (mem_above _ _ _ Ha2 Hrem) as [Hq2 _]. rewrite quiet_ok in Hb by done.
  cbn in Hb. destruct Hb as (Hb & Hadd & _). destruct (Hadd ltac:(by left)) as [Hn Hm].
  pose proof (sorted_notin _ _ Hsp) as Hp. pose proof (sorted_notin _ _ Hsn') as Hn'.
  assert (Hcons : x ∈ x :: n') by (by left). split; [rewrite quiet_mem by done; cbn; tauto|].
  apply popped_intro; try done.
  - intros t Hne. apply Forall2_app; [apply same_at_refl|]. constructor; [cbn; split; [done|by apply same_cons]|].
    apply Forall2_app; [apply same_at_refl|]. constructor; [|apply same_at_refl]. cbn. split; [by apply same_cons|done].
  - apply Forall_app. split; [done|]. constructor; [cbn; apply StronglySorted_inv in Hsn' as [? _]; done|].
    apply Forall_app. split; [done|]. constructor; [|done]. cbn. apply StronglySorted_inv in Hsp as [? _]. done.
  - rewrite quiet_ok by done. cbn. rewrite quiet_ok, quiet_mem by done. cbn. tauto.
  - rewrite quiet_mem by done. cbn. rewrite quiet_mem by done. cbn. tauto.
  - rewrite !total_app, !total_cons, !total_app, !total_cons. cbn. lia.
Qed.

(** Nothing in the stack is below the lowest triple. *)
Lemma mem_not_below ls x : sorted_stack ls -> (forall a y, a ∈ ls -> head a.1 = Some y -> cmp y x <> Lt) ->
  forall t, stack_mem ls t -> cmp t x <> Lt.
Proof.
  intros Hs Hmin t (a & Ha & Hta)%stack_mem_added. apply list_elem_of_fmap in Ha as (pn & -> & Hpn).
  by apply (none_below ls x pn t).
Qed.

Lemma not_below_past x t : cmp t x <> Lt -> f x = false -> f t = false.
Proof using All.
  intros Hlt Hf. destruct (f t) eqn:Ht; [|done]. destruct (cmp t x) eqn:E; [|done|].
  - apply key_eq in E as ->. congruence.
  - apply key_gt in E. rewrite (f_down _ _ E Ht) in Hf. done.
Qed.

Lemma stack_next_spec fuel : forall st ls, stack_repr st ls -> (total ls < fuel)%nat -> sorted_stack ls ->
  (forall t, f t = true -> stack_ok ls t) ->
  exists r st', stack_next cmp fuel st = Some (r, st') /\
    match r with
    | Some x =>
        if f x then stack_mem ls x /\ exists ls', stack_repr st' ls' /\ popped x ls ls'
        else forall t, f t = true -> ~ stack_mem ls t
    | None => forall t, f t = true -> ~ stack_mem ls t
    end.
Proof using All.
  induction fuel as [|fuel IH]; intros st ls Hr Htot Hs Hok; [lia|].
  destruct (stack_round fuel st ls Hr) as [[Hnil [st' Hn]]|(above & x & p & n & below & E & Hmin & Hab & Hcase)].
  { exists None, st'. split; [done|]. intros t _ (a & Ha & Hta)%stack_mem_added. apply list_elem_of_fmap in Ha as (pn & -> & Hpn).
    rewrite Forall_forall in Hnil. rewrite (Hnil _ Hpn) in Hta. by apply elem_of_nil in Hta. }
  pose proof (mem_not_below ls x Hs Hmin) as Hbelow.
  assert (Hadd : Forall (fun a => x ∉ a.1) above).
  { apply (none_above_added ls); [done| |done]. rewrite E. intros a Ha. apply elem_of_app. by left. }
  destruct (f x) eqn:Hf.
  - destruct Hcase as [(a1 & p' & n' & a2 & st' & -> & Ha1 & -> & Hr')|[Hno (st' & Hn & Hr')]].
    + apply Forall_app in Hab as [Hab1 _]. apply Forall_app in Hadd as [_ [Hp' Hadd2]%Forall_cons]. cbn in Hp'.
      assert (Hq : quiet x a1).
      { apply (above_quiet ls a1 ((p', x :: n') :: a2) ((x :: p, n) :: below)); try done. by rewrite E, <- app_assoc. }
      subst ls. destruct (pop_cancel a1 p' x n' a2 p n below Hs Hok Hf Hq Hp' Hadd2 Hbelow) as [Hmx Hpop].
      set (ls := _ ++ (x :: p, n) :: below) in *. set (ls' := a1 ++ (p', n') :: a2 ++ (p, n) :: below) in *.
      destruct Hpop as (Hs' & Hok' & Htot' & Hmem & Hbel). destruct (IH st' ls' Hr' ltac:(lia) Hs' Hok') as (r & st2 & Hn & Hspec).
      exists r, st2. split; [done|].
      assert (Hiff : forall t, f t = true -> (stack_mem ls' t <-> stack_mem ls t)).
      { intros t Ht. rewrite Hmem by done. split; [tauto|]. intros Hm. split; [|done]. intros ->. done. }
      destruct r as [z|]; [destruct (f z) eqn:Hfz|].
      * destruct Hspec as [Hz (ls2 & Hr2 & (Hs2 & Hok2 & Htot2 & Hmem2 & Hbel2))]. split; [by apply Hiff|]. exists ls2.
        split; [done|]. split; [done|]. split; [done|]. split; [lia|]. split; [|done].
        intros t Ht. by rewrite Hmem2, Hiff by done.
      * intros t Ht. rewrite <- Hiff by done. by apply Hspec.
      * intros t Ht. rewrite <- Hiff by done. by apply Hspec.
    + exists (Some x), st'. rewrite Hf. split; [done|].
      assert (Hq : quiet x above) by (by apply (above_quiet ls above [(x :: p, n)] below)).
      subst ls. destruct (pop_result above x p n below Hs Hok Hf Hq Hbelow) as [Hmx Hpop].
      split; [done|]. by exists (above ++ (p, n) :: below).
  - assert (Hno : forall t, f t = true -> ~ stack_mem ls t).
    { intros t Ht Hm. rewrite (not_below_past x t) in Ht; [done|by apply Hbelow|done]. }
    destruct (stack_next_past (S fuel) st ls Hr Htot) as (r & st' & Hn & Hpast).
    { intros a y Ha Hy. apply (not_below_past x); [|done]. by apply (none_below ls x a y). }
    exists r, st'. split; [done|]. destruct r as [z|]; [rewrite Hpast|]; done.
Qed.

(** The members of the stack, in order, as far as [f] holds; [g] is what the
    loop tests. *)
Lemma stack_take_while_spec g (Hg : forall t, f t = false -> g t = false) fuel : forall st ls, stack_repr st ls ->
  (total ls < fuel)%nat -> sorted_stack ls -> (forall t, f t = true -> stack_ok ls t) ->
  (forall t, f t = true -> stack_mem ls t -> g t = true) ->
  exists xs, stack_take_while cmp fuel st g = Some xs /\ StronglySorted lt xs /\
    forall t, t ∈ xs <-> f t = true /\ stack_mem ls t.
Proof using All.
  induction fuel as [|fuel IH]; intros st ls Hr Htot Hs Hok Hfg; [lia|]. cbn [stack_take_while].
  destruct (stack_next_spec (S fuel) st ls Hr Htot Hs Hok) as (r & st' & -> & Hspec). rewrite bind_Some_eq. cbn [fst snd].
  assert (Hend : (forall t, f t = true -> ~ stack_mem ls t) -> exists xs, Some (@nil IdTriple.t) = Some xs /\ StronglySorted lt xs /\
    forall t, t ∈ xs <-> f t = true /\ stack_mem ls t).
  { intros Hno. exists []. split; [done|]. split; [constructor|]. intros t. split; [by intros ?%elem_of_nil|].
    intros [Ht Hm]. by destruct (Hno t Ht). }
  destruct r as [x|]; [|by apply Hend]. destruct (f x) eqn:Hf; [|rewrite (Hg x Hf); by apply Hend].
  destruct Hspec as [Hx (ls' & Hr' & (Hs' & Hok' & Htot' & Hmem & Hbel))]. rewrite (Hfg x Hf Hx).
  destruct (IH st' ls' Hr' ltac:(lia) Hs' Hok') as (xs & -> & Hsort & Hin).
  { intros t Ht Hm. apply Hfg; [done|]. by apply Hmem in Hm as [_ ?]. }
  rewrite bind_Some_eq.
  exists (x :: xs). split; [done|]. split.
  - constructor; [done|]. apply Forall_forall. intros t Ht. apply Hin in Ht as [Hft Ht]. pose proof (Hbel t Ht) as Hlt.
    apply Hmem in Ht as [Hne _]; [|done]. destruct (cmp x t) eqn:E; [|done|].
    + apply key_eq in E. congruence.
    + by apply key_gt in E.
  - intros t. rewrite elem_of_cons, Hin. split.
    + intros [->|[Ht Hm]]; [done|]. by apply Hmem in Hm as [_ ?].
    + intros [Ht Hm]. destruct (decide (t = x)) as [->|Hne]; [by left|right]. split; [done|]. by apply Hmem.
Qed.
End while.
End merge.

#[export] Instance triple_key_order : KeyOrder IdTriple.cmp.
Proof.
  split; [apply triple_cmp_eq|apply triple_cmp_gt|]. intros x y z Hxy Hyz. exact (StrictOrder_Transitive (R := triple_lt) x y z Hxy Hyz).
Qed.

Lemma object_cmp_lt x y : object_cmp x y = Lt <-> object_lt x y.
Proof.
  unfold object_cmp, object_lt. destruct (N.compare_spec (IdTriple.object x) (IdTriple.object y)) as [H|H|H]; [|split; [by left|done]|split; [done|lia]].
  destruct (N.compare_spec (IdTriple.subject x) (IdTriple.subject y)) as [H'|H'|H'];
    [|split; [intros _; right; split; [done|by left]|done]|split; [done|lia]].
  rewrite N.compare_lt_iff. lia.
Qed.

#[export] Instance object_key_order : KeyOrder object_cmp.
Proof.
  split.
  - intros [s p o] [s' p' o']. unfold object_cmp. cbn. split.
    + destruct (N.compare_spec o o') as [->| |], (N.compare_spec s s') as [->| |], (N.compare_spec p p') as [->| |]; done.
    + intros [= -> -> ->]. by rewrite !N.compare_refl.
  - intros x y. unfold object_cmp. rewrite (N.compare_antisym (IdTriple.object x)), (N.compare_antisym (IdTriple.subject x)),
      (N.compare_antisym (IdTriple.predicate x)).
    destruct (N.compare (IdTriple.object x) (IdTriple.object y)), (N.compare (IdTriple.subject x) (IdTriple.subject y)),
      (N.compare (IdTriple.predicate x) (IdTriple.predicate y)); done.
  - intros x y z. rewrite !object_cmp_lt. unfold object_lt. lia.
Qed.

(** ** Changes *)

Section changes.
Import InternalTripleStackIterator.
Context (yields : OptInternalLayerTripleSubjectIterator.t -> list IdTriple.t -> Prop) `{!Yields _ yields}.

(** How many of the lists have the triple. *)
Definition count_in (xss : list (list IdTriple.t)) (x : IdTriple.t) : nat := length (filter (fun xs => x ∈ xs) xss).

Abbreviation all_sorted := (Forall (StronglySorted triple_lt)).

Lemma count_in_app a b x : count_in (a ++ b) x = (count_in a x + count_in b x)%nat.
Proof using. unfold count_in. by rewrite filter_app, length_app. Qed.

Lemma count_in_cons xs b x : count_in (xs :: b) x = ((if decide (x ∈ xs) then 1 else 0) + count_in b x)%nat.
Proof using. unfold count_in. rewrite filter_cons. by destruct (decide (x ∈ xs)). Qed.

Lemma count_in_pos xss x : (0 < count_in xss x)%nat <-> exists xs, xs ∈ xss /\ x ∈ xs.
Proof using.
  induction xss as [|ys xss IH]; [cbn; split; [lia|intros (xs & H & _); by apply elem_of_nil in H]|]. rewrite count_in_cons. split.
  - destruct (decide (x ∈ ys)) as [Hx|Hx]; [intros _; exists ys; split; [by left|done]|].
    intros (xs & Hxs & ?)%IH. exists xs. split; [by right|done].
  - intros (xs & [->|Hxs]%elem_of_cons & Hx).
    + rewrite decide_True by done. lia.
    + assert (0 < count_in xss x)%nat; [|lia]. apply IH. by exists xs.
Qed.

(** Taking the first element of a list. *)
Lemma taken xss i x p : xss.[i] = Some (x :: p) -> all_sorted xss ->
  all_sorted (<[N.to_nat i := p]> xss) /\ (forall y, count_in xss y = (count_in (<[N.to_nat i := p]> xss) y + if decide (y = x) then 1 else 0)%nat) /\
  length (concat xss) = S (length (concat (<[N.to_nat i := p]> xss))).
Proof using.
  intros Hi Hs. destruct (nget_split _ _ _ Hi) as (a & b & -> & Hl).
  assert (Hset : <[N.to_nat i := p]> (a ++ (x :: p) :: b) = a ++ p :: b).
  { rewrite <- Hl. unfold lenN. rewrite Nat2N.id, insert_app_r_alt, Nat.sub_diag by lia. done. }
  rewrite Hset. apply Forall_app in Hs as [Ha [Hxp Hb]%Forall_cons]. pose proof (sorted_notin IdTriple.cmp _ _ Hxp) as Hx.
  split; [|split].
  - apply Forall_app. split; [done|]. constructor; [|done]. by apply StronglySorted_inv in Hxp as [? _].
  - intros y. rewrite !count_in_app, !count_in_cons. destruct (decide (y = x)) as [->|Hne].
    + rewrite decide_True by (by left). rewrite (decide_False (P := x ∈ p)) by done. lia.
    + destruct (decide (y ∈ p)) as [Hy|Hy].
      * rewrite decide_True by (by right). lia.
      * rewrite decide_False by (by intros [?|?]%elem_of_cons). lia.
  - rewrite !concat_app. cbn [concat]. rewrite !length_app. cbn [length]. lia.
Qed.

Lemma pop_spec its xss i x p : Forall2 yields its xss -> xss.[i] = Some (x :: p) -> exists its', pop its i = Some (x, its') /\
  Forall2 yields its' (<[N.to_nat i := p]> xss).
Proof.
  intros Hy Hi. destruct (Forall2_lookup_r _ _ _ _ _ Hy Hi) as (it & Hit & Hyi). unfold pop, nget. rewrite Hit, bind_Some_eq.
  destruct (next_law _ _ Hyi) as (it' & -> & Hyi'). rewrite bind_Some_eq. cbn [fst snd head tail] in *. rewrite bind_Some_eq.
  eexists. split; [done|]. by apply Forall2_insert.
Qed.

Lemma look_spec its xss i x p : Forall2 yields its xss -> xss.[i] = Some (x :: p) -> exists its', look its i = Some (x, its') /\
  Forall2 yields its' xss.
Proof.
  intros Hy Hi. destruct (Forall2_lookup_r _ _ _ _ _ Hy Hi) as (it & Hit & Hyi). unfold look, nget. rewrite Hit, bind_Some_eq.
  destruct (peek_law _ _ Hyi) as (it' & -> & Hyi'). rewrite bind_Some_eq. cbn [fst snd head] in *. rewrite bind_Some_eq.
  eexists. split; [done|]. pose proof (Forall2_insert _ _ _ _ _ (N.to_nat i) Hy Hyi') as H.
  by rewrite (list_insert_id xss) in H.
Qed.

Lemma lowest_spec its xss : Forall2 yields its xss -> all_sorted xss -> exists its', peek_all its = Some (head <$> xss, its') /\
  Forall2 yields its' xss /\
  match lowest_index IdTriple.cmp (head <$> xss) with
  | None => forall y, count_in xss y = 0%nat
  | Some i => exists x p, xss.[i] = Some (x :: p) /\ (forall y, (0 < count_in xss y)%nat -> ~ triple_lt y x)
  end.
Proof.
  intros Hy Hs. destruct (peek_all_spec yields _ _ Hy) as (its' & Hp & Hy'). exists its'. split; [done|]. split; [done|].
  pose proof (lowest_from_spec IdTriple.cmp (head <$> xss) [] None (Forall_nil_2 _)) as Hl. change (lenN []) with 0 in Hl. cbn [app] in Hl.
  unfold lowest_index. destruct (lowest_from IdTriple.cmp 0 (head <$> xss) None) as [[i x]|]; cbn [option_map fst].
  - destruct Hl as (Hi & Hmin & _). rewrite nget_map in Hi. destruct (xss.[i]) as [xs|] eqn:Ei; [|done]. cbn in Hi.
    destruct xs as [|x' p]; [done|]. injection Hi as ->. exists x, p. split; [done|]. intros y (ys & Hys & Hyy)%count_in_pos Hlt.
    rewrite Forall_forall in Hs. pose proof (Hs _ Hys) as Hsy. apply elem_nget in Hys as [k Hk].
    destruct ys as [|h ys]; [by apply elem_of_nil in Hyy|].
    apply (Hmin k h); [by rewrite nget_map, Hk|]. destruct (sorted_head IdTriple.cmp _ _ _ Hsy Hyy) as [->|Hh]; [done|].
    by eapply key_trans.
  - cbn in Hl. rewrite Forall_fmap in Hl. intros y. destruct (count_in xss y) eqn:E; [done|].
    assert (H : (0 < count_in xss y)%nat) by lia. apply count_in_pos in H as (ys & Hys & Hyy). rewrite Forall_forall in Hl.
    specialize (Hl _ Hys). destruct ys as [|h ys]; [by apply elem_of_nil in Hyy|done].
Qed.

(** How often the triple is added more than it is removed. *)
Definition balance (Ps Ns : list (list IdTriple.t)) (x : IdTriple.t) : Z :=
  (Z.of_nat (count_in Ps x) - Z.of_nat (count_in Ns x))%Z.

Definition change_repr (st : t) (Ps Ns : list (list IdTriple.t)) : Prop :=
  Forall2 yields (positives st) Ps /\ Forall2 yields (negatives st) Ns /\ all_sorted Ps /\ all_sorted Ns.

Definition size (Ps Ns : list (list IdTriple.t)) : nat := (length (concat Ps) + length (concat Ns))%nat.

Definition change_of (z : Z) : option TripleChange := if (z =? 1)%Z then Some Addition else if (z =? -1)%Z then Some Removal else None.

(** The lists after the change of [x] has been taken. *)
Definition after_change (Ps Ns Ps' Ns' : list (list IdTriple.t)) (x : IdTriple.t) : Prop :=
  (size Ps' Ns' < size Ps Ns)%nat /\
  (forall y, balance Ps' Ns' y = if decide (y = x) then 0%Z else balance Ps Ns y) /\
  (forall y, (0 < count_in Ps' y + count_in Ns' y)%nat -> ~ triple_lt y x).

Section take.
Context (Ps Ns : list (list IdTriple.t)).
Hypothesis Hsp : all_sorted Ps.
Hypothesis Hsn : all_sorted Ns.
Hypothesis Hbal : forall x, (-1 <= balance Ps Ns x <= 1)%Z.

Lemma take_addition pos neg i x p : Ps.[i] = Some (x :: p) -> (forall y, (0 < count_in Ps y)%nat -> ~ triple_lt y x) ->
  count_in Ns x = 0%nat -> (forall y, (0 < count_in Ns y)%nat -> ~ triple_lt y x) ->
  Forall2 yields pos Ps -> Forall2 yields neg Ns ->
  exists pos', pop pos i = Some (x, pos') /\ change_of (balance Ps Ns x) = Some Addition /\
    exists Ps' Ns', change_repr (mk_stack pos' neg) Ps' Ns' /\ after_change Ps Ns Ps' Ns' x.
Proof using All.
  intros Hi Hmin Hz Hmin' Hpos Hneg. destruct (taken _ _ _ _ Hi Hsp) as (Hs' & Hc & Hlen).
  destruct (pop_spec _ _ _ _ _ Hpos Hi) as (pos2 & -> & Hpos2). eexists. split; [done|].
  pose proof (Hbal x) as Hb. unfold balance in *. pose proof (Hc x) as Hcx. rewrite decide_True in Hcx by done.
  split; [unfold change_of; by replace (_ =? 1)%Z with true by (symmetry; apply Z.eqb_eq; lia)|].
  eexists _, Ns. split; [split; [exact Hpos2|done]|]. split; [unfold size in *; lia|]. split.
  - intros y. unfold balance. pose proof (Hc y) as Hcy. destruct (decide (y = x)) as [->|]; lia.
  - intros y Hy. pose proof (Hc y) as Hcy. destruct (decide (y = x)) as [->|Hne]; [by apply (StrictOrder_Irreflexive x)|].
    destruct (count_in Ns y) eqn:En; [apply Hmin; lia|apply Hmin'; lia].
Qed.

Lemma take_removal pos neg i x p : Ns.[i] = Some (x :: p) -> (forall y, (0 < count_in Ns y)%nat -> ~ triple_lt y x) ->
  count_in Ps x = 0%nat -> (forall y, (0 < count_in Ps y)%nat -> ~ triple_lt y x) ->
  Forall2 yields pos Ps -> Forall2 yields neg Ns ->
  exists neg', pop neg i = Some (x, neg') /\ change_of (balance Ps Ns x) = Some Removal /\
    exists Ps' Ns', change_repr (mk_stack pos neg') Ps' Ns' /\ after_change Ps Ns Ps' Ns' x.
Proof using All.
  intros Hi Hmin Hz Hmin' Hpos Hneg. destruct (taken _ _ _ _ Hi Hsn) as (Hs' & Hc & Hlen).
  destruct (pop_spec _ _ _ _ _ Hneg Hi) as (neg2 & -> & Hneg2). eexists. split; [done|].
  pose proof (Hbal x) as Hb. unfold balance in *. pose proof (Hc x) as Hcx. rewrite decide_True in Hcx by done. split.
  { unfold change_of. replace (_ =? 1)%Z with false by (symmetry; apply Z.eqb_neq; lia).
    by replace (_ =? -1)%Z with true by (symmetry; apply Z.eqb_eq; lia). }
  eexists Ps, _. split; [split; [exact Hpos|split; [exact Hneg2|done]]|]. split; [unfold size in *; lia|]. split.
  - intros y. unfold balance. pose proof (Hc y) as Hcy. destruct (decide (y = x)) as [->|]; lia.
  - intros y Hy. pose proof (Hc y) as Hcy. destruct (decide (y = x)) as [->|Hne]; [by apply (StrictOrder_Irreflexive x)|].
    destruct (count_in Ps y) eqn:En; [apply Hmin; lia|apply Hmin'; lia].
Qed.
End take.

Lemma change_next fuel : forall st Ps Ns, change_repr st Ps Ns -> (size Ps Ns < fuel)%nat ->
  (forall x, (-1 <= balance Ps Ns x <= 1)%Z) ->
  exists r st', next fuel st = Some (r, st') /\
    match r with
    | None => forall x, balance Ps Ns x = 0%Z
    | Some (c, x) => change_of (balance Ps Ns x) = Some c /\ exists Ps' Ns', change_repr st' Ps' Ns' /\ after_change Ps Ns Ps' Ns' x
    end.
Proof using All.
  induction fuel as [|fuel IH]; intros st Ps Ns (Hp & Hn & Hsp & Hsn) Hf Hbal; [lia|]. cbn [next].
  destruct (lowest_spec _ _ Hp Hsp) as (pos & -> & Hp' & Hlp). rewrite bind_Some_eq. cbn [fst snd].
  destruct (lowest_spec _ _ Hn Hsn) as (neg & -> & Hn' & Hln). rewrite bind_Some_eq. cbn [fst snd].
  destruct (lowest_index _ (head <$> Ps)) as [i|], (lowest_index _ (head <$> Ns)) as [j|].
  - destruct Hlp as (x & p & Hi & Hminp), Hln as (y & q & Hj & Hminn).
    destruct (look_spec _ _ _ _ _ Hp' Hi) as (pos1 & -> & Hp1). destruct (look_spec _ _ _ _ _ Hn' Hj) as (neg1 & -> & Hn1).
    rewrite !bind_Some_eq. cbn [fst snd].
    assert (Hnot : forall zss a b, (forall z, (0 < count_in zss z)%nat -> ~ triple_lt z b) -> triple_lt a b -> count_in zss a = 0%nat).
    { intros zss a b Hm Hlt. destruct (count_in zss a) eqn:E; [done|]. exfalso. apply (Hm a); [lia|done]. }
    destruct (IdTriple.cmp x y) eqn:E.
    + apply triple_cmp_eq in E as <-. destruct (taken _ _ _ _ Hi Hsp) as (Hs1 & Hc1 & Hlen1). destruct (taken _ _ _ _ Hj Hsn) as (Hs2 & Hc2 & Hlen2).
      destruct (pop_spec _ _ _ _ _ Hp1 Hi) as (pos2 & -> & Hpos2). destruct (pop_spec _ _ _ _ _ Hn1 Hj) as (neg2 & -> & Hneg2).
      rewrite !bind_Some_eq. cbn [fst snd]. set (Ps' := <[_ := p]> Ps) in *. set (Ns' := <[_ := q]> Ns) in *.
      assert (Hb : forall z, balance Ps' Ns' z = balance Ps Ns z).
      { intros z. unfold balance. pose proof (Hc1 z). pose proof (Hc2 z). destruct (decide (z = x)); lia. }
      destruct (IH (mk_stack pos2 neg2) Ps' Ns') as (r & st' & Hn2 & Hspec); [by split|unfold size in *; lia|by intros; rewrite Hb|].
      exists r, st'. split; [done|]. destruct r as [[c z]|]; [|intros z; by rewrite <- Hb].
      destruct Hspec as [Hcz (P2 & N2 & Hr2 & Hsz & Hbal2 & Hmin2)]. rewrite Hb in Hcz. split; [done|]. exists P2, N2.
      split; [done|]. split; [unfold size in *; lia|]. split; [|done]. intros w. by rewrite Hbal2, Hb.
    + destruct (take_addition Ps Ns Hsp Hsn Hbal pos1 neg1 i x p Hi Hminp) as (pos2 & -> & H1 & H2); [by eapply Hnot| |done..|].
      { intros z Hz Hlt. apply (Hminn z Hz). by transitivity x. }
      rewrite bind_Some_eq. eexists _, _. split; [done|]. done.
    + apply triple_cmp_gt in E. destruct (take_removal Ps Ns Hsp Hsn Hbal pos1 neg1 j y q Hj Hminn) as (neg2 & -> & H1 & H2); [by eapply Hnot| |done..|].
      { intros z Hz Hlt. apply (Hminp z Hz). by transitivity y. }
      rewrite bind_Some_eq. eexists _, _. split; [done|]. done.
  - destruct Hlp as (x & p & Hi & Hminp).
    destruct (take_addition Ps Ns Hsp Hsn Hbal pos neg i x p Hi Hminp) as (pos2 & -> & H1 & H2); [done|intros z; rewrite Hln; lia|done..|].
    rewrite bind_Some_eq. eexists _, _. split; [done|]. done.
  - destruct Hln as (y & q & Hj & Hminn).
    destruct (take_removal Ps Ns Hsp Hsn Hbal pos neg j y q Hj Hminn) as (neg2 & -> & H1 & H2); [done|intros z; rewrite Hlp; lia|done..|].
    rewrite bind_Some_eq. eexists _, _. split; [done|]. done.
  - eexists None, _. split; [done|]. intros x. unfold balance. by rewrite Hlp, Hln.
Qed.

Lemma change_collect fuel : forall st Ps Ns, change_repr st Ps Ns -> (size Ps Ns < fuel)%nat ->
  (forall x, (-1 <= balance Ps Ns x <= 1)%Z) ->
  exists out, collect fuel st = Some out /\ StronglySorted triple_lt out.*2 /\
    forall c x, (c, x) ∈ out <-> change_of (balance Ps Ns x) = Some c.
Proof using All.
  induction fuel as [|fuel IH]; intros st Ps Ns Hr Hf Hbal; [lia|]. cbn [collect].
  destruct (change_next (S fuel) st Ps Ns Hr Hf Hbal) as (r & st' & -> & Hspec). rewrite bind_Some_eq. cbn [fst snd].
  destruct r as [[c x]|].
  - destruct Hspec as [Hc (Ps' & Ns' & Hr' & Hsz & Hbal' & Hmin)].
    destruct (IH st' Ps' Ns' Hr' ltac:(lia)) as (out & -> & Hs & Hin).
    { intros y. rewrite Hbal'. destruct (decide (y = x)); [done|apply Hbal]. }
    rewrite bind_Some_eq. exists ((c, x) :: out). split; [done|]. split.
    + cbn. constructor; [done|]. apply Forall_forall. intros y ([c' y'] & -> & Hy)%list_elem_of_fmap. cbn.
      apply Hin in Hy. destruct (decide (y' = x)) as [->|Hne]; [rewrite Hbal', decide_True in Hy by done; done|].
      destruct (triple_total x y') as [|[->|Hlt]]; [done|done|]. exfalso. apply (Hmin y'); [|done].
      assert (Hnz : balance Ps' Ns' y' <> 0%Z) by (intros E; rewrite E in Hy; done). unfold balance in Hnz. lia.
    + intros c' y. rewrite elem_of_cons, Hin, Hbal'. destruct (decide (y = x)) as [->|Hne].
      * split; [intros [[= ->]|?]; done|]. intros Hc'. left. congruence.
      * split; [intros [[= -> ->]|?]; done|by right].
  - exists []. split; [done|]. split; [constructor|]. intros c x. rewrite Hspec. split; [by intros ?%elem_of_nil|done].
Qed.
End changes.

(** In a stack over [parent] the balance is the difference that the stack makes. *)
Lemma stack_balance ls parent x : stack_ok (ls ++ [(parent, [])]) x ->
  balance ls.*1 ls.*2 x =
    ((if decide (stack_mem (ls ++ [(parent, [])]) x) then 1 else 0) - (if decide (x ∈ parent) then 1 else 0))%Z.
Proof.
  unfold balance. induction ls as [|[a r] ls IH].
  - intros _. cbn [app stack_mem fmap list_fmap]. destruct (decide (x ∈ parent)) as [Hx|Hx].
    + rewrite decide_True by (by left). done.
    + rewrite decide_False by tauto. done.
  - intros (Hok & Ha & Hr). specialize (IH Hok). cbn [fmap list_fmap fst snd app]. rewrite !count_in_cons. cbn [stack_mem].
    set (M := stack_mem (ls ++ [(parent, [])]) x) in *.
    destruct (decide (x ∈ a)) as [Hxa|Hxa].
    + destruct (Ha Hxa) as [Hxr Hm]. rewrite (decide_False (P := x ∈ r)) by done.
      rewrite (decide_True (P := x ∈ a \/ _)) by (by left). rewrite (decide_False (P := M)) in IH by done. lia.
    + destruct (decide (x ∈ r)) as [Hxr|Hxr].
      * rewrite (decide_False (P := x ∈ a \/ _)) by tauto. rewrite (decide_True (P := M)) in IH by (by apply Hr). lia.
      * destruct (decide M) as [HM|HM]; [rewrite decide_True by tauto|rewrite decide_False by tauto]; lia.
Qed.
