(* ===== verification/InternalLayers.v ===== *)
(** * Layers (src/layer/internal/mod.rs, base.rs, child.rs, rollup.rs and the
      [from_layer] functions of the stack iterators)

    A base layer holds its triples; a child layer holds what it adds to and
    removes from its parent; a rollup layer stands in for the layer it was
    built from.  All of them have dictionaries for the names they introduce. *)

From S2P Require Import Prelude.
From S2P Require Import Words.
From S2P Require Import LogArrays.
From S2P Require Import AdjacencyLists.
From S2P Require Import WaveletTrees.
From S2P Require Import PfcBlocks.
From S2P Require Import PfcDicts.
From S2P Require Import LayerTypes.
From S2P Require Import Triples.
From S2P Require Import IdMaps.
From S2P Require Import Iterators.
From S2P Require Import Stacks.
Open Scope N_scope.

(** ** Data *)

Module BaseLayer.
Record t : Type := mk {
  name : layer_name;
  node_dictionary : PfcDict.t;
  predicate_dictionary : PfcDict.t;
  value_dictionary : PfcDict.t;
  node_value_idmap : IdMap.t;
  predicate_idmap : IdMap.t;
  subjects : option LogArray.t;
  objects : option LogArray.t;
  s_p_adjacency_list : AdjacencyList.t;
  sp_o_adjacency_list : AdjacencyList.t;
  o_ps_adjacency_list : AdjacencyList.t;
  predicate_wavelet_tree : WaveletTree.t
}.
End BaseLayer.

(** [L]: the type of the parent. *)
Module ChildLayer.
Record t (L : Type) : Type := mk {
  name : layer_name;
  parent : L;
  node_dictionary : PfcDict.t;
  predicate_dictionary : PfcDict.t;
  value_dictionary : PfcDict.t;
  node_value_idmap : IdMap.t;
  predicate_idmap : IdMap.t;
  parent_node_value_count : N;
  parent_predicate_count : N;
  pos_subjects : LogArray.t;
  pos_objects : LogArray.t;
  pos_s_p_adjacency_list : AdjacencyList.t;
  pos_sp_o_adjacency_list : AdjacencyList.t;
  pos_o_ps_adjacency_list : AdjacencyList.t;
  neg_subjects : LogArray.t;
  neg_objects : LogArray.t;
  neg_s_p_adjacency_list : AdjacencyList.t;
  neg_sp_o_adjacency_list : AdjacencyList.t;
  neg_o_ps_adjacency_list : AdjacencyList.t;
  pos_predicate_wavelet_tree : WaveletTree.t;
  neg_predicate_wavelet_tree : WaveletTree.t
}.
Arguments mk {L}.
Arguments name {L}. Arguments parent {L}.
Arguments node_dictionary {L}. Arguments predicate_dictionary {L}. Arguments value_dictionary {L}.
Arguments node_value_idmap {L}. Arguments predicate_idmap {L}.
Arguments parent_node_value_count {L}. Arguments parent_predicate_count {L}.
Arguments pos_subjects {L}. Arguments pos_objects {L}. Arguments pos_s_p_adjacency_list {L}.
Arguments pos_sp_o_adjacency_list {L}. Arguments pos_o_ps_adjacency_list {L}.
Arguments neg_subjects {L}. Arguments neg_objects {L}. Arguments neg_s_p_adjacency_list {L}.
Arguments neg_sp_o_adjacency_list {L}. Arguments neg_o_ps_adjacency_list {L}.
Arguments pos_predicate_wavelet_tree {L}. Arguments neg_predicate_wavelet_tree {L}.
End ChildLayer.

Module RollupLayer.
Record t (L : Type) : Type := mk {
  internal : L;
  original : layer_name;
  original_parent : option layer_name
}.
Arguments mk {L}. Arguments internal {L}. Arguments original {L}. Arguments original_parent {L}.

Definition from_base_layer {L} (layer : L) (original : layer_name) (original_parent : option layer_name) : t L :=
  mk layer original original_parent.

Definition from_child_layer {L} (layer : L) (original original_parent : layer_name) : t L :=
  mk layer original (Some original_parent).
End RollupLayer.

#[warnings="-register-all"]
Inductive InternalLayer : Type :=
| Base (base : BaseLayer.t)
| Child (child : ChildLayer.t InternalLayer)
| Rollup (rollup : RollupLayer.t InternalLayer).

(** Induction on the layers below. *)
Lemma layer_induction (P : InternalLayer -> Prop) :
  (forall base, P (Base base)) ->
  (forall child, P (ChildLayer.parent child) -> P (Child child)) ->
  (forall rollup, P (RollupLayer.internal rollup) -> P (Rollup rollup)) ->
  forall l, P l.
Proof.
  intros HB HC HR. fix IH 1. intros [base|child|rollup]; [apply HB|apply HC, IH|apply HR, IH].
Qed.

(** ** Accessors *)

Module Internal.

Definition name (l : InternalLayer) : layer_name :=
  match l with
  | Base base => BaseLayer.name base
  | Child child => ChildLayer.name child
  | Rollup rollup => RollupLayer.original rollup
  end.

Definition parent_name (l : InternalLayer) : option layer_name :=
  match l with
  | Base _ => None
  | Child child => Some (name (ChildLayer.parent child))
  | Rollup rollup => RollupLayer.original_parent rollup
  end.

Fixpoint immediate_parent (l : InternalLayer) : option InternalLayer :=
  match l with
  | Base _ => None
  | Child child => Some (ChildLayer.parent child)
  | Rollup rollup => immediate_parent (RollupLayer.internal rollup)
  end.

Fixpoint node_dictionary (l : InternalLayer) : PfcDict.t :=
  match l with
  | Base base => BaseLayer.node_dictionary base
  | Child child => ChildLayer.node_dictionary child
  | Rollup rollup => node_dictionary (RollupLayer.internal rollup)
  end.

Fixpoint predicate_dictionary (l : InternalLayer) : PfcDict.t :=
  match l with
  | Base base => BaseLayer.predicate_dictionary base
  | Child child => ChildLayer.predicate_dictionary child
  | Rollup rollup => predicate_dictionary (RollupLayer.internal rollup)
  end.

Fixpoint value_dictionary (l : InternalLayer) : PfcDict.t :=
  match l with
  | Base base => BaseLayer.value_dictionary base
  | Child child => ChildLayer.value_dictionary child
  | Rollup rollup => value_dictionary (RollupLayer.internal rollup)
  end.

Fixpoint node_value_id_map (l : InternalLayer) : IdMap.t :=
  match l with
  | Base base => BaseLayer.node_value_idmap base
  | Child child => ChildLayer.node_value_idmap child
  | Rollup rollup => node_value_id_map (RollupLayer.internal rollup)
  end.

Fixpoint predicate_id_map (l : InternalLayer) : IdMap.t :=
  match l with
  | Base base => BaseLayer.predicate_idmap base
  | Child child => ChildLayer.predicate_idmap child
  | Rollup rollup => predicate_id_map (RollupLayer.internal rollup)
  end.

Fixpoint parent_node_value_count (l : InternalLayer) : N :=
  match l with
  | Base _ => 0
  | Child child => ChildLayer.parent_node_value_count child
  | Rollup rollup => parent_node_value_count (RollupLayer.internal rollup)
  end.

Fixpoint parent_predicate_count (l : InternalLayer) : N :=
  match l with
  | Base _ => 0
  | Child child => ChildLayer.parent_predicate_count child
  | Rollup rollup => parent_predicate_count (RollupLayer.internal rollup)
  end.

Fixpoint pos_s_p_adjacency_list (l : InternalLayer) : AdjacencyList.t :=
  match l with
  | Base base => BaseLayer.s_p_adjacency_list base
  | Child child => ChildLayer.pos_s_p_adjacency_list child
  | Rollup rollup => pos_s_p_adjacency_list (RollupLayer.internal rollup)
  end.

Fixpoint pos_sp_o_adjacency_list (l : InternalLayer) : AdjacencyList.t :=
  match l with
  | Base base => BaseLayer.sp_o_adjacency_list base
  | Child child => ChildLayer.pos_sp_o_adjacency_list child
  | Rollup rollup => pos_sp_o_adjacency_list (RollupLayer.internal rollup)
  end.

Fixpoint pos_o_ps_adjacency_list (l : InternalLayer) : AdjacencyList.t :=
  match l with
  | Base base => BaseLayer.o_ps_adjacency_list base
  | Child child => ChildLayer.pos_o_ps_adjacency_list child
  | Rollup rollup => pos_o_ps_adjacency_list (RollupLayer.internal rollup)
  end.

Fixpoint neg_s_p_adjacency_list (l : InternalLayer) : option AdjacencyList.t :=
  match l with
  | Base _ => None
  | Child child => Some (ChildLayer.neg_s_p_adjacency_list child)
  | Rollup rollup => neg_s_p_adjacency_list (RollupLayer.internal rollup)
  end.

Fixpoint neg_sp_o_adjacency_list (l : InternalLayer) : option AdjacencyList.t :=
  match l with
  | Base _ => None
  | Child child => Some (ChildLayer.neg_sp_o_adjacency_list child)
  | Rollup rollup => neg_sp_o_adjacency_list (RollupLayer.internal rollup)
  end.

Fixpoint neg_o_ps_adjacency_list (l : InternalLayer) : option AdjacencyList.t :=
  match l with
  | Base _ => None
  | Child child => Some (ChildLayer.neg_o_ps_adjacency_list child)
  | Rollup rollup => neg_o_ps_adjacency_list (RollupLayer.internal rollup)
  end.

Fixpoint pos_predicate_wavelet_tree (l : InternalLayer) : WaveletTree.t :=
  match l with
  | Base base => BaseLayer.predicate_wavelet_tree base
  | Child child => ChildLayer.pos_predicate_wavelet_tree child
  | Rollup rollup => pos_predicate_wavelet_tree (RollupLayer.internal rollup)
  end.

Fixpoint neg_predicate_wavelet_tree (l : InternalLayer) : option WaveletTree.t :=
  match l with
  | Base _ => None
  | Child child => Some (ChildLayer.neg_predicate_wavelet_tree child)
  | Rollup rollup => neg_predicate_wavelet_tree (RollupLayer.internal rollup)
  end.

Fixpoint pos_subjects (l : InternalLayer) : option LogArray.t :=
  match l with
  | Base base => BaseLayer.subjects base
  | Child child => Some (ChildLayer.pos_subjects child)
  | Rollup rollup => pos_subjects (RollupLayer.internal rollup)
  end.

Fixpoint pos_objects (l : InternalLayer) : option LogArray.t :=
  match l with
  | Base base => BaseLayer.objects base
  | Child child => Some (ChildLayer.pos_objects child)
  | Rollup rollup => pos_objects (RollupLayer.internal rollup)
  end.

Fixpoint neg_subjects (l : InternalLayer) : option LogArray.t :=
  match l with
  | Base _ => None
  | Child child => Some (ChildLayer.neg_subjects child)
  | Rollup rollup => neg_subjects (RollupLayer.internal rollup)
  end.

Fixpoint neg_objects (l : InternalLayer) : option LogArray.t :=
  match l with
  | Base _ => None
  | Child child => Some (ChildLayer.neg_objects child)
  | Rollup rollup => neg_objects (RollupLayer.internal rollup)
  end.

Definition predicate_dict_get `{BytesSize} (l : InternalLayer) (id : N) : option (option (list N)) := PfcDict.get (predicate_dictionary l) id.
Definition predicate_dict_len (l : InternalLayer) : N := PfcDict.len (predicate_dictionary l).
Definition predicate_dict_id `{BytesSize} (l : InternalLayer) (predicate : list N) : option (option N) := PfcDict.id (predicate_dictionary l) predicate.
Definition node_dict_id `{BytesSize} (l : InternalLayer) (subject : list N) : option (option N) := PfcDict.id (node_dictionary l) subject.
Definition node_dict_get `{BytesSize} (l : InternalLayer) (id : N) : option (option (list N)) := PfcDict.get (node_dictionary l) id.
Definition node_dict_len (l : InternalLayer) : N := PfcDict.len (node_dictionary l).
Definition value_dict_id `{BytesSize} (l : InternalLayer) (value : list N) : option (option N) := PfcDict.id (value_dictionary l) value.
Definition value_dict_len (l : InternalLayer) : N := PfcDict.len (value_dictionary l).
Definition value_dict_get `{BytesSize} (l : InternalLayer) (id : N) : option (option (list N)) := PfcDict.get (value_dictionary l) id.

(** ** The triples of one layer *)

Definition internal_triple_addition_exists (l : InternalLayer) (subject predicate object : N) : option bool :=
  layer_triple_exists (pos_subjects l) (pos_s_p_adjacency_list l) (pos_sp_o_adjacency_list l) subject predicate object.

Definition internal_triple_removal_exists (l : InternalLayer) (subject predicate object : N) : option bool :=
  match neg_subjects l, neg_s_p_adjacency_list l, neg_sp_o_adjacency_list l with
  | neg_subject, Some neg_s_p_adjacency_list, Some neg_sp_o_adjacency_list =>
      layer_triple_exists neg_subject neg_s_p_adjacency_list neg_sp_o_adjacency_list subject predicate object
  | _, _, _ => Some false
  end.

Definition internal_triple_additions (l : InternalLayer) : OptInternalLayerTripleSubjectIterator.t :=
  Some (InternalLayerTripleSubjectIterator.new (pos_subjects l) (pos_s_p_adjacency_list l) (pos_sp_o_adjacency_list l)).

Definition internal_triple_removals (l : InternalLayer) : OptInternalLayerTripleSubjectIterator.t :=
  match neg_subjects l, neg_s_p_adjacency_list l, neg_sp_o_adjacency_list l with
  | neg_subjects, Some neg_s_p_adjacency_list, Some neg_sp_o_adjacency_list =>
      Some (InternalLayerTripleSubjectIterator.new neg_subjects neg_s_p_adjacency_list neg_sp_o_adjacency_list)
  | _, _, _ => None
  end.

(** No more triples than pairs: the fuel that drains the iterators. *)
Definition addition_fuel (l : InternalLayer) : nat :=
  S (N.to_nat (AdjacencyList.right_count (pos_sp_o_adjacency_list l))).
Definition removal_fuel (l : InternalLayer) : nat :=
  match neg_sp_o_adjacency_list l with Some al => S (N.to_nat (AdjacencyList.right_count al)) | None => 1 end.

(** The iterators of a subject, drained. *)
Definition internal_triple_additions_s (l : InternalLayer) (subject : N) : option (list IdTriple.t) :=
  it ← OptInternalLayerTripleSubjectIterator.seek_subject_ref (internal_triple_additions l) subject;
  it_take_while (addition_fuel l) it (fun t => IdTriple.subject t =? subject).

Definition internal_triple_removals_s (l : InternalLayer) (subject : N) : option (list IdTriple.t) :=
  it ← OptInternalLayerTripleSubjectIterator.seek_subject_ref (internal_triple_removals l) subject;
  it_take_while (removal_fuel l) it (fun t => IdTriple.subject t =? subject).

Definition internal_triple_additions_sp (l : InternalLayer) (subject predicate : N) : option (list IdTriple.t) :=
  it ← OptInternalLayerTripleSubjectIterator.seek_subject_predicate_ref (internal_triple_additions l) subject predicate;
  it_take_while (addition_fuel l) it (fun t => (IdTriple.predicate t =? predicate) && (IdTriple.subject t =? subject)).

Definition internal_triple_removals_sp (l : InternalLayer) (subject predicate : N) : option (list IdTriple.t) :=
  it ← OptInternalLayerTripleSubjectIterator.seek_subject_predicate_ref (internal_triple_removals l) subject predicate;
  it_take_while (removal_fuel l) it (fun t => (IdTriple.predicate t =? predicate) && (IdTriple.subject t =? subject)).

Definition internal_triple_additions_p (l : InternalLayer) (predicate : N) : option OptInternalLayerTriplePredicateIterator.t :=
  r ← lookup (pos_predicate_wavelet_tree l) predicate;
  match r with
  | Some lookup =>
      it ← InternalLayerTriplePredicateIterator.new lookup (pos_subjects l) (pos_s_p_adjacency_list l) (pos_sp_o_adjacency_list l);
      Some (Some it)
  | None => Some None
  end.

Definition internal_triple_removals_p (l : InternalLayer) (predicate : N) : option OptInternalLayerTriplePredicateIterator.t :=
  r ← (match neg_predicate_wavelet_tree l with Some t => lookup t predicate | None => Some None end);
  match r, neg_s_p_adjacency_list l, neg_sp_o_adjacency_list l with
  | Some lookup, Some s_p_adjacency_list, Some sp_o_adjacency_list =>
      it ← InternalLayerTriplePredicateIterator.new lookup (neg_subjects l) s_p_adjacency_list sp_o_adjacency_list;
      Some (Some it)
  | _, _, _ => Some None
  end.

Definition internal_triple_additions_by_object (l : InternalLayer) : OptInternalLayerTripleObjectIterator.t :=
  Some (InternalLayerTripleObjectIterator.new (pos_subjects l) (pos_objects l) (pos_o_ps_adjacency_list l) (pos_s_p_adjacency_list l)).

Definition internal_triple_additions_o (l : InternalLayer) (object : N) : option (list IdTriple.t) :=
  it ← OptInternalLayerTripleObjectIterator.seek_object_ref (internal_triple_additions_by_object l) object;
  it_take_while (addition_fuel l) it (fun t => IdTriple.object t =? object).

Definition internal_triple_removals_by_object (l : InternalLayer) : OptInternalLayerTripleObjectIterator.t :=
  match neg_subjects l, neg_objects l, neg_o_ps_adjacency_list l, neg_s_p_adjacency_list l with
  | neg_subjects, neg_objects, Some neg_o_ps_adjacency_list, Some neg_s_p_adjacency_list =>
      Some (InternalLayerTripleObjectIterator.new neg_subjects neg_objects neg_o_ps_adjacency_list neg_s_p_adjacency_list)
  | _, _, _, _ => None
  end.

Definition internal_triple_removals_o (l : InternalLayer) (object : N) : option (list IdTriple.t) :=
  it ← OptInternalLayerTripleObjectIterator.seek_object_ref (internal_triple_removals_by_object l) object;
  it_take_while (removal_fuel l) it (fun t => IdTriple.object t =? object).

(** The number of gaps, [lookup(0)]. *)
Definition gap_count (wt : WaveletTree.t) : option N :=
  r ← lookup wt 0;
  match r with Some l => WaveletLookup.len l | None => Some 0 end.

Definition internal_triple_layer_addition_count (l : InternalLayer) : option N :=
  gaps ← gap_count (pos_predicate_wavelet_tree l);
  csub (AdjacencyList.right_count (pos_sp_o_adjacency_list l)) gaps.

Definition internal_triple_layer_removal_count (l : InternalLayer) : option N :=
  match neg_sp_o_adjacency_list l with
  | None => Some 0
  | Some adjacency_list =>
      wt ← neg_predicate_wavelet_tree l;
      gaps ← gap_count wt;
      csub (AdjacencyList.right_count adjacency_list) gaps
  end.

(** ** The stack of a layer *)

(** The layers that [immediate_parent] gives from a layer on, the layer first. *)
Fixpoint stack_of (l : InternalLayer) : list InternalLayer :=
  l :: match l with
       | Base _ => []
       | Child child => stack_of (ChildLayer.parent child)
       | Rollup rollup => tail (stack_of (RollupLayer.internal rollup))
       end.

Definition parents_of (l : InternalLayer) : list InternalLayer := tail (stack_of l).

Definition immediate_layers (l : InternalLayer) : list InternalLayer := rev (stack_of l).

(** The layers above the boundary. *)
Fixpoint layers_above (stack : list InternalLayer) (upto_layer_id : layer_name) : option (list InternalLayer) :=
  match stack with
  | [] => None
  | l :: stack =>
      if decide (name l = upto_layer_id) then Some []
      else ls ← layers_above stack upto_layer_id; Some (l :: ls)
  end.

Definition immediate_layers_upto (l : InternalLayer) (upto_layer_id : layer_name) : option (list InternalLayer) :=
  if decide (name l = upto_layer_id) then None
  else ls ← layers_above (stack_of l) upto_layer_id; Some (rev ls).

Definition is_rollup (l : InternalLayer) : bool :=
  match l with Rollup _ => true | _ => false end.

Lemma stack_of_cons l : stack_of l = l :: parents_of l.
Proof. by destruct l. Qed.

(** The loops follow [immediate_parent]. *)
Lemma parents_of_spec l : parents_of l = match immediate_parent l with Some p => stack_of p | None => [] end.
Proof.
  induction l as [base|child _|rollup IH] using layer_induction; [done|done|].
  cbn [immediate_parent]. rewrite <- IH. unfold parents_of. cbn [stack_of tail]. by rewrite (stack_of_cons (RollupLayer.internal rollup)).
Qed.

End Internal.
