(* ===== verification/LayerNames.v ===== *)
(** * The names of a layer ([impl Layer for InternalLayer] of
      src/layer/internal/mod.rs, without the triples)

    Ids are given to the nodes and values, and to the predicates, of a layer
    after those of the layers below it.  The operations search the stack for
    the layer that a string or an id belongs to. *)

From S2P Require Import Prelude.
From S2P Require Import Words.
From S2P Require Import Strings.
From S2P Require Import PfcBlocks.
From S2P Require Import PfcDicts.
From S2P Require Import WaveletTrees.
From S2P Require Import LayerTypes.
From S2P Require Import LayerModel.
From S2P Require Import IdMaps.
From S2P Require Import InternalLayers.
Open Scope N_scope.

Module LayerNames.
Import Internal.

Definition node_and_value_count (l : InternalLayer) : option N :=
  c ← cadd 64 (parent_node_value_count l) (node_dict_len l);
  cadd 64 c (value_dict_len l).

Definition layer_predicate_count (l : InternalLayer) : option N :=
  cadd 64 (parent_predicate_count l) (predicate_dict_len l).

(** The loop that looks for a layer in which [to_result] finds an id: the id
    and the parent of the layer. *)
Fixpoint find_id (to_result : InternalLayer -> option (option N)) (l : InternalLayer) (parents : list InternalLayer)
    : option (option N * option InternalLayer) :=
  r ← to_result l;
  match r, parents with
  | None, parent :: parents => find_id to_result parent parents
  | _, _ => Some (r, head parents)
  end.

(** [id_option.map(|id| 1 + id + parent_option.map_or(0, |p| p.count()))]. *)
Definition global_id (count : InternalLayer -> option N) (r : option N * option InternalLayer) : option (option N) :=
  let '(id_option, parent_option) := r in
  match id_option with
  | None => Some None
  | Some id =>
      id ← cadd 64 1 id;
      c ← (match parent_option with Some p => count p | None => Some 0 end);
      id ← cadd 64 id c;
      Some (Some id)
  end.

Section names.
Context `{BytesSize}.

Definition node_result (node : list N) (layer : InternalLayer) : option (option N) :=
  r ← node_dict_id layer node;
  match r with
  | Some id => o ← IdMap.inner_to_outer (node_value_id_map layer) id; Some (Some o)
  | None => Some None
  end.

Definition value_result (value : list N) (layer : InternalLayer) : option (option N) :=
  r ← value_dict_id layer value;
  match r with
  | Some i => i ← cadd 64 i (node_dict_len layer); o ← IdMap.inner_to_outer (node_value_id_map layer) i; Some (Some o)
  | None => Some None
  end.

Definition predicate_result (predicate : list N) (layer : InternalLayer) : option (option N) :=
  r ← predicate_dict_id layer predicate;
  match r with
  | Some id => o ← IdMap.inner_to_outer (predicate_id_map layer) id; Some (Some o)
  | None => Some None
  end.

Definition subject_id (l : InternalLayer) (subject : list N) : option (option N) :=
  r ← find_id (node_result subject) l (parents_of l);
  global_id node_and_value_count r.

Definition predicate_id (l : InternalLayer) (predicate : list N) : option (option N) :=
  r ← find_id (predicate_result predicate) l (parents_of l);
  global_id layer_predicate_count r.

Definition object_node_id (l : InternalLayer) (object : list N) : option (option N) :=
  r ← find_id (node_result object) l (parents_of l);
  global_id node_and_value_count r.

Definition object_value_id (l : InternalLayer) (object : list N) : option (option N) :=
  r ← find_id (value_result object) l (parents_of l);
  global_id node_and_value_count r.

(** The loop that looks for the layer of an id; [parent_count], from which
    [shrink] takes what the layer itself has, counts the ids up to the layer.
    The result has the id within its layer. *)
Fixpoint locate (shrink : InternalLayer -> N -> option N) (l : InternalLayer) (parents : list InternalLayer)
    (corrected_id parent_count : N) : option (InternalLayer * N) :=
  match parents with
  | parent :: parents =>
      parent_count ← shrink l parent_count;
      if parent_count <=? corrected_id then Some (l, corrected_id - parent_count)
      else locate shrink parent parents corrected_id parent_count
  | [] => Some (l, corrected_id)
  end.

Definition shrink_nodes (l : InternalLayer) (parent_count : N) : option N :=
  parent_count ← csub parent_count (node_dict_len l);
  csub parent_count (value_dict_len l).

Definition shrink_predicates (l : InternalLayer) (parent_count : N) : option N :=
  csub parent_count (predicate_dict_len l).

Definition id_subject (l : InternalLayer) (id : N) : option (option (list N)) :=
  if id =? 0 then Some None
  else
    parent_count ← node_and_value_count l;
    '(current_layer, corrected_id) ← locate shrink_nodes l (parents_of l) (id - 1) parent_count;
    i ← IdMap.outer_to_inner (node_value_id_map current_layer) corrected_id;
    node_dict_get current_layer i.

Definition id_predicate (l : InternalLayer) (id : N) : option (option (list N)) :=
  if id =? 0 then Some None
  else
    parent_count ← layer_predicate_count l;
    '(current_layer, corrected_id) ← locate shrink_predicates l (parents_of l) (id - 1) parent_count;
    i ← IdMap.outer_to_inner (predicate_id_map current_layer) corrected_id;
    predicate_dict_get current_layer i.

Definition id_object (l : InternalLayer) (id : N) : option (option ObjectType) :=
  if id =? 0 then Some None
  else
    parent_count ← node_and_value_count l;
    '(current_layer, corrected_id) ← locate shrink_nodes l (parents_of l) (id - 1) parent_count;
    corrected_id ← IdMap.outer_to_inner (node_value_id_map current_layer) corrected_id;
    if node_dict_len current_layer <=? corrected_id then
      r ← value_dict_get current_layer (corrected_id - node_dict_len current_layer);
      Some (option_map Value r)
    else
      r ← node_dict_get current_layer corrected_id;
      Some (option_map Node r).
End names.

(** The sums over the stack. *)
Fixpoint add_counts (parents : list InternalLayer) (node_count predicate_count value_count : N) : option LayerCounts :=
  match parents with
  | [] => Some (mk_counts node_count predicate_count value_count)
  | parent :: parents =>
      node_count ← cadd 64 node_count (node_dict_len parent);
      predicate_count ← cadd 64 predicate_count (predicate_dict_len parent);
      value_count ← cadd 64 value_count (value_dict_len parent);
      add_counts parents node_count predicate_count value_count
  end.

Definition all_counts (l : InternalLayer) : option LayerCounts :=
  add_counts (parents_of l) (node_dict_len l) (predicate_dict_len l) (value_dict_len l).

End LayerNames.

(** ** What the names of a stack are *)

(** The dictionaries and maps of a layer hold [n]. *)
Definition layer_names (l : InternalLayer) (n : names) : Prop :=
  names_repr (Internal.node_dictionary l) (Internal.predicate_dictionary l) (Internal.value_dictionary l)
    (Internal.node_value_id_map l) (Internal.predicate_id_map l) n /\ names_ok n.

(** Those of the layers of a stack, the topmost first. *)
Fixpoint stack_names (stack : list InternalLayer) (ns : list names) : Prop :=
  match stack, ns with
  | [], [] => True
  | l :: stack, n :: ns =>
      layer_names l n /\ Internal.parent_node_value_count l = count_of ns /\
      Internal.parent_predicate_count l = predicate_count_of ns /\ stack_names stack ns
  | _, _ => False
  end.

Definition has_names (l : InternalLayer) (ns : list names) : Prop := stack_names (Internal.stack_of l) ns.

(** All entries, those of the lowest layer first. *)
Definition all_entries (ns : list names) : list ObjectType := concat (entries_of_names <$> rev ns).
Definition all_predicates (ns : list names) : list (list N) := concat (predicates_of_names <$> rev ns).

Lemma stack_names_ok stack ns : stack_names stack ns -> Forall names_ok ns.
Proof.
  revert stack. induction ns as [|n ns IH]; intros [|l stack]; try done. intros ([_ Hn] & _ & _ & Hs). constructor; [done|by eapply IH].
Qed.

(** *** The search of a stack, for whatever the layers have *)

Section search.
Context {A : Type} (E : names -> list A) (count : list names -> N).
Hypothesis count_cons : forall n ns, names_ok n -> count (n :: ns) = lenN (E n) + count ns.
Hypothesis count_nil : count [] = 0.

Definition all_of (ns : list names) : list A := concat (E <$> rev ns).

Lemma all_of_cons n ns : all_of (n :: ns) = all_of ns ++ E n.
Proof using. unfold all_of. cbn [rev]. rewrite fmap_app, concat_app. cbn. by rewrite app_nil_r. Qed.

Lemma lenN_all_of ns : Forall names_ok ns -> lenN (all_of ns) = count ns.
Proof using All.
  induction 1 as [|n ns Hn _ IH]; [by rewrite count_nil|]. rewrite all_of_cons, lenN_app, IH, (count_cons n ns Hn). lia.
Qed.

Lemma all_of_layer pre n ns o x : Forall names_ok ns -> (E n).[o] = Some x -> (all_of (pre ++ n :: ns)).[count ns + o] = Some x.
Proof using All.
  intros Hok Ho. assert (Hn : (all_of (n :: ns)).[count ns + o] = Some x).
  { rewrite all_of_cons, nget_app_r; rewrite lenN_all_of by done; [|lia]. by replace (count ns + o - count ns) with o by lia. }
  induction pre as [|n' pre IH]; [done|]. cbn [app]. rewrite all_of_cons, nget_app_l; [done|]. by eapply nget_Some_lt.
Qed.

Lemma find_id_spec (x : A) f (Hf : forall l n, layer_names l n -> size_of n < 2 ^ 64 -> exists r, f l = Some r /\
    match r with Some o => (E n).[o] = Some x | None => x ∉ E n end) :
  forall parents l n ns, stack_names (l :: parents) (n :: ns) -> count_of (n :: ns) < 2 ^ 64 ->
  exists r po, LayerNames.find_id f l parents = Some (r, po) /\
    match r with
    | None => x ∉ all_of (n :: ns)
    | Some o => exists pre n' ns', n :: ns = pre ++ n' :: ns' /\ (E n').[o] = Some x /\
        match po with None => ns' = [] | Some p => exists ps, stack_names (p :: ps) ns' end
    end.
Proof using All.
  induction parents as [|p parents IH]; intros l n ns Hs Hsz; pose proof Hs as (Hln & _ & _ & Hs'); cbn [LayerNames.find_id];
    cbn [count_of foldr] in Hsz; fold (count_of ns) in Hsz; destruct (Hf l n Hln ltac:(lia)) as (r & -> & Hr); rewrite bind_Some_eq; (destruct r as [o|]).
  - destruct ns as [|? ?]; [|done]. exists (Some o), None. split; [done|]. by exists [], n, [].
  - destruct ns as [|? ?]; [|done]. exists None, None. split; [done|]. by rewrite all_of_cons.
  - exists (Some o), (Some p). split; [done|]. exists [], n, ns. split; [done|]. split; [done|]. by exists parents.
  - destruct ns as [|n2 ns]; [done|]. destruct (IH p n2 ns Hs' ltac:(lia)) as (r & po & -> & Hspec). exists r, po. split; [done|].
    destruct r as [o|].
    + destruct Hspec as (pre & n' & ns' & -> & ? & ?). by exists (n :: pre), n', ns'.
    + rewrite all_of_cons. intros [?|?]%elem_of_app; done.
Qed.

Lemma global_id_spec (x : A) f l ns cnt (Hf : forall l n, layer_names l n -> size_of n < 2 ^ 64 -> exists r, f l = Some r /\
    match r with Some o => (E n).[o] = Some x | None => x ∉ E n end)
    (Hcnt : forall l ps ns, stack_names (l :: ps) ns -> count ns < 2 ^ 64 -> cnt l = Some (count ns)) :
  has_names l ns -> count_of ns < 2 ^ 64 -> count ns < 2 ^ 64 ->
  exists r, (r ← LayerNames.find_id f l (Internal.parents_of l); LayerNames.global_id cnt r) = Some r /\
    match r with
    | None => x ∉ all_of ns
    | Some id => 1 <= id /\ (all_of ns).[id - 1] = Some x
    end.
Proof using All.
  intros Hl Hsz Hc. unfold has_names in Hl. rewrite Internal.stack_of_cons in Hl. pose proof (stack_names_ok _ _ Hl) as Hok.
  destruct ns as [|n ns]; [done|].
  destruct (find_id_spec x f Hf _ _ _ _ Hl Hsz) as (r & po & -> & Hr). rewrite bind_Some_eq. unfold LayerNames.global_id.
  destruct r as [o|]; [|exists None; done]. destruct Hr as (pre & n' & ns' & Epre & Ho & Hpo).
  rewrite Epre in Hc, Hok |- *. pose proof Hok as Hall. apply Forall_app in Hok as [_ [Hn' Hns']%Forall_cons].
  pose proof (all_of_layer pre n' ns' o x Hns' Ho) as Hx. pose proof (nget_Some_lt _ _ _ Hx) as Hlt.
  rewrite lenN_all_of in Hlt by done.
  assert (Hp : (match po with Some p => cnt p | None => Some 0 end) = Some (count ns')).
  { destruct po as [p|]; [|by rewrite Hpo, count_nil]. destruct Hpo as [ps Hps]. apply (Hcnt p ps ns' Hps). lia. }
  rewrite cadd_Some, bind_Some_eq, Hp, bind_Some_eq, cadd_Some, bind_Some_eq by lia. eexists. split; [done|]. split; [lia|].
  rewrite <- Hx. f_equal. lia.
Qed.

Lemma locate_spec shrink (Hshrink : forall l n c, layer_names l n -> shrink l (lenN (E n) + c) = Some c) :
  forall parents l ns id, stack_names (l :: parents) ns ->
  exists l' n' o, LayerNames.locate shrink l parents id (count ns) = Some (l', o) /\ layer_names l' n' /\
    (E n').[o] = (all_of ns).[id].
Proof using All.
  induction parents as [|p parents IH]; intros l ns id Hs; (destruct ns as [|n ns]; [done|]); pose proof Hs as (Hln & _ & _ & Hs').
  - destruct ns; [|done]. exists l, n, id. split; [done|]. split; [done|]. by rewrite all_of_cons.
  - cbn [LayerNames.locate]. rewrite (count_cons n ns) by apply Hln. rewrite (Hshrink l n _ Hln), bind_Some_eq.
    pose proof (stack_names_ok _ _ Hs') as Hok. pose proof (lenN_all_of ns Hok) as Hlen. rewrite all_of_cons.
    destruct (N.leb_spec (count ns) id) as [Hle|Hlt].
    + exists l, n, (id - count ns). split; [done|]. split; [done|]. by rewrite nget_app_r, Hlen by (by rewrite Hlen).
    + destruct (IH p ns id Hs') as (l' & n' & o & -> & Hl' & Ho). exists l', n', o. split; [done|]. split; [done|].
      rewrite Ho. symmetry. apply nget_app_l. by rewrite Hlen.
Qed.
End search.

Lemma count_of_cons n ns : names_ok n -> count_of (n :: ns) = lenN (entries_of_names n) + count_of ns.
Proof. intros Hn. rewrite (proj1 (entries_of_names_spec n Hn)). done. Qed.

Lemma predicate_count_of_cons n ns : names_ok n -> predicate_count_of (n :: ns) = lenN (predicates_of_names n) + predicate_count_of ns.
Proof. intros Hn. rewrite (proj1 (predicates_of_names_spec n Hn)). done. Qed.

Section layer.
Context `{BytesSize}.
Import Internal LayerNames.

Lemma layer_lens l n : layer_names l n -> node_dict_len l = lenN (nodes n) /\ value_dict_len l = lenN (values n) /\
  predicate_dict_len l = lenN (predicates n).
Proof using.
  intros [[Hn Hp Hv _ _] _]. split; [apply Hn|]. split; [apply Hv|apply Hp].
Qed.

Lemma node_result_spec s l n : nodes n <> [] \/ s <> [] -> layer_names l n -> exists r, node_result s l = Some r /\
  match r with Some o => (entries_of_names n).[o] = Some (Node s) | None => Node s ∉ entries_of_names n end.
Proof.
  intros Hs [[Hd _ _ Hm _] Hok]. unfold node_result, node_dict_id. destruct (dict_id_spec _ _ Hd s) as (r & -> & Hr); [done|].
  rewrite bind_Some_eq. destruct (entries_of_names_spec n Hok) as [Hl Hget]. destruct Hok as (Hp & Hlen & _). destruct r as [i|].
  - rewrite (inner_to_outer_spec _ _ i Hm). pose proof (nget_Some_lt _ _ _ Hr) as Hi.
    destruct (nget_lt (node_value_perm n) i) as [o Ho]; [lia|]. rewrite Ho, bind_Some_eq. exists (Some o). split; [done|].
    rewrite (Hget i o Ho), nget_app_l by (by rewrite lenN_map). by rewrite nget_map, Hr.
  - exists None. split; [done|]. unfold entries_of_names. rewrite arrange_perm by (by rewrite ?lenN_app, ?lenN_map).
    intros [(t & [= <-] & Ht)%list_elem_of_fmap|(t & [=] & _)%list_elem_of_fmap]%elem_of_app. done.
Qed.

Lemma value_result_spec s l n : values n <> [] \/ s <> [] -> layer_names l n -> lenN (nodes n) + lenN (values n) < 2 ^ 64 -> exists r, value_result s l = Some r /\
  match r with Some o => (entries_of_names n).[o] = Some (Value s) | None => Value s ∉ entries_of_names n end.
Proof.
  intros Hs Hln Hsz. destruct (layer_lens l n Hln) as (Hnl & _). destruct Hln as [[_ _ Hd Hm _] Hok].
  unfold value_result, value_dict_id. destruct (dict_id_spec _ _ Hd s) as (r & -> & Hr); [done|].
  rewrite bind_Some_eq. destruct (entries_of_names_spec n Hok) as [Hl Hget]. destruct Hok as (Hp & Hlen & _). destruct r as [i|].
  - pose proof (nget_Some_lt _ _ _ Hr) as Hi. rewrite Hnl, cadd_Some, bind_Some_eq by lia. rewrite (inner_to_outer_spec _ _ _ Hm).
    destruct (nget_lt (node_value_perm n) (i + lenN (nodes n))) as [o Ho]; [lia|]. rewrite Ho, bind_Some_eq. exists (Some o). split; [done|].
    rewrite (Hget _ o Ho), nget_app_r by (rewrite lenN_map; lia). rewrite lenN_map, N.add_sub. by rewrite nget_map, Hr.
  - exists None. split; [done|]. unfold entries_of_names. rewrite arrange_perm by (by rewrite ?lenN_app, ?lenN_map).
    intros [(t & [=] & _)%list_elem_of_fmap|(t & [= <-] & Ht)%list_elem_of_fmap]%elem_of_app. done.
Qed.

Lemma predicate_result_spec s l n : predicates n <> [] \/ s <> [] -> layer_names l n -> exists r, predicate_result s l = Some r /\
  match r with Some o => (predicates_of_names n).[o] = Some s | None => s ∉ predicates_of_names n end.
Proof.
  intros Hs [[_ Hd _ _ Hm] Hok]. unfold predicate_result, predicate_dict_id. destruct (dict_id_spec _ _ Hd s) as (r & -> & Hr); [done|].
  rewrite bind_Some_eq. destruct (predicates_of_names_spec n Hok) as [Hl Hget]. destruct Hok as (_ & _ & Hp & Hlen). destruct r as [i|].
  - rewrite (inner_to_outer_spec _ _ i Hm). pose proof (nget_Some_lt _ _ _ Hr) as Hi.
    destruct (nget_lt (predicate_perm n) i) as [o Ho]; [lia|]. rewrite Ho, bind_Some_eq. exists (Some o). split; [done|].
    by rewrite (Hget i o Ho), Hr.
  - exists None. split; [done|]. unfold predicates_of_names. by rewrite arrange_perm.
Qed.

Lemma node_and_value_count_spec l ps ns : stack_names (l :: ps) ns -> count_of ns < 2 ^ 64 ->
  node_and_value_count l = Some (count_of ns).
Proof using.
  destruct ns as [|n ns]; [done|]. intros (Hln & Hc & _) Hlt. destruct (layer_lens l n Hln) as (Hn & Hv & _).
  unfold node_and_value_count. rewrite Hc, Hn, Hv. cbn [count_of foldr] in *. fold (count_of ns) in *. unfold size_of in *.
  rewrite cadd_Some, bind_Some_eq, cadd_Some by lia. f_equal. lia.
Qed.

Lemma predicate_count_spec l ps ns : stack_names (l :: ps) ns -> predicate_count_of ns < 2 ^ 64 ->
  layer_predicate_count l = Some (predicate_count_of ns).
Proof using.
  destruct ns as [|n ns]; [done|]. intros (Hln & _ & Hc & _) Hlt. destruct (layer_lens l n Hln) as (_ & _ & Hp).
  unfold layer_predicate_count. rewrite Hc, Hp. cbn [predicate_count_of foldr] in *. fold (predicate_count_of ns) in *.
  rewrite cadd_Some by lia. f_equal. lia.
Qed.

(** An id within a layer. *)
Lemma node_at_spec l n o : layer_names l n -> (i ← IdMap.outer_to_inner (node_value_id_map l) o; node_dict_get l i) =
  Some (x ← (entries_of_names n).[o]; match x with Node s => Some s | Value _ => None end).
Proof.
  intros [[Hd _ _ Hm _] Hok]. destruct (entries_of_names_spec n Hok) as [Hl Hget]. destruct Hok as (Hp & Hlen & _).
  unfold node_dict_get. destruct (N.lt_ge_cases o (lenN (node_value_perm n))) as [Hlt|Hge].
  - destruct (perm_onto _ o Hp Hlt) as [i Hi]. rewrite (outer_to_inner_spec _ _ i o Hm Hi), bind_Some_eq.
    rewrite (dict_get_spec _ _ Hd), (Hget i o Hi). destruct (N.lt_ge_cases i (lenN (nodes n))) as [Hil|Hig].
    + rewrite nget_app_l, nget_map by (by rewrite lenN_map). by destruct (nget_lt _ _ Hil) as [s ->].
    + rewrite nget_app_r, nget_map by (by rewrite lenN_map). rewrite (proj2 (nget_None (nodes n) i) Hig).
      by destruct ((values n).[i - lenN (Node <$> nodes n)]).
  - rewrite (outer_to_inner_past _ _ _ Hm Hge), bind_Some_eq, (dict_get_spec _ _ Hd).
    rewrite !(proj2 (nget_None _ _)); [done|lia|lia].
Qed.

Lemma object_at_spec l n o : layer_names l n ->
  (i ← IdMap.outer_to_inner (node_value_id_map l) o;
   if node_dict_len l <=? i then r ← value_dict_get l (i - node_dict_len l); Some (option_map Value r)
   else r ← node_dict_get l i; Some (option_map Node r)) = Some ((entries_of_names n).[o]).
Proof.
  intros Hln. destruct (layer_lens l n Hln) as (-> & _). destruct Hln as [[Hd _ Hv Hm _] Hok].
  destruct (entries_of_names_spec n Hok) as [Hl Hget]. destruct Hok as (Hp & Hlen & _). unfold value_dict_get, node_dict_get.
  destruct (N.lt_ge_cases o (lenN (node_value_perm n))) as [Hlt|Hge].
  - destruct (perm_onto _ o Hp Hlt) as [i Hi]. rewrite (outer_to_inner_spec _ _ i o Hm Hi), bind_Some_eq, (Hget i o Hi).
    rewrite (dict_get_spec _ _ Hd), (dict_get_spec _ _ Hv), !bind_Some_eq. destruct (N.leb_spec (lenN (nodes n)) i) as [Hle|Hgt].
    + rewrite nget_app_r, lenN_map, nget_map by (by rewrite lenN_map). by destruct ((values n).[_]).
    + rewrite nget_app_l, nget_map by (by rewrite lenN_map). by destruct ((nodes n).[_]).
  - rewrite (outer_to_inner_past _ _ _ Hm Hge), bind_Some_eq, (dict_get_spec _ _ Hd), (dict_get_spec _ _ Hv), !bind_Some_eq.
    rewrite (proj2 (nget_None (entries_of_names n) o)) by lia. destruct (N.leb_spec (lenN (nodes n)) o) as [Hle|Hgt]; [|lia].
    by rewrite (proj2 (nget_None _ _)) by lia.
Qed.

Lemma predicate_at_spec l n o : layer_names l n -> (i ← IdMap.outer_to_inner (predicate_id_map l) o; predicate_dict_get l i) =
  Some ((predicates_of_names n).[o]).
Proof.
  intros [[_ Hd _ _ Hm] Hok]. destruct (predicates_of_names_spec n Hok) as [Hl Hget]. destruct Hok as (_ & _ & Hp & Hlen).
  unfold predicate_dict_get. destruct (N.lt_ge_cases o (lenN (predicate_perm n))) as [Hlt|Hge].
  - destruct (perm_onto _ o Hp Hlt) as [i Hi]. rewrite (outer_to_inner_spec _ _ i o Hm Hi), bind_Some_eq.
    by rewrite (dict_get_spec _ _ Hd), (Hget i o Hi).
  - rewrite (outer_to_inner_past _ _ _ Hm Hge), bind_Some_eq, (dict_get_spec _ _ Hd).
    rewrite !(proj2 (nget_None _ _)); [done|lia|lia].
Qed.

Lemma shrink_nodes_spec l' n c : layer_names l' n -> shrink_nodes l' (lenN (entries_of_names n) + c) = Some c.
Proof using.
  intros Hln. unfold shrink_nodes. destruct (layer_lens l' n Hln) as (-> & -> & _). rewrite (proj1 (entries_of_names_spec n (proj2 Hln))).
  rewrite csub_Some, bind_Some_eq, csub_Some by lia. f_equal. lia.
Qed.

Lemma shrink_predicates_spec l' n c : layer_names l' n -> shrink_predicates l' (lenN (predicates_of_names n) + c) = Some c.
Proof using.
  intros Hln. unfold shrink_predicates. destruct (layer_lens l' n Hln) as (_ & _ & ->). rewrite (proj1 (predicates_of_names_spec n (proj2 Hln))).
  rewrite csub_Some by lia. f_equal. lia.
Qed.

Lemma add_counts_spec : forall ps ms a b c, stack_names ps ms -> a + c + count_of ms < 2 ^ 64 -> b + predicate_count_of ms < 2 ^ 64 ->
  exists r, add_counts ps a b c = Some r /\ node_count r + value_count r = a + c + count_of ms /\
    predicate_count r = b + predicate_count_of ms.
Proof using.
  induction ps as [|p ps IH]; intros [|n ms] a b c Hs Ha Hb; try done.
  - cbn in *. eexists. split; [done|]. cbn. lia.
  - destruct Hs as (Hln & _ & _ & Hs). destruct (layer_lens p n Hln) as (Hn & Hv & Hp). cbn [add_counts].
    cbn [count_of predicate_count_of foldr] in *. fold (count_of ms) (predicate_count_of ms) in *. unfold size_of in *.
    rewrite Hn, Hv, Hp, !cadd_Some, !bind_Some_eq by lia.
    destruct (IH ms (a + lenN (nodes n)) (b + lenN (predicates n)) (c + lenN (values n)) Hs) as (r & Hr & H1 & H2); [lia|lia|].
    exists r. split; [exact Hr|]. lia.
Qed.

(** *** The operations *)

Section stack.
Context (l : InternalLayer) (ns : list names) (Hl : has_names l ns).
Hypothesis Hcount : count_of ns < 2 ^ 64.
Hypothesis Hpcount : predicate_count_of ns < 2 ^ 64.

Lemma stack_at : stack_names (l :: parents_of l) ns.
Proof using All. unfold has_names in Hl. by rewrite stack_of_cons in Hl. Qed.

Lemma node_id_spec s : s <> [] -> exists r, subject_id l s = Some r /\ is_id_of (all_entries ns) (Node s) r.
Proof using All.
  intros Hs. destruct (global_id_spec entries_of_names count_of count_of_cons eq_refl (Node s) (node_result s) l ns
    node_and_value_count) as (r & Hr & Hspec); [by intros; apply node_result_spec; auto|apply node_and_value_count_spec|done|done|done|].
  exists r. split; [exact Hr|]. destruct r as [id|]; [by apply at_id_Some|done].
Qed.

Lemma value_id_spec s : s <> [] -> exists r, object_value_id l s = Some r /\ is_id_of (all_entries ns) (Value s) r.
Proof using All.
  intros Hs. destruct (global_id_spec entries_of_names count_of count_of_cons eq_refl (Value s) (value_result s) l ns
    node_and_value_count) as (r & Hr & Hspec); [by intros; apply value_result_spec; auto|apply node_and_value_count_spec|done|done|done|].
  exists r. split; [exact Hr|]. destruct r as [id|]; [by apply at_id_Some|done].
Qed.

Lemma predicate_id_spec s : s <> [] -> exists r, predicate_id l s = Some r /\ is_id_of (all_predicates ns) s r.
Proof using All.
  intros Hs. destruct (global_id_spec predicates_of_names predicate_count_of predicate_count_of_cons eq_refl s (predicate_result s) l ns
    layer_predicate_count) as (r & Hr & Hspec); [by intros; apply predicate_result_spec; auto|apply predicate_count_spec|done|done|done|].
  exists r. split; [exact Hr|]. destruct r as [id|]; [by apply at_id_Some|done].
Qed.

Lemma id_subject_spec id : id_subject l id = Some (x ← at_id (all_entries ns) id; node_of_entry x).
Proof using All.
  unfold id_subject, at_id. destruct (id =? 0); [done|]. rewrite (node_and_value_count_spec _ _ _ stack_at Hcount), bind_Some_eq.
  destruct (locate_spec entries_of_names count_of count_of_cons eq_refl shrink_nodes shrink_nodes_spec _ _ _ (id - 1) stack_at)
    as (l' & n' & o & -> & Hln & Ho). rewrite bind_Some_eq. cbn [fst snd].
  etransitivity; [exact (node_at_spec l' n' o Hln)|]. by rewrite Ho.
Qed.

Lemma id_object_spec id : id_object l id = Some (at_id (all_entries ns) id).
Proof using All.
  unfold id_object, at_id. destruct (id =? 0); [done|]. rewrite (node_and_value_count_spec _ _ _ stack_at Hcount), bind_Some_eq.
  destruct (locate_spec entries_of_names count_of count_of_cons eq_refl shrink_nodes shrink_nodes_spec _ _ _ (id - 1) stack_at)
    as (l' & n' & o & -> & Hln & Ho). rewrite bind_Some_eq. cbn [fst snd].
  etransitivity; [exact (object_at_spec l' n' o Hln)|]. by rewrite Ho.
Qed.

Lemma id_predicate_spec id : id_predicate l id = Some (at_id (all_predicates ns) id).
Proof using All.
  unfold id_predicate, at_id. destruct (id =? 0); [done|]. rewrite (predicate_count_spec _ _ _ stack_at Hpcount), bind_Some_eq.
  destruct (locate_spec predicates_of_names predicate_count_of predicate_count_of_cons eq_refl shrink_predicates shrink_predicates_spec
    _ _ _ (id - 1) stack_at) as (l' & n' & o & -> & Hln & Ho). rewrite bind_Some_eq. cbn [fst snd].
  etransitivity; [exact (predicate_at_spec l' n' o Hln)|]. by rewrite Ho.
Qed.

Lemma lenN_all_entries : lenN (all_entries ns) = count_of ns.
Proof using All. apply (lenN_all_of entries_of_names count_of count_of_cons eq_refl). by eapply stack_names_ok. Qed.

Lemma lenN_all_predicates : lenN (all_predicates ns) = predicate_count_of ns.
Proof using All. apply (lenN_all_of predicates_of_names predicate_count_of predicate_count_of_cons eq_refl). by eapply stack_names_ok. Qed.

Lemma all_counts_spec : exists c, all_counts l = Some c /\ node_count c + value_count c = lenN (all_entries ns) /\
  predicate_count c = lenN (all_predicates ns).
Proof using All.
  rewrite lenN_all_entries, lenN_all_predicates. pose proof stack_at as Hst. destruct ns as [|n ms]; [done|].
  destruct Hst as (Hln & _ & _ & Hs). destruct (layer_lens l n Hln) as (Hn & Hv & Hp). unfold all_counts. rewrite Hn, Hv, Hp.
  cbn [count_of predicate_count_of foldr] in *. fold (count_of ms) (predicate_count_of ms) in *. unfold size_of in *.
  destruct (add_counts_spec _ _ (lenN (nodes n)) (lenN (predicates n)) (lenN (values n)) Hs) as (c & Hc & H1 & H2); [lia|lia|].
  exists c. split; [done|]. lia.
Qed.
End stack.
End layer.
