(* ===== verification/LayerTriples.v ===== *)
(** * The triples of a layer ([impl Layer for InternalLayer] of
      src/layer/internal/mod.rs, and the [from_layer] functions of the stack
      iterators of src/layer/internal)

    The triples of a layer are those of its stack: what the layers add, less
    what the layers above remove.  The operations merge the iterators of the
    layers of the stack.  In terms of what the structures of each layer hold,
    they compute the triples of the stack, or those of a subject, a predicate
    or an object. *)

From S2P Require Import Prelude.
From S2P Require Import Words.
From S2P Require Import BitIndexes.
From S2P Require Import LogArrays.
From S2P Require Import AdjacencyLists.
From S2P Require Import WaveletTrees.
From S2P Require Import PfcBlocks.
From S2P Require Import PfcDicts.
From S2P Require Import LayerTypes.
From S2P Require Import LayerModel.
From S2P Require Import Triples.
From S2P Require Import TripleBuilder.
From S2P Require Import IdMaps.
From S2P Require Import Iterators.
From S2P Require Import Stacks.
From S2P Require Import InternalLayers.
From S2P Require Import LayerNames.
Open Scope N_scope.

Inductive LayerStackError : Type := ParentNotFound.

Module LayerTriples.
Import Internal.

(** ** The iterators over a stack *)

Definition subject_from_layer (l : InternalLayer) : stack OptInternalLayerTripleSubjectIterator.t :=
  mk_stack (internal_triple_additions <$> stack_of l) (internal_triple_removals <$> stack_of l).

Definition object_from_layer (l : InternalLayer) : stack OptInternalLayerTripleObjectIterator.t :=
  mk_stack (internal_triple_additions_by_object <$> stack_of l) (internal_triple_removals_by_object <$> stack_of l).

Definition predicate_from_layer (l : InternalLayer) (predicate : N) : option (stack OptInternalLayerTriplePredicateIterator.t) :=
  positives ← mapM (fun layer => internal_triple_additions_p layer predicate) (stack_of l);
  negatives ← mapM (fun layer => internal_triple_removals_p layer predicate) (stack_of l);
  Some (mk_stack positives negatives).

(** The changes down to the layer [parent_id]. *)
Definition from_layer_stack (l : InternalLayer) (parent_id : layer_name) : outcome LayerStackError InternalTripleStackIterator.t :=
  match layers_above (parents_of l) parent_id with
  | Some ls => Ok (mk_stack (internal_triple_additions <$> l :: ls) (internal_triple_removals <$> l :: ls))
  | None => Err ParentNotFound
  end.

(** More than the iterators of the additions have. *)
Definition stack_fuel (l : InternalLayer) : nat := S (sum_list (addition_fuel <$> stack_of l)).

(** ** The operations *)

Fixpoint add_layer_counts (count : InternalLayer -> option N) (parents : list InternalLayer) (sum : N) : option N :=
  match parents with
  | [] => Some sum
  | parent :: parents => c ← count parent; sum ← cadd 64 sum c; add_layer_counts count parents sum
  end.

Definition triple_addition_count (l : InternalLayer) : option N :=
  additions ← internal_triple_layer_addition_count l;
  add_layer_counts internal_triple_layer_addition_count (parents_of l) additions.

Definition triple_removal_count (l : InternalLayer) : option N :=
  removals ← internal_triple_layer_removal_count l;
  add_layer_counts internal_triple_layer_removal_count (parents_of l) removals.

Fixpoint exists_in (stack : list InternalLayer) (subject predicate object : N) : option bool :=
  match stack with
  | [] => Some false
  | layer :: stack =>
      added ← internal_triple_addition_exists layer subject predicate object;
      if (added : bool) then Some true
      else
        removed ← internal_triple_removal_exists layer subject predicate object;
        if (removed : bool) then Some false else exists_in stack subject predicate object
  end.

Definition triple_exists (l : InternalLayer) (subject predicate object : N) : option bool :=
  if (subject =? 0) || (predicate =? 0) || (object =? 0) then Some false
  else
    added ← internal_triple_addition_exists l subject predicate object;
    if (added : bool) then Some true
    else
      removed ← internal_triple_removal_exists l subject predicate object;
      if (removed : bool) then Some false else exists_in (parents_of l) subject predicate object.

(** The iterators, drained. *)
Definition triples (l : InternalLayer) : option (list IdTriple.t) :=
  stack_collect IdTriple.cmp (stack_fuel l) (subject_from_layer l).

Definition triples_s (l : InternalLayer) (subject : N) : option (list IdTriple.t) :=
  st ← InternalTripleSubjectIterator.seek_subject (subject_from_layer l) subject;
  stack_take_while IdTriple.cmp (stack_fuel l) st (fun t => IdTriple.subject t =? subject).

Definition triples_sp (l : InternalLayer) (subject predicate : N) : option (list IdTriple.t) :=
  st ← InternalTripleSubjectIterator.seek_subject_predicate (subject_from_layer l) subject predicate;
  stack_take_while IdTriple.cmp (stack_fuel l) st
    (fun t => (IdTriple.subject t =? subject) && (IdTriple.predicate t =? predicate)).

Definition triples_p (l : InternalLayer) (predicate : N) : option (list IdTriple.t) :=
  st ← predicate_from_layer l predicate;
  stack_collect IdTriple.cmp (stack_fuel l) st.

Definition triples_o (l : InternalLayer) (object : N) : option (list IdTriple.t) :=
  st ← InternalTripleObjectIterator.seek_object (object_from_layer l) object;
  stack_take_while object_cmp (stack_fuel l) st (fun t => IdTriple.object t =? object).

End LayerTriples.

#[export] Instance internal_layer `{BytesSize} : Layer InternalLayer := {|
  name := Internal.name;
  parent_name := Internal.parent_name;
  node_and_value_count := LayerNames.node_and_value_count;
  layer_predicate_count := LayerNames.layer_predicate_count;
  subject_id := LayerNames.subject_id;
  predicate_id := LayerNames.predicate_id;
  object_node_id := LayerNames.object_node_id;
  object_value_id := LayerNames.object_value_id;
  id_subject := LayerNames.id_subject;
  id_predicate := LayerNames.id_predicate;
  id_object := LayerNames.id_object;
  all_counts := LayerNames.all_counts;
  triple_exists := LayerTriples.triple_exists;
  triples := LayerTriples.triples;
  triples_s := LayerTriples.triples_s;
  triples_sp := LayerTriples.triples_sp;
  triples_p := LayerTriples.triples_p;
  triples_o := LayerTriples.triples_o;
  triple_addition_count := LayerTriples.triple_addition_count;
  triple_removal_count := LayerTriples.triple_removal_count
|}.

(** ** What a layer changes *)

(** The structures of the layer hold its additions and its removals. *)
Definition layer_change (l : InternalLayer) (c : change) : Prop :=
  holds (Internal.pos_subjects l) (Internal.pos_s_p_adjacency_list l) (Internal.pos_sp_o_adjacency_list l)
    (Internal.pos_objects l) (Internal.pos_o_ps_adjacency_list l) (Internal.pos_predicate_wavelet_tree l) c.1 /\
  match Internal.neg_s_p_adjacency_list l, Internal.neg_sp_o_adjacency_list l, Internal.neg_o_ps_adjacency_list l,
    Internal.neg_predicate_wavelet_tree l with
  | Some s_p, Some sp_o, Some o_ps, Some wt => holds (Internal.neg_subjects l) s_p sp_o (Internal.neg_objects l) o_ps wt c.2
  | None, None, None, None => c.2 = []
  | _, _, _, _ => False
  end.

(** The changes of the layers of its stack, the topmost first; every layer adds
    what is not there and removes what is. *)
Definition has_changes (l : InternalLayer) (cs : list change) : Prop :=
  Forall2 layer_change (Internal.stack_of l) cs /\ forall x, stack_ok cs x.

Lemma holds_sorted subjs s_p sp_o objs o_ps wt ts : holds subjs s_p sp_o objs o_ps wt ts -> StronglySorted triple_lt ts.
Proof. intros (subs & sp & spo & oidx & ops & Hst & -> & _). apply Hst. Qed.

Lemma holds_stored subjs s_p sp_o objs o_ps wt ts : holds subjs s_p sp_o objs o_ps wt ts -> stored subjs s_p sp_o ts.
Proof. intros (subs & sp & spo & oidx & ops & Hst & -> & _). by exists subs, sp, spo. Qed.

Lemma layer_change_sorted l c : layer_change l c -> StronglySorted triple_lt c.1 /\ StronglySorted triple_lt c.2.
Proof.
  intros [Hp Hn]. split; [by eapply holds_sorted|].
  destruct (Internal.neg_s_p_adjacency_list l), (Internal.neg_sp_o_adjacency_list l), (Internal.neg_o_ps_adjacency_list l),
    (Internal.neg_predicate_wavelet_tree l); try done; [by eapply holds_sorted|]. rewrite Hn. constructor.
Qed.

Lemma changes_sorted ls cs : Forall2 layer_change ls cs -> sorted_stack IdTriple.cmp cs.
Proof. induction 1 as [|l c ls cs Hc _ IH]; [constructor|]. constructor; [by eapply layer_change_sorted|done]. Qed.

(** *** The iterators of one layer *)

Lemma additions_give l c : layer_change l c -> gives (Internal.internal_triple_additions l) c.1.
Proof.
  intros [(subs & sp & spo & oidx & ops & Hst & -> & _) _]. eexists. split; [exact (subject_yields _ _ _ _ _ _ Hst)|].
  by apply (new_yields _ _ _ _ _ _ Hst).
Qed.

Lemma none_gives {I} (f g : I -> option (option IdTriple.t * I)) :
  gives (H := {| it_next := opt_step f; it_peek := opt_step g |}) (None : option I) [].
Proof.
  exists (fun it xs => it = None /\ xs = []). split; [|done]. split; intros it xs [-> ->]; by exists None.
Qed.

Lemma removals_give l c : layer_change l c -> gives (Internal.internal_triple_removals l) c.2.
Proof.
  intros [_ Hn]. unfold Internal.internal_triple_removals.
  destruct (Internal.neg_s_p_adjacency_list l) as [s_p|], (Internal.neg_sp_o_adjacency_list l) as [sp_o|],
    (Internal.neg_o_ps_adjacency_list l), (Internal.neg_predicate_wavelet_tree l); try done.
  - destruct Hn as (subs & sp & spo & oidx & ops & Hst & -> & _). eexists. split; [exact (subject_yields _ _ _ _ _ _ Hst)|].
    by apply (new_yields _ _ _ _ _ _ Hst).
  - rewrite Hn. apply none_gives.
Qed.

Lemma Forall2_fmap_gives {I} `{PeekIterator I} (f : InternalLayer -> I) (g : change -> list IdTriple.t) ls cs :
  (forall l c, layer_change l c -> gives (f l) (g c)) -> Forall2 layer_change ls cs -> Forall2 gives (f <$> ls) (g <$> cs).
Proof. intros Hf Hc. apply Forall2_fmap. eapply Forall2_impl; [exact Hc|done]. Qed.

Lemma subject_stack_repr ls cs : Forall2 layer_change ls cs ->
  stack_repr gives (mk_stack (Internal.internal_triple_additions <$> ls) (Internal.internal_triple_removals <$> ls)) cs.
Proof.
  intros Hc. split; cbn [positives negatives].
  - apply (Forall2_fmap_gives _ fst); [apply additions_give|done].
  - apply (Forall2_fmap_gives _ snd); [apply removals_give|done].
Qed.

(** ** Narrowing a stack *)

(** Seeking leaves of [ts] a part [xs]: as far as [f] holds, the triples for
    which [P] holds. *)
Definition narrowed (cmp : IdTriple.t -> IdTriple.t -> comparison) (f : IdTriple.t -> bool) (P : IdTriple.t -> Prop)
    (ts xs : list IdTriple.t) : Prop :=
  (length xs <= length ts)%nat /\ StronglySorted (fun x y => cmp x y = Lt) xs /\
  forall t, f t = true -> (t ∈ xs <-> P t /\ t ∈ ts).

Lemma sorted_members cmp `{!KeyOrder cmp} xs ys : StronglySorted (fun x y => cmp x y = Lt) xs ->
  StronglySorted (fun x y => cmp x y = Lt) ys -> (forall t, t ∈ xs <-> t ∈ ys) -> xs = ys.
Proof.
  assert (Hnd : forall l, StronglySorted (fun x y => cmp x y = Lt) l -> NoDup l).
  { intros l. induction 1 as [|x l _ IH Hx]; constructor; [|done]. intros Hin. rewrite Forall_forall in Hx.
    specialize (Hx x Hin). by apply (lt_irrefl cmp) in Hx. }
  intros Hx Hy Hin. apply (StronglySorted_unique_strong (fun x y => cmp x y = Lt)); [|done|done|].
  - intros x y _ _ Hxy Hyx. exfalso. apply (lt_irrefl cmp x). by eapply key_trans.
  - apply NoDup_Permutation; [by apply Hnd|by apply Hnd|done].
Qed.

Section narrow.
Context {I : Type} `{PeekIterator I} (cmp : IdTriple.t -> IdTriple.t -> comparison) `{!KeyOrder cmp}.
Context (f g : IdTriple.t -> bool) (P : IdTriple.t -> Prop).
Hypothesis f_down : forall x y, cmp x y = Lt -> f y = true -> f x = true.
Hypothesis f_g : forall t, f t = false -> g t = false.
Hypothesis P_g : forall t, f t = true -> (P t <-> g t = true).

Abbreviation narrowed_change := (fun c c' : change => narrowed cmp f P c.1 c'.1 /\ narrowed cmp f P c.2 c'.2).

Lemma narrowed_mem cs cs' t : Forall2 narrowed_change cs cs' -> f t = true -> (stack_mem cs' t <-> P t /\ stack_mem cs t).
Proof using.
  induction 1 as [|[a r] [a' r'] cs cs' [(_ & _ & Ha) (_ & _ & Hr)] _ IH]; intros Hf; cbn in *; [tauto|].
  specialize (IH Hf). rewrite (Ha t Hf), (Hr t Hf), IH. tauto.
Qed.

Lemma narrowed_ok cs cs' t : Forall2 narrowed_change cs cs' -> f t = true -> stack_ok cs t -> stack_ok cs' t.
Proof using.
  induction 1 as [|[a r] [a' r'] cs cs' [(_ & _ & Ha) (_ & _ & Hr)] Hs IH]; intros Hf; cbn in *; [done|].
  pose proof (narrowed_mem _ _ t Hs Hf) as Hm. rewrite (Ha t Hf), (Hr t Hf), Hm. intros (Hok & H1 & H2). specialize (IH Hf Hok). tauto.
Qed.

Lemma narrowed_sorted cs cs' : Forall2 narrowed_change cs cs' -> sorted_stack cmp cs' /\ (total cs' <= total cs)%nat.
Proof using.
  induction 1 as [|c c' cs cs' [(Hl & Hs & _) (_ & Hs' & _)] _ [IH IHt]]; [split; [constructor|done]|].
  split; [by constructor|]. rewrite !total_cons. lia.
Qed.

(** The triples of the narrowed stack for which [g] holds. *)
Lemma narrowed_take_while fuel st cs cs' : stack_repr gives st cs' -> Forall2 narrowed_change cs cs' ->
  (forall t, stack_ok cs t) -> (total cs < fuel)%nat ->
  exists xs, stack_take_while cmp fuel st g = Some xs /\ StronglySorted (fun x y => cmp x y = Lt) xs /\
    forall t, t ∈ xs <-> g t = true /\ stack_mem cs t.
Proof using All.
  intros Hr Hn Hok Hf. destruct (narrowed_sorted _ _ Hn) as [Hs Ht].
  destruct (stack_take_while_spec gives cmp f f_down g f_g fuel st cs' Hr ltac:(lia) Hs) as (xs & Hxs & Hsort & Hin).
  - intros t Hft. by eapply narrowed_ok.
  - intros t Hft Hm. apply (narrowed_mem _ _ t Hn Hft) in Hm as [HP _]. by apply P_g.
  - exists xs. split; [done|]. split; [done|]. intros t. rewrite Hin. split.
    + intros [Hft Hm]. apply (narrowed_mem _ _ t Hn Hft) in Hm as [HP Hm]. split; [by apply P_g|done].
    + intros [Hgt Hm]. destruct (f t) eqn:Hft; [|rewrite f_g in Hgt by done; done]. split; [done|].
      apply (narrowed_mem _ _ t Hn Hft). split; [by apply P_g|done].
Qed.

(** Narrowing the iterators of all layers. *)
Lemma narrow_all (op : InternalLayer -> option I) (part : change -> list IdTriple.t) ls cs :
  (forall l c, layer_change l c -> exists it xs, op l = Some it /\ gives it xs /\ narrowed cmp f P (part c) xs) ->
  Forall2 layer_change ls cs ->
  exists its xss, mapM op ls = Some its /\ Forall2 gives its xss /\ Forall2 (fun c xs => narrowed cmp f P (part c) xs) cs xss.
Proof using.
  intros Hop. induction 1 as [|l c ls cs Hc _ (its & xss & Hm & Hg & Hn)]; [by exists [], []|].
  destruct (Hop l c Hc) as (it & xs & Hit & Hgit & Hnit). exists (it :: its), (xs :: xss). cbn [mapM].
  rewrite Hit, bind_Some_eq, Hm, bind_Some_eq. split; [done|]. split; by constructor.
Qed.

Lemma narrow_stack (op_pos op_neg : InternalLayer -> option I) ls cs :
  (forall l c, layer_change l c -> exists it xs, op_pos l = Some it /\ gives it xs /\ narrowed cmp f P c.1 xs) ->
  (forall l c, layer_change l c -> exists it xs, op_neg l = Some it /\ gives it xs /\ narrowed cmp f P c.2 xs) ->
  Forall2 layer_change ls cs ->
  exists pos neg cs', mapM op_pos ls = Some pos /\ mapM op_neg ls = Some neg /\ stack_repr gives (mk_stack pos neg) cs' /\
    Forall2 narrowed_change cs cs'.
Proof using.
  intros Hp Hn Hc. destruct (narrow_all op_pos fst ls cs Hp Hc) as (pos & xss & Hmp & Hgp & Hnp).
  destruct (narrow_all op_neg snd ls cs Hn Hc) as (neg & yss & Hmn & Hgn & Hnn).
  pose proof (Forall2_length _ _ _ Hnp) as Hl1. pose proof (Forall2_length _ _ _ Hnn) as Hl2.
  exists pos, neg, (zip xss yss). split; [done|]. split; [done|]. split.
  - split; cbn [positives negatives]; [rewrite fst_zip by lia|rewrite snd_zip by lia]; done.
  - clear -Hnp Hnn. revert yss Hnn. induction Hnp as [|c xs cs xss Hx _ IH]; intros yss Hnn; [by apply Forall2_nil_inv_l in Hnn as ->|].
    apply Forall2_cons_inv_l in Hnn as (ys & yss' & Hy & Hnn & ->). constructor; [done|by apply IH].
Qed.
End narrow.

Lemma mapM_fmap {A B C} (h : A -> B) (seek : B -> option C) (l : list A) : mapM seek (h <$> l) = mapM (fun x => seek (h x)) l.
Proof. induction l as [|x l IH]; [done|]. cbn [mapM fmap list_fmap]. by rewrite <- IH. Qed.

(** ** How the iterators of a layer are narrowed *)

Lemma filter_narrowed cmp f P `{forall x, Decision (P x)} (ts : list IdTriple.t) : StronglySorted (fun x y => cmp x y = Lt) ts ->
  narrowed cmp f P ts (filter P ts).
Proof.
  intros Hs. split; [apply length_filter|]. split; [by apply sorted_filter|]. intros t _. apply list_elem_of_filter.
Qed.

Lemma nil_narrowed cmp f P : narrowed cmp f P [] [].
Proof. split; [done|]. split; [constructor|]. intros t _. split; [by intros ?%elem_of_nil|by intros [_ ?%elem_of_nil]]. Qed.

Lemma stored_seek_s subjs s_p sp_o objs o_ps wt ts s f : holds subjs s_p sp_o objs o_ps wt ts ->
  exists it xs, OptInternalLayerTripleSubjectIterator.seek_subject_ref (Some (InternalLayerTripleSubjectIterator.new subjs s_p sp_o)) s = Some it /\
    gives it xs /\ narrowed IdTriple.cmp f (from_subject s) ts xs.
Proof.
  intros Hh. pose proof (holds_sorted _ _ _ _ _ _ _ Hh) as Hs. destruct Hh as (subs & sp & spo & oidx & ops & Hst & -> & _).
  destruct (seek_subject_spec _ _ _ _ _ _ Hst (InternalLayerTripleSubjectIterator.new subjs s_p sp_o) s) as (it & Hit & Hy); [done|].
  exists (Some it), (filter (from_subject s) (triples_of subs sp spo)). split; [|split].
  - unfold OptInternalLayerTripleSubjectIterator.seek_subject_ref, opt_seek. by rewrite Hit.
  - eexists. split; [exact (subject_yields _ _ _ _ _ _ Hst)|done].
  - by apply filter_narrowed.
Qed.

(** The pairs of subject and predicate from [(s, p)] on, as far as a triple up
    to that pair can tell. *)
Definition up_to_pair (s p : N) (t : IdTriple.t) : bool :=
  (IdTriple.subject t <? s) || ((IdTriple.subject t =? s) && (IdTriple.predicate t <=? p)).

Lemma stored_seek_sp subjs s_p sp_o objs o_ps wt ts s p : holds subjs s_p sp_o objs o_ps wt ts ->
  exists it xs, OptInternalLayerTripleSubjectIterator.seek_subject_predicate_ref
      (Some (InternalLayerTripleSubjectIterator.new subjs s_p sp_o)) s p = Some it /\
    gives it xs /\ narrowed IdTriple.cmp (up_to_pair s p) (from_pair s p) ts xs.
Proof.
  intros Hh. pose proof (holds_sorted _ _ _ _ _ _ _ Hh) as Hs. destruct Hh as (subs & sp & spo & oidx & ops & Hst & -> & _).
  set (ts := triples_of subs sp spo) in *.
  destruct (seek_subject_predicate_spec _ _ _ _ _ _ Hst (InternalLayerTripleSubjectIterator.new subjs s_p sp_o) s p) as
    (it & s0 & Hit & Hle & Hs0 & Hgap & Hy); [done|].
  exists (Some it), (filter (from_pair s0 p) ts). split; [|split].
  - unfold OptInternalLayerTripleSubjectIterator.seek_subject_predicate_ref, opt_seek. by rewrite Hit.
  - eexists. split; [exact (subject_yields _ _ _ _ _ _ Hst)|done].
  - split; [apply length_filter|]. split; [by apply sorted_filter|]. intros t Ht. rewrite list_elem_of_filter.
    unfold up_to_pair in Ht. rewrite orb_true_iff, andb_true_iff, N.ltb_lt, N.eqb_eq, N.leb_le in Ht. unfold from_pair. split.
    + intros [Hp Hin]. split; [|done]. lia.
    + intros [Hp Hin]. split; [|done]. destruct Ht as [Hlt|[Heq Hple]]; [lia|]. rewrite (Hs0 t Hin Heq). lia.
Qed.

Lemma stored_seek_o subjs s_p sp_o objs o_ps wt ts o f : holds subjs s_p sp_o objs o_ps wt ts ->
  exists it xs, OptInternalLayerTripleObjectIterator.seek_object_ref
      (Some (InternalLayerTripleObjectIterator.new subjs objs o_ps s_p)) o = Some it /\
    gives it xs /\ narrowed object_cmp f (from_object o) ts xs.
Proof.
  intros (subs & sp & spo & oidx & ops & Hst & -> & Hops & Hobjs & Hent & Hsort & _).
  destruct (seek_object_spec subjs s_p subs sp spo objs o_ps oidx ops Hops Hobjs Hent
    (InternalLayerTripleObjectIterator.new subjs objs o_ps s_p) o) as (it & Hit & Hy); [done..|].
  pose proof (object_triples_perm _ _ _ _ _ _ Hst oidx ops Hent) as Hperm.
  pose proof (object_triples_sorted _ _ _ _ _ _ Hst oidx ops Hent Hsort) as Hso.
  set (os := object_triples subs sp oidx (flat ops)) in *.
  exists (Some it), (filter (from_object o) os). split; [|split].
  - unfold OptInternalLayerTripleObjectIterator.seek_object_ref, opt_seek. by rewrite Hit.
  - eexists. split; [exact (object_yields _ _ _ _ _ _ Hst objs o_ps oidx ops Hops Hobjs Hent)|exact Hy].
  - split; [|split].
    + rewrite <- Hperm. apply length_filter.
    + apply sorted_filter. clear -Hso. induction Hso as [|x l _ IH Hx]; [constructor|]. constructor; [done|].
      eapply Forall_impl; [exact Hx|]. intros y Hy. by apply object_cmp_lt.
    + intros t _. by rewrite list_elem_of_filter, Hperm.
Qed.

Lemma stored_lookup_p subjs s_p sp_o objs o_ps wt ts p f : holds subjs s_p sp_o objs o_ps wt ts -> p <> 0 ->
  exists it xs, (r ← lookup wt p;
      match r with
      | Some lookup => it ← InternalLayerTriplePredicateIterator.new lookup subjs s_p sp_o; Some (Some it)
      | None => Some None
      end) = Some (it : OptInternalLayerTriplePredicateIterator.t) /\
    gives it xs /\ narrowed IdTriple.cmp f (fun t => IdTriple.predicate t = p) ts xs.
Proof.
  intros Hh Hp. pose proof (holds_sorted _ _ _ _ _ _ _ Hh) as Hs.
  destruct Hh as (subs & sp & spo & oidx & ops & Hst & -> & _ & _ & _ & _ & Hwt).
  pose proof (predicate_lookup _ _ _ _ _ _ wt p Hst Hwt Hp) as Hl.
  assert (Hn : narrowed IdTriple.cmp f (fun t => IdTriple.predicate t = p) (triples_of subs sp spo)
    (filter (fun t => IdTriple.predicate t = p) (triples_of subs sp spo))) by (by apply filter_narrowed).
  destruct (filter _ (triples_of subs sp spo)) as [|x xs].
  - rewrite Hl, bind_Some_eq. exists None, []. split; [done|]. split; [apply none_gives|done].
  - destruct Hl as (lk & it & -> & Hnew & Hlen & Hent & Hy). rewrite bind_Some_eq, Hnew, bind_Some_eq.
    exists (Some it), (x :: xs). split; [done|]. split; [|done].
    eexists. split; [exact (predicate_yields _ _ _ _ _ _ Hst lk p Hp Hlen Hent)|exact Hy].
Qed.

(** The removals of a layer: there are none, or their structures hold them. *)
Ltac removal_parts l Hn :=
  destruct (Internal.neg_s_p_adjacency_list l), (Internal.neg_sp_o_adjacency_list l), (Internal.neg_o_ps_adjacency_list l),
    (Internal.neg_predicate_wavelet_tree l); try done;
  [|rewrite Hn; exists None, []; split; [done|split; [apply none_gives|apply nil_narrowed]]].

Section seek.
Import Internal.
Context (l : InternalLayer) (c : change) (Hc : layer_change l c).

Lemma additions_seek_s s f : exists it xs, OptInternalLayerTripleSubjectIterator.seek_subject_ref (internal_triple_additions l) s = Some it /\
  gives it xs /\ narrowed IdTriple.cmp f (from_subject s) c.1 xs.
Proof using Hc. eapply stored_seek_s, Hc. Qed.

Lemma removals_seek_s s f : exists it xs, OptInternalLayerTripleSubjectIterator.seek_subject_ref (internal_triple_removals l) s = Some it /\
  gives it xs /\ narrowed IdTriple.cmp f (from_subject s) c.2 xs.
Proof using Hc. destruct Hc as [_ Hn]. unfold internal_triple_removals. removal_parts l Hn. by eapply stored_seek_s. Qed.

Lemma additions_seek_sp s p : exists it xs,
  OptInternalLayerTripleSubjectIterator.seek_subject_predicate_ref (internal_triple_additions l) s p = Some it /\
  gives it xs /\ narrowed IdTriple.cmp (up_to_pair s p) (from_pair s p) c.1 xs.
Proof using Hc. eapply stored_seek_sp, Hc. Qed.

Lemma removals_seek_sp s p : exists it xs,
  OptInternalLayerTripleSubjectIterator.seek_subject_predicate_ref (internal_triple_removals l) s p = Some it /\
  gives it xs /\ narrowed IdTriple.cmp (up_to_pair s p) (from_pair s p) c.2 xs.
Proof using Hc. destruct Hc as [_ Hn]. unfold internal_triple_removals. removal_parts l Hn. by eapply stored_seek_sp. Qed.

Lemma additions_seek_o o f : exists it xs, OptInternalLayerTripleObjectIterator.seek_object_ref (internal_triple_additions_by_object l) o = Some it /\
  gives it xs /\ narrowed object_cmp f (from_object o) c.1 xs.
Proof using Hc. eapply stored_seek_o, Hc. Qed.

Lemma removals_seek_o o f : exists it xs, OptInternalLayerTripleObjectIterator.seek_object_ref (internal_triple_removals_by_object l) o = Some it /\
  gives it xs /\ narrowed object_cmp f (from_object o) c.2 xs.
Proof using Hc. destruct Hc as [_ Hn]. unfold internal_triple_removals_by_object. removal_parts l Hn. by eapply stored_seek_o. Qed.

Lemma additions_lookup_p p f : p <> 0 -> exists it xs, internal_triple_additions_p l p = Some it /\
  gives it xs /\ narrowed IdTriple.cmp f (fun t => IdTriple.predicate t = p) c.1 xs.
Proof using Hc. intros Hp. eapply stored_lookup_p; [apply Hc|done]. Qed.

Lemma removals_lookup_p p f : p <> 0 -> exists it xs, internal_triple_removals_p l p = Some it /\
  gives it xs /\ narrowed IdTriple.cmp f (fun t => IdTriple.predicate t = p) c.2 xs.
Proof using Hc.
  intros Hp. destruct Hc as [_ Hn]. unfold internal_triple_removals_p. removal_parts l Hn. by eapply stored_lookup_p.
Qed.
End seek.

Lemma up_to_pair_down s p x y : triple_lt x y -> up_to_pair s p y = true -> up_to_pair s p x = true.
Proof.
  rewrite triple_lt_iff. unfold up_to_pair. rewrite !orb_true_iff, !andb_true_iff, !N.ltb_lt, !N.eqb_eq, !N.leb_le. lia.
Qed.

(** The triples of one object are in the same order by object. *)
Lemma by_object_sorted o ts : StronglySorted triple_lt ts ->
  StronglySorted (fun x y => object_cmp x y = Lt) (filter (fun t => IdTriple.object t = o) ts).
Proof.
  intros Hsort. pose proof (sorted_filter triple_lt (fun t => IdTriple.object t = o) ts Hsort) as Hsf. clear -Hsf.
  assert (Ho : Forall (fun t => IdTriple.object t = o) (filter (fun t => IdTriple.object t = o) ts)).
  { apply Forall_forall. by intros t [? _]%list_elem_of_filter. }
  induction Hsf as [|x k _ IH Hx]; [constructor|]. apply Forall_cons in Ho as [Hxo Hko]. constructor; [by apply IH|].
  apply Forall_forall. intros y Hy. rewrite Forall_forall in Hx, Hko. specialize (Hx y Hy). specialize (Hko y Hy). cbn in Hko.
  apply object_cmp_lt. apply triple_lt_iff in Hx. unfold object_lt. lia.
Qed.

Section operations.
Import Internal LayerTriples.
Context (l : InternalLayer) (cs : list change) (Hl : has_changes l cs).
Context (ts : list IdTriple.t) (Hsort : StronglySorted triple_lt ts) (Hmem : forall t, t ∈ ts <-> stack_mem cs t).

Lemma fuel_bound : (total cs < stack_fuel l)%nat.
Proof using Hl.
  destruct Hl as [Hc _]. unfold stack_fuel. clear -Hc. induction Hc as [|l' c ls cs [Hp _] _ IH]; [by cbn; lia|].
  rewrite total_cons. cbn [fmap list_fmap].
  change (sum_list (addition_fuel l' :: (addition_fuel <$> ls))) with (addition_fuel l' + sum_list (addition_fuel <$> ls))%nat.
  destruct Hp as (subs & sp & spo & oidx & ops & Hst & -> & _).
  assert (Hlen : (length (triples_of subs sp spo) < addition_fuel l')%nat); [|cbn [fst]; lia].
  pose proof Hst as (_ & Hspo & _). unfold addition_fuel. rewrite (al_right_count _ _ Hspo).
  unfold triples_of. pose proof (flat_spo_len _ _ _ _ _ _ Hst) as Hf. unfold lenN in Hf.
  assert (Hom : forall (l : list (N * N)), (length (omap (triple_of subs sp) l) <= length l)%nat).
  { intros k. induction k as [|x k IHk]; [done|]. cbn [omap list_omap]. destruct (triple_of subs sp x); cbn [length]; lia. }
  specialize (Hom (flat spo)). unfold lenN. lia.
Qed.

(** The members for which [g] holds, in order. *)
Lemma filtered_members (g : IdTriple.t -> bool) xs : StronglySorted triple_lt xs ->
  (forall t, t ∈ xs <-> g t = true /\ stack_mem cs t) -> xs = filter (fun t => g t = true) ts.
Proof using Hsort Hmem.
  intros Hs Hin. apply (sorted_members IdTriple.cmp); [done|by apply sorted_filter|]. intros t. by rewrite Hin, list_elem_of_filter, Hmem.
Qed.

Lemma triples_spec : triples l = Some ts.
Proof using All.
  destruct Hl as [Hc Hok]. unfold triples, stack_collect.
  destruct (stack_take_while_spec (I := OptInternalLayerTripleSubjectIterator.t) gives IdTriple.cmp (fun _ => true) ltac:(done) (fun _ => true) ltac:(done)
    (stack_fuel l) (subject_from_layer l) cs) as (xs & -> & Hs & Hin).
  - by apply subject_stack_repr.
  - apply fuel_bound.
  - by eapply changes_sorted.
  - done.
  - done.
  - f_equal. rewrite (filtered_members (fun _ => true) xs Hs Hin). by rewrite filter_all by (by apply Forall_true).
Qed.

Lemma triples_s_spec s : triples_s l s = Some (triples_where (fun t => IdTriple.subject t = s) ts).
Proof using All.
  destruct Hl as [Hc Hok]. set (f := fun t => IdTriple.subject t <=? s). set (g := fun t => IdTriple.subject t =? s).
  destruct (narrow_stack (I := OptInternalLayerTripleSubjectIterator.t) IdTriple.cmp f (from_subject s) _ _ _ _
    (fun l c H => additions_seek_s l c H s f) (fun l c H => removals_seek_s l c H s f) Hc) as (pos & neg & cs' & Hmp & Hmn & Hr & Hnc).
  unfold triples_s, InternalTripleSubjectIterator.seek_subject, subject_from_layer. cbn [positives negatives].
  rewrite !mapM_fmap, Hmp, bind_Some_eq, Hmn, !bind_Some_eq.
  destruct (narrowed_take_while (I := OptInternalLayerTripleSubjectIterator.t) IdTriple.cmp f g (from_subject s)) with (fuel := stack_fuel l) (st := mk_stack pos neg) (cs := cs) (cs' := cs')
    as (xs & Hxs & Hs & Hin); [| | |done|done|done|apply fuel_bound|].
  - intros x y Hxy. unfold f. rewrite !N.leb_le. change (triple_lt x y) in Hxy. rewrite triple_lt_iff in Hxy. lia.
  - intros t. unfold f, g. rewrite N.leb_gt, N.eqb_neq. lia.
  - intros t. unfold f, g, from_subject. rewrite N.leb_le, N.eqb_eq. lia.
  - etransitivity; [exact Hxs|]. f_equal. rewrite (filtered_members g xs Hs Hin). apply list_filter_iff. intros t. unfold g. apply N.eqb_eq.
Qed.

Lemma triples_sp_spec s p : triples_sp l s p = Some (triples_where (fun t => IdTriple.subject t = s /\ IdTriple.predicate t = p) ts).
Proof using All.
  destruct Hl as [Hc Hok]. set (g := fun t => (IdTriple.subject t =? s) && (IdTriple.predicate t =? p)).
  destruct (narrow_stack (I := OptInternalLayerTripleSubjectIterator.t) IdTriple.cmp (up_to_pair s p) (from_pair s p) _ _ _ _
    (fun l c H => additions_seek_sp l c H s p) (fun l c H => removals_seek_sp l c H s p) Hc) as (pos & neg & cs' & Hmp & Hmn & Hr & Hnc).
  unfold triples_sp, InternalTripleSubjectIterator.seek_subject_predicate, subject_from_layer. cbn [positives negatives].
  rewrite !mapM_fmap, Hmp, bind_Some_eq, Hmn, !bind_Some_eq.
  destruct (narrowed_take_while (I := OptInternalLayerTripleSubjectIterator.t) IdTriple.cmp (up_to_pair s p) g (from_pair s p)) with
    (fuel := stack_fuel l) (st := mk_stack pos neg) (cs := cs) (cs' := cs') as (xs & Hxs & Hs & Hin); [| | |done|done|done|apply fuel_bound|].
  - apply up_to_pair_down.
  - intros t. unfold up_to_pair, g. rewrite orb_false_iff, andb_false_iff, N.ltb_ge, N.eqb_neq, N.leb_gt, andb_false_iff, !N.eqb_neq. lia.
  - intros t. unfold up_to_pair, g, from_pair. rewrite orb_true_iff, !andb_true_iff, N.ltb_lt, !N.eqb_eq, N.leb_le. lia.
  - etransitivity; [exact Hxs|]. f_equal. rewrite (filtered_members g xs Hs Hin). apply list_filter_iff. intros t. unfold g.
    by rewrite andb_true_iff, !N.eqb_eq.
Qed.

Lemma triples_p_spec p : p <> 0 -> triples_p l p = Some (triples_where (fun t => IdTriple.predicate t = p) ts).
Proof using All.
  intros Hp. destruct Hl as [Hc Hok]. set (f := fun _ : IdTriple.t => true).
  destruct (narrow_stack (I := OptInternalLayerTriplePredicateIterator.t) IdTriple.cmp f (fun t => IdTriple.predicate t = p) _ _ _ _
    (fun l c H => additions_lookup_p l c H p f Hp) (fun l c H => removals_lookup_p l c H p f Hp) Hc) as (pos & neg & cs' & Hmp & Hmn & Hr & Hnc).
  unfold triples_p, predicate_from_layer. rewrite Hmp, bind_Some_eq, Hmn, !bind_Some_eq. unfold stack_collect.
  destruct (narrowed_sorted _ _ _ _ _ Hnc) as [Hs' Ht']. pose proof fuel_bound as Hf.
  destruct (stack_take_while_spec (I := OptInternalLayerTriplePredicateIterator.t) gives IdTriple.cmp f ltac:(done) (fun _ => true) ltac:(done)
    (stack_fuel l) (mk_stack pos neg) cs' Hr ltac:(lia) Hs') as (xs & Hxs & Hs & Hin).
  - intros t Ht. by eapply narrowed_ok.
  - done.
  - etransitivity; [exact Hxs|]. f_equal. apply (sorted_members IdTriple.cmp); [done|by apply sorted_filter|]. intros t.
    rewrite Hin, (narrowed_mem _ _ _ _ _ t Hnc), list_elem_of_filter, Hmem by done. unfold f. tauto.
Qed.

Lemma triples_o_spec o : triples_o l o = Some (triples_where (fun t => IdTriple.object t = o) ts).
Proof using All.
  destruct Hl as [Hc Hok]. set (f := fun t => IdTriple.object t <=? o). set (g := fun t => IdTriple.object t =? o).
  destruct (narrow_stack (I := OptInternalLayerTripleObjectIterator.t) object_cmp f (from_object o) _ _ _ _
    (fun l c H => additions_seek_o l c H o f) (fun l c H => removals_seek_o l c H o f) Hc) as (pos & neg & cs' & Hmp & Hmn & Hr & Hnc).
  unfold triples_o, InternalTripleObjectIterator.seek_object, object_from_layer. cbn [positives negatives].
  rewrite !mapM_fmap, Hmp, bind_Some_eq, Hmn, !bind_Some_eq.
  destruct (narrowed_take_while (I := OptInternalLayerTripleObjectIterator.t) object_cmp f g (from_object o)) with
    (fuel := stack_fuel l) (st := mk_stack pos neg) (cs := cs) (cs' := cs') as (xs & Hxs & Hs & Hin); [| | |done|done|done|apply fuel_bound|].
  - intros x y Hxy. unfold f. rewrite !N.leb_le. apply object_cmp_lt in Hxy. unfold object_lt in Hxy. lia.
  - intros t. unfold f, g. rewrite N.leb_gt, N.eqb_neq. lia.
  - intros t. unfold f, g, from_object. rewrite N.leb_le, N.eqb_eq. lia.
  - etransitivity; [exact Hxs|]. f_equal. apply (sorted_members object_cmp); [done| |].
    + by apply by_object_sorted.
    + intros t. rewrite Hin, list_elem_of_filter, Hmem. unfold g. by rewrite N.eqb_eq.
Qed.

(** *** Membership *)

Lemma exists_in_spec ls ks s p o : Forall2 layer_change ls ks ->
  exists_in ls s p o = Some (bool_decide (stack_mem ks (IdTriple.mk s p o))).
Proof using.
  induction 1 as [|l' [a r] ls ks [Hp Hn] _ IH]; [done|]. cbn [exists_in]. unfold internal_triple_addition_exists.
  rewrite (triple_exists_spec _ _ _ _ s p o (holds_stored _ _ _ _ _ _ _ Hp)), bind_Some_eq. cbn [fst snd] in *. set (t := IdTriple.mk s p o) in *.
  destruct (bool_decide_reflect (t ∈ a)) as [Ha|Ha]; [by rewrite bool_decide_true by (by left)|].
  assert (Hrem : internal_triple_removal_exists l' s p o = Some (bool_decide (t ∈ r))).
  { unfold internal_triple_removal_exists.
    destruct (neg_s_p_adjacency_list l'), (neg_sp_o_adjacency_list l'), (neg_o_ps_adjacency_list l'), (neg_predicate_wavelet_tree l'); try done;
      [by eapply triple_exists_spec, holds_stored|]. rewrite Hn. by rewrite bool_decide_false by (by intros ?%elem_of_nil). }
  rewrite Hrem, bind_Some_eq. destruct (bool_decide_reflect (t ∈ r)) as [Hr|Hr].
  - rewrite bool_decide_false; [done|]. cbn. tauto.
  - rewrite IH. f_equal. apply bool_decide_ext. cbn. tauto.
Qed.

Lemma exists_in_zero ls s p o : (s =? 0) || (p =? 0) || (o =? 0) = true -> exists_in ls s p o = Some false.
Proof using.
  intros Hz. assert (Hf : forall subjs s_p sp_o, layer_triple_exists subjs s_p sp_o s p o = Some false).
  { intros. unfold layer_triple_exists. by rewrite Hz. }
  induction ls as [|l' ls IH]; [done|]. cbn [exists_in]. unfold internal_triple_addition_exists, internal_triple_removal_exists.
  rewrite Hf, bind_Some_eq. destruct (neg_s_p_adjacency_list l'), (neg_sp_o_adjacency_list l'); rewrite ?Hf, bind_Some_eq; exact IH.
Qed.

Lemma triple_exists_stack_spec s p o : triple_exists l s p o = Some (bool_decide (IdTriple.mk s p o ∈ ts)).
Proof using All.
  destruct Hl as [Hc _]. pose proof (exists_in_spec _ _ s p o Hc) as Hex.
  assert (Hdec : bool_decide (stack_mem cs (IdTriple.mk s p o)) = bool_decide (IdTriple.mk s p o ∈ ts)) by (apply bool_decide_ext; by rewrite Hmem).
  rewrite <- Hdec, <- Hex. unfold triple_exists. destruct ((s =? 0) || (p =? 0) || (o =? 0)) eqn:Hz; [by rewrite exists_in_zero|].
  by rewrite stack_of_cons.
Qed.
End operations.

(** ** Counts *)

(** One gap in the pairs of subject and predicate is one in the objects. *)
Lemma zeros_eq ps segs : Forall2 (fun (p : N) (seg : list N) => if p =? 0 then seg = [0] else Forall (fun o => o <> 0) seg) ps segs ->
  lenN (filter (fun x => x = 0) (concat segs)) = lenN (filter (fun x => x = 0) ps).
Proof.
  induction 1 as [|p seg ps segs Hp _ IH]; [done|]. cbn [concat]. rewrite filter_app, lenN_app, IH, filter_cons.
  destruct (N.eqb_spec p 0) as [->|Hne].
  - rewrite Hp, decide_True by done. rewrite lenN_cons. done.
  - rewrite decide_False by done. by rewrite filter_none.
Qed.

Lemma zero_split (l : list N) : lenN l = lenN (filter (fun x => x <> 0) l) + lenN (filter (fun x => x = 0) l).
Proof.
  induction l as [|x l IH]; [done|]. rewrite !filter_cons, lenN_cons. destruct (decide (x = 0)) as [->|Hne].
  - rewrite decide_False by (by intros ?). rewrite lenN_cons. lia.
  - rewrite decide_True by done. rewrite lenN_cons. lia.
Qed.

Lemma gaps_forall2 sp spo : gaps_ok sp spo -> lenN spo = lenN (concat sp) ->
  Forall2 (fun (p : N) (seg : list N) => if p =? 0 then seg = [0] else Forall (fun o => o <> 0) seg) (concat sp) spo.
Proof.
  intros [_ Hg] Hl. apply Forall2_same_length_lookup_2; [unfold lenN in Hl; lia|]. intros i p seg Hp Hs.
  apply (Hg (N.of_nat i)); unfold nget; by rewrite Nat2N.id.
Qed.

Lemma triples_nonzero subjs s_p sp_o subs sp spo : stored_as subjs s_p sp_o subs sp spo ->
  lenN (triples_of subs sp spo) = lenN (filter (fun x => x <> 0) (concat spo)).
Proof.
  intros Hst. rewrite <- (snd_flat spo) by (apply (spo_nonempty _ _ _ _ _ _ Hst)). unfold triples_of.
  assert (Hrow : forall x, x ∈ flat spo -> is_Some (triple_of subs sp x) <-> x.2 <> 0).
  { intros [k o] [q Hq]%elem_nget. destruct (row_at _ _ _ _ _ _ Hst q k o Hq) as (l & p & s & _ & _ & _ & _ & Ht & _).
    rewrite Ht. cbn. destruct (N.eqb_spec o 0); split; intros H; [by destruct H|done|done|by eexists]. }
  revert Hrow. generalize (flat spo). intros l. induction l as [|x l IH]; intros Hrow; [done|].
  cbn [omap list_omap fmap list_fmap]. rewrite filter_cons. specialize (IH (fun y Hy => Hrow y ltac:(by right))).
  pose proof (Hrow x ltac:(by left)) as Hx. destruct (triple_of subs sp x) as [t|].
  - rewrite decide_True by (apply Hx; by eexists). by rewrite !lenN_cons, IH.
  - rewrite decide_False; [exact IH|]. intros Hne. apply Hx in Hne. by destruct Hne.
Qed.

Lemma gap_count_spec wt xs : wavelet_of wt xs -> Internal.gap_count wt = Some (lenN (filter (fun x => x = 0) xs)).
Proof.
  intros Hwt. unfold Internal.gap_count. pose proof (lookup_wavelet_of wt xs 0 Hwt) as Hl.
  destruct (positions_spec 0 xs) as [Hlen _]. rewrite <- Hlen. destruct (positions 0 xs) as [|k ks].
  - by rewrite Hl.
  - destruct Hl as (lk & -> & Hll & _). by rewrite bind_Some_eq, Hll.
Qed.

Lemma stored_count subjs s_p sp_o objs o_ps wt ts : holds subjs s_p sp_o objs o_ps wt ts ->
  (gaps ← Internal.gap_count wt; csub (AdjacencyList.right_count sp_o) gaps) = Some (lenN ts).
Proof.
  intros (subs & sp & spo & oidx & ops & Hst & -> & _ & _ & _ & _ & Hwt). rewrite (gap_count_spec _ _ Hwt), bind_Some_eq.
  pose proof Hst as (_ & Hspo & _ & Hlen & Hgaps & _). rewrite (al_right_count _ _ Hspo), (triples_nonzero _ _ _ _ _ _ Hst).
  rewrite <- (zeros_eq _ _ (gaps_forall2 _ _ Hgaps Hlen)). pose proof (zero_split (concat spo)). rewrite csub_Some by lia. f_equal. lia.
Qed.

Lemma layer_addition_count l c : layer_change l c -> Internal.internal_triple_layer_addition_count l = Some (lenN c.1).
Proof. intros [Hp _]. by apply stored_count in Hp. Qed.

Lemma layer_removal_count l c : layer_change l c -> Internal.internal_triple_layer_removal_count l = Some (lenN c.2).
Proof.
  intros [_ Hn]. unfold Internal.internal_triple_layer_removal_count.
  destruct (Internal.neg_s_p_adjacency_list l), (Internal.neg_sp_o_adjacency_list l), (Internal.neg_o_ps_adjacency_list l),
    (Internal.neg_predicate_wavelet_tree l); try done; [rewrite bind_Some_eq; by eapply stored_count|by rewrite Hn].
Qed.

Definition additions_of (cs : list change) : N := foldr (fun c n => lenN c.1 + n) 0 cs.
Definition removals_of (cs : list change) : N := foldr (fun c n => lenN c.2 + n) 0 cs.

Lemma add_layer_counts_spec count (size : change -> N) ls cs : (forall l c, layer_change l c -> count l = Some (size c)) ->
  Forall2 layer_change ls cs -> forall sum, sum + foldr (fun c n => size c + n) 0 cs < 2 ^ 64 ->
  LayerTriples.add_layer_counts count ls sum = Some (sum + foldr (fun c n => size c + n) 0 cs).
Proof.
  intros Hcount. induction 1 as [|l c ls cs Hc _ IH]; intros sum Hs; cbn [LayerTriples.add_layer_counts foldr] in *; [by rewrite N.add_0_r|].
  rewrite (Hcount l c Hc), bind_Some_eq, cadd_Some, bind_Some_eq by lia. rewrite IH by lia. f_equal. lia.
Qed.

Lemma stack_count_spec count (size : change -> N) l cs : (forall l c, layer_change l c -> count l = Some (size c)) ->
  Forall2 layer_change (Internal.stack_of l) cs -> foldr (fun c n => size c + n) 0 cs < 2 ^ 64 ->
  (c ← count l; LayerTriples.add_layer_counts count (Internal.parents_of l) c) = Some (foldr (fun c n => size c + n) 0 cs).
Proof.
  intros Hcount Hc Hs. rewrite Internal.stack_of_cons in Hc. destruct cs as [|c cs]; [by apply Forall2_nil_inv_r in Hc|].
  apply Forall2_cons in Hc as [Hl Hc]. rewrite (Hcount l c Hl), bind_Some_eq. cbn [foldr] in *. by apply add_layer_counts_spec.
Qed.

(** The triples of a stack are its additions less its removals. *)
Lemma stack_size cs : sorted_stack IdTriple.cmp cs -> (forall x, stack_ok cs x) ->
  exists ts, NoDup ts /\ (forall t, t ∈ ts <-> stack_mem cs t) /\ lenN ts + removals_of cs = additions_of cs.
Proof.
  assert (Hnd : forall l, StronglySorted (fun x y => IdTriple.cmp x y = Lt) l -> NoDup l).
  { intros l. induction 1 as [|x l _ IH Hx]; constructor; [|done]. intros Hin. rewrite Forall_forall in Hx.
    specialize (Hx x Hin). by apply (lt_irrefl IdTriple.cmp) in Hx. }
  induction 1 as [|[a r] cs [Hsa Hsr] _ IH]; intros Hok; [exists []; split; [constructor|]; split; [|done]; intros t; by split; [intros ?%elem_of_nil|]|].
  destruct IH as (ts & Hts & Hin & Hlen); [intros x; by destruct (Hok x)|]. cbn [fst snd] in *.
  exists (a ++ filter (fun t => t ∉ r) ts). split; [|split].
  - apply NoDup_app. split; [by apply Hnd|]. split; [|by apply NoDup_filter]. intros t Ha [_ Ht]%list_elem_of_filter.
    destruct (Hok t) as (_ & Hadd & _). destruct (Hadd Ha) as [_ Hm]. by apply Hm, Hin.
  - intros t. rewrite elem_of_app, list_elem_of_filter, Hin. done.
  - cbn [removals_of additions_of foldr fst snd]. fold (removals_of cs) (additions_of cs).
    assert (Hp : ts ≡ₚ r ++ filter (fun t => t ∉ r) ts).
    { apply NoDup_Permutation; [done| |].
      - apply NoDup_app. split; [by apply Hnd|]. split; [|by apply NoDup_filter]. by intros t Ht [? _]%list_elem_of_filter.
      - intros t. rewrite elem_of_app, list_elem_of_filter. destruct (Hok t) as (_ & _ & Hrem). split.
        + intros Ht. destruct (decide (t ∈ r)); [by left|by right].
        + intros [Ht|[_ ?]]; [|done]. by apply Hin, Hrem. }
    apply Permutation_length in Hp. rewrite length_app in Hp. rewrite lenN_app. unfold lenN in *. lia.
Qed.
