(* ===== verification/LayerRefinement.v ===== *)
(** * Layers refine their model

    The layers of src/layer/internal satisfy the laws of LayerModel.v: given
    what the structures of the layers of a stack hold, every operation of the
    [Layer] trait computes what the model says. *)

From S2P Require Import Prelude.
From S2P Require Import Words.
From S2P Require Import PfcBlocks.
From S2P Require Import LayerTypes.
From S2P Require Import LayerModel.
From S2P Require Import Triples.
From S2P Require Import IdMaps.
From S2P Require Import Iterators.
From S2P Require Import Stacks.
From S2P Require Import InternalLayers.
From S2P Require Import LayerNames.
From S2P Require Import LayerTriples.
Open Scope N_scope.

(** The stack of the layer has the names [ns] and the changes [cs], the topmost
    layer first, and [m] is what they amount to. *)
Record implements_by (l : InternalLayer) (m : layer_model) (ns : list names) (cs : list change) : Prop := {
  impl_names : has_names l ns;
  impl_changes : has_changes l cs;
  impl_entries : model_entries m = all_entries ns;
  impl_predicates : model_predicates m = all_predicates ns;
  impl_triples : forall t, t ∈ model_triples m <-> stack_mem cs t;
  impl_model : model_ok m;
  impl_count : count_of ns < 2 ^ 64;
  impl_predicate_count : predicate_count_of ns < 2 ^ 64;
  impl_additions : additions_of cs < 2 ^ 64
}.

Definition implements (l : InternalLayer) (m : layer_model) : Prop := exists ns cs, implements_by l m ns cs.

Section laws.
Context `{BytesSize}.

#[export] Instance internal_layer_laws : LayerLaws InternalLayer implements.
Proof.
  split; [intros l m x (ns & cs & Hi)|intros l m x (ns & cs & Hi)|intros l m x (ns & cs & Hi)|intros l m x (ns & cs & Hi)
    |intros l m x (ns & cs & Hi)|intros l m x (ns & cs & Hi)|intros l m x (ns & cs & Hi)|intros l m (ns & cs & Hi)
    |intros l m (ns & cs & Hi)|intros l m (ns & cs & Hi)|intros l m s p o (ns & cs & Hi)|intros l m (ns & cs & Hi)
    |intros l m s (ns & cs & Hi)|intros l m s p (ns & cs & Hi)|intros l m p (ns & cs & Hi)|intros l m o (ns & cs & Hi)|intros l m (ns & cs & Hi)];
    destruct Hi as [Hn Hc He Hp Ht Hok Hcn Hcp Hca]; rewrite ?He, ?Hp; pose proof (triples_sorted m Hok) as Hs.
  - by apply node_id_spec.
  - by apply predicate_id_spec.
  - by apply node_id_spec.
  - by apply value_id_spec.
  - by apply id_subject_spec.
  - by apply id_predicate_spec.
  - by apply id_object_spec.
  - by apply all_counts_spec.
  - rewrite (lenN_all_entries l ns) by done. by apply (node_and_value_count_spec l _ ns (stack_at l ns Hn Hcn Hcp)).
  - rewrite (lenN_all_predicates l ns) by done. by apply (predicate_count_spec l _ ns (stack_at l ns Hn Hcn Hcp)).
  - by apply (triple_exists_stack_spec l cs).
  - by apply (triples_spec l cs).
  - by apply (triples_s_spec l cs).
  - by apply (triples_sp_spec l cs).
  - by apply (triples_p_spec l cs).
  - by apply (triples_o_spec l cs).
  - done.
Qed.
End laws.

(** ** Ancestors *)

(** The stack of an ancestor is what remains of the stack from there on. *)
Lemma stack_suffix l : forall pre p rest, Internal.stack_of l = pre ++ p :: rest -> pre <> [] -> p :: rest = Internal.stack_of p.
Proof.
  induction l as [base|child IH|rollup IH] using layer_induction; intros pre p rest E Hpre;
    (destruct pre as [|x pre]; [done|]); cbn [Internal.stack_of app] in E; injection E as _ E.
  - by destruct pre.
  - destruct pre as [|y pre]; [|by apply (IH (y :: pre) p rest)]. cbn [app] in E. rewrite <- E.
    rewrite Internal.stack_of_cons in E. by injection E as <- _.
  - apply (IH (hd x (Internal.stack_of (RollupLayer.internal rollup)) :: pre) p rest); [|done].
    rewrite (Internal.stack_of_cons (RollupLayer.internal rollup)) in E |- *. cbn [tail hd app] in *. by rewrite E.
Qed.

Lemma suffix_changes ls l cs : Forall2 layer_change (ls ++ Internal.stack_of l) cs -> (forall x, stack_ok cs x) ->
  exists above below, cs = above ++ below /\ Forall2 layer_change ls above /\ has_changes l below.
Proof.
  intros Hc Hok. apply Forall2_app_inv_l in Hc as (above & below & Ha & Hb & ->). exists above, below.
  split; [done|]. split; [done|]. split; [done|]. intros x. by eapply stack_ok_app, Hok.
Qed.

(** The triples of a stack, as a list. *)
Lemma stack_triples l cs : has_changes l cs -> exists ts, StronglySorted triple_lt ts /\ forall t, t ∈ ts <-> stack_mem cs t.
Proof.
  intros Hl. pose proof Hl as [Hc Hok].
  destruct (stack_take_while_spec (I := OptInternalLayerTripleSubjectIterator.t) gives IdTriple.cmp (fun _ => true) ltac:(done) (fun _ => true) ltac:(done)
    (S (total cs)) (LayerTriples.subject_from_layer l) cs) as (xs & _ & Hs & Hin);
    [by apply subject_stack_repr|lia|by eapply changes_sorted|done|done|].
  exists xs. split; [done|]. intros t. rewrite Hin. tauto.
Qed.

(** What an ancestor holds is what its model says. *)
Lemma ancestor_triples `{BytesSize} p cs m : has_changes p cs -> implements p m -> forall t, t ∈ model_triples m <-> stack_mem cs t.
Proof.
  intros Hc Hp t. destruct (stack_triples p cs Hc) as (ts & Hs & Hin). pose proof (triples_law p m Hp) as Ht.
  change (LayerTriples.triples p = Some (model_triples m)) in Ht. rewrite (triples_spec p cs Hc ts Hs Hin) in Ht. injection Ht as <-. apply Hin.
Qed.

(** *** The changes from an ancestor *)

Lemma csub_inv a b c : csub a b = Some c -> b <= a /\ c = a - b.
Proof.
  intros Hc. destruct (N.le_gt_cases b a) as [Hle|Hgt]; [|by rewrite csub_None in Hc].
  rewrite csub_Some in Hc by done. by injection Hc as <-.
Qed.

Definition change_fuel (ls : list InternalLayer) : nat :=
  S (sum_list (Internal.addition_fuel <$> ls) + sum_list (Internal.removal_fuel <$> ls)).

Lemma change_fuel_bound ls cs : Forall2 layer_change ls cs -> (size cs.*1 cs.*2 < change_fuel ls)%nat.
Proof.
  intros Hc. enough (length (concat cs.*1) <= sum_list (Internal.addition_fuel <$> ls) /\
    length (concat cs.*2) <= sum_list (Internal.removal_fuel <$> ls))%nat by (unfold size, change_fuel; lia).
  induction Hc as [|l c ls cs Hc _ [IH1 IH2]]; [done|]. cbn [fmap list_fmap concat]. rewrite !length_app.
  change (sum_list (Internal.addition_fuel l :: (Internal.addition_fuel <$> ls))) with (Internal.addition_fuel l + sum_list (Internal.addition_fuel <$> ls))%nat.
  change (sum_list (Internal.removal_fuel l :: (Internal.removal_fuel <$> ls))) with (Internal.removal_fuel l + sum_list (Internal.removal_fuel <$> ls))%nat.
  pose proof (layer_addition_count l c Hc) as Ha. pose proof (layer_removal_count l c Hc) as Hr.
  assert (H1 : (length c.1 < Internal.addition_fuel l)%nat).
  { apply bind_Some in Ha as (g & _ & Ha). apply csub_inv in Ha as [Hg Ha]. unfold Internal.addition_fuel, lenN in *. lia. }
  assert (H2 : (length c.2 < Internal.removal_fuel l)%nat); [|lia].
  unfold Internal.internal_triple_layer_removal_count, Internal.removal_fuel in *.
  destruct (Internal.neg_sp_o_adjacency_list l) as [al|]; [|injection Hr as Hr; unfold lenN in *; lia].
  apply bind_Some in Hr as (wt & _ & Hr). apply bind_Some in Hr as (g' & _ & Hr). apply csub_inv in Hr as [Hg' Hr]. unfold lenN in *. lia.
Qed.

(** *** Changes from an ancestor *)

Lemma ancestor_changes `{BytesSize} (l p : InternalLayer) m mp ls rest fuel : (change_fuel (l :: ls) <= fuel)%nat -> implements l m ->
  Internal.parents_of l = ls ++ p :: rest -> Forall (fun x => name x <> name p) ls -> implements p mp ->
  exists st out, LayerTriples.from_layer_stack l (name p) = Ok st /\
    InternalTripleStackIterator.collect fuel st = Some out /\
    StronglySorted triple_lt out.*2 /\
    forall c t, (c, t) ∈ out <->
      match c with
      | Addition => t ∈ model_triples m /\ t ∉ model_triples mp
      | Removal => t ∈ model_triples mp /\ t ∉ model_triples m
      end.
Proof.
  intros Hfuel (ns & cs & Hi) Epar Hls Hp. destruct (impl_changes _ _ _ _ Hi) as [Hc Hok].
  assert (Habove : Internal.layers_above (Internal.parents_of l) (name p) = Some ls).
  { rewrite Epar. clear -Hls. induction Hls as [|x ls Hx _ IH]; cbn [app Internal.layers_above].
    - by rewrite decide_True.
    - rewrite decide_False by exact Hx. by rewrite IH. }
  pose proof (Internal.stack_of_cons l) as Est. rewrite Epar, app_comm_cons in Est.
  pose proof (stack_suffix l _ _ _ Est ltac:(done)) as Esuf. rewrite Est, Esuf in Hc.
  destruct (suffix_changes _ _ _ Hc Hok) as (above & below & -> & Ha & Hb). pose proof (ancestor_triples p below mp Hb Hp) as Hmp.
  assert (Hok' : forall t, stack_ok (above ++ [(model_triples mp, [])]) t /\
    (stack_mem (above ++ [(model_triples mp, [])]) t <-> stack_mem (above ++ below) t)).
  { intros t. specialize (Hok t). clear -Hok Hmp. induction above as [|[a r] above IH]; cbn [app stack_ok stack_mem] in *.
    - rewrite (Hmp t). split; [split; [done|]; split; [|by intros ?%elem_of_nil]; intros _; split; [by intros ?%elem_of_nil|tauto]|].
      split; [by intros [?|[_ []]]|by left].
    - destruct Hok as (Hok & H1 & H2). destruct (IH Hok) as [IH1 IH2]. rewrite !IH2. done. }
  pose proof (change_fuel_bound _ _ Ha) as Hf. pose proof (changes_sorted _ _ Ha) as Hsort.
  set (st := mk_stack (Internal.internal_triple_additions <$> l :: ls) (Internal.internal_triple_removals <$> l :: ls)).
  destruct (change_collect gives fuel st above.*1 above.*2) as (out & Hout & Hso & Hin); [|by eapply Nat.lt_le_trans| |].
  - destruct (subject_stack_repr _ _ Ha) as [H1 H2]. split; [exact H1|]. split; [exact H2|].
    unfold sorted_stack in Hsort. rewrite Forall_forall in Hsort.
    split; apply Forall_fmap, Forall_forall; intros c Hin; by destruct (Hsort c Hin).
  - intros t. destruct (Hok' t) as [H1 _]. rewrite (stack_balance _ _ _ H1). by destruct (decide _), (decide _).
  - exists st, out. unfold LayerTriples.from_layer_stack. rewrite Habove. split; [done|]. split; [exact Hout|]. split; [done|].
    intros c t. destruct (Hok' t) as [H1 H2]. rewrite Hin, (stack_balance _ _ _ H1). pose proof (impl_triples _ _ _ _ Hi t) as Hmt.
    rewrite <- H2 in Hmt. unfold change_of. destruct (decide (stack_mem _ t)), (decide (t ∈ model_triples mp)), c; cbn; split;
      (done || (intros ?; exfalso; tauto) || tauto).
Qed.

(** ** Properties *)

(** C1: a layer computes what its model says: ids stand for the entries and
    predicates of the stack in their order, membership and the triples as a
    whole, of a subject, of a subject and predicate, of a predicate and of an
    object are those of the model, in order.  None of the operations panics.
    (A lookup of the predicate 0 is left out: the wavelet tree finds the gaps.) *)
Theorem layer_refines_model `{BytesSize} (l : InternalLayer) m : implements l m ->
  (forall id, id_subject l id = Some (x ← at_id (model_entries m) id; node_of_entry x)) /\
  (forall id, id_object l id = Some (at_id (model_entries m) id)) /\
  (forall id, id_predicate l id = Some (at_id (model_predicates m) id)) /\
  node_and_value_count l = Some (lenN (model_entries m)) /\
  layer_predicate_count l = Some (lenN (model_predicates m)) /\
  (forall s p o, triple_exists l s p o = Some (bool_decide (IdTriple.mk s p o ∈ model_triples m))) /\
  triples l = Some (model_triples m) /\
  (forall s, triples_s l s = Some (triples_where (fun t => IdTriple.subject t = s) (model_triples m))) /\
  (forall s p, triples_sp l s p = Some (triples_where (fun t => IdTriple.subject t = s /\ IdTriple.predicate t = p) (model_triples m))) /\
  (forall p, p <> 0 -> triples_p l p = Some (triples_where (fun t => IdTriple.predicate t = p) (model_triples m))) /\
  (forall o, triples_o l o = Some (triples_where (fun t => IdTriple.object t = o) (model_triples m))).
Proof.
  intros Hl. split; [intros; by apply id_subject_law|]. split; [intros; by apply id_object_law|].
  split; [intros; by apply id_predicate_law|]. split; [by apply node_and_value_count_law|]. split; [by apply predicate_count_law|].
  split; [intros; by apply triple_exists_law|]. split; [by apply triples_law|]. split; [intros; by apply triples_s_law|].
  split; [intros; by apply triples_sp_law|]. split; [intros; by apply triples_p_law|]. intros. by apply triples_o_law.
Qed.

(** C27: a triple of strings, none of which is empty, translates to the triple
    of ids that translates back to it, or is not translated when there is none;
    it exists exactly when its translation is among the triples of the layer.
    An empty string is excluded since a dictionary without strings claims to
    have it under id 1: see empty_string_found in Executions. *)
Theorem string_triple_roundtrip `{BytesSize} (l : InternalLayer) m x : implements l m -> nonempty_strings x ->
  exists r b, string_triple_to_id l x = Some r /\
    (forall t, r = Some t <-> id_triple_to_string l t = Some (Some x)) /\
    string_triple_exists l x = Some b /\ (b = true <-> exists t, r = Some t /\ t ∈ model_triples m).
Proof.
  intros Hl Hx. destruct (string_triple_to_id_spec l m Hl x Hx) as (r & Hr & Hspec).
  destruct (string_triple_exists_spec l m Hl x Hx) as (b & Hb & Hbspec). exists r, b.
  assert (Hiff : forall t, r = Some t <-> denotes m t x).
  { intros t. destruct r as [t'|]; [|split; [done|intros Ht; by destruct (Hspec t)]].
    split; [by intros [= <-]|intros Ht; f_equal; by apply (denotes_inj l m Hl t' t x)]. }
  split; [done|]. split; [|split; [done|]].
  - intros t. rewrite Hiff. destruct (id_triple_to_string_spec l m Hl t) as (rx & Hrx & Hrspec). rewrite Hrx. split.
    + intros Ht. destruct rx as [x'|]; [|by destruct (Hrspec x)]. do 2 f_equal. destruct Hrspec as (H1 & H2 & H3), Ht as (H1' & H2' & H3').
      destruct x as [s p o], x' as [s' p' o']. cbn in *. congruence.
    + intros [= ->]. done.
  - rewrite Hbspec. split; intros (t & H1 & H2); exists t; split; (done || by apply Hiff).
Qed.

(** C28: the number of triples that a layer reports, its additions less its
    removals over the whole stack, is the number of its triples. *)
Theorem triple_count_correct `{BytesSize} (l : InternalLayer) m : implements l m -> triple_count l = Some (lenN (model_triples m)).
Proof.
  intros (ns & cs & Hi). destruct (impl_changes _ _ _ _ Hi) as [Hc Hok]. pose proof (impl_additions _ _ _ _ Hi) as Ha.
  destruct (stack_size cs (changes_sorted _ _ Hc) Hok) as (ts & Hnd & Hin & Hlen).
  unfold triple_count, triple_addition_count, triple_removal_count. cbn [internal_layer].
  unfold LayerTriples.triple_addition_count, LayerTriples.triple_removal_count.
  rewrite (stack_count_spec _ (fun c => lenN c.1) l cs layer_addition_count Hc Ha), bind_Some_eq.
  rewrite (stack_count_spec _ (fun c => lenN c.2) l cs layer_removal_count Hc), bind_Some_eq.
  2:{ change (removals_of cs < 2 ^ 64). lia. }
  change (csub (additions_of cs) (removals_of cs) = Some (lenN (model_triples m))). rewrite csub_Some by lia. f_equal.
  assert (Hp : ts ≡ₚ model_triples m).
  { apply NoDup_Permutation; [done| |intros t; by rewrite Hin, (impl_triples _ _ _ _ Hi)].
    pose proof (triples_sorted m (impl_model _ _ _ _ Hi)) as Hs. clear -Hs. induction Hs as [|x k _ IH Hx]; constructor; [|done].
    intros Hx'. rewrite Forall_forall in Hx. by apply (StrictOrder_Irreflexive x), Hx. }
  apply Permutation_length in Hp. unfold lenN in *. lia.
Qed.

(** C15: the changes from an ancestor to a layer are computed exactly: draining
    the iterator gives, in the order of the triples and without repetition, an
    addition for every triple that only the layer has and a removal for every
    triple that only the ancestor has, however often the layers in between add
    and remove it. *)
Theorem layer_changes `{BytesSize} (l p : InternalLayer) m mp ls rest : implements l m ->
  Internal.parents_of l = ls ++ p :: rest -> Forall (fun x => name x <> name p) ls -> implements p mp ->
  exists st out, LayerTriples.from_layer_stack l (name p) = Ok st /\
    InternalTripleStackIterator.collect (change_fuel (l :: ls)) st = Some out /\
    StronglySorted triple_lt out.*2 /\
    forall c t, (c, t) ∈ out <->
      match c with
      | Addition => t ∈ model_triples m /\ t ∉ model_triples mp
      | Removal => t ∈ model_triples mp /\ t ∉ model_triples m
      end.
Proof. by apply ancestor_changes. Qed.

(** Asking for the changes from a layer that is not an ancestor is an
    error, and the list of layers up to it panics. *)
Theorem not_an_ancestor (l : InternalLayer) pid : Forall (fun x => Internal.name x <> pid) (Internal.parents_of l) ->
  LayerTriples.from_layer_stack l pid = Err ParentNotFound /\ Internal.immediate_layers_upto l pid = None.
Proof.
  intros Hno. assert (Hn : forall ls, Forall (fun x => Internal.name x <> pid) ls -> Internal.layers_above ls pid = None).
  { induction 1 as [|x ls Hx _ IH]; [done|]. cbn [Internal.layers_above]. rewrite decide_False by done. by rewrite IH. }
  split; [unfold LayerTriples.from_layer_stack; by rewrite Hn|]. unfold Internal.immediate_layers_upto.
  destruct (decide (Internal.name l = pid)) as [|Hne]; [done|]. rewrite Internal.stack_of_cons, Hn; [done|by constructor].
Qed.
