(* ===== verification/LayerBuilders.v ===== *)
(** * Building and loading layers (src/layer/internal/base.rs and child.rs, with
      the file structures of src/storage/file.rs)

    The builders of a layer take its strings in a first phase and its triples
    in a second one, and leave files; loading reads the files.  A child layer's
    builder skips the strings and the additions its parent has, and the
    removals it does not have. *)

From S2P Require Import Prelude.
From S2P Require Import Words.
From S2P Require Import Codec.
From S2P Require Import Strings.
From S2P Require Import LogArrays.
From S2P Require Import BitIndexes.
From S2P Require Import AdjacencyLists.
From S2P Require Import WaveletTrees.
From S2P Require Import PfcBlocks.
From S2P Require Import PfcDicts.
From S2P Require Import LayerTypes.
From S2P Require Import LayerModel.
From S2P Require Import Triples.
From S2P Require Import TripleBuilder.
From S2P Require Import IdMaps.
From S2P Require Import Iterators.
From S2P Require Import Stacks.
From S2P Require Import InternalLayers.
From S2P Require Import LayerNames.
From S2P Require Import LayerTriples.
From S2P Require Import LayerRefinement.
Open Scope N_scope.

(** ** Files *)

(** The blocks and the offsets of a dictionary. *)
Abbreviation dictionary_maps := (list N * list N)%type.

Record IdMapMaps : Type := mk_id_map_maps {
  node_value_idmap_maps : option bitindex_files;
  predicate_idmap_maps : option bitindex_files
}.

Module BaseLayerMaps.
Record t : Type := mk {
  node_dictionary_maps : dictionary_maps;
  predicate_dictionary_maps : dictionary_maps;
  value_dictionary_maps : dictionary_maps;
  id_map_maps : IdMapMaps;
  subjects_map : option (list N);
  objects_map : option (list N);
  s_p_adjacency_list_maps : adjacency_files;
  sp_o_adjacency_list_maps : adjacency_files;
  o_ps_adjacency_list_maps : adjacency_files;
  predicate_wavelet_tree_maps : bitindex_files
}.
End BaseLayerMaps.

Module ChildLayerMaps.
Record t : Type := mk {
  node_dictionary_maps : dictionary_maps;
  predicate_dictionary_maps : dictionary_maps;
  value_dictionary_maps : dictionary_maps;
  id_map_maps : IdMapMaps;
  pos_subjects_map : list N;
  pos_objects_map : list N;
  neg_subjects_map : list N;
  neg_objects_map : list N;
  pos_s_p_adjacency_list_maps : adjacency_files;
  pos_sp_o_adjacency_list_maps : adjacency_files;
  pos_o_ps_adjacency_list_maps : adjacency_files;
  neg_s_p_adjacency_list_maps : adjacency_files;
  neg_sp_o_adjacency_list_maps : adjacency_files;
  neg_o_ps_adjacency_list_maps : adjacency_files;
  pos_predicate_wavelet_tree_maps : bitindex_files;
  neg_predicate_wavelet_tree_maps : bitindex_files
}.
End ChildLayerMaps.

(** ** Loading *)

Definition parse_dictionary (maps : dictionary_maps) : outcome io_error PfcDict.t :=
  map_err pfc_error_to_io (PfcDict.parse maps.1 maps.2).

Definition load_idmap `{Log2F32} (maps : option bitindex_files) (size : N) : option IdMap.t :=
  match maps with
  | None => Some IdMap.default
  | Some maps => width ← calculate_width size; IdMap.from_maps maps width
  end.

Section load.
Context `{Log2F32} (debug : bool).

Definition base_load (name : layer_name) (maps : BaseLayerMaps.t) : option InternalLayer :=
  node_dictionary ← unwrap (parse_dictionary (BaseLayerMaps.node_dictionary_maps maps));
  predicate_dictionary ← unwrap (parse_dictionary (BaseLayerMaps.predicate_dictionary_maps maps));
  value_dictionary ← unwrap (parse_dictionary (BaseLayerMaps.value_dictionary_maps maps));
  node_value_count ← cadd 64 (PfcDict.len node_dictionary) (PfcDict.len value_dictionary);
  node_value_idmap ← load_idmap (node_value_idmap_maps (BaseLayerMaps.id_map_maps maps)) node_value_count;
  predicate_idmap ← load_idmap (predicate_idmap_maps (BaseLayerMaps.id_map_maps maps)) (PfcDict.len predicate_dictionary);
  subjects ← parse_optional debug (BaseLayerMaps.subjects_map maps);
  objects ← parse_optional debug (BaseLayerMaps.objects_map maps);
  s_p_adjacency_list ← parse_files debug (BaseLayerMaps.s_p_adjacency_list_maps maps);
  sp_o_adjacency_list ← parse_files debug (BaseLayerMaps.sp_o_adjacency_list_maps maps);
  o_ps_adjacency_list ← parse_files debug (BaseLayerMaps.o_ps_adjacency_list_maps maps);
  predicate_wavelet_tree ← parse_wavelet (BaseLayerMaps.predicate_wavelet_tree_maps maps)
    (LogArray.width (AdjacencyList.nums s_p_adjacency_list));
  Some (Base (BaseLayer.mk name node_dictionary predicate_dictionary value_dictionary node_value_idmap predicate_idmap
    subjects objects s_p_adjacency_list sp_o_adjacency_list o_ps_adjacency_list predicate_wavelet_tree)).

Definition child_load (name : layer_name) (parent : InternalLayer) (maps : ChildLayerMaps.t) : option InternalLayer :=
  node_dictionary ← unwrap (parse_dictionary (ChildLayerMaps.node_dictionary_maps maps));
  predicate_dictionary ← unwrap (parse_dictionary (ChildLayerMaps.predicate_dictionary_maps maps));
  value_dictionary ← unwrap (parse_dictionary (ChildLayerMaps.value_dictionary_maps maps));
  parent_node_value_count ← LayerNames.node_and_value_count parent;
  parent_predicate_count ← LayerNames.layer_predicate_count parent;
  node_value_count ← cadd 64 (PfcDict.len node_dictionary) (PfcDict.len value_dictionary);
  node_value_idmap ← load_idmap (node_value_idmap_maps (ChildLayerMaps.id_map_maps maps)) node_value_count;
  predicate_idmap ← load_idmap (predicate_idmap_maps (ChildLayerMaps.id_map_maps maps)) (PfcDict.len predicate_dictionary);
  pos_subjects ← parse_monotonic debug (ChildLayerMaps.pos_subjects_map maps);
  pos_objects ← parse_monotonic debug (ChildLayerMaps.pos_objects_map maps);
  neg_subjects ← parse_monotonic debug (ChildLayerMaps.neg_subjects_map maps);
  neg_objects ← parse_monotonic debug (ChildLayerMaps.neg_objects_map maps);
  pos_s_p_adjacency_list ← parse_files debug (ChildLayerMaps.pos_s_p_adjacency_list_maps maps);
  pos_sp_o_adjacency_list ← parse_files debug (ChildLayerMaps.pos_sp_o_adjacency_list_maps maps);
  pos_o_ps_adjacency_list ← parse_files debug (ChildLayerMaps.pos_o_ps_adjacency_list_maps maps);
  neg_s_p_adjacency_list ← parse_files debug (ChildLayerMaps.neg_s_p_adjacency_list_maps maps);
  neg_sp_o_adjacency_list ← parse_files debug (ChildLayerMaps.neg_sp_o_adjacency_list_maps maps);
  neg_o_ps_adjacency_list ← parse_files debug (ChildLayerMaps.neg_o_ps_adjacency_list_maps maps);
  pos_predicate_wavelet_tree ← parse_wavelet (ChildLayerMaps.pos_predicate_wavelet_tree_maps maps)
    (LogArray.width (AdjacencyList.nums pos_s_p_adjacency_list));
  neg_predicate_wavelet_tree ← parse_wavelet (ChildLayerMaps.neg_predicate_wavelet_tree_maps maps)
    (LogArray.width (AdjacencyList.nums neg_s_p_adjacency_list));
  Some (Child (ChildLayer.mk name parent node_dictionary predicate_dictionary value_dictionary node_value_idmap predicate_idmap
    parent_node_value_count parent_predicate_count
    pos_subjects pos_objects pos_s_p_adjacency_list pos_sp_o_adjacency_list pos_o_ps_adjacency_list
    neg_subjects neg_objects neg_s_p_adjacency_list neg_sp_o_adjacency_list neg_o_ps_adjacency_list
    pos_predicate_wavelet_tree neg_predicate_wavelet_tree)).
End load.

(** ** The builders *)

(** The files of the three dictionaries. *)
Abbreviation dictionary_set := (dictionary_maps * dictionary_maps * dictionary_maps)%type.

(** [into_phase2] of both builders: the files of the dictionaries and the
    numbers of their strings. *)
Definition finish_dictionaries (builder : DictionarySetFileBuilder.t) : outcome io_error (dictionary_set * (N * N * N)) :=
  files ← DictionarySetFileBuilder.finalize builder;
  let '(node_dict_maps, predicate_dict_maps, value_dict_maps) := files in
  node_dict ← parse_dictionary node_dict_maps;
  pred_dict ← parse_dictionary predicate_dict_maps;
  val_dict ← parse_dictionary value_dict_maps;
  Ok (files, (PfcDict.len node_dict, PfcDict.len pred_dict, PfcDict.len val_dict)).

Module BaseLayerFileBuilderPhase2.
Section phase2.
Context `{FramedRead} `{Log2F32} `{ParSort}.

Record t : Type := mk {
  files : dictionary_set;
  builder : TripleFileBuilder.t
}.

Definition new (files : dictionary_set) (num_nodes num_predicates num_values : N) : outcome io_error t :=
  builder ← TripleFileBuilder.new num_nodes num_predicates num_values false;
  Ok (mk files builder).

Definition add_triple (b : t) (subject predicate object : N) : outcome io_error t :=
  builder ← TripleFileBuilder.add_triple (builder b) subject predicate object;
  Ok (mk (files b) builder).

Definition add_id_triples (b : t) (triples : list IdTriple.t) : outcome io_error t :=
  builder ← TripleFileBuilder.add_id_triples (builder b) triples;
  Ok (mk (files b) builder).

(** The files that there are then; those of the id maps are not written. *)
Definition finalize (b : t) : outcome io_error BaseLayerMaps.t :=
  '(s_p, sp_o, subjects) ← TripleFileBuilder.finalize (builder b);
  let '(_, _, _, s_p_nums) := s_p in
  let '(sp_o_bits, _, _, sp_o_nums) := sp_o in
  '((o_ps, objects), wavelet) ← build_indexes s_p_nums sp_o_bits sp_o_nums false;
  let '(nodes, predicates, values) := files b in
  Ok (BaseLayerMaps.mk nodes predicates values (mk_id_map_maps None None) subjects objects s_p sp_o o_ps wavelet).
End phase2.
End BaseLayerFileBuilderPhase2.

Module BaseLayerFileBuilder.
Definition t : Type := DictionarySetFileBuilder.t.

Definition from_files : t := DictionarySetFileBuilder.from_files.

Definition add_node (b : t) (node : list N) : option (N * t) := DictionarySetFileBuilder.add_node b node.
Definition add_predicate (b : t) (predicate : list N) : option (N * t) := DictionarySetFileBuilder.add_predicate b predicate.
Definition add_value (b : t) (value : list N) : option (N * t) := DictionarySetFileBuilder.add_value b value.
Definition add_nodes (b : t) (nodes : list (list N)) : option (list N * t) := DictionarySetFileBuilder.add_nodes b nodes.
Definition add_predicates (b : t) (predicates : list (list N)) : option (list N * t) :=
  DictionarySetFileBuilder.add_predicates b predicates.
Definition add_values (b : t) (values : list (list N)) : option (list N * t) := DictionarySetFileBuilder.add_values b values.

Definition into_phase2 `{Log2F32} (b : t) : outcome io_error BaseLayerFileBuilderPhase2.t :=
  '(files, (num_nodes, num_predicates, num_values)) ← finish_dictionaries b;
  BaseLayerFileBuilderPhase2.new files num_nodes num_predicates num_values.
End BaseLayerFileBuilder.

Module ChildLayerFileBuilderPhase2.
Section phase2.
Context `{FramedRead} `{Log2F32} `{ParSort} `{Layer L}.

Record t : Type := mk {
  parent : L;
  files : dictionary_set;
  pos_builder : TripleFileBuilder.t;
  neg_builder : TripleFileBuilder.t
}.

Definition new (parent : L) (files : dictionary_set) (num_nodes num_predicates num_values : N) : outcome io_error t :=
  parent_counts ← or_panic (all_counts parent);
  num_nodes ← or_panic (cadd 64 num_nodes (node_count parent_counts));
  num_predicates ← or_panic (cadd 64 num_predicates (predicate_count parent_counts));
  num_values ← or_panic (cadd 64 num_values (value_count parent_counts));
  pos_builder ← TripleFileBuilder.new num_nodes num_predicates num_values true;
  neg_builder ← TripleFileBuilder.new num_nodes num_predicates num_values true;
  Ok (mk parent files pos_builder neg_builder).

Definition add_triple_unchecked (b : t) (subject predicate object : N) : outcome io_error t :=
  pos_builder ← TripleFileBuilder.add_triple (pos_builder b) subject predicate object;
  Ok (mk (parent b) (files b) pos_builder (neg_builder b)).

Definition add_triple (b : t) (subject predicate object : N) : outcome io_error t :=
  exists_ ← or_panic (triple_exists (parent b) subject predicate object);
  if negb exists_ then add_triple_unchecked b subject predicate object else Ok b.

Definition remove_triple_unchecked (b : t) (subject predicate object : N) : outcome io_error t :=
  neg_builder ← TripleFileBuilder.add_triple (neg_builder b) subject predicate object;
  Ok (mk (parent b) (files b) (pos_builder b) neg_builder).

Definition remove_triple (b : t) (subject predicate object : N) : outcome io_error t :=
  exists_ ← or_panic (triple_exists (parent b) subject predicate object);
  if (exists_ : bool) then remove_triple_unchecked b subject predicate object else Ok b.

(** [into_par_iter().filter(..).collect()], which keeps the order. *)
Fixpoint filter_triples (f : IdTriple.t -> option bool) (triples : list IdTriple.t) : option (list IdTriple.t) :=
  match triples with
  | [] => Some []
  | x :: triples => b ← f x; xs ← filter_triples f triples; Some (if b : bool then x :: xs else xs)
  end.

Definition add_id_triples (b : t) (triples : list IdTriple.t) : outcome io_error t :=
  filtered ← or_panic (filter_triples (fun x =>
    e ← triple_exists (parent b) (IdTriple.subject x) (IdTriple.predicate x) (IdTriple.object x); Some (negb e)) triples);
  fold_outcome (fun b x => add_triple_unchecked b (IdTriple.subject x) (IdTriple.predicate x) (IdTriple.object x)) b filtered.

Definition remove_id_triples (b : t) (triples : list IdTriple.t) : outcome io_error t :=
  filtered ← or_panic (filter_triples (fun x =>
    triple_exists (parent b) (IdTriple.subject x) (IdTriple.predicate x) (IdTriple.object x)) triples);
  fold_outcome (fun b x => remove_triple_unchecked b (IdTriple.subject x) (IdTriple.predicate x) (IdTriple.object x)) b filtered.

(** The tasks run side by side and share nothing.  The files of the subjects
    and objects are there, since both builders were given them. *)
Definition finalize (b : t) : outcome io_error ChildLayerMaps.t :=
  '(pos_s_p, pos_sp_o, pos_subjects) ← TripleFileBuilder.finalize (pos_builder b);
  '(neg_s_p, neg_sp_o, neg_subjects) ← TripleFileBuilder.finalize (neg_builder b);
  let '(_, _, _, pos_s_p_nums) := pos_s_p in
  let '(pos_sp_o_bits, _, _, pos_sp_o_nums) := pos_sp_o in
  let '(_, _, _, neg_s_p_nums) := neg_s_p in
  let '(neg_sp_o_bits, _, _, neg_sp_o_nums) := neg_sp_o in
  '((pos_o_ps, pos_objects), pos_wavelet) ← build_indexes pos_s_p_nums pos_sp_o_bits pos_sp_o_nums true;
  '((neg_o_ps, neg_objects), neg_wavelet) ← build_indexes neg_s_p_nums neg_sp_o_bits neg_sp_o_nums true;
  pos_subjects ← or_panic pos_subjects;
  pos_objects ← or_panic pos_objects;
  neg_subjects ← or_panic neg_subjects;
  neg_objects ← or_panic neg_objects;
  let '(nodes, predicates, values) := files b in
  Ok (ChildLayerMaps.mk nodes predicates values (mk_id_map_maps None None) pos_subjects pos_objects neg_subjects neg_objects
    pos_s_p pos_sp_o pos_o_ps neg_s_p neg_sp_o neg_o_ps pos_wavelet neg_wavelet).
End phase2.
Arguments t : clear implicits.
End ChildLayerFileBuilderPhase2.

Module ChildLayerFileBuilder.
Section builder.
Context `{Layer L}.

Record t : Type := mk {
  parent : L;
  builder : DictionarySetFileBuilder.t
}.

Definition from_files (parent : L) : t := mk parent DictionarySetFileBuilder.from_files.

(** Adds a string that the parent does not have. *)
Definition add_new (id : option (option N)) (add : option (N * DictionarySetFileBuilder.t)) (b : t) : option (N * t) :=
  id ← id;
  match id with
  | None => '(id, builder) ← add; Some (id, mk (parent b) builder)
  | Some id => Some (id, b)
  end.

Definition add_node (b : t) (node : list N) : option (N * t) :=
  add_new (subject_id (parent b) node) (DictionarySetFileBuilder.add_node (builder b) node) b.

Definition add_predicate (b : t) (predicate : list N) : option (N * t) :=
  add_new (predicate_id (parent b) predicate) (DictionarySetFileBuilder.add_predicate (builder b) predicate) b.

Definition add_value (b : t) (value : list N) : option (N * t) :=
  add_new (object_value_id (parent b) value) (DictionarySetFileBuilder.add_value (builder b) value) b.

Fixpoint add_strings (add : t -> list N -> option (N * t)) (b : t) (strings : list (list N)) (result : list N) : option (list N * t) :=
  match strings with
  | [] => Some (result, b)
  | s :: strings => '(id, b) ← add b s; add_strings add b strings (result ++ [id])
  end.

Definition add_nodes (b : t) (nodes : list (list N)) : option (list N * t) := add_strings add_node b nodes [].
Definition add_predicates (b : t) (predicates : list (list N)) : option (list N * t) := add_strings add_predicate b predicates [].
Definition add_values (b : t) (values : list (list N)) : option (list N * t) := add_strings add_value b values [].

Definition into_phase2 `{Log2F32} (b : t) : outcome io_error (ChildLayerFileBuilderPhase2.t L) :=
  '(files, (num_nodes, num_predicates, num_values)) ← finish_dictionaries (builder b);
  ChildLayerFileBuilderPhase2.new (parent b) files num_nodes num_predicates num_values.
End builder.
Arguments t : clear implicits.
End ChildLayerFileBuilder.
