(* ===== verification/BuiltLayers.v ===== *)
(** * What the builders build (src/layer/internal/base.rs and child.rs)

    The files of a built layer load as a layer that implements the model one
    expects: a base layer has the strings and the triples it was given; a child
    layer has those of its parent with the new ones, without the removed
    triples. *)

From S2P Require Import Prelude.
From S2P Require Import Words.
From S2P Require Import Codec.
From S2P Require Import Strings.
From S2P Require Import LogArrays.
From S2P Require Import BitIndexes.
From S2P Require Import AdjacencyLists.
From S2P Require Import WaveletTrees.
From S2P Require Import PfcBlocks.
From S2P Require Import PfcDicts.
From S2P Require Import LayerTypes.
From S2P Require Import LayerModel.
From S2P Require Import Triples.
From S2P Require Import TripleBuilder.
From S2P Require Import IdMaps.
From S2P Require Import Iterators.
From S2P Require Import Stacks.
From S2P Require Import InternalLayers.
From S2P Require Import LayerNames.
From S2P Require Import LayerTriples.
From S2P Require Import LayerRefinement.
From S2P Require Import LayerBuilders.
Open Scope N_scope.

(** A base layer's files from its strings and its triples. *)
Definition write_base `{FramedRead} `{Log2F32} `{ParSort} (nodes predicates values : list (list N)) (triples : list IdTriple.t)
    : outcome io_error BaseLayerMaps.t :=
  '(_, b) ← or_panic (BaseLayerFileBuilder.add_nodes BaseLayerFileBuilder.from_files nodes);
  '(_, b) ← or_panic (BaseLayerFileBuilder.add_predicates b predicates);
  '(_, b) ← or_panic (BaseLayerFileBuilder.add_values b values);
  b ← BaseLayerFileBuilder.into_phase2 b;
  b ← BaseLayerFileBuilderPhase2.add_id_triples b triples;
  BaseLayerFileBuilderPhase2.finalize b.

Lemma bind_Ok_inv {E A B} (m : outcome E A) (f : A -> outcome E B) y : (m ≫= f) = Ok y -> exists x, m = Ok x /\ f x = Ok y.
Proof. destruct m as [x| |]; [by exists x|done..]. Qed.

(** ** Strings *)

Section strings.
Import DictionarySetFileBuilder.

Lemma add_list_nodes n p v ss ids : add_list add_node (mk n p v) ss ids =
  '(r, b) ← PfcDictFileBuilder.add_loop PfcDictFileBuilder.add n ss ids; Some (r, mk b p v).
Proof.
  revert n ids. induction ss as [|s ss IH]; intros n ids; [done|]. cbn [add_list PfcDictFileBuilder.add_loop].
  unfold add_node. cbn [node_dictionary_builder predicate_dictionary_builder value_dictionary_builder].
  destruct (PfcDictFileBuilder.add n s) as [[id d]|]; [|done]. cbn. apply IH.
Qed.

Lemma add_list_predicates n p v ss ids : add_list add_predicate (mk n p v) ss ids =
  '(r, b) ← PfcDictFileBuilder.add_loop PfcDictFileBuilder.add p ss ids; Some (r, mk n b v).
Proof.
  revert p ids. induction ss as [|s ss IH]; intros p ids; [done|]. cbn [add_list PfcDictFileBuilder.add_loop].
  unfold add_predicate. cbn [node_dictionary_builder predicate_dictionary_builder value_dictionary_builder].
  destruct (PfcDictFileBuilder.add p s) as [[id d]|]; [|done]. cbn. apply IH.
Qed.

Lemma add_list_values n p v ss ids : add_list add_value (mk n p v) ss ids =
  '(r, b) ← PfcDictFileBuilder.add_loop PfcDictFileBuilder.add v ss ids; Some (r, mk n p b).
Proof.
  revert v ids. induction ss as [|s ss IH]; intros v ids; [done|]. cbn [add_list PfcDictFileBuilder.add_loop].
  unfold add_value. cbn [node_dictionary_builder predicate_dictionary_builder value_dictionary_builder].
  destruct (PfcDictFileBuilder.add v s) as [[id d]|]; [|done]. cbn. apply IH.
Qed.

(** A finished dictionary file. *)
Definition dictionary_of (files : dictionary_maps) (d : PfcDict.t) (ss : list (list N)) : Prop :=
  parse_dictionary files = Ok d /\ dict_repr d ss.

(** Adding three lists of strings and finishing the dictionaries. *)
Lemma build_dictionaries ns ps vs : dict_input ns -> dict_input ps -> dict_input vs ->
  exists n p v fn fp fv dn dp dv,
    add_list add_node from_files ns [] = Some (seqN 1 (lenN ns), mk n (PfcDictFileBuilder.new [] []) (PfcDictFileBuilder.new [] [])) /\
    add_list add_predicate (mk n (PfcDictFileBuilder.new [] []) (PfcDictFileBuilder.new [] [])) ps [] =
      Some (seqN 1 (lenN ps), mk n p (PfcDictFileBuilder.new [] [])) /\
    add_list add_value (mk n p (PfcDictFileBuilder.new [] [])) vs [] = Some (seqN 1 (lenN vs), mk n p v) /\
    finish_dictionaries (mk n p v) = Ok ((fn, fp, fv), (lenN ns, lenN ps, lenN vs)) /\
    dictionary_of fn dn ns /\ dictionary_of fp dp ps /\ dictionary_of fv dv vs.
Proof.
  intros Hns Hps Hvs. destruct (dict_build ns Hns) as (n & bn & on & dn & Hn & Hfn & Hdn & Hrn & _).
  destruct (dict_build ps Hps) as (p & bp & op & dp & Hp & Hfp & Hdp & Hrp & _).
  destruct (dict_build vs Hvs) as (v & bv & ov & dv & Hv & Hfv & Hdv & Hrv & _).
  unfold PfcDictFileBuilder.add_all in *.
  exists n, p, v, (bn, on), (bp, op), (bv, ov), dn, dp, dv. unfold from_files.
  rewrite add_list_nodes, Hn, add_list_predicates, Hp, add_list_values, Hv. split; [done|]. split; [done|]. split; [done|].
  assert (Hparse : forall b o d, PfcDict.parse b o = Ok d -> parse_dictionary (b, o) = Ok d).
  { intros b o d E. unfold parse_dictionary. cbn [fst snd]. by rewrite E. }
  apply Hparse in Hdn, Hdp, Hdv. split; [|done]. unfold finish_dictionaries, finalize. cbn [node_dictionary_builder predicate_dictionary_builder value_dictionary_builder].
  rewrite Hfn, bind_Ok_eq, Hfp, bind_Ok_eq, Hfv, !bind_Ok_eq, Hdn, bind_Ok_eq, Hdp, bind_Ok_eq, Hdv, bind_Ok_eq.
  unfold PfcDict.len. by rewrite (proj1 Hrn), (proj1 Hrp), (proj1 Hrv).
Qed.
End strings.

(** ** Names *)

(** The names of a layer without id maps. *)
Definition plain_names (ns ps vs : list (list N)) : names :=
  mk_names ns vs ps (seqN 0 (lenN ns + lenN vs)) (seqN 0 (lenN ps)).

Definition plain_entries (ns vs : list (list N)) : list ObjectType := (Node <$> ns) ++ (Value <$> vs).

Lemma lenN_plain_entries ns vs : lenN (plain_entries ns vs) = lenN ns + lenN vs.
Proof. unfold plain_entries. by rewrite lenN_app, !lenN_map. Qed.

Lemma plain_names_ok ns ps vs : names_ok (plain_names ns ps vs).
Proof. unfold names_ok, permutation. cbn. by rewrite !lenN_seqN. Qed.

Lemma plain_names_entries ns ps vs : entries_of_names (plain_names ns ps vs) = plain_entries ns vs.
Proof. apply (arrange_id (plain_entries ns vs)), lenN_plain_entries. Qed.

Lemma plain_names_predicates ns ps vs : predicates_of_names (plain_names ns ps vs) = ps.
Proof. by apply arrange_id. Qed.

Lemma plain_names_repr dn dp dv ns ps vs : dict_repr dn ns -> dict_repr dp ps -> dict_repr dv vs ->
  names_repr dn dp dv IdMap.default IdMap.default (plain_names ns ps vs).
Proof. intros Hn Hp Hv. split; [done..| |]; apply idmap_default. Qed.

Lemma sorted_strings_nodup ss : StronglySorted lex_lt ss -> NoDup ss.
Proof.
  induction 1 as [|s ss _ IH Hs]; constructor; [|done]. intros Hin. rewrite Forall_forall in Hs.
  by apply (lex_lt_irrefl s), Hs.
Qed.

Lemma plain_entries_nodup ns vs : StronglySorted lex_lt ns -> StronglySorted lex_lt vs -> NoDup (plain_entries ns vs).
Proof.
  intros Hn Hv. apply NoDup_app. split; [|split].
  - apply NoDup_fmap_2; [by intros x y [= ->]|by apply sorted_strings_nodup].
  - by intros x (s & -> & _)%list_elem_of_fmap (t & ? & _)%list_elem_of_fmap.
  - apply NoDup_fmap_2; [by intros x y [= ->]|by apply sorted_strings_nodup].
Qed.

Lemma at_id_total {A} (E : list A) id : 0 < id -> id <= lenN E -> is_Some (at_id E id).
Proof. intros Hid Hle. unfold at_id. destruct (N.eqb_spec id 0); [lia|]. apply nget_lt. lia. Qed.

(** ** Triples *)

Lemma layer_input_bounds `{Log2F32} sparse nn np nv ns M T : layer_input sparse nn np nv ns M T ->
  StronglySorted triple_lt (filter real_triple T) /\ lenN (filter real_triple T) < 2 ^ 32 /\ nn + nv < 2 ^ 64 /\ np < 2 ^ 64 /\
  Forall (fun x => real_triple x /\ IdTriple.subject x <= ns /\ IdTriple.predicate x <= np /\ IdTriple.object x <= nn + nv)
    (filter real_triple T).
Proof.
  intros (Hw & _ & Hn & Hnp & _ & _ & _ & _ & [Hs Hb Hsz]). split; [done|]. split; [lia|]. split; [done|]. split; [|done].
  destruct (Hw np Hnp) as (w & _ & Hw64 & Hlt). apply N.lt_le_trans with (1 := Hlt). by apply N.pow_le_mono_r.
Qed.

(** The ids of the triples are ids of the layer. *)
Lemma triples_have_ids `{Log2F32} sparse nn np nv M T (E : list ObjectType) (P : list (list N)) :
  layer_input sparse nn np nv (nn + nv) M T -> lenN E = nn + nv -> lenN P = np ->
  Forall (fun t => is_Some (at_id E (IdTriple.subject t)) /\ is_Some (at_id P (IdTriple.predicate t)) /\
    is_Some (at_id E (IdTriple.object t))) (filter real_triple T).
Proof.
  intros Hin HE HP. destruct (layer_input_bounds _ _ _ _ _ _ _ Hin) as (_ & _ & _ & _ & Hb). eapply Forall_impl; [exact Hb|].
  intros x ((Hs & Hp & Ho) & Hs' & Hp' & Ho'). cbn in *. split; [|split]; apply at_id_total; lia.
Qed.

(** Writing a layer's triples, step by step. *)
Lemma write_layer_steps `{FramedRead} `{Log2F32} `{ParSort} sparse nn np nv T s_p sp_o subjects o_ps objects wavelet :
  write_layer sparse nn np nv T = Ok (s_p, sp_o, subjects, ((o_ps, objects), wavelet)) ->
  exists b b', TripleFileBuilder.new nn np nv sparse = Ok b /\ TripleFileBuilder.add_id_triples b T = Ok b' /\
    TripleFileBuilder.finalize b' = Ok (s_p, sp_o, subjects) /\
    exists s1 s2 s3 s_p_nums sp_o_bits o2 o3 sp_o_nums, s_p = (s1, s2, s3, s_p_nums) /\ sp_o = (sp_o_bits, o2, o3, sp_o_nums) /\
      build_indexes s_p_nums sp_o_bits sp_o_nums sparse = Ok ((o_ps, objects), wavelet).
Proof.
  unfold write_layer, write_triples. intros ([[s_p' sp_o'] subjects'] & (b & Hb & (b' & Hb' & Hf)%bind_Ok_inv)%bind_Ok_inv & Hw)%bind_Ok_inv.
  destruct s_p' as [[[s1 s2] s3] s_p_nums], sp_o' as [[[sp_o_bits o2] o3] sp_o_nums]. apply bind_Ok_inv in Hw as (ix & Hix & Hw).
  injection Hw as <- <- <- ->. exists b, b'. split; [done|]. split; [done|]. split; [done|].
  by exists s1, s2, s3, s_p_nums, sp_o_bits, o2, o3, sp_o_nums.
Qed.

Lemma read_layer_steps debug s_p sp_o subjects o_ps objects wavelet subjs al_sp al_spo objs al_ops wt :
  read_layer debug (s_p, sp_o, subjects, ((o_ps, objects), wavelet)) = Some (subjs, al_sp, al_spo, objs, al_ops, wt) ->
  parse_optional debug subjects = Some subjs /\ parse_optional debug objects = Some objs /\ parse_files debug s_p = Some al_sp /\
  parse_files debug sp_o = Some al_spo /\ parse_files debug o_ps = Some al_ops /\
  parse_wavelet wavelet (LogArray.width (AdjacencyList.nums al_sp)) = Some wt.
Proof.
  unfold read_layer, read_triples. intros ([[x1 x2] x3] & (y1 & H1 & (y2 & H2 & (y3 & H3 & H4)%bind_Some)%bind_Some)%bind_Some & H)%bind_Some.
  injection H4 as -> -> ->. apply bind_Some in H as (z1 & Hz1 & H). apply bind_Some in H as (z2 & Hz2 & H).
  apply bind_Some in H as (z3 & Hz3 & H). by injection H as -> -> -> -> -> ->.
Qed.

(** ** Base layers *)

(** The layer has the model, and its stack adds at most [k] triples: the sum
    that counting the additions makes. *)
Definition implements_within (k : N) (l : InternalLayer) (m : layer_model) : Prop :=
  exists ns cs, implements_by l m ns cs /\ additions_of cs <= k.

Lemma within_implements k l m : implements_within k l m -> implements l m.
Proof. intros (ns & cs & Hi & _). by exists ns, cs. Qed.

Lemma within_le k k' l m : k <= k' -> implements_within k l m -> implements_within k' l m.
Proof. intros Hk (ns & cs & Hi & Hc). exists ns, cs. split; [done|lia]. Qed.

Lemma additions_counted l m ns cs : implements_by l m ns cs -> LayerTriples.triple_addition_count l = Some (additions_of cs).
Proof.
  intros Hi. exact (stack_count_spec _ (fun c => lenN c.1) l cs layer_addition_count (proj1 (impl_changes _ _ _ _ Hi))
    (impl_additions _ _ _ _ Hi)).
Qed.

Lemma within_counted k l m c : implements l m -> LayerTriples.triple_addition_count l = Some c -> c <= k -> implements_within k l m.
Proof.
  intros (ns & cs & Hi) Hc Hk. exists ns, cs. split; [done|]. rewrite (additions_counted _ _ _ _ Hi) in Hc. by injection Hc as <-.
Qed.

Lemma base_implements name dn dp dv nm pm n subjs objs s_p sp_o o_ps wt ts :
  names_repr dn dp dv nm pm n -> names_ok n -> holds subjs s_p sp_o objs o_ps wt ts ->
  size_of n < 2 ^ 64 -> lenN (predicates n) < 2 ^ 64 -> lenN ts < 2 ^ 64 ->
  model_ok (mk_model (entries_of_names n) (predicates_of_names n) ts) ->
  implements_within (lenN ts) (Base (BaseLayer.mk name dn dp dv nm pm subjs objs s_p sp_o o_ps wt))
    (mk_model (entries_of_names n) (predicates_of_names n) ts).
Proof.
  intros Hn Hnok Hh Hc Hpc Hts Hok. exists [n], [(ts, [])]. split; [|cbn; lia].
  split; cbn [model_entries model_predicates model_triples]; [| | | | |done| | |].
  - by split; [split|].
  - split; [by repeat constructor|]. intros x. split; [done|]. split; [|by intros ?%elem_of_nil].
    intros _. by split; [apply not_elem_of_nil|intros []].
  - unfold all_entries. cbn. by rewrite app_nil_r.
  - unfold all_predicates. cbn. by rewrite app_nil_r.
  - intros t. cbn. tauto.
  - cbn [count_of foldr]. lia.
  - cbn. lia.
  - cbn. lia.
Qed.

Lemma plain_model_ok `{Log2F32} sparse ns ps vs M T : dict_input ns -> dict_input ps -> dict_input vs ->
  layer_input sparse (lenN ns) (lenN ps) (lenN vs) (lenN ns + lenN vs) M T ->
  model_ok (mk_model (plain_entries ns vs) ps (filter real_triple T)).
Proof.
  intros (_ & Hn & _) (_ & Hp & _) (_ & Hv & _) Hin. split; cbn [model_entries model_predicates model_triples].
  - by apply plain_entries_nodup.
  - by apply sorted_strings_nodup.
  - by destruct (layer_input_bounds _ _ _ _ _ _ _ Hin).
  - by apply (triples_have_ids sparse (lenN ns) (lenN ps) (lenN vs) M); [|apply lenN_plain_entries|].
Qed.

(** A layer without id maps, which is no rollup. *)
Definition no_maps (l : InternalLayer) : Prop :=
  Internal.node_value_id_map l = IdMap.default /\ Internal.predicate_id_map l = IdMap.default.

Lemma base_built `{FramedRead} `{Log2F32} `{ParSort} debug name ns ps vs M T :
  dict_input ns -> dict_input ps -> dict_input vs ->
  layer_input false (lenN ns) (lenN ps) (lenN vs) (lenN ns + lenN vs) M T ->
  exists maps l, write_base ns ps vs T = Ok maps /\ base_load debug name maps = Some l /\ Internal.name l = name /\
    Internal.parents_of l = [] /\ no_maps l /\ LayerTriples.triple_addition_count l = Some (lenN (filter real_triple T)) /\
    implements l (mk_model (plain_entries ns vs) ps (filter real_triple T)).
Proof.
  intros Hns Hps Hvs Hin. destruct (layer_input_bounds _ _ _ _ _ _ _ Hin) as (_ & Hlen & Hcount & Hpcount & _).
  destruct (build_dictionaries ns ps vs Hns Hps Hvs) as
    (n & p & v & fn & fp & fv & dn & dp & dv & Hn & Hp & Hv & Hfin & (Hfn & Hdn) & (Hfp & Hdp) & Hfv & Hdv).
  destruct (write_layer_spec debug _ _ _ _ _ _ _ Hin) as
    ([[[s_p sp_o] subjects] [[o_ps objects] wavelet]] & subjs & al_sp & al_spo & objs & al_ops & wt & Hw & Hr & Hh & Hsome).
  destruct (write_layer_steps _ _ _ _ _ _ _ _ _ _ _ Hw) as
    (b & b' & Hb & Hb' & Hf & s1 & s2 & s3 & s4 & o1 & o2 & o3 & o4 & -> & -> & Hix).
  destruct (read_layer_steps _ _ _ _ _ _ _ _ _ _ _ _ _ Hr) as (Hsubj & Hobj & Hsp & Hspo & Hops & Hwt).
  eexists (BaseLayerMaps.mk fn fp fv (mk_id_map_maps None None) subjects objects _ _ o_ps wavelet), _. split; [|split; [|split]].
  - unfold write_base, BaseLayerFileBuilder.add_nodes, BaseLayerFileBuilder.add_predicates, BaseLayerFileBuilder.add_values,
      DictionarySetFileBuilder.add_nodes, DictionarySetFileBuilder.add_predicates, DictionarySetFileBuilder.add_values.
    etransitivity; [apply (f_equal (fun m => mbind _ (or_panic m))), Hn|]. cbn [or_panic]. rewrite bind_Ok_eq, Hp. cbn [or_panic].
    rewrite bind_Ok_eq, Hv. cbn [or_panic]. rewrite bind_Ok_eq.
    unfold BaseLayerFileBuilder.into_phase2. rewrite Hfin, bind_Ok_eq. unfold BaseLayerFileBuilderPhase2.new. rewrite Hb, !bind_Ok_eq.
    unfold BaseLayerFileBuilderPhase2.add_id_triples. cbn [BaseLayerFileBuilderPhase2.builder BaseLayerFileBuilderPhase2.files].
    rewrite Hb', !bind_Ok_eq. unfold BaseLayerFileBuilderPhase2.finalize. cbn [BaseLayerFileBuilderPhase2.builder BaseLayerFileBuilderPhase2.files].
    by rewrite Hf, bind_Ok_eq, Hix, bind_Ok_eq.
  - unfold base_load.
    cbn [BaseLayerMaps.node_dictionary_maps BaseLayerMaps.predicate_dictionary_maps BaseLayerMaps.value_dictionary_maps
      BaseLayerMaps.id_map_maps BaseLayerMaps.subjects_map BaseLayerMaps.objects_map BaseLayerMaps.s_p_adjacency_list_maps
      BaseLayerMaps.sp_o_adjacency_list_maps BaseLayerMaps.o_ps_adjacency_list_maps BaseLayerMaps.predicate_wavelet_tree_maps
      node_value_idmap_maps predicate_idmap_maps load_idmap].
    rewrite Hfn, Hfp, Hfv. cbn [unwrap]. rewrite !bind_Some_eq. unfold PfcDict.len. rewrite (proj1 Hdn), (proj1 Hdv), cadd_Some by done.
    rewrite !bind_Some_eq, Hsubj, bind_Some_eq, Hobj, bind_Some_eq, Hsp, bind_Some_eq, Hspo, bind_Some_eq, Hops, bind_Some_eq, Hwt.
    rewrite bind_Some_eq. done.
  - done.
  - split; [done|]. split; [done|]. split.
    2:{ pose proof (base_implements name dn dp dv IdMap.default IdMap.default (plain_names ns ps vs) subjs objs al_sp al_spo al_ops wt
          (filter real_triple T)) as Himp. rewrite plain_names_entries, plain_names_predicates in Himp.
        eapply within_implements, Himp; [by apply plain_names_repr|apply plain_names_ok|done|done|done|lia|]. by apply (plain_model_ok false _ _ _ M). }
    unfold LayerTriples.triple_addition_count. by erewrite (layer_addition_count _ (_, [])) by by split.
Qed.

(** ** The strings of a child layer *)

(** ** Strings of a layer without a parent

    On a base layer without id maps the strings are looked up in one
    dictionary.  The empty string is found in a dictionary without strings, but
    no triple has the id that is found. *)

Section one_layer.
Context `{BytesSize} (l : InternalLayer) (n : names) (Hn : layer_names l n).
Hypothesis Hpar : Internal.parents_of l = [].
Hypothesis Hmaps : no_maps l.
Hypothesis Hsize : lenN (nodes n) + lenN (values n) < 2 ^ 64 - 1 /\ lenN (predicates n) < 2 ^ 64 - 1.

Lemma found_id (result : InternalLayer -> option (option N)) count r : result l = Some r ->
  match r with Some o => o < 2 ^ 64 - 1 | None => True end ->
  (r ← LayerNames.find_id result l (Internal.parents_of l); LayerNames.global_id count r) = Some (option_map (N.add 1) r).
Proof using Hpar.
  clear Hsize. intros Hr Ho. rewrite Hpar. cbn [LayerNames.find_id]. rewrite Hr, bind_Some_eq.
  replace (match r with Some _ | _ => Some (r, head []) end) with (Some (r, @None InternalLayer)) by by destruct r.
  rewrite bind_Some_eq. destruct r as [o|]; [|done]. cbn [LayerNames.global_id]. rewrite cadd_Some, bind_Some_eq by lia.
  rewrite bind_Some_eq, cadd_Some, bind_Some_eq by lia. cbn. by rewrite N.add_0_r.
Qed.

Lemma found_is_id {A} (E : list A) (x : A) r : match r with Some o => E.[o] = Some x | None => x ∉ E end ->
  is_id_of E x (option_map (N.add 1) r).
Proof using. clear Hsize. destruct r as [o|]; [|done]. cbn. intros Ho. apply at_id_Some. split; [lia|]. by replace (1 + o - 1) with o by lia. Qed.

Lemma found_small {A} (E : list A) (x : A) r : match r with Some o => E.[o] = Some x | None => x ∉ E end -> lenN E < 2 ^ 64 - 1 ->
  match r with Some o => o < 2 ^ 64 - 1 | None => True end.
Proof using. clear Hsize. destruct r as [o|]; [|done]. intros Ho%nget_Some_lt. lia. Qed.

Lemma entries_small : lenN (entries_of_names n) < 2 ^ 64 - 1 /\ lenN (predicates_of_names n) < 2 ^ 64 - 1.
Proof using Hn Hsize.
  destruct Hn as [_ Hok]. rewrite (proj1 (entries_of_names_spec n Hok)), (proj1 (predicates_of_names_spec n Hok)). apply Hsize.
Qed.

Lemma node_found s : exists r, (r ← LayerNames.find_id (LayerNames.node_result s) l (Internal.parents_of l);
    LayerNames.global_id LayerNames.node_and_value_count r) = Some r /\ (is_id_of (entries_of_names n) (Node s) r \/ nodes n = []).
Proof using All.
  destruct entries_small as [He _]. destruct (decide (nodes n = [] /\ s = [])) as [[E ->]|Hne].
  - assert (Hr : LayerNames.node_result [] l = Some (Some 0)).
    { unfold LayerNames.node_result, Internal.node_dict_id. destruct Hn as [[Hd _ _ _ _] _]. rewrite E in Hd.
      rewrite (dict_id_empty _ Hd), bind_Some_eq. by rewrite (proj1 Hmaps). }
    eexists. split; [by apply (found_id _ _ (Some 0))|by right].
  - destruct (LayerNames.node_result_spec s l n) as (r & Hr & Hspec); [destruct (nodes n), s; auto; tauto|done|].
    eexists. split; [apply (found_id _ _ r Hr); by eapply found_small|]. left. by apply found_is_id.
Qed.

Lemma predicate_found s : exists r, (r ← LayerNames.find_id (LayerNames.predicate_result s) l (Internal.parents_of l);
    LayerNames.global_id LayerNames.layer_predicate_count r) = Some r /\ (is_id_of (predicates_of_names n) s r \/ predicates n = []).
Proof using All.
  destruct entries_small as [_ He]. destruct (decide (predicates n = [] /\ s = [])) as [[E ->]|Hne].
  - assert (Hr : LayerNames.predicate_result [] l = Some (Some 0)).
    { unfold LayerNames.predicate_result, Internal.predicate_dict_id. destruct Hn as [[_ Hd _ _ _] _]. rewrite E in Hd.
      rewrite (dict_id_empty _ Hd), bind_Some_eq. by rewrite (proj2 Hmaps). }
    eexists. split; [by apply (found_id _ _ (Some 0))|by right].
  - destruct (LayerNames.predicate_result_spec s l n) as (r & Hr & Hspec); [destruct (predicates n), s; auto; tauto|done|].
    eexists. split; [apply (found_id _ _ r Hr); by eapply found_small|]. left. by apply found_is_id.
Qed.

Lemma value_found s : exists r, (r ← LayerNames.find_id (LayerNames.value_result s) l (Internal.parents_of l);
    LayerNames.global_id LayerNames.node_and_value_count r) = Some r /\
  (is_id_of (entries_of_names n) (Value s) r \/
   (Value s ∉ entries_of_names n) /\ exists id, r = Some id /\ at_id (entries_of_names n) id = None).
Proof using All.
  destruct entries_small as [He _]. destruct (LayerNames.layer_lens l n Hn) as (Hnl & _ & _). pose proof Hn as [_ Hok].
  pose proof (proj1 (entries_of_names_spec n Hok)) as Hlen. destruct (decide (values n = [] /\ s = [])) as [[E ->]|Hne].
  - assert (Hr : LayerNames.value_result [] l = Some (Some (lenN (nodes n)))).
    { unfold LayerNames.value_result, Internal.value_dict_id. destruct Hn as [[_ _ Hd _ _] _]. rewrite E in Hd.
      rewrite (dict_id_empty _ Hd), bind_Some_eq, Hnl, cadd_Some, bind_Some_eq by lia. by rewrite (proj1 Hmaps). }
    eexists. split; [apply (found_id _ _ (Some _) Hr); lia|]. right. rewrite E in Hlen. split.
    + unfold entries_of_names. destruct Hok as (Hp & Hl & _). rewrite arrange_perm by (by rewrite ?lenN_app, ?lenN_map).
      rewrite E, app_nil_r. by intros (t & [=] & _)%list_elem_of_fmap.
    + eexists. split; [reflexivity|]. unfold at_id. rewrite (proj2 (N.eqb_neq _ 0)) by lia. apply nget_None. rewrite Hlen, lenN_nil. lia.
  - destruct (LayerNames.value_result_spec s l n) as (r & Hr & Hspec); [destruct (values n), s; auto; tauto|done|lia|].
    eexists. split; [apply (found_id _ _ r Hr); by eapply found_small|]. left. by apply found_is_id.
Qed.
End one_layer.

(** Whether a triple of any strings exists in a base layer whose triples all
    stand for strings. *)
Lemma base_string_exists `{BytesSize} (l : InternalLayer) m x : Internal.parents_of l = [] -> no_maps l -> implements l m ->
  lenN (model_entries m) < 2 ^ 64 - 1 -> lenN (model_predicates m) < 2 ^ 64 - 1 ->
  (forall t, t ∈ model_triples m -> exists y, denotes m t y) ->
  exists b, string_triple_exists l x = Some b /\ (b = true <-> exists t, t ∈ model_triples m /\ denotes m t x).
Proof.
  intros Hpar Hmaps Hl He Hp Hts. pose proof Hl as (ns & cs & [Hns _ Ee Ep _ Hok _ _ _]).
  unfold LayerNames.has_names in Hns. rewrite Internal.stack_of_cons, Hpar in Hns.
  destruct ns as [|n [|n' ns]]; [done| |by destruct Hns as (_ & _ & _ & [])]. destruct Hns as (Hn & _).
  unfold LayerNames.all_entries, LayerNames.all_predicates in Ee, Ep. cbn in Ee, Ep. rewrite app_nil_r in Ee, Ep.
  pose proof Hn as [_ Hnok]. pose proof (proj1 (entries_of_names_spec n Hnok)) as L1. pose proof (proj1 (predicates_of_names_spec n Hnok)) as L2.
  assert (Hsz : lenN (nodes n) + lenN (values n) < 2 ^ 64 - 1 /\ lenN (predicates n) < 2 ^ 64 - 1) by (rewrite <- L1, <- L2, <- Ee, <- Ep; done).
  destruct (node_found l n Hn Hpar Hmaps Hsz (StringTriple.subject x)) as (rs & Es & Hs).
  destruct (predicate_found l n Hn Hpar Hmaps Hsz (StringTriple.predicate x)) as (rp & Epr & Hpr).
  assert (exists ro, (match StringTriple.object x with Node node => object_node_id l node | Value value => object_value_id l value end) = Some ro /\
    (is_id_of (model_entries m) (StringTriple.object x) ro \/ nodes n = [] \/
     (StringTriple.object x ∉ model_entries m) /\ exists id, ro = Some id /\ at_id (model_entries m) id = None)) as (ro & Eo & Ho).
  { rewrite Ee. destruct (StringTriple.object x) as [s|s].
    - destruct (node_found l n Hn Hpar Hmaps Hsz s) as (r & Er & Hr). exists r. split; [exact Er|tauto].
    - destruct (value_found l n Hn Hpar Hmaps Hsz s) as (r & Er & Hr). exists r. split; [exact Er|tauto]. }
  rewrite <- Ee in Hs. rewrite <- Ep in Hpr.
  assert (Hsome : model_triples m <> [] -> nodes n <> [] /\ predicates n <> []).
  { intros Hne. destruct (model_triples m) as [|t ts] eqn:Et; [done|]. destruct (Hts t) as (y & Hy1%at_id_elem & Hy2%at_id_elem & _); [left|].
    destruct Hnok as (P1 & Q1 & P2 & Q2). split.
    - intros E. rewrite Ee in Hy1. unfold entries_of_names in Hy1. rewrite arrange_perm, E in Hy1 by (by rewrite ?lenN_app, ?lenN_map).
      by apply list_elem_of_fmap in Hy1 as (? & [=] & _).
    - intros E. rewrite Ep in Hy2. unfold predicates_of_names in Hy2. rewrite arrange_perm, E in Hy2 by done. by apply elem_of_nil in Hy2. }
  eexists. split; [exact (string_triple_exists_by l m Hl x rs rp ro Es Epr Eo)|].
  destruct (decide (model_triples m = [])) as [E|Hne].
  { rewrite E. split; [|by intros (t & Ht%elem_of_nil & _)]. by destruct rs, rp, ro. }
  destruct (Hsome Hne) as [N1 N2]. destruct Hs as [Hs|]; [|done]. destruct Hpr as [Hpr|]; [|done].
  destruct Ho as [Ho|[|[Hno (id & -> & Hid)]]]; [|done|].
  - split.
    + destruct rs as [s|], rp as [p|], ro as [o|]; try done. rewrite bool_decide_eq_true. intros Ht. by exists (IdTriple.mk s p o).
    + intros ([s p o] & Ht & (D1 & D2 & D3)). rewrite (is_id_unique _ _ _ _ (entries_nodup m Hok) Hs D1).
      rewrite (is_id_unique _ _ _ _ (predicates_nodup m Hok) Hpr D2), (is_id_unique _ _ _ _ (entries_nodup m Hok) Ho D3).
      by rewrite bool_decide_eq_true.
  - split.
    + destruct rs as [s|], rp as [p|]; try done. rewrite bool_decide_eq_true. intros Ht. pose proof (triples_ids m Hok) as Hids.
      rewrite Forall_forall in Hids. destruct (Hids _ Ht) as (_ & _ & [y Hy]). cbn in Hy. congruence.
    + intros (t & _ & (_ & _ & D3%at_id_elem)). done.
Qed.

(** The strings that a layer with the model does not have. *)
Definition new_nodes (m : layer_model) (ns : list (list N)) : list (list N) := filter (fun s => Node s ∉ model_entries m) ns.
Definition new_values (m : layer_model) (vs : list (list N)) : list (list N) := filter (fun s => Value s ∉ model_entries m) vs.
Definition new_predicates (m : layer_model) (ps : list (list N)) : list (list N) := filter (fun s => s ∉ model_predicates m) ps.

Section child_strings.
Context {L A : Type} `{Layer L} (E : list A) (entry : list N -> A) `{forall s, Decision (entry s ∉ E)}.
Import ChildLayerFileBuilder.

(** Adding strings adds those that the parent does not have. *)
Lemma add_strings_spec (P : L) (id : list N -> option (option N)) dadd add :
  (forall s, s <> [] -> exists r, id s = Some r /\ is_id_of E (entry s) r) ->
  (forall b s, parent b = P -> add b s = add_new (id s) (dadd (builder b) s) b) ->
  forall ss d ids ids' d' result, Forall (fun s => s <> []) ss ->
  DictionarySetFileBuilder.add_list dadd d (filter (fun s => entry s ∉ E) ss) ids = Some (ids', d') ->
  exists result', add_strings add (mk P d) ss result = Some (result', mk P d') /\
    (Forall (fun s => entry s ∉ E) ss -> result = ids -> result' = ids').
Proof.
  intros Hid Hadd. induction ss as [|s ss IH]; intros d ids ids' d' result Hss Hl.
  - cbn in Hl. injection Hl as <- <-. by exists result.
  - apply Forall_cons in Hss as [Hs Hss]. cbn [add_strings]. rewrite Hadd by done. destruct (Hid s Hs) as (r & -> & Hr).
    unfold add_new. rewrite bind_Some_eq. rewrite filter_cons in Hl. destruct r as [id'|].
    + rewrite decide_False in Hl by (intros Hn; apply Hn; by eapply at_id_elem). rewrite bind_Some_eq. cbn [fst snd].
      destruct (IH _ _ _ _ (result ++ [id']) Hss Hl) as (result' & -> & _). exists result'. split; [done|].
      intros [Hn _]%Forall_cons. destruct Hn. by eapply at_id_elem.
    + rewrite decide_True in Hl by done. cbn [DictionarySetFileBuilder.add_list] in Hl. cbn [builder parent].
      destruct (dadd d s) as [[i d1]|] eqn:Ed; [|done]. rewrite bind_Some_eq in Hl. rewrite !bind_Some_eq. cbn [fst snd parent] in *.
      destruct (IH _ _ _ _ (result ++ [i]) Hss Hl) as (result' & -> & Heq). exists result'. split; [done|].
      intros [_ Hn]%Forall_cons ->. by apply Heq.
Qed.
End child_strings.

(** *** Filtering the triples *)

Lemma filter_triples_spec (P : IdTriple.t -> Prop) `{forall x, Decision (P x)} f T :
  (forall x, f x = Some (bool_decide (P x))) -> ChildLayerFileBuilderPhase2.filter_triples f T = Some (filter P T).
Proof.
  intros Hf. induction T as [|x T IH]; [done|]. cbn [ChildLayerFileBuilderPhase2.filter_triples]. rewrite Hf, bind_Some_eq, IH, bind_Some_eq.
  rewrite filter_cons. by destruct (decide (P x)) as [Hx|Hx]; [rewrite bool_decide_true|rewrite bool_decide_false].
Qed.

Section unchecked.
Context `{Layer L}.
Import ChildLayerFileBuilderPhase2.

Lemma add_unchecked_all (T : list IdTriple.t) (P : L) fs pos neg pos' :
  TripleFileBuilder.add_id_triples pos T = Ok pos' ->
  fold_outcome (fun b x => add_triple_unchecked b (IdTriple.subject x) (IdTriple.predicate x) (IdTriple.object x)) (mk P fs pos neg) T
    = Ok (mk P fs pos' neg).
Proof.
  unfold TripleFileBuilder.add_id_triples. revert pos. induction T as [|x T IH]; intros pos Ha; cbn [fold_outcome] in *.
  - by injection Ha as ->.
  - apply bind_Ok_inv in Ha as (pos1 & H1 & H2). unfold add_triple_unchecked at 2. cbn [pos_builder parent files neg_builder].
    rewrite H1, !bind_Ok_eq. by apply IH.
Qed.

Lemma remove_unchecked_all (T : list IdTriple.t) (P : L) fs pos neg neg' :
  TripleFileBuilder.add_id_triples neg T = Ok neg' ->
  fold_outcome (fun b x => remove_triple_unchecked b (IdTriple.subject x) (IdTriple.predicate x) (IdTriple.object x)) (mk P fs pos neg) T
    = Ok (mk P fs pos neg').
Proof.
  unfold TripleFileBuilder.add_id_triples. revert neg. induction T as [|x T IH]; intros neg Ha; cbn [fold_outcome] in *.
  - by injection Ha as ->.
  - apply bind_Ok_inv in Ha as (neg1 & H1 & H2). unfold remove_triple_unchecked at 2. cbn [pos_builder parent files neg_builder].
    rewrite H1, !bind_Ok_eq. by apply IH.
Qed.
End unchecked.

(** ** Child layers *)

(** A child layer's files from its parent, its strings and its changes. *)
Definition write_child `{FramedRead} `{Log2F32} `{ParSort} `{Layer L} (parent : L) (nodes predicates values : list (list N))
    (additions removals : list IdTriple.t) : outcome io_error ChildLayerMaps.t :=
  '(_, b) ← or_panic (ChildLayerFileBuilder.add_nodes (ChildLayerFileBuilder.from_files parent) nodes);
  '(_, b) ← or_panic (ChildLayerFileBuilder.add_predicates b predicates);
  '(_, b) ← or_panic (ChildLayerFileBuilder.add_values b values);
  b ← ChildLayerFileBuilder.into_phase2 b;
  b ← ChildLayerFileBuilderPhase2.add_id_triples b additions;
  b ← ChildLayerFileBuilderPhase2.remove_id_triples b removals;
  ChildLayerFileBuilderPhase2.finalize b.

(** Any set of triples can be put in order. *)
Lemma sorted_triples (l : list IdTriple.t) : exists ts, StronglySorted triple_lt ts /\ forall t, t ∈ ts <-> t ∈ l.
Proof.
  induction l as [|x l (ts & Hs & Hin)]; [by exists []; split; [constructor|]|].
  exists (filter (fun y => triple_lt y x) ts ++ x :: filter (fun y => triple_lt x y) ts). split.
  - apply StronglySorted_app_2; [|by apply sorted_filter|].
    + intros y z [Hy _]%list_elem_of_filter [->|[Hz _]%list_elem_of_filter]%elem_of_cons; [done|]. by etransitivity.
    + constructor; [by apply sorted_filter|]. apply Forall_forall. by intros y [Hy _]%list_elem_of_filter.
  - intros t. rewrite elem_of_app, !elem_of_cons, !list_elem_of_filter, Hin. destruct (triple_total t x) as [?|[->|?]]; tauto.
Qed.

(** The triples of a layer whose parent has [ts]. *)
Definition child_triples (ts additions removals : list IdTriple.t) (t : IdTriple.t) : Prop :=
  t ∈ additions \/ ((t ∉ removals) /\ t ∈ ts).

Lemma child_implements `{BytesSize} name parent m ns cs dn dp dv nm pm n ps_ po_ ps_p psp_o po_ps ns_ no_ ns_p nsp_o no_ps pwt nwt adds rems ts :
  implements_by parent m ns cs -> names_repr dn dp dv nm pm n -> names_ok n ->
  holds (Some ps_) ps_p psp_o (Some po_) po_ps pwt adds -> holds (Some ns_) ns_p nsp_o (Some no_) no_ps nwt rems ->
  Forall (fun t => t ∉ model_triples m) adds -> Forall (fun t => t ∈ model_triples m) rems ->
  lenN (model_entries m) + size_of n < 2 ^ 64 -> lenN (model_predicates m) + lenN (predicates n) < 2 ^ 64 ->
  additions_of cs + lenN adds < 2 ^ 64 ->
  (forall t, t ∈ ts <-> child_triples (model_triples m) adds rems t) ->
  model_ok (mk_model (model_entries m ++ entries_of_names n) (model_predicates m ++ predicates_of_names n) ts) ->
  implements_by (Child (ChildLayer.mk name parent dn dp dv nm pm (lenN (model_entries m)) (lenN (model_predicates m))
      ps_ po_ ps_p psp_o po_ps ns_ no_ ns_p nsp_o no_ps pwt nwt))
    (mk_model (model_entries m ++ entries_of_names n) (model_predicates m ++ predicates_of_names n) ts) (n :: ns) ((adds, rems) :: cs).
Proof.
  intros [Hn Hc He Hp Ht Hok Hcn Hcp Hca] Hnr Hnok Hpos Hneg Hadds Hrems Hcount Hpcount Hacount Hts Hmok.
  rewrite Forall_forall in Hadds, Hrems. destruct Hc as [Hc Hst].
  assert (Hlen : lenN (model_entries m) = count_of ns) by (rewrite He; by apply (lenN_all_entries parent)).
  assert (Hplen : lenN (model_predicates m) = predicate_count_of ns) by (rewrite Hp; by apply (lenN_all_predicates parent)).
  rewrite Hlen in Hcount. rewrite Hplen in Hpcount. rewrite Hlen, Hplen, He, Hp. rewrite He, Hp in Hmok.
  split; cbn [model_entries model_predicates model_triples]; [| | | | |done| | |].
  - by split; [split|].
  - split; [by constructor|]. intros x. split; [apply Hst|]. rewrite <- Ht. split; [|apply Hrems].
    intros Hx. specialize (Hadds x Hx). split; [|done]. by intros Hr%Hrems.
  - unfold all_entries. cbn [rev]. rewrite fmap_app, concat_app. cbn. by rewrite app_nil_r.
  - unfold all_predicates. cbn [rev]. rewrite fmap_app, concat_app. cbn. by rewrite app_nil_r.
  - intros t. rewrite Hts. unfold child_triples. cbn [stack_mem]. by rewrite Ht.
  - cbn [count_of foldr]. fold (count_of ns). lia.
  - cbn [predicate_count_of foldr]. fold (predicate_count_of ns). lia.
  - cbn [additions_of foldr]. fold (additions_of cs). cbn [fst]. lia.
Qed.

Lemma new_names_nodup {A} (E new : list A) : NoDup E -> NoDup new -> Forall (fun x => x ∉ E) new -> NoDup (E ++ new).
Proof. intros H1 H2 H3. rewrite Forall_forall in H3. apply NoDup_app. split; [done|]. split; [|done]. intros x Hx Hn. by apply (H3 x). Qed.

Lemma at_id_app_l {A} (E F : list A) id x : at_id E id = Some x -> at_id (E ++ F) id = Some x.
Proof. unfold at_id. destruct (id =? 0); [done|]. intros Hx. rewrite nget_app_l; [done|by eapply nget_Some_lt]. Qed.

Lemma at_id_app {A} (E F : list A) id : is_Some (at_id E id) -> is_Some (at_id (E ++ F) id).
Proof. intros [x Hx]. exists x. by apply at_id_app_l. Qed.

Lemma child_model_ok `{Log2F32} sparse m ns ps vs nn nv M A ts rems : model_ok m -> dict_input (new_nodes m ns) ->
  dict_input (new_predicates m ps) -> dict_input (new_values m vs) ->
  nn + nv = lenN (model_entries m) + lenN (new_nodes m ns) + lenN (new_values m vs) ->
  layer_input sparse nn (lenN (model_predicates m) + lenN (new_predicates m ps)) nv (nn + nv) M A ->
  StronglySorted triple_lt ts ->
  (forall t, t ∈ ts <-> child_triples (model_triples m) (filter real_triple A) rems t) ->
  model_ok (mk_model (model_entries m ++ plain_entries (new_nodes m ns) (new_values m vs)) (model_predicates m ++ new_predicates m ps) ts).
Proof.
  intros [Hne Hnp Hs Hids] (_ & Hn & _) (_ & Hp & _) (_ & Hv & _) Hcount Hin Hts Hmem.
  split; cbn [model_entries model_predicates model_triples]; [| |done|].
  - apply new_names_nodup; [done|by apply plain_entries_nodup|]. apply Forall_forall. unfold plain_entries, new_nodes, new_values.
    intros x [(s & -> & [Hx _]%list_elem_of_filter)%list_elem_of_fmap|(s & -> & [Hx _]%list_elem_of_filter)%list_elem_of_fmap]%elem_of_app; done.
  - apply new_names_nodup; [done|by apply sorted_strings_nodup|]. apply Forall_forall. by intros x [Hx _]%list_elem_of_filter.
  - rewrite Forall_forall in Hids. apply Forall_forall. intros t [Ht|[_ Ht]]%Hmem.
    + pose proof (triples_have_ids sparse nn _ nv M A (model_entries m ++ plain_entries (new_nodes m ns) (new_values m vs))
        (model_predicates m ++ new_predicates m ps) Hin) as Hall. rewrite Forall_forall in Hall. apply Hall; [| |done].
      * rewrite lenN_app, lenN_plain_entries. lia.
      * by rewrite lenN_app.
    + destruct (Hids t Ht) as (H1 & H2 & H3). by split; [|split]; apply at_id_app.
Qed.

(** The first phase: the dictionaries of the new strings, whose ids are those
    within the dictionaries. *)
Lemma child_phase1 `{Layer L} (impl : L -> layer_model -> Prop) `{!LayerLaws L impl} (parent : L) m ns ps vs : impl parent m ->
  Forall (fun s => s <> []) ns -> Forall (fun s => s <> []) ps -> Forall (fun s => s <> []) vs ->
  dict_input (new_nodes m ns) -> dict_input (new_predicates m ps) -> dict_input (new_values m vs) ->
  exists idn idp idv b1 b2 d fn fp fv dn dp dv,
    ChildLayerFileBuilder.add_nodes (ChildLayerFileBuilder.from_files parent) ns = Some (idn, b1) /\
    ChildLayerFileBuilder.add_predicates b1 ps = Some (idp, b2) /\
    ChildLayerFileBuilder.add_values b2 vs = Some (idv, ChildLayerFileBuilder.mk parent d) /\
    finish_dictionaries d = Ok ((fn, fp, fv), (lenN (new_nodes m ns), lenN (new_predicates m ps), lenN (new_values m vs))) /\
    dictionary_of fn dn (new_nodes m ns) /\ dictionary_of fp dp (new_predicates m ps) /\ dictionary_of fv dv (new_values m vs) /\
    (Forall (fun s => Node s ∉ model_entries m) ns -> idn = seqN 1 (lenN (new_nodes m ns))) /\
    (Forall (fun s => s ∉ model_predicates m) ps -> idp = seqN 1 (lenN (new_predicates m ps))) /\
    (Forall (fun s => Value s ∉ model_entries m) vs -> idv = seqN 1 (lenN (new_values m vs))).
Proof.
  intros Hm Hns Hps Hvs Hn Hp Hv. destruct (build_dictionaries _ _ _ Hn Hp Hv) as
    (n & p & v & fn & fp & fv & dn & dp & dv & Han & Hap & Hav & Hfin & Hdn & Hdp & Hdv).
  destruct (add_strings_spec (model_entries m) Node parent (subject_id parent) _ ChildLayerFileBuilder.add_node
    ltac:(intros s Hs; by apply (subject_id_law parent m)) ltac:(by intros b s <-) ns _ [] _ _ [] Hns Han) as (idn & E1 & I1).
  destruct (add_strings_spec (model_predicates m) (fun s => s) parent (predicate_id parent) _ ChildLayerFileBuilder.add_predicate
    ltac:(intros s Hs; by apply (predicate_id_law parent m)) ltac:(by intros b s <-) ps _ [] _ _ [] Hps Hap) as (idp & E2 & I2).
  destruct (add_strings_spec (model_entries m) Value parent (object_value_id parent) _ ChildLayerFileBuilder.add_value
    ltac:(intros s Hs; by apply (object_value_id_law parent m)) ltac:(by intros b s <-) vs _ [] _ _ [] Hvs Hav) as (idv & E3 & I3).
  exists idn, idp, idv. eexists _, _, _, fn, fp, fv, dn, dp, dv.
  split; [exact E1|]. split; [exact E2|]. split; [exact E3|]. split; [exact Hfin|]. split; [exact Hdn|]. split; [exact Hdp|]. split; [exact Hdv|].
  split; [intros Hf; by apply I1|]. split; [intros Hf; by apply I2|intros Hf; by apply I3].
Qed.

(** The triples a child layer adds and removes, of those it is given. *)
Definition new_triples (m : layer_model) (T : list IdTriple.t) : list IdTriple.t := filter (fun t => t ∉ model_triples m) T.
Definition known_triples (m : layer_model) (T : list IdTriple.t) : list IdTriple.t := filter (fun t => t ∈ model_triples m) T.

Lemma layer_input_regroup `{Log2F32} sparse nn np nv nn' nv' ns M T : nn + nv = nn' + nv' ->
  layer_input sparse nn np nv ns M T -> layer_input sparse nn' np nv' ns M T.
Proof.
  intros E (H1 & H2 & H3 & H4 & H5 & H6 & H7 & H8 & H9). unfold layer_input. rewrite <- E.
  repeat (split; [done || lia|]). done.
Qed.

(** What the child loads from the triple files of one of its halves. *)
Definition half_read (debug : bool) (s_p sp_o o_ps : adjacency_files) (subjects objects : list N)
    (wavelet : list N * list N * list N) (subjs : LogArray.t) (al_sp al_spo : AdjacencyList.t)
    (objs : LogArray.t) (al_ops : AdjacencyList.t) (wt : WaveletTree.t) : Prop :=
  parse_monotonic debug subjects = Some subjs /\ parse_monotonic debug objects = Some objs /\ parse_files debug s_p = Some al_sp /\
  parse_files debug sp_o = Some al_spo /\ parse_files debug o_ps = Some al_ops /\
  parse_wavelet wavelet (LogArray.width (AdjacencyList.nums al_sp)) = Some wt.

(** One half of the child: a triple builder with both files of ids. *)
Lemma child_half `{FramedRead} `{Log2F32} `{ParSort} debug nn np nv ns M T : layer_input true nn np nv ns M T ->
  exists b b' s1 s2 s3 s4 o1 o2 o3 o4 subjects o_ps objects wavelet subjs al_sp al_spo objs al_ops wt,
    TripleFileBuilder.new nn np nv true = Ok b /\ TripleFileBuilder.add_id_triples b T = Ok b' /\
    TripleFileBuilder.finalize b' = Ok ((s1, s2, s3, s4), (o1, o2, o3, o4), Some subjects) /\
    build_indexes s4 o1 o4 true = Ok ((o_ps, Some objects), wavelet) /\
    half_read debug (s1, s2, s3, s4) (o1, o2, o3, o4) o_ps subjects objects wavelet subjs al_sp al_spo objs al_ops wt /\
    holds (Some subjs) al_sp al_spo (Some objs) al_ops wt (filter real_triple T).
Proof.
  intros Hin. destruct (write_layer_spec debug _ _ _ _ _ _ _ Hin) as
    ([[[s_p sp_o] subjects] [[o_ps objects] wavelet]] & subjs & al_sp & al_spo & objs & al_ops & wt & Hw & Hr & Hh & Hsome).
  destruct (write_layer_steps _ _ _ _ _ _ _ _ _ _ _ Hw) as
    (b & b' & Hb & Hb' & Hf & s1 & s2 & s3 & s4 & o1 & o2 & o3 & o4 & -> & -> & Hix).
  destruct (read_layer_steps _ _ _ _ _ _ _ _ _ _ _ _ _ Hr) as (Hsubj & Hobj & Hsp & Hspo & Hops & Hwt).
  assert (Hs : is_Some subjs) by (apply bool_decide_eq_true in Hsome; done).
  destruct Hs as [la ->]. destruct subjects as [subjects|]; [|done]. apply bind_Some in Hsubj as (la' & Hsubj & E). injection E as ->.
  assert (Ho : is_Some objects).
  { unfold build_indexes, build_object_index in Hix. apply bind_Ok_inv in Hix as ([x y] & Hix & Hp). apply bind_Ok_inv in Hp as (z & _ & Hp).
    injection Hp as -> -> ->. apply bind_Ok_inv in Hix as (? & _ & Hix). apply bind_Ok_inv in Hix as (? & _ & Hix).
    apply bind_Ok_inv in Hix as ([[[? ?] ?] ?] & _ & Hix). apply bind_Ok_inv in Hix as (? & _ & Hix). apply bind_Ok_inv in Hix as (? & _ & Hix).
    apply bind_Ok_inv in Hix as (? & _ & Hix). injection Hix as _ <-. by eexists. }
  destruct Ho as [f ->]. apply bind_Some in Hobj as (lo & Hobj & E). injection E as <-.
  exists b, b', s1, s2, s3, s4, o1, o2, o3, o4, subjects, o_ps, f, wavelet, la, al_sp, al_spo, lo, al_ops, wt.
  by repeat (split; [done|]).
Qed.

(** What a child layer of a layer with the model [m] can be built from: the
    new strings make dictionaries, and the changes that apply are triples that
    can be written. *)
Record child_input `{Log2F32} (m : layer_model) (ns ps vs : list (list N)) (M : N) (A R : list IdTriple.t) : Prop := {
  child_nonempty : Forall (fun s => s <> []) (ns ++ ps ++ vs);
  child_nodes : dict_input (new_nodes m ns);
  child_predicates : dict_input (new_predicates m ps);
  child_values : dict_input (new_values m vs);
  child_additions : layer_input true (lenN (model_entries m) + lenN (new_nodes m ns))
    (lenN (model_predicates m) + lenN (new_predicates m ps)) (lenN (new_values m vs))
    (lenN (model_entries m) + lenN (new_nodes m ns) + lenN (new_values m vs)) M (new_triples m A);
  child_removals : layer_input true (lenN (model_entries m) + lenN (new_nodes m ns))
    (lenN (model_predicates m) + lenN (new_predicates m ps)) (lenN (new_values m vs))
    (lenN (model_entries m) + lenN (new_nodes m ns) + lenN (new_values m vs)) M (known_triples m R)
}.

Lemma phase2_new `{Log2F32} `{Layer L} (parent : L) files nn np nv c pos neg : all_counts parent = Some c ->
  nn + node_count c < 2 ^ 64 -> np + predicate_count c < 2 ^ 64 -> nv + value_count c < 2 ^ 64 ->
  TripleFileBuilder.new (nn + node_count c) (np + predicate_count c) (nv + value_count c) true = Ok pos ->
  TripleFileBuilder.new (nn + node_count c) (np + predicate_count c) (nv + value_count c) true = Ok neg ->
  ChildLayerFileBuilderPhase2.new parent files nn np nv = Ok (ChildLayerFileBuilderPhase2.mk parent files pos neg).
Proof.
  intros Hc Hn Hp Hv Hpos Hneg. unfold ChildLayerFileBuilderPhase2.new. rewrite Hc. cbn [or_panic]. rewrite bind_Ok_eq, !cadd_Some by done.
  cbn [or_panic]. rewrite !bind_Ok_eq, Hpos, bind_Ok_eq. rewrite Hneg in Hpos. by injection Hpos as ->.
Qed.

Lemma phase2_triples `{Layer L} (impl : L -> layer_model -> Prop) `{!LayerLaws L impl} (parent : L) m files pos neg pos' neg' A R :
  impl parent m -> TripleFileBuilder.add_id_triples pos (new_triples m A) = Ok pos' ->
  TripleFileBuilder.add_id_triples neg (known_triples m R) = Ok neg' ->
  (b ← ChildLayerFileBuilderPhase2.add_id_triples (ChildLayerFileBuilderPhase2.mk parent files pos neg) A;
   ChildLayerFileBuilderPhase2.remove_id_triples b R) = Ok (ChildLayerFileBuilderPhase2.mk parent files pos' neg').
Proof.
  intros Hm Hpos Hneg. unfold ChildLayerFileBuilderPhase2.add_id_triples, ChildLayerFileBuilderPhase2.remove_id_triples.
  rewrite (filter_triples_spec (fun t => t ∉ model_triples m)).
  2:{ intros [s p o]. cbn [ChildLayerFileBuilderPhase2.parent]. rewrite (triple_exists_law parent m) by done. cbn.
      rewrite bool_decide_not. done. }
  cbn [or_panic]. rewrite bind_Ok_eq. fold (new_triples m A). erewrite add_unchecked_all by exact Hpos. rewrite bind_Ok_eq.
  rewrite (filter_triples_spec (fun t => t ∈ model_triples m)).
  2:{ intros [s p o]. cbn [ChildLayerFileBuilderPhase2.parent]. by rewrite (triple_exists_law parent m). }
  cbn [or_panic]. rewrite bind_Ok_eq. fold (known_triples m R). by apply remove_unchecked_all.
Qed.

(** The files of a child layer, read back piece by piece. *)
Definition child_files (debug : bool) (m : layer_model) (ns ps vs : list (list N)) (A R : list IdTriple.t) (maps : ChildLayerMaps.t)
    (nd pd vd : PfcDict.t) (ps_ po_ ns_ no_ : LogArray.t) (ps_p psp_o po_ps ns_p nsp_o no_ps : AdjacencyList.t)
    (pwt nwt : WaveletTree.t) : Prop :=
  ChildLayerMaps.id_map_maps maps = mk_id_map_maps None None /\
  dictionary_of (ChildLayerMaps.node_dictionary_maps maps) nd (new_nodes m ns) /\
  dictionary_of (ChildLayerMaps.predicate_dictionary_maps maps) pd (new_predicates m ps) /\
  dictionary_of (ChildLayerMaps.value_dictionary_maps maps) vd (new_values m vs) /\
  half_read debug (ChildLayerMaps.pos_s_p_adjacency_list_maps maps) (ChildLayerMaps.pos_sp_o_adjacency_list_maps maps)
    (ChildLayerMaps.pos_o_ps_adjacency_list_maps maps) (ChildLayerMaps.pos_subjects_map maps) (ChildLayerMaps.pos_objects_map maps)
    (ChildLayerMaps.pos_predicate_wavelet_tree_maps maps) ps_ ps_p psp_o po_ po_ps pwt /\
  half_read debug (ChildLayerMaps.neg_s_p_adjacency_list_maps maps) (ChildLayerMaps.neg_sp_o_adjacency_list_maps maps)
    (ChildLayerMaps.neg_o_ps_adjacency_list_maps maps) (ChildLayerMaps.neg_subjects_map maps) (ChildLayerMaps.neg_objects_map maps)
    (ChildLayerMaps.neg_predicate_wavelet_tree_maps maps) ns_ ns_p nsp_o no_ no_ps nwt /\
  holds (Some ps_) ps_p psp_o (Some po_) po_ps pwt (filter real_triple (new_triples m A)) /\
  holds (Some ns_) ns_p nsp_o (Some no_) no_ps nwt (filter real_triple (known_triples m R)).

Lemma write_child_spec `{FramedRead} `{Log2F32} `{ParSort} `{Layer L} (impl : L -> layer_model -> Prop) `{!LayerLaws L impl}
    debug (parent : L) m ns ps vs M A R : impl parent m -> child_input m ns ps vs M A R ->
  exists maps nd pd vd ps_ po_ ns_ no_ ps_p psp_o po_ps ns_p nsp_o no_ps pwt nwt,
    write_child parent ns ps vs A R = Ok maps /\
    child_files debug m ns ps vs A R maps nd pd vd ps_ po_ ns_ no_ ps_p psp_o po_ps ns_p nsp_o no_ps pwt nwt.
Proof.
  intros Hm [Hne Hn Hp Hv Hadd Hrem]. apply Forall_app in Hne as [Hns [Hps Hvs]%Forall_app].
  destruct (child_phase1 impl parent m ns ps vs) as
    (idn & idp & idv & b1 & b2 & d & fn & fp & fv & nd & pd & vd & E1 & E2 & E3 & Hfin & Hnd & Hpd & Hvd & _); [done..|].
  destruct (all_counts_law parent m Hm) as (c & Hc & Hcn & Hcp).
  destruct (layer_input_bounds _ _ _ _ _ _ _ Hadd) as (_ & _ & Hcount & Hpcount & _). rewrite <- Hcp in Hpcount.
  apply (layer_input_regroup _ _ _ _ (lenN (new_nodes m ns) + node_count c) (lenN (new_values m vs) + value_count c)) in Hadd; [|lia].
  apply (layer_input_regroup _ _ _ _ (lenN (new_nodes m ns) + node_count c) (lenN (new_values m vs) + value_count c)) in Hrem; [|lia].
  rewrite (N.add_comm (lenN (model_predicates m))), <- Hcp in Hadd, Hrem.
  destruct (child_half debug _ _ _ _ _ _ Hadd) as (pb & pb' & p1 & p2 & p3 & p4 & p5 & p6 & p7 & p8 & psf & pops & pof & pw &
    ps_ & ps_p & psp_o & po_ & po_ps & pwt & Hpb & Hpb' & Hpf & Hpix & Hpr & Hph).
  destruct (child_half debug _ _ _ _ _ _ Hrem) as (nb & nb' & n1 & n2 & n3 & n4 & n5 & n6 & n7 & n8 & nsf & nops & nof & nw &
    ns_ & ns_p & nsp_o & no_ & no_ps & nwt & Hnb & Hnb' & Hnf & Hnix & Hnr & Hnh).
  pose proof (phase2_new parent (fn, fp, fv) (lenN (new_nodes m ns)) (lenN (new_predicates m ps)) (lenN (new_values m vs)) c pb nb Hc ltac:(lia) ltac:(lia) ltac:(lia) Hpb Hnb) as Hnew.
  pose proof (phase2_triples impl parent m (fn, fp, fv) pb nb pb' nb' A R Hm Hpb' Hnb') as Htr.
  apply bind_Ok_inv in Htr as (b3 & Ht1 & Ht2).
  exists (ChildLayerMaps.mk fn fp fv (mk_id_map_maps None None) psf pof nsf nof (p1, p2, p3, p4) (p5, p6, p7, p8) pops
    (n1, n2, n3, n4) (n5, n6, n7, n8) nops pw nw), nd, pd, vd, ps_, po_, ns_, no_, ps_p, psp_o, po_ps, ns_p, nsp_o, no_ps, pwt, nwt.
  split; [|by repeat (split; [done|])].
  unfold write_child. rewrite E1. cbn [or_panic]. rewrite bind_Ok_eq, E2. cbn [or_panic]. rewrite bind_Ok_eq, E3. cbn [or_panic].
  rewrite bind_Ok_eq. unfold ChildLayerFileBuilder.into_phase2. cbn [ChildLayerFileBuilder.builder ChildLayerFileBuilder.parent].
  rewrite Hfin, bind_Ok_eq, Hnew, bind_Ok_eq, Ht1, bind_Ok_eq, Ht2, bind_Ok_eq. unfold ChildLayerFileBuilderPhase2.finalize.
  cbn [ChildLayerFileBuilderPhase2.pos_builder ChildLayerFileBuilderPhase2.neg_builder ChildLayerFileBuilderPhase2.files].
  rewrite Hpf, bind_Ok_eq, Hnf, bind_Ok_eq, Hpix, bind_Ok_eq, Hnix. done.
Qed.

(** Loading, from what the files are parsed as. *)
Lemma child_load_pieces `{Log2F32} debug name parent pn pp maps nd pd vd nm pm ps_ po_ ns_ no_ ps_p psp_o po_ps ns_p nsp_o no_ps pwt nwt :
  parse_dictionary (ChildLayerMaps.node_dictionary_maps maps) = Ok nd ->
  parse_dictionary (ChildLayerMaps.predicate_dictionary_maps maps) = Ok pd ->
  parse_dictionary (ChildLayerMaps.value_dictionary_maps maps) = Ok vd ->
  LayerNames.node_and_value_count parent = Some pn -> LayerNames.layer_predicate_count parent = Some pp ->
  PfcDict.len nd + PfcDict.len vd < 2 ^ 64 ->
  load_idmap (node_value_idmap_maps (ChildLayerMaps.id_map_maps maps)) (PfcDict.len nd + PfcDict.len vd) = Some nm ->
  load_idmap (predicate_idmap_maps (ChildLayerMaps.id_map_maps maps)) (PfcDict.len pd) = Some pm ->
  half_read debug (ChildLayerMaps.pos_s_p_adjacency_list_maps maps) (ChildLayerMaps.pos_sp_o_adjacency_list_maps maps)
    (ChildLayerMaps.pos_o_ps_adjacency_list_maps maps) (ChildLayerMaps.pos_subjects_map maps) (ChildLayerMaps.pos_objects_map maps)
    (ChildLayerMaps.pos_predicate_wavelet_tree_maps maps) ps_ ps_p psp_o po_ po_ps pwt ->
  half_read debug (ChildLayerMaps.neg_s_p_adjacency_list_maps maps) (ChildLayerMaps.neg_sp_o_adjacency_list_maps maps)
    (ChildLayerMaps.neg_o_ps_adjacency_list_maps maps) (ChildLayerMaps.neg_subjects_map maps) (ChildLayerMaps.neg_objects_map maps)
    (ChildLayerMaps.neg_predicate_wavelet_tree_maps maps) ns_ ns_p nsp_o no_ no_ps nwt ->
  child_load debug name parent maps = Some (Child (ChildLayer.mk name parent nd pd vd nm pm pn pp
    ps_ po_ ps_p psp_o po_ps ns_ no_ ns_p nsp_o no_ps pwt nwt)).
Proof.
  intros Hn Hp Hv Hpn Hpp Hc Hnm Hpm (P1 & P2 & P3 & P4 & P5 & P6) (Q1 & Q2 & Q3 & Q4 & Q5 & Q6).
  unfold child_load. rewrite Hn, Hp, Hv, Hpn, Hpp. cbn [unwrap]. rewrite !bind_Some_eq, cadd_Some, bind_Some_eq by done.
  rewrite Hnm, bind_Some_eq, Hpm, bind_Some_eq, P1, bind_Some_eq, P2, bind_Some_eq, Q1, bind_Some_eq, Q2, bind_Some_eq, P3, bind_Some_eq,
    P4, bind_Some_eq, P5, bind_Some_eq, Q3, bind_Some_eq, Q4, bind_Some_eq, Q5, bind_Some_eq, P6, bind_Some_eq, Q6, bind_Some_eq.
  done.
Qed.

Lemma child_load_spec `{Log2F32} debug name parent pn pp m ns ps vs A R maps nd pd vd ps_ po_ ns_ no_ ps_p psp_o po_ps ns_p nsp_o no_ps pwt nwt :
  child_files debug m ns ps vs A R maps nd pd vd ps_ po_ ns_ no_ ps_p psp_o po_ps ns_p nsp_o no_ps pwt nwt ->
  LayerNames.node_and_value_count parent = Some pn -> LayerNames.layer_predicate_count parent = Some pp ->
  lenN (new_nodes m ns) + lenN (new_values m vs) < 2 ^ 64 ->
  child_load debug name parent maps = Some (Child (ChildLayer.mk name parent nd pd vd IdMap.default IdMap.default pn pp
    ps_ po_ ps_p psp_o po_ps ns_ no_ ns_p nsp_o no_ps pwt nwt)).
Proof.
  intros (Him & (Hn & Hnd) & (Hp & Hpd) & (Hv & Hvd) & Hpos & Hneg & _) Hpn Hpp Hc.
  apply child_load_pieces; try done; [|by rewrite Him..]. unfold PfcDict.len. by rewrite (proj1 Hnd), (proj1 Hvd).
Qed.

Lemma model_triples_real m t : model_ok m -> t ∈ model_triples m -> real_triple t.
Proof.
  intros Hok Ht. pose proof (triples_ids m Hok) as Hids. rewrite Forall_forall in Hids.
  destruct (Hids t Ht) as ([x Hx%at_id_Some] & [y Hy%at_id_Some] & [z Hz%at_id_Some]). unfold real_triple. lia.
Qed.

(** The files of a child layer load on every layer with the parent's model,
    not only on the parent they were written for, as layers with the model
    [m']; [k] and [k'] bound the additions. *)
Definition loads_child `{Log2F32} (debug : bool) (maps : ChildLayerMaps.t) (m : layer_model) (k : N) (m' : layer_model) (k' : N) : Prop :=
  forall name p, implements_within k p m -> exists l, child_load debug name p maps = Some l /\ Internal.name l = name /\
    Internal.immediate_parent l = Some p /\ Internal.parent_name l = Some (Internal.name p) /\ implements_within k' l m'.

(** The files of a base layer, under every name. *)
Definition loads_base `{Log2F32} (debug : bool) (maps : BaseLayerMaps.t) (m : layer_model) (k : N) : Prop :=
  forall name, exists l, base_load debug name maps = Some l /\ Internal.name l = name /\
    Internal.immediate_parent l = None /\ Internal.parent_name l = None /\ implements_within k l m.

(** Base layers are written without their name. *)
Lemma base_load_shape `{Log2F32} debug name maps l : base_load debug name maps = Some l ->
  Internal.name l = name /\ Internal.immediate_parent l = None /\ Internal.parent_name l = None.
Proof.
  unfold base_load. intros Hl. repeat (apply bind_Some in Hl as (? & _ & Hl)). by injection Hl as <-.
Qed.

Lemma loads_base_intro `{Log2F32} debug (written : outcome io_error BaseLayerMaps.t) m k :
  (forall name, exists maps l, written = Ok maps /\ base_load debug name maps = Some l /\ implements_within k l m) ->
  exists maps, written = Ok maps /\ loads_base debug maps m k.
Proof.
  intros Hall. destruct (Hall []) as (maps & _ & Hw & _). exists maps. split; [done|]. intros name.
  destruct (Hall name) as (maps' & l & Hw' & Hl & Hi). rewrite Hw in Hw'. injection Hw' as <-.
  exists l. split; [done|]. by destruct (base_load_shape _ _ _ _ Hl) as (? & ? & ?).
Qed.

Lemma base_built_on `{FramedRead} `{Log2F32} `{ParSort} debug ns ps vs M T :
  dict_input ns -> dict_input ps -> dict_input vs ->
  layer_input false (lenN ns) (lenN ps) (lenN vs) (lenN ns + lenN vs) M T ->
  exists maps, write_base ns ps vs T = Ok maps /\
    loads_base debug maps (mk_model (plain_entries ns vs) ps (filter real_triple T)) (lenN T).
Proof.
  intros Hns Hps Hvs Hin. apply loads_base_intro. intros name.
  destruct (base_built debug name ns ps vs M T Hns Hps Hvs Hin) as (maps & l & Hw & Hl & _ & _ & _ & Hc & Hi).
  exists maps, l. split; [done|]. split; [done|]. eapply within_counted; [done|exact Hc|apply lenN_filter_le].
Qed.

(** What a child layer has, by what it was built from. *)
Definition child_model_of (m : layer_model) (ns ps vs : list (list N)) (A R : list IdTriple.t) (m' : layer_model) : Prop :=
  model_entries m' = model_entries m ++ plain_entries (new_nodes m ns) (new_values m vs) /\
  model_predicates m' = model_predicates m ++ new_predicates m ps /\
  forall t, t ∈ model_triples m' <-> (t ∈ model_triples m /\ (t ∉ R)) \/ ((t ∉ model_triples m) /\ t ∈ A /\ real_triple t).

Lemma child_built_on `{FramedRead} `{Log2F32} `{ParSort} `{BytesSize} debug (parent : InternalLayer) m ns ps vs M A R :
  implements parent m -> child_input m ns ps vs M A R ->
  exists maps m', write_child parent ns ps vs A R = Ok maps /\ child_model_of m ns ps vs A R m' /\ model_ok m' /\
    forall name p k, implements_within k p m -> k + lenN A < 2 ^ 64 -> exists l, child_load debug name p maps = Some l /\
      Internal.name l = name /\ Internal.immediate_parent l = Some p /\ Internal.parent_name l = Some (Internal.name p) /\
      no_maps l /\ implements_within (k + lenN A) l m'.
Proof.
  intros Hm Hin. pose proof Hin as [_ Hn Hp Hv Hadd Hrem]. pose proof (model_law parent m Hm) as Hok.
  destruct (write_child_spec implements debug parent m ns ps vs M A R Hm Hin) as
    (maps & nd & pd & vd & ps_ & po_ & ns_ & no_ & ps_p & psp_o & po_ps & ns_p & nsp_o & no_ps & pwt & nwt & Hw & Hf).
  destruct (layer_input_bounds _ _ _ _ _ _ _ Hadd) as (_ & _ & Hcount & Hpcount & _).
  destruct (sorted_triples (filter real_triple (new_triples m A) ++
    filter (fun t => t ∉ filter real_triple (known_triples m R)) (model_triples m))) as (ts & Hsort & Hts).
  assert (Hmem : forall t, t ∈ ts <-> child_triples (model_triples m) (filter real_triple (new_triples m A))
    (filter real_triple (known_triples m R)) t).
  { intros t. by rewrite Hts, elem_of_app, (list_elem_of_filter (fun t => t ∉ _)). }
  assert (Hmok : model_ok (mk_model (model_entries m ++ plain_entries (new_nodes m ns) (new_values m vs))
    (model_predicates m ++ new_predicates m ps) ts)).
  { by apply (child_model_ok true m ns ps vs (lenN (model_entries m) + lenN (new_nodes m ns)) (lenN (new_values m vs)) M
      (new_triples m A) _ (filter real_triple (known_triples m R))). }
  exists maps. eexists. split; [exact Hw|]. split; [|split; [exact Hmok|]].
  - unfold child_model_of. cbn [model_entries model_predicates model_triples]. split; [done|]. split; [done|]. intros t. rewrite Hmem.
    unfold child_triples, new_triples, known_triples. rewrite !list_elem_of_filter. pose proof (model_triples_real m t Hok).
    destruct (decide (t ∈ model_triples m)); destruct (decide (t ∈ R)); tauto.
  - intros name p k (names & cs & Himp & Hk) Hlen. assert (Hpm : implements p m) by (by exists names, cs).
    pose proof (child_load_spec debug name p _ _ m ns ps vs A R maps _ _ _ _ _ _ _ _ _ _ _ _ _ _ _ Hf
      (node_and_value_count_law p m Hpm) (predicate_count_law p m Hpm) ltac:(lia)) as Hload.
    destruct Hf as (_ & (_ & Hnd) & (_ & Hpd) & (_ & Hvd) & _ & _ & Hpos & Hneg).
    eexists. split; [exact Hload|]. do 4 (split; [done|]). exists (plain_names (new_nodes m ns) (new_predicates m ps) (new_values m vs) :: names),
      ((filter real_triple (new_triples m A), filter real_triple (known_triples m R)) :: cs).
    assert (HA : lenN (filter real_triple (new_triples m A)) <= lenN A).
    { pose proof (lenN_filter_le real_triple (new_triples m A)). pose proof (lenN_filter_le (fun t => t ∉ model_triples m) A).
      unfold new_triples in *. lia. }
    split; [|cbn [additions_of foldr fst]; fold (additions_of cs); lia].
    pose proof (child_implements name p m names cs nd pd vd IdMap.default IdMap.default
      (plain_names (new_nodes m ns) (new_predicates m ps) (new_values m vs)) ps_ po_ ps_p psp_o po_ps ns_ no_ ns_p nsp_o no_ps pwt nwt
      (filter real_triple (new_triples m A)) (filter real_triple (known_triples m R)) ts) as Hchild.
    rewrite plain_names_entries, plain_names_predicates in Hchild.
    apply Hchild; [done|by apply plain_names_repr|apply plain_names_ok|done|done| | | | | |done|].
    + apply Forall_forall. by intros t [_ [Ht _]%list_elem_of_filter]%list_elem_of_filter.
    + apply Forall_forall. by intros t [_ [Ht _]%list_elem_of_filter]%list_elem_of_filter.
    + unfold size_of. cbn [nodes values plain_names]. lia.
    + done.
    + lia.
    + done.
Qed.

Lemma child_built `{FramedRead} `{Log2F32} `{ParSort} `{BytesSize} debug name (parent : InternalLayer) m ns ps vs M A R c :
  implements parent m -> child_input m ns ps vs M A R -> triple_addition_count parent = Some c -> c + lenN A < 2 ^ 64 ->
  exists maps l m', write_child parent ns ps vs A R = Ok maps /\ child_load debug name parent maps = Some l /\
    Internal.name l = name /\ Internal.immediate_parent l = Some parent /\ no_maps l /\ implements l m' /\
    child_model_of m ns ps vs A R m'.
Proof.
  intros Hm Hin Hc Hlen. destruct (child_built_on debug parent m ns ps vs M A R Hm Hin) as (maps & m' & Hw & Hm' & _ & Hl).
  destruct (Hl name parent c) as (l & Hload & Hname & Hpar & _ & Hno & Hi); [by apply (within_counted c _ _ c)|done|].
  exists maps, l, m'. repeat (split; [done|]). split; [by eapply within_implements|done].
Qed.

(** ** Properties *)

(** C13: a base layer that is built from sorted strings and triples, and loaded
    from the files, implements the model with exactly these strings, the nodes
    before the values, and these triples: it hands the strings out under the
    ids from 1 on and enumerates the triples in order, leaving out those with a
    zero.  The strings have no zero bytes, the triples are of ids in use, and all
    of it fits the files ([dict_input], [layer_input]). *)
Theorem base_layer_built `{FramedRead} `{Log2F32} `{ParSort} `{BytesSize} debug name ns ps vs M T :
  dict_input ns -> dict_input ps -> dict_input vs ->
  layer_input false (lenN ns) (lenN ps) (lenN vs) (lenN ns + lenN vs) M T ->
  exists maps l, write_base ns ps vs T = Ok maps /\ base_load debug name maps = Some l /\ Internal.name l = name /\
    implements l (mk_model (plain_entries ns vs) ps (filter real_triple T)) /\
    (forall id, id_object l id = Some (at_id ((Node <$> ns) ++ (Value <$> vs)) id)) /\
    (forall id, id_predicate l id = Some (at_id ps id)) /\
    triples l = Some (filter real_triple T).
Proof.
  intros Hns Hps Hvs Hin. destruct (base_built debug name ns ps vs M T Hns Hps Hvs Hin) as (maps & l & Hw & Hl & Hname & _ & _ & _ & Himp).
  exists maps, l. repeat (split; [done|]). split; [|split].
  - intros id. by rewrite (id_object_law l _ id Himp).
  - intros id. by rewrite (id_predicate_law l _ id Himp).
  - by rewrite (triples_law l _ Himp).
Qed.

(** Strings that a child layer was given are among its names. *)
Lemma child_names_in m ns ps vs A R m' : child_model_of m ns ps vs A R m' ->
  (forall s, s ∈ ns -> Node s ∈ model_entries m') /\ (forall s, s ∈ ps -> s ∈ model_predicates m') /\
  (forall s, s ∈ vs -> Value s ∈ model_entries m').
Proof.
  intros (He & Hp & _). split; [|split]; intros s Hs.
  - rewrite He. apply elem_of_app. destruct (decide (Node s ∈ model_entries m)) as [|Hn]; [by left|right].
    apply elem_of_app. left. apply list_elem_of_fmap. exists s. split; [done|]. by apply list_elem_of_filter.
  - rewrite Hp. apply elem_of_app. destruct (decide (s ∈ model_predicates m)) as [|Hn]; [by left|right]. by apply list_elem_of_filter.
  - rewrite He. apply elem_of_app. destruct (decide (Value s ∈ model_entries m)) as [|Hn]; [by left|right].
    apply elem_of_app. right. apply list_elem_of_fmap. exists s. split; [done|]. by apply list_elem_of_filter.
Qed.

Lemma is_id_of_elem {A} (E : list A) x r : x ∈ E -> is_id_of E x r -> exists id, r = Some id /\ at_id E id = Some x.
Proof. destruct r as [id|]; [by exists id|done]. Qed.

(** C12: a child layer that is built on a layer and loaded from its files
    implements the model with the names and ids of the parent, followed by
    the nodes, values and predicates the parent does not have, and with the
    triples of the parent that are not removed and the added ones.  An id of
    the parent keeps its meaning; every given node, predicate and value has an
    id in the layer, which stands for it; a triple of the parent is there
    unless it is removed, whether or not it is added as well, and any other
    triple is there when it is added.  The given strings are not empty, the new
    ones are sorted and have no zero bytes, the triples that change something
    are sorted and of ids that are in use, and all of it fits the files
    ([child_input]). *)
Theorem child_layer_built `{FramedRead} `{Log2F32} `{ParSort} `{BytesSize} debug name (parent : InternalLayer) m ns ps vs M A R c :
  implements parent m -> child_input m ns ps vs M A R -> triple_addition_count parent = Some c -> c + lenN A < 2 ^ 64 ->
  exists maps l m', write_child parent ns ps vs A R = Ok maps /\ child_load debug name parent maps = Some l /\
    implements l m' /\ model_entries m' = model_entries m ++ plain_entries (new_nodes m ns) (new_values m vs) /\
    model_predicates m' = model_predicates m ++ new_predicates m ps /\
    (forall id x, id_object parent id = Some (Some x) -> id_object l id = Some (Some x)) /\
    (forall id s, id_predicate parent id = Some (Some s) -> id_predicate l id = Some (Some s)) /\
    (forall s, s ∈ ns -> exists id, subject_id l s = Some (Some id) /\ id_subject l id = Some (Some s)) /\
    (forall s, s ∈ ps -> exists id, predicate_id l s = Some (Some id) /\ id_predicate l id = Some (Some s)) /\
    (forall s, s ∈ vs -> exists id, object_value_id l s = Some (Some id) /\ id_object l id = Some (Some (Value s))) /\
    forall s p o e, triple_exists parent s p o = Some e ->
      triple_exists l s p o = Some (if e : bool then bool_decide (IdTriple.mk s p o ∉ R)
                                    else bool_decide (IdTriple.mk s p o ∈ A /\ real_triple (IdTriple.mk s p o))).
Proof.
  intros Hm Hin Hc Hlen. destruct (child_built debug name parent m ns ps vs M A R c Hm Hin Hc Hlen) as
    (maps & l & m' & Hw & Hl & _ & _ & _ & Himp & Hmodel). destruct (child_names_in _ _ _ _ _ _ _ Hmodel) as (Hns & Hps & Hvs).
  pose proof (child_nonempty _ _ _ _ _ _ _ Hin) as Hne. rewrite !Forall_app, !Forall_forall in Hne. destruct Hne as (N1 & N2 & N3).
  destruct Hmodel as (He & Hp & Ht). exists maps, l, m'. repeat (split; [done|]). split_and!.
  - intros id x. rewrite (id_object_law parent m id Hm), (id_object_law l m' id Himp), He. intros [= Hx].
    by rewrite (at_id_app_l _ _ _ _ Hx).
  - intros id x. rewrite (id_predicate_law parent m id Hm), (id_predicate_law l m' id Himp), Hp. intros [= Hx].
    by rewrite (at_id_app_l _ _ _ _ Hx).
  - intros s Hs. destruct (subject_id_law l m' s Himp (N1 s Hs)) as (r & -> & (id & -> & Hid)%is_id_of_elem); [|by apply Hns].
    exists id. split; [done|]. by rewrite (id_subject_law l m' id Himp), Hid.
  - intros s Hs. destruct (predicate_id_law l m' s Himp (N2 s Hs)) as (r & -> & (id & -> & Hid)%is_id_of_elem); [|by apply Hps].
    exists id. split; [done|]. by rewrite (id_predicate_law l m' id Himp), Hid.
  - intros s Hs. destruct (object_value_id_law l m' s Himp (N3 s Hs)) as (r & -> & (id & -> & Hid)%is_id_of_elem); [|by apply Hvs].
    exists id. split; [done|]. by rewrite (id_object_law l m' id Himp), Hid.
  - intros s p o e. rewrite (triple_exists_law parent m) by done. rewrite (triple_exists_law l m') by done. intros [= <-].
    f_equal. pose proof (Ht (IdTriple.mk s p o)) as Hiff. destruct (decide (IdTriple.mk s p o ∈ model_triples m)).
    + rewrite (bool_decide_true (IdTriple.mk s p o ∈ model_triples m)) by done. apply bool_decide_ext. tauto.
    + rewrite (bool_decide_false (IdTriple.mk s p o ∈ model_triples m)) by done. apply bool_decide_ext. tauto.
Qed.

(** *** A base layer and a child of it *)

#[local] Instance sample_bytes : BytesSize := {| bytes_size := 32 |}.

Definition base_nodes : list (list N) := [[97]; [98]].
Definition base_predicates : list (list N) := [[112]; [113]].
Definition base_values : list (list N) := [[118]].
Definition base_triples : list IdTriple.t := [IdTriple.mk 1 1 2; IdTriple.mk 1 2 3; IdTriple.mk 2 1 3].

Definition base_model : layer_model := mk_model (plain_entries base_nodes base_values) base_predicates base_triples.

(** The child has a new node [c], removes one triple, and adds one that is
    there and one that is not. *)
Definition child_strings : list (list N) := [[98]; [99]].
Definition child_added : list IdTriple.t := [IdTriple.mk 1 1 2; IdTriple.mk 4 1 1].
Definition child_removed : list IdTriple.t := [IdTriple.mk 1 2 3; IdTriple.mk 2 2 2].

Ltac concrete_layer_input :=
  split; [intros; apply sample_width; lia|];
  split; [let w := fresh in let H := fresh in intros w H; vm_compute in H; injection H as <-; done|];
  repeat (split; [by vm_compute|]);
  split; [repeat (constructor; try (repeat constructor; apply triple_lt_iff; cbn; lia))
         |repeat (apply Forall_cons; split); [..|by apply Forall_nil]; by vm_compute|by vm_compute].

Lemma base_layer_input : layer_input (H0 := exact_log2) false 2 2 1 3 10 base_triples.
Proof.
  unfold layer_input. replace (filter real_triple base_triples) with base_triples by (vm_compute; reflexivity).
  unfold base_triples. concrete_layer_input.
Qed.

Lemma base_strings_input : dict_input base_nodes /\ dict_input base_predicates /\ dict_input base_values.
Proof. unfold base_nodes, base_predicates, base_values. split; [|split]; concrete_input. Qed.

Lemma child_sample_input : child_input (H := exact_log2) base_model child_strings [[113]] [] 20 child_added child_removed.
Proof.
  assert (E1 : new_nodes base_model child_strings = [[99]]) by (vm_compute; reflexivity).
  assert (E2 : new_predicates base_model [[113]] = []) by (vm_compute; reflexivity).
  assert (E3 : new_values base_model [] = []) by done.
  assert (E4 : new_triples base_model child_added = [IdTriple.mk 4 1 1]) by (vm_compute; reflexivity).
  assert (E5 : known_triples base_model child_removed = [IdTriple.mk 1 2 3]) by (vm_compute; reflexivity).
  split; rewrite ?E1, ?E2, ?E3, ?E4, ?E5.
  - repeat constructor; discriminate.
  - concrete_input.
  - concrete_input.
  - concrete_input.
  - unfold layer_input. replace (filter real_triple [IdTriple.mk 4 1 1]) with [IdTriple.mk 4 1 1] by (vm_compute; reflexivity).
    concrete_layer_input.
  - unfold layer_input. replace (filter real_triple [IdTriple.mk 1 2 3]) with [IdTriple.mk 1 2 3] by (vm_compute; reflexivity).
    concrete_layer_input.
Qed.

(** The layer that is loaded from the files of the sample. *)
Definition sample_base (l : InternalLayer) : Prop := exists maps,
  write_base (H := whole_file) (H0 := exact_log2) (H1 := merge_par_sort) base_nodes base_predicates base_values base_triples = Ok maps /\
  base_load (H := exact_log2) true [1] maps = Some l.

Lemma sample_base_built : exists l, sample_base l /\ Internal.name l = [1] /\ Internal.parents_of l = [] /\ no_maps l /\
  LayerTriples.triple_addition_count l = Some 3 /\ implements l base_model.
Proof.
  destruct base_strings_input as (H1 & H2 & H3).
  destruct (base_built (H := whole_file) (H0 := exact_log2) (H1 := merge_par_sort) true [1] _ _ _ 10 base_triples H1 H2 H3 base_layer_input)
    as (maps & l & Hw & Hl & Hn & Hp & Hno & Hc & Hi).
  exists l. split; [exact (ex_intro _ maps (conj Hw Hl))|]. split; [exact Hn|]. split; [exact Hp|]. split; [exact Hno|]. split; [exact Hc|exact Hi].
Qed.

Lemma base_layer_built_witness : exists maps l,
    write_base (H := whole_file) (H0 := exact_log2) (H1 := merge_par_sort) base_nodes base_predicates base_values base_triples = Ok maps /\
    base_load (H := exact_log2) true [1] maps = Some l /\ Internal.name l = [1] /\ implements l base_model /\
    (forall id, id_object l id =
      Some (at_id [Node [97]; Node [98]; Value [118]] id)) /\
    (forall id, id_predicate l id = Some (at_id [[112]; [113]] id)) /\
    triples l = Some base_triples.
Proof.
  apply (base_layer_built (H := whole_file) (H0 := exact_log2) (H1 := merge_par_sort)  true [1]
    base_nodes base_predicates base_values 10 base_triples); [apply base_strings_input..|exact base_layer_input].
Defined.

Lemma child_layer_built_witness : exists parent maps l m', sample_base parent /\
    write_child (H := whole_file) (H0 := exact_log2) (H1 := merge_par_sort) parent child_strings [[113]] [] child_added child_removed = Ok maps /\
    child_load (H := exact_log2) true [2] parent maps = Some l /\ implements l m' /\
    model_entries m' = [Node [97]; Node [98]; Value [118]; Node [99]].
Proof.
  destruct sample_base_built as (l & Hl & _ & _ & _ & Hc & Hi). exists l.
  destruct (child_layer_built (H := whole_file) (H0 := exact_log2) (H1 := merge_par_sort)  true [2] l base_model
    child_strings [[113]] [] 20 child_added child_removed 3 Hi child_sample_input Hc ltac:(by vm_compute))
    as (maps & l' & m' & Hw & Hload & Himp & He & _).
  exists maps, l', m'. split; [exact Hl|]. split; [exact Hw|]. split; [exact Hload|]. split; [exact Himp|]. rewrite He. reflexivity.
Defined.

(** *** The refinement at the sample *)

Lemma layer_refines_model_witness : exists l, sample_base l /\ triples l = Some base_triples /\
  triples_s l 1 = Some [IdTriple.mk 1 1 2; IdTriple.mk 1 2 3] /\ id_object l 3 = Some (Some (Value [118])).
Proof.
  destruct sample_base_built as (l & Hl & _ & _ & _ & _ & Hi). exists l. split; [exact Hl|].
  destruct (layer_refines_model l base_model Hi) as (_ & H1 & _ & _ & _ & _ & H2 & H3 & _).
  split; [exact H2|]. split; [rewrite H3; reflexivity|]. rewrite H1. reflexivity.
Defined.

Lemma string_triple_roundtrip_witness : exists l r b, sample_base l /\
  let x := StringTriple.mk [97] [113] (Value [118]) in
  string_triple_to_id l x = Some r /\ (forall t, r = Some t <-> id_triple_to_string l t = Some (Some x)) /\
  string_triple_exists l x = Some b /\ (b = true <-> exists t, r = Some t /\ t ∈ base_triples).
Proof.
  destruct sample_base_built as (l & Hl & _ & _ & _ & _ & Hi).
  destruct (string_triple_roundtrip l base_model (StringTriple.mk [97] [113] (Value [118])) Hi) as (r & b & H).
  - split; [discriminate|]. split; discriminate.
  - exists l, r, b. split; [exact Hl|exact H].
Defined.

Lemma triple_count_correct_witness : exists l, sample_base l /\ triple_count l = Some 3.
Proof.
  destruct sample_base_built as (l & Hl & _ & _ & _ & _ & Hi). exists l. split; [exact Hl|].
  exact (triple_count_correct l base_model Hi).
Defined.

Lemma not_an_ancestor_witness : exists l, sample_base l /\
  LayerTriples.from_layer_stack l [7] = Err ParentNotFound /\ Internal.immediate_layers_upto l [7] = None.
Proof.
  destruct sample_base_built as (l & Hl & _ & Hp & _). exists l. split; [exact Hl|].
  apply (not_an_ancestor l [7]). rewrite Hp. constructor.
Defined.

(** A child of the sample, whose changes from the sample are one addition and
    one removal. *)
Lemma layer_changes_witness : exists p l st out, sample_base p /\ Internal.immediate_parent l = Some p /\
  LayerTriples.from_layer_stack l [1] = Ok st /\ InternalTripleStackIterator.collect (change_fuel [l]) st = Some out /\
  (Addition, IdTriple.mk 4 1 1) ∈ out /\ (Removal, IdTriple.mk 1 2 3) ∈ out.
Proof.
  destruct sample_base_built as (p & Hp & Hname & Hpar & _ & Hc & Hi).
  destruct (child_built (H := whole_file) (H0 := exact_log2) (H1 := merge_par_sort) true [2] p base_model
    child_strings [[113]] [] 20 child_added child_removed 3 Hi child_sample_input Hc ltac:(by vm_compute))
    as (maps & l & m & _ & _ & _ & Hparent & _ & Himp & _ & _ & Ht).
  assert (Hstack : Internal.parents_of l = [] ++ p :: []).
  { pose proof (Internal.parents_of_spec l) as E. rewrite Hparent in E. etransitivity; [exact E|].
    pose proof (Internal.stack_of_cons p) as E'. rewrite Hpar in E'. exact E'. }
  destruct (layer_changes l p m base_model [] [] Himp Hstack ltac:(constructor) Hi) as (st & out & Hst & Hout & _ & Hin).
  change (LayerTriples.from_layer_stack l (Internal.name p) = Ok st) in Hst. rewrite Hname in Hst. exists p, l, st, out. split; [exact Hp|]. split; [exact Hparent|]. split; [exact Hst|]. split; [exact Hout|].
  split; apply Hin; split.
  - apply Ht. right. split; [apply (bool_decide_unpack _); vm_compute; exact I|]. split; [right; left|by vm_compute].
  - apply (bool_decide_unpack _). vm_compute. exact I.
  - right. left.
  - intros [[_ Hr]|[Hr _]]%Ht; [apply Hr; left|apply Hr; right; left].
Defined.
