(* ===== verification/Rollups.v ===== *)
(** * Rolling layers up (src/storage/delta.rs and the id map construction of
      src/layer/id_map.rs)

    A rollup merges the dictionaries of a stack of layers and keeps all ids
    through id maps, so that the triples can be written as they are.  Rolling
    up a whole stack gives the files of a base layer; rolling up to an ancestor
    gives those of a child layer with the changes since the ancestor. *)

From S2P Require Import Prelude.
From S2P Require Import Words.
From S2P Require Import Codec.
From S2P Require Import Strings.
From S2P Require Import LogArrays.
From S2P Require Import BitIndexes.
From S2P Require Import AdjacencyLists.
From S2P Require Import WaveletTrees.
From S2P Require Import PfcBlocks.
From S2P Require Import PfcDicts.
From S2P Require Import DictMerge.
From S2P Require Import LayerTypes.
From S2P Require Import LayerModel.
From S2P Require Import Triples.
From S2P Require Import TripleBuilder.
From S2P Require Import IdMaps.
From S2P Require Import Iterators.
From S2P Require Import Stacks.
From S2P Require Import InternalLayers.
From S2P Require Import LayerNames.
From S2P Require Import LayerTriples.
From S2P Require Import LayerRefinement.
From S2P Require Import LayerBuilders.
From S2P Require Import BuiltLayers.
Open Scope N_scope.

Section rollups.
Context `{BytesSize} `{FramedRead} `{Log2F32} `{ParSort} (debug : bool).

(** ** Dictionaries and id maps *)

(** The id maps of the predicates are taken from those of the nodes and
    values. *)
Definition construct_idmaps_from_layers (layers : list InternalLayer) : outcome io_error (bitindex_files * bitindex_files) :=
  construct_idmaps_from_structures debug (Internal.node_dictionary <$> layers) (Internal.predicate_dictionary <$> layers)
    (Internal.value_dictionary <$> layers) (Internal.node_value_id_map <$> layers) (Internal.node_value_id_map <$> layers).

Definition memory_construct_idmaps (input : InternalLayer) : outcome io_error (bitindex_files * bitindex_files) :=
  construct_idmaps_from_layers (Internal.immediate_layers input).

Definition memory_construct_idmaps_upto (input : InternalLayer) (upto_layer_id : layer_name)
    : outcome io_error (bitindex_files * bitindex_files) :=
  layers ← or_panic (Internal.immediate_layers_upto input upto_layer_id);
  construct_idmaps_from_layers layers.

(** The merged dictionaries of some layers. *)
Definition merge_layer_dictionaries (layers : list InternalLayer) : outcome io_error dictionary_set :=
  nodes ← merge_dictionaries (Internal.node_dictionary <$> layers) [] [];
  predicates ← merge_dictionaries (Internal.predicate_dictionary <$> layers) [] [];
  values ← merge_dictionaries (Internal.value_dictionary <$> layers) [] [];
  Ok (nodes, predicates, values).

Definition dictionary_rollup (layer : InternalLayer) : outcome io_error (dictionary_set * IdMapMaps) :=
  dictionaries ← merge_layer_dictionaries (Internal.immediate_layers layer);
  '(node_value, predicate) ← memory_construct_idmaps layer;
  Ok (dictionaries, mk_id_map_maps (Some node_value) (Some predicate)).

Definition memory_dictionary_rollup_upto (layer : InternalLayer) (upto : layer_name)
    : outcome io_error (dictionary_set * IdMapMaps) :=
  layers ← or_panic (Internal.immediate_layers_upto layer upto);
  dictionaries ← merge_layer_dictionaries layers;
  '(node_value, predicate) ← memory_construct_idmaps_upto layer upto;
  Ok (dictionaries, mk_id_map_maps (Some node_value) (Some predicate)).

(** ** Rollups *)

(** The files of a base layer with everything the layer has. *)
Definition delta_rollup (layer : InternalLayer) : outcome io_error BaseLayerMaps.t :=
  '((nodes, predicates, values), id_maps) ← dictionary_rollup layer;
  counts ← or_panic (all_counts layer);
  builder ← TripleFileBuilder.new (node_count counts) (predicate_count counts) (value_count counts) false;
  triples ← or_panic (triples layer);
  builder ← TripleFileBuilder.add_id_triples builder triples;
  '(s_p, sp_o, subjects) ← TripleFileBuilder.finalize builder;
  let '(_, _, _, s_p_nums) := s_p in
  let '(sp_o_bits, _, _, sp_o_nums) := sp_o in
  '((o_ps, objects), wavelet) ← build_indexes s_p_nums sp_o_bits sp_o_nums false;
  Ok (BaseLayerMaps.mk nodes predicates values id_maps subjects objects s_p sp_o o_ps wavelet).

(** More than the iterators of all layers have. *)
Definition changes_fuel (layer : InternalLayer) : nat := change_fuel (Internal.stack_of layer).

(** The changes of a kind, of a fresh iterator. *)
Definition changes_of (kind : TripleChange) (st : InternalTripleStackIterator.t) (fuel : nat) : option (list IdTriple.t) :=
  out ← InternalTripleStackIterator.collect fuel st;
  Some (filter (fun x => x.1 = kind) out).*2.

(** The builders of the additions and of the removals. *)
Definition new_builders (counts : LayerCounts) : outcome io_error (TripleFileBuilder.t * TripleFileBuilder.t) :=
  pos_builder ← TripleFileBuilder.new (node_count counts) (predicate_count counts) (value_count counts) true;
  neg_builder ← TripleFileBuilder.new (node_count counts) (predicate_count counts) (value_count counts) true;
  Ok (pos_builder, neg_builder).

(** Writing the changes, and the indexes. *)
Definition write_changes (dictionaries : dictionary_set * IdMapMaps) (builders : TripleFileBuilder.t * TripleFileBuilder.t)
    (additions removals : list IdTriple.t) : outcome io_error ChildLayerMaps.t :=
  let '((nodes, predicates, values), id_maps) := dictionaries in
  let '(pos_builder, neg_builder) := builders in
  pos_builder ← TripleFileBuilder.add_id_triples pos_builder additions;
  '(pos_s_p, pos_sp_o, pos_subjects) ← TripleFileBuilder.finalize pos_builder;
  neg_builder ← TripleFileBuilder.add_id_triples neg_builder removals;
  '(neg_s_p, neg_sp_o, neg_subjects) ← TripleFileBuilder.finalize neg_builder;
  let '(_, _, _, pos_s_p_nums) := pos_s_p in
  let '(pos_sp_o_bits, _, _, pos_sp_o_nums) := pos_sp_o in
  let '(_, _, _, neg_s_p_nums) := neg_s_p in
  let '(neg_sp_o_bits, _, _, neg_sp_o_nums) := neg_sp_o in
  '((pos_o_ps, pos_objects), pos_wavelet) ← build_indexes pos_s_p_nums pos_sp_o_bits pos_sp_o_nums true;
  '((neg_o_ps, neg_objects), neg_wavelet) ← build_indexes neg_s_p_nums neg_sp_o_bits neg_sp_o_nums true;
  pos_subjects ← or_panic pos_subjects;
  pos_objects ← or_panic pos_objects;
  neg_subjects ← or_panic neg_subjects;
  neg_objects ← or_panic neg_objects;
  Ok (ChildLayerMaps.mk nodes predicates values id_maps pos_subjects pos_objects neg_subjects neg_objects
    pos_s_p pos_sp_o pos_o_ps neg_s_p neg_sp_o neg_o_ps pos_wavelet neg_wavelet).

(** The files of a child layer with the changes since the layer [bound], an
    ancestor in memory.  The iterator is made twice. *)
Definition rollup_from_bound (layer : InternalLayer) (bound : layer_name) : outcome io_error ChildLayerMaps.t :=
  dictionaries ← memory_dictionary_rollup_upto layer bound;
  counts ← or_panic (all_counts layer);
  builders ← new_builders counts;
  changes ← or_panic (unwrap (LayerTriples.from_layer_stack layer bound));
  additions ← or_panic (changes_of Addition changes (changes_fuel layer));
  removals ← or_panic (changes_of Removal changes (changes_fuel layer));
  write_changes dictionaries builders additions removals.
End rollups.

(** The last layer, from the given one down, that is both a parent in memory
    and among the names on disk. *)
Fixpoint safe_bound_loop (l : InternalLayer) (parents : list InternalLayer) (upto : layer_name) (disk_layer_names : list layer_name) : layer_name :=
  match parents with
  | [] => Internal.name l
  | parent :: parents =>
      if decide (Internal.name parent = upto) then upto
      else
        match list_find (fun n => n = Internal.name parent) disk_layer_names with
        | Some (ix, _) => safe_bound_loop parent parents upto (take ix disk_layer_names)
        | None => Internal.name l
        end
  end.

(** [retrieve_layer_stack_names_upto] gives the names on disk. *)
Definition safe_upto_bound (retrieve_layer_stack_names_upto : layer_name -> layer_name -> outcome io_error (list layer_name))
    (layer : InternalLayer) (upto : layer_name) : outcome io_error layer_name :=
  if decide (Internal.name layer = upto) then Ok upto
  else
    disk_layer_names ← retrieve_layer_stack_names_upto (Internal.name layer) upto;
    Ok (safe_bound_loop layer (Internal.parents_of layer) upto disk_layer_names).

Definition imprecise_delta_rollup_upto `{BytesSize} `{FramedRead} `{Log2F32} `{ParSort} (debug : bool)
    (retrieve_layer_stack_names_upto : layer_name -> layer_name -> outcome io_error (list layer_name))
    (layer : InternalLayer) (upto : layer_name) : outcome io_error ChildLayerMaps.t :=
  bound ← safe_upto_bound retrieve_layer_stack_names_upto layer upto;
  rollup_from_bound debug layer bound.

(** ** Merging the names of layers *)

Definition entry_text (x : ObjectType) : list N := match x with Node s => s | Value s => s end.

Lemma entries_perm_strings ls : Forall names_ok ls ->
  concat (entries_of_names <$> ls) ≡ₚ (Node <$> concat (nodes <$> ls)) ++ (Value <$> concat (values <$> ls)).
Proof.
  induction 1 as [|n ls (Hp & Hl & _) _ IH]; [done|]. cbn [fmap list_fmap concat]. rewrite !fmap_app, IH. unfold entries_of_names.
  rewrite arrange_perm by (rewrite ?lenN_app, ?lenN_map; done). solve_Permutation.
Qed.

Lemma predicates_perm_strings ls : Forall names_ok ls -> concat (predicates_of_names <$> ls) ≡ₚ concat (predicates <$> ls).
Proof.
  induction 1 as [|n ls (_ & _ & Hp & Hl) _ IH]; [done|]. cbn [fmap list_fmap concat]. rewrite IH. unfold predicates_of_names.
  by rewrite arrange_perm.
Qed.

(** The strings of a stack that can be merged. *)
Record merge_input `{Log2F32} (E : list ObjectType) (P : list (list N)) : Prop := {
  merge_widths : map_width (lenN E) /\ map_width (lenN P);
  merge_counts : lenN E < 2 ^ 35 /\ lenN P < 2 ^ 35;
  merge_text : PfcDicts.total (entry_text <$> E) < 2 ^ 64 /\ PfcDicts.total P < 2 ^ 64;
  merge_nodup : NoDup E /\ NoDup P
}.

Lemma merge_input_strings `{Log2F32} ls : Forall names_ok ls ->
  merge_input (concat (entries_of_names <$> ls)) (concat (predicates_of_names <$> ls)) ->
  Forall (fun sss => NoDup (concat sss) /\ PfcDicts.total (concat sss) < 2 ^ 64 /\ lenN (concat sss) < 2 ^ 35)
    [nodes <$> ls; values <$> ls; predicates <$> ls].
Proof.
  intros Hok [_ [Hc Hpc] [Ht Hpt] [Hn Hpn]]. pose proof (entries_perm_strings ls Hok) as Hp. pose proof (predicates_perm_strings ls Hok) as Hpp.
  rewrite Hp in Hn. rewrite (lenN_perm _ _ Hp), lenN_app, !lenN_map in Hc. rewrite Hpp in Hpn. rewrite (lenN_perm _ _ Hpp) in Hpc.
  rewrite (total_perm _ _ Hpp) in Hpt.
  assert (Ht' : PfcDicts.total (concat (nodes <$> ls)) + PfcDicts.total (concat (values <$> ls)) < 2 ^ 64).
  { rewrite (total_perm _ (entry_text <$> ((Node <$> concat (nodes <$> ls)) ++ (Value <$> concat (values <$> ls))))) in Ht by (by rewrite Hp).
    rewrite fmap_app, text_total_app, <- !list_fmap_compose in Ht. unfold compose in Ht. cbn [entry_text] in Ht. by rewrite !list_fmap_id in Ht. }
  apply NoDup_app in Hn as (Hn1 & _ & Hn2). apply NoDup_fmap_1 in Hn1, Hn2.
  repeat (apply Forall_cons; split); [..|constructor]; (split; [done|]); split; lia.
Qed.

Section merging.
Context `{BytesSize} `{FramedRead} `{Log2F32} (debug : bool).

(** The id maps of the layer's nodes and values do for its predicates. *)
Definition maps_fit (l : InternalLayer) (n : names) : Prop := idmap_repr (Internal.node_value_id_map l) (predicate_perm n).

Lemma no_maps_fit l n : no_maps l -> layer_names l n -> maps_fit l n.
Proof using.
  intros [Hnv Hp] [Hr _]. pose proof (names_predicate_map _ _ _ _ _ _ Hr) as Hm. unfold maps_fit. rewrite Hnv. by rewrite Hp in Hm.
Qed.

Lemma merge_built layers ls : Forall2 layer_names layers ls -> Forall2 maps_fit layers ls ->
  merge_input (concat (entries_of_names <$> ls)) (concat (predicates_of_names <$> ls)) ->
  exists fn fp fv dn dp dv nvf pf nm pm n,
    merge_layer_dictionaries layers = Ok (fn, fp, fv) /\ construct_idmaps_from_layers debug layers = Ok (nvf, pf) /\
    parse_dictionary fn = Ok dn /\ parse_dictionary fp = Ok dp /\ parse_dictionary fv = Ok dv /\
    load_idmap (Some nvf) (PfcDict.len dn + PfcDict.len dv) = Some nm /\ load_idmap (Some pf) (PfcDict.len dp) = Some pm /\
    names_repr dn dp dv nm pm n /\ names_ok n /\
    entries_of_names n = concat (entries_of_names <$> ls) /\ predicates_of_names n = concat (predicates_of_names <$> ls).
Proof using.
  intros Hln Hfit Hin. assert (Hok : Forall names_ok ls).
  { clear -Hln. induction Hln as [|l n layers ls [_ ?] _ IH]; by constructor. }
  pose proof (merge_input_strings ls Hok Hin) as Hall. destruct Hin as [[Hw Hpw] [Hc Hpc] _ _].
  rewrite count_of_entries in Hw, Hc by done. rewrite predicate_count_of_entries in Hpw, Hpc by done.
  assert (Hm : forall {B C} (R : B -> C -> Prop) (f : InternalLayer -> B) (g : names -> C),
    (forall l n, layer_names l n -> R (f l) (g n)) -> Forall2 R (f <$> layers) (g <$> ls)).
  { intros B C R f g HR. apply Forall2_fmap. eapply Forall2_impl; [exact Hln|done]. }
  destruct (merge_structures_spec debug ls (Internal.node_dictionary <$> layers) (Internal.predicate_dictionary <$> layers)
    (Internal.value_dictionary <$> layers) (Internal.node_value_id_map <$> layers) (Internal.node_value_id_map <$> layers) Hok)
    as (nf & pf & vf & nd & pd & vd & files & pfiles & w & pw & m & pm & n & M1 & P1 & M2 & P2 & M3 & P3 & Hcon & Hcw & Hmaps & Hcpw & Hpmaps &
        Hr & Hnok & He & Hpe); [| | | | |done|done|done|done|done|].
  - apply Hm. by intros l n' [[] _].
  - apply Hm. by intros l n' [[] _].
  - apply Hm. by intros l n' [[] _].
  - apply Hm. by intros l n' [[] _].
  - apply Forall2_fmap. exact Hfit.
  - exists nf, pf, vf, nd, pd, vd, files, pfiles, m, pm, n. unfold merge_layer_dictionaries, parse_dictionary.
    rewrite M1, M2, M3, P1, P2, P3. split; [done|]. split; [exact Hcon|]. repeat (split; [done|]). cbn [load_idmap].
    rewrite Hcw, bind_Some_eq, Hcpw, bind_Some_eq. done.
Qed.
End merging.

(** ** Rolling up a whole stack *)

Lemma stack_names_forall stack ns : stack_names stack ns -> Forall2 layer_names stack ns.
Proof. revert ns. induction stack as [|l stack IH]; intros [|n ns]; try done. intros (Hl & _ & _ & Hs). constructor; [done|by apply IH]. Qed.

Lemma Forall2_rev' {A B} (R : A -> B -> Prop) l k : Forall2 R l k -> Forall2 R (rev l) (rev k).
Proof. induction 1 as [|x y l k Hx _ IH]; [constructor|]. cbn [rev]. apply Forall2_app; [done|]. by constructor. Qed.

Lemma no_maps_fit_all layers ls : Forall no_maps layers -> Forall2 layer_names layers ls -> Forall2 maps_fit layers ls.
Proof.
  intros Hno Hl. induction Hl as [|l n layers ls Hln _ IH]; [constructor|]. apply Forall_cons in Hno as [? ?].
  constructor; [by apply no_maps_fit|by apply IH].
Qed.

Lemma model_triples_all m : model_ok m -> filter real_triple (model_triples m) = model_triples m.
Proof. intros Hok. apply filter_all. apply Forall_forall. intros t Ht. by apply (model_triples_real m). Qed.

Lemma rollup_built `{BytesSize} `{FramedRead} `{Log2F32} `{ParSort} debug name l m M :
  implements l m -> Forall no_maps (Internal.stack_of l) -> merge_input (model_entries m) (model_predicates m) ->
  layer_input false (lenN (model_entries m)) (lenN (model_predicates m)) 0 (lenN (model_entries m)) M (model_triples m) ->
  exists maps l', delta_rollup debug l = Ok maps /\ base_load debug name maps = Some l' /\ Internal.name l' = name /\
    Internal.parents_of l' = [] /\ implements_within (lenN (model_triples m)) l' m.
Proof.
  intros Hm Hno Hmerge Hin. pose proof Hm as (ns & cs & Hi). pose proof (impl_model _ _ _ _ Hi) as Hok.
  pose proof (impl_entries _ _ _ _ Hi) as HE. pose proof (impl_predicates _ _ _ _ Hi) as HP.
  assert (Hlayers : Forall2 layer_names (Internal.immediate_layers l) (rev ns)).
  { apply Forall2_rev', stack_names_forall. apply Hi. }
  assert (Hfit : Forall2 maps_fit (Internal.immediate_layers l) (rev ns)).
  { apply no_maps_fit_all; [|done]. by apply Forall_rev. }
  rewrite HE, HP in Hmerge. destruct (merge_built debug _ _ Hlayers Hfit Hmerge) as
    (fn & fp & fv & dn & dp & dv & nvf & pf & nm & pm & n & Hmd & Hcon & Hdn & Hdp & Hdv & Hnm & Hpm & Hr & Hnok & He & Hp).
  change (concat (entries_of_names <$> rev ns)) with (all_entries ns) in He.
  change (concat (predicates_of_names <$> rev ns)) with (all_predicates ns) in Hp. rewrite <- HE in He. rewrite <- HP in Hp.
  destruct (all_counts_law l m Hm) as (c & Hc & Hcn & Hcp).
  apply (layer_input_regroup _ _ _ _ (node_count c) (value_count c)) in Hin; [|lia]. rewrite <- Hcp in Hin.
  destruct (layer_input_bounds _ _ _ _ _ _ _ Hin) as (_ & Hlen & Hcount & Hpcount & _).
  destruct (write_layer_spec debug _ _ _ _ _ _ _ Hin) as
    ([[[s_p sp_o] subjects] [[o_ps objects] wavelet]] & subjs & al_sp & al_spo & objs & al_ops & wt & Hw & Hrd & Hh & _).
  destruct (write_layer_steps _ _ _ _ _ _ _ _ _ _ _ Hw) as
    (b & b' & Hb & Hb' & Hf & s1 & s2 & s3 & s4 & o1 & o2 & o3 & o4 & -> & -> & Hix).
  destruct (read_layer_steps _ _ _ _ _ _ _ _ _ _ _ _ _ Hrd) as (Hsubj & Hobj & Hsp & Hspo & Hops & Hwt).
  rewrite (model_triples_all m Hok) in *.
  assert (Hsize : PfcDict.len dn + PfcDict.len dv = size_of n).
  { unfold PfcDict.len, size_of. by rewrite (proj1 (names_nodes _ _ _ _ _ _ Hr)), (proj1 (names_values _ _ _ _ _ _ Hr)). }
  assert (Hsz : size_of n = lenN (model_entries m)) by (rewrite <- He; symmetry; by apply entries_of_names_spec).
  assert (Hpsz : lenN (predicates n) = lenN (model_predicates m)) by (rewrite <- Hp; symmetry; by apply predicates_of_names_spec).
  eexists (BaseLayerMaps.mk fn fp fv (mk_id_map_maps (Some nvf) (Some pf)) subjects objects _ _ o_ps wavelet), _.
  split; [|split; [|split; [|split]]].
  - unfold delta_rollup, dictionary_rollup, memory_construct_idmaps. rewrite Hmd, bind_Ok_eq, Hcon, !bind_Ok_eq, Hc. cbn [or_panic].
    rewrite bind_Ok_eq, Hb, bind_Ok_eq, (triples_law l m Hm). cbn [or_panic]. rewrite bind_Ok_eq, Hb', bind_Ok_eq, Hf, bind_Ok_eq.
    by rewrite Hix, bind_Ok_eq.
  - unfold base_load.
    cbn [BaseLayerMaps.node_dictionary_maps BaseLayerMaps.predicate_dictionary_maps BaseLayerMaps.value_dictionary_maps
      BaseLayerMaps.id_map_maps BaseLayerMaps.subjects_map BaseLayerMaps.objects_map BaseLayerMaps.s_p_adjacency_list_maps
      BaseLayerMaps.sp_o_adjacency_list_maps BaseLayerMaps.o_ps_adjacency_list_maps BaseLayerMaps.predicate_wavelet_tree_maps
      node_value_idmap_maps predicate_idmap_maps].
    rewrite Hdn, Hdp, Hdv. cbn [unwrap]. rewrite !bind_Some_eq, cadd_Some, bind_Some_eq by lia. rewrite Hnm, bind_Some_eq, Hpm.
    rewrite bind_Some_eq, Hsubj, bind_Some_eq, Hobj, bind_Some_eq, Hsp, bind_Some_eq, Hspo, bind_Some_eq, Hops, bind_Some_eq, Hwt.
    rewrite bind_Some_eq. done.
  - done.
  - done.
  - destruct m as [E P ts]. cbn [model_entries model_predicates model_triples] in *.
    rewrite <- He, <- Hp. rewrite <- He, <- Hp in Hok. apply base_implements; [done|done|done|lia|lia|lia|done].
Qed.

Lemma rollup_built_on `{BytesSize} `{FramedRead} `{Log2F32} `{ParSort} debug l m M :
  implements l m -> Forall no_maps (Internal.stack_of l) -> merge_input (model_entries m) (model_predicates m) ->
  layer_input false (lenN (model_entries m)) (lenN (model_predicates m)) 0 (lenN (model_entries m)) M (model_triples m) ->
  exists maps, delta_rollup debug l = Ok maps /\ loads_base debug maps m (lenN (model_triples m)).
Proof.
  intros Hm Hno Hmerge Hin. apply loads_base_intro. intros name.
  destruct (rollup_built debug name l m M Hm Hno Hmerge Hin) as (maps & l' & Hroll & Hload & _ & _ & Hi). by exists maps, l'.
Qed.

(** ** Rolling up to an ancestor *)

Lemma stack_names_app A B ns : stack_names (A ++ B) ns -> exists na nb, ns = na ++ nb /\ Forall2 layer_names A na /\ stack_names B nb.
Proof.
  revert ns. induction A as [|l A IH]; intros ns Hs; [by exists [], ns|]. destruct ns as [|n ns]; [done|].
  destruct Hs as (Hl & _ & _ & Hs). destruct (IH ns Hs) as (na & nb & -> & Ha & Hb). exists (n :: na), nb. split; [done|].
  split; [by constructor|done].
Qed.

Lemma at_id_ext {A} (E F : list A) : (forall id, at_id E id = at_id F id) -> E = F.
Proof.
  intros H. apply list_eq_nget. intros i. specialize (H (i + 1)). unfold at_id in H. destruct (N.eqb_spec (i + 1) 0); [lia|].
  by rewrite N.add_sub in H.
Qed.

(** The names of an ancestor, as part of the names of the layer. *)
Lemma ancestor_names `{BytesSize} l m ns cs p mp A rest : implements_by l m ns cs -> implements p mp ->
  Internal.stack_of l = A ++ p :: rest -> A <> [] ->
  exists na, Forall2 layer_names A na /\ model_entries m = model_entries mp ++ all_entries na /\
    model_predicates m = model_predicates mp ++ all_predicates na.
Proof.
  intros Hi Hp Est HA. pose proof (stack_suffix l _ _ _ Est HA) as Esuf. pose proof (impl_names _ _ _ _ Hi) as Hn.
  unfold has_names in Hn. rewrite Est, Esuf in Hn. destruct (stack_names_app _ _ _ Hn) as (na & nb & -> & Ha & Hb).
  pose proof (impl_count _ _ _ _ Hi) as Hc. pose proof (impl_predicate_count _ _ _ _ Hi) as Hpc.
  assert (Hca : forall xs ys, count_of (xs ++ ys) = count_of xs + count_of ys /\
    predicate_count_of (xs ++ ys) = predicate_count_of xs + predicate_count_of ys).
  { induction xs as [|x xs IH]; intros ys; [done|]. destruct (IH ys) as [E1 E2]. cbn [app count_of predicate_count_of foldr].
    fold (count_of (xs ++ ys)) (count_of xs) (predicate_count_of (xs ++ ys)) (predicate_count_of xs). lia. }
  destruct (Hca na nb) as [E1 E2]. rewrite E1 in Hc. rewrite E2 in Hpc. exists na. split; [done|].
  assert (HE : model_entries mp = all_entries nb).
  { apply at_id_ext. intros id. pose proof (id_object_law p mp id Hp) as H1.
    pose proof (id_object_spec p nb Hb ltac:(lia) ltac:(lia) id) as H2. cbn in H1. rewrite H2 in H1. by injection H1 as ->. }
  assert (HP : model_predicates mp = all_predicates nb).
  { apply at_id_ext. intros id. pose proof (id_predicate_law p mp id Hp) as H1.
    pose proof (id_predicate_spec p nb Hb ltac:(lia) ltac:(lia) id) as H2. cbn in H1. rewrite H2 in H1. by injection H1 as ->. }
  rewrite HE, HP, (impl_entries _ _ _ _ Hi), (impl_predicates _ _ _ _ Hi). unfold all_entries, all_predicates.
  by rewrite rev_app_distr, !fmap_app, !concat_app.
Qed.

Lemma layers_above_spec ls p rest : Forall (fun x => Internal.name x <> Internal.name p) ls ->
  Internal.layers_above (ls ++ p :: rest) (Internal.name p) = Some ls.
Proof.
  induction 1 as [|x ls Hx _ IH]; cbn [app Internal.layers_above]; [by rewrite decide_True|]. by rewrite decide_False, IH by exact Hx.
Qed.

(** The triples of one kind, out of the changes. *)
Lemma changes_of_spec kind st fuel out ts : InternalTripleStackIterator.collect fuel st = Some out ->
  StronglySorted triple_lt out.*2 -> StronglySorted triple_lt ts -> (forall t, (kind, t) ∈ out <-> t ∈ ts) ->
  changes_of kind st fuel = Some ts.
Proof.
  intros Hout Hs Hts Hin. unfold changes_of. rewrite Hout, bind_Some_eq. f_equal.
  apply (sorted_members IdTriple.cmp); [|done|].
  - clear -Hs. induction out as [|x out IH]; [constructor|]. cbn in Hs. apply StronglySorted_inv in Hs as [Hs Hx]. rewrite filter_cons.
    destruct (decide (x.1 = kind)); [|by apply IH]. cbn. constructor; [by apply IH|]. apply Forall_forall.
    intros t ((c & t') & -> & [_ Hin]%list_elem_of_filter)%list_elem_of_fmap. rewrite Forall_forall in Hx. apply Hx.
    apply list_elem_of_fmap. by exists (c, t').
  - intros t. rewrite list_elem_of_fmap, <- Hin. split.
    + intros ((c & t') & -> & [Hc Hout']%list_elem_of_filter). cbn in *. by subst c.
    + intros Ht. exists (kind, t). split; [done|]. by apply list_elem_of_filter.
Qed.

(** An upper bound of the additions of a rollup. *)
Lemma added_above above below t : stack_mem (above ++ below) t -> ~ stack_mem below t -> t ∈ concat above.*1.
Proof.
  induction above as [|[a r] above IH]; [done|]. cbn [app stack_mem fmap list_fmap concat fst]. intros [Ha|[_ Hm]] Hn; apply elem_of_app;
    [by left|right; by apply IH].
Qed.

Lemma additions_app cs ds : additions_of (cs ++ ds) = additions_of cs + additions_of ds.
Proof.
  induction cs as [|c cs IH]; [done|]. cbn [app additions_of foldr]. fold (additions_of (cs ++ ds)) (additions_of cs). lia.
Qed.

Lemma additions_concat cs : additions_of cs = lenN (concat cs.*1).
Proof.
  induction cs as [|c cs IH]; [done|]. cbn [additions_of foldr fmap list_fmap concat]. fold (additions_of cs). rewrite lenN_app. lia.
Qed.

Lemma sorted_nodup ts : StronglySorted triple_lt ts -> NoDup ts.
Proof.
  induction 1 as [|x ts _ IH Hx]; constructor; [|done]. intros Hin. rewrite Forall_forall in Hx.
  by apply (StrictOrder_Irreflexive x), Hx.
Qed.

(** Two descriptions of one layer agree on the number of its additions. *)
Lemma additions_unique p cs ds : has_changes p cs -> has_changes p ds -> additions_of cs < 2 ^ 64 -> additions_of ds < 2 ^ 64 ->
  additions_of cs = additions_of ds.
Proof.
  intros [Hc _] [Hd _] Hcb Hdb. pose proof (stack_count_spec _ (fun c => lenN c.1) p cs layer_addition_count Hc Hcb) as E1.
  pose proof (stack_count_spec _ (fun c => lenN c.1) p ds layer_addition_count Hd Hdb) as E2.
  assert (E : Some (additions_of cs) = Some (additions_of ds)) by (etransitivity; [symmetry; exact E1|exact E2]). by injection E.
Qed.

Lemma rollup_additions `{BytesSize} l m ns cs p mp nsp csp A rest : implements_by l m ns cs -> implements_by p mp nsp csp ->
  Internal.stack_of l = A ++ p :: rest -> A <> [] ->
  additions_of csp + lenN (filter (fun t => t ∉ model_triples mp) (model_triples m)) < 2 ^ 64.
Proof.
  intros Hi Hp Est HA. destruct (impl_changes _ _ _ _ Hi) as [Hc Hok]. pose proof (stack_suffix l _ _ _ Est HA) as Esuf.
  rewrite Est, Esuf in Hc. destruct (suffix_changes _ _ _ Hc Hok) as (above & below & -> & Ha & Hb).
  pose proof (impl_additions _ _ _ _ Hi) as Hs. rewrite additions_app in Hs.
  rewrite (additions_unique p csp below (impl_changes _ _ _ _ Hp) Hb (impl_additions _ _ _ _ Hp)) by lia.
  enough (lenN (filter (fun t => t ∉ model_triples mp) (model_triples m)) <= additions_of above) by lia.
  rewrite additions_concat. unfold lenN. enough (length (filter (fun t => t ∉ model_triples mp) (model_triples m)) <= length (concat above.*1))%nat by lia.
  apply submseteq_length, NoDup_submseteq; [apply NoDup_filter, sorted_nodup, (triples_sorted m), Hi|].
  intros t [Hn Ht]%list_elem_of_filter. apply (impl_triples _ _ _ _ Hi) in Ht. apply (added_above above below); [done|].
  intros Hm. apply Hn. apply (ancestor_triples p below mp Hb); [by exists nsp, csp|done].
Qed.

(** The changes from one model to another, and what can be written of them. *)
Definition added_triples (m mp : layer_model) : list IdTriple.t := filter (fun t => t ∉ model_triples mp) (model_triples m).

Record upto_input `{Log2F32} (m mp : layer_model) (M : N) : Prop := {
  upto_names : merge_input (dropN (lenN (model_entries mp)) (model_entries m)) (dropN (lenN (model_predicates mp)) (model_predicates m));
  upto_additions : layer_input true (lenN (model_entries m)) (lenN (model_predicates m)) 0 (lenN (model_entries m)) M (added_triples m mp);
  upto_removals : layer_input true (lenN (model_entries m)) (lenN (model_predicates m)) 0 (lenN (model_entries m)) M (added_triples mp m)
}.

Lemma change_fuel_app A B : (change_fuel A <= change_fuel (A ++ B))%nat.
Proof.
  unfold change_fuel. rewrite !fmap_app. assert (Hs : forall xs ys : list nat, (sum_list xs <= sum_list (xs ++ ys))%nat).
  { induction xs as [|x xs IH]; intros ys; cbn; [lia|]. specialize (IH ys). lia. }
  pose proof (Hs (Internal.addition_fuel <$> A) (Internal.addition_fuel <$> B)).
  pose proof (Hs (Internal.removal_fuel <$> A) (Internal.removal_fuel <$> B)). lia.
Qed.

(** What a rollup to the layer [p] writes for its triples. *)
Lemma rollup_changes `{BytesSize} (l p : InternalLayer) m mp ls rest : implements l m -> implements p mp ->
  Internal.parents_of l = ls ++ p :: rest -> Forall (fun x => Internal.name x <> Internal.name p) ls ->
  exists st, LayerTriples.from_layer_stack l (Internal.name p) = Ok st /\
    st = mk_stack (Internal.internal_triple_additions <$> l :: ls) (Internal.internal_triple_removals <$> l :: ls) /\
    forall fuel, (change_fuel (l :: ls) <= fuel)%nat ->
    changes_of Addition st fuel = Some (added_triples m mp) /\ changes_of Removal st fuel = Some (added_triples mp m).
Proof.
  intros Hm Hp Epar Hls.
  assert (Est : LayerTriples.from_layer_stack l (Internal.name p) =
    Ok (mk_stack (Internal.internal_triple_additions <$> l :: ls) (Internal.internal_triple_removals <$> l :: ls))).
  { unfold LayerTriples.from_layer_stack. rewrite Epar. by rewrite (layers_above_spec _ _ _ Hls). }
  eexists. split; [exact Est|]. split; [done|]. intros fuel Hfuel.
  destruct (ancestor_changes l p m mp ls rest fuel Hfuel Hm Epar Hls Hp) as (st & out & Hst & Hout & Hs & Hin).
  assert (Est' := eq_trans (eq_sym Hst) Est). injection Est' as ->.
  pose proof (triples_sorted m (model_law l m Hm)) as Hsm. pose proof (triples_sorted mp (model_law p mp Hp)) as Hsp.
  split.
  - apply (changes_of_spec _ _ _ out); [done|done|by apply sorted_filter|]. intros t. rewrite (Hin Addition t). unfold added_triples.
    rewrite list_elem_of_filter. tauto.
  - apply (changes_of_spec _ _ _ out); [done|done|by apply sorted_filter|]. intros t. rewrite (Hin Removal t). unfold added_triples.
    rewrite list_elem_of_filter. tauto.
Qed.

Lemma rollup_dictionaries `{BytesSize} `{FramedRead} `{Log2F32} debug l m p mp ls rest : implements l m -> implements p mp ->
  Internal.parents_of l = ls ++ p :: rest -> Forall (fun x => Internal.name x <> Internal.name p) (l :: ls) ->
  Forall no_maps (l :: ls) ->
  merge_input (dropN (lenN (model_entries mp)) (model_entries m)) (dropN (lenN (model_predicates mp)) (model_predicates m)) ->
  exists fn fp fv dn dp dv nvf pf nm pm n,
    memory_dictionary_rollup_upto debug l (Internal.name p) = Ok ((fn, fp, fv), mk_id_map_maps (Some nvf) (Some pf)) /\
    parse_dictionary fn = Ok dn /\ parse_dictionary fp = Ok dp /\ parse_dictionary fv = Ok dv /\
    load_idmap (Some nvf) (PfcDict.len dn + PfcDict.len dv) = Some nm /\ load_idmap (Some pf) (PfcDict.len dp) = Some pm /\
    names_repr dn dp dv nm pm n /\ names_ok n /\ PfcDict.len dn + PfcDict.len dv = size_of n /\
    model_entries m = model_entries mp ++ entries_of_names n /\ model_predicates m = model_predicates mp ++ predicates_of_names n.
Proof.
  intros (ns & cs & Hi) Hp Epar Hls Hno Hin.
  pose proof (Internal.stack_of_cons l) as Est. rewrite Epar, app_comm_cons in Est.
  destruct (ancestor_names l m ns cs p mp (l :: ls) rest Hi Hp Est ltac:(done)) as (na & Hna & HE & HP).
  assert (Hup : Internal.immediate_layers_upto l (Internal.name p) = Some (rev (l :: ls))).
  { unfold Internal.immediate_layers_upto. rewrite decide_False by (by apply Forall_cons in Hls as [? _]).
    rewrite Est. change (l :: ls ++ p :: rest) with ((l :: ls) ++ p :: rest). by rewrite (layers_above_spec _ _ _ Hls). }
  rewrite HE, HP, !dropN_app in Hin.
  assert (Hfit : Forall2 maps_fit (rev (l :: ls)) (rev na)).
  { apply no_maps_fit_all; [by apply Forall_rev|by apply Forall2_rev']. }
  destruct (merge_built debug _ _ (Forall2_rev' _ _ _ Hna) Hfit Hin) as
    (fn & fp & fv & dn & dp & dv & nvf & pf & nm & pm & n & Hmd & Hcon & Hdn & Hdp & Hdv & Hnm & Hpm & Hr & Hnok & He & Hpe).
  exists fn, fp, fv, dn, dp, dv, nvf, pf, nm, pm, n. split.
  { unfold memory_dictionary_rollup_upto, memory_construct_idmaps_upto. rewrite Hup. cbn [or_panic]. rewrite bind_Ok_eq, Hmd, bind_Ok_eq.
    rewrite bind_Ok_eq, Hcon. done. }
  repeat (split; [done|]). split.
  { unfold PfcDict.len, size_of. by rewrite (proj1 (names_nodes _ _ _ _ _ _ Hr)), (proj1 (names_values _ _ _ _ _ _ Hr)). }
  by rewrite He, Hpe.
Qed.

(** The files that the changes are written to load on every layer with the
    model of the ancestor. *)
Lemma rollup_upto_built_on `{BytesSize} `{FramedRead} `{Log2F32} `{ParSort} debug l m p mp ls rest M : implements l m -> implements p mp ->
  Internal.parents_of l = ls ++ p :: rest -> Forall (fun x => Internal.name x <> Internal.name p) (l :: ls) ->
  Forall no_maps (l :: ls) -> upto_input m mp M ->
  exists maps, rollup_from_bound debug l (Internal.name p) = Ok maps /\
    forall k, k + lenN (added_triples m mp) < 2 ^ 64 -> loads_child debug maps mp k m (k + lenN (added_triples m mp)).
Proof.
  intros Hm Hp Epar Hls Hno [Hmerge Hadd Hrem]. pose proof (model_law l m Hm) as Hok. pose proof (model_law p mp Hp) as Hokp.
  destruct (rollup_dictionaries debug l m p mp ls rest Hm Hp Epar Hls Hno Hmerge) as
    (fn & fp & fv & dn & dp & dv & nvf & pf & nm & pm & n & Hmd & Hdn & Hdp & Hdv & Hnm & Hpm & Hr & Hnok & Hsize & HE & HP).
  apply Forall_cons in Hls as Hls'. destruct Hls' as [_ Hls'].
  destruct (rollup_changes l p m mp ls rest Hm Hp Epar Hls') as (st & Hst & _ & Hchanges).
  destruct (Hchanges (changes_fuel l)) as [Hadds Hrems].
  { unfold changes_fuel. rewrite Internal.stack_of_cons, Epar, app_comm_cons. apply change_fuel_app. }
  destruct (all_counts_law l m Hm) as (c & Hc & Hcn & Hcp).
  destruct (layer_input_bounds _ _ _ _ _ _ _ Hadd) as (_ & _ & Hcount & Hpcount & _).
  apply (layer_input_regroup _ _ _ _ (node_count c) (value_count c)) in Hadd, Hrem; [|lia..]. rewrite <- Hcp in Hadd, Hrem.
  destruct (child_half debug _ _ _ _ _ _ Hadd) as (pb & pb' & p1 & p2 & p3 & p4 & p5 & p6 & p7 & p8 & psf & pops & pof & pw &
    ps_ & ps_p & psp_o & po_ & po_ps & pwt & Hpb & Hpb' & Hpf & Hpix & Hpr & Hph).
  destruct (child_half debug _ _ _ _ _ _ Hrem) as (nb & nb' & n1 & n2 & n3 & n4 & n5 & n6 & n7 & n8 & nsf & nops & nof & nw &
    ns_ & ns_p & nsp_o & no_ & no_ps & nwt & Hnb & Hnb' & Hnf & Hnix & Hnr & Hnh).
  rewrite Hpb in Hnb. injection Hnb as <-.
  assert (Hreal : forall m1 m2, model_ok m1 -> filter real_triple (added_triples m1 m2) = added_triples m1 m2).
  { intros m1 m2 Hok1. apply filter_all, Forall_forall. intros t [_ Ht]%list_elem_of_filter. by apply (model_triples_real m1). }
  rewrite Hreal in Hph, Hnh by done.
  assert (Hsz : lenN (model_entries mp) + size_of n = lenN (model_entries m) /\
    lenN (model_predicates mp) + lenN (predicates n) = lenN (model_predicates m)).
  { rewrite HE, HP, !lenN_app. by rewrite (proj1 (entries_of_names_spec n Hnok)), (proj1 (predicates_of_names_spec n Hnok)). }
  exists (ChildLayerMaps.mk fn fp fv (mk_id_map_maps (Some nvf) (Some pf)) psf pof nsf nof (p1, p2, p3, p4) (p5, p6, p7, p8) pops
    (n1, n2, n3, n4) (n5, n6, n7, n8) nops pw nw). split.
  - unfold rollup_from_bound, new_builders, write_changes. rewrite Hmd, bind_Ok_eq, Hc. cbn [or_panic]. rewrite bind_Ok_eq, Hpb, !bind_Ok_eq, Hst.
    cbn [unwrap or_panic]. rewrite bind_Ok_eq, Hadds. cbn [or_panic]. rewrite bind_Ok_eq, Hrems. cbn [or_panic].
    rewrite bind_Ok_eq, Hpb', bind_Ok_eq, Hpf, bind_Ok_eq, Hnb', bind_Ok_eq, Hnf, bind_Ok_eq, Hpix, bind_Ok_eq, Hnix. done.
  - intros k Hk name p' (nsp & csp & Hip & Hkc). assert (Hpm' : implements p' mp) by (by exists nsp, csp).
    eexists. split; [|split; [|split; [|split]]].
    + eapply child_load_pieces; [done..|exact (node_and_value_count_law p' mp Hpm')|exact (predicate_count_law p' mp Hpm')|lia|exact Hnm|exact Hpm|exact Hpr|exact Hnr].
    + done.
    + done.
    + done.
    + set (adds := added_triples m mp) in *. set (rems := added_triples mp m) in *. exists (n :: nsp), ((adds, rems) :: csp).
      split; [|cbn [additions_of foldr fst]; fold (additions_of csp); lia].
      assert (Em : m = mk_model (model_entries mp ++ entries_of_names n) (model_predicates mp ++ predicates_of_names n) (model_triples m)).
      { rewrite <- HE, <- HP. by destruct m. }
      rewrite Em in Hok |- *. apply (child_implements name p' mp nsp csp dn dp dv nm pm n) with (adds := adds) (rems := rems);
        [done|done|done|exact Hph|exact Hnh| | |lia|lia| | |done].
      * apply Forall_forall. by intros t [Ht _]%list_elem_of_filter.
      * apply Forall_forall. by intros t [_ Ht]%list_elem_of_filter.
      * lia.
      * intros t. unfold child_triples, adds, rems, added_triples. rewrite !list_elem_of_filter.
        destruct (decide (t ∈ model_triples m)), (decide (t ∈ model_triples mp)); tauto.
Qed.

Lemma rollup_upto_built `{BytesSize} `{FramedRead} `{Log2F32} `{ParSort} debug name l m p mp ls rest M : implements l m -> implements p mp ->
  Internal.parents_of l = ls ++ p :: rest -> Forall (fun x => Internal.name x <> Internal.name p) (l :: ls) ->
  Forall no_maps (l :: ls) -> upto_input m mp M ->
  exists maps l', rollup_from_bound debug l (Internal.name p) = Ok maps /\ child_load debug name p maps = Some l' /\
    Internal.name l' = name /\ Internal.immediate_parent l' = Some p /\ implements l' m.
Proof.
  intros Hm Hp Epar Hls Hno Hin. destruct (rollup_upto_built_on debug l m p mp ls rest M Hm Hp Epar Hls Hno Hin) as (maps & Hroll & Hload).
  pose proof Hm as (ns & cs & Hi). pose proof Hp as (nsp & csp & Hip). pose proof (Internal.stack_of_cons l) as Est. rewrite Epar in Est.
  destruct (Hload (additions_of csp) (rollup_additions l m ns cs p mp nsp csp (l :: ls) rest Hi Hip Est ltac:(done)) name p) as
    (l' & Hl & Hn & Hpar & _ & Hi').
  { by exists nsp, csp. }
  exists maps, l'. repeat (split; [done|]). by eapply within_implements.
Qed.

(** ** Properties *)

(** C14: rolling a whole stack up keeps everything: the files load as one base
    layer that implements the very model of the stack, so all ids, names and
    triples are the same.  The layers must not be rollups themselves, since the
    id maps of their predicates are not used. *)
Theorem rollup_keeps_model `{BytesSize} `{FramedRead} `{Log2F32} `{ParSort} debug name l m M :
  implements l m -> Forall no_maps (Internal.stack_of l) -> merge_input (model_entries m) (model_predicates m) ->
  layer_input false (lenN (model_entries m)) (lenN (model_predicates m)) 0 (lenN (model_entries m)) M (model_triples m) ->
  exists maps l', delta_rollup debug l = Ok maps /\ base_load debug name maps = Some l' /\ Internal.name l' = name /\ implements l' m /\
    triples l' = triples l /\ (forall id, id_object l' id = id_object l id) /\ (forall id, id_predicate l' id = id_predicate l id).
Proof.
  intros Hm Hno Hmerge Hin. destruct (rollup_built debug name l m M Hm Hno Hmerge Hin) as (maps & l' & Hroll & Hload & Hname & _ & Hm'%within_implements).
  exists maps, l'. do 4 (split; [done|]). split; [|split].
  - by rewrite (triples_law l m Hm), (triples_law l' m Hm').
  - intros id. by rewrite (id_object_law l m id Hm), (id_object_law l' m id Hm').
  - intros id. by rewrite (id_predicate_law l m id Hm), (id_predicate_law l' m id Hm').
Qed.

(** Rolling up to an ancestor in memory keeps everything as well: the files
    load, on top of that ancestor, as one child layer that implements the model
    of the whole stack. *)
Theorem rollup_upto_keeps_model `{BytesSize} `{FramedRead} `{Log2F32} `{ParSort} debug name l m p mp ls rest M :
  implements l m -> implements p mp -> Internal.parents_of l = ls ++ p :: rest ->
  Forall (fun x => Internal.name x <> Internal.name p) (l :: ls) -> Forall no_maps (l :: ls) -> upto_input m mp M ->
  exists maps l', rollup_from_bound debug l (Internal.name p) = Ok maps /\ child_load debug name p maps = Some l' /\
    Internal.parents_of l' = p :: rest /\ implements l' m /\
    triples l' = triples l /\ (forall id, id_object l' id = id_object l id) /\ (forall id, id_predicate l' id = id_predicate l id).
Proof.
  intros Hm Hp Epar Hls Hno Hin. destruct (rollup_upto_built debug name l m p mp ls rest M Hm Hp Epar Hls Hno Hin) as
    (maps & l' & Hroll & Hload & _ & Hpar & Hm'). exists maps, l'. split; [done|]. split; [done|]. split; [|split; [done|split; [|split]]].
  - rewrite Internal.parents_of_spec, Hpar. symmetry. apply (stack_suffix l (l :: ls)); [|done]. by rewrite Internal.stack_of_cons, Epar.
  - by rewrite (triples_law l m Hm), (triples_law l' m Hm').
  - intros id. by rewrite (id_object_law l m id Hm), (id_object_law l' m id Hm').
  - intros id. by rewrite (id_predicate_law l m id Hm), (id_predicate_law l' m id Hm').
Qed.

(** *** The sample, and a child of it *)

#[local] Existing Instance sample_bytes.

Lemma sample_merge : merge_input (H := exact_log2) (model_entries base_model) (model_predicates base_model).
Proof.
  split; split; [exists 2; by vm_compute|exists 2; by vm_compute| | | | | |].
  1-4: by vm_compute.
  1-2: apply (bool_decide_unpack _); vm_compute; exact I.
Qed.

Lemma sample_rollup_input : layer_input (H0 := exact_log2) false 3 2 0 3 10 base_triples.
Proof.
  unfold layer_input. replace (filter real_triple base_triples) with base_triples by (vm_compute; reflexivity).
  unfold base_triples. concrete_layer_input.
Qed.

Lemma rollup_keeps_model_witness : exists l maps l', sample_base l /\
  delta_rollup (H0 := whole_file) (H1 := exact_log2) (H2 := merge_par_sort) true l = Ok maps /\
  base_load (H := exact_log2) true [9] maps = Some l' /\ implements l' base_model /\ triples l' = triples l.
Proof.
  destruct sample_base_built as (l & Hl & _ & Hpar & Hno & _ & Hi).
  assert (Hall : Forall no_maps (Internal.stack_of l)).
  { pose proof (Internal.stack_of_cons l) as E. rewrite Hpar in E. rewrite E. constructor; [exact Hno|constructor]. }
  destruct (rollup_keeps_model (H0 := whole_file) (H1 := exact_log2) (H2 := merge_par_sort) true [9] l base_model 10
    Hi Hall sample_merge sample_rollup_input) as (maps & l' & Hroll & Hload & _ & Hi' & Ht & _).
  exists l, maps, l'. split; [exact Hl|]. split; [exact Hroll|]. split; [exact Hload|]. split; [exact Hi'|exact Ht].
Defined.

(** A child of the sample, with a new node, one triple more and one less. *)
Lemma sample_child_built : exists p l m, sample_base p /\ Internal.name p = [1] /\ implements p base_model /\
  Internal.name l = [2] /\ Internal.parents_of l = [p] /\ no_maps l /\ implements l m /\
  model_entries m = model_entries base_model ++ [Node [99]] /\ model_predicates m = model_predicates base_model /\
  added_triples m base_model = [IdTriple.mk 4 1 1] /\ added_triples base_model m = [IdTriple.mk 1 2 3].
Proof.
  destruct sample_base_built as (p & Hp & Hname & Hpar & _ & Hc & Hi).
  destruct (child_built (H := whole_file) (H0 := exact_log2) (H1 := merge_par_sort) true [2] p base_model
    child_strings [[113]] [] 20 child_added child_removed 3 Hi child_sample_input Hc ltac:(by vm_compute))
    as (maps & l & m & _ & _ & Hln & Hparent & Hno & Himp & He & Hpr & Ht).
  exists p, l, m. split; [exact Hp|]. split; [exact Hname|]. split; [exact Hi|]. split; [exact Hln|]. split.
  { pose proof (Internal.parents_of_spec l) as E. rewrite Hparent in E. etransitivity; [exact E|].
    pose proof (Internal.stack_of_cons p) as E'. rewrite Hpar in E'. exact E'. }
  split; [exact Hno|]. split; [exact Himp|]. split; [etransitivity; [exact He|by vm_compute]|].
  split; [etransitivity; [exact Hpr|by vm_compute]|].
  pose proof (triples_sorted m (model_law l m Himp)) as Hs. pose proof (triples_sorted base_model (model_law p base_model Hi)) as Hsb.
  split; (apply (sorted_members IdTriple.cmp); [by apply sorted_filter|repeat constructor|]); intros t; unfold added_triples;
    rewrite list_elem_of_filter, Ht.
  - split.
    + intros [Hn [[Hin _]|(_ & Hin & _)]]; [done|]. apply elem_of_cons in Hin as [->|Hin]; [|done]. exfalso. apply Hn. left.
    + intros ->%list_elem_of_singleton. split; [|right; split; [|split; [right; left|done]]];
        (apply (bool_decide_unpack _); vm_compute; exact I).
  - split.
    + intros [Hn Hin]. destruct (decide (t ∈ child_removed)) as [Hr|Hr]; [|exfalso; apply Hn; by left].
      apply elem_of_cons in Hr as [->|Hr]; [left|]. apply list_elem_of_singleton in Hr as ->. exfalso. revert Hin.
      apply (bool_decide_unpack _). vm_compute. exact I.
    + intros ->%list_elem_of_singleton. split; [|right; left]. intros [[_ Hr]|[Hr _]]; [apply Hr; left|apply Hr; right; left].
Qed.

Lemma rollup_upto_keeps_model_witness : exists p l maps l', sample_base p /\ Internal.parents_of l = [p] /\
  rollup_from_bound (H0 := whole_file) (H1 := exact_log2) (H2 := merge_par_sort) true l [1] = Ok maps /\
  child_load (H := exact_log2) true [9] p maps = Some l' /\ Internal.parents_of l' = [p] /\ triples l' = triples l.
Proof.
  destruct sample_child_built as (p & l & m & Hp & Hname & Hi & Hln & Hpar & Hno & Himp & He & Hpr & Ha & Hr).
  assert (Hin : upto_input (H := exact_log2) m base_model 20).
  { split; rewrite ?Ha, ?Hr, ?He, ?Hpr.
    - rewrite dropN_app. split; split; [exists 1; by vm_compute|exists 0; by vm_compute| | | | | |].
      1-4: by vm_compute.
      1-2: apply (bool_decide_unpack _); vm_compute; exact I.
    - unfold layer_input. replace (filter real_triple [IdTriple.mk 4 1 1]) with [IdTriple.mk 4 1 1] by (vm_compute; reflexivity).
      concrete_layer_input.
    - unfold layer_input. replace (filter real_triple [IdTriple.mk 1 2 3]) with [IdTriple.mk 1 2 3] by (vm_compute; reflexivity).
      concrete_layer_input. }
  assert (Hls : Forall (fun x => Internal.name x <> Internal.name p) [l]).
  { constructor; [|constructor]. rewrite Hln, Hname. discriminate. }
  destruct (rollup_upto_keeps_model (H0 := whole_file) (H1 := exact_log2) (H2 := merge_par_sort) true [9] l m p base_model
    [] [] 20 Himp Hi Hpar Hls ltac:(by constructor) Hin) as (maps & l' & Hroll & Hload & Hpar' & _ & Ht & _).
  change (rollup_from_bound (H0 := whole_file) (H1 := exact_log2) (H2 := merge_par_sort) true l (Internal.name p) = Ok maps) in Hroll.
  rewrite Hname in Hroll.
  exists p, l, maps, l'. split; [exact Hp|]. split; [exact Hpar|]. split; [exact Hroll|]. split; [exact Hload|].
  split; [exact Hpar'|exact Ht].
Defined.
