(* ===== verification/SimpleBuilder.v ===== *)
(** * Building a layer from triples in any form (src/layer/simple_builder.rs)

    The builder collects additions and removals of triples, by string or by id,
    in any order.  A commit resolves the strings that the parent has, cancels
    what is both added and removed, collects the strings that are left, and
    hands the layer builders of LayerBuilders.v sorted strings and triples. *)

From stdpp Require Import gmap.
From S2P Require Import Prelude.
From S2P Require Import Words.
From S2P Require Import Codec.
From S2P Require Import Strings.
From S2P Require Import LogArrays.
From S2P Require Import PfcBlocks.
From S2P Require Import PfcDicts.
From S2P Require Import LayerTypes.
From S2P Require Import LayerModel.
From S2P Require Import Triples.
From S2P Require Import TripleBuilder.
From S2P Require Import IdMaps.
From S2P Require Import Iterators.
From S2P Require Import Stacks.
From S2P Require Import InternalLayers.
From S2P Require Import LayerNames.
From S2P Require Import LayerTriples.
From S2P Require Import LayerRefinement.
From S2P Require Import LayerBuilders.
From S2P Require Import BuiltLayers.
Open Scope N_scope.

(** ** The derived orders *)

(** [c] decides unless it says equal. *)
Definition then_cmp (c d : comparison) : comparison := match c with Eq => d | _ => c end.

Definition object_type_cmp (x y : ObjectType) : comparison :=
  match x, y with
  | Node s, Node s' => lex_cmp s s'
  | Node _, Value _ => Lt
  | Value _, Node _ => Gt
  | Value s, Value s' => lex_cmp s s'
  end.

Definition possibly_cmp {T} (cmp : T -> T -> comparison) (x y : PossiblyResolved T) : comparison :=
  match x, y with
  | Unresolved u, Unresolved u' => cmp u u'
  | Unresolved _, Resolved _ => Lt
  | Resolved _, Unresolved _ => Gt
  | Resolved i, Resolved j => i ?= j
  end.

Definition partial_cmp (x y : PartiallyResolvedTriple.t) : comparison :=
  then_cmp (possibly_cmp lex_cmp (PartiallyResolvedTriple.subject x) (PartiallyResolvedTriple.subject y))
    (then_cmp (possibly_cmp lex_cmp (PartiallyResolvedTriple.predicate x) (PartiallyResolvedTriple.predicate y))
       (possibly_cmp object_type_cmp (PartiallyResolvedTriple.object x) (PartiallyResolvedTriple.object y))).

#[export] Instance PossiblyResolved_eq_dec `{EqDecision T} : EqDecision (PossiblyResolved T).
Proof. solve_decision. Defined.

#[export] Instance partial_eq_dec : EqDecision PartiallyResolvedTriple.t.
Proof. solve_decision. Defined.

(** A comparison as [Ord] asks for. *)
Class TotalCmp {A} (cmp : A -> A -> comparison) : Prop := {
  cmp_eq x y : cmp x y = Eq <-> x = y;
  cmp_opp x y : cmp y x = CompOpp (cmp x y);
  cmp_trans x y z : cmp x y = Lt -> cmp y z = Lt -> cmp x z = Lt
}.

(** [par_sort_unstable] of the rayon crate, for any type that is ordered. *)
Class RayonSort : Type := {
  par_sort {A} (cmp : A -> A -> comparison) : list A -> list A;
  par_sort_perm {A} cmp (l : list A) : par_sort cmp l ≡ₚ l;
  par_sort_ordered {A} cmp `{!TotalCmp cmp} (l : list A) : StronglySorted (fun x y => cmp x y <> Gt) (par_sort cmp l)
}.

(** [Vec::dedup]: of equal elements in a row the first stays. *)
Fixpoint dedup_from {A} `{EqDecision A} (x : A) (l : list A) : list A :=
  match l with
  | [] => []
  | y :: l => if decide (x = y) then dedup_from x l else y :: dedup_from y l
  end.

Definition dedup {A} `{EqDecision A} (l : list A) : list A :=
  match l with [] => [] | x :: l => x :: dedup_from x l end.

(** ** Cancelling *)

Definition zero_triple : PartiallyResolvedTriple.t := PartiallyResolvedTriple.mk (Resolved 0) (Resolved 0) (Resolved 0).

(** The removals from the first one on that is not less than [x]; the ones in
    front are moved to [seen]. *)
Fixpoint skip_less (x : PartiallyResolvedTriple.t) (seen rest : list PartiallyResolvedTriple.t)
    : list PartiallyResolvedTriple.t * list PartiallyResolvedTriple.t :=
  match rest with
  | [] => (seen, [])
  | y :: rest' => match partial_cmp y x with Lt => skip_less x (seen ++ [y]) rest' | _ => (seen, rest) end
  end.

(** [seen] are the removals that the iterator has passed, [rest] those it has
    not. *)
Fixpoint zero_loop (additions seen rest : list PartiallyResolvedTriple.t)
    : list PartiallyResolvedTriple.t * list PartiallyResolvedTriple.t :=
  match additions with
  | [] => ([], seen ++ rest)
  | x :: additions' =>
      match rest with
      | [] => (additions, seen)
      | _ :: _ =>
          match skip_less x seen rest with
          | (seen, []) => (additions, seen)
          | (seen, y :: rest') =>
              if decide (y = x) then
                let '(additions'', removals) := zero_loop additions' (seen ++ [zero_triple]) rest' in
                (zero_triple :: additions'', removals)
              else
                let '(additions'', removals) := zero_loop additions' seen (y :: rest') in
                (x :: additions'', removals)
          end
      end
  end.

Definition zero_equivalents (additions removals : list PartiallyResolvedTriple.t)
    : list PartiallyResolvedTriple.t * list PartiallyResolvedTriple.t := zero_loop additions [] removals.

(** ** The strings that are not known yet *)

(** The strings of the subject and the object, as far as they are unresolved
    and nodes.  Unwrapping does not panic after the test. *)
Definition unresolved_nodes_of (x : PartiallyResolvedTriple.t) : list (list N) :=
  (match PartiallyResolvedTriple.subject x with Unresolved s => [s] | Resolved _ => [] end) ++
  (match PartiallyResolvedTriple.object x with Unresolved (Node s) => [s] | _ => [] end).

Definition unresolved_predicates_of (x : PartiallyResolvedTriple.t) : list (list N) :=
  match PartiallyResolvedTriple.predicate x with Unresolved s => [s] | Resolved _ => [] end.

Definition unresolved_values_of (x : PartiallyResolvedTriple.t) : list (list N) :=
  match PartiallyResolvedTriple.object x with Unresolved (Value s) => [s] | _ => [] end.

Section simple_builder.
Context `{FramedRead} `{Log2F32} `{ParSort} `{RayonSort}.

(** A [HashSet] of strings, out of which a sorted vector is made: the order in
    which the set gives its strings does not matter. *)
Definition sorted_set (strings : list (list N)) : list (list N) := par_sort lex_cmp (remove_dups strings).

Definition collect_unresolved_strings (triples : list PartiallyResolvedTriple.t)
    : list (list N) * list (list N) * list (list N) :=
  (sorted_set (concat (unresolved_nodes_of <$> triples)),
   sorted_set (concat (unresolved_predicates_of <$> triples)),
   sorted_set (concat (unresolved_values_of <$> triples))).

(** ** The builder *)

(** The files that a commit leaves. *)
Inductive LayerMaps : Type :=
| BaseMaps (maps : BaseLayerMaps.t)
| ChildMaps (maps : ChildLayerMaps.t).
End simple_builder.

(** [map] over the triples, any of which may panic. *)
Fixpoint map_triples {A B} (f : A -> option B) (l : list A) : option (list B) :=
  match l with
  | [] => Some []
  | x :: l => y ← f x; ys ← map_triples f l; Some (y :: ys)
  end.

(** A map that is filled with the strings and their ids. *)
Fixpoint id_table (global_id : N -> option N) (strings_ids : list (list N * N)) (m : gmap (list N) N) : option (gmap (list N) N) :=
  match strings_ids with
  | [] => Some m
  | (s, id) :: strings_ids => id ← global_id id; id_table global_id strings_ids (<[s := id]> m)
  end.

Module SimpleLayerBuilder.
Section builder.
Context `{Layer L}.

(** The files are those of a base layer when there is no parent, and those of
    a child layer otherwise. *)
Record t : Type := mk {
  name : layer_name;
  parent : option L;
  additions : list StringTriple.t;
  id_additions : list IdTriple.t;
  removals : list StringTriple.t;
  id_removals : list IdTriple.t
}.

Definition new (name : layer_name) : t := mk name None [] [] [] [].

Definition from_parent (name : layer_name) (parent : L) : t := mk name (Some parent) [] [] [] [].

Definition add_string_triple (b : t) (triple : StringTriple.t) : t :=
  mk (name b) (parent b) (additions b ++ [triple]) (id_additions b) (removals b) (id_removals b).

Definition add_id_triple (b : t) (triple : IdTriple.t) : t :=
  mk (name b) (parent b) (additions b) (id_additions b ++ [triple]) (removals b) (id_removals b).

Definition remove_string_triple (b : t) (triple : StringTriple.t) : t :=
  mk (name b) (parent b) (additions b) (id_additions b) (removals b ++ [triple]) (id_removals b).

Definition remove_id_triple (b : t) (triple : IdTriple.t) : t :=
  mk (name b) (parent b) (additions b) (id_additions b) (removals b) (id_removals b ++ [triple]).

Context `{FramedRead} `{Log2F32} `{ParSort} `{RayonSort}.

(** One of the two lists of changes, as far resolved as possible, sorted and
    without duplicates. *)
Definition resolve_changes (parent : option L) (strings : list StringTriple.t) (ids : list IdTriple.t)
    : option (list PartiallyResolvedTriple.t) :=
  resolved ← (match parent with
              | None => Some (to_unresolved <$> strings)
              | Some parent => map_triples (string_triple_to_partially_resolved parent) strings
              end);
  Some (dedup (par_sort partial_cmp (resolved ++ (to_resolved <$> ids)))).

(** The triples by id. *)
Definition resolve_all (triples : list PartiallyResolvedTriple.t) (node_map predicate_map value_map : gmap (list N) N)
    : option (list IdTriple.t) :=
  add_triples ← map_triples (fun t => PartiallyResolvedTriple.resolve_with t node_map predicate_map value_map) triples;
  Some (par_sort IdTriple.cmp add_triples).

(** [filter_map(as_resolved)] *)
Fixpoint as_all_resolved (triples : list PartiallyResolvedTriple.t) : option (list IdTriple.t) :=
  match triples with
  | [] => Some []
  | x :: triples =>
      r ← PartiallyResolvedTriple.as_resolved x;
      rs ← as_all_resolved triples;
      Some (match r with Some y => y :: rs | None => rs end)
  end.

Definition commit_child (parent : L) (additions removals : list PartiallyResolvedTriple.t) : outcome io_error ChildLayerMaps.t :=
  let '(unresolved_nodes, unresolved_predicates, unresolved_values) := collect_unresolved_strings additions in
  '(node_ids, builder) ← or_panic (ChildLayerFileBuilder.add_nodes (ChildLayerFileBuilder.from_files parent) unresolved_nodes);
  '(predicate_ids, builder) ← or_panic (ChildLayerFileBuilder.add_predicates builder unresolved_predicates);
  '(value_ids, builder) ← or_panic (ChildLayerFileBuilder.add_values builder unresolved_values);
  builder ← ChildLayerFileBuilder.into_phase2 builder;
  counts ← or_panic (all_counts parent);
  parent_node_offset ← or_panic (cadd 64 (node_count counts) (value_count counts));
  node_map ← or_panic (id_table (fun id => cadd 64 id parent_node_offset) (zip unresolved_nodes node_ids) ∅);
  predicate_map ← or_panic (id_table (fun id => cadd 64 id (predicate_count counts)) (zip unresolved_predicates predicate_ids) ∅);
  value_map ← or_panic (id_table (fun id => id ← cadd 64 id parent_node_offset; cadd 64 id (N.of_nat (base.size node_map)))
    (zip unresolved_values value_ids) ∅);
  add_triples ← or_panic (resolve_all additions node_map predicate_map value_map);
  remove_triples ← or_panic (as_all_resolved removals);
  builder ← ChildLayerFileBuilderPhase2.add_id_triples builder add_triples;
  builder ← ChildLayerFileBuilderPhase2.remove_id_triples builder remove_triples;
  ChildLayerFileBuilderPhase2.finalize builder.

Definition commit_base (additions : list PartiallyResolvedTriple.t) : outcome io_error BaseLayerMaps.t :=
  let '(unresolved_nodes, unresolved_predicates, unresolved_values) := collect_unresolved_strings additions in
  '(node_ids, builder) ← or_panic (BaseLayerFileBuilder.add_nodes BaseLayerFileBuilder.from_files unresolved_nodes);
  '(predicate_ids, builder) ← or_panic (BaseLayerFileBuilder.add_predicates builder unresolved_predicates);
  '(value_ids, builder) ← or_panic (BaseLayerFileBuilder.add_values builder unresolved_values);
  builder ← BaseLayerFileBuilder.into_phase2 builder;
  node_map ← or_panic (id_table Some (zip unresolved_nodes node_ids) ∅);
  predicate_map ← or_panic (id_table Some (zip unresolved_predicates predicate_ids) ∅);
  value_map ← or_panic (id_table (fun id => cadd 64 id (N.of_nat (base.size node_map))) (zip unresolved_values value_ids) ∅);
  add_triples ← or_panic (resolve_all additions node_map predicate_map value_map);
  builder ← BaseLayerFileBuilderPhase2.add_id_triples builder add_triples;
  BaseLayerFileBuilderPhase2.finalize builder.

Definition commit (b : t) : outcome io_error LayerMaps :=
  additions ← or_panic (resolve_changes (parent b) (additions b) (id_additions b));
  removals ← or_panic (resolve_changes (parent b) (removals b) (id_removals b));
  let '(additions, removals) := zero_equivalents additions removals in
  match parent b with
  | Some parent =>
      maps ← commit_child parent additions (PartiallyResolvedTriple.make_resolved_or_zero <$> removals);
      Ok (ChildMaps maps)
  | None =>
      maps ← commit_base additions;
      Ok (BaseMaps maps)
  end.
End builder.
Arguments t : clear implicits.
End SimpleLayerBuilder.

(** ** Comparisons *)

Lemma then_cmp_Eq c d : then_cmp c d = Eq <-> c = Eq /\ d = Eq.
Proof. destruct c; cbn; intuition congruence. Qed.

Lemma then_cmp_opp c d : CompOpp (then_cmp c d) = then_cmp (CompOpp c) (CompOpp d).
Proof. by destruct c. Qed.

Lemma then_cmp_trans {A} (cmp : A -> A -> comparison) `{!TotalCmp cmp} x y z d d' d'' :
  then_cmp (cmp x y) d = Lt -> then_cmp (cmp y z) d' = Lt -> (d = Lt -> d' = Lt -> d'' = Lt) -> then_cmp (cmp x z) d'' = Lt.
Proof.
  intros H1 H2 Hd. destruct (cmp x y) eqn:E1, (cmp y z) eqn:E2; cbn in H1, H2; try done.
  - apply cmp_eq in E1 as ->. apply cmp_eq in E2 as ->. rewrite (proj2 (cmp_eq z z) eq_refl). by apply Hd.
  - apply cmp_eq in E1 as ->. by rewrite E2.
  - apply cmp_eq in E2 as ->. by rewrite E1.
  - by rewrite (cmp_trans x y z).
Qed.

#[export] Instance N_total_cmp : TotalCmp N.compare.
Proof.
  split; [exact N.compare_eq_iff|intros x y; apply N.compare_antisym|]. intros x y z. rewrite !N.compare_lt_iff. lia.
Qed.

#[export] Instance lex_total_cmp : TotalCmp lex_cmp.
Proof. split; [exact lex_cmp_eq|intros l k; apply lex_cmp_opp|exact lex_lt_trans]. Qed.

#[export] Instance object_total_cmp : TotalCmp object_type_cmp.
Proof.
  split; [intros [s|s] [t|t]|intros [s|s] [t|t]|intros [s|s] [t|t] [u|u]]; cbn [object_type_cmp]; try done.
  - rewrite lex_cmp_eq. split; [by intros ->|by intros [= ->]].
  - rewrite lex_cmp_eq. split; [by intros ->|by intros [= ->]].
  - apply lex_cmp_opp.
  - apply lex_cmp_opp.
  - apply lex_lt_trans.
  - apply lex_lt_trans.
Qed.

#[export] Instance possibly_total_cmp {T} (cmp : T -> T -> comparison) `{!TotalCmp cmp} : TotalCmp (possibly_cmp cmp).
Proof.
  split; [intros [s|i] [t|j]|intros [s|i] [t|j]|intros [s|i] [t|j] [u|k]]; cbn [possibly_cmp]; try done.
  - rewrite cmp_eq. split; [by intros ->|by intros [= ->]].
  - rewrite N.compare_eq_iff. split; [by intros ->|by intros [= ->]].
  - apply cmp_opp.
  - apply N.compare_antisym.
  - apply cmp_trans.
  - rewrite !N.compare_lt_iff. lia.
Qed.

#[export] Instance partial_total_cmp : TotalCmp partial_cmp.
Proof.
  unfold partial_cmp. split.
  - intros [s p o] [s' p' o']. cbn. rewrite !then_cmp_Eq, !cmp_eq. split; [by intros (-> & -> & ->)|by intros [= -> -> ->]].
  - intros [s p o] [s' p' o']. cbn. rewrite !then_cmp_opp. by rewrite (@cmp_opp _ (possibly_cmp lex_cmp) _ s s'), (@cmp_opp _ (possibly_cmp lex_cmp) _ p p'),
      (@cmp_opp _ (possibly_cmp object_type_cmp) _ o o').
  - intros [s p o] [s' p' o'] [s'' p'' o'']. cbn. intros H1 H2. apply (then_cmp_trans (possibly_cmp lex_cmp) _ _ _ _ _ _ H1 H2).
    clear H1 H2. intros H1 H2. apply (then_cmp_trans (possibly_cmp lex_cmp) _ _ _ _ _ _ H1 H2). apply cmp_trans.
Qed.

#[export] Instance triple_total_cmp : TotalCmp IdTriple.cmp.
Proof.
  split; [exact triple_cmp_eq| |].
  - intros x y. unfold IdTriple.cmp. rewrite (N.compare_antisym (IdTriple.subject x)), (N.compare_antisym (IdTriple.predicate x)),
      (N.compare_antisym (IdTriple.object x)).
    by destruct (IdTriple.subject x ?= IdTriple.subject y), (IdTriple.predicate x ?= IdTriple.predicate y),
      (IdTriple.object x ?= IdTriple.object y).
  - intros x y z H1 H2. exact (StrictOrder_Transitive (R := triple_lt) x y z H1 H2).
Qed.

Section sorted.
Context {A : Type} (cmp : A -> A -> comparison) `{!TotalCmp cmp}.

Lemma cmp_refl x : cmp x x = Eq.
Proof using All. by apply cmp_eq. Qed.

Lemma cmp_Gt x y : cmp x y = Gt <-> cmp y x = Lt.
Proof using All. rewrite (@cmp_opp _ cmp _ x y). by destruct (cmp x y). Qed.

Abbreviation lt := (fun x y => cmp x y = Lt).

Lemma cmp_sorted_head x l : StronglySorted lt (x :: l) -> x ∉ l.
Proof using All. intros [_ H]%StronglySorted_inv Hin. rewrite Forall_forall in H. specialize (H x Hin). by rewrite cmp_refl in H. Qed.

Lemma cmp_sorted_nodup l : StronglySorted lt l -> NoDup l.
Proof using All. induction 1 as [|x l Hs IH Hx]; constructor; [|done]. apply (cmp_sorted_head x l). by constructor. Qed.

Context `{EqDecision A}.

Lemma dedup_from_spec l : forall x, StronglySorted (fun x y => cmp x y <> Gt) (x :: l) ->
  StronglySorted lt (x :: dedup_from x l) /\ forall y, y ∈ x :: dedup_from x l <-> y ∈ x :: l.
Proof using TotalCmp0.
  induction l as [|z l IH]; intros x Hs; [split; [repeat constructor|done]|]. cbn [dedup_from].
  apply StronglySorted_inv in Hs as [Hs Hx]. apply Forall_cons in Hx as [Hxz Hxl]. destruct (decide (x = z)) as [<-|Hne].
  - destruct (IH x Hs) as [IH1 IH2]. split; [done|]. intros y. rewrite IH2, !elem_of_cons. tauto.
  - destruct (IH z Hs) as [IH1 IH2]. assert (Hlt : cmp x z = Lt).
    { destruct (cmp x z) eqn:E; [by apply cmp_eq in E|done|done]. }
    split; [|intros y; by rewrite elem_of_cons, IH2, <- elem_of_cons]. constructor; [done|]. constructor; [done|].
    apply Forall_forall. intros y Hy. apply StronglySorted_inv in IH1 as [_ Hz]. rewrite Forall_forall in Hz. by apply (cmp_trans x z y), Hz.
Qed.

Lemma dedup_spec l : StronglySorted (fun x y => cmp x y <> Gt) l ->
  StronglySorted lt (dedup l) /\ forall y, y ∈ dedup l <-> y ∈ l.
Proof using TotalCmp0. destruct l as [|x l]; [split; [constructor|done]|]. apply dedup_from_spec. Qed.

Lemma cmp_sorted_strict l : StronglySorted (fun x y => cmp x y <> Gt) l -> NoDup l -> StronglySorted lt l.
Proof using TotalCmp0.
  induction 1 as [|x k Hs IH Hx]; intros Hn; [constructor|]. apply NoDup_cons in Hn as [Hxk Hn]. constructor; [by apply IH|].
  apply Forall_forall. intros y Hy. rewrite Forall_forall in Hx. specialize (Hx y Hy). destruct (cmp x y) eqn:E; [|done|done].
  apply cmp_eq in E as ->. done.
Qed.

(** Sorting a list without duplicates. *)
Lemma sort_nodup `{RayonSort} l : NoDup l -> StronglySorted lt (par_sort cmp l).
Proof using TotalCmp0. intros Hn. apply cmp_sorted_strict; [by apply par_sort_ordered|]. by rewrite (par_sort_perm cmp l). Qed.

Lemma sort_elem `{RayonSort} l x : x ∈ par_sort cmp l <-> x ∈ l.
Proof. by rewrite (par_sort_perm cmp l). Qed.

Lemma sort_dedup `{RayonSort} l : StronglySorted lt (dedup (par_sort cmp l)) /\ forall x, x ∈ dedup (par_sort cmp l) <-> x ∈ l.
Proof using TotalCmp0.
  destruct (dedup_spec (par_sort cmp l) (par_sort_ordered cmp l)) as [H1 H2]. split; [done|]. intros x. by rewrite H2, sort_elem.
Qed.
End sorted.

Lemma sorted_set_spec `{RayonSort} ss : StronglySorted lex_lt (sorted_set ss) /\ forall s, s ∈ sorted_set ss <-> s ∈ ss.
Proof.
  split; [apply (sort_nodup lex_cmp), NoDup_remove_dups|]. intros s. unfold sorted_set. by rewrite sort_elem, elem_of_remove_dups.
Qed.

(** ** Cancelling *)

(** [x], or a zero when it is in the other list. *)
Definition cancelled (others : list PartiallyResolvedTriple.t) (x : PartiallyResolvedTriple.t) : PartiallyResolvedTriple.t :=
  if decide (x ∈ others) then zero_triple else x.

Abbreviation partial_sorted := (StronglySorted (fun x y => partial_cmp x y = Lt)).

Lemma skip_less_spec x : forall rest seen, partial_sorted rest ->
  exists less rest', rest = less ++ rest' /\ skip_less x seen rest = (seen ++ less, rest') /\
    Forall (fun y => partial_cmp y x = Lt) less /\
    match rest' with [] => True | y :: _ => partial_cmp y x <> Lt end.
Proof.
  induction rest as [|y rest IH]; intros seen Hs.
  { exists [], []. cbn [app skip_less]. rewrite app_nil_r. repeat split; constructor. }
  cbn [skip_less]. assert (Hstop : partial_cmp y x <> Lt -> exists less rest', y :: rest = less ++ rest' /\
    (seen, y :: rest) = (seen ++ less, rest') /\ Forall (fun y => partial_cmp y x = Lt) less /\
    match rest' with [] => True | y :: _ => partial_cmp y x <> Lt end).
  { intros Hy. exists [], (y :: rest). cbn [app]. rewrite app_nil_r. split; [done|]. split; [done|]. split; [constructor|done]. }
  destruct (partial_cmp y x) eqn:E; [by apply Hstop| |by apply Hstop].
  apply StronglySorted_inv in Hs as [Hs _]. destruct (IH (seen ++ [y]) Hs) as (less & rest' & -> & -> & Hl & Hr).
  exists (y :: less), rest'. rewrite <- app_assoc. split; [done|]. split; [done|]. split; [by constructor|done].
Qed.

Lemma cancelled_none others l : Forall (fun x => x ∉ others) l -> cancelled others <$> l = l.
Proof. induction 1 as [|x l Hx _ IH]; [done|]. cbn [fmap list_fmap]. unfold cancelled at 1. by rewrite decide_False, IH. Qed.

(** What is less than all of a sorted list is not in it. *)
Lemma less_not_in x l less : partial_sorted (x :: l) -> Forall (fun y => partial_cmp y x = Lt) less -> Forall (fun y => y ∉ x :: l) less.
Proof.
  intros [_ Hx]%StronglySorted_inv Hl. eapply Forall_impl; [exact Hl|]. intros y Hy [->|Hin]%elem_of_cons.
  - by rewrite (cmp_refl partial_cmp) in Hy.
  - rewrite Forall_forall in Hx. pose proof (cmp_trans y x y Hy (Hx y Hin)) as H. by rewrite (cmp_refl partial_cmp) in H.
Qed.

Lemma cancelled_ext others others' l : Forall (fun x => x ∈ others <-> x ∈ others') l -> cancelled others <$> l = cancelled others' <$> l.
Proof.
  induction 1 as [|x l Hx _ IH]; [done|]. cbn [fmap list_fmap]. rewrite IH. f_equal. unfold cancelled.
  destruct (decide (x ∈ others)), (decide (x ∈ others')); tauto.
Qed.

Lemma zero_loop_spec adds : forall seen rest, partial_sorted adds -> partial_sorted rest ->
  zero_loop adds seen rest = (cancelled rest <$> adds, seen ++ (cancelled adds <$> rest)).
Proof.
  induction adds as [|x adds IH]; intros seen rest Ha Hr.
  { cbn [zero_loop]. f_equal. f_equal. symmetry. apply cancelled_none, Forall_forall. intros ? _. by intros ?%elem_of_nil. }
  cbn [zero_loop]. destruct rest as [|y rest'] eqn:Erest.
  { cbn [fmap list_fmap]. rewrite app_nil_r. f_equal. symmetry. apply (cancelled_none [] (x :: adds)).
    apply Forall_forall. intros ? _. by intros ?%elem_of_nil. }
  rewrite <- Erest in *. destruct (skip_less_spec x rest seen Hr) as (less & rest1 & -> & -> & Hless & Hstop). clear Erest.
  pose proof (less_not_in _ _ _ Ha Hless) as Hout. rewrite Forall_forall in Hout.
  assert (Hskip : cancelled (x :: adds) <$> less = less) by (apply cancelled_none; by apply Forall_forall).
  assert (Hless' : forall z rest, z ∈ x :: adds -> (z ∈ less ++ rest <-> z ∈ rest)).
  { intros z r Hz. rewrite elem_of_app. split; [|by right]. intros [Hl|?]; [|done]. by destruct (Hout z Hl). }
  pose proof (cmp_sorted_head partial_cmp x adds Ha) as Hxa. apply StronglySorted_inv in Ha as [Ha Hxs].
  rewrite fmap_app, Hskip. destruct rest1 as [|y' rest1]; [|clear y rest'; rename y' into y].
  - cbn [fmap list_fmap]. rewrite !app_nil_r. f_equal. symmetry. apply (cancelled_none less (x :: adds)).
    apply Forall_forall. intros z Hz. specialize (Hless' z [] Hz). rewrite app_nil_r in Hless'. rewrite Hless'. apply not_elem_of_nil.
  - apply StronglySorted_app_r in Hr. destruct (decide (y = x)) as [->|Hne].
    + pose proof (cmp_sorted_head partial_cmp x rest1 Hr) as Hxr. apply StronglySorted_inv in Hr as [Hr _]. rewrite IH by done.
      rewrite <- !app_assoc. cbn [app fmap list_fmap]. f_equal; [f_equal|do 2 f_equal; f_equal].
      * unfold cancelled. rewrite decide_True; [done|]. apply elem_of_app. right. left.
      * apply cancelled_ext, Forall_forall. intros z Hz. rewrite Hless', elem_of_cons by by right. split; [by right|].
        intros [->|?]; done.
      * unfold cancelled. rewrite decide_True; [done|left].
      * apply cancelled_ext, Forall_forall. intros z Hz. rewrite elem_of_cons. split; [by right|]. intros [->|?]; done.
    + assert (Hlt : partial_cmp x y = Lt).
      { destruct (partial_cmp x y) eqn:E; [apply cmp_eq in E; congruence|done|]. by apply (cmp_Gt partial_cmp) in E. }
      assert (Hxr : x ∉ y :: rest1).
      { pose proof (less_not_in y rest1 [x] Hr ltac:(by constructor)) as Hn. by apply Forall_inv in Hn. }
      rewrite IH by done. rewrite <- !app_assoc. cbn [fmap list_fmap]. f_equal; [f_equal|do 2 f_equal].
      * unfold cancelled. rewrite decide_False; [done|]. rewrite Hless' by left. done.
      * apply cancelled_ext, Forall_forall. intros z Hz. rewrite Hless' by by right. done.
      * apply (cancelled_ext adds (x :: adds) (y :: rest1)), Forall_forall. intros z Hz. rewrite elem_of_cons. split; [by right|].
        intros [->|?]; done.
Qed.

(** What is in both lists is cancelled in both. *)
Lemma zero_equivalents_spec adds rems : partial_sorted adds -> partial_sorted rems ->
  zero_equivalents adds rems = (cancelled rems <$> adds, cancelled adds <$> rems).
Proof. intros Ha Hr. unfold zero_equivalents. by rewrite zero_loop_spec. Qed.
