(* ===== verification/Commits.v ===== *)
(** * What a commit of the simple builder makes (src/layer/simple_builder.rs)

    A committed layer has exactly the string triples that were asked for: those
    of the parent and the added ones, less the removed ones, where adding and
    removing the same triple leaves it as it was in the parent. *)

From stdpp Require Import gmap.
From S2P Require Import Prelude.
From S2P Require Import Words.
From S2P Require Import Codec.
From S2P Require Import Strings.
From S2P Require Import LogArrays.
From S2P Require Import WaveletTrees.
From S2P Require Import PfcBlocks.
From S2P Require Import PfcDicts.
From S2P Require Import DictMerge.
From S2P Require Import LayerTypes.
From S2P Require Import LayerModel.
From S2P Require Import Triples.
From S2P Require Import TripleBuilder.
From S2P Require Import IdMaps.
From S2P Require Import Iterators.
From S2P Require Import Stacks.
From S2P Require Import InternalLayers.
From S2P Require Import LayerNames.
From S2P Require Import LayerTriples.
From S2P Require Import LayerRefinement.
From S2P Require Import LayerBuilders.
From S2P Require Import BuiltLayers.
From S2P Require Import Rollups.
From S2P Require Import SimpleBuilder.
Open Scope N_scope.

(** ** Resolution *)

(** What the commit of a base layer starts from. *)
Definition empty_model : layer_model := mk_model [] [] [].

Lemma empty_model_ok : model_ok empty_model.
Proof. split; constructor. Qed.

(** [r] is [u], as far resolved as the entries allow. *)
Definition resolution {T A} (E : list A) (entry : T -> A) (u : T) (r : PossiblyResolved T) : Prop :=
  match r with
  | Unresolved u' => u' = u /\ entry u ∉ E
  | Resolved id => at_id E id = Some (entry u)
  end.

Record resolves (m : layer_model) (x : StringTriple.t) (p : PartiallyResolvedTriple.t) : Prop := {
  resolves_subject : resolution (model_entries m) Node (StringTriple.subject x) (PartiallyResolvedTriple.subject p);
  resolves_predicate : resolution (model_predicates m) (fun s => s) (StringTriple.predicate x) (PartiallyResolvedTriple.predicate p);
  resolves_object : resolution (model_entries m) (fun o => o) (StringTriple.object x) (PartiallyResolvedTriple.object p)
}.

(** [r] is resolved to a known id, or a string without one. *)
Definition part_ok {T A} (E : list A) (entry : T -> A) (r : PossiblyResolved T) : Prop :=
  match r with
  | Unresolved u => entry u ∉ E
  | Resolved id => is_Some (at_id E id)
  end.

Record partial_ok (m : layer_model) (p : PartiallyResolvedTriple.t) : Prop := {
  ok_subject : part_ok (model_entries m) Node (PartiallyResolvedTriple.subject p);
  ok_predicate : part_ok (model_predicates m) (fun s => s) (PartiallyResolvedTriple.predicate p);
  ok_object : part_ok (model_entries m) (fun o => o) (PartiallyResolvedTriple.object p)
}.

(** [id] is what [r] comes to among all entries. *)
Definition meets_part {T A} (E : list A) (entry : T -> A) (r : PossiblyResolved T) (id : N) : Prop :=
  match r with
  | Unresolved u => at_id E id = Some (entry u)
  | Resolved i => id = i
  end.

Record meets (m : layer_model) (p : PartiallyResolvedTriple.t) (t : IdTriple.t) : Prop := {
  meets_subject : meets_part (model_entries m) Node (PartiallyResolvedTriple.subject p) (IdTriple.subject t);
  meets_predicate : meets_part (model_predicates m) (fun s => s) (PartiallyResolvedTriple.predicate p) (IdTriple.predicate t);
  meets_object : meets_part (model_entries m) (fun o => o) (PartiallyResolvedTriple.object p) (IdTriple.object t)
}.

(** All ids of the triple are in use. *)
Definition known (m : layer_model) (t : IdTriple.t) : Prop :=
  is_Some (at_id (model_entries m) (IdTriple.subject t)) /\ is_Some (at_id (model_predicates m) (IdTriple.predicate t)) /\
  is_Some (at_id (model_entries m) (IdTriple.object t)).

(** [m'] has the ids of [m] and more. *)
Record extends (m m' : layer_model) : Prop := {
  extends_entries id x : at_id (model_entries m) id = Some x -> at_id (model_entries m') id = Some x;
  extends_predicates id s : at_id (model_predicates m) id = Some s -> at_id (model_predicates m') id = Some s;
  extended_ok : model_ok m'
}.

Section parts.
Context {T A : Type} `{EqDecision A} (E E' : list A) (entry : T -> A).
Hypothesis entry_inj : Inj eq eq entry.
Hypothesis E_E' : forall id x, at_id E id = Some x -> at_id E' id = Some x.
Hypothesis E'_nodup : NoDup E'.

Lemma E_nodup_ids i j x : at_id E i = Some x -> at_id E j = Some x -> i = j.
Proof using E_E' E'_nodup. intros Hi%E_E' Hj%E_E'. by eapply at_id_inj. Qed.

Lemma resolution_total u : exists r, resolution E entry u r.
Proof using EqDecision0.
  destruct (decide (entry u ∈ E)) as [Hin|Hn]; [|by exists (Unresolved u)]. destruct (elem_at_id _ _ Hin) as [id Hid]. by exists (Resolved id).
Qed.

Lemma resolution_unique u r r' : resolution E entry u r -> resolution E entry u r' -> r = r'.
Proof using E_E' E'_nodup.
  destruct r as [v|i], r' as [w|j]; cbn.
  - by intros [-> _] [-> _].
  - by intros [_ Hn] Hj%at_id_elem.
  - by intros Hi%at_id_elem [_ Hn].
  - intros Hi Hj. f_equal. by eapply E_nodup_ids.
Qed.

Lemma resolution_inj u v r : resolution E entry u r -> resolution E entry v r -> u = v.
Proof using entry_inj. destruct r as [w|i]; cbn; [by intros [<- _] [<- _]|]. intros H1 H2. rewrite H1 in H2. injection H2 as H2. by apply entry_inj. Qed.

Lemma resolution_ok u r : resolution E entry u r -> part_ok E entry r.
Proof using. destruct r as [w|i]; cbn; [by intros [-> ?]|by eexists]. Qed.

(** What a resolution comes to is the id of the string. *)
Lemma resolution_meets u r id : resolution E entry u r -> (meets_part E' entry r id <-> at_id E' id = Some (entry u)).
Proof using E_E' E'_nodup.
  destruct r as [w|i]; cbn; [by intros [-> _]|]. intros Hi%E_E'. split; [by intros ->|]. intros Hid. by eapply at_id_inj.
Qed.

Lemma meets_part_unique r i j : meets_part E' entry r i -> meets_part E' entry r j -> i = j.
Proof using E'_nodup. destruct r as [w|k]; cbn; [|by intros -> ->]. intros Hi Hj. by eapply at_id_inj. Qed.

Lemma meets_part_inj r r' id : part_ok E entry r -> part_ok E entry r' -> meets_part E' entry r id -> meets_part E' entry r' id -> r = r'.
Proof using entry_inj E_E'.
  destruct r as [v|i], r' as [w|j]; cbn; intros Hr Hr' H1 H2.
  - rewrite H1 in H2. injection H2 as H2. f_equal. by apply entry_inj.
  - subst j. destruct Hr' as [x Hx]. pose proof (E_E' _ _ Hx) as Hx'. rewrite H1 in Hx'. injection Hx' as <-. by apply at_id_elem in Hx.
  - subst i. destruct Hr as [x Hx]. pose proof (E_E' _ _ Hx) as Hx'. rewrite H2 in Hx'. injection Hx' as <-. by apply at_id_elem in Hx.
  - by subst.
Qed.

Lemma meets_part_id r id : part_ok E entry r -> meets_part E' entry r id -> is_Some (at_id E' id).
Proof using E_E'. destruct r as [v|i]; cbn; [by intros _ ->|]. intros [x Hx] ->. exists x. by apply E_E'. Qed.
End parts.

#[export] Instance value_inj : Inj (=) (=) Value.
Proof. by intros x y [= ->]. Qed.

#[export] Instance node_inj : Inj (=) (=) Node.
Proof. by intros x y [= ->]. Qed.

Lemma resolves_total m x : exists p, resolves m x p.
Proof.
  destruct (resolution_total (model_entries m) Node (StringTriple.subject x)) as [s Hs].
  destruct (resolution_total (model_predicates m) (fun s => s) (StringTriple.predicate x)) as [p Hp].
  destruct (resolution_total (model_entries m) (fun o => o) (StringTriple.object x)) as [o Ho].
  by exists (PartiallyResolvedTriple.mk s p o).
Qed.

Lemma resolves_inj m x y p : resolves m x p -> resolves m y p -> x = y.
Proof.
  intros [H1 H2 H3] [H1' H2' H3']. destruct x as [xs xp xo], y as [ys yp yo]. cbn in *.
  f_equal; [eapply (resolution_inj _ Node)|eapply (resolution_inj _ (fun s => s))|eapply (resolution_inj _ (fun o => o))]; try done; apply _.
Qed.

Lemma resolves_ok m x p : resolves m x p -> partial_ok m p.
Proof. intros [H1 H2 H3]. split; by eapply resolution_ok. Qed.

Lemma known_ok m t : known m t -> partial_ok m (to_resolved t).
Proof. by intros (H1 & H2 & H3). Qed.

(** By [denotes], a triple of ids is that of a string triple. *)
Lemma denotes_known m t x : denotes m t x -> known m t.
Proof. intros (H1 & H2 & H3). by split; [|split]; eexists. Qed.

Lemma denotes_fun m t x y : denotes m t x -> denotes m t y -> x = y.
Proof.
  intros (H1 & H2 & H3) (H1' & H2' & H3'). destruct x as [s p o], y as [s' p' o']. cbn in *. congruence.
Qed.

Lemma known_real m t : known m t -> real_triple t.
Proof. intros ([x Hx%at_id_Some] & [y Hy%at_id_Some] & [z Hz%at_id_Some]). unfold real_triple. lia. Qed.

Section extended.
Context (m m' : layer_model) (Hext : extends m m').

Let He := extends_entries m m' Hext.
Let Hp := extends_predicates m m' Hext.
Let Hne := entries_nodup m' (extended_ok m m' Hext).
Let Hnp := predicates_nodup m' (extended_ok m m' Hext).

Lemma resolves_fun x p p' : resolves m x p -> resolves m x p' -> p = p'.
Proof using All.
  intros [H1 H2 H3] [H1' H2' H3']. destruct p as [s q o], p' as [s' q' o']. cbn in *.
  f_equal; [by eapply (resolution_unique _ _ _ He Hne)|by eapply (resolution_unique _ _ _ Hp Hnp)|by eapply (resolution_unique _ _ _ He Hne)].
Qed.

(** A resolved string triple comes to the triple of its ids. *)
Lemma meets_denotes x p t : resolves m x p -> (meets m' p t <-> denotes m' t x).
Proof using All.
  intros [H1 H2 H3]. pose proof (resolution_meets _ _ _ He Hne _ _ (IdTriple.subject t) H1) as E1.
  pose proof (resolution_meets _ _ _ Hp Hnp _ _ (IdTriple.predicate t) H2) as E2.
  pose proof (resolution_meets _ _ _ He Hne _ _ (IdTriple.object t) H3) as E3.
  unfold denotes. rewrite <- E1, <- E2, <- E3. split; [by intros []|by intros (? & ? & ?)].
Qed.

Lemma meets_resolved t t' : meets m' (to_resolved t) t' <-> t' = t.
Proof using.
  destruct t as [s p o], t' as [s' p' o']. split; [|by intros [= -> -> ->]; split]. intros [H1 H2 H3]. cbn in *. congruence.
Qed.

Lemma meets_unique p t t' : meets m' p t -> meets m' p t' -> t = t'.
Proof using All.
  intros [H1 H2 H3] [H1' H2' H3']. destruct t as [s q o], t' as [s' q' o']. cbn in *.
  f_equal; [by eapply (meets_part_unique _ _ Hne)|by eapply (meets_part_unique _ _ Hnp)|by eapply (meets_part_unique _ _ Hne)].
Qed.

Lemma meets_inj p p' t : partial_ok m p -> partial_ok m p' -> meets m' p t -> meets m' p' t -> p = p'.
Proof using All.
  intros [A1 A2 A3] [B1 B2 B3] [C1 C2 C3] [D1 D2 D3]. destruct p as [s q o], p' as [s' q' o']. cbn in *. f_equal.
  - by apply (meets_part_inj _ _ Node _ He s s' (IdTriple.subject t)).
  - by apply (meets_part_inj _ _ (fun s => s) _ Hp q q' (IdTriple.predicate t)).
  - by apply (meets_part_inj _ _ (fun o => o) _ He o o' (IdTriple.object t)).
Qed.

Lemma meets_known p t : partial_ok m p -> meets m' p t -> known m' t.
Proof using All.
  intros [A1 A2 A3] [C1 C2 C3]. split; [|split].
  - exact (meets_part_id _ _ Node He _ _ A1 C1).
  - exact (meets_part_id _ _ (fun s => s) Hp _ _ A2 C2).
  - exact (meets_part_id _ _ (fun o => o) He _ _ A3 C3).
Qed.

Lemma denotes_extends t x : denotes m t x -> denotes m' t x.
Proof using All. intros (H1 & H2 & H3). by split; [apply He|split; [apply Hp|apply He]]. Qed.

Lemma denotes_restrict t x : known m t -> denotes m' t x -> denotes m t x.
Proof using All.
  intros ([a Ha] & [b Hb] & [c Hc]) (H1 & H2 & H3). pose proof (He _ _ Ha) as Ha'. pose proof (Hp _ _ Hb) as Hb'. pose proof (He _ _ Hc) as Hc'.
  rewrite H1 in Ha'. rewrite H2 in Hb'. rewrite H3 in Hc'. injection Ha' as <-. injection Hb' as <-. injection Hc' as <-. by split; [|split].
Qed.

Lemma resolves_resolved t x : denotes m t x -> resolves m x (to_resolved t).
Proof using. intros (H1 & H2 & H3). by split. Qed.

(** ** The changes of a builder *)

(** The triples that a list of strings and a list of ids name. *)
Definition named (strings : list StringTriple.t) (ids : list IdTriple.t) (x : StringTriple.t) : Prop :=
  x ∈ strings \/ exists t, t ∈ ids /\ denotes m t x.

Definition change_of (strings : list StringTriple.t) (ids : list IdTriple.t) (p : PartiallyResolvedTriple.t) : Prop :=
  (exists x, x ∈ strings /\ resolves m x p) \/ (exists t, t ∈ ids /\ p = to_resolved t).

Lemma change_named strings ids x p : resolves m x p -> (change_of strings ids p <-> named strings ids x).
Proof using All.
  intros Hx. split.
  - intros [(y & Hy & Hr)|(t & Ht & ->)]; [left; by rewrite (resolves_inj m x y p Hx Hr)|]. right. exists t. split; [done|].
    destruct Hx as [H1 H2 H3]. by split; [|split].
  - intros [Hin|(t & Ht & Hd)]; [left; by exists x|]. right. exists t. split; [done|].
    exact (resolves_fun x _ _ Hx (resolves_resolved t x Hd)).
Qed.

(** A change that comes to the ids of [x] is the resolution of [x]. *)
Lemma change_denotes strings ids p t x : Forall (known m) ids -> change_of strings ids p -> meets m' p t -> denotes m' t x -> resolves m x p.
Proof using All.
  intros Hk [(y & Hy & Hr)|(t0 & Ht & ->)] Hm Hd.
  - apply (meets_denotes y p t Hr) in Hm. by rewrite (denotes_fun m' t x y Hd Hm).
  - apply meets_resolved in Hm as ->. apply resolves_resolved, denotes_restrict; [|done]. rewrite Forall_forall in Hk. by apply Hk.
Qed.

Lemma change_ok strings ids p : Forall (known m) ids -> change_of strings ids p -> partial_ok m p.
Proof using.
  intros Hk [(y & Hy & Hr)|(t0 & Ht & ->)]; [by eapply resolves_ok|]. apply known_ok. rewrite Forall_forall in Hk. by apply Hk.
Qed.
End extended.

(** ** Tables of ids *)

Lemma id_table_spec g off : forall (ss : list (list N)) a tbl, NoDup ss -> Forall (fun s => tbl !! s = None) ss ->
  (forall id, a <= id -> id < a + lenN ss -> g id = Some (id + off)) ->
  exists tbl', id_table g (zip ss (seqN a (lenN ss))) tbl = Some tbl' /\
    (forall i s, ss.[i] = Some s -> tbl' !! s = Some (a + i + off)) /\ (forall s, s ∉ ss -> tbl' !! s = tbl !! s) /\
    N.of_nat (base.size tbl') = N.of_nat (base.size tbl) + lenN ss.
Proof.
  induction ss as [|s ss IH]; intros a tbl Hn Hf Hg.
  { exists tbl. split; [done|]. split; [intros i s Hi; by rewrite nget_nil in Hi|]. split; [done|]. rewrite lenN_nil. lia. }
  rewrite lenN_cons in *. apply NoDup_cons in Hn as [Hs Hn]. apply Forall_cons in Hf as [Hts Hf].
  rewrite seqN_cons by lia. replace (1 + lenN ss - 1) with (lenN ss) by lia. cbn [zip zip_with id_table]. rewrite Hg by lia. rewrite bind_Some_eq.
  destruct (IH (a + 1) (<[s := a + off]> tbl) Hn) as (tbl' & -> & Hin & Hout & Hsz).
  { rewrite Forall_forall in Hf |- *. intros s' Hs'. rewrite lookup_insert_ne; [by apply Hf|]. intros ->. done. }
  { intros id H1 H2. apply Hg; lia. }
  exists tbl'. split; [done|]. split; [|split].
  - intros i s' Hi. destruct (N.eq_dec i 0) as [->|Hi0].
    + rewrite nget_cons_0 in Hi. injection Hi as <-. rewrite Hout by done. rewrite lookup_insert_eq. f_equal. lia.
    + rewrite nget_cons_pos in Hi by lia. rewrite (Hin _ _ Hi). f_equal. lia.
  - intros s' Hs'. rewrite not_elem_of_cons in Hs'. destruct Hs' as [Hne Hs']. rewrite Hout by done. by rewrite lookup_insert_ne.
  - rewrite Hsz, map_size_insert_None by done. lia.
Qed.

Lemma at_id_app_r {A} (E F : list A) i x : F.[i] = Some x -> at_id (E ++ F) (1 + i + lenN E) = Some x.
Proof.
  intros Hi. apply at_id_Some. split; [lia|]. rewrite nget_app_r by lia. rewrite <- Hi. f_equal. lia.
Qed.

(** The table of the new strings gives their ids. *)
Lemma id_table_ids {A} (E before after : list A) (entry : list N -> A) (ss : list (list N)) g :
  NoDup ss -> (forall id, 1 <= id -> id <= lenN ss -> g id = Some (id + lenN (E ++ before))) ->
  exists tbl, id_table g (zip ss (seqN 1 (lenN ss))) ∅ = Some tbl /\ N.of_nat (base.size tbl) = lenN ss /\
    forall s, s ∈ ss -> exists id, tbl !! s = Some id /\ at_id (E ++ before ++ (entry <$> ss) ++ after) id = Some (entry s).
Proof.
  intros Hn Hg. destruct (id_table_spec g (lenN (E ++ before)) ss 1 ∅ Hn) as (tbl & Ht & Hin & _ & Hsz).
  - apply Forall_forall. intros s _. apply lookup_empty.
  - intros id H1 H2. apply Hg; lia.
  - exists tbl. split; [done|]. split; [rewrite Hsz, map_size_empty; lia|]. intros s [i Hi]%elem_nget. exists (1 + i + lenN (E ++ before)).
    split; [by apply Hin|]. rewrite app_assoc. apply at_id_app_r. rewrite nget_app_l, nget_map, Hi; [done|].
    rewrite lenN_map. by eapply nget_Some_lt.
Qed.

Lemma map_triples_spec {A B} (R : A -> B -> Prop) (f : A -> option B) l : (forall x, x ∈ l -> exists y, f x = Some y /\ R x y) ->
  exists ys, map_triples f l = Some ys /\ Forall2 R l ys.
Proof.
  induction l as [|x l IH]; intros Hf; [by exists []|]. destruct (Hf x ltac:(left)) as (y & Hy & HR).
  destruct IH as (ys & Hys & HRs); [intros z Hz; apply Hf; by right|]. exists (y :: ys). cbn [map_triples].
  rewrite Hy, bind_Some_eq, Hys. split; [done|by constructor].
Qed.

Lemma Forall2_elem_l {A B} (R : A -> B -> Prop) l k x : Forall2 R l k -> x ∈ l -> exists y, y ∈ k /\ R x y.
Proof. intros HR [i Hi]%list_elem_of_lookup. destruct (Forall2_lookup_l _ _ _ _ _ HR Hi) as (y & Hy & Hxy). exists y. split; [by eapply list_elem_of_lookup_2|done]. Qed.

Lemma Forall2_elem_r {A B} (R : A -> B -> Prop) l k y : Forall2 R l k -> y ∈ k -> exists x, x ∈ l /\ R x y.
Proof. intros HR [i Hi]%list_elem_of_lookup. destruct (Forall2_lookup_r _ _ _ _ _ HR Hi) as (x & Hx & Hxy). exists x. split; [by eapply list_elem_of_lookup_2|done]. Qed.

Lemma Forall2_nodup {A B} (R : A -> B -> Prop) (P : B -> Prop) `{forall x, Decision (P x)} l k : Forall2 R l k -> NoDup l ->
  (forall x y t, x ∈ l -> y ∈ l -> P t -> R x t -> R y t -> x = y) -> NoDup (filter P k).
Proof.
  induction 1 as [|x t l k Hx HR IH]; intros Hn Hinj; [constructor|]. apply NoDup_cons in Hn as [Hxl Hn]. rewrite filter_cons.
  assert (IH' : NoDup (filter P k)) by (apply IH; [done|]; intros y z u Hy Hz; apply Hinj; by right).
  destruct (decide (P t)) as [Ht|]; [|done]. apply NoDup_cons. split; [|done]. intros [_ Hin]%list_elem_of_filter.
  destruct (Forall2_elem_r _ _ _ t HR Hin) as (y & Hy & Hyt). apply Hxl.
  rewrite (Hinj x y t); [done|left|by right|done..].
Qed.

(** ** Removals *)

(** The triple that a removal comes to; zeros when it is not resolved. *)
Definition removal_ids (p : PartiallyResolvedTriple.t) : IdTriple.t :=
  match p with
  | PartiallyResolvedTriple.mk (Resolved s) (Resolved q) (Resolved o) => IdTriple.mk s q o
  | _ => IdTriple.mk 0 0 0
  end.

Lemma as_all_resolved_spec l :
  SimpleLayerBuilder.as_all_resolved (PartiallyResolvedTriple.make_resolved_or_zero <$> l) = Some (removal_ids <$> l).
Proof.
  induction l as [|p l IH]; [done|]. cbn [fmap list_fmap SimpleLayerBuilder.as_all_resolved].
  assert (Hp : PartiallyResolvedTriple.as_resolved (PartiallyResolvedTriple.make_resolved_or_zero p) = Some (Some (removal_ids p))).
  { by destruct p as [[s|s] [q|q] [o|o]]. }
  rewrite Hp, bind_Some_eq. change (list_fmap _ _ ?f l) with (f <$> l). rewrite IH, bind_Some_eq. done.
Qed.

Lemma removal_ids_real p : real_triple (removal_ids p) -> p = to_resolved (removal_ids p).
Proof. by destruct p as [[s|s] [q|q] [o|o]]; [intros (? & ? & ?)..|]. Qed.

Lemma removal_ids_resolved t : removal_ids (to_resolved t) = t.
Proof. by destruct t. Qed.

Lemma resolved_cmp t t' : partial_cmp (to_resolved t) (to_resolved t') = IdTriple.cmp t t'.
Proof.
  unfold partial_cmp, IdTriple.cmp. cbn.
  by destruct (IdTriple.subject t ?= IdTriple.subject t'), (IdTriple.predicate t ?= IdTriple.predicate t').
Qed.

Lemma commit_removals adds rems : partial_sorted rems -> exists R,
  SimpleLayerBuilder.as_all_resolved (PartiallyResolvedTriple.make_resolved_or_zero <$> (cancelled adds <$> rems)) = Some R /\
  lenN R = lenN rems /\ StronglySorted triple_lt (filter real_triple R) /\
  forall t, real_triple t -> (t ∈ R <-> to_resolved t ∈ rems /\ (to_resolved t ∉ adds)).
Proof.
  intros Hs. rewrite as_all_resolved_spec. eexists. split; [done|]. split; [by rewrite !lenN_map|].
  assert (Hreal : forall p, real_triple (removal_ids (cancelled adds p)) -> (p ∉ adds) /\ p = to_resolved (removal_ids (cancelled adds p))).
  { intros p. unfold cancelled. destruct (decide (p ∈ adds)) as [|Hn]; [by intros (? & ? & ?)|]. intros Hp. split; [done|].
    by apply removal_ids_real. }
  split.
  - induction Hs as [|p rems Hs IH Hp]; [constructor|]. cbn [fmap list_fmap]. rewrite filter_cons.
    destruct (decide _) as [Hd|]; [|exact IH]. constructor; [exact IH|]. apply Forall_forall. intros t [Ht Hin]%list_elem_of_filter.
    apply list_elem_of_fmap in Hin as (q' & -> & Hin). apply list_elem_of_fmap in Hin as (q & -> & Hin).
    rewrite Forall_forall in Hp. specialize (Hp q Hin). destruct (Hreal p Hd) as [_ Ep]. destruct (Hreal q Ht) as [_ Eq].
    rewrite Ep, Eq, resolved_cmp in Hp. exact Hp.
  - intros t Ht. rewrite !list_elem_of_fmap. split.
    + intros (p' & -> & (p & -> & Hp)%list_elem_of_fmap). destruct (Hreal p Ht) as [Hn Ep]. by rewrite <- Ep.
    + intros [Hin Hn]. exists (to_resolved t). split; [by rewrite removal_ids_resolved|]. apply list_elem_of_fmap.
      exists (to_resolved t). split; [|done]. unfold cancelled. by rewrite decide_False.
Qed.

(** ** The strings of a commit *)

(** The parent's entries and then the new ones. *)
Definition names_model (m : layer_model) (ns ps vs : list (list N)) : layer_model :=
  mk_model (model_entries m ++ plain_entries ns vs) (model_predicates m ++ ps) [].

Section commit.
Context `{RayonSort} (m : layer_model) (adds rems : list PartiallyResolvedTriple.t).
Hypothesis Hm : model_ok m.
Hypothesis Ha : partial_sorted adds.
Hypothesis Hr : partial_sorted rems.
Hypothesis Hok : Forall (partial_ok m) adds.

Let open := cancelled rems <$> adds.
Let ns := sorted_set (concat (unresolved_nodes_of <$> open)).
Let ps := sorted_set (concat (unresolved_predicates_of <$> open)).
Let vs := sorted_set (concat (unresolved_values_of <$> open)).
Let m' := names_model m ns ps vs.

Lemma open_elem p : p ∈ open <-> (p = zero_triple /\ exists q, q ∈ adds /\ q ∈ rems) \/ (p ∈ adds /\ (p ∉ rems)).
Proof using.
  unfold open. rewrite list_elem_of_fmap. unfold cancelled. split.
  - intros (q & -> & Hq). destruct (decide (q ∈ rems)); [left; split; [done|by exists q]|by right].
  - intros [[-> (q & Hq & Hqr)]|[Hp Hpr]]; [exists q; by rewrite decide_True|exists p; by rewrite decide_False].
Qed.

(** The strings of the triples that are left. *)
Lemma open_strings (f : PartiallyResolvedTriple.t -> list (list N)) s : f zero_triple = [] ->
  s ∈ sorted_set (concat (f <$> open)) <-> exists p, p ∈ adds /\ (p ∉ rems) /\ s ∈ f p.
Proof using.
  intros Hz. rewrite (proj2 (sorted_set_spec _)). split.
  - intros (l & Hl & Hs)%elem_of_concat. apply list_elem_of_fmap in Hl as (p & -> & Hp). apply open_elem in Hp as [[-> _]|[Hp Hn]].
    + by rewrite Hz in Hs; apply elem_of_nil in Hs.
    + by exists p.
  - intros (p & Hp & Hn & Hs). apply list_elem_of_In, in_concat. exists (f p). split; [|by apply list_elem_of_In].
    apply list_elem_of_In, list_elem_of_fmap. exists p. split; [done|]. apply open_elem. by right.
Qed.

Lemma node_strings p s : s ∈ unresolved_nodes_of p <->
  PartiallyResolvedTriple.subject p = Unresolved s \/ PartiallyResolvedTriple.object p = Unresolved (Node s).
Proof using.
  unfold unresolved_nodes_of. rewrite elem_of_app.
  destruct (PartiallyResolvedTriple.subject p) as [u|i], (PartiallyResolvedTriple.object p) as [[v|v]|j];
    rewrite ?list_elem_of_singleton, ?elem_of_nil; split; (intros [Hx|Hx]; (done || (left; congruence) || (right; congruence) || (by subst; left) || (by subst; right))).
Qed.

Lemma predicate_strings p s : s ∈ unresolved_predicates_of p <-> PartiallyResolvedTriple.predicate p = Unresolved s.
Proof using.
  unfold unresolved_predicates_of. destruct (PartiallyResolvedTriple.predicate p) as [u|i];
    rewrite ?list_elem_of_singleton, ?elem_of_nil; split; (done || congruence || (by intros ->)).
Qed.

Lemma value_strings p s : s ∈ unresolved_values_of p <-> PartiallyResolvedTriple.object p = Unresolved (Value s).
Proof using.
  unfold unresolved_values_of. destruct (PartiallyResolvedTriple.object p) as [[v|v]|j];
    rewrite ?list_elem_of_singleton, ?elem_of_nil; split; (done || congruence || (by intros ->) || (by intros [= ->])).
Qed.

Lemma new_strings : Forall (fun s => Node s ∉ model_entries m) ns /\ Forall (fun s => s ∉ model_predicates m) ps /\
  Forall (fun s => Value s ∉ model_entries m) vs.
Proof using Hok.
  rewrite Forall_forall in Hok. split; [|split]; apply Forall_forall; intros s (p & Hp & _ & Hs)%open_strings; try done;
    destruct (Hok p Hp) as [H1 H2 H3].
  - apply node_strings in Hs as [Hs|Hs]; [rewrite Hs in H1|rewrite Hs in H3]; done.
  - apply predicate_strings in Hs. by rewrite Hs in H2.
  - apply value_strings in Hs. by rewrite Hs in H3.
Qed.

Lemma commit_extends : extends m m'.
Proof using Hm Hok.
  destruct new_strings as (Hn & Hp & Hv). destruct Hm as [Hne Hnp Hs Hids]. split; cbn [names_model m' model_entries model_predicates].
  - intros id x. apply at_id_app_l.
  - intros id x. apply at_id_app_l.
  - split; cbn [names_model m' model_entries model_predicates model_triples]; [| |constructor|constructor].
    + apply new_names_nodup; [done| |].
      * apply plain_entries_nodup; apply (proj1 (sorted_set_spec _)).
      * unfold plain_entries. apply Forall_app. split; apply Forall_fmap; [exact Hn|exact Hv].
    + apply new_names_nodup; [done|apply sorted_strings_nodup, (proj1 (sorted_set_spec _))|exact Hp].
Qed.

(** *** The additions *)

Section additions.
Context (nm pm vm : gmap (list N) N).
Hypothesis Hnm : forall s, s ∈ ns -> exists id, nm !! s = Some id /\ at_id (model_entries m') id = Some (Node s).
Hypothesis Hpm : forall s, s ∈ ps -> exists id, pm !! s = Some id /\ at_id (model_predicates m') id = Some s.
Hypothesis Hvm : forall s, s ∈ vs -> exists id, vm !! s = Some id /\ at_id (model_entries m') id = Some (Value s).

Lemma resolve_one p : p ∈ open -> exists t, PartiallyResolvedTriple.resolve_with p nm pm vm = Some t /\ meets m' p t.
Proof using Hnm Hpm Hvm.
  intros Hp. assert (Hin : forall (f : PartiallyResolvedTriple.t -> list (list N)) s, s ∈ f p -> s ∈ sorted_set (concat (f <$> open))).
  { intros f s Hs. apply (proj2 (sorted_set_spec _)), list_elem_of_In, in_concat. exists (f p).
    split; [by apply list_elem_of_In, list_elem_of_fmap_2|by apply list_elem_of_In]. }
  assert (Hs : exists i, (match PartiallyResolvedTriple.subject p with Unresolved s => nm !! s | Resolved id => Some id end) = Some i /\
    meets_part (model_entries m') Node (PartiallyResolvedTriple.subject p) i).
  { pose proof (node_strings p) as Hn. destruct (PartiallyResolvedTriple.subject p) as [s|i]; [|by exists i].
    apply Hnm, Hin, Hn. by left. }
  assert (Hq : exists i, (match PartiallyResolvedTriple.predicate p with Unresolved s => pm !! s | Resolved id => Some id end) = Some i /\
    meets_part (model_predicates m') (fun s => s) (PartiallyResolvedTriple.predicate p) i).
  { pose proof (predicate_strings p) as Hn. destruct (PartiallyResolvedTriple.predicate p) as [s|i]; [|by exists i].
    apply Hpm, Hin, Hn. done. }
  assert (Ho : exists i, (match PartiallyResolvedTriple.object p with
      | Unresolved (Node n) => nm !! n | Unresolved (Value v) => vm !! v | Resolved id => Some id end) = Some i /\
    meets_part (model_entries m') (fun o => o) (PartiallyResolvedTriple.object p) i).
  { pose proof (node_strings p) as Hn. pose proof (value_strings p) as Hv.
    destruct (PartiallyResolvedTriple.object p) as [[s|s]|i]; [apply Hnm, Hin, Hn; by right|by apply Hvm, Hin, Hv|by exists i]. }
  destruct Hs as (i & Ei & Hi), Hq as (j & Ej & Hj), Ho as (k & Ek & Hk). exists (IdTriple.mk i j k).
  unfold PartiallyResolvedTriple.resolve_with. rewrite Ei, bind_Some_eq, Ej, bind_Some_eq, Ek, bind_Some_eq. by split.
Qed.

Lemma zero_meets t : meets m' zero_triple t -> t = IdTriple.mk 0 0 0.
Proof using. change zero_triple with (to_resolved (IdTriple.mk 0 0 0)). apply meets_resolved. Qed.

Lemma commit_additions : exists A, SimpleLayerBuilder.resolve_all open nm pm vm = Some A /\ lenN A = lenN adds /\
  StronglySorted triple_lt (filter real_triple A) /\
  (forall t, real_triple t -> (t ∈ A <-> exists p, p ∈ adds /\ (p ∉ rems) /\ meets m' p t)) /\
  (forall t, real_triple t -> t ∈ A -> known m' t) /\
  (forall p, p ∈ adds -> (p ∉ rems) -> exists t, t ∈ A /\ meets m' p t).
Proof using Hnm Hpm Hvm Ha Hm Hok.
  destruct (map_triples_spec (meets m') _ open resolve_one) as (l & Hl & HR). exists (par_sort IdTriple.cmp l).
  unfold SimpleLayerBuilder.resolve_all. rewrite Hl, bind_Some_eq. split; [done|].
  assert (Hin : forall t, real_triple t -> (t ∈ par_sort IdTriple.cmp l <-> exists p, p ∈ adds /\ (p ∉ rems) /\ meets m' p t)).
  { intros t Ht. rewrite sort_elem. split.
    - intros Hin. destruct (Forall2_elem_r _ _ _ t HR Hin) as (p & Hp & Hpt). apply open_elem in Hp as [[-> _]|[Hp Hn]]; [|by exists p].
      apply zero_meets in Hpt as ->. by destruct Ht.
    - intros (p & Hp & Hn & Hpt). destruct (Forall2_elem_l _ _ _ p HR) as (t' & Ht' & Hpt'); [apply open_elem; by right|].
      by rewrite (meets_unique m m' commit_extends p t t'). }
  pose proof Hok as Hok'. rewrite Forall_forall in Hok'. split; [|split; [|split; [exact Hin|split]]].
  - unfold lenN. rewrite (Permutation_length (par_sort_perm _ _)), <- (Forall2_length _ _ _ HR). unfold open. by rewrite length_fmap.
  - apply (cmp_sorted_strict IdTriple.cmp); [apply sorted_filter; exact (par_sort_ordered _ l)|]. rewrite (par_sort_perm IdTriple.cmp l).
    unfold open in HR. rewrite (Forall2_fmap_l (cancelled rems)) in HR. apply (Forall2_nodup _ _ _ _ HR); [by apply (cmp_sorted_nodup partial_cmp)|].
    intros p q t Hp Hq Ht H1 H2. unfold compose, cancelled in H1, H2.
    destruct (decide (p ∈ rems)); [apply zero_meets in H1 as ->; by destruct Ht|].
    destruct (decide (q ∈ rems)); [apply zero_meets in H2 as ->; by destruct Ht|].
    by apply (meets_inj m m' commit_extends p q t); try apply Hok'.
  - intros t Ht Hint. apply Hin in Hint as (p & Hp & _ & Hpt); [|done]. apply (meets_known m m' commit_extends p); [by apply Hok'|done].
  - intros p Hp Hn. destruct (Forall2_elem_l _ _ _ p HR) as (t & Ht & Hpt); [apply open_elem; by right|]. exists t. by rewrite sort_elem.
Qed.
End additions.
(** *** The strings are collected, the tables filled *)

Context `{FramedRead} `{Log2F32} `{ParSort}.

(** What the commit adds and removes, by id. *)
Definition commit_triples (A R : list IdTriple.t) : Prop :=
  (lenN A = lenN adds /\ StronglySorted triple_lt (filter real_triple A) /\
   (forall t, real_triple t -> (t ∈ A <-> exists p, p ∈ adds /\ (p ∉ rems) /\ meets m' p t)) /\
   (forall t, real_triple t -> t ∈ A -> known m' t) /\
   forall p, p ∈ adds -> (p ∉ rems) -> exists t, t ∈ A /\ meets m' p t) /\
  (lenN R = lenN rems /\ StronglySorted triple_lt (filter real_triple R) /\
   forall t, real_triple t -> (t ∈ R <-> to_resolved t ∈ rems /\ (to_resolved t ∉ adds))).

Hypothesis Hns : dict_input ns.
Hypothesis Hps : dict_input ps.
Hypothesis Hvs : dict_input vs.
Hypothesis Hsize : lenN (model_entries m) + lenN ns + lenN vs < 2 ^ 64.
Hypothesis Hpsize : lenN (model_predicates m) + lenN ps < 2 ^ 64.

Lemma node_table g : (forall id, 1 <= id -> id <= lenN ns -> g id = Some (id + lenN (model_entries m))) ->
  exists tbl, id_table g (zip ns (seqN 1 (lenN ns))) ∅ = Some tbl /\ N.of_nat (base.size tbl) = lenN ns /\
    forall s, s ∈ ns -> exists id, tbl !! s = Some id /\ at_id (model_entries m') id = Some (Node s).
Proof using Hns.
  intros Hg. apply (id_table_ids (model_entries m) [] (Value <$> vs) Node ns g); [apply sorted_strings_nodup, Hns|].
  rewrite app_nil_r. exact Hg.
Qed.

Lemma predicate_table g : (forall id, 1 <= id -> id <= lenN ps -> g id = Some (id + lenN (model_predicates m))) ->
  exists tbl, id_table g (zip ps (seqN 1 (lenN ps))) ∅ = Some tbl /\
    forall s, s ∈ ps -> exists id, tbl !! s = Some id /\ at_id (model_predicates m') id = Some s.
Proof using Hps.
  intros Hg. destruct (id_table_ids (model_predicates m) [] [] (fun s => s) ps g) as (tbl & Ht & _ & Hin);
    [apply sorted_strings_nodup, Hps|by rewrite app_nil_r|]. exists tbl. split; [done|]. cbn [app] in Hin.
  rewrite app_nil_r, list_fmap_id in Hin. exact Hin.
Qed.

Lemma value_table g : (forall id, 1 <= id -> id <= lenN vs -> g id = Some (id + (lenN (model_entries m) + lenN ns))) ->
  exists tbl, id_table g (zip vs (seqN 1 (lenN vs))) ∅ = Some tbl /\
    forall s, s ∈ vs -> exists id, tbl !! s = Some id /\ at_id (model_entries m') id = Some (Value s).
Proof using Hvs.
  intros Hg. destruct (id_table_ids (model_entries m) (Node <$> ns) [] Value vs g) as (tbl & Ht & _ & Hin);
    [apply sorted_strings_nodup, Hvs|by rewrite lenN_app, lenN_map|]. exists tbl. split; [done|].
  rewrite app_nil_r in Hin. exact Hin.
Qed.

Lemma commit_child_written `{Layer L} (impl : L -> layer_model -> Prop) `{!LayerLaws L impl} (parent : L) : impl parent m ->
  Forall (fun s => s <> []) ns -> Forall (fun s => s <> []) ps -> Forall (fun s => s <> []) vs ->
  exists A R, SimpleLayerBuilder.commit_child parent open (PartiallyResolvedTriple.make_resolved_or_zero <$> (cancelled adds <$> rems)) =
    write_child parent ns ps vs A R /\ commit_triples A R.
Proof using Hm Ha Hr Hok Hns Hps Hvs Hsize Hpsize.
  intros Hp Hn0 Hp0 Hv0. destruct new_strings as (Hnn & Hnp & Hnv).
  assert (En : new_nodes m ns = ns) by by apply filter_all. assert (Ep : new_predicates m ps = ps) by by apply filter_all.
  assert (Ev : new_values m vs = vs) by by apply filter_all.
  destruct (child_phase1 impl parent m ns ps vs Hp Hn0 Hp0 Hv0) as
    (idn & idp & idv & b1 & b2 & d & fn & fp & fv & dn & dp & dv & E1 & E2 & E3 & _ & _ & _ & _ & I1 & I2 & I3); rewrite ?En, ?Ep, ?Ev; try done.
  rewrite En in I1. rewrite Ep in I2. rewrite Ev in I3. specialize (I1 Hnn). specialize (I2 Hnp). specialize (I3 Hnv). subst idn idp idv.
  destruct (all_counts_law parent m Hp) as (c & Hc & Hcn & Hcp).
  destruct (node_table (fun id => cadd 64 id (lenN (model_entries m)))) as (nm & Enm & Snm & Hnm).
  { intros id H6 H7. apply cadd_Some. lia. }
  destruct (predicate_table (fun id => cadd 64 id (lenN (model_predicates m)))) as (pm & Epm & Hpm).
  { intros id H6 H7. apply cadd_Some. lia. }
  destruct (value_table (fun id => id ← cadd 64 id (lenN (model_entries m)); cadd 64 id (lenN ns))) as (vm & Evm & Hvm).
  { intros id H6 H7. rewrite cadd_Some, bind_Some_eq, cadd_Some by lia. f_equal. lia. }
  destruct (commit_additions nm pm vm Hnm Hpm Hvm) as (A & EA & HA).
  destruct (commit_removals adds rems Hr) as (R & ER & HR).
  exists A, R. split; [|split; [exact HA|exact HR]].
  unfold SimpleLayerBuilder.commit_child, write_child, collect_unresolved_strings. fold ns ps vs.
  rewrite E1. cbn [or_panic]. rewrite !bind_Ok_eq, E2. cbn [or_panic]. rewrite !bind_Ok_eq, E3. cbn [or_panic]. rewrite !bind_Ok_eq.
  destruct (ChildLayerFileBuilder.into_phase2 _) as [b| |]; [|done|done]. rewrite !bind_Ok_eq, Hc. cbn [or_panic].
  rewrite bind_Ok_eq, cadd_Some by lia. cbn [or_panic]. rewrite bind_Ok_eq, Hcn, Enm. cbn [or_panic]. rewrite bind_Ok_eq, Hcp, Epm.
  cbn [or_panic]. rewrite bind_Ok_eq, Snm, Evm. cbn [or_panic]. rewrite bind_Ok_eq, EA. cbn [or_panic]. rewrite bind_Ok_eq, ER.
  cbn [or_panic]. by rewrite bind_Ok_eq.
Qed.

Lemma commit_base_written : model_entries m = [] -> model_predicates m = [] ->
  exists A R, SimpleLayerBuilder.commit_base open = write_base ns ps vs A /\ commit_triples A R.
Proof using Hm Ha Hr Hok Hns Hps Hvs Hsize Hpsize.
  intros HE HP. destruct (build_dictionaries ns ps vs Hns Hps Hvs) as
    (n & p & v & _ & _ & _ & _ & _ & _ & E1 & E2 & E3 & _).
  destruct (node_table Some) as (nm & Enm & Snm & Hnm).
  { intros id _ _. rewrite HE. by rewrite N.add_0_r. }
  destruct (predicate_table Some) as (pm & Epm & Hpm).
  { intros id _ _. rewrite HP. by rewrite N.add_0_r. }
  destruct (value_table (fun id => cadd 64 id (lenN ns))) as (vm & Evm & Hvm).
  { intros id _ H7. rewrite HE, lenN_nil, N.add_0_l. apply cadd_Some. lia. }
  destruct (commit_additions nm pm vm Hnm Hpm Hvm) as (A & EA & HA).
  destruct (commit_removals adds rems Hr) as (R & _ & HR).
  exists A, R. split; [|split; [exact HA|exact HR]].
  unfold SimpleLayerBuilder.commit_base, write_base, collect_unresolved_strings. fold ns ps vs.
  unfold BaseLayerFileBuilder.add_nodes, BaseLayerFileBuilder.add_predicates, BaseLayerFileBuilder.add_values,
    DictionarySetFileBuilder.add_nodes, DictionarySetFileBuilder.add_predicates, DictionarySetFileBuilder.add_values.
  change BaseLayerFileBuilder.from_files with DictionarySetFileBuilder.from_files.
  rewrite E1. cbn [or_panic]. rewrite !bind_Ok_eq, E2. cbn [or_panic]. rewrite !bind_Ok_eq, E3. cbn [or_panic]. rewrite !bind_Ok_eq.
  destruct (BaseLayerFileBuilder.into_phase2 _) as [b| |]; [|done|done]. rewrite !bind_Ok_eq, Enm. cbn [or_panic].
  rewrite bind_Ok_eq, Epm. cbn [or_panic]. rewrite bind_Ok_eq, Snm, Evm. cbn [or_panic]. rewrite bind_Ok_eq, EA. cbn [or_panic].
  by rewrite bind_Ok_eq.
Qed.
End commit.

(** ** From the builder to the changes *)

Section changes.
Context `{RayonSort} `{Layer L} (impl : L -> layer_model -> Prop) `{!LayerLaws L impl}.

(** The model that a builder starts from. *)
Definition based_on (parent : option L) (m : layer_model) : Prop :=
  match parent with Some parent => impl parent m | None => m = empty_model end.

Lemma resolved_or_spec {T A} (E : list A) (entry : T -> A) (u : T) r : is_id_of E (entry u) r -> resolution E entry u (resolved_or r u).
Proof using. by destruct r as [id|]. Qed.

Lemma partially_resolved_spec (l : L) m x : impl l m -> nonempty_strings x ->
  exists p, string_triple_to_partially_resolved l x = Some p /\ resolves m x p.
Proof using LayerLaws0.
  intros Hl (Hs & Hp & Ho). unfold string_triple_to_partially_resolved.
  destruct (subject_id_law l m _ Hl Hs) as (rs & -> & His). destruct (predicate_id_law l m _ Hl Hp) as (rp & -> & Hip).
  destruct (object_id_law l m Hl (StringTriple.object x) Ho) as (ro & Hro & Hio). rewrite !bind_Some_eq, Hro, bind_Some_eq.
  eexists. split; [done|]. split; cbn; by apply resolved_or_spec.
Qed.

Lemma to_unresolved_resolves x : resolves empty_model x (to_unresolved x).
Proof using. split; cbn; (split; [done|apply not_elem_of_nil]). Qed.

Lemma resolve_changes_spec parent m strings ids : based_on parent m -> model_ok m ->
  parent = None \/ Forall nonempty_strings strings ->
  exists res, SimpleLayerBuilder.resolve_changes parent strings ids = Some res /\ partial_sorted res /\
    (forall p, p ∈ res <-> change_of m strings ids p) /\ lenN res <= lenN strings + lenN ids.
Proof using LayerLaws0.
  intros Hb Hok Hs. assert (Hres : exists l, (match parent with None => Some (to_unresolved <$> strings)
      | Some parent => map_triples (string_triple_to_partially_resolved parent) strings end) = Some l /\ Forall2 (resolves m) strings l).
  { destruct parent as [parent|].
    - destruct Hs as [|Hs]; [done|]. apply map_triples_spec. intros x Hx. rewrite Forall_forall in Hs. by apply partially_resolved_spec, Hs.
    - cbn in Hb. subst m. eexists. split; [done|]. clear Hs. induction strings as [|x xs IH]; constructor; [apply to_unresolved_resolves|exact IH]. }
  destruct Hres as (l & El & Hl). destruct (sort_dedup partial_cmp (l ++ (to_resolved <$> ids))) as [Hsort Hin].
  eexists. unfold SimpleLayerBuilder.resolve_changes. rewrite El, bind_Some_eq. split; [done|]. split; [exact Hsort|]. split.
  - intros p. rewrite Hin, elem_of_app, list_elem_of_fmap. unfold change_of. split.
    + intros [Hp|(t & -> & Ht)]; [left|right; by exists t]. destruct (Forall2_elem_r _ _ _ p Hl Hp) as (x & Hx & Hxp). by exists x.
    + intros [(x & Hx & Hxp)|(t & Ht & ->)]; [left|right; by exists t]. destruct (Forall2_elem_l _ _ _ x Hl Hx) as (p' & Hp' & Hxp').
      assert (Hext : extends m m) by by split. by rewrite (resolves_fun m m Hext x p p').
  - assert (Hsub : dedup (par_sort partial_cmp (l ++ (to_resolved <$> ids))) ⊆+ l ++ (to_resolved <$> ids)).
    { apply NoDup_submseteq; [by apply (cmp_sorted_nodup partial_cmp)|]. intros p. by rewrite Hin. }
    apply submseteq_length in Hsub. rewrite length_app, length_fmap, <- (Forall2_length _ _ _ Hl) in Hsub. unfold lenN. lia.
Qed.
End changes.

(** ** What can be committed *)

Definition triple_strings (x : StringTriple.t) : list (list N) :=
  [StringTriple.subject x; StringTriple.predicate x; match StringTriple.object x with Node s | Value s => s end].

(** The strings to add fit a dictionary, whose strings end with a zero byte, so
    they have none; the ids to add are in use; and there is room for all of it in
    the files of the layer.  The code checks none of this: see Executions for
    what becomes of other input. *)
Record commit_input `{Log2F32} (m : layer_model) (additions : list StringTriple.t) (id_additions : list IdTriple.t)
    (removals : list StringTriple.t) (id_removals : list IdTriple.t) (M : N) : Prop := {
  commit_strings : Forall dict_string (concat (triple_strings <$> additions));
  commit_text : PfcDicts.total (concat (triple_strings <$> additions)) < 2 ^ 64;
  commit_ids : Forall (known m) id_additions;
  commit_widths n : n <= M -> exists w, calculate_width n = Some w /\ w < 58 /\ n < 2 ^ w;
  commit_room : let K := lenN additions + lenN id_additions + lenN removals + lenN id_removals in
    lenN (model_entries m) + 7 * K <= M /\ lenN (model_predicates m) + 3 * K <= M /\
    64 * (2 * lenN (model_entries m) + 15 * K + 1) < 2 ^ 32
}.

Lemma commit_below `{Log2F32} m strs ids rstrs rids M : commit_input m strs ids rstrs rids M -> M < 2 ^ 58.
Proof.
  intros [_ _ _ Hw _]. destruct (Hw M ltac:(lia)) as (w & _ & Hw58 & Hlt). apply N.lt_le_trans with (1 := Hlt). apply N.pow_le_mono_r; lia.
Qed.

Lemma total_submseteq l k : l ⊆+ k -> PfcDicts.total l <= PfcDicts.total k.
Proof. intros [r Hr]%submseteq_Permutation. rewrite (total_perm _ _ Hr), text_total_app. lia. Qed.

Lemma strings_input ss S : StronglySorted lex_lt ss -> (forall s, s ∈ ss -> s ∈ S) -> Forall dict_string S ->
  PfcDicts.total S < 2 ^ 64 -> lenN S < 2 ^ 35 -> dict_input ss /\ lenN ss <= lenN S.
Proof.
  intros Hs Hin Hd Ht Hl. assert (Hsub : ss ⊆+ S) by (apply NoDup_submseteq; [by apply sorted_strings_nodup|done]).
  pose proof (total_submseteq _ _ Hsub). apply submseteq_length in Hsub. assert (lenN ss <= lenN S) by (unfold lenN; lia).
  split; [|done]. split; [|split; [done|lia]]. rewrite Forall_forall in Hd |- *. intros s Hss. by apply Hd, Hin.
Qed.

Lemma lenN_triple_strings xs : lenN (concat (triple_strings <$> xs)) = 3 * lenN xs.
Proof. induction xs as [|x xs IH]; [done|]. cbn [fmap list_fmap concat]. rewrite lenN_app, IH, (lenN_cons x xs).
  change (lenN (triple_strings x)) with 3. lia.
Qed.

Lemma triple_strings_elem xs x s : x ∈ xs -> s ∈ triple_strings x -> s ∈ concat (triple_strings <$> xs).
Proof.
  intros Hx Hs. apply list_elem_of_In, in_concat. exists (triple_strings x).
  split; [by apply list_elem_of_In, list_elem_of_fmap_2|by apply list_elem_of_In].
Qed.

(** Triples of known ids can be written. *)
Lemma known_layer_input `{Log2F32} sparse m nn np nv E P K M T :
  StronglySorted triple_lt (filter real_triple T) -> (forall t, real_triple t -> t ∈ T -> known m t) ->
  nn + nv = lenN (model_entries m) -> np = lenN (model_predicates m) -> lenN T <= K ->
  lenN (model_entries m) <= E + 6 * K -> lenN (model_predicates m) <= P + 3 * K ->
  E + 7 * K <= M -> P + 3 * K <= M -> 64 * (2 * E + 15 * K + 1) < 2 ^ 32 ->
  (sparse = false -> E = 0) ->
  (forall n, n <= M -> exists w, calculate_width n = Some w /\ w < 58 /\ n < 2 ^ w) ->
  layer_input sparse nn np nv (nn + nv) M T.
Proof.
  intros Hs Hk Hnn Hnp HT HE HP HM HPM Hsz Hsp Hw. pose proof (lenN_filter_le real_triple T) as Hf.
  assert (Hl : left_bound sparse (lenN (filter real_triple T)) (nn + nv) <= E + 6 * K).
  { unfold left_bound. destruct sparse; lia. }
  assert (Hl' : sparse = true -> left_bound sparse (lenN (filter real_triple T)) (nn + nv) <= K).
  { intros ->. unfold left_bound. lia. }
  repeat split.
  - intros n Hn. destruct (Hw n Hn) as (w & ? & ? & ?). exists w. split; [done|]. split; [lia|done].
  - intros w Hcw. destruct (Hw np ltac:(lia)) as (w' & Hw' & Hlt & _). congruence.
  - lia.
  - lia.
  - lia.
  - lia.
  - lia.
  - destruct sparse; [specialize (Hl' eq_refl)|specialize (Hsp eq_refl)]; lia.
  - done.
  - apply Forall_forall. intros t [Hr Ht]%list_elem_of_filter. destruct (Hk t Hr Ht) as ([x Hx%at_id_Some] & [y Hy%at_id_Some] & [z Hz%at_id_Some]).
    destruct Hx as [_ Hx%nget_Some_lt], Hy as [_ Hy%nget_Some_lt], Hz as [_ Hz%nget_Some_lt]. split; [done|]. destruct Hr as (? & ? & ?). lia.
  - lia.
Qed.

Lemma filter_swap {A} (P Q : A -> Prop) `{forall x, Decision (P x)} `{forall x, Decision (Q x)} (l : list A) : filter P (filter Q l) = filter Q (filter P l).
Proof. rewrite !list_filter_filter. apply list_filter_iff. tauto. Qed.

Section committed.
Context `{RayonSort} `{FramedRead} `{Log2F32} `{ParSort}.
Context (m : layer_model) (strs : list StringTriple.t) (ids : list IdTriple.t) (rstrs : list StringTriple.t) (rids : list IdTriple.t) (M : N).
Hypothesis Hm : model_ok m.
Hypothesis Hin : commit_input m strs ids rstrs rids M.
Context (adds rems : list PartiallyResolvedTriple.t).
Hypothesis Ha : partial_sorted adds.
Hypothesis Hr : partial_sorted rems.
Hypothesis Hadds : forall p, p ∈ adds <-> change_of m strs ids p.
Hypothesis Hrems : forall p, p ∈ rems <-> change_of m rstrs rids p.
Hypothesis Hla : lenN adds <= lenN strs + lenN ids.
Hypothesis Hlr : lenN rems <= lenN rstrs + lenN rids.

Let open := cancelled rems <$> adds.
Let ns := sorted_set (concat (unresolved_nodes_of <$> open)).
Let ps := sorted_set (concat (unresolved_predicates_of <$> open)).
Let vs := sorted_set (concat (unresolved_values_of <$> open)).
Let m' := names_model m ns ps vs.

Lemma adds_ok : Forall (partial_ok m) adds.
Proof using Hin Hadds. apply Forall_forall. intros p Hp%Hadds. eapply (change_ok m); [apply Hin|exact Hp]. Qed.

(** The strings that are not resolved come from the added triples. *)
Lemma commit_dicts : (dict_input ns /\ dict_input ps /\ dict_input vs) /\
  (forall s, s ∈ ns ++ ps ++ vs -> s ∈ concat (triple_strings <$> strs)) /\
  lenN ns <= 3 * lenN strs /\ lenN ps <= 3 * lenN strs /\ lenN vs <= 3 * lenN strs.
Proof using Hin Hadds.
  clear Hla Hlr. destruct Hin as [Hd Ht _ _ (_ & _ & Hsz)]. rewrite <- !lenN_triple_strings.
  assert (Hlen : lenN (concat (triple_strings <$> strs)) < 2 ^ 35) by (rewrite lenN_triple_strings; lia).
  assert (Hch : forall p, p ∈ adds -> (exists x, x ∈ strs /\ resolves m x p) \/ (exists t, p = to_resolved t)).
  { intros p [?|(t & _ & ->)]%Hadds; [by left|right; by exists t]. }
  assert (Hn : forall s, s ∈ ns -> s ∈ concat (triple_strings <$> strs)).
  { intros s (p & Hp & _ & Hs)%open_strings; [|done]. apply node_strings in Hs.
    destruct (Hch p Hp) as [(x & Hx & [H6 _ H8])|(t & ->)]; [|by destruct Hs]. apply (triple_strings_elem _ x); [done|].
    destruct Hs as [Hs|Hs]; rewrite Hs in *; [destruct H6 as [-> _]; left|destruct H8 as [Heq _]].
    unfold triple_strings. rewrite <- Heq. right; right; left. }
  assert (Hp : forall s, s ∈ ps -> s ∈ concat (triple_strings <$> strs)).
  { intros s (p & Hp & _ & Hs)%open_strings; [|done]. apply predicate_strings in Hs.
    destruct (Hch p Hp) as [(x & Hx & [_ H7 _])|(t & ->)]; [|done]. apply (triple_strings_elem _ x); [done|].
    rewrite Hs in H7. destruct H7 as [-> _]. right; left. }
  assert (Hv : forall s, s ∈ vs -> s ∈ concat (triple_strings <$> strs)).
  { intros s (p & Hp' & _ & Hs)%open_strings; [|done]. apply value_strings in Hs.
    destruct (Hch p Hp') as [(x & Hx & [_ _ H8])|(t & ->)]; [|done]. apply (triple_strings_elem _ x); [done|].
    rewrite Hs in H8. destruct H8 as [Heq _]. unfold triple_strings. rewrite <- Heq. right; right; left. }
  destruct (strings_input ns _ (proj1 (sorted_set_spec _)) Hn Hd Ht Hlen) as [D1 L1].
  destruct (strings_input ps _ (proj1 (sorted_set_spec _)) Hp Hd Ht Hlen) as [D2 L2].
  destruct (strings_input vs _ (proj1 (sorted_set_spec _)) Hv Hd Ht Hlen) as [D3 L3].
  split; [done|]. split; [|done]. intros s. rewrite !elem_of_app. intros [?|[?|?]]; auto.
Qed.

Lemma commit_nonempty : Forall nonempty_strings strs -> Forall (fun s => s <> []) (ns ++ ps ++ vs).
Proof using Hin Hadds.
  intros Hne. destruct commit_dicts as (_ & Hs & _). apply Forall_forall. intros s (l & (x & -> & Hx)%list_elem_of_fmap & Hl)%Hs%elem_of_concat.
  rewrite Forall_forall in Hne. destruct (Hne x Hx) as (N1 & N2 & N3). unfold triple_strings in Hl. rewrite !elem_of_cons in Hl.
  destruct Hl as [->|[->|[->|Hl%elem_of_nil]]]; [done..|by destruct (StringTriple.object x)|done].
Qed.

Let E0 := lenN (model_entries m).
Let P0 := lenN (model_predicates m).

Lemma commit_counts : lenN (model_entries m') = E0 + lenN ns + lenN vs /\ lenN (model_predicates m') = P0 + lenN ps.
Proof using. clear Hla Hlr. unfold m', names_model. cbn [model_entries model_predicates]. rewrite !lenN_app, lenN_plain_entries. unfold E0, P0. lia. Qed.

Lemma commit_extends' : extends m m'.
Proof using Hm Hin Hadds. apply commit_extends; [done|apply adds_ok]. Qed.

Lemma commit_child_input A R : Forall nonempty_strings strs -> commit_triples m adds rems A R -> child_input m ns ps vs M A R.
Proof using Hm Hin Hadds Hla Hlr.
  intros Hne%commit_nonempty [(HlA & HsA & _ & HkA & _) (HlR & HsR & _)]. destruct commit_dicts as ((D1 & D2 & D3) & _ & L1 & L2 & L3).
  destruct (new_strings m adds rems adds_ok) as (Hnn & Hnp & Hnv).
  assert (En : new_nodes m ns = ns) by by apply filter_all. assert (Ep : new_predicates m ps = ps) by by apply filter_all.
  assert (Ev : new_values m vs = vs) by by apply filter_all.
  destruct commit_counts as [C1 C2]. pose proof Hin as [_ _ _ Hw (R1 & R2 & R3)]. fold E0 P0 in R1, R2, R3.
  set (K := lenN strs + lenN ids + lenN rstrs + lenN rids) in *.
  assert (HK : lenN ns + lenN vs <= 6 * K /\ lenN ps <= 3 * K /\ lenN adds <= K /\ lenN rems <= K) by lia.
  destruct HK as (K1 & K2 & K3 & K4).
  split; rewrite ?En, ?Ep, ?Ev; [done..| |].
  - apply (known_layer_input true m' _ _ _ E0 P0 K M); try done; try lia.
    + unfold new_triples. rewrite filter_swap. by apply sorted_filter.
    + intros t Ht [_ HtA]%list_elem_of_filter. by apply HkA.
    + unfold new_triples. pose proof (lenN_filter_le (fun t => t ∉ model_triples m) A). lia.
  - apply (known_layer_input true m' _ _ _ E0 P0 K M); try done; try lia.
    + unfold known_triples. rewrite filter_swap. by apply sorted_filter.
    + intros t Ht [Htm _]%list_elem_of_filter. pose proof (triples_ids m Hm) as Hids. rewrite Forall_forall in Hids.
      destruct (Hids t Htm) as ([x Hx] & [y Hy] & [z Hz]). destruct commit_extends' as [Xe Xp _].
      split; [|split]; [exists x; by apply Xe|exists y; by apply Xp|exists z; by apply Xe].
    + unfold known_triples. pose proof (lenN_filter_le (fun t => t ∈ model_triples m) R). lia.
Qed.

Lemma commit_base_input A R : E0 = 0 -> P0 = 0 -> commit_triples m adds rems A R ->
  layer_input false (lenN ns) (lenN ps) (lenN vs) (lenN ns + lenN vs) M A.
Proof using Hm Hin Hadds Hla Hlr.
  intros HE HP [(HlA & HsA & _ & HkA & _) _]. destruct commit_dicts as (_ & _ & L1 & L2 & L3). destruct commit_counts as [C1 C2].
  pose proof Hin as [_ _ _ Hw (R1 & R2 & R3)]. fold E0 P0 in R1, R2, R3.
  set (K := lenN strs + lenN ids + lenN rstrs + lenN rids) in *.
  assert (HK : lenN ns + lenN vs <= 6 * K /\ lenN ps <= 3 * K /\ lenN adds <= K) by lia. destruct HK as (K1 & K2 & K3).
  apply (known_layer_input false m' _ _ _ E0 P0 K M); try done; try lia.
Qed.

(** *** What was asked for *)

Abbreviation added := (named m strs ids).
Abbreviation removed := (named m rstrs rids).

(** A triple of ids is added or removed when its strings are, unless they are
    in both lists. *)
Lemma commit_meaning A R t x : commit_triples m adds rems A R -> denotes m' t x ->
  (t ∈ A <-> added x /\ ~ removed x) /\ (known m t -> (t ∈ R <-> removed x /\ ~ added x)).
Proof using Hm Hin Hadds Hrems.
  intros [(_ & _ & HA & _ & _) (_ & _ & HR)] Hd. pose proof commit_extends' as Hext.
  pose proof (known_real m' t (denotes_known m' t x Hd)) as Hreal.
  destruct (resolves_total m x) as [p Hp].
  pose proof (change_named m m' Hext strs ids x p Hp) as E1. pose proof (change_named m m' Hext rstrs rids x p Hp) as E2.
  rewrite <- Hadds in E1. rewrite <- Hrems in E2. rewrite <- E1, <- E2. split.
  - rewrite HA by done. split.
    + intros (q & Hq & Hn & Hm'). assert (Hxq : resolves m x q).
      { apply (change_denotes m m' Hext strs ids q t x); [apply Hin|by apply Hadds|done|done]. }
      by rewrite (resolves_fun m m' Hext x p q).
    + intros [Hq Hn]. exists p. split; [done|]. split; [done|]. by apply (meets_denotes m m' Hext x p t Hp).
  - intros Hk. rewrite HR by done. pose proof (denotes_restrict m m' Hext t x Hk Hd) as Hd'.
    by rewrite (resolves_fun m m' Hext x p (to_resolved t) Hp (resolves_resolved m t x Hd')).
Qed.

(** What is added and not removed gets ids. *)
Lemma commit_adds A R x : commit_triples m adds rems A R -> added x -> ~ removed x -> exists t, t ∈ A /\ denotes m' t x.
Proof using Hm Hin Hadds Hrems.
  intros [(_ & _ & _ & _ & HA) _] Hx Hn. pose proof commit_extends' as Hext. destruct (resolves_total m x) as [p Hp].
  rewrite <- (change_named m m' Hext strs ids x p Hp), <- Hadds in Hx. rewrite <- (change_named m m' Hext rstrs rids x p Hp), <- Hrems in Hn.
  destruct (HA p Hx Hn) as (t & Ht & Hpt). exists t. split; [done|]. by apply (meets_denotes m m' Hext x p t Hp).
Qed.

(** What is added was given, by its ids or by strings that have them now. *)
Lemma commit_origin A R t : commit_triples m adds rems A R -> real_triple t -> t ∈ A ->
  t ∈ ids \/ exists x, x ∈ strs /\ denotes m' t x.
Proof using Hm Hin Hadds.
  intros [(_ & _ & HA & _ & _) _] Hreal Ht. apply (HA t Hreal) in Ht as (p & Hp & _ & Hmeets).
  apply Hadds in Hp as [(x & Hx & Hres)|(t' & Ht' & ->)].
  - right. exists x. split; [done|]. by apply (meets_denotes m m' commit_extends' x p t Hres).
  - left. by apply meets_resolved in Hmeets as ->.
Qed.

(** The triples of the new layer, of those of the parent. *)
Lemma commit_exists A R (ts : list IdTriple.t) x b e : commit_triples m adds rems A R ->
  (forall t, t ∈ ts <-> (t ∈ model_triples m /\ (t ∉ R)) \/ ((t ∉ model_triples m) /\ t ∈ A /\ real_triple t)) ->
  (e = true <-> exists t, t ∈ model_triples m /\ denotes m t x) -> (b = true <-> exists t, t ∈ ts /\ denotes m' t x) ->
  (added x -> removed x -> b = e) /\ (added x -> ~ removed x -> b = true) /\ (~ added x -> removed x -> b = false) /\
  (~ added x -> ~ removed x -> b = e).
Proof using Hm Hin Hadds Hrems.
  intros Hc Hts He Hb. pose proof commit_extends' as Hext.
  assert (Hk : forall t, t ∈ model_triples m -> known m t).
  { intros t Ht. pose proof (triples_ids m Hm) as Hids. rewrite Forall_forall in Hids. by apply Hids. }
  assert (Hsame : ~ (added x /\ ~ removed x) -> ~ (removed x /\ ~ added x) -> b = e).
  { intros H6 H7. apply eq_bool_prop_intro. rewrite <- !Is_true_true, Hb, He in *. split.
    - intros (t & [[Ht _]|(_ & Ht & _)]%Hts & Hd); [exists t; split; [done|]; by apply (denotes_restrict m m' Hext), Hd; apply Hk|].
      by apply (commit_meaning A R t x Hc Hd) in Ht.
    - intros (t & Ht & Hd). pose proof (denotes_extends m m' Hext t x Hd) as Hd'. exists t. split; [|done]. apply Hts. left. split; [done|].
      intros Hr'. by apply (commit_meaning A R t x Hc Hd') in Hr'; [|apply Hk]. }
  split; [intros; apply Hsame; tauto|]. split; [|split; [|intros; apply Hsame; tauto]].
  - intros H6 H7. apply Hb. destruct (commit_adds A R x Hc H6 H7) as (t & Ht & Hd). exists t. split; [|done]. apply Hts.
    destruct (decide (t ∈ model_triples m)) as [Htm|Htm].
    + left. split; [done|]. intros Hr'. apply (commit_meaning A R t x Hc Hd) in Hr'; [tauto|by apply Hk].
    + right. split; [done|]. split; [done|]. by apply (known_real m'), (denotes_known m' t x).
  - intros H6 H7. destruct b; [|done]. destruct (proj1 Hb eq_refl) as (t & [[Htm Hn]|(Htm & Ht & _)]%Hts & Hd).
    + destruct Hn. apply (commit_meaning A R t x Hc Hd); [by apply Hk|done].
    + apply (commit_meaning A R t x Hc Hd) in Ht. tauto.
Qed.
End committed.

#[export] Instance StringTriple_eq_dec : EqDecision StringTriple.t.
Proof. solve_decision. Defined.

#[export] Instance denotes_dec m t x : Decision (denotes m t x).
Proof. unfold denotes. apply _. Defined.

#[export] Instance named_dec m strings ids x : Decision (named m strings ids x).
Proof.
  destruct (decide (x ∈ strings \/ Exists (fun t => denotes m t x) ids)) as [Hn|Hn].
  - left. destruct Hn as [?|Hn]; [by left|right]. by apply Exists_exists in Hn as (t & ? & ?); exists t.
  - right. intros [?|(t & ? & ?)]; apply Hn; [by left|right]. apply Exists_exists. by exists t.
Defined.

Section builder.
Context `{BytesSize} `{FramedRead} `{Log2F32} `{ParSort} `{RayonSort}.
Import SimpleLayerBuilder.

(** Both lists of changes of a builder, before and after cancelling. *)
Lemma commit_lists (b : SimpleLayerBuilder.t InternalLayer) m : based_on implements (parent b) m -> model_ok m ->
  parent b = None \/ Forall nonempty_strings (additions b ++ removals b) ->
  exists adds rems, resolve_changes (parent b) (additions b) (id_additions b) = Some adds /\
    resolve_changes (parent b) (removals b) (id_removals b) = Some rems /\ partial_sorted adds /\ partial_sorted rems /\
    (forall p, p ∈ adds <-> change_of m (additions b) (id_additions b) p) /\
    (forall p, p ∈ rems <-> change_of m (removals b) (id_removals b) p) /\
    lenN adds <= lenN (additions b) + lenN (id_additions b) /\ lenN rems <= lenN (removals b) + lenN (id_removals b) /\
    zero_equivalents adds rems = (cancelled rems <$> adds, cancelled adds <$> rems).
Proof using.
  intros Hb Hok Hne. rewrite Forall_app in Hne.
  destruct (resolve_changes_spec implements (parent b) m (additions b) (id_additions b) Hb Hok ltac:(tauto)) as (adds & E1 & S1 & M1 & L1).
  destruct (resolve_changes_spec implements (parent b) m (removals b) (id_removals b) Hb Hok ltac:(tauto)) as (rems & E2 & S2 & M2 & L2).
  exists adds, rems. repeat (split; [done|]). by apply zero_equivalents_spec.
Qed.

(** The triples that the model [m'] has and [m] does not were given. *)
Definition grown (m m' : layer_model) (additions : list StringTriple.t) (id_additions : list IdTriple.t) : Prop :=
  forall t, t ∈ model_triples m' -> t ∈ model_triples m \/ t ∈ id_additions \/ exists x, x ∈ additions /\ denotes m' t x.

(** What a commit makes of the model [m] of the parent: ids stay, nothing is
    added but what was given, and a string triple exists when it should. *)
Definition committed (m m' : layer_model) (additions : list StringTriple.t) (id_additions : list IdTriple.t)
    (removals : list StringTriple.t) (id_removals : list IdTriple.t) : Prop :=
  extends m m' /\ grown m m' additions id_additions /\ forall p l, implements p m -> implements l m' -> forall x, nonempty_strings x ->
    exists e, string_triple_exists p x = Some e /\
      string_triple_exists l x = Some (
        if decide (named m additions id_additions x)
        then (if decide (named m removals id_removals x) then e else true)
        else (if decide (named m removals id_removals x) then false else e)).

Lemma commit_child_built_on debug (b : SimpleLayerBuilder.t InternalLayer) l m M : parent b = Some l -> implements l m ->
  Forall nonempty_strings (additions b ++ removals b) -> commit_input m (additions b) (id_additions b) (removals b) (id_removals b) M ->
  exists maps m', commit b = Ok (ChildMaps maps) /\
    committed m m' (additions b) (id_additions b) (removals b) (id_removals b) /\
    lenN (added_triples m' m) <= lenN (additions b) + lenN (id_additions b) /\
    forall k, k + lenN (additions b) + lenN (id_additions b) < 2 ^ 64 ->
      loads_child debug maps m k m' (k + lenN (additions b) + lenN (id_additions b)).
Proof using.
  intros Hpar Hl Hne Hin. pose proof (model_law l m Hl) as Hm.
  assert (Hb : based_on implements (parent b) m) by by rewrite Hpar.
  destruct (commit_lists b m Hb Hm (or_intror Hne)) as (adds & rems & E1 & E2 & S1 & S2 & M1 & M2 & L1 & L2 & EZ).
  pose proof (adds_ok m _ _ _ _ M Hin adds M1) as Hok.
  apply Forall_app in Hne as [Hne _].
  destruct (commit_dicts m _ _ _ _ M Hin adds rems M1) as ((D1 & D2 & D3) & _ & K1 & K2 & K3).
  pose proof (commit_nonempty m _ _ _ _ M Hin adds rems M1 Hne) as Hnn0. rewrite !Forall_app in Hnn0. destruct Hnn0 as (N1 & N2 & N3).
  pose proof (commit_room _ _ _ _ _ _ Hin) as HR. cbv zeta in HR. destruct HR as (R1 & R2 & R3).
  pose proof (commit_below _ _ _ _ _ _ Hin) as HM.
  destruct (commit_child_written m adds rems Hm S1 S2 Hok D1 D2 D3 ltac:(lia) ltac:(lia) implements l Hl N1 N2 N3) as (A & R & EC & HC).
  pose proof (commit_child_input m _ _ _ _ M Hm Hin adds rems M1 L1 L2 A R Hne HC) as Hci.
  assert (HlA : lenN A = lenN adds) by apply HC.
  destruct (child_built_on debug l m _ _ _ M A R Hl Hci) as (maps & m' & Hw & (He & Hp & Ht) & Hm' & Hload).
  destruct (new_strings m adds rems Hok) as (Hnn & Hnp & Hnv). unfold new_nodes, new_values, new_predicates in He, Hp.
  rewrite (filter_all _ _ Hnn), (filter_all _ _ Hnv) in He. rewrite (filter_all _ _ Hnp) in Hp.
  set (ns := sorted_set _) in He. set (vs := sorted_set _) in He. set (ps := sorted_set _) in Hp.
  exists maps, m'. split.
  { unfold commit. rewrite E1. cbn [or_panic]. rewrite bind_Ok_eq, E2. cbn [or_panic]. rewrite bind_Ok_eq, EZ, Hpar.
    rewrite EC, Hw. done. }
  split; [split|split].
  - split; [rewrite He; intros id x; apply at_id_app_l|rewrite Hp; intros id x; apply at_id_app_l|done].
  - split.
    { intros t [[Htm _]|(_ & HtA & Hreal)]%Ht; [by left|right].
      destruct (commit_origin m _ _ _ _ M Hm Hin adds rems M1 A R t HC Hreal HtA) as [?|(x & Hx & Hd)]; [by left|right].
      exists x. split; [done|]. unfold denotes in *. by rewrite He, Hp. }
    intros p l' Hpm Himp x Hx. destruct (string_triple_exists_spec p m Hpm x Hx) as (e & Ee & Hes).
    destruct (string_triple_exists_spec l' m' Himp x Hx) as (b' & Eb & Hbs). exists e. split; [done|]. rewrite Eb. f_equal.
    assert (Hbs' : b' = true <-> exists t, t ∈ model_triples m' /\ denotes (names_model m ns ps vs) t x).
    { rewrite Hbs. unfold denotes, names_model. by rewrite He, Hp. }
    destruct (commit_exists m _ _ _ _ M Hm Hin adds rems M1 M2 A R (model_triples m') x b' e HC Ht Hes Hbs') as (H6 & H7 & H8 & H9).
    destruct (decide _), (decide _); auto.
  - etransitivity; [|apply (N.le_trans _ (lenN A)); [reflexivity|lia]]. unfold lenN. enough (length (added_triples m' m) <= length A)%nat by lia.
    apply submseteq_length, NoDup_submseteq; [by apply NoDup_filter, sorted_nodup, triples_sorted|].
    intros t [Hn' Hin']%list_elem_of_filter. apply Ht in Hin'. tauto.
  - intros k Hk name p Hp'. destruct (Hload name p k Hp' ltac:(lia)) as (l' & Hl' & Hname & Hip & Hpn & _ & Hi).
    exists l'. repeat (split; [done|]). eapply within_le; [|exact Hi]. lia.
Qed.

Lemma commit_child_built debug (b : SimpleLayerBuilder.t InternalLayer) l m c M : parent b = Some l -> implements l m ->
  Forall nonempty_strings (additions b ++ removals b) -> commit_input m (additions b) (id_additions b) (removals b) (id_removals b) M ->
  LayerTriples.triple_addition_count l = Some c -> c + lenN (additions b) + lenN (id_additions b) < 2 ^ 64 ->
  exists maps l' m', commit b = Ok (ChildMaps maps) /\ child_load debug (name b) l maps = Some l' /\
    Internal.name l' = name b /\ Internal.immediate_parent l' = Some l /\ implements l' m' /\
    committed m m' (additions b) (id_additions b) (removals b) (id_removals b).
Proof using.
  intros Hpar Hl Hne Hin Hc Hlen. destruct (commit_child_built_on debug b l m M Hpar Hl Hne Hin) as (maps & m' & Hcom & Hm' & _ & Hload).
  destruct (Hload c Hlen (name b) l) as (l' & Hl' & Hname & Hip & _ & Hi); [by apply (within_counted c _ _ c)|].
  exists maps, l', m'. repeat (split; [done|]). split; [by eapply within_implements|done].
Qed.

Lemma named_empty strings ids x : named empty_model strings ids x <-> x ∈ strings.
Proof using.
  split; [|by left]. intros [Hx|(t & _ & Hd & _)]; [done|]. by apply at_id_elem, elem_of_nil in Hd.
Qed.

Definition committed_base (m : layer_model) (additions removals : list StringTriple.t) : Prop :=
  grown empty_model m additions [] /\ forall l, implements l m -> forall x, nonempty_strings x ->
    string_triple_exists l x = Some (bool_decide (x ∈ additions /\ (x ∉ removals))).

(** What a builder without a parent writes, and the model of it. *)
Lemma commit_base_written_model (b : SimpleLayerBuilder.t InternalLayer) M : parent b = None ->
  commit_input empty_model (additions b) (id_additions b) (removals b) (id_removals b) M ->
  exists ns ps vs A, let m := mk_model (plain_entries ns vs) ps (filter real_triple A) in
    (forall maps, write_base ns ps vs A = Ok maps -> commit b = Ok (BaseMaps maps)) /\
    dict_input ns /\ dict_input ps /\ dict_input vs /\ layer_input false (lenN ns) (lenN ps) (lenN vs) (lenN ns + lenN vs) M A /\
    lenN A <= lenN (additions b) + lenN (id_additions b) /\ grown empty_model m (additions b) [] /\
    forall x e, (e = true <-> exists t, t ∈ model_triples m /\ denotes m t x) -> e = bool_decide (x ∈ additions b /\ (x ∉ removals b)).
Proof using.
  intros Hpar Hin. pose proof empty_model_ok as Hm.
  assert (Hb : based_on implements (parent b) empty_model) by by rewrite Hpar.
  destruct (commit_lists b _ Hb Hm (or_introl Hpar)) as (adds & rems & E1 & E2 & S1 & S2 & M1 & M2 & L1 & L2 & EZ).
  pose proof (adds_ok _ _ _ _ _ M Hin adds M1) as Hok.
  destruct (commit_dicts _ _ _ _ _ M Hin adds rems M1) as ((D1 & D2 & D3) & _ & K1 & K2 & K3).
  pose proof (commit_room _ _ _ _ _ _ Hin) as HR. cbv zeta in HR. destruct HR as (R1 & R2 & R3).
  pose proof (commit_below _ _ _ _ _ _ Hin) as HM.
  destruct (commit_base_written _ adds rems Hm S1 S2 Hok D1 D2 D3 ltac:(lia) ltac:(lia) eq_refl eq_refl) as (A & R & EC & HC).
  pose proof (commit_base_input _ _ _ _ _ M Hm Hin adds rems M1 L1 L2 A R eq_refl eq_refl HC) as Hli.
  set (ns := sorted_set (concat (unresolved_nodes_of <$> _))) in *. set (ps := sorted_set (concat (unresolved_predicates_of <$> _))) in *.
  set (vs := sorted_set (concat (unresolved_values_of <$> _))) in *.
  exists ns, ps, vs, A. intros m. split.
  { intros maps Hw. unfold commit. rewrite E1. cbn [or_panic]. rewrite bind_Ok_eq, E2. cbn [or_panic]. rewrite bind_Ok_eq, EZ, Hpar.
    rewrite EC, Hw. done. }
  do 4 (split; [done|]). split; [assert (lenN A = lenN adds) by apply HC; lia|]. split.
  { intros t [Hreal HtA]%list_elem_of_filter. right; right.
    destruct (commit_origin _ _ _ _ _ M Hm Hin adds rems M1 A R t HC Hreal HtA) as [Hid|Hx]; [|exact Hx].
    pose proof (commit_ids _ _ _ _ _ _ Hin) as Hk. rewrite Forall_forall in Hk. by destruct (Hk t Hid) as [[y Hy%at_id_elem%elem_of_nil] _]. }
  intros x b' Hbs.
  assert (Ht : forall t, t ∈ filter real_triple A <-> (t ∈ model_triples empty_model /\ (t ∉ R)) \/
    ((t ∉ model_triples empty_model) /\ t ∈ A /\ real_triple t)).
  { intros t. rewrite list_elem_of_filter. pose proof (not_elem_of_nil t) as Hn. cbn [model_triples empty_model]. tauto. }
  assert (Hes : false = true <-> exists t, t ∈ model_triples empty_model /\ denotes empty_model t x).
  { split; [done|]. by intros (t & Ht'%elem_of_nil & _). }
  destruct (commit_exists _ _ _ _ _ M Hm Hin adds rems M1 M2 A R _ x b' false HC Ht Hes Hbs) as (H5 & H6 & H7 & H8).
  rewrite !named_empty in *. destruct (decide (x ∈ additions b)), (decide (x ∈ removals b)).
  - rewrite bool_decide_false by tauto. auto.
  - rewrite bool_decide_true by tauto. auto.
  - rewrite bool_decide_false by tauto. auto.
  - rewrite bool_decide_false by tauto. auto.
Qed.

Lemma commit_base_built_on debug (b : SimpleLayerBuilder.t InternalLayer) M : parent b = None ->
  commit_input empty_model (additions b) (id_additions b) (removals b) (id_removals b) M ->
  exists maps m, commit b = Ok (BaseMaps maps) /\ committed_base m (additions b) (removals b) /\
    loads_base debug maps m (lenN (additions b) + lenN (id_additions b)).
Proof using.
  intros Hpar Hin. destruct (commit_base_written_model b M Hpar Hin) as (ns & ps & vs & A & Hc & D1 & D2 & D3 & Hli & HlA & Hg & Hx).
  destruct (base_built_on debug _ _ _ M A D1 D2 D3 Hli) as (maps & Hw & Hload). eexists maps, _. split; [by apply Hc|]. split; [split; [done|]|].
  - intros l Himp x Hne. destruct (string_triple_exists_spec l _ Himp x Hne) as (b' & -> & Hb). f_equal. by apply Hx.
  - intros name. destruct (Hload name) as (l & Hl & H5 & H6 & H7 & Hi). exists l. repeat (split; [done|]). eapply within_le; [|exact Hi]. lia.
Qed.
End builder.

(** ** Properties *)

(** C6: a builder without a parent commits to the files of a base layer that
    has exactly the string triples that were added and not removed, in whatever
    order and however often, empty strings included.  The strings that are added
    have no zero bytes, which end the strings of a dictionary; no triples are
    added by ids, since none is in use yet; and the numbers fit the files
    ([commit_input]).  What becomes of other strings is shown in Executions. *)
Theorem base_commit `{BytesSize} `{FramedRead} `{Log2F32} `{ParSort} `{RayonSort} debug (b : SimpleLayerBuilder.t InternalLayer) M :
  SimpleLayerBuilder.parent b = None ->
  commit_input empty_model (SimpleLayerBuilder.additions b) (SimpleLayerBuilder.id_additions b)
    (SimpleLayerBuilder.removals b) (SimpleLayerBuilder.id_removals b) M ->
  exists maps l m, SimpleLayerBuilder.commit b = Ok (BaseMaps maps) /\ base_load debug (SimpleLayerBuilder.name b) maps = Some l /\
    implements l m /\ forall x,
      string_triple_exists l x = Some (bool_decide (x ∈ SimpleLayerBuilder.additions b /\ (x ∉ SimpleLayerBuilder.removals b))).
Proof.
  intros Hpar Hin. destruct (commit_base_written_model b M Hpar Hin) as (ns & ps & vs & A & Hc & D1 & D2 & D3 & Hli & _ & Hg & Hx).
  destruct (base_built debug (SimpleLayerBuilder.name b) ns ps vs M A D1 D2 D3 Hli) as (maps & l & Hw & Hl & _ & Hp & Hno & _ & Himp).
  pose proof (commit_below _ _ _ _ _ _ Hin) as HM. destruct Hli as (_ & _ & _ & HpM & HnM & _).
  eexists maps, l, _. split; [by apply Hc|]. split; [done|]. split; [exact Himp|]. intros x.
  destruct (base_string_exists l _ x Hp Hno Himp) as (e & -> & He); [..|by f_equal; apply Hx].
  - cbn [model_entries]. rewrite lenN_plain_entries. lia.
  - cbn [model_predicates]. lia.
  - intros t [Ht|[Ht|(y & _ & Hd)]]%Hg; [by apply elem_of_nil in Ht..|by exists y].
Qed.

(** C2: a builder on a parent commits to the files of a child layer in which a
    string triple exists exactly when it should: what is only added exists,
    what is only removed does not, and what is both added and removed, or
    neither, exists when it does in the parent.  It makes no difference whether
    a change is given by strings or by ids of the parent.  All ids of the
    parent keep their meaning, those of nodes and values and those of
    predicates.  The strings that are given or asked for are not empty, since
    the parent finds the empty string in a dictionary without strings; those
    that are added have no zero bytes; the ids that are added are in use in the
    parent; and the numbers fit the files ([commit_input]).  What becomes of
    other input is shown in Executions. *)
Theorem child_commit `{BytesSize} `{FramedRead} `{Log2F32} `{ParSort} `{RayonSort} debug (b : SimpleLayerBuilder.t InternalLayer) parent m c M :
  SimpleLayerBuilder.parent b = Some parent -> implements parent m ->
  Forall nonempty_strings (SimpleLayerBuilder.additions b ++ SimpleLayerBuilder.removals b) ->
  commit_input m (SimpleLayerBuilder.additions b) (SimpleLayerBuilder.id_additions b)
    (SimpleLayerBuilder.removals b) (SimpleLayerBuilder.id_removals b) M ->
  triple_addition_count parent = Some c ->
  c + lenN (SimpleLayerBuilder.additions b) + lenN (SimpleLayerBuilder.id_additions b) < 2 ^ 64 ->
  exists maps l, SimpleLayerBuilder.commit b = Ok (ChildMaps maps) /\
    child_load debug (SimpleLayerBuilder.name b) parent maps = Some l /\ (exists m', implements l m') /\
    (forall id x, id_object parent id = Some (Some x) -> id_object l id = Some (Some x)) /\
    (forall id s, id_predicate parent id = Some (Some s) -> id_predicate l id = Some (Some s)) /\
    forall x, nonempty_strings x -> exists e, string_triple_exists parent x = Some e /\
      let added := named m (SimpleLayerBuilder.additions b) (SimpleLayerBuilder.id_additions b) x in
      let removed := named m (SimpleLayerBuilder.removals b) (SimpleLayerBuilder.id_removals b) x in
      string_triple_exists l x = Some (if decide added then (if decide removed then e else true)
                                       else (if decide removed then false else e)).
Proof.
  intros Hpar Hm Hne Hin Hc Hlen. destruct (commit_child_built debug b parent m c M Hpar Hm Hne Hin Hc Hlen) as
    (maps & l & m' & Hcom & Hl & _ & _ & Himp & Hext & _ & Hx).
  exists maps, l. split; [done|]. split; [done|]. split; [by exists m'|]. split; [|split; [|by apply Hx]].
  - intros id x. rewrite (id_object_law parent m id Hm), (id_object_law l m' id Himp). intros [= Hid]. f_equal.
    by apply (extends_entries m m' Hext).
  - intros id s. rewrite (id_predicate_law parent m id Hm), (id_predicate_law l m' id Himp). intros [= Hid]. f_equal.
    by apply (extends_predicates m m' Hext).
Qed.

(** *** A base layer and a child of the sample *)

#[local] Existing Instance sample_bytes.

Lemma cmp_le_trans {A} (cmp : A -> A -> comparison) `{!TotalCmp cmp} : Transitive (fun x y => cmp x y <> Gt).
Proof.
  intros x y z Hxy Hyz Hxz. apply (cmp_Gt cmp) in Hxz. destruct (cmp y z) eqn:E; [apply cmp_eq in E as ->|..|done].
  - by apply Hxy, (cmp_Gt cmp).
  - apply Hxy, (cmp_Gt cmp). by apply (cmp_trans y z x).
Qed.

Lemma cmp_le_total {A} (cmp : A -> A -> comparison) `{!TotalCmp cmp} : Total (fun x y => cmp x y <> Gt).
Proof. intros x y. rewrite (@cmp_opp _ cmp _ x y). destruct (cmp x y); [by left|by left|by right]. Qed.

Definition merge_rayon : RayonSort.
Proof.
  refine {| par_sort A cmp := merge_sort (fun x y => cmp x y <> Gt) |}.
  - intros A cmp l. apply merge_sort_Permutation.
  - intros A cmp Hc l. apply StronglySorted_merge_sort; [exact (cmp_le_trans cmp)|exact (cmp_le_total cmp)].
Defined.

Lemma sample_commit_width n : n < 100 -> exists w, calculate_width (H := exact_log2) n = Some w /\ w < 58 /\ n < 2 ^ w.
Proof.
  intros Hn. destruct (sample_width n Hn) as (w & Hw & _ & Hlt). exists w. split; [exact Hw|]. split; [|exact Hlt].
  unfold calculate_width in Hw. rewrite cadd_Some, bind_Some_eq in Hw by lia. injection Hw as <-.
  unfold f32_of_u64. replace (n + 1 <? 2 ^ 24) with true by (symmetry; apply N.ltb_lt; lia).
  change (N.log2_up (n + 1) < 58).
  apply N.le_lt_trans with (N.log2_up 128); [apply N.log2_up_le_mono; lia|by vm_compute].
Qed.

Definition sample_builder : SimpleLayerBuilder.t InternalLayer :=
  let add := SimpleLayerBuilder.add_string_triple in
  let b := add (SimpleLayerBuilder.new [3]) (StringTriple.new_value [97] [112] [118]) in
  let b := add b (StringTriple.new_node [97] [113] [98]) in
  let b := add b (StringTriple.new_value [98] [112] [118]) in
  SimpleLayerBuilder.remove_string_triple b (StringTriple.new_value [98] [112] [118]).

Ltac concrete_forall tac :=
  match goal with |- Forall ?P ?l => let l' := eval vm_compute in l in change (Forall P l') end;
  repeat (apply Forall_cons; split); [tac ..|by apply Forall_nil].

Ltac concrete_nonempty := concrete_forall ltac:(split; [discriminate|split; discriminate]).
Ltac concrete_commit_input :=
  split;
  [ concrete_forall ltac:(split; [split; [split; [repeat constructor|vm_compute; reflexivity]|repeat constructor; discriminate]
                                 |vm_compute; reflexivity])
  | by vm_compute
  | concrete_forall ltac:(split; [eexists; reflexivity|split; eexists; reflexivity])
  | intros n Hn; apply sample_commit_width; lia
  | by vm_compute ].

Lemma sample_builder_input : commit_input (H := exact_log2) empty_model (SimpleLayerBuilder.additions sample_builder)
  (SimpleLayerBuilder.id_additions sample_builder) (SimpleLayerBuilder.removals sample_builder)
  (SimpleLayerBuilder.id_removals sample_builder) 40.
Proof. concrete_commit_input. Qed.

Lemma base_commit_witness : exists maps l m,
  SimpleLayerBuilder.commit (H0 := whole_file) (H1 := exact_log2) (H2 := merge_par_sort) (H3 := merge_rayon) sample_builder = Ok (BaseMaps maps) /\
  base_load (H := exact_log2) true [3] maps = Some l /\ implements l m /\
  string_triple_exists l (StringTriple.new_value [97] [112] [118]) = Some true /\
  string_triple_exists l (StringTriple.new_value [98] [112] [118]) = Some false.
Proof.
  destruct (base_commit (H0 := whole_file) (H1 := exact_log2) (H2 := merge_par_sort) (H3 := merge_rayon) true sample_builder 40
    eq_refl sample_builder_input) as (maps & l & m & Hc & Hl & Hi & Hx).
  exists maps, l, m. split; [exact Hc|]. split; [exact Hl|]. split; [exact Hi|]. split.
  - rewrite Hx. reflexivity.
  - rewrite Hx. reflexivity.
Defined.

(** A child of the sample: one triple is new, one is given by its ids, and one
    is removed. *)
Definition child_builder (p : InternalLayer) : SimpleLayerBuilder.t InternalLayer :=
  let b := SimpleLayerBuilder.from_parent [4] p in
  let b := SimpleLayerBuilder.add_string_triple b (StringTriple.new_node [97] [113] [99]) in
  let b := SimpleLayerBuilder.add_id_triple b (IdTriple.mk 2 2 1) in
  SimpleLayerBuilder.remove_string_triple b (StringTriple.new_node [97] [112] [98]).

Lemma child_builder_input p : commit_input (H := exact_log2) base_model (SimpleLayerBuilder.additions (child_builder p))
  (SimpleLayerBuilder.id_additions (child_builder p)) (SimpleLayerBuilder.removals (child_builder p))
  (SimpleLayerBuilder.id_removals (child_builder p)) 40.
Proof. concrete_commit_input. Qed.

Lemma child_commit_witness : exists p maps l, sample_base p /\
  SimpleLayerBuilder.commit (H0 := whole_file) (H1 := exact_log2) (H2 := merge_par_sort) (H3 := merge_rayon) (child_builder p) = Ok (ChildMaps maps) /\
  child_load (H := exact_log2) true [4] p maps = Some l /\
  string_triple_exists l (StringTriple.new_node [97] [113] [99]) = Some true /\
  string_triple_exists l (StringTriple.new_node [98] [113] [97]) = Some true /\
  string_triple_exists l (StringTriple.new_node [97] [112] [98]) = Some false.
Proof.
  destruct sample_base_built as (p & Hp & _ & _ & _ & Hc & Hi).
  destruct (child_commit (H0 := whole_file) (H1 := exact_log2) (H2 := merge_par_sort) (H3 := merge_rayon) true (child_builder p) p base_model 3 40
    eq_refl Hi ltac:(concrete_nonempty) (child_builder_input p) Hc ltac:(by vm_compute)) as (maps & l & Hcom & Hl & _ & _ & _ & Hx).
  exists p, maps, l. split; [exact Hp|]. split; [exact Hcom|]. split; [exact Hl|]. split; [|split].
  - destruct (Hx (StringTriple.new_node [97] [113] [99])) as (e & _ & He); [split; [discriminate|split; discriminate]|].
    etransitivity; [exact He|]. vm_compute. reflexivity.
  - destruct (Hx (StringTriple.new_node [98] [113] [97])) as (e & _ & He); [split; [discriminate|split; discriminate]|].
    etransitivity; [exact He|]. vm_compute. reflexivity.
  - destruct (Hx (StringTriple.new_node [97] [112] [98])) as (e & _ & He); [split; [discriminate|split; discriminate]|].
    etransitivity; [exact He|]. vm_compute. reflexivity.
Defined.
