(* ===== verification/StoreMonad.v ===== *)
(** * Effects on a store

    The methods of the stores are asynchronous functions that read and change
    files or tables that every handle shares.  One call is modelled as a step
    from the shared state to a new one, with an outcome: the handles of a
    store, which the code clones freely, are all the same state.  What the
    code does under one lock is one step; interleavings of steps are relations
    of their own where they matter. *)

From S2P Require Import Prelude.

Definition io (S A : Type) : Type := S -> S * outcome io_error A.

#[export] Instance io_ret {S} : MRet (io S) := fun A a s => (s, Ok a).
#[export] Instance io_bind {S} : MBind (io S) := fun A B f m s =>
  match m s with
  | (s, Ok a) => f a s
  | (s, Err e) => (s, Err e)
  | (s, Panic) => (s, Panic)
  end.

Definition io_err {S A} (e : io_error) : io S A := fun s => (s, Err e).
Definition io_panic {S A} : io S A := fun s => (s, Panic).
Definition io_lift {S A} (m : outcome io_error A) : io S A := fun s => (s, m).
(** A computation that can only panic. *)
Definition io_opt {S A} (m : option A) : io S A := fun s => (s, or_panic m).
Definition io_get {S} : io S S := fun s => (s, Ok s).
Definition io_put {S} (s : S) : io S () := fun _ => (s, Ok ()).
(** A question to the state. *)
Definition io_read {S A} (f : S -> outcome io_error A) : io S A := fun s => (s, f s).

(** Running the binds of a computation on a given state. *)
Lemma io_bind_Ok {S A B} (m : io S A) (f : A -> io S B) s s' a :
  m s = (s', Ok a) -> (m ≫= f) s = f a s'.
Proof. intros E. unfold mbind, io_bind. by rewrite E. Qed.

Lemma io_bind_Err {S A B} (m : io S A) (f : A -> io S B) s s' e :
  m s = (s', Err e) -> (m ≫= f) s = (s', Err e).
Proof. intros E. unfold mbind, io_bind. by rewrite E. Qed.

Lemma io_bind_lift {S A B} (m : outcome io_error A) (f : A -> io S B) s a :
  m = Ok a -> (io_lift m ≫= f) s = f a s.
Proof. by intros ->. Qed.

Lemma io_bind_read {S A B} (g : S -> outcome io_error A) (f : A -> io S B) s a :
  g s = Ok a -> (io_read g ≫= f) s = f a s.
Proof. intros E. unfold mbind, io_bind, io_read. by rewrite E. Qed.

Lemma io_bind_inv {S A B} (m : io S A) (f : A -> io S B) s s' b :
  (m ≫= f) s = (s', Ok b) -> exists s1 a, m s = (s1, Ok a) /\ f a s1 = (s', Ok b).
Proof.
  unfold mbind, io_bind. destruct (m s) as [s1 [a|e|]] eqn:E; [|done|done]. eauto.
Qed.

(** Steps that leave the state alone, and give [a]. *)
Definition yields {S A} (m : io S A) (s : S) (a : A) : Prop := m s = (s, Ok a).

Lemma yields_bind {S A B} (m : io S A) (f : A -> io S B) s a b :
  yields m s a -> yields (f a) s b -> yields (m ≫= f) s b.
Proof. unfold yields. intros E F. by rewrite (io_bind_Ok _ _ _ _ _ E). Qed.

Lemma yields_ret {S A} (a : A) (s : S) : yields (mret a) s a.
Proof. done. Qed.

Lemma yields_read {S A} (g : S -> outcome io_error A) s a : g s = Ok a -> yields (io_read g) s a.
Proof. unfold yields, io_read. by intros ->. Qed.

Lemma yields_lift {S A} (m : outcome io_error A) (s : S) a : m = Ok a -> yields (io_lift m) s a.
Proof. unfold yields, io_lift. by intros ->. Qed.

Lemma yields_unique {S A} (m : io S A) s a b : yields m s a -> yields m s b -> a = b.
Proof. unfold yields. congruence. Qed.

(** Steps that go from a state to another, and give [a]. *)
Definition runs {S A} (m : io S A) (s s' : S) (a : A) : Prop := m s = (s', Ok a).

Lemma runs_bind {S A B} (m : io S A) (f : A -> io S B) s s1 s2 a b :
  runs m s s1 a -> runs (f a) s1 s2 b -> runs (m ≫= f) s s2 b.
Proof. unfold runs. intros E F. by rewrite (io_bind_Ok _ _ _ _ _ E). Qed.

Lemma runs_ret {S A} (a : A) (s : S) : runs (mret a) s s a.
Proof. done. Qed.

Lemma runs_opt {S A} (m : option A) (s : S) a : m = Some a -> runs (io_opt m) s s a.
Proof. by intros ->. Qed.

Create HintDb store_io.
#[export] Hint Resolve yields_ret yields_read yields_lift : store_io.
