(* ===== verification/Names.v ===== *)
(** * Names of layers and numbers as text (src/storage/layer.rs)

    A layer's name is five 32-bit words, written as forty hexadecimal digits;
    the version of a label is written in decimal.  Strings are the lists of
    their bytes; [digits] prints, [from_str_radix] parses. *)

From S2P Require Import Prelude.
From S2P Require Import Words.
From S2P Require Import Strings.
From S2P Require Import LayerTypes.
Open Scope N_scope.

(** ** Printing and parsing numbers *)

(** The digit of a number below 16. *)
Definition digit_char (d : N) : N := if d <? 10 then 48 + d else 87 + d.

(** [char::to_digit(radix)] of an ASCII byte. *)
Definition to_digit (radix c : N) : option N :=
  let d := if in_range 48 57 c then Some (c - 48)
           else if in_range 97 122 c then Some (c - 87)
           else if in_range 65 90 c then Some (c - 55) else None in
  d ← d; if d <? radix then Some d else None.

(** The digits of [n] in front of [acc]. *)
Fixpoint digits_before (fuel : nat) (radix n : N) (acc : list N) : list N :=
  match fuel with
  | O => acc
  | S fuel =>
      let acc := digit_char (n mod radix) :: acc in
      if n <? radix then acc else digits_before fuel radix (n / radix) acc
  end.

(** [{}] and [{:x}] of an unsigned integer: a digit per bit is enough fuel. *)
Definition digits (radix n : N) : list N := digits_before (S (N.to_nat (N.size n))) radix n [].

(** [{:08x}]. *)
Definition hex8 (n : N) : list N :=
  let s := digits 16 n in replicate (8 - length s) 48 ++ s.

Fixpoint parse_digits (w radix acc : N) (s : list N) : option N :=
  match s with
  | [] => Some acc
  | c :: s =>
      d ← to_digit radix c;
      let acc := acc * radix + d in
      if acc <? 2 ^ w then parse_digits w radix acc s else None
  end.

(** [uw::from_str_radix]: [None] for each of its errors. *)
Definition from_str_radix (w radix : N) (s : list N) : option N :=
  match s with
  | [] => None
  | [c] => if (c =? 43) || (c =? 45) then None else parse_digits w radix 0 s
  | c :: s' => if c =? 43 then parse_digits w radix 0 s' else parse_digits w radix 0 s
  end.

(** ** Names *)

Definition name_to_string (name : layer_name) : list N := concat (hex8 <$> name).

(** [s.is_char_boundary(i)] and the slices of a [str]. *)
Definition is_char_boundary (s : list N) (i : N) : bool :=
  if i =? 0 then true
  else match s.[i] with
       | None => i =? lenN s
       | Some b => (b <? 128) || (192 <=? b)
       end.

Definition str_slice (s : list N) (a b : N) : option (list N) :=
  if is_char_boundary s a && is_char_boundary s b then slice_range a b s else None.

Definition string_to_name (string : list N) : outcome io_error layer_name :=
  if negb (lenN string =? 40) then Err Other
  else
    let part a b : outcome io_error N :=
      s ← or_panic (str_slice string a b);
      match from_str_radix 32 16 s with Some n => Ok n | None => Err InvalidData end in
    n1 ← part 0 8;
    n2 ← part 8 16;
    n3 ← part 16 24;
    n4 ← part 24 32;
    n5 ← part 32 40;
    Ok [n1; n2; n3; n4; n5].

(** [String::from_utf8_lossy]: each maximal part of an ill-formed sequence
    becomes U+FFFD. *)
Definition replacement : list N := [0xEF; 0xBF; 0xBD].

Fixpoint utf8_lossy (fuel : nat) (l : list N) : list N :=
  match fuel with
  | O => []
  | S fuel =>
      match l with
      | [] => []
      | b :: l1 =>
          let bad l := replacement ++ utf8_lossy fuel l in
          if b <? 0x80 then b :: utf8_lossy fuel l1
          else if in_range 0xC2 0xDF b then
            match l1 with
            | b1 :: l2 => if in_range 0x80 0xBF b1 then b :: b1 :: utf8_lossy fuel l2 else bad l1
            | [] => bad l1
            end
          else if in_range 0xE0 0xEF b then
            match l1 with
            | b1 :: l2 =>
                if in_range (if b =? 0xE0 then 0xA0 else 0x80) (if b =? 0xED then 0x9F else 0xBF) b1 then
                  match l2 with
                  | b2 :: l3 => if in_range 0x80 0xBF b2 then b :: b1 :: b2 :: utf8_lossy fuel l3 else bad l2
                  | [] => bad l2
                  end
                else bad l1
            | [] => bad l1
            end
          else if in_range 0xF0 0xF4 b then
            match l1 with
            | b1 :: l2 =>
                if in_range (if b =? 0xF0 then 0x90 else 0x80) (if b =? 0xF4 then 0x8F else 0xBF) b1 then
                  match l2 with
                  | b2 :: l3 =>
                      if in_range 0x80 0xBF b2 then
                        match l3 with
                        | b3 :: l4 =>
                            if in_range 0x80 0xBF b3 then b :: b1 :: b2 :: b3 :: utf8_lossy fuel l4 else bad l3
                        | [] => bad l3
                        end
                      else bad l2
                  | [] => bad l2
                  end
                else bad l1
            | [] => bad l1
            end
          else bad l1
      end
  end.

Definition from_utf8_lossy (l : list N) : list N := utf8_lossy (length l) l.

Definition bytes_to_name (bytes : list N) : outcome io_error layer_name :=
  if negb (lenN bytes =? 40) then Err Other
  else string_to_name (from_utf8_lossy bytes).

(** [s.lines()]: [cur] is the part of the current line already read, reversed. *)
Definition end_line (cur : list N) : list N :=
  match cur with
  | c :: cur' => if c =? 13 then rev cur' else rev cur
  | [] => []
  end.

Fixpoint lines_from (cur s : list N) : list (list N) :=
  match s with
  | [] => match cur with [] => [] | _ => [rev cur] end
  | c :: s => if c =? 10 then end_line cur :: lines_from [] s else lines_from (c :: cur) s
  end.

Definition lines (s : list N) : list (list N) := lines_from [] s.

(** ** Digits *)

Definition is_digit (c : N) : Prop := 48 <= c <= 57 \/ 97 <= c <= 102.

Lemma digit_char_digit d : d < 16 -> is_digit (digit_char d).
Proof. unfold digit_char, is_digit. intros. destruct (N.ltb_spec d 10); lia. Qed.

Lemma to_digit_char radix d : d < radix -> radix <= 16 -> to_digit radix (digit_char d) = Some d.
Proof.
  intros Hd Hr. unfold to_digit, digit_char, in_range.
  destruct (N.ltb_spec d 10).
  - replace ((48 <=? 48 + d) && (48 + d <=? 57)) with true by (symmetry; apply andb_true_intro; split; apply N.leb_le; lia).
    mcbn. replace (48 + d - 48) with d by lia. ncmp. done.
  - replace ((48 <=? 87 + d) && (87 + d <=? 57)) with false
      by (symmetry; apply andb_false_intro2; apply N.leb_gt; lia).
    replace ((97 <=? 87 + d) && (87 + d <=? 122)) with true by (symmetry; apply andb_true_intro; split; apply N.leb_le; lia).
    mcbn. replace (87 + d - 87) with d by lia. ncmp. done.
Qed.

Section digits_of.
Context (radix : N) (Hradix : 2 <= radix <= 16).

Lemma div_pow2 n fuel : n < 2 ^ N.of_nat (S fuel) -> n / radix < 2 ^ N.of_nat fuel.
Proof using Hradix.
  rewrite Nat2N.inj_succ, N.pow_succ_r'. intros Hn.
  assert (n / radix <= n / 2) by (apply N.div_le_compat_l; lia).
  assert (n / 2 < 2 ^ N.of_nat fuel) by (apply N.Div0.div_lt_upper_bound; lia). lia.
Qed.

(** The digits of a number parse to it, whatever follows. *)
Lemma parse_digits_before w fuel n acc : n < 2 ^ N.of_nat fuel -> n < 2 ^ w ->
  parse_digits w radix 0 (digits_before (S fuel) radix n acc) = parse_digits w radix n acc.
Proof using Hradix.
  revert n acc. induction fuel as [|fuel IH]; intros n acc Hn Hw.
  - assert (n = 0) as -> by (change (2 ^ N.of_nat 0) with 1 in Hn; lia).
    cbn [digits_before]. ncmp. cbn [parse_digits]. rewrite N.Div0.mod_0_l.
    rewrite to_digit_char by lia. mcbn. by ncmp.
  - remember (S fuel) as f. cbn [digits_before]. subst f.
    assert (n mod radix < radix) by (apply N.mod_lt; lia).
    destruct (N.ltb_spec n radix).
    + cbn [parse_digits]. rewrite N.mod_small by lia. rewrite to_digit_char by lia. mcbn. by ncmp.
    + assert (n = radix * (n / radix) + n mod radix) as Hdiv by (apply N.div_mod; lia).
      rewrite IH; [|by apply div_pow2|apply (N.le_lt_trans _ n); [apply N.Div0.div_le_upper_bound; nia|done]].
      cbn [parse_digits]. rewrite to_digit_char by lia. mcbn.
      replace (n / radix * radix + n mod radix) with n by lia. by ncmp.
Qed.

Lemma digits_before_digits fuel n acc : Forall is_digit acc -> Forall is_digit (digits_before fuel radix n acc).
Proof using Hradix.
  revert n acc. induction fuel as [|fuel IH]; intros n acc Ha; cbn [digits_before]; [done|].
  assert (Forall is_digit (digit_char (n mod radix) :: acc)).
  { constructor; [|done]. apply digit_char_digit.
    assert (n mod radix < radix) by (apply N.mod_lt; lia). lia. }
  destruct (n <? radix); [done|by apply IH].
Qed.

Lemma digits_before_length k fuel n acc : n < radix ^ N.of_nat (S k) ->
  (length (digits_before fuel radix n acc) <= S k + length acc)%nat.
Proof using Hradix.
  revert k n acc. induction fuel as [|fuel IH]; intros k n acc Hn; cbn [digits_before]; [lia|].
  destruct (N.ltb_spec n radix); [simpl; lia|].
  destruct k as [|k]; [rewrite N.pow_1_r in Hn; lia|].
  assert (n / radix < radix ^ N.of_nat (S k)) as Hd.
  { apply N.Div0.div_lt_upper_bound. rewrite (Nat2N.inj_succ (S k)), N.pow_succ_r' in Hn. done. }
  specialize (IH k (n / radix) (digit_char (n mod radix) :: acc) Hd). simpl in *. lia.
Qed.

Lemma digits_size n : n < 2 ^ N.of_nat (N.to_nat (N.size n)).
Proof. rewrite N2Nat.id. apply N.size_gt. Qed.

Lemma digits_nonempty n : digits radix n <> [].
Proof using Hradix.
  unfold digits. cbn [digits_before]. destruct (n <? radix); [done|].
  assert (forall fuel m acc, acc <> [] -> digits_before fuel radix m acc <> []) as Hne.
  { clear. induction fuel as [|fuel IH]; intros m acc Ha; cbn [digits_before]; [done|].
    destruct (m <? radix); [done|by apply IH]. }
  by apply Hne.
Qed.

Lemma parse_digits_print w n : n < 2 ^ w -> parse_digits w radix 0 (digits radix n) = Some n.
Proof using Hradix. intros. unfold digits. by rewrite parse_digits_before by (try apply digits_size; done). Qed.
End digits_of.

Lemma digits_all_digits radix n : 2 <= radix <= 16 -> Forall is_digit (digits radix n).
Proof. intros. by apply digits_before_digits. Qed.

(** Without a sign in front, parsing is reading the digits. *)
Lemma from_str_radix_digits w radix s : s <> [] -> Forall is_digit s ->
  from_str_radix w radix s = parse_digits w radix 0 s.
Proof.
  intros Hs Hd. destruct s as [|c s]; [done|]. apply Forall_cons in Hd as [Hc _].
  unfold is_digit in Hc. unfold from_str_radix.
  replace (c =? 43) with false by (symmetry; apply N.eqb_neq; lia).
  replace (c =? 45) with false by (symmetry; apply N.eqb_neq; lia). by destruct s.
Qed.

Lemma parse_zeros w radix k s : 2 <= radix <= 16 ->
  parse_digits w radix 0 (replicate k 48 ++ s) = parse_digits w radix 0 s.
Proof.
  intros Hr. induction k as [|k IH]; [done|]. cbn [replicate app parse_digits].
  change 48 with (digit_char 0). rewrite to_digit_char by lia. mcbn.
  replace (0 * radix + 0) with 0 by lia.
  assert (0 < 2 ^ w) as ->%N.ltb_lt by (apply N.neq_0_lt_0, N.pow_nonzero; done). apply IH.
Qed.

Lemma hex8_digits n : Forall is_digit (hex8 n).
Proof.
  unfold hex8. apply Forall_app. split.
  - apply Forall_replicate. unfold is_digit. lia.
  - apply digits_all_digits. lia.
Qed.

Lemma hex8_length n : n < 2 ^ 32 -> length (hex8 n) = 8%nat.
Proof.
  intros Hn. unfold hex8. rewrite length_app, length_replicate.
  assert (length (digits 16 n) <= 8)%nat; [|lia].
  pose proof (digits_before_length 16 ltac:(lia) 7 (S (N.to_nat (N.size n))) n []) as Hl.
  simpl length in Hl. apply Hl. exact Hn.
Qed.

Lemma parse_hex8 n : n < 2 ^ 32 -> from_str_radix 32 16 (hex8 n) = Some n.
Proof.
  intros Hn. rewrite from_str_radix_digits; [|by intros E; pose proof (hex8_length n Hn); rewrite E in *|apply hex8_digits].
  unfold hex8. rewrite parse_zeros by lia. apply parse_digits_print; [lia|done].
Qed.

Lemma parse_decimal n : n < 2 ^ 64 -> from_str_radix 64 10 (digits 10 n) = Some n.
Proof.
  intros Hn. rewrite from_str_radix_digits; [|apply digits_nonempty; lia|apply digits_all_digits; lia].
  by apply parse_digits_print; [lia|].
Qed.

(** ** Names *)

(** The names that [[u32; 5]] holds. *)
Definition name_ok (name : layer_name) : Prop := length name = 5%nat /\ Forall (fun n => n < 2 ^ 32) name.

#[export] Instance name_ok_dec name : Decision (name_ok name).
Proof. unfold name_ok. apply _. Defined.

Lemma name_digits name : Forall is_digit (name_to_string name).
Proof.
  unfold name_to_string. apply Forall_concat. apply Forall_fmap, Forall_true. intros n. apply hex8_digits.
Qed.

Lemma name_length name : name_ok name -> length (name_to_string name) = 40%nat.
Proof.
  intros [Hl Hw]. unfold name_to_string. do 5 (destruct name as [|? name]; [done|]). destruct name; [|done].
  rewrite !Forall_cons in Hw. destruct Hw as (? & ? & ? & ? & ? & _). cbn [fmap list_fmap concat]. rewrite !length_app, !hex8_length by done. done.
Qed.

Lemma digits_boundary s i : Forall is_digit s -> i <= lenN s -> is_char_boundary s i = true.
Proof.
  intros Hd Hi. unfold is_char_boundary. destruct (N.eqb_spec i 0); [done|].
  destruct (s.[i]) as [b|] eqn:Hb.
  - eapply Forall_nget in Hd; [|exact Hb]. unfold is_digit in Hd. by ncmp.
  - apply nget_None in Hb. apply N.eqb_eq. lia.
Qed.

(** Eight digits inside a string of digits. *)
Lemma slice_hex8 pre n post : n < 2 ^ 32 -> Forall is_digit (pre ++ hex8 n ++ post) ->
  str_slice (pre ++ hex8 n ++ post) (lenN pre) (lenN pre + 8) = Some (hex8 n).
Proof.
  intros Hn Hd. pose proof (hex8_length n Hn) as Hl.
  assert (lenN (hex8 n) = 8) as H8 by (unfold lenN; rewrite Hl; done).
  unfold str_slice. rewrite !digits_boundary by (done || (len_simpl; lia)). cbn [andb].
  rewrite slice_range_Some by (len_simpl; lia). f_equal.
  replace (lenN pre + 8 - lenN pre) with (lenN (hex8 n)) by lia. by rewrite dropN_app, takeN_app.
Qed.

Lemma string_of_name name : name_ok name -> string_to_name (name_to_string name) = Ok name.
Proof.
  intros Hok. pose proof (name_length name Hok) as Hlen. pose proof (name_digits name) as Hd.
  destruct Hok as [Hl Hw]. do 5 (destruct name as [|? name]; [done|]). destruct name; [|done].
  rewrite !Forall_cons in Hw. destruct Hw as (? & ? & ? & ? & ? & _). unfold string_to_name.
  assert (lenN (name_to_string [n; n0; n1; n2; n3]) = 40) as -> by (unfold lenN; rewrite Hlen; done).
  unfold name_to_string in Hd |- *. cbn [fmap list_fmap concat N.eqb Pos.eqb negb] in Hd |- *.
  assert (forall pre m post a b, m < 2 ^ 32 ->
    hex8 n ++ hex8 n0 ++ hex8 n1 ++ hex8 n2 ++ hex8 n3 ++ [] = pre ++ hex8 m ++ post ->
    a = lenN pre -> b = a + 8 ->
    str_slice (hex8 n ++ hex8 n0 ++ hex8 n1 ++ hex8 n2 ++ hex8 n3 ++ []) a b = Some (hex8 m)) as Hs.
  { intros pre m post a b Hm Heq -> ->. rewrite Heq in Hd |- *. by apply slice_hex8. }
  assert (forall m, m < 2 ^ 32 -> lenN (hex8 m) = 8) as H8 by (intros m Hm; unfold lenN; by rewrite hex8_length).
  rewrite (Hs [] n (hex8 n0 ++ hex8 n1 ++ hex8 n2 ++ hex8 n3 ++ []) 0 8) by done. mcbn. rewrite parse_hex8 by done. mcbn.
  rewrite (Hs (hex8 n) n0 (hex8 n1 ++ hex8 n2 ++ hex8 n3 ++ []) 8 16) by (done || (rewrite H8; done)). mcbn. rewrite parse_hex8 by done. mcbn.
  rewrite (Hs (hex8 n ++ hex8 n0) n1 (hex8 n2 ++ hex8 n3 ++ []) 16 24)
    by (done || (by rewrite <- !app_assoc) || (rewrite ?lenN_app, !H8 by done; done)).
  mcbn. rewrite parse_hex8 by done. mcbn.
  rewrite (Hs (hex8 n ++ hex8 n0 ++ hex8 n1) n2 (hex8 n3 ++ []) 24 32)
    by (done || (by rewrite <- !app_assoc) || (rewrite ?lenN_app, !H8 by done; done)).
  mcbn. rewrite parse_hex8 by done. mcbn.
  rewrite (Hs (hex8 n ++ hex8 n0 ++ hex8 n1 ++ hex8 n2) n3 [] 32 40)
    by (done || (by rewrite <- !app_assoc) || (rewrite ?lenN_app, !H8 by done; done)).
  mcbn. by rewrite parse_hex8 by done.
Qed.

(** ASCII text is left alone by the lossy decoding. *)
Lemma utf8_lossy_ascii fuel l : Forall (fun b => b < 128) l -> (length l <= fuel)%nat -> utf8_lossy fuel l = l.
Proof.
  revert fuel. induction l as [|b l IH]; intros [|fuel] Ha Hf; simpl in Hf; try (done || lia).
  apply Forall_cons in Ha as [Hb Ha]. cbn [utf8_lossy]. apply N.ltb_lt in Hb as ->. f_equal.
  apply IH; [done|lia].
Qed.

Lemma from_utf8_lossy_ascii l : Forall (fun b => b < 128) l -> from_utf8_lossy l = l.
Proof. intros. by apply utf8_lossy_ascii. Qed.

Lemma digits_ascii s : Forall is_digit s -> Forall (fun b => b < 128) s.
Proof. intros. eapply Forall_impl; [done|]. unfold is_digit. intros. lia. Qed.

Lemma bytes_of_name name : name_ok name -> bytes_to_name (name_to_string name) = Ok name.
Proof.
  intros Hok. unfold bytes_to_name. replace (lenN (name_to_string name)) with 40 by (unfold lenN; by rewrite name_length).
  rewrite from_utf8_lossy_ascii by apply digits_ascii, name_digits. by apply string_of_name.
Qed.

(** A layer's name is read back from the forty hexadecimal digits it is
    written as, both from a string and from the bytes of a parent file. *)
Theorem name_roundtrip (name : layer_name) : name_ok name ->
  string_to_name (name_to_string name) = Ok name /\ bytes_to_name (name_to_string name) = Ok name.
Proof.
  intros Hok. split; [by apply string_of_name|by apply bytes_of_name].
Qed.

(** A line of digits, in front of others. *)
Lemma lines_digits cur s rest : Forall is_digit s -> Forall (fun c => c <> 13) cur ->
  lines_from cur (s ++ 10 :: rest) = (rev cur ++ s) :: lines_from [] rest.
Proof.
  revert cur. induction s as [|c s IH]; intros cur Hd Hc; cbn [app lines_from].
  - rewrite N.eqb_refl, app_nil_r. f_equal. destruct cur as [|c cur]; [done|].
    apply Forall_cons in Hc as [Hc _]. cbn [end_line]. apply N.eqb_neq in Hc as ->. done.
  - apply Forall_cons in Hd as [Hcd Hd]. unfold is_digit in Hcd.
    replace (c =? 10) with false by (symmetry; apply N.eqb_neq; lia).
    rewrite IH by (done || (constructor; [lia|done])). cbn [rev]. by rewrite <- app_assoc.
Qed.

Lemma lines_cons_digits s rest : Forall is_digit s -> lines (s ++ 10 :: rest) = s :: lines rest.
Proof. intros. unfold lines. by rewrite lines_digits by done. Qed.

Lemma name_roundtrip_witness : name_ok [1; 2 ^ 32 - 1; 0; 77; 5] /\
  string_to_name (name_to_string [1; 2 ^ 32 - 1; 0; 77; 5]) = Ok [1; 2 ^ 32 - 1; 0; 77; 5].
Proof.
  assert (name_ok [1; 2 ^ 32 - 1; 0; 77; 5]) as H by (apply (bool_decide_unpack _); vm_compute; exact I).
  split; [exact H|]. exact (proj1 (name_roundtrip _ H)).
Defined.
