(* ===== verification/Labels.v ===== *)
(** * Labels: the mutable pointers to layers (src/storage/label.rs)

    A label names a layer and counts its updates.  The memory store keeps a
    table of labels, the directory store a file per label; both promise the
    same optimistic update, which is the class [LabelStoreLaws].

    The names of labels are those that are a file name by themselves
    ([plain_name]): a name with a slash denotes a file of another directory,
    which the model of the directory store does not follow. *)

From stdpp Require Import gmap.
From S2P Require Import Prelude.
From S2P Require Import Words.
From S2P Require Import Strings.
From S2P Require Import LayerTypes.
From S2P Require Import Names.
From S2P Require Import StoreMonad.
Open Scope N_scope.

Module Label.

Record t : Type := mk { name : list N; layer : option layer_name; version : N }.

#[export] Instance t_eq_dec : EqDecision t.
Proof. solve_decision. Defined.

Definition new_empty (name : list N) : t := mk name None 0.
Definition new (name : list N) (layer : layer_name) : t := mk name (Some layer) 0.

(** Panics when the version overflows. *)
Definition with_updated_layer (self : t) (layer : option layer_name) : option t :=
  version ← cadd 64 (version self) 1; Some (mk (name self) layer version).

(** The values that the fields hold. *)
Definition ok (l : t) : Prop :=
  version l < 2 ^ 64 /\ match layer l with Some n => name_ok n | None => True end.

#[export] Instance ok_dec l : Decision (ok l).
Proof. unfold ok. destruct (layer l); apply _. Defined.

End Label.
Export (hints) Label.

(** The trait, with the state of the store explicit. *)
Class LabelStore (S : Type) := {
  labels : io S (list Label.t);
  create_label : list N -> io S Label.t;
  get_label : list N -> io S (option Label.t);
  set_label_option : Label.t -> option layer_name -> io S (option Label.t);
  delete_label : list N -> io S bool
}.

Section provided.
Context {S : Type} `{LabelStore S}.

Definition set_label (label : Label.t) (layer : layer_name) : io S (option Label.t) :=
  set_label_option label (Some layer).

Definition clear_label (label : Label.t) : io S (option Label.t) := set_label_option label None.
End provided.

(** ** The memory store *)
Module MemoryLabelStore.

(** The table of labels. *)
Definition t : Type := gmap (list N) Label.t.

Definition new : t := ∅.

(** In the order of the table. *)
Definition labels : io t (list Label.t) := io_read (fun labels => Ok (snd <$> map_to_list labels)).

Definition create_label (name : list N) : io t Label.t :=
  let label := Label.new_empty name in
  labels ← io_get;
  match labels !! Label.name label with
  | Some _ => io_err InvalidInput
  | None => _ ← io_put (<[Label.name label := label]> labels); mret label
  end.

Definition get_label (name : list N) : io t (option Label.t) :=
  io_read (fun labels => Ok (labels !! name)).

Definition set_label_option (label : Label.t) (layer : option layer_name) : io t (option Label.t) :=
  new_label ← io_opt (Label.with_updated_layer label layer);
  labels ← io_get;
  match labels !! Label.name new_label with
  | None => io_err InvalidInput
  | Some old_label =>
      next ← io_opt (cadd 64 (Label.version old_label) 1);
      if negb (next =? Label.version new_label) then mret None
      else _ ← io_put (<[Label.name new_label := new_label]> labels); mret (Some new_label)
  end.

Definition delete_label (name : list N) : io t bool :=
  labels ← io_get;
  _ ← io_put (delete name labels);
  mret (bool_decide (is_Some (labels !! name))).

#[export] Instance store : LabelStore t := {
  Labels.labels := labels;
  Labels.create_label := create_label;
  Labels.get_label := get_label;
  Labels.set_label_option := set_label_option;
  Labels.delete_label := delete_label
}.

End MemoryLabelStore.
Export (hints) MemoryLabelStore.

(** ** The directory store *)

(** [{}.label]. *)
Definition dot_label : list N := [46; 108; 97; 98; 101; 108].
Definition label_file (name : list N) : list N := name ++ dot_label.

(** [Path::file_stem] of a file name: what is before the last dot, if
    anything is. *)
Definition before_last_dot (s : list N) : list N :=
  match position 46 (rev s) with
  | Some i => takeN (lenN s - i - 1) s
  | None => []
  end.

Definition file_stem (file : list N) : list N :=
  if decide (file = [46; 46]) then file
  else match before_last_dot file with [] => file | stem => stem end.

(** [s.ends_with(suffix)]. *)
Definition ends_with (s suffix : list N) : bool :=
  bool_decide (dropN (lenN s - lenN suffix) s = suffix).

Definition get_label_from_data (name : list N) (data : list N) : outcome io_error Label.t :=
  let s := from_utf8_lossy data in
  match lines s with
  | [version_str; layer_str] =>
      match from_str_radix 64 10 version_str with
      | None => Err InvalidData
      | Some version =>
          if decide (layer_str = []) then Ok (Label.mk name None version)
          else
            layer ← string_to_name layer_str;
            Ok (Label.mk name (Some layer) version)
      end
  | _ => Err InvalidData
  end.

(** What [set_label_option] writes. *)
Definition label_contents (l : Label.t) : list N :=
  match Label.layer l with
  | None => digits 10 (Label.version l) ++ [10; 10]
  | Some layer => digits 10 (Label.version l) ++ [10] ++ name_to_string layer ++ [10]
  end.

Module DirectoryLabelStore.

(** The files of the directory, and those of the directory the process runs
    in. *)
Record t : Type := mk { files : gmap (list N) (list N); current_dir : gmap (list N) (list N) }.

Definition set_file (file data : list N) : io t () :=
  fun s => (mk (<[file := data]> (files s)) (current_dir s), Ok ()).

(** Opening a file under a shared or an exclusive lock, and reading it. *)
Definition read_locked (files : gmap (list N) (list N)) (file : list N) : outcome io_error (list N) :=
  match files !! file with Some data => Ok data | None => Err NotFound end.

Definition get_label_from_file (files : gmap (list N) (list N)) (file : list N) : outcome io_error Label.t :=
  let label := file_stem file in
  data ← read_locked files file;
  get_label_from_data label data.

Definition get_label_from_exclusive_locked_file (file : list N) : io t Label.t :=
  io_read (fun s =>
    let label := file_stem file in
    data ← read_locked (files s) file;
    get_label_from_data label data).

(** The entry's bare name is opened, which is a path relative to the
    directory the process runs in. *)
Definition labels : io t (list Label.t) :=
  s ← io_get;
  io_lift (fold_outcome
    (fun result name =>
       if ends_with name dot_label then
         label ← get_label_from_file (current_dir s) name;
         Ok (result ++ [label])
       else Ok result)
    [] (fst <$> map_to_list (files s))).

(** [ExclusiveLockedFile::create_and_open]: a new file, empty, and then a lock
    on it.  A file that is there is an error. *)
Definition create_and_open (p : list N) : io t () :=
  s ← io_get;
  match files s !! p with
  | Some _ => io_err Other
  | None => set_file p []
  end.

(** Asking for the file, creating it and writing it are steps of their own on
    the disk: see [between_steps_of_create]. *)
Definition create_label (label : list N) : io t Label.t :=
  let p := label_file label in
  s ← io_get;
  match files s !! p with
  | Some _ => io_err InvalidInput
  | None => _ ← create_and_open p; _ ← set_file p [48; 10; 10]; mret (Label.new_empty label)
  end.

Definition get_label (label : list N) : io t (option Label.t) :=
  io_read (fun s =>
    match get_label_from_file (files s) (label_file label) with
    | Ok label => Ok (Some label)
    | Err NotFound => Ok None
    | Err e => Err e
    | Panic => Panic
    end).

Definition set_label_option (label : Label.t) (layer : option layer_name) : io t (option Label.t) :=
  new_label ← io_opt (Label.with_updated_layer label layer);
  let contents := label_contents new_label in
  let p := label_file (Label.name label) in
  retrieved_label ← get_label_from_exclusive_locked_file p;
  if decide (retrieved_label = label) then
    _ ← set_file p contents; mret (Some new_label)
  else mret None.

Definition delete_label (name : list N) : io t bool :=
  let p := label_file name in
  fun s =>
    match files s !! p with
    | Some _ => (mk (delete p (files s)) (current_dir s), Ok true)
    | None => (s, Ok false)
    end.

#[export] Instance store : LabelStore t := {
  Labels.labels := labels;
  Labels.create_label := create_label;
  Labels.get_label := get_label;
  Labels.set_label_option := set_label_option;
  Labels.delete_label := delete_label
}.

End DirectoryLabelStore.
Export (hints) DirectoryLabelStore.

(** A name that is a file name. *)
Definition plain_name (name : list N) : Prop := name <> [] /\ Forall (fun c => c <> 47 /\ c <> 0) name.

#[export] Instance plain_name_dec name : Decision (plain_name name).
Proof. unfold plain_name. apply _. Defined.

(** ** Operations as data *)

Inductive label_op : Type :=
| Create (name : list N)
| Get (name : list N)
| SetOption (label : Label.t) (layer : option layer_name)
| Delete (name : list N).

Inductive label_answer : Type :=
| Labelled (label : option Label.t)
| Deleted (was_there : bool).

Definition run_op {S} `{LabelStore S} (op : label_op) : io S label_answer :=
  match op with
  | Create name => l ← create_label name; mret (Labelled (Some l))
  | Get name => l ← get_label name; mret (Labelled l)
  | SetOption label layer => l ← set_label_option label layer; mret (Labelled l)
  | Delete name => b ← delete_label name; mret (Deleted b)
  end.

Definition layer_ok (layer : option layer_name) : Prop :=
  match layer with Some n => name_ok n | None => True end.

#[export] Instance layer_ok_dec layer : Decision (layer_ok layer).
Proof. unfold layer_ok. destruct layer; apply _. Defined.

Definition op_name (op : label_op) : list N :=
  match op with Create n | Get n | Delete n => n | SetOption l _ => Label.name l end.

(** ** What a label store promises

    [shows s m]: the labels of the store [s] are those of [m]. *)
Class LabelStoreLaws (S : Type) `{LabelStore S} (shows : S -> gmap (list N) Label.t -> Prop) := {
  create_fresh s m n : shows s m -> plain_name n -> m !! n = None ->
    exists s', create_label n s = (s', Ok (Label.new_empty n)) /\ shows s' (<[n := Label.new_empty n]> m);
  create_taken s m n : shows s m -> plain_name n -> is_Some (m !! n) ->
    create_label n s = (s, Err InvalidInput);
  get_shown s m n : shows s m -> plain_name n -> get_label n s = (s, Ok (m !! n));
  set_overflow s l layer : Label.with_updated_layer l layer = None ->
    set_label_option l layer s = (s, Panic);
  set_missing s m l layer l' : shows s m -> plain_name (Label.name l) -> m !! Label.name l = None ->
    Label.with_updated_layer l layer = Some l' -> exists e, set_label_option l layer s = (s, Err e);
  set_current s m l layer l' : shows s m -> plain_name (Label.name l) -> m !! Label.name l = Some l ->
    Label.with_updated_layer l layer = Some l' -> layer_ok layer ->
    exists s', set_label_option l layer s = (s', Ok (Some l')) /\ shows s' (<[Label.name l := l']> m);
  set_stale s m l layer l' cur : shows s m -> plain_name (Label.name l) -> m !! Label.name l = Some cur ->
    Label.version cur <> Label.version l -> Label.with_updated_layer l layer = Some l' ->
    set_label_option l layer s = (s, Ok None) \/
    (set_label_option l layer s = (s, Panic) /\ 2 ^ 64 <= Label.version cur + 1);
  delete_shown s m n : shows s m -> plain_name n ->
    exists s', delete_label n s = (s', Ok (bool_decide (is_Some (m !! n)))) /\ shows s' (delete n m)
}.

(** ** The memory store *)

Lemma with_updated_Some l layer l' : Label.with_updated_layer l layer = Some l' ->
  l' = Label.mk (Label.name l) layer (Label.version l + 1) /\ Label.version l + 1 < 2 ^ 64.
Proof.
  unfold Label.with_updated_layer, cadd. destruct (N.ltb_spec (Label.version l + 1) (2 ^ 64)); [|done].
  cbn. by intros [= <-].
Qed.

Lemma with_updated_eq l layer : Label.version l + 1 < 2 ^ 64 ->
  Label.with_updated_layer l layer = Some (Label.mk (Label.name l) layer (Label.version l + 1)).
Proof. unfold Label.with_updated_layer, cadd. by intros ->%N.ltb_lt. Qed.

Ltac run_label := unfold MemoryLabelStore.t in *; cbn [Label.name Label.version Label.layer Label.new_empty or_panic mret io_ret io_put io_err negb
                       mbind option_bind assert_].

#[export] Instance memory_laws : LabelStoreLaws MemoryLabelStore.t (fun s m => s = m).
Proof.
  split; cbn [create_label get_label set_label_option delete_label MemoryLabelStore.store].
  - intros s m n -> _ Hn. unfold MemoryLabelStore.create_label, mbind, io_bind, io_get. run_label. rewrite Hn. eauto.
  - intros s m n -> _ [l Hl]. unfold MemoryLabelStore.create_label, mbind, io_bind, io_get. run_label. by rewrite Hl.
  - by intros s m n -> _.
  - intros s l layer Hu. unfold MemoryLabelStore.set_label_option, mbind, io_bind, io_opt. by rewrite Hu.
  - intros s m l layer l' -> _ Hn Hu. exists InvalidInput.
    unfold MemoryLabelStore.set_label_option, mbind, io_bind, io_opt, io_get. rewrite Hu. cbn.
    apply with_updated_Some in Hu as [-> _]. run_label. by rewrite Hn.
  - intros s m l layer l' -> _ Hl Hu _. exists (<[Label.name l := l']> m). split; [|done].
    unfold MemoryLabelStore.set_label_option, mbind, io_bind, io_opt, io_get. rewrite Hu. cbn.
    apply with_updated_Some in Hu as [-> Hv]. run_label. rewrite Hl. unfold cadd. apply N.ltb_lt in Hv as ->.
    run_label. by rewrite N.eqb_refl.
  - intros s m l layer l' cur -> _ Hl Hne Hu.
    unfold MemoryLabelStore.set_label_option, mbind, io_bind, io_opt, io_get. rewrite Hu. cbn.
    apply with_updated_Some in Hu as [-> Hv]. run_label. rewrite Hl. unfold cadd.
    destruct (N.ltb_spec (Label.version cur + 1) (2 ^ 64)); cbn; [left|right; by split].
    replace (Label.version cur + 1 =? Label.version l + 1) with false by (symmetry; apply N.eqb_neq; lia). done.
  - intros s m n -> _. unfold MemoryLabelStore.delete_label, mbind, io_bind, io_get, io_put. eauto.
Qed.

(** ** Label files *)

Lemma label_file_stem name : name <> [] -> file_stem (label_file name) = name.
Proof.
  intros Hn. assert (before_last_dot (label_file name) = name) as E.
  { unfold before_last_dot, label_file. rewrite rev_app_distr.
    change (rev dot_label ++ rev name) with ([108; 101; 98; 97; 108] ++ 46 :: rev name).
    rewrite position_app by (repeat constructor; done).
    replace (lenN (name ++ dot_label) - lenN [108; 101; 98; 97; 108] - 1) with (lenN name)
      by (len_simpl; change (lenN dot_label) with 6; change (lenN [108; 101; 98; 97; 108]) with 5; lia).
    apply takeN_app. }
  unfold file_stem. rewrite E. rewrite decide_False.
  - by destruct name.
  - unfold label_file. destruct name as [|a [|b name]]; [done|done|]. cbn. destruct name; done.
Qed.

Lemma label_file_inj : Inj (=) (=) label_file.
Proof. intros a b H. by apply app_inv_tail in H. Qed.

Lemma digits_lossless s t : Forall is_digit s -> Forall is_digit t ->
  from_utf8_lossy (s ++ [10] ++ t ++ [10]) = s ++ 10 :: t ++ [10].
Proof.
  intros Hs Ht. apply from_utf8_lossy_ascii. apply Forall_app. split; [by apply digits_ascii|].
  constructor; [done|]. apply Forall_app. split; [by apply digits_ascii|by constructor].
Qed.

Lemma decimal_digits n : Forall is_digit (digits 10 n).
Proof. apply digits_all_digits. lia. Qed.

Lemma label_data l name : Label.ok l ->
  get_label_from_data name (label_contents l) = Ok (Label.mk name (Label.layer l) (Label.version l)).
Proof.
  intros [Hv Hl]. unfold get_label_from_data, label_contents. destruct (Label.layer l) as [layer|].
  - rewrite digits_lossless by (apply decimal_digits || apply name_digits).
    rewrite lines_cons_digits by apply decimal_digits. rewrite lines_cons_digits by apply name_digits.
    cbn [lines lines_from]. rewrite parse_decimal by done. mcbn. rewrite decide_False.
    + by rewrite string_of_name.
    + intros E. pose proof (name_length _ Hl) as Hlen. by rewrite E in Hlen.
  - rewrite (digits_lossless _ []) by (apply decimal_digits || done).
    rewrite lines_cons_digits by apply decimal_digits. change (lines ([] ++ [10])) with [@nil N].
    cbn iota beta. by rewrite parse_decimal.
Qed.

(** ** The directory store *)

Module DirectoryShows.

(** Every label has its file; there may be other files. *)
Record shows (s : DirectoryLabelStore.t) (m : gmap (list N) Label.t) : Prop := {
  label_name n l : m !! n = Some l -> Label.name l = n /\ Label.ok l;
  label_there n l : m !! n = Some l ->
    DirectoryLabelStore.files s !! label_file n = Some (label_contents l);
  label_absent n : m !! n = None -> DirectoryLabelStore.files s !! label_file n = None
}.

End DirectoryShows.

Section directory.
Import DirectoryLabelStore DirectoryShows.
Context (s : t) (m : gmap (list N) Label.t) (Hshows : shows s m).

Lemma shows_read n : plain_name n ->
  get_label_from_file (files s) (label_file n) =
  match m !! n with Some l => Ok l | None => Err NotFound end.
Proof using Hshows.
  intros [Hn _]. unfold get_label_from_file, read_locked. rewrite label_file_stem by done.
  destruct (m !! n) as [l|] eqn:E.
  - rewrite (label_there _ _ Hshows _ _ E). mcbn. destruct (label_name _ _ Hshows _ _ E) as [Hname Hok].
    rewrite label_data by done. subst. by destruct l.
  - by rewrite (label_absent _ _ Hshows _ E).
Qed.

Lemma shows_insert n l : Label.name l = n -> Label.ok l ->
  shows (mk (<[label_file n := label_contents l]> (files s)) (current_dir s)) (<[n := l]> m).
Proof using Hshows.
  intros Hn Hok. split; cbn [files].
  - intros n' l' [[<- <-]|[_ Hl]]%lookup_insert_Some; [done|by apply (label_name _ _ Hshows)].
  - intros n' l' [[<- <-]|[Hne Hl]]%lookup_insert_Some; [apply lookup_insert_eq|].
    rewrite lookup_insert_ne by (intros ?%label_file_inj; done). by apply (label_there _ _ Hshows).
  - intros n' [Hl Hne]%lookup_insert_None. rewrite lookup_insert_ne by (intros ?%label_file_inj; done).
    by apply (label_absent _ _ Hshows).
Qed.

Lemma shows_delete n : shows (mk (delete (label_file n) (files s)) (current_dir s)) (delete n m).
Proof using Hshows.
  split; cbn [files].
  - intros n' l' [_ Hl]%lookup_delete_Some. by apply (label_name _ _ Hshows).
  - intros n' l' [Hne Hl]%lookup_delete_Some.
    rewrite lookup_delete_ne by (intros ?%label_file_inj; done). by apply (label_there _ _ Hshows).
  - intros n' [->|Hl]%lookup_delete_None; [apply lookup_delete_eq|].
    apply lookup_delete_None. right. by apply (label_absent _ _ Hshows).
Qed.
End directory.

Section directory_ops.
Import DirectoryLabelStore DirectoryShows.

Lemma read_exclusive s n : get_label_from_exclusive_locked_file (label_file n) s =
  (s, get_label_from_file (files s) (label_file n)).
Proof. done. Qed.

Lemma updated_ok l layer l' : Label.with_updated_layer l layer = Some l' -> layer_ok layer -> Label.ok l'.
Proof. intros [-> Hv]%with_updated_Some Hl. by split. Qed.

(** The compare-and-set of the directory store. *)
Lemma directory_set s m l layer l' : shows s m -> plain_name (Label.name l) ->
  Label.with_updated_layer l layer = Some l' ->
  set_label_option l layer s =
  match m !! Label.name l with
  | None => (s, Err NotFound)
  | Some cur => if decide (cur = l)
                then (mk (<[label_file (Label.name l) := label_contents l']> (files s)) (current_dir s), Ok (Some l'))
                else (s, Ok None)
  end.
Proof.
  intros Hs Hn Hu. unfold set_label_option, mbind, io_bind, io_opt. rewrite Hu. cbn [or_panic].
  rewrite read_exclusive, (shows_read s m) by done. destruct (m !! Label.name l) as [cur|]; [|done].
  by destruct (decide (cur = l)).
Qed.

(** While a label is created: the empty file can be seen before it is locked
    and written.  Whoever reads or updates the label then gets an error, whoever
    creates it as well, even if there was no file when they looked; the other
    labels are as they were, and writing ends in the label that was asked for. *)
Lemma between_steps_of_create s m n : shows s m -> plain_name n -> m !! n = None ->
  let s' := mk (<[label_file n := []]> (files s)) (current_dir s) in
  create_and_open (label_file n) s = (s', Ok ()) /\
  get_label n s' = (s', Err InvalidData) /\
  (forall l layer l', Label.name l = n -> Label.with_updated_layer l layer = Some l' -> set_label_option l layer s' = (s', Err InvalidData)) /\
  create_label n s' = (s', Err InvalidInput) /\ create_and_open (label_file n) s' = (s', Err Other) /\
  (forall n', n' <> n -> plain_name n' -> get_label n' s' = (s', Ok (m !! n'))) /\
  exists s'', set_file (label_file n) [48; 10; 10] s' = (s'', Ok ()) /\ create_label n s = (s'', Ok (Label.new_empty n)) /\
    shows s'' (<[n := Label.new_empty n]> m).
Proof.
  intros Hs Hp Hn s'. assert (Hf : files s' !! label_file n = Some []) by apply lookup_insert_eq.
  assert (Hr : get_label_from_file (files s') (label_file n) = Err InvalidData).
  { unfold get_label_from_file, read_locked. by rewrite Hf. }
  split; [unfold create_and_open, mbind, io_bind, io_get; by rewrite (label_absent _ _ Hs)|].
  split; [unfold get_label, io_read; by rewrite Hr|]. split.
  { intros l layer l' Hl Hu. unfold set_label_option, mbind, io_bind, io_opt. rewrite Hu. cbn [or_panic]. by rewrite Hl, read_exclusive, Hr. }
  split; [unfold create_label, mbind, io_bind, io_get; by rewrite Hf|].
  split; [unfold create_and_open, mbind, io_bind, io_get; by rewrite Hf|]. split.
  - intros n' Hne Hp'. unfold get_label, io_read. replace (get_label_from_file (files s') (label_file n')) with
      (get_label_from_file (files s) (label_file n')).
    + rewrite (shows_read s m) by done. by destruct (m !! n').
    + unfold get_label_from_file, read_locked. unfold s'. cbn [files]. rewrite lookup_insert_ne; [done|]. by intros E%label_file_inj.
  - exists (mk (<[label_file n := [48; 10; 10]]> (files s)) (current_dir s)). split; [|split].
    + unfold set_file, s'. cbn [files current_dir]. by rewrite insert_insert_eq.
    + unfold create_label, create_and_open, mbind, io_bind, io_get, set_file. rewrite !(label_absent _ _ Hs) by done. cbn [files].
      by rewrite insert_insert_eq.
    + by apply (shows_insert s m Hs n (Label.new_empty n)).
Qed.

#[export] Instance directory_laws : LabelStoreLaws t shows.
Proof.
  split; cbn [Labels.create_label Labels.get_label Labels.set_label_option Labels.delete_label store].
  - intros s m n Hs Hp Hn. destruct (between_steps_of_create s m n Hs Hp Hn) as (_ & _ & _ & _ & _ & _ & s'' & _ & Hc & Hs''). by exists s''.
  - intros s m n Hs Hp [l Hl]. unfold create_label, mbind, io_bind, io_get. by rewrite (label_there _ _ Hs _ _ Hl).
  - intros s m n Hs Hp. unfold get_label, io_read. rewrite (shows_read s m) by done. by destruct (m !! n).
  - intros s l layer Hu. unfold set_label_option, mbind, io_bind, io_opt. by rewrite Hu.
  - intros s m l layer l' Hs Hp Hn Hu. exists NotFound. rewrite (directory_set s m l layer l') by done. by rewrite Hn.
  - intros s m l layer l' Hs Hp Hl Hu Hk. eexists. split.
    + rewrite (directory_set s m l layer l') by done. by rewrite Hl, decide_True.
    + apply shows_insert; [done| |by eapply updated_ok]. by apply with_updated_Some in Hu as [-> _].
  - intros s m l layer l' cur Hs Hp Hl Hne Hu. left. rewrite (directory_set s m l layer l') by done.
    rewrite Hl, decide_False; [done|]. by intros ->.
  - intros s m n Hs Hp. unfold delete_label. destruct (m !! n) as [l|] eqn:Hl.
    + rewrite (label_there _ _ Hs _ _ Hl). eexists. split; [reflexivity|]. by apply shows_delete.
    + rewrite (label_absent _ _ Hs _ Hl). exists s. split; [done|]. by rewrite delete_id.
Qed.
End directory_ops.

(** A label file holds its label: what [set_label_option] writes for a
    label is read back as that label. *)
Theorem label_file_roundtrip (s : DirectoryLabelStore.t) (l : Label.t) : plain_name (Label.name l) -> Label.ok l ->
  DirectoryLabelStore.get_label_from_file (<[label_file (Label.name l) := label_contents l]> (DirectoryLabelStore.files s))
    (label_file (Label.name l)) = Ok l.
Proof.
  intros [Hn _] Hok. unfold DirectoryLabelStore.get_label_from_file, DirectoryLabelStore.read_locked.
  rewrite lookup_insert_eq, label_file_stem by done. mcbn. rewrite label_data by done. by destruct l.
Qed.

(** The two stores answer alike, up to the kind of an error. *)
Definition same_answer {A} (r r' : outcome io_error A) : Prop :=
  match r, r' with
  | Ok a, Ok b => a = b
  | Err _, Err _ => True
  | Panic, Panic => True
  | _, _ => False
  end.

(** What a caller must respect: plain names, and a label it updates is, if
    its version is the current one, the current label. *)
Definition op_allowed (m : gmap (list N) Label.t) (op : label_op) : Prop :=
  plain_name (op_name op) /\
  match op with
  | SetOption l layer =>
      layer_ok layer /\
      forall cur, m !! Label.name l = Some cur ->
        Label.version cur + 1 < 2 ^ 64 /\ (Label.version cur = Label.version l -> cur = l)
  | _ => True
  end.

Lemma run_op_bind {S A} (m : io S A) (f : A -> label_answer) s s' r : m s = (s', r) ->
  (m ≫= (fun a => mret (f a))) s = (s', f <$> r).
Proof. intros E. unfold mbind, io_bind. rewrite E. by destruct r. Qed.

(** Two stores with the same labels. *)
Section two_stores.
Context {S S' : Type} `{HS : LabelStore S, HS' : LabelStore S'} {shows shows'}
        `{!LabelStoreLaws S shows, !LabelStoreLaws S' shows'}.

Lemma two_stores_agree s s' m op : shows s m -> shows' s' m -> op_allowed m op ->
  exists m', shows (run_op op s).1 m' /\ shows' (run_op op s').1 m' /\
             same_answer (run_op op s).2 (run_op op s').2.
Proof.
  intros Hs Hs' [Hp Hop]. destruct op as [n|n|l layer|n]; cbn [op_name] in Hp; unfold run_op.
  - destruct (m !! n) as [l|] eqn:Hl.
    + exists m. do 2 erewrite run_op_bind by (eapply create_taken; eauto). by split_and!.
    + exists (<[n := Label.new_empty n]> m).
      destruct (create_fresh s m n Hs Hp Hl) as (s1 & E & H1), (create_fresh s' m n Hs' Hp Hl) as (s1' & E' & H1').
      rewrite (run_op_bind _ _ _ _ _ E), (run_op_bind _ _ _ _ _ E'). by split_and!.
  - exists m. do 2 erewrite run_op_bind by (eapply get_shown; eauto). by split_and!.
  - destruct Hop as [Hk Hop].
    destruct (Label.with_updated_layer l layer) as [l'|] eqn:Hu.
    + destruct (m !! Label.name l) as [cur|] eqn:Hl.
      * destruct (Hop cur eq_refl) as [Hb Heq]. destruct (decide (Label.version cur = Label.version l)) as [Hv|Hv].
        -- rewrite (Heq Hv) in *. exists (<[Label.name l := l']> m).
           destruct (set_current s m l layer l' Hs Hp Hl Hu Hk) as (s1 & E & H1).
           destruct (set_current s' m l layer l' Hs' Hp Hl Hu Hk) as (s1' & E' & H1').
           rewrite (run_op_bind _ _ _ _ _ E), (run_op_bind _ _ _ _ _ E'). by split_and!.
        -- exists m.
           destruct (set_stale s m l layer l' cur Hs Hp Hl Hv Hu) as [E|[_ ?]]; [|lia].
           destruct (set_stale s' m l layer l' cur Hs' Hp Hl Hv Hu) as [E'|[_ ?]]; [|lia].
           rewrite (run_op_bind _ _ _ _ _ E), (run_op_bind _ _ _ _ _ E'). by split_and!.
      * exists m. destruct (set_missing s m l layer l' Hs Hp Hl Hu) as [e E].
        destruct (set_missing s' m l layer l' Hs' Hp Hl Hu) as [e' E'].
        rewrite (run_op_bind _ _ _ _ _ E), (run_op_bind _ _ _ _ _ E'). by split_and!.
    + exists m. pose proof (set_overflow s l layer Hu) as E. pose proof (set_overflow s' l layer Hu) as E'.
      rewrite (run_op_bind _ _ _ _ _ E), (run_op_bind _ _ _ _ _ E'). by split_and!.
  - exists (delete n m).
    destruct (delete_shown s m n Hs Hp) as (s1 & E & H1), (delete_shown s' m n Hs' Hp) as (s1' & E' & H1').
    rewrite (run_op_bind _ _ _ _ _ E), (run_op_bind _ _ _ _ _ E'). by split_and!.
Qed.
End two_stores.

(** C19: the directory store is a memory store whose table is kept in files:
    from related states every operation gives the same answer (up to the kind
    of an error) and related states, provided the caller passes a label that
    is current if its version is. *)
Theorem directory_refines_memory (d : DirectoryLabelStore.t) (m : MemoryLabelStore.t) (op : label_op) :
  DirectoryShows.shows d m -> op_allowed m op ->
  DirectoryShows.shows (run_op op d).1 (run_op op m).1 /\ same_answer (run_op op d).2 (run_op op m).2.
Proof.
  intros Hd Hop. destruct (two_stores_agree d m m op Hd eq_refl Hop) as (m' & H1 & H2 & H3). by subst m'.
Qed.

(** ** Clients that share a store *)

Section clients.
Context {S : Type} `{HS : LabelStore S} {shows} `{!LabelStoreLaws S shows}.

(** The labels an answer teaches. *)
Definition learned (r : outcome io_error label_answer) : list Label.t :=
  match r with Ok (Labelled (Some l)) => [l] | _ => [] end.

(** What the clients may do: update only labels that the store has given, and
    delete none. *)
Definition client_op (known : list Label.t) (op : label_op) : Prop :=
  plain_name (op_name op) /\
  match op with
  | SetOption l layer => l ∈ known /\ layer_ok layer
  | Delete _ => False
  | _ => True
  end.

(** One operation of some client; [known] are the labels that any client has
    seen. *)
Inductive client_step : S * list Label.t -> S * list Label.t -> Prop :=
| do_op s known op :
    client_op known op ->
    client_step (s, known) ((run_op op s).1, learned (run_op op s).2 ++ known).

Record history_ok (m : gmap (list N) Label.t) (known : list Label.t) : Prop := {
  named_so n l : m !! n = Some l -> Label.name l = n;
  not_ahead l : l ∈ known -> exists cur, m !! Label.name l = Some cur /\
    Label.version l <= Label.version cur /\ (Label.version l = Label.version cur -> l = cur);
  one_value l l' : l ∈ known -> l' ∈ known -> Label.name l = Label.name l' ->
    Label.version l = Label.version l' -> l = l'
}.

Lemma history_learn m known cur : history_ok m known -> m !! Label.name cur = Some cur ->
  history_ok m (cur :: known).
Proof.
  intros [Hn Ha Ho] Hc.
  assert (forall l, l ∈ known -> Label.name l = Label.name cur -> Label.version l = Label.version cur -> l = cur) as Hk.
  { intros l Hl En Ev. destruct (Ha l Hl) as (cur' & E & _ & H). rewrite En in E.
    assert (cur' = cur) as -> by congruence. by apply H. }
  split; [done| |].
  - intros l [->|Hl]%elem_of_cons; [|by apply Ha]. exists cur. split; [done|]. split; [lia|done].
  - intros l l' [->|Hl]%elem_of_cons [->|Hl']%elem_of_cons En Ev; [done| |by apply Hk|by apply Ho].
    symmetry. by apply Hk.
Qed.

Lemma history_update m known l : history_ok m known ->
  match m !! Label.name l with None => True | Some cur => Label.version cur < Label.version l end ->
  history_ok (<[Label.name l := l]> m) (l :: known).
Proof.
  intros [Hn Ha Ho] Hv. apply history_learn; [|apply lookup_insert_eq]. split.
  - intros n l' [[<- <-]|[_ Hl]]%lookup_insert_Some; [done|by apply Hn].
  - intros l' Hl'. destruct (Ha l' Hl') as (cur & E & Hle & Heq).
    destruct (decide (Label.name l = Label.name l')) as [En|En].
    + exists l. rewrite En, lookup_insert_eq in *. rewrite E in Hv. split; [done|]. split; [lia|]. intros Hvl. lia.
    + exists cur. by rewrite lookup_insert_ne.
  - done.
Qed.

Lemma client_step_ok s known s' known' m : client_step (s, known) (s', known') ->
  shows s m -> history_ok m known -> exists m', shows s' m' /\ history_ok m' known'.
Proof using LabelStoreLaws0.
  intros Hstep Hs Hh. inversion Hstep as [? ? op [Hp Hop]]. subst. clear Hstep.
  destruct op as [n|n|l layer|n]; cbn [op_name] in Hp; unfold run_op; [| | |done].
  - destruct (m !! n) as [l|] eqn:Hl.
    + erewrite run_op_bind by (eapply create_taken; eauto). by exists m.
    + destruct (create_fresh s m n Hs Hp Hl) as (s1 & E & H1). rewrite (run_op_bind _ _ _ _ _ E).
      eexists. split; [exact H1|]. apply (history_update m known (Label.new_empty n)); [done|]. cbn. by rewrite Hl.
  - erewrite run_op_bind by (eapply get_shown; eauto). exists m. split; [done|]. cbn.
    destruct (m !! n) as [l|] eqn:Hl; [|done]. cbn. apply history_learn; [done|].
    by rewrite (named_so _ _ Hh _ _ Hl).
  - destruct Hop as [Hk Hlayer].
    destruct (Label.with_updated_layer l layer) as [l'|] eqn:Hu.
    + destruct (not_ahead _ _ Hh l Hk) as (cur & Hl & Hle & Heq).
      destruct (decide (Label.version cur = Label.version l)) as [Hv|Hv].
      * assert (l = cur) as <- by (apply Heq; congruence).
        destruct (set_current s m l layer l' Hs Hp Hl Hu Hlayer) as (s1 & E & H1).
        rewrite (run_op_bind _ _ _ _ _ E). eexists. split; [exact H1|]. cbn.
        apply with_updated_Some in Hu as [-> _].
        apply (history_update m known (Label.mk (Label.name l) layer (Label.version l + 1))); [done|].
        cbn [Label.name]. rewrite Hl. cbn. lia.
      * exists m. destruct (set_stale s m l layer l' cur Hs Hp Hl Hv Hu) as [E|[E _]];
          rewrite (run_op_bind _ _ _ _ _ E); done.
    + exists m. rewrite (run_op_bind _ _ _ _ _ (set_overflow s l layer Hu)). done.
Qed.

Lemma client_run_ok s known s' known' m : rtc client_step (s, known) (s', known') ->
  shows s m -> history_ok m known ->
  (exists m', shows s' m' /\ history_ok m' known') /\ known ⊆ known'.
Proof using LabelStoreLaws0.
  intros Hrun. remember (s, known) as x eqn:Ex. remember (s', known') as y eqn:Ey.
  revert s known m Ex. induction Hrun as [x|x [s1 k1] y Hstep _ IH]; intros s known m Ex Hs Hh; subst.
  - injection Ex as -> ->. split; [by exists m|done].
  - destruct (client_step_ok _ _ _ _ _ Hstep Hs Hh) as (m1 & Hs1 & Hh1).
    destruct (IH eq_refl s1 k1 m1 eq_refl Hs1 Hh1) as [Hend Hsub]. split; [done|].
    etransitivity; [|exact Hsub]. inversion Hstep. subst. intros l Hl. apply elem_of_app. by right.
Qed.

(** C20: the history of a label is a line.  Whatever clients create, read and
    update labels, in any interleaving: every label any of them has seen is at
    most as new as the stored one and is the stored one if it is as new, and
    two that agree on name and version agree on the layer.  Every operation is
    one step here; what is seen of a label file between its creation and its
    first contents are errors only (between_steps_of_create). *)
Theorem label_history (s0 s : S) (known : list Label.t) :
  shows s0 ∅ -> rtc client_step (s0, []) (s, known) ->
  exists m, shows s m /\
    (forall l, l ∈ known -> exists cur, m !! Label.name l = Some cur /\
       Label.version l <= Label.version cur /\ (Label.version l = Label.version cur -> l = cur)) /\
    (forall l l', l ∈ known -> l' ∈ known -> Label.name l = Label.name l' ->
       Label.version l = Label.version l' -> Label.layer l = Label.layer l').
Proof using LabelStoreLaws0.
  intros Hs Hrun. destruct (client_run_ok _ _ _ _ ∅ Hrun Hs) as [(m & Hm & [_ Ha Ho]) _].
  { split; intros *; [by rewrite lookup_empty|intros []%elem_of_nil|intros []%elem_of_nil]. }
  exists m. split; [done|]. split; [done|]. intros l l' Hl Hl' En Ev. by rewrite (Ho l l').
Qed.

(** C21: of the updates of one version of a label at most one succeeds: once a
    client has updated [l], an update of [l] by any client, after any steps of
    the others, is refused (or overflows). *)
Theorem one_update_wins (s0 s s1 s2 s3 : S) known known' (l l1 : Label.t) a b r :
  shows s0 ∅ -> rtc client_step (s0, []) (s, known) ->
  l ∈ known -> plain_name (Label.name l) -> layer_ok a -> layer_ok b ->
  set_label_option l a s = (s1, Ok (Some l1)) ->
  rtc client_step (s1, l1 :: known) (s2, known') ->
  set_label_option l b s2 = (s3, r) ->
  r = Ok None \/ r = Panic.
Proof using LabelStoreLaws0.
  intros Hs0 Hrun Hl Hp Ha Hb Hset Hrun' Hset'.
  destruct (client_run_ok _ _ _ _ ∅ Hrun Hs0) as [(m & Hm & Hh) _].
  { split; intros *; [by rewrite lookup_empty|intros []%elem_of_nil|intros []%elem_of_nil]. }
  assert (client_step (s, known) (s1, l1 :: known)) as Hstep.
  { pose proof (do_op s known (SetOption l a) (conj Hp (conj Hl Ha))) as H. cbn [run_op] in H.
    by rewrite (run_op_bind _ _ _ _ _ Hset) in H. }
  destruct (client_step_ok _ _ _ _ _ Hstep Hm Hh) as (m1 & Hm1 & Hh1).
  destruct (client_run_ok _ _ _ _ _ Hrun' Hm1 Hh1) as [(m2 & Hm2 & Hh2) Hsub].
  destruct (Label.with_updated_layer l a) as [l'|] eqn:Hu; [|by rewrite set_overflow in Hset].
  assert (l1 = l') as ->.
  { destruct (not_ahead _ _ Hh l Hl) as (cur & E & _ & Heq).
    destruct (decide (Label.version cur = Label.version l)) as [Hv|Hv].
    - assert (l = cur) as <- by (apply Heq; congruence).
      destruct (set_current s m l a l' Hm Hp E Hu Ha) as (? & E' & _). congruence.
    - destruct (set_stale s m l a l' cur Hm Hp E Hv Hu) as [E'|[E' _]]; congruence. }
  apply with_updated_Some in Hu as [-> Hv].
  destruct (not_ahead _ _ Hh2 (Label.mk (Label.name l) a (Label.version l + 1))) as (cur & E & Hle & _).
  { apply Hsub. by apply elem_of_cons; left. }
  cbn [Label.name Label.version] in E, Hle.
  pose proof (with_updated_eq l b Hv) as Hu'.
  destruct (set_stale s2 m2 l b _ cur Hm2 Hp E ltac:(lia) Hu') as [E'|[E' _]]; rewrite E' in Hset'; injection Hset' as _ <-; auto.
Qed.
End clients.

(** ** Concrete stores *)

Definition sample_name : layer_name := [0x12345678; 0; 0xffffffff; 7; 0xdeadbeef].
(** [main]. *)
Definition sample_label : list N := [109; 97; 105; 110].

Example sample_name_text : name_to_string sample_name =
  [49; 50; 51; 52; 53; 54; 55; 56; 48; 48; 48; 48; 48; 48; 48; 48; 102; 102; 102; 102; 102; 102; 102; 102;
   48; 48; 48; 48; 48; 48; 48; 55; 100; 101; 97; 100; 98; 101; 101; 102].
Proof. vm_compute. reflexivity. Qed.

Lemma label_file_roundtrip_witness :
  plain_name sample_label /\ Label.ok (Label.mk sample_label (Some sample_name) 12) /\
  DirectoryLabelStore.get_label_from_file
    (<[label_file sample_label := label_contents (Label.mk sample_label (Some sample_name) 12)]> ∅)
    (label_file sample_label) = Ok (Label.mk sample_label (Some sample_name) 12).
Proof.
  assert (plain_name sample_label) as Hp by (apply (bool_decide_unpack _); vm_compute; exact I).
  assert (Label.ok (Label.mk sample_label (Some sample_name) 12)) as Hok
    by (apply (bool_decide_unpack _); vm_compute; exact I).
  split; [exact Hp|]. split; [exact Hok|].
  exact (label_file_roundtrip (DirectoryLabelStore.mk ∅ ∅) (Label.mk sample_label (Some sample_name) 12) Hp Hok).
Defined.

Definition no_files : DirectoryLabelStore.t := DirectoryLabelStore.mk ∅ ∅.

Lemma no_files_shows : DirectoryShows.shows no_files ∅.
Proof. split; intros *; rewrite lookup_empty; done. Qed.

Lemma directory_refines_memory_witness :
  DirectoryShows.shows no_files ∅ /\ op_allowed ∅ (Create sample_label) /\
  (run_op (Create sample_label) no_files).2 = Ok (Labelled (Some (Label.new_empty sample_label))) /\
  DirectoryShows.shows (run_op (Create sample_label) no_files).1 (run_op (Create sample_label) MemoryLabelStore.new).1.
Proof.
  assert (op_allowed ∅ (Create sample_label)) as Hop.
  { split; [|exact I]. apply (bool_decide_unpack _). vm_compute. exact I. }
  split; [exact no_files_shows|]. split; [exact Hop|]. split; [vm_compute; reflexivity|].
  exact (proj1 (directory_refines_memory no_files ∅ _ no_files_shows Hop)).
Defined.

(** A store after one client has created a label. *)
Definition one_label : DirectoryLabelStore.t := (run_op (Create sample_label) no_files).1.

Lemma one_label_run : rtc client_step (no_files, []) (one_label, [Label.new_empty sample_label]).
Proof.
  apply rtc_once.
  assert ([Label.new_empty sample_label] = learned (run_op (Create sample_label) no_files).2 ++ []) as ->
    by (vm_compute; reflexivity).
  apply (do_op no_files [] (Create sample_label)).
  split; [|exact I]. apply (bool_decide_unpack _). vm_compute. exact I.
Qed.

Lemma label_history_witness : exists m,
  DirectoryShows.shows one_label m /\
  exists cur, m !! sample_label = Some cur /\ 0 <= Label.version cur.
Proof.
  destruct (label_history no_files one_label _ no_files_shows one_label_run) as (m & Hm & Hk & _).
  exists m. split; [exact Hm|].
  destruct (Hk (Label.new_empty sample_label)) as (cur & Hc & Hv & _); [by apply elem_of_cons; left|].
  exists cur. split; [exact Hc|exact Hv].
Defined.

(** Two clients that have both read version 0: the second update is refused. *)
Lemma one_update_wins_witness : exists s1 s3 l1 r,
  set_label_option (Label.new_empty sample_label) (Some sample_name) one_label = (s1, Ok (Some l1)) /\
  set_label_option (Label.new_empty sample_label) None s1 = (s3, r) /\ (r = Ok None \/ r = Panic).
Proof.
  pose (l := Label.new_empty sample_label).
  destruct (set_label_option l (Some sample_name) one_label) as [s1 r1] eqn:E1.
  destruct (set_label_option l None s1) as [s3 r] eqn:E3.
  assert (r1 = Ok (Some (Label.mk sample_label (Some sample_name) 1))) as ->.
  { change r1 with (s1, r1).2. rewrite <- E1. vm_compute. reflexivity. }
  exists s1, s3, (Label.mk sample_label (Some sample_name) 1), r.
  split; [exact E1|]. split; [exact E3|].
  apply (one_update_wins no_files one_label s1 s1 s3 [l] (Label.mk sample_label (Some sample_name) 1 :: [l])
           l (Label.mk sample_label (Some sample_name) 1) (Some sample_name) None r).
  - exact no_files_shows.
  - exact one_label_run.
  - apply elem_of_cons. by left.
  - apply (bool_decide_unpack _). vm_compute. exact I.
  - apply (bool_decide_unpack _). vm_compute. exact I.
  - exact I.
  - exact E1.
  - apply rtc_refl.
  - exact E3.
Defined.

(** ** What the code does not promise *)

(** Listing the labels opens the bare file names: with the process running
    in a directory that has no such file, a store with a label cannot be
    listed. *)
Lemma labels_needs_current_dir :
  DirectoryLabelStore.labels one_label = (one_label, Err NotFound).
Proof. vm_compute. reflexivity. Qed.

(** Between a deletion and a creation of the same name the versions start
    again: a caller that holds version 1 of the deleted label can overwrite
    version 1 of the new one in the memory store, which compares versions
    only; the directory store refuses. *)
Definition deleted_and_made_again {S} `{LabelStore S} : io S (option Label.t) :=
  l0 ← create_label sample_label;
  old ← set_label_option l0 (Some sample_name);
  _ ← delete_label sample_label;
  l0 ← create_label sample_label;
  _ ← set_label_option l0 None;
  match old with
  | Some old => set_label_option old (Some sample_name)
  | None => io_panic
  end.

Lemma stores_differ_after_delete :
  (deleted_and_made_again MemoryLabelStore.new).2 = Ok (Some (Label.mk sample_label (Some sample_name) 2)) /\
  (deleted_and_made_again no_files).2 = Ok None.
Proof. split; vm_compute; reflexivity. Qed.
