(* ===== verification/Files.v ===== *)
(** * Files and the structures they make up (src/storage/file.rs)

    A store hands out handles of files; reading and writing a handle is a step
    on the state of the store.  The structures of files of a layer are read as
    the maps that loading takes, and written from the maps that building
    leaves. *)

From stdpp Require Import gmap.
From S2P Require Import Prelude.
From S2P Require Import Words.
From S2P Require Import LayerTypes.
From S2P Require Import IdMaps.
From S2P Require Import TripleBuilder.
From S2P Require Import LayerBuilders.
From S2P Require Import StoreMonad.
From S2P Require Import FileNames.
Open Scope N_scope.

(** [FileLoad] and [FileStore]: [map_file] gives the whole contents as bytes,
    [read_all] is [open_read] and [read_to_end], [write_all] is [open_write],
    [write_all], [flush] and [sync_all]. *)
Class FileLoad (S F : Type) := {
  exists_ : F -> io S bool;
  map_file : F -> io S (list N);
  read_all : F -> io S (list N);
  write_all : F -> list N -> io S ()
}.

Definition map_if_exists {S F} `{FileLoad S F} (f : F) : io S (option (list N)) :=
  b ← exists_ f;
  if b : bool then mapped ← map_file f; mret (Some mapped) else mret None.

(** ** Structures *)

Module DictionaryFiles.
Record t (F : Type) : Type := mk { blocks_file : F; offsets_file : F }.
Arguments mk {F}. Arguments blocks_file {F}. Arguments offsets_file {F}.

Section ops.
Context {S F : Type} `{FileLoad S F}.

Definition map_all (self : t F) : io S dictionary_maps :=
  blocks_map ← map_file (blocks_file self);
  offsets_map ← map_file (offsets_file self);
  mret (blocks_map, offsets_map).

Definition write (self : t F) (maps : dictionary_maps) : io S () :=
  _ ← write_all (blocks_file self) maps.1;
  write_all (offsets_file self) maps.2.
End ops.
End DictionaryFiles.

Module BitIndexFiles.
Record t (F : Type) : Type := mk { bits_file : F; blocks_file : F; sblocks_file : F }.
Arguments mk {F}. Arguments bits_file {F}. Arguments blocks_file {F}. Arguments sblocks_file {F}.

Section ops.
Context {S F : Type} `{FileLoad S F}.

Definition map_all (self : t F) : io S bitindex_files :=
  bits_map ← map_file (bits_file self);
  blocks_map ← map_file (blocks_file self);
  sblocks_map ← map_file (sblocks_file self);
  mret (bits_map, blocks_map, sblocks_map).

Definition map_all_if_exists (self : t F) : io S (option bitindex_files) :=
  b ← exists_ (bits_file self);
  if b : bool then maps ← map_all self; mret (Some maps) else mret None.

Definition write (self : t F) (maps : bitindex_files) : io S () :=
  let '(bits, blocks, sblocks) := maps in
  _ ← write_all (bits_file self) bits;
  _ ← write_all (blocks_file self) blocks;
  write_all (sblocks_file self) sblocks.
End ops.
End BitIndexFiles.

Module AdjacencyListFiles.
Record t (F : Type) : Type := mk { files : BitIndexFiles.t F; nums_file : F }.
Arguments mk {F}. Arguments files {F}. Arguments nums_file {F}.

Section ops.
Context {S F : Type} `{FileLoad S F}.

Definition map_all (self : t F) : io S adjacency_files :=
  maps ← BitIndexFiles.map_all (files self);
  nums_map ← map_file (nums_file self);
  let '(bits, blocks, sblocks) := maps in
  mret (bits, blocks, sblocks, nums_map).

Definition write (self : t F) (maps : adjacency_files) : io S () :=
  let '(bits, blocks, sblocks, nums) := maps in
  _ ← BitIndexFiles.write (files self) (bits, blocks, sblocks);
  write_all (nums_file self) nums.
End ops.
End AdjacencyListFiles.

(** A file that there may be. *)
Definition write_optional {S F} `{FileLoad S F} (f : F) (maps : option (list N)) : io S () :=
  match maps with Some b => write_all f b | None => mret () end.

Module IdMapFiles.
Record t (F : Type) : Type := mk {
  node_value_idmap_files : BitIndexFiles.t F;
  predicate_idmap_files : BitIndexFiles.t F
}.
Arguments mk {F}. Arguments node_value_idmap_files {F}. Arguments predicate_idmap_files {F}.

Section ops.
Context {S F : Type} `{FileLoad S F}.

Definition map_all (self : t F) : io S IdMapMaps :=
  node_value_idmap_maps ← BitIndexFiles.map_all_if_exists (node_value_idmap_files self);
  predicate_idmap_maps ← BitIndexFiles.map_all_if_exists (predicate_idmap_files self);
  mret (mk_id_map_maps node_value_idmap_maps predicate_idmap_maps).

Definition write_one (files : BitIndexFiles.t F) (maps : option bitindex_files) : io S () :=
  match maps with Some m => BitIndexFiles.write files m | None => mret () end.

Definition write (self : t F) (maps : IdMapMaps) : io S () :=
  _ ← write_one (node_value_idmap_files self) (node_value_idmap_maps maps);
  write_one (predicate_idmap_files self) (predicate_idmap_maps maps).
End ops.
End IdMapFiles.

Module BaseLayerFiles.
Record t (F : Type) : Type := mk {
  node_dictionary_files : DictionaryFiles.t F;
  predicate_dictionary_files : DictionaryFiles.t F;
  value_dictionary_files : DictionaryFiles.t F;
  id_map_files : IdMapFiles.t F;
  subjects_file : F;
  objects_file : F;
  s_p_adjacency_list_files : AdjacencyListFiles.t F;
  sp_o_adjacency_list_files : AdjacencyListFiles.t F;
  o_ps_adjacency_list_files : AdjacencyListFiles.t F;
  predicate_wavelet_tree_files : BitIndexFiles.t F
}.
Arguments mk {F}.
Arguments node_dictionary_files {F}. Arguments predicate_dictionary_files {F}. Arguments value_dictionary_files {F}.
Arguments id_map_files {F}. Arguments subjects_file {F}. Arguments objects_file {F}.
Arguments s_p_adjacency_list_files {F}. Arguments sp_o_adjacency_list_files {F}.
Arguments o_ps_adjacency_list_files {F}. Arguments predicate_wavelet_tree_files {F}.

Section ops.
Context {S F : Type} `{FileLoad S F}.

Definition map_all (self : t F) : io S BaseLayerMaps.t :=
  node_dictionary_maps ← DictionaryFiles.map_all (node_dictionary_files self);
  predicate_dictionary_maps ← DictionaryFiles.map_all (predicate_dictionary_files self);
  value_dictionary_maps ← DictionaryFiles.map_all (value_dictionary_files self);
  id_map_maps ← IdMapFiles.map_all (id_map_files self);
  subjects_map ← map_if_exists (subjects_file self);
  objects_map ← map_if_exists (objects_file self);
  s_p_adjacency_list_maps ← AdjacencyListFiles.map_all (s_p_adjacency_list_files self);
  sp_o_adjacency_list_maps ← AdjacencyListFiles.map_all (sp_o_adjacency_list_files self);
  o_ps_adjacency_list_maps ← AdjacencyListFiles.map_all (o_ps_adjacency_list_files self);
  predicate_wavelet_tree_maps ← BitIndexFiles.map_all (predicate_wavelet_tree_files self);
  mret (BaseLayerMaps.mk node_dictionary_maps predicate_dictionary_maps value_dictionary_maps id_map_maps
    subjects_map objects_map s_p_adjacency_list_maps sp_o_adjacency_list_maps o_ps_adjacency_list_maps
    predicate_wavelet_tree_maps).

(** Everything a builder leaves. *)
Definition write (self : t F) (maps : BaseLayerMaps.t) : io S () :=
  _ ← DictionaryFiles.write (node_dictionary_files self) (BaseLayerMaps.node_dictionary_maps maps);
  _ ← DictionaryFiles.write (predicate_dictionary_files self) (BaseLayerMaps.predicate_dictionary_maps maps);
  _ ← DictionaryFiles.write (value_dictionary_files self) (BaseLayerMaps.value_dictionary_maps maps);
  _ ← IdMapFiles.write (id_map_files self) (BaseLayerMaps.id_map_maps maps);
  _ ← write_optional (subjects_file self) (BaseLayerMaps.subjects_map maps);
  _ ← write_optional (objects_file self) (BaseLayerMaps.objects_map maps);
  _ ← AdjacencyListFiles.write (s_p_adjacency_list_files self) (BaseLayerMaps.s_p_adjacency_list_maps maps);
  _ ← AdjacencyListFiles.write (sp_o_adjacency_list_files self) (BaseLayerMaps.sp_o_adjacency_list_maps maps);
  _ ← AdjacencyListFiles.write (o_ps_adjacency_list_files self) (BaseLayerMaps.o_ps_adjacency_list_maps maps);
  BitIndexFiles.write (predicate_wavelet_tree_files self) (BaseLayerMaps.predicate_wavelet_tree_maps maps).
End ops.
End BaseLayerFiles.

Module ChildLayerFiles.
Record t (F : Type) : Type := mk {
  node_dictionary_files : DictionaryFiles.t F;
  predicate_dictionary_files : DictionaryFiles.t F;
  value_dictionary_files : DictionaryFiles.t F;
  id_map_files : IdMapFiles.t F;
  pos_subjects_file : F;
  pos_objects_file : F;
  neg_subjects_file : F;
  neg_objects_file : F;
  pos_s_p_adjacency_list_files : AdjacencyListFiles.t F;
  pos_sp_o_adjacency_list_files : AdjacencyListFiles.t F;
  pos_o_ps_adjacency_list_files : AdjacencyListFiles.t F;
  neg_s_p_adjacency_list_files : AdjacencyListFiles.t F;
  neg_sp_o_adjacency_list_files : AdjacencyListFiles.t F;
  neg_o_ps_adjacency_list_files : AdjacencyListFiles.t F;
  pos_predicate_wavelet_tree_files : BitIndexFiles.t F;
  neg_predicate_wavelet_tree_files : BitIndexFiles.t F
}.
Arguments mk {F}.
Arguments node_dictionary_files {F}. Arguments predicate_dictionary_files {F}. Arguments value_dictionary_files {F}.
Arguments id_map_files {F}. Arguments pos_subjects_file {F}. Arguments pos_objects_file {F}.
Arguments neg_subjects_file {F}. Arguments neg_objects_file {F}.
Arguments pos_s_p_adjacency_list_files {F}. Arguments pos_sp_o_adjacency_list_files {F}.
Arguments pos_o_ps_adjacency_list_files {F}. Arguments neg_s_p_adjacency_list_files {F}.
Arguments neg_sp_o_adjacency_list_files {F}. Arguments neg_o_ps_adjacency_list_files {F}.
Arguments pos_predicate_wavelet_tree_files {F}. Arguments neg_predicate_wavelet_tree_files {F}.

Section ops.
Context {S F : Type} `{FileLoad S F}.

Definition map_all (self : t F) : io S ChildLayerMaps.t :=
  node_dictionary_maps ← DictionaryFiles.map_all (node_dictionary_files self);
  predicate_dictionary_maps ← DictionaryFiles.map_all (predicate_dictionary_files self);
  value_dictionary_maps ← DictionaryFiles.map_all (value_dictionary_files self);
  id_map_maps ← IdMapFiles.map_all (id_map_files self);
  pos_subjects_map ← map_file (pos_subjects_file self);
  neg_subjects_map ← map_file (neg_subjects_file self);
  pos_objects_map ← map_file (pos_objects_file self);
  neg_objects_map ← map_file (neg_objects_file self);
  pos_s_p_adjacency_list_maps ← AdjacencyListFiles.map_all (pos_s_p_adjacency_list_files self);
  pos_sp_o_adjacency_list_maps ← AdjacencyListFiles.map_all (pos_sp_o_adjacency_list_files self);
  pos_o_ps_adjacency_list_maps ← AdjacencyListFiles.map_all (pos_o_ps_adjacency_list_files self);
  neg_s_p_adjacency_list_maps ← AdjacencyListFiles.map_all (neg_s_p_adjacency_list_files self);
  neg_sp_o_adjacency_list_maps ← AdjacencyListFiles.map_all (neg_sp_o_adjacency_list_files self);
  neg_o_ps_adjacency_list_maps ← AdjacencyListFiles.map_all (neg_o_ps_adjacency_list_files self);
  pos_predicate_wavelet_tree_maps ← BitIndexFiles.map_all (pos_predicate_wavelet_tree_files self);
  neg_predicate_wavelet_tree_maps ← BitIndexFiles.map_all (neg_predicate_wavelet_tree_files self);
  mret (ChildLayerMaps.mk node_dictionary_maps predicate_dictionary_maps value_dictionary_maps id_map_maps
    pos_subjects_map pos_objects_map neg_subjects_map neg_objects_map
    pos_s_p_adjacency_list_maps pos_sp_o_adjacency_list_maps pos_o_ps_adjacency_list_maps
    neg_s_p_adjacency_list_maps neg_sp_o_adjacency_list_maps neg_o_ps_adjacency_list_maps
    pos_predicate_wavelet_tree_maps neg_predicate_wavelet_tree_maps).

Definition write (self : t F) (maps : ChildLayerMaps.t) : io S () :=
  _ ← DictionaryFiles.write (node_dictionary_files self) (ChildLayerMaps.node_dictionary_maps maps);
  _ ← DictionaryFiles.write (predicate_dictionary_files self) (ChildLayerMaps.predicate_dictionary_maps maps);
  _ ← DictionaryFiles.write (value_dictionary_files self) (ChildLayerMaps.value_dictionary_maps maps);
  _ ← IdMapFiles.write (id_map_files self) (ChildLayerMaps.id_map_maps maps);
  _ ← write_all (pos_subjects_file self) (ChildLayerMaps.pos_subjects_map maps);
  _ ← write_all (pos_objects_file self) (ChildLayerMaps.pos_objects_map maps);
  _ ← write_all (neg_subjects_file self) (ChildLayerMaps.neg_subjects_map maps);
  _ ← write_all (neg_objects_file self) (ChildLayerMaps.neg_objects_map maps);
  _ ← AdjacencyListFiles.write (pos_s_p_adjacency_list_files self) (ChildLayerMaps.pos_s_p_adjacency_list_maps maps);
  _ ← AdjacencyListFiles.write (pos_sp_o_adjacency_list_files self) (ChildLayerMaps.pos_sp_o_adjacency_list_maps maps);
  _ ← AdjacencyListFiles.write (pos_o_ps_adjacency_list_files self) (ChildLayerMaps.pos_o_ps_adjacency_list_maps maps);
  _ ← AdjacencyListFiles.write (neg_s_p_adjacency_list_files self) (ChildLayerMaps.neg_s_p_adjacency_list_maps maps);
  _ ← AdjacencyListFiles.write (neg_sp_o_adjacency_list_files self) (ChildLayerMaps.neg_sp_o_adjacency_list_maps maps);
  _ ← AdjacencyListFiles.write (neg_o_ps_adjacency_list_files self) (ChildLayerMaps.neg_o_ps_adjacency_list_maps maps);
  _ ← BitIndexFiles.write (pos_predicate_wavelet_tree_files self) (ChildLayerMaps.pos_predicate_wavelet_tree_maps maps);
  BitIndexFiles.write (neg_predicate_wavelet_tree_files self) (ChildLayerMaps.neg_predicate_wavelet_tree_maps maps).
End ops.
End ChildLayerFiles.
