(* ===== verification/Directories.v ===== *)
(** * Directories of layers (the trait [PersistentLayerStore] of src/storage/layer.rs)

    A persistent store has a directory for every layer, with the layer's files
    in it.  The class has what an implementation provides; the rest of the
    trait is here, over the class. *)

From stdpp Require Import gmap.
From S2P Require Import Prelude.
From S2P Require Import Words.
From S2P Require Import Strings.
From S2P Require Import LayerTypes.
From S2P Require Import IdMaps.
From S2P Require Import TripleBuilder.
From S2P Require Import LayerBuilders.
From S2P Require Import Names.
From S2P Require Import StoreMonad.
From S2P Require Import FileNames.
From S2P Require Import Files.
Import Filenames.
Open Scope N_scope.

Class PersistentLayerStore (S F : Type) `{FileLoad S F} := {
  create_named_directory : layer_name -> io S layer_name;
  directory_exists : layer_name -> io S bool;
  get_file : layer_name -> filename -> io S F;
  file_exists : layer_name -> filename -> io S bool
}.

(** [directories] of the trait, apart: the stores do not agree on it. *)
Class DirectoryListing (S : Type) := directories : io S (list layer_name).

(** The files of a base layer, in the order in which they are opened. *)
Definition base_filenames : list filename :=
  [node_dictionary_blocks FILENAMES; node_dictionary_offsets FILENAMES; predicate_dictionary_blocks FILENAMES;
   predicate_dictionary_offsets FILENAMES; value_dictionary_blocks FILENAMES; value_dictionary_offsets FILENAMES;
   node_value_idmap_bits FILENAMES; node_value_idmap_bit_index_blocks FILENAMES;
   node_value_idmap_bit_index_sblocks FILENAMES; predicate_idmap_bits FILENAMES;
   predicate_idmap_bit_index_blocks FILENAMES; predicate_idmap_bit_index_sblocks FILENAMES; base_subjects FILENAMES;
   base_objects FILENAMES; base_s_p_adjacency_list_bits FILENAMES;
   base_s_p_adjacency_list_bit_index_blocks FILENAMES; base_s_p_adjacency_list_bit_index_sblocks FILENAMES;
   base_s_p_adjacency_list_nums FILENAMES; base_sp_o_adjacency_list_bits FILENAMES;
   base_sp_o_adjacency_list_bit_index_blocks FILENAMES; base_sp_o_adjacency_list_bit_index_sblocks FILENAMES;
   base_sp_o_adjacency_list_nums FILENAMES; base_o_ps_adjacency_list_bits FILENAMES;
   base_o_ps_adjacency_list_bit_index_blocks FILENAMES; base_o_ps_adjacency_list_bit_index_sblocks FILENAMES;
   base_o_ps_adjacency_list_nums FILENAMES; base_predicate_wavelet_tree_bits FILENAMES;
   base_predicate_wavelet_tree_bit_index_blocks FILENAMES; base_predicate_wavelet_tree_bit_index_sblocks FILENAMES].

Definition child_filenames : list filename :=
  [node_dictionary_blocks FILENAMES; node_dictionary_offsets FILENAMES; predicate_dictionary_blocks FILENAMES;
   predicate_dictionary_offsets FILENAMES; value_dictionary_blocks FILENAMES; value_dictionary_offsets FILENAMES;
   node_value_idmap_bits FILENAMES; node_value_idmap_bit_index_blocks FILENAMES;
   node_value_idmap_bit_index_sblocks FILENAMES; predicate_idmap_bits FILENAMES;
   predicate_idmap_bit_index_blocks FILENAMES; predicate_idmap_bit_index_sblocks FILENAMES; pos_subjects FILENAMES;
   pos_objects FILENAMES; neg_subjects FILENAMES; neg_objects FILENAMES; pos_s_p_adjacency_list_bits FILENAMES;
   pos_s_p_adjacency_list_bit_index_blocks FILENAMES; pos_s_p_adjacency_list_bit_index_sblocks FILENAMES;
   pos_s_p_adjacency_list_nums FILENAMES; pos_sp_o_adjacency_list_bits FILENAMES;
   pos_sp_o_adjacency_list_bit_index_blocks FILENAMES; pos_sp_o_adjacency_list_bit_index_sblocks FILENAMES;
   pos_sp_o_adjacency_list_nums FILENAMES; pos_o_ps_adjacency_list_bits FILENAMES;
   pos_o_ps_adjacency_list_bit_index_blocks FILENAMES; pos_o_ps_adjacency_list_bit_index_sblocks FILENAMES;
   pos_o_ps_adjacency_list_nums FILENAMES; neg_s_p_adjacency_list_bits FILENAMES;
   neg_s_p_adjacency_list_bit_index_blocks FILENAMES; neg_s_p_adjacency_list_bit_index_sblocks FILENAMES;
   neg_s_p_adjacency_list_nums FILENAMES; neg_sp_o_adjacency_list_bits FILENAMES;
   neg_sp_o_adjacency_list_bit_index_blocks FILENAMES; neg_sp_o_adjacency_list_bit_index_sblocks FILENAMES;
   neg_sp_o_adjacency_list_nums FILENAMES; neg_o_ps_adjacency_list_bits FILENAMES;
   neg_o_ps_adjacency_list_bit_index_blocks FILENAMES; neg_o_ps_adjacency_list_bit_index_sblocks FILENAMES;
   neg_o_ps_adjacency_list_nums FILENAMES; pos_predicate_wavelet_tree_bits FILENAMES;
   pos_predicate_wavelet_tree_bit_index_blocks FILENAMES; pos_predicate_wavelet_tree_bit_index_sblocks FILENAMES;
   neg_predicate_wavelet_tree_bits FILENAMES; neg_predicate_wavelet_tree_bit_index_blocks FILENAMES;
   neg_predicate_wavelet_tree_bit_index_sblocks FILENAMES].

(** The structure of the opened files, by their index. *)
Definition base_structure {F} (files : list F) : option (BaseLayerFiles.t F) :=
  match files with
  | [f0; f1; f2; f3; f4; f5; f6; f7; f8; f9; f10; f11; f12; f13; f14; f15; f16; f17; f18; f19; f20; f21; f22; f23; f24;
   f25; f26; f27; f28] =>
      Some (BaseLayerFiles.mk (DictionaryFiles.mk f0 f1) (DictionaryFiles.mk f2 f3) (DictionaryFiles.mk f4 f5)
        (IdMapFiles.mk (BitIndexFiles.mk f6 f7 f8) (BitIndexFiles.mk f9 f10 f11))
        f12 f13
        (AdjacencyListFiles.mk (BitIndexFiles.mk f14 f15 f16) f17)
        (AdjacencyListFiles.mk (BitIndexFiles.mk f18 f19 f20) f21)
        (AdjacencyListFiles.mk (BitIndexFiles.mk f22 f23 f24) f25)
        (BitIndexFiles.mk f26 f27 f28))
  | _ => None
  end.

Definition child_structure {F} (files : list F) : option (ChildLayerFiles.t F) :=
  match files with
  | [f0; f1; f2; f3; f4; f5; f6; f7; f8; f9; f10; f11; f12; f13; f14; f15; f16; f17; f18; f19; f20; f21; f22; f23; f24;
   f25; f26; f27; f28; f29; f30; f31; f32; f33; f34; f35; f36; f37; f38; f39; f40; f41; f42; f43; f44; f45] =>
      Some (ChildLayerFiles.mk (DictionaryFiles.mk f0 f1) (DictionaryFiles.mk f2 f3) (DictionaryFiles.mk f4 f5)
        (IdMapFiles.mk (BitIndexFiles.mk f6 f7 f8) (BitIndexFiles.mk f9 f10 f11))
        f12 f13 f14 f15
        (AdjacencyListFiles.mk (BitIndexFiles.mk f16 f17 f18) f19)
        (AdjacencyListFiles.mk (BitIndexFiles.mk f20 f21 f22) f23)
        (AdjacencyListFiles.mk (BitIndexFiles.mk f24 f25 f26) f27)
        (AdjacencyListFiles.mk (BitIndexFiles.mk f28 f29 f30) f31)
        (AdjacencyListFiles.mk (BitIndexFiles.mk f32 f33 f34) f35)
        (AdjacencyListFiles.mk (BitIndexFiles.mk f36 f37 f38) f39)
        (BitIndexFiles.mk f40 f41 f42)
        (BitIndexFiles.mk f43 f44 f45))
  | _ => None
  end.

Section provided.
Context {S F : Type} `{PersistentLayerStore S F}.

(** [create_directory]; the name is drawn at random. *)
Definition create_directory (random : layer_name) : io S layer_name := create_named_directory random.

Definition layer_has_rollup (name : layer_name) : io S bool := file_exists name (rollup FILENAMES).
Definition layer_has_parent (name : layer_name) : io S bool := file_exists name (parent FILENAMES).

(** [for filename in filenames { files.push(self.get_file(name, filename)) }] *)
Fixpoint get_files (name : layer_name) (filenames : list filename) : io S (list F) :=
  match filenames with
  | [] => mret []
  | filename :: filenames => f ← get_file name filename; files ← get_files name filenames; mret (f :: files)
  end.

Definition base_layer_files (name : layer_name) : io S (BaseLayerFiles.t F) :=
  files ← get_files name base_filenames; io_opt (base_structure files).

Definition child_layer_files (name : layer_name) : io S (ChildLayerFiles.t F) :=
  files ← get_files name child_filenames; io_opt (child_structure files).

Definition write_parent_file (dir_name parent_name : layer_name) : io S () :=
  let parent_string := name_to_string parent_name in
  file ← get_file dir_name (parent FILENAMES);
  write_all file parent_string.

(** [read_exact] of forty bytes. *)
Definition read_parent_file (dir_name : layer_name) : io S layer_name :=
  file ← get_file dir_name (parent FILENAMES);
  data ← read_all file;
  if lenN data <? 40 then io_err UnexpectedEof
  else io_lift (bytes_to_name (takeN 40 data)).

Definition write_rollup_file (dir_name rollup_name : layer_name) : io S () :=
  let rollup_string := name_to_string rollup_name in
  file ← get_file dir_name (rollup FILENAMES);
  let contents := digits 10 1 ++ [10] ++ rollup_string ++ [10] in
  write_all file contents.

(** The layer in the contents of a rollup file. *)
Definition parse_rollup (data : list N) : outcome io_error layer_name :=
  match lines (from_utf8_lossy data) with
  | [_version_str; layer_str] => string_to_name layer_str
  | _ => Err InvalidData
  end.

Definition read_rollup_file (dir_name : layer_name) : io S layer_name :=
  file ← get_file dir_name (rollup FILENAMES);
  data ← read_all file;
  io_lift (parse_rollup data).

(** Some files of a layer that exists. *)
Definition of_layer {A} (layer : layer_name) (files : io S A) : io S A :=
  b ← directory_exists layer;
  if b : bool then files else io_err NotFound.

Definition get_dictionary_files (layer : layer_name) (blocks offsets : filename) : io S (DictionaryFiles.t F) :=
  blocks_file ← get_file layer blocks;
  offsets_file ← get_file layer offsets;
  mret (DictionaryFiles.mk blocks_file offsets_file).

Definition get_bit_index_files (layer : layer_name) (bits blocks sblocks : filename) : io S (BitIndexFiles.t F) :=
  bits_file ← get_file layer bits;
  blocks_file ← get_file layer blocks;
  sblocks_file ← get_file layer sblocks;
  mret (BitIndexFiles.mk bits_file blocks_file sblocks_file).

Definition get_adjacency_files (layer : layer_name) (nums bits blocks sblocks : filename) : io S (AdjacencyListFiles.t F) :=
  nums_file ← get_file layer nums;
  files ← get_bit_index_files layer bits blocks sblocks;
  mret (AdjacencyListFiles.mk files nums_file).

Definition node_dictionary_files (layer : layer_name) : io S (DictionaryFiles.t F) :=
  of_layer layer (get_dictionary_files layer (node_dictionary_blocks FILENAMES) (node_dictionary_offsets FILENAMES)).

Definition predicate_dictionary_files (layer : layer_name) : io S (DictionaryFiles.t F) :=
  of_layer layer
    (get_dictionary_files layer (predicate_dictionary_blocks FILENAMES) (predicate_dictionary_offsets FILENAMES)).

Definition value_dictionary_files (layer : layer_name) : io S (DictionaryFiles.t F) :=
  of_layer layer (get_dictionary_files layer (value_dictionary_blocks FILENAMES) (value_dictionary_offsets FILENAMES)).

Definition node_value_idmap_files (layer : layer_name) : io S (BitIndexFiles.t F) :=
  of_layer layer (get_bit_index_files layer (node_value_idmap_bits FILENAMES)
    (node_value_idmap_bit_index_blocks FILENAMES) (node_value_idmap_bit_index_sblocks FILENAMES)).

Definition predicate_idmap_files (layer : layer_name) : io S (BitIndexFiles.t F) :=
  of_layer layer (get_bit_index_files layer (predicate_idmap_bits FILENAMES)
    (predicate_idmap_bit_index_blocks FILENAMES) (predicate_idmap_bit_index_sblocks FILENAMES)).

(** The subjects, and the two adjacency lists by subject. *)
Definition triple_addition_files (layer : layer_name) : io S (F * AdjacencyListFiles.t F * AdjacencyListFiles.t F) :=
  of_layer layer (b ← layer_has_parent layer; if b : bool then
    s_p_aj_files ← get_adjacency_files layer (pos_s_p_adjacency_list_nums FILENAMES) (pos_s_p_adjacency_list_bits FILENAMES)
      (pos_s_p_adjacency_list_bit_index_blocks FILENAMES) (pos_s_p_adjacency_list_bit_index_sblocks FILENAMES);
    sp_o_aj_files ← get_adjacency_files layer (pos_sp_o_adjacency_list_nums FILENAMES) (pos_sp_o_adjacency_list_bits FILENAMES)
      (pos_sp_o_adjacency_list_bit_index_blocks FILENAMES) (pos_sp_o_adjacency_list_bit_index_sblocks FILENAMES);
    subjects_file ← get_file layer (pos_subjects FILENAMES);
    mret (subjects_file, s_p_aj_files, sp_o_aj_files)
  else
    s_p_aj_files ← get_adjacency_files layer (base_s_p_adjacency_list_nums FILENAMES) (base_s_p_adjacency_list_bits FILENAMES)
      (base_s_p_adjacency_list_bit_index_blocks FILENAMES) (base_s_p_adjacency_list_bit_index_sblocks FILENAMES);
    sp_o_aj_files ← get_adjacency_files layer (base_sp_o_adjacency_list_nums FILENAMES) (base_sp_o_adjacency_list_bits FILENAMES)
      (base_sp_o_adjacency_list_bit_index_blocks FILENAMES) (base_sp_o_adjacency_list_bit_index_sblocks FILENAMES);
    subjects_file ← get_file layer (base_subjects FILENAMES);
    mret (subjects_file, s_p_aj_files, sp_o_aj_files)).

Definition triple_removal_files (layer : layer_name) : io S (option (F * AdjacencyListFiles.t F * AdjacencyListFiles.t F)) :=
  of_layer layer (b ← layer_has_parent layer; if b : bool then
    s_p_aj_files ← get_adjacency_files layer (neg_s_p_adjacency_list_nums FILENAMES) (neg_s_p_adjacency_list_bits FILENAMES)
      (neg_s_p_adjacency_list_bit_index_blocks FILENAMES) (neg_s_p_adjacency_list_bit_index_sblocks FILENAMES);
    sp_o_aj_files ← get_adjacency_files layer (neg_sp_o_adjacency_list_nums FILENAMES) (neg_sp_o_adjacency_list_bits FILENAMES)
      (neg_sp_o_adjacency_list_bit_index_blocks FILENAMES) (neg_sp_o_adjacency_list_bit_index_sblocks FILENAMES);
    subjects_file ← get_file layer (neg_subjects FILENAMES);
    mret (Some (subjects_file, s_p_aj_files, sp_o_aj_files))
  else mret None).

Definition predicate_wavelet_addition_files (layer : layer_name) : io S (BitIndexFiles.t F) :=
  of_layer layer (b ← layer_has_parent layer; if b : bool then
    get_bit_index_files layer (pos_predicate_wavelet_tree_bits FILENAMES)
      (pos_predicate_wavelet_tree_bit_index_blocks FILENAMES) (pos_predicate_wavelet_tree_bit_index_sblocks FILENAMES)
  else
    get_bit_index_files layer (base_predicate_wavelet_tree_bits FILENAMES)
      (base_predicate_wavelet_tree_bit_index_blocks FILENAMES) (base_predicate_wavelet_tree_bit_index_sblocks FILENAMES)).

Definition predicate_wavelet_removal_files (layer : layer_name) : io S (option (BitIndexFiles.t F)) :=
  of_layer layer (b ← layer_has_parent layer; if b : bool then
    bitindex_files ← get_bit_index_files layer (neg_predicate_wavelet_tree_bits FILENAMES)
      (neg_predicate_wavelet_tree_bit_index_blocks FILENAMES) (neg_predicate_wavelet_tree_bit_index_sblocks FILENAMES);
    mret (Some bitindex_files)
  else mret None).

(** The subjects, the objects, and the adjacency lists by object and of the
    predicates of subjects. *)
Definition triple_addition_files_by_object (layer : layer_name) : io S (F * F * AdjacencyListFiles.t F * AdjacencyListFiles.t F) :=
  of_layer layer (b ← layer_has_parent layer; if b : bool then
    o_ps_aj_files ← get_adjacency_files layer (pos_o_ps_adjacency_list_nums FILENAMES) (pos_o_ps_adjacency_list_bits FILENAMES)
      (pos_o_ps_adjacency_list_bit_index_blocks FILENAMES) (pos_o_ps_adjacency_list_bit_index_sblocks FILENAMES);
    s_p_aj_files ← get_adjacency_files layer (pos_s_p_adjacency_list_nums FILENAMES) (pos_s_p_adjacency_list_bits FILENAMES)
      (pos_s_p_adjacency_list_bit_index_blocks FILENAMES) (pos_s_p_adjacency_list_bit_index_sblocks FILENAMES);
    subjects_file ← get_file layer (pos_subjects FILENAMES);
    objects_file ← get_file layer (pos_objects FILENAMES);
    mret (subjects_file, objects_file, o_ps_aj_files, s_p_aj_files)
  else
    o_ps_aj_files ← get_adjacency_files layer (base_o_ps_adjacency_list_nums FILENAMES) (base_o_ps_adjacency_list_bits FILENAMES)
      (base_o_ps_adjacency_list_bit_index_blocks FILENAMES) (base_o_ps_adjacency_list_bit_index_sblocks FILENAMES);
    s_p_aj_files ← get_adjacency_files layer (base_s_p_adjacency_list_nums FILENAMES) (base_s_p_adjacency_list_bits FILENAMES)
      (base_s_p_adjacency_list_bit_index_blocks FILENAMES) (base_s_p_adjacency_list_bit_index_sblocks FILENAMES);
    subjects_file ← get_file layer (base_subjects FILENAMES);
    objects_file ← get_file layer (base_objects FILENAMES);
    mret (subjects_file, objects_file, o_ps_aj_files, s_p_aj_files)).

Definition triple_removal_files_by_object (layer : layer_name) : io S (option (F * F * AdjacencyListFiles.t F * AdjacencyListFiles.t F)) :=
  of_layer layer (b ← layer_has_parent layer; if b : bool then
    o_ps_aj_files ← get_adjacency_files layer (neg_o_ps_adjacency_list_nums FILENAMES) (neg_o_ps_adjacency_list_bits FILENAMES)
      (neg_o_ps_adjacency_list_bit_index_blocks FILENAMES) (neg_o_ps_adjacency_list_bit_index_sblocks FILENAMES);
    s_p_aj_files ← get_adjacency_files layer (neg_s_p_adjacency_list_nums FILENAMES) (neg_s_p_adjacency_list_bits FILENAMES)
      (neg_s_p_adjacency_list_bit_index_blocks FILENAMES) (neg_s_p_adjacency_list_bit_index_sblocks FILENAMES);
    subjects_file ← get_file layer (neg_subjects FILENAMES);
    objects_file ← get_file layer (neg_objects FILENAMES);
    mret (Some (subjects_file, objects_file, o_ps_aj_files, s_p_aj_files))
  else mret None).

Definition triple_layer_addition_count_files (layer : layer_name) : io S (F * F * BitIndexFiles.t F) :=
  of_layer layer (
    b ← layer_has_parent layer;
    '(s_p_nums_file, sp_o_bits_file) ←
      (if b : bool then
         s_p_nums_file ← get_file layer (pos_s_p_adjacency_list_nums FILENAMES);
         sp_o_bits_file ← get_file layer (pos_sp_o_adjacency_list_bits FILENAMES);
         mret (s_p_nums_file, sp_o_bits_file)
       else
         s_p_nums_file ← get_file layer (base_s_p_adjacency_list_nums FILENAMES);
         sp_o_bits_file ← get_file layer (base_sp_o_adjacency_list_bits FILENAMES);
         mret (s_p_nums_file, sp_o_bits_file));
    predicate_wavelet_files ← predicate_wavelet_addition_files layer;
    mret (s_p_nums_file, sp_o_bits_file, predicate_wavelet_files)).

Definition triple_layer_removal_count_files (layer : layer_name) : io S (option (F * F * BitIndexFiles.t F)) :=
  of_layer layer (b ← layer_has_parent layer; if b : bool then
    s_p_nums_file ← get_file layer (neg_s_p_adjacency_list_nums FILENAMES);
    sp_o_bits_file ← get_file layer (neg_sp_o_adjacency_list_bits FILENAMES);
    files ← predicate_wavelet_removal_files layer;
    predicate_wavelet_files ← io_opt files;
    mret (Some (s_p_nums_file, sp_o_bits_file, predicate_wavelet_files))
  else mret None).
End provided.
