(* ===== verification/DiskStores.v ===== *)
(** * The memory store and the directory store of layers
      (src/storage/memory.rs and src/storage/directory.rs)

    Both keep directories of files.  The memory store shares its files by
    reference: a handle is a place in a heap.  The directory store keeps them
    in the file system: a handle is a path.  What they have in common is the
    store [disk], a map of maps, which the rest of the development reasons
    with. *)

From stdpp Require Import gmap.
From S2P Require Import Prelude.
From S2P Require Import Words.
From S2P Require Import Strings.
From S2P Require Import LayerTypes.
From S2P Require Import Names.
From S2P Require Import StoreMonad.
From S2P Require Import FileNames.
From S2P Require Import Files.
From S2P Require Import Directories.
Open Scope N_scope.

(** ** The common view *)

(** The files of a directory. *)
Abbreviation dir := (gmap filename (list N)).
Abbreviation disk := (gmap layer_name dir).

Module Disk.

Definition lookup_file (D : disk) (f : layer_name * filename) : option (list N) :=
  d ← D !! f.1; d !! f.2.

Definition file_there (D : disk) (f : layer_name * filename) : bool := bool_decide (is_Some (lookup_file D f)).

#[export] Instance files : FileLoad disk (layer_name * filename) := {
  exists_ f := io_read (fun D => Ok (file_there D f));
  map_file f := io_read (fun D => match lookup_file D f with Some b => Ok b | None => Err NotFound end);
  (* what a missing file does differs between the stores *)
  read_all f := io_read (fun D => match lookup_file D f with Some b => Ok b | None => Panic end);
  write_all f data D :=
    match D !! f.1 with
    | Some d =>
        (* overwriting with fewer bytes differs between the stores *)
        match d !! f.2 with
        | Some old => if (lenN old <=? lenN data)%N then (<[f.1 := <[f.2 := data]> d]> D, Ok ()) else (D, Panic)
        | None => (<[f.1 := <[f.2 := data]> d]> D, Ok ())
        end
    | None => (D, Panic)
    end
}.

(** Names are always five words; the model says nothing of other lists. *)
Definition at_name {A} (name : layer_name) (m : io disk A) : io disk A :=
  if decide (name_ok name) then m else io_panic.

#[export] Instance store : PersistentLayerStore disk (layer_name * filename) := {
  (* making a directory again differs between the stores *)
  create_named_directory name := at_name name (fun D =>
    match D !! name with
    | None => (<[name := ∅]> D, Ok name)
    | Some _ => (D, Panic)
    end);
  directory_exists name := at_name name (io_read (fun D => Ok (bool_decide (is_Some (D !! name)))));
  get_file name file := at_name name (io_read (fun D => if decide (is_Some (D !! name)) then Ok (name, file) else Panic));
  file_exists name file := at_name name (io_read (fun D => Ok (file_there D (name, file))))
}.

End Disk.
Export (hints) Disk.

(** ** The memory store *)

Module MemoryLayerStore.

(** The table of the layers' files, and the contents of the files: [None] for
    a file that has not been written. *)
Record t : Type := mk { layers : gmap layer_name (gmap filename nat); heap : list (option (list N)) }.

Definition new : t := mk ∅ [].

Definition contents (s : t) (f : nat) : option (list N) := mjoin (heap s !! f).

#[export] Instance files : FileLoad t nat := {
  exists_ f := io_read (fun s => Ok (bool_decide (is_Some (contents s f))));
  map_file f := io_read (fun s => match contents s f with Some b => Ok b | None => Err NotFound end);
  read_all f := io_read (fun s => match contents s f with Some b => Ok b | None => Panic end);
  write_all f data s := (mk (layers s) (<[f := Some data]> (heap s)), Ok ())
}.

Definition directories : io t (list layer_name) := io_read (fun s => Ok (fst <$> map_to_list (layers s))).

Definition create_named_directory (name : layer_name) : io t layer_name :=
  fun s => (mk (<[name := ∅]> (layers s)) (heap s), Ok name).

Definition directory_exists (name : layer_name) : io t bool :=
  io_read (fun s => Ok (bool_decide (is_Some (layers s !! name)))).

Definition file_exists (directory : layer_name) (file : filename) : io t bool :=
  s ← io_get;
  match layers s !! directory with
  | Some files =>
      match files !! file with
      | Some file => exists_ file
      | None => mret false
      end
  | None => mret false
  end.

(** A file that is not there is made. *)
Definition get_file (directory : layer_name) (name : filename) : io t nat :=
  s ← io_get;
  match layers s !! directory with
  | Some files =>
      match files !! name with
      | Some file => mret file
      | None =>
          let file := length (heap s) in
          _ ← io_put (mk (<[directory := <[name := file]> files]> (layers s)) (heap s ++ [None]));
          mret file
      end
  | None => io_err NotFound
  end.

#[export] Instance store : PersistentLayerStore t nat := {
  Directories.create_named_directory := create_named_directory;
  Directories.directory_exists := directory_exists;
  Directories.get_file := get_file;
  Directories.file_exists := file_exists
}.
#[export] Instance listing : DirectoryListing t := directories.

End MemoryLayerStore.
Export (hints) MemoryLayerStore.

(** ** The directory store *)

Module DirectoryLayerStore.

(** A path below the directory of the store: the names of its parts. *)
Abbreviation path := (list (list N)).

(** The directories and the files of the file system. *)
Record t : Type := mk { dirs : gset path; regular_files : gmap path (list N) }.

Definition PREFIX_DIR_SIZE : N := 3.

(** The bytes of a file name. *)
Definition filename_bytes (f : filename) : list N := (fun b => Byte.to_N b) <$> String.list_byte_of_string f.

Definition prefix_dir (name : layer_name) : list N := takeN PREFIX_DIR_SIZE (name_to_string name).

Definition dir_path (name : layer_name) : path := [prefix_dir name; name_to_string name].

Definition file_path (name : layer_name) (file : filename) : path := dir_path name ++ [filename_bytes file].

(** A file that is opened for writing is not truncated. *)
Definition overwrite (old data : list N) : list N := data ++ dropN (lenN data) old.

#[export] Instance files : FileLoad t path := {
  exists_ f := io_read (fun s => Ok (bool_decide (f ∈ dirs s \/ is_Some (regular_files s !! f))));
  map_file f := io_read (fun s => match regular_files s !! f with Some b => Ok b | None => Err NotFound end);
  read_all f := io_read (fun s => match regular_files s !! f with Some b => Ok b | None => Err NotFound end);
  write_all f data s :=
    if decide (removelast f ∈ dirs s) then
      (mk (dirs s) (<[f := overwrite (default [] (regular_files s !! f)) data]> (regular_files s)), Ok ())
    else (s, Err NotFound)
}.

(** The names of the directories directly below the store's, read as layers. *)
Definition directories : io t (list layer_name) :=
  s ← io_get;
  io_lift (fold_outcome
    (fun result p =>
       match p with
       | [os_name] => name ← string_to_name os_name; Ok (result ++ [name])
       | _ => Ok result
       end)
    [] (elements (dirs s))).

(** [create_dir_all]. *)
Definition create_named_directory (name : layer_name) : io t layer_name :=
  fun s => (mk (dirs s ∪ {[ [prefix_dir name]; dir_path name ]}) (regular_files s), Ok name).

Definition directory_exists (name : layer_name) : io t bool :=
  io_read (fun s => Ok (bool_decide (dir_path name ∈ dirs s))).

Definition get_file (directory : layer_name) (name : filename) : io t path := mret (file_path directory name).

Definition file_exists (directory : layer_name) (file : filename) : io t bool :=
  io_read (fun s => Ok (bool_decide (is_Some (regular_files s !! file_path directory file)))).

#[export] Instance store : PersistentLayerStore t path := {
  Directories.create_named_directory := create_named_directory;
  Directories.directory_exists := directory_exists;
  Directories.get_file := get_file;
  Directories.file_exists := file_exists
}.
#[export] Instance listing : DirectoryListing t := directories.

End DirectoryLayerStore.
Export (hints) DirectoryLayerStore.

(** ** Refinement

    A computation on one store refines one on another: wherever the latter
    does not panic (which is how the common view leaves things open) the
    former has the same outcome, with related values, and the states stay
    related.  [ext] says that handles keep their meaning. *)
Definition refines {S S' A A'} (shows : S -> S' -> Prop) (ext : S -> S -> Prop) (R : S -> A -> A' -> Prop)
    (m : io S A) (m' : io S' A') (s : S) (s' : S') : Prop :=
  match m' s' with
  | (s1', Ok a') => exists s1 a, m s = (s1, Ok a) /\ shows s1 s1' /\ ext s s1 /\ R s1 a a'
  | (s1', Err e) => exists s1, m s = (s1, Err e) /\ shows s1 s1' /\ ext s s1
  | (_, Panic) => True
  end.

(** The relation of plain values. *)
Definition same {S A} (_ : S) (a a' : A) : Prop := a = a'.

#[export] Instance same_refl {S A} (s : S) : Reflexive (@same S A s).
Proof. done. Qed.

Section refines.
Context {S S' : Type} (shows : S -> S' -> Prop) (ext : S -> S -> Prop) `{!PreOrder ext}.

Lemma refines_bind {A A' B B'} (R : S -> A -> A' -> Prop) (Q : S -> B -> B' -> Prop) m m' k k' s s' :
  refines shows ext R m m' s s' ->
  (forall s1 s1' a a', ext s s1 -> shows s1 s1' -> R s1 a a' -> refines shows ext Q (k a) (k' a') s1 s1') ->
  refines shows ext Q (m ≫= k) (m' ≫= k') s s'.
Proof using All.
  intros Hm Hk. unfold refines, mbind, io_bind in *. destruct (m' s') as [s1' [a'|e|]].
  - destruct Hm as (s1 & a & -> & Hs & He & HR). specialize (Hk s1 s1' a a' He Hs HR).
    destruct (k' a' s1') as [s2' [b'|e|]]; [| |done].
    + destruct Hk as (s2 & b & -> & Hs2 & He2 & HQ). exists s2, b. split_and!; [done..|by etransitivity|done].
    + destruct Hk as (s2 & -> & Hs2 & He2). exists s2. split_and!; [done..|by etransitivity].
  - destruct Hm as (s1 & -> & Hs & He). by exists s1.
  - done.
Qed.

Lemma refines_ret {A A'} (R : S -> A -> A' -> Prop) a a' s s' : shows s s' -> R s a a' ->
  refines shows ext R (mret a) (mret a') s s'.
Proof using All. intros Hs HR. exists s, a. by split_and!. Qed.

Lemma refines_err {A A'} (R : S -> A -> A' -> Prop) e s s' : shows s s' ->
  refines shows ext R (io_err e) (io_err e) s s'.
Proof using All. intros Hs. exists s. by split_and!. Qed.

Lemma refines_lift {A} (m : outcome io_error A) s s' : shows s s' ->
  refines shows ext same (io_lift m) (io_lift m) s s'.
Proof using All.
  intros Hs. unfold refines, io_lift. destruct m as [a|e|]; [|by exists s|done].
  exists s, a. by split_and!.
Qed.

Lemma refines_opt {A A'} (R : S -> A -> A' -> Prop) (m : option A) m' s s' : shows s s' ->
  (forall a', m' = Some a' -> exists a, m = Some a /\ R s a a') ->
  refines shows ext R (io_opt m) (io_opt m') s s'.
Proof using All.
  intros Hs Hm. unfold refines, io_opt. destruct m' as [a'|]; cbn; [|done].
  destruct (Hm a' eq_refl) as (a & -> & HR). exists s, a. by split_and!.
Qed.

Lemma refines_read {A} (f : S -> outcome io_error A) f' s s' : shows s s' -> (f' s' = Panic \/ f s = f' s') ->
  refines shows ext same (io_read f) (io_read f') s s'.
Proof using All.
  intros Hs [E|E]; unfold refines, io_read; [by rewrite E|]. rewrite E.
  destruct (f' s') as [a|e|]; [|by exists s|done]. exists s, a. by split_and!.
Qed.

Lemma refines_mono {A A'} (R Q : S -> A -> A' -> Prop) m m' s s' :
  refines shows ext R m m' s s' -> (forall s1 a a', ext s s1 -> R s1 a a' -> Q s1 a a') ->
  refines shows ext Q m m' s s'.
Proof using Type.
  unfold refines. destruct (m' s') as [s1' [a'|e|]]; [|done..].
  intros (s1 & a & E & Hs & He & HR) HQ. exists s1, a. split_and!; try done. by apply HQ.
Qed.
End refines.

Lemma at_name_refines {S A A' : Type} (shows : S -> disk -> Prop) (ext : S -> S -> Prop) (R : S -> A -> A' -> Prop) name m m' s D :
  (name_ok name -> refines shows ext R m m' s D) -> refines shows ext R m (Disk.at_name name m') s D.
Proof. intros H. unfold Disk.at_name. case_decide; [by apply H|done]. Qed.

(** What a store promises: it is the common view, with handles of its own. *)
Class DiskLaws (S F : Type) `{PersistentLayerStore S F} (shows : S -> disk -> Prop) (ext : S -> S -> Prop)
    (denotes : S -> F -> layer_name * filename -> Prop) := {
  #[global] ext_preorder :: PreOrder ext;
  denotes_ext s s1 f f' : ext s s1 -> denotes s f f' -> denotes s1 f f';
  create_refines name s D : shows s D ->
    refines shows ext same (create_named_directory name) (create_named_directory name) s D;
  directory_exists_refines name s D : shows s D ->
    refines shows ext same (directory_exists name) (directory_exists name) s D;
  file_exists_refines name file s D : shows s D ->
    refines shows ext same (file_exists name file) (file_exists name file) s D;
  get_file_refines name file s D : shows s D ->
    refines shows ext denotes (get_file name file) (get_file name file) s D;
  exists_refines f f' s D : shows s D -> denotes s f f' -> refines shows ext same (exists_ f) (exists_ f') s D;
  map_refines f f' s D : shows s D -> denotes s f f' -> refines shows ext same (map_file f) (map_file f') s D;
  read_refines f f' s D : shows s D -> denotes s f f' -> refines shows ext same (read_all f) (read_all f') s D;
  write_refines f f' data s D : shows s D -> denotes s f f' ->
    refines shows ext same (write_all f data) (write_all f' data) s D
}.

(** *** The memory store *)

Module MemoryView.
Import MemoryLayerStore.

Definition file_at (s : t) (d : layer_name) (n : filename) : option nat := fs ← layers s !! d; fs !! n.

Record shows (s : t) (D : disk) : Prop := {
  same_dirs d : is_Some (layers s !! d) <-> is_Some (D !! d);
  same_files d n : Disk.lookup_file D (d, n) = (f ← file_at s d n; contents s f);
  in_heap d n f : file_at s d n = Some f -> (f < length (heap s))%nat;
  not_shared d n d' n' f : file_at s d n = Some f -> file_at s d' n' = Some f -> d = d' /\ n = n'
}.

Definition ext (s s1 : t) : Prop := forall d n f, file_at s d n = Some f -> file_at s1 d n = Some f.
Definition denotes (s : t) (f : nat) (f' : layer_name * filename) : Prop := file_at s f'.1 f'.2 = Some f.

#[export] Instance ext_preorder : PreOrder ext.
Proof. split; [by intros s d n f|]. intros s s1 s2 H1 H2 d n f Hf. by apply H2, H1. Qed.

Lemma file_at_None s d n : layers s !! d = None -> file_at s d n = None.
Proof. unfold file_at. by intros ->. Qed.

Lemma memory_shows_create s D name : shows s D -> D !! name = None ->
  shows (mk (<[name := ∅]> (layers s)) (heap s)) (<[name := ∅]> D) /\ ext s (mk (<[name := ∅]> (layers s)) (heap s)).
Proof.
  intros [Hd Hf Hh Hn] HD. assert (Hnone : layers s !! name = None).
  { apply eq_None_not_Some. rewrite Hd, HD. by intros []. }
  assert (Hat : forall d n, file_at (mk (<[name := ∅]> (layers s)) (heap s)) d n = if decide (d = name) then None else file_at s d n).
  { intros d n. unfold file_at. cbn [layers]. case_decide; [subst; by rewrite lookup_insert_eq|by rewrite lookup_insert_ne]. }
  split; [split|].
  - intros d. cbn [layers]. specialize (Hd d). rewrite lookup_insert_is_Some.  rewrite lookup_insert_is_Some. tauto.
  - intros d n. rewrite Hat. unfold Disk.lookup_file. cbn [fst snd]. case_decide as E.
    + subst. by rewrite lookup_insert_eq.
    + rewrite lookup_insert_ne by done. apply (Hf d n).
  - intros d n f. rewrite Hat. case_decide; [done|apply Hh].
  - intros d n d' n' f. rewrite !Hat. do 2 case_decide; [done..|]. apply Hn.
  - intros d n f Hfa. rewrite Hat. case_decide; [|done]. subst. by rewrite file_at_None in Hfa.
Qed.

Lemma shows_get s D d fs n : shows s D -> layers s !! d = Some fs -> fs !! n = None ->
  let s1 := mk (<[d := <[n := length (heap s)]> fs]> (layers s)) (heap s ++ [None]) in
  shows s1 D /\ ext s s1 /\ file_at s1 d n = Some (length (heap s)).
Proof.
  intros [Hd Hf Hh Hn] Hl Hfs s1.
  assert (Hat : forall d' n', file_at s1 d' n' = if decide (d' = d /\ n' = n) then Some (length (heap s)) else file_at s d' n').
  { intros d' n'. unfold file_at, s1. cbn [layers]. destruct (decide (d' = d)) as [->|E].
    - rewrite lookup_insert_eq, Hl. cbn. destruct (decide (n' = n)) as [->|E].
      + rewrite lookup_insert_eq. by rewrite decide_True.
      + rewrite lookup_insert_ne by done. by rewrite decide_False by tauto.
    - rewrite lookup_insert_ne by done. by rewrite decide_False by tauto. }
  assert (Hcon : forall f, contents s1 f = contents s f).
  { intros f. unfold contents, s1. cbn [heap]. destruct (decide (f < length (heap s))%nat) as [Hlt|Hge].
    - by rewrite lookup_app_l.
    - rewrite lookup_app_r by lia. rewrite (lookup_ge_None_2 (heap s)) by lia.
      destruct (f - length (heap s))%nat as [|k]; [done|]. by destruct k. }
  assert (Hnone : file_at s d n = None) by (unfold file_at; by rewrite Hl).
  split; [split|split].
  - intros d'. unfold s1. cbn [layers]. pose proof (Hd d') as Hd'. rewrite lookup_insert_is_Some. split; [|destruct (decide (d = d')); tauto].
    intros [<-|[_ H]]; [apply Hd; by eexists|tauto].
  - intros d' n'. rewrite Hat. case_decide as E; [|rewrite (Hf d' n'); destruct (file_at s d' n'); [by cbn; rewrite Hcon|done]].
    destruct E as [-> ->]. rewrite (Hf d n), Hnone. cbn. rewrite Hcon. unfold contents.
    by rewrite (lookup_ge_None_2 (heap s)) by lia.
  - intros d' n' f. rewrite Hat. unfold s1. cbn [heap]. rewrite length_app. cbn.
    case_decide; [intros [= <-]; lia|]. intros Hfa. apply Hh in Hfa. lia.
  - intros d1 n1 d2 n2 f. rewrite !Hat.
    destruct (decide (d1 = d /\ n1 = n)) as [[-> ->]|E1], (decide (d2 = d /\ n2 = n)) as [[-> ->]|E2].
    + done.
    + intros [= <-] Hfa. apply Hh in Hfa. lia.
    + intros Hfa [= <-]. apply Hh in Hfa. lia.
    + apply Hn.
  - intros d' n' f Hfa. rewrite Hat. case_decide as E; [|done]. destruct E as [-> ->]. congruence.
  - rewrite Hat. by rewrite decide_True.
Qed.

Lemma memory_shows_write s D d n f data dd : shows s D -> file_at s d n = Some f -> D !! d = Some dd ->
  shows (mk (layers s) (<[f := Some data]> (heap s))) (<[d := <[n := data]> dd]> D).
Proof.
  intros [Hd Hf Hh Hn] Hfa HD. pose proof (Hh _ _ _ Hfa) as Hlt. split.
  - intros d'. cbn [layers].  rewrite lookup_insert_is_Some. specialize (Hd d') as Hd'. split.
    + intros H%Hd'. destruct (decide (d = d')); [by left|by right].
    + intros [<-|[_ H]]; apply Hd'; [by eexists|done].
  - intros d' n'. unfold file_at. cbn [layers]. fold (file_at s d' n').
    unfold Disk.lookup_file. cbn [fst snd]. pose proof (Hf d' n') as Hold. unfold Disk.lookup_file in Hold. cbn [fst snd] in Hold.
    destruct (decide (d' = d /\ n' = n)) as [[-> ->]|E].
    + rewrite lookup_insert_eq. cbn. rewrite lookup_insert_eq, Hfa. cbn. unfold contents. cbn [heap].
      by rewrite list_lookup_insert_eq.
    + transitivity (d0 ← D !! d'; d0 !! n').
      { destruct (decide (d' = d)) as [->|Ed]; [|by rewrite lookup_insert_ne].
        rewrite lookup_insert_eq, HD. cbn. rewrite lookup_insert_ne; [done|]. intros ->. by apply E. }
      rewrite Hold. destruct (file_at s d' n') as [f'|] eqn:Hfa'; [|done]. cbn. unfold contents. cbn [heap].
      rewrite list_lookup_insert_ne; [done|]. intros ->. apply E. by apply (Hn _ _ _ _ _ Hfa' Hfa).
  - intros d' n' f'. cbn [heap]. rewrite length_insert. apply Hh.
  - apply Hn.
Qed.

#[export] Instance laws : DiskLaws t nat shows ext denotes.
Proof.
  split.
  - apply _.
  - intros s s1 f f' He Hf. by apply He.
  - intros name s D Hs. apply at_name_refines. intros _. unfold refines. destruct (D !! name) eqn:HD; [done|].
    destruct (memory_shows_create s D name Hs HD) as [H1 H2]. eexists _, name. by split_and!.
  - intros name s D Hs. apply at_name_refines. intros _. apply (refines_read shows ext); [done|]. right. f_equal.
    apply bool_decide_ext. by apply same_dirs.
  - intros name file s D Hs. apply at_name_refines. intros _. pose proof (same_files _ _ Hs name file) as E.
    unfold refines, io_read. cbn [Directories.file_exists store]. unfold file_exists, mbind, io_bind, io_get.
    exists s, (Disk.file_there D (name, file)). split_and!; [|done..]. unfold Disk.file_there. rewrite E. unfold file_at.
    destruct (layers s !! name) as [fs|]; cbn; [|done]. by destruct (fs !! file).
  - intros name file s D Hs. apply at_name_refines. intros _. unfold refines, io_read. case_decide as Hd; [|done].
    apply (same_dirs _ _ Hs) in Hd as [fs Hl]. cbn [Directories.get_file store]. unfold get_file, mbind, io_bind, io_get.
    rewrite Hl. destruct (fs !! file) as [f|] eqn:Hfs.
    + exists s, f. split_and!; [done..|]. unfold denotes, file_at. cbn. by rewrite Hl.
    + destruct (shows_get s D name fs file Hs Hl Hfs) as (H1 & H2 & H3). eexists _, _. by split_and!.
  - intros f [d n] s D Hs Hf. apply (refines_read shows ext); [done|]. right. unfold Disk.file_there.
    rewrite (same_files _ _ Hs d n). unfold denotes in Hf. cbn in Hf. by rewrite Hf.
  - intros f [d n] s D Hs Hf. apply (refines_read shows ext); [done|]. right.
    rewrite (same_files _ _ Hs d n). unfold denotes in Hf. cbn in Hf. by rewrite Hf.
  - intros f [d n] s D Hs Hf. apply (refines_read shows ext); [done|].
    rewrite (same_files _ _ Hs d n). unfold denotes in Hf. cbn in Hf. rewrite Hf. cbn.
    destruct (contents s f); [by right|by left].
  - intros f [d n] data s D Hs Hf. unfold denotes in Hf. cbn [fst snd] in Hf. unfold refines. cbn [write_all Disk.files fst snd].
    destruct (D !! d) as [dd|] eqn:HD; [|done]. pose proof (memory_shows_write s D d n f data dd Hs Hf HD) as H1.
    destruct (dd !! n) as [old|]; [destruct (lenN old <=? lenN data); [|done]|]; eexists _, (); (split_and!; [done|done|by intros ? ? ?|done]).
Qed.

End MemoryView.
Export (hints) MemoryView.

(** *** The directory store *)

Module DirectoryView.
Import DirectoryLayerStore.

Record shows (s : t) (D : disk) : Prop := {
  names_ok d : is_Some (D !! d) -> name_ok d;
  same_dirs d : name_ok d -> dir_path d ∈ dirs s <-> is_Some (D !! d);
  same_files d n : name_ok d -> regular_files s !! file_path d n = Disk.lookup_file D (d, n);
  short_dirs p : p ∈ dirs s -> (length p <= 2)%nat
}.

Definition ext (s s1 : t) : Prop := dirs s ⊆ dirs s1.
Definition denotes (s : t) (f : path) (f' : layer_name * filename) : Prop :=
  name_ok f'.1 /\ f = file_path f'.1 f'.2 /\ dir_path f'.1 ∈ dirs s.

#[export] Instance ext_preorder : PreOrder ext.
Proof. unfold ext. split; [by intros s|]. intros s s1 s2. apply transitivity. Qed.

Lemma name_to_string_inj n n' : name_ok n -> name_ok n' -> name_to_string n = name_to_string n' -> n = n'.
Proof.
  intros H H' E. pose proof (string_of_name n H) as E1. rewrite E, (string_of_name n' H') in E1. by injection E1.
Qed.

Lemma filename_bytes_inj f f' : filename_bytes f = filename_bytes f' -> f = f'.
Proof.
  intros E. assert (Inj (=) (=) Byte.to_N) as Hinj.
  { intros a b Hab. pose proof (Byte.of_to_N a) as Ha. rewrite Hab, Byte.of_to_N in Ha. by injection Ha. }
  apply (inj (fmap Byte.to_N)) in E.
  rewrite <- (String.string_of_list_byte_of_string f), <- (String.string_of_list_byte_of_string f'). by rewrite E.
Qed.

Lemma dir_path_inj n n' : name_ok n -> name_ok n' -> dir_path n = dir_path n' -> n = n'.
Proof. intros H H' E. injection E. intros E' _. by apply name_to_string_inj. Qed.

Lemma file_path_inj d n d' n' : name_ok d -> name_ok d' -> file_path d n = file_path d' n' -> d = d' /\ n = n'.
Proof.
  unfold file_path. intros H H' [E1 E2]%app_inj_tail. split; [by apply dir_path_inj|by apply filename_bytes_inj].
Qed.

Lemma file_path_parent d n : removelast (file_path d n) = dir_path d.
Proof. apply removelast_last. Qed.

Lemma overwrite_all old data : lenN old <= lenN data -> overwrite old data = data.
Proof.
  intros Hl. unfold overwrite. unfold dropN. rewrite drop_ge; [apply app_nil_r|]. unfold lenN in *. lia.
Qed.

Lemma directory_shows_create s D name : shows s D -> name_ok name -> D !! name = None ->
  shows (create_named_directory name s).1 (<[name := ∅]> D) /\ ext s (create_named_directory name s).1.
Proof.
  intros [Hn Hd Hf Hl] Hok HD. cbn. split; [split|].
  - intros d [<-|[_ H]]%lookup_insert_is_Some; [done|by apply Hn].
  - intros d Hdok. cbn [dirs]. rewrite lookup_insert_is_Some, <- (Hd d Hdok).
    rewrite !elem_of_union, !elem_of_singleton. split.
    + intros [H|[H|H%dir_path_inj]]; [|done|by left|done..].
      destruct (decide (name = d)); [by left|by right].
    + intros [->|[_ H]]; tauto.
  - intros d n Hdok. cbn [regular_files]. rewrite (Hf d n Hdok). unfold Disk.lookup_file. cbn [fst snd].
    destruct (decide (name = d)) as [->|E]; [|by rewrite lookup_insert_ne].
    by rewrite lookup_insert_eq, HD.
  - intros p. cbn [dirs]. rewrite !elem_of_union, !elem_of_singleton. intros [H|[->| ->]]; [by apply Hl|cbn; lia..].
  - unfold ext. cbn. intros p Hp. apply elem_of_union. by left.
Qed.

Lemma directory_shows_write s D d n data dd : shows s D -> name_ok d -> D !! d = Some dd ->
  shows (mk (dirs s) (<[file_path d n := data]> (regular_files s))) (<[d := <[n := data]> dd]> D).
Proof.
  intros [Hn Hd Hf Hl] Hok HD. split; cbn [dirs regular_files].
  - intros d' [<-|[_ H]]%lookup_insert_is_Some; [done|by apply Hn].
  - intros d' Hdok. rewrite lookup_insert_is_Some, (Hd d' Hdok). split.
    + intros H. destruct (decide (d = d')); [by left|by right].
    + intros [<-|[_ H]]; [by eexists|done].
  - intros d' n' Hdok. unfold Disk.lookup_file. cbn [fst snd].
    destruct (decide (d = d' /\ n = n')) as [[<- <-]|E].
    + rewrite !lookup_insert_eq. cbn. by rewrite lookup_insert_eq.
    + rewrite lookup_insert_ne by (intros [-> ->]%file_path_inj; [by apply E|done..]).
      rewrite (Hf d' n' Hdok). unfold Disk.lookup_file. cbn [fst snd].
      destruct (decide (d = d')) as [<-|Ed]; [|by rewrite lookup_insert_ne].
      rewrite lookup_insert_eq, HD. cbn. rewrite lookup_insert_ne; [done|]. intros ->. by apply E.
  - apply Hl.
Qed.

#[export] Instance laws : DiskLaws t path shows ext denotes.
Proof.
  split.
  - apply _.
  - intros s s1 f f' He (H1 & H2 & H3). split_and!; [done..|]. by apply He.
  - intros name s D Hs. apply at_name_refines. intros Hok. unfold refines. destruct (D !! name) eqn:HD; [done|].
    destruct (directory_shows_create s D name Hs Hok HD) as [H1 H2]. eexists _, name. by split_and!.
  - intros name s D Hs. apply at_name_refines. intros Hok. apply (refines_read shows ext); [done|]. right. f_equal.
    apply bool_decide_ext. by apply (same_dirs _ _ Hs).
  - intros name file s D Hs. apply at_name_refines. intros Hok. apply (refines_read shows ext); [done|]. right.
    unfold Disk.file_there. by rewrite (same_files _ _ Hs name file Hok).
  - intros name file s D Hs. apply at_name_refines. intros Hok. unfold refines, io_read. case_decide as Hd; [|done].
    exists s, (file_path name file). split_and!; [done..|]. split_and!; [done..|]. by apply (same_dirs _ _ Hs).
  - intros f [d n] s D Hs (Hok & -> & _). apply (refines_read shows ext); [done|]. right. unfold Disk.file_there. cbn [fst snd].
    rewrite (same_files _ _ Hs d n Hok). f_equal. apply bool_decide_ext. split; [|by right].
    intros [H%(short_dirs _ _ Hs)|H]; [cbn in H; lia|done].
  - intros f [d n] s D Hs (Hok & -> & _). apply (refines_read shows ext); [done|]. right. cbn [fst snd].
    by rewrite (same_files _ _ Hs d n Hok).
  - intros f [d n] s D Hs (Hok & -> & _). apply (refines_read shows ext); [done|]. cbn [fst snd].
    rewrite (same_files _ _ Hs d n Hok). destruct (Disk.lookup_file D (d, n)); [by right|by left].
  - intros f [d n] data s D Hs (Hok & -> & Hdir). cbn [fst snd] in *. unfold refines. cbn [write_all Disk.files files fst snd].
    destruct (D !! d) as [dd|] eqn:HD; [|done].
    assert (E : forall old, overwrite old data = data ->
      exists s1 a, (if decide (removelast (file_path d n) ∈ dirs s)
        then (mk (dirs s) (<[file_path d n := overwrite old data]> (regular_files s)), Ok ()) else (s, Err NotFound)) = (s1, Ok a) /\
        shows s1 (<[d := <[n := data]> dd]> D) /\ ext s s1 /\ same s1 a ()).
    { intros old Hold. rewrite file_path_parent, decide_True, Hold by done. eexists _, (). split_and!; [reflexivity|by apply directory_shows_write|unfold ext; done|done]. }
    pose proof (same_files _ _ Hs d n Hok) as Ef. unfold Disk.lookup_file in Ef. cbn [fst snd] in Ef.
    rewrite HD in Ef. cbn [mbind option_bind] in Ef.
    rewrite Ef. destruct (dd !! n) as [old|]; cbn [default].
    + destruct (lenN old <=? lenN data) eqn:Hl; [|done]. apply E, overwrite_all. by apply N.leb_le.
    + apply E. apply overwrite_all. by rewrite lenN_nil; lia.
Qed.

End DirectoryView.
Export (hints) DirectoryView.

(** An empty store of either kind is the empty disk. *)
Lemma memory_new_shows : MemoryView.shows MemoryLayerStore.new ∅.
Proof. split; unfold MemoryView.file_at; cbn; intros *; rewrite ?lookup_empty; done. Qed.

Definition empty_directory : DirectoryLayerStore.t := DirectoryLayerStore.mk ∅ ∅.

Lemma directory_empty_shows : DirectoryView.shows empty_directory ∅.
Proof.
  split; cbn; intros *.
  - rewrite lookup_empty. by intros [].
  - rewrite lookup_empty. split; [set_solver|by intros []].
  - by rewrite lookup_empty.
  - set_solver.
Qed.

(** Listing the layers of a directory store fails as soon as there is one:
    the directories that are directly below are those of the first three
    digits. *)
Definition sample_layer : layer_name := [1; 2; 3; 4; 5].

Lemma directories_with_a_layer :
  DirectoryLayerStore.directories (DirectoryLayerStore.create_named_directory sample_layer empty_directory).1 =
  ((DirectoryLayerStore.create_named_directory sample_layer empty_directory).1, Err Other).
Proof. cbv beta delta [DirectoryLayerStore.directories mbind io_bind io_get io_lift]. f_equal. Qed.

(** A shorter file is not truncated to what is written. *)
Lemma write_does_not_truncate (s : DirectoryLayerStore.t) f old data : removelast f ∈ DirectoryLayerStore.dirs s ->
  DirectoryLayerStore.regular_files s !! f = Some old -> lenN data < lenN old ->
  exists rest, rest <> [] /\ DirectoryLayerStore.regular_files (write_all f data s).1 !! f = Some (data ++ rest).
Proof.
  intros Hd Hf Hl. exists (dropN (lenN data) old). split.
  - intros E. pose proof (lenN_dropN (lenN data) old) as H. rewrite E, lenN_nil in H. lia.
  - cbn [write_all DirectoryLayerStore.files]. rewrite decide_True by done.
    cbn [fst DirectoryLayerStore.regular_files]. by rewrite lookup_insert_eq, Hf.
Qed.
