(* ===== verification/MemoryFiles.v ===== *)
(** * Files in memory, piece by piece (src/storage/memory.rs)

    A file in memory is written through a writer that gathers the pieces it is
    given until it is synced, and read through a reader that keeps its place.
    The rest of the development writes and reads files whole: the theorem here
    is that pieces come to the same. *)

From stdpp Require Import gmap.
From S2P Require Import Prelude.
From S2P Require Import Words.
From S2P Require Import LayerTypes.
From S2P Require Import StoreMonad.
From S2P Require Import Files.
From S2P Require Import DiskStores.
Open Scope N_scope.

(** ** Writing *)

Module MemoryBackedStoreWriter.
Record t : Type := mk { file : nat; bytes : list N }.

Definition write (self : t) (buf : list N) : t * N := (mk (file self) (bytes self ++ buf), lenN buf).

Definition flush (self : t) : t := self.

Definition sync_all (self : t) : io MemoryLayerStore.t () :=
  s ← io_get;
  io_put (MemoryLayerStore.mk (MemoryLayerStore.layers s) (<[file self := Some (bytes self)]> (MemoryLayerStore.heap s))).
End MemoryBackedStoreWriter.

(** ** Reading *)

Module MemoryBackedStoreReader.
Record t : Type := mk { bytes : list N; pos : N }.

(** What fits a buffer of [room] bytes. *)
Definition read (self : t) (room : N) : option (t * list N) :=
  if lenN (bytes self) =? pos self then Some (self, [])
  else
    end_ ← cadd 64 (pos self) room;
    if lenN (bytes self) <? end_ then
      len ← csub (lenN (bytes self)) (pos self);
      Some (mk (bytes self) (pos self + len), dropN (pos self) (bytes self))
    else Some (mk (bytes self) end_, takeN room (dropN (pos self) (bytes self))).
End MemoryBackedStoreReader.

Module MemoryBackedStore.
Definition open_write (self : nat) : MemoryBackedStoreWriter.t := MemoryBackedStoreWriter.mk self [].

Definition size (self : nat) : io MemoryLayerStore.t N :=
  io_read (fun s => match MemoryLayerStore.contents s self with Some bytes => Ok (lenN bytes) | None => Panic end).

Definition open_read_from (self : nat) (offset : N) : io MemoryLayerStore.t MemoryBackedStoreReader.t :=
  io_read (fun s => match MemoryLayerStore.contents s self with
    | Some bytes => Ok (MemoryBackedStoreReader.mk bytes offset)
    | None => Panic
    end).
End MemoryBackedStore.

(** Pieces written one after the other, then synced. *)
Definition write_pieces (file : nat) (pieces : list (list N)) : io MemoryLayerStore.t () :=
  MemoryBackedStoreWriter.sync_all
    (foldl (fun w buf => (MemoryBackedStoreWriter.write w buf).1) (MemoryBackedStore.open_write file) pieces).

(** Reads until nothing is left: [rooms] gives the room of each buffer. *)
Fixpoint read_pieces (fuel : nat) (rooms : nat -> N) (self : MemoryBackedStoreReader.t) : option (list N) :=
  match fuel with
  | O => None
  | S fuel =>
      '(self, buf) ← MemoryBackedStoreReader.read self (rooms fuel);
      match buf with
      | [] => Some []
      | _ => rest ← read_pieces fuel rooms self; Some (buf ++ rest)
      end
  end.

Lemma written_pieces pieces : forall file bytes,
  foldl (fun w buf => (MemoryBackedStoreWriter.write w buf).1) (MemoryBackedStoreWriter.mk file bytes) pieces =
    MemoryBackedStoreWriter.mk file (bytes ++ concat pieces).
Proof.
  induction pieces as [|p pieces IH]; intros file bytes; cbn; [by rewrite app_nil_r|]. by rewrite IH, app_assoc.
Qed.

Lemma read_pieces_rest rooms bytes : (forall k, 0 < rooms k < 2 ^ 63) -> lenN bytes < 2 ^ 63 -> forall fuel pos,
  pos <= lenN bytes -> (N.to_nat (lenN bytes - pos) < fuel)%nat ->
  read_pieces fuel rooms (MemoryBackedStoreReader.mk bytes pos) = Some (dropN pos bytes).
Proof.
  intros Hr Hb. induction fuel as [|fuel IH]; intros pos Hp Hf; [lia|]. cbn [read_pieces].
  unfold MemoryBackedStoreReader.read. cbn [MemoryBackedStoreReader.bytes MemoryBackedStoreReader.pos].
  specialize (Hr fuel). set (room := rooms fuel) in *.
  destruct (N.eqb_spec (lenN bytes) pos) as [<-|Hne].
  { cbn. f_equal. symmetry. apply nil_length_inv. pose proof (lenN_dropN (lenN bytes) bytes) as H. unfold lenN in *. lia. }
  rewrite cadd_Some by lia. rewrite bind_Some_eq.
  assert (Hstep : forall pos', pos < pos' <= lenN bytes -> takeN (pos' - pos) (dropN pos bytes) <> [] /\
    read_pieces fuel rooms (MemoryBackedStoreReader.mk bytes pos') = Some (dropN pos' bytes) /\
    takeN (pos' - pos) (dropN pos bytes) ++ dropN pos' bytes = dropN pos bytes).
  { intros pos' Hpos. split; [|split].
    - intros E. apply (f_equal lenN) in E. rewrite lenN_takeN, lenN_dropN in E. change (lenN []) with 0 in E. lia.
    - apply IH; lia.
    - rewrite <- (takeN_dropN (pos' - pos) (dropN pos bytes)) at 2. rewrite dropN_dropN. do 2 f_equal. lia. }
  destruct (N.ltb_spec (lenN bytes) (pos + room)) as [Hlt|Hge].
  - rewrite csub_Some by lia. rewrite !bind_Some_eq. destruct (Hstep (lenN bytes)) as (Hn & Hrd & Happ); [lia|].
    replace (takeN (lenN bytes - pos) (dropN pos bytes)) with (dropN pos bytes) in *.
    2:{ unfold takeN, dropN, lenN. rewrite take_ge; [done|]. rewrite length_drop. lia. }
    replace (pos + (lenN bytes - pos)) with (lenN bytes) by lia. destruct (dropN pos bytes) eqn:E; [done|].
    by rewrite Hrd, bind_Some_eq, Happ.
  - rewrite bind_Some_eq. destruct (Hstep (pos + room)) as (Hn & Hrd & Happ); [lia|].
    replace (pos + room - pos) with room in * by lia. destruct (takeN room (dropN pos bytes)) eqn:E; [done|].
    by rewrite Hrd, bind_Some_eq, Happ.
Qed.

(** ** Properties *)

(** C22: a file that is written in pieces of any size and synced is the file
    that is written whole, and reading it from any place with buffers of any
    size, to the end, gives the rest of it: reading never stops short and never
    fails. *)
Theorem memory_file_in_pieces (s : MemoryLayerStore.t) (file : nat) (pieces : list (list N)) rooms offset :
  (file < length (MemoryLayerStore.heap s))%nat -> lenN (concat pieces) < 2 ^ 63 -> (forall k, 0 < rooms k < 2 ^ 63) ->
  offset <= lenN (concat pieces) ->
  exists s' reader, runs (write_pieces file pieces) s s' () /\ runs (write_all file (concat pieces)) s s' () /\
    runs (MemoryBackedStore.size file) s' s' (lenN (concat pieces)) /\ runs (read_all file) s' s' (concat pieces) /\
    runs (MemoryBackedStore.open_read_from file offset) s' s' reader /\
    forall fuel, (N.to_nat (lenN (concat pieces) - offset) < fuel)%nat ->
      read_pieces fuel rooms reader = Some (dropN offset (concat pieces)).
Proof.
  intros Hf Hlen Hr Ho. eexists _, (MemoryBackedStoreReader.mk (concat pieces) offset).
  split; [unfold write_pieces, MemoryBackedStore.open_write; rewrite written_pieces; reflexivity|].
  split; [reflexivity|]. cbn [MemoryBackedStoreWriter.file MemoryBackedStoreWriter.bytes app].
  assert (Hc : MemoryLayerStore.contents (MemoryLayerStore.mk (MemoryLayerStore.layers s)
    (<[file := Some (concat pieces)]> (MemoryLayerStore.heap s))) file = Some (concat pieces)).
  { unfold MemoryLayerStore.contents. cbn. by rewrite list_lookup_insert_eq. }
  unfold runs, MemoryBackedStore.size, MemoryBackedStore.open_read_from. cbn [read_all MemoryLayerStore.files]. unfold io_read. rewrite Hc.
  repeat (split; [done|]). intros fuel Hfuel. by apply read_pieces_rest.
Qed.

Lemma memory_file_in_pieces_witness : exists s' reader,
  runs (write_pieces 0 [[1; 2]; []; [3; 4; 5]]) (MemoryLayerStore.mk ∅ [None]) s' () /\
  runs (MemoryBackedStore.open_read_from 0 1) s' s' reader /\
  read_pieces 5 (fun k => if (k =? 4)%nat then 1 else 2) reader = Some [2; 3; 4; 5].
Proof.
  destruct (memory_file_in_pieces (MemoryLayerStore.mk ∅ [None]) 0 [[1; 2]; []; [3; 4; 5]] (fun k => if (k =? 4)%nat then 1 else 2) 1)
    as (s' & reader & Hw & _ & _ & _ & Ho & Hr); [cbn; lia|by vm_compute|intros k; by destruct (k =? 4)%nat|by vm_compute|].
  exists s', reader. split; [exact Hw|]. split; [exact Ho|]. apply Hr. vm_compute. lia.
Defined.
