(* ===== verification/StoreRefinement.v ===== *)
(** * Every store is the common view of its disk

    What is written over the classes of Files and Directories does the same
    on every store that satisfies [DiskLaws] as on the disk it shows: the
    refinement goes through by the structure of the code, which the tactic
    [follow] does it. *)

From stdpp Require Import gmap.
From S2P Require Import Prelude.
From S2P Require Import Words.
From S2P Require Import Strings.
From S2P Require Import LayerTypes.
From S2P Require Import IdMaps.
From S2P Require Import TripleBuilder.
From S2P Require Import LayerBuilders.
From S2P Require Import Names.
From S2P Require Import StoreMonad.
From S2P Require Import FileNames.
From S2P Require Import Files.
From S2P Require Import Directories.
From S2P Require Import DiskStores.
Open Scope N_scope.

(** ** Structures of related handles *)

Section all.
Context {F F' : Type} (P : F -> F' -> Prop).

Definition all_dictionary (x : DictionaryFiles.t F) (y : DictionaryFiles.t F') : Prop :=
  P (DictionaryFiles.blocks_file x) (DictionaryFiles.blocks_file y) /\
  P (DictionaryFiles.offsets_file x) (DictionaryFiles.offsets_file y).

Definition all_bit_index (x : BitIndexFiles.t F) (y : BitIndexFiles.t F') : Prop :=
  P (BitIndexFiles.bits_file x) (BitIndexFiles.bits_file y) /\
  P (BitIndexFiles.blocks_file x) (BitIndexFiles.blocks_file y) /\
  P (BitIndexFiles.sblocks_file x) (BitIndexFiles.sblocks_file y).

Definition all_adjacency (x : AdjacencyListFiles.t F) (y : AdjacencyListFiles.t F') : Prop :=
  all_bit_index (AdjacencyListFiles.files x) (AdjacencyListFiles.files y) /\
  P (AdjacencyListFiles.nums_file x) (AdjacencyListFiles.nums_file y).

Definition all_id_map (x : IdMapFiles.t F) (y : IdMapFiles.t F') : Prop :=
  all_bit_index (IdMapFiles.node_value_idmap_files x) (IdMapFiles.node_value_idmap_files y) /\
  all_bit_index (IdMapFiles.predicate_idmap_files x) (IdMapFiles.predicate_idmap_files y).

Definition all_base (x : BaseLayerFiles.t F) (y : BaseLayerFiles.t F') : Prop :=
  (all_dictionary (BaseLayerFiles.node_dictionary_files x) (BaseLayerFiles.node_dictionary_files y) /\
   all_dictionary (BaseLayerFiles.predicate_dictionary_files x) (BaseLayerFiles.predicate_dictionary_files y) /\
   all_dictionary (BaseLayerFiles.value_dictionary_files x) (BaseLayerFiles.value_dictionary_files y) /\
   all_id_map (BaseLayerFiles.id_map_files x) (BaseLayerFiles.id_map_files y)) /\
  (P (BaseLayerFiles.subjects_file x) (BaseLayerFiles.subjects_file y) /\
   P (BaseLayerFiles.objects_file x) (BaseLayerFiles.objects_file y)) /\
  all_adjacency (BaseLayerFiles.s_p_adjacency_list_files x) (BaseLayerFiles.s_p_adjacency_list_files y) /\
  all_adjacency (BaseLayerFiles.sp_o_adjacency_list_files x) (BaseLayerFiles.sp_o_adjacency_list_files y) /\
  all_adjacency (BaseLayerFiles.o_ps_adjacency_list_files x) (BaseLayerFiles.o_ps_adjacency_list_files y) /\
  all_bit_index (BaseLayerFiles.predicate_wavelet_tree_files x) (BaseLayerFiles.predicate_wavelet_tree_files y).

Definition all_child (x : ChildLayerFiles.t F) (y : ChildLayerFiles.t F') : Prop :=
  (all_dictionary (ChildLayerFiles.node_dictionary_files x) (ChildLayerFiles.node_dictionary_files y) /\
   all_dictionary (ChildLayerFiles.predicate_dictionary_files x) (ChildLayerFiles.predicate_dictionary_files y) /\
   all_dictionary (ChildLayerFiles.value_dictionary_files x) (ChildLayerFiles.value_dictionary_files y) /\
   all_id_map (ChildLayerFiles.id_map_files x) (ChildLayerFiles.id_map_files y)) /\
  (P (ChildLayerFiles.pos_subjects_file x) (ChildLayerFiles.pos_subjects_file y) /\
   P (ChildLayerFiles.pos_objects_file x) (ChildLayerFiles.pos_objects_file y) /\
   P (ChildLayerFiles.neg_subjects_file x) (ChildLayerFiles.neg_subjects_file y) /\
   P (ChildLayerFiles.neg_objects_file x) (ChildLayerFiles.neg_objects_file y)) /\
  all_adjacency (ChildLayerFiles.pos_s_p_adjacency_list_files x) (ChildLayerFiles.pos_s_p_adjacency_list_files y) /\
  all_adjacency (ChildLayerFiles.pos_sp_o_adjacency_list_files x) (ChildLayerFiles.pos_sp_o_adjacency_list_files y) /\
  all_adjacency (ChildLayerFiles.pos_o_ps_adjacency_list_files x) (ChildLayerFiles.pos_o_ps_adjacency_list_files y) /\
  all_adjacency (ChildLayerFiles.neg_s_p_adjacency_list_files x) (ChildLayerFiles.neg_s_p_adjacency_list_files y) /\
  all_adjacency (ChildLayerFiles.neg_sp_o_adjacency_list_files x) (ChildLayerFiles.neg_sp_o_adjacency_list_files y) /\
  all_adjacency (ChildLayerFiles.neg_o_ps_adjacency_list_files x) (ChildLayerFiles.neg_o_ps_adjacency_list_files y) /\
  all_bit_index (ChildLayerFiles.pos_predicate_wavelet_tree_files x) (ChildLayerFiles.pos_predicate_wavelet_tree_files y) /\
  all_bit_index (ChildLayerFiles.neg_predicate_wavelet_tree_files x) (ChildLayerFiles.neg_predicate_wavelet_tree_files y).
End all.

Section refinement.
Context {S F : Type} `{Hstore : PersistentLayerStore S F} {shows ext denotes} `{!DiskLaws S F shows ext denotes}.

#[local] Abbreviation refines_ := (refines shows ext).

(** A handle keeps its meaning. *)
Lemma all_ext s s1 : ext s s1 ->
  (forall x y, all_dictionary (denotes s) x y -> all_dictionary (denotes s1) x y) /\
  (forall x y, all_bit_index (denotes s) x y -> all_bit_index (denotes s1) x y) /\
  (forall x y, all_adjacency (denotes s) x y -> all_adjacency (denotes s1) x y) /\
  (forall x y, all_id_map (denotes s) x y -> all_id_map (denotes s1) x y) /\
  (forall x y, all_base (denotes s) x y -> all_base (denotes s1) x y) /\
  (forall x y, all_child (denotes s) x y -> all_child (denotes s1) x y).
Proof using DiskLaws0.
  intros He. pose proof (fun f f' => denotes_ext s s1 f f' He) as Hd. clear He.
  assert (H1 : forall x y, all_dictionary (denotes s) x y -> all_dictionary (denotes s1) x y).
  { intros x y [? ?]. split; by apply Hd. }
  assert (H2 : forall x y, all_bit_index (denotes s) x y -> all_bit_index (denotes s1) x y).
  { intros x y (? & ? & ?). split_and!; by apply Hd. }
  assert (H3 : forall x y, all_adjacency (denotes s) x y -> all_adjacency (denotes s1) x y).
  { intros x y (? & ?). split; [by apply H2|by apply Hd]. }
  assert (H4 : forall x y, all_id_map (denotes s) x y -> all_id_map (denotes s1) x y).
  { intros x y (? & ?). split; by apply H2. }
  split_and!; [done..| |].
  - intros x y ((? & ? & ? & ?) & (? & ?) & ? & ? & ? & ?).
    split; [split_and!; auto|]. split; [split_and!; auto|]. split_and!; auto.
  - intros x y ((? & ? & ? & ?) & (? & ? & ? & ?) & ? & ? & ? & ? & ? & ? & ? & ?).
    split; [split_and!; auto|]. split; [split_and!; auto|]. split_and!; auto.
Qed.

End refinement.

(** Moves what is known of handles to the present state. *)
Ltac move_handles :=
  repeat match goal with
  | He : _ ?s ?s1, H : all_dictionary (_ ?s) ?x ?y |- _ => apply (proj1 (all_ext s s1 He)) in H
  | He : _ ?s ?s1, H : all_bit_index (_ ?s) ?x ?y |- _ => apply (proj1 (proj2 (all_ext s s1 He))) in H
  | He : _ ?s ?s1, H : all_adjacency (_ ?s) ?x ?y |- _ => apply (proj1 (proj2 (proj2 (all_ext s s1 He)))) in H
  | He : _ ?s ?s1, H : all_id_map (_ ?s) ?x ?y |- _ => apply (proj1 (proj2 (proj2 (proj2 (all_ext s s1 He))))) in H
  | He : _ ?s ?s1, H : all_base (_ ?s) ?x ?y |- _ => apply (proj1 (proj2 (proj2 (proj2 (proj2 (all_ext s s1 He)))))) in H
  | He : _ ?s ?s1, H : all_child (_ ?s) ?x ?y |- _ => apply (proj2 (proj2 (proj2 (proj2 (proj2 (all_ext s s1 He)))))) in H
  | He : _ ?s ?s1, H : ?den ?s ?f ?f' |- _ => apply (denotes_ext s s1 f f' He) in H
  end.

Create HintDb refine_db.
#[export] Hint Resolve create_refines directory_exists_refines file_exists_refines get_file_refines
  exists_refines map_refines read_refines write_refines : refine_db.

(** One step through a computation and its counterpart.  The first step of a
    bind is in the hint database; what it gives is equal or related. *)
Ltac refine_next :=
  let s1 := fresh "s" in let D1 := fresh "D" in let a := fresh "a" in let a' := fresh "a'" in
  let He := fresh "He" in let Hs := fresh "Hs" in let HR := fresh "HR" in
  intros s1 D1 a a' He Hs HR; cbv beta in HR;
  first [ match type of HR with same _ _ _ => unfold same in HR; subst a' end | idtac ];
  move_handles; clear He.

Ltac refine_leaf := solve [ eauto with refine_db ].

Ltac refine_step :=
  cbv beta iota zeta;
  lazymatch goal with
  | |- refines _ _ _ (mbind _ _) (mbind _ _) _ _ => eapply refines_bind; [apply _|refine_leaf|refine_next]
  | |- refines _ _ _ (mret _) (mret _) _ _ => 
      apply refines_ret; [apply _|assumption|first [reflexivity|assumption|solve [repeat split; cbn; eauto]|idtac]]
  | |- refines _ _ _ (io_err _) (io_err _) _ _ => apply refines_err; [apply _|assumption]
  | |- refines _ _ _ (io_lift _) (io_lift _) _ _ => apply refines_lift; [apply _|assumption]
  | |- refines _ _ _ (match ?b with _ => _ end) (match ?b with _ => _ end) _ _ => destruct b
  | |- _ => refine_leaf
  end.

Ltac follow := repeat refine_step.

Section rules.
Context {S F : Type} `{Hstore : PersistentLayerStore S F} {shows ext denotes} `{!DiskLaws S F shows ext denotes}.

#[local] Abbreviation refines_ := (refines shows ext).

Lemma map_if_exists_refines f f' s D : shows s D -> denotes s f f' ->
  refines_ same (map_if_exists f) (map_if_exists f') s D.
Proof using DiskLaws0. intros Hs Hf. unfold map_if_exists. follow. Qed.
#[local] Hint Resolve map_if_exists_refines : refine_db.

Lemma dictionary_map_refines f f' s D : shows s D -> all_dictionary (denotes s) f f' ->
  refines_ same (DictionaryFiles.map_all f) (DictionaryFiles.map_all f') s D.
Proof using DiskLaws0. intros Hs [H1 H2]. unfold DictionaryFiles.map_all. follow. Qed.

Lemma dictionary_write_refines f f' maps s D : shows s D -> all_dictionary (denotes s) f f' ->
  refines_ same (DictionaryFiles.write f maps) (DictionaryFiles.write f' maps) s D.
Proof using DiskLaws0. intros Hs [H1 H2]. unfold DictionaryFiles.write. follow. Qed.

Lemma bit_index_map_refines f f' s D : shows s D -> all_bit_index (denotes s) f f' ->
  refines_ same (BitIndexFiles.map_all f) (BitIndexFiles.map_all f') s D.
Proof using DiskLaws0. intros Hs (H1 & H2 & H3). unfold BitIndexFiles.map_all. follow. Qed.
#[local] Hint Resolve dictionary_map_refines dictionary_write_refines bit_index_map_refines : refine_db.

Lemma bit_index_map_if_exists_refines f f' s D : shows s D -> all_bit_index (denotes s) f f' ->
  refines_ same (BitIndexFiles.map_all_if_exists f) (BitIndexFiles.map_all_if_exists f') s D.
Proof using DiskLaws0. intros Hs Hf. pose proof Hf as (H1 & _). unfold BitIndexFiles.map_all_if_exists. follow. Qed.

Lemma bit_index_write_refines f f' maps s D : shows s D -> all_bit_index (denotes s) f f' ->
  refines_ same (BitIndexFiles.write f maps) (BitIndexFiles.write f' maps) s D.
Proof using DiskLaws0. intros Hs (H1 & H2 & H3). destruct maps as [[? ?] ?]. unfold BitIndexFiles.write. follow. Qed.
#[local] Hint Resolve bit_index_map_if_exists_refines bit_index_write_refines : refine_db.

Lemma adjacency_map_refines f f' s D : shows s D -> all_adjacency (denotes s) f f' ->
  refines_ same (AdjacencyListFiles.map_all f) (AdjacencyListFiles.map_all f') s D.
Proof using DiskLaws0. intros Hs [H1 H2]. unfold AdjacencyListFiles.map_all. follow. Qed.

Lemma adjacency_write_refines f f' maps s D : shows s D -> all_adjacency (denotes s) f f' ->
  refines_ same (AdjacencyListFiles.write f maps) (AdjacencyListFiles.write f' maps) s D.
Proof using DiskLaws0. intros Hs [H1 H2]. destruct maps as [[[? ?] ?] ?]. unfold AdjacencyListFiles.write. follow. Qed.

Lemma write_optional_refines f f' maps s D : shows s D -> denotes s f f' ->
  refines_ same (write_optional f maps) (write_optional f' maps) s D.
Proof using DiskLaws0. intros Hs Hf. unfold write_optional. follow. Qed.

Lemma id_map_map_refines f f' s D : shows s D -> all_id_map (denotes s) f f' ->
  refines_ same (IdMapFiles.map_all f) (IdMapFiles.map_all f') s D.
Proof using DiskLaws0. intros Hs [H1 H2]. unfold IdMapFiles.map_all. follow. Qed.

Lemma id_map_write_one_refines f f' maps s D : shows s D -> all_bit_index (denotes s) f f' ->
  refines_ same (IdMapFiles.write_one f maps) (IdMapFiles.write_one f' maps) s D.
Proof using DiskLaws0. intros Hs H1. unfold IdMapFiles.write_one. follow. Qed.
#[local] Hint Resolve id_map_write_one_refines : refine_db.

Lemma id_map_write_refines f f' maps s D : shows s D -> all_id_map (denotes s) f f' ->
  refines_ same (IdMapFiles.write f maps) (IdMapFiles.write f' maps) s D.
Proof using DiskLaws0. intros Hs [H1 H2]. unfold IdMapFiles.write. follow. Qed.
#[local] Hint Resolve adjacency_map_refines adjacency_write_refines write_optional_refines id_map_map_refines
  id_map_write_refines : refine_db.

Lemma base_map_refines f f' s D : shows s D -> all_base (denotes s) f f' ->
  refines_ same (BaseLayerFiles.map_all f) (BaseLayerFiles.map_all f') s D.
Proof using DiskLaws0.
  intros Hs ((? & ? & ? & ?) & (? & ?) & ? & ? & ? & ?). unfold BaseLayerFiles.map_all. follow.
Qed.

Lemma base_write_refines f f' maps s D : shows s D -> all_base (denotes s) f f' ->
  refines_ same (BaseLayerFiles.write f maps) (BaseLayerFiles.write f' maps) s D.
Proof using DiskLaws0.
  intros Hs ((? & ? & ? & ?) & (? & ?) & ? & ? & ? & ?). unfold BaseLayerFiles.write. follow.
Qed.

Lemma child_map_refines f f' s D : shows s D -> all_child (denotes s) f f' ->
  refines_ same (ChildLayerFiles.map_all f) (ChildLayerFiles.map_all f') s D.
Proof using DiskLaws0.
  intros Hs ((? & ? & ? & ?) & (? & ? & ? & ?) & ? & ? & ? & ? & ? & ? & ? & ?). unfold ChildLayerFiles.map_all. follow.
Qed.

Lemma child_write_refines f f' maps s D : shows s D -> all_child (denotes s) f f' ->
  refines_ same (ChildLayerFiles.write f maps) (ChildLayerFiles.write f' maps) s D.
Proof using DiskLaws0.
  intros Hs ((? & ? & ? & ?) & (? & ? & ? & ?) & ? & ? & ? & ? & ? & ? & ? & ?). unfold ChildLayerFiles.write. follow.
Qed.

(** *** Directories *)

Lemma get_files_refines name filenames s D : shows s D ->
  refines_ (fun s => Forall2 (denotes s)) (get_files name filenames) (get_files name filenames) s D.
Proof using DiskLaws0.
  revert s D. induction filenames as [|file filenames IH]; intros s D Hs; cbn [get_files].
  - apply refines_ret; [apply _|done|constructor].
  - eapply refines_bind; [apply _|by apply get_file_refines|]. intros s1 D1 f f' _ Hs1 Hf.
    eapply refines_bind; [apply _|by apply IH|]. intros s2 D2 fs fs' He Hs2 Hfs.
    apply refines_ret; [apply _|done|]. constructor; [by eapply denotes_ext|done].
Qed.

Lemma base_layer_files_refines name s D : shows s D ->
  refines_ (fun s => all_base (denotes s)) (base_layer_files name) (base_layer_files name) s D.
Proof using DiskLaws0.
  intros Hs. unfold base_layer_files. eapply refines_bind; [apply _|by apply get_files_refines|].
  intros s1 D1 fs fs' _ Hs1 Hfs. apply refines_opt; [apply _|done|]. intros x' Hx. unfold base_structure in *.
  do 29 (destruct Hfs as [|? ? ? ? ? Hfs]; [done|]). destruct Hfs; [|done]. injection Hx as <-.
  eexists. split; [reflexivity|]. repeat split; assumption.
Qed.

Lemma child_layer_files_refines name s D : shows s D ->
  refines_ (fun s => all_child (denotes s)) (child_layer_files name) (child_layer_files name) s D.
Proof using DiskLaws0.
  intros Hs. unfold child_layer_files. eapply refines_bind; [apply _|by apply get_files_refines|].
  intros s1 D1 fs fs' _ Hs1 Hfs. apply refines_opt; [apply _|done|]. intros x' Hx. unfold child_structure in *.
  do 46 (destruct Hfs as [|? ? ? ? ? Hfs]; [done|]). destruct Hfs; [|done]. injection Hx as <-.
  eexists. split; [reflexivity|]. repeat split; assumption.
Qed.

Lemma layer_has_rollup_refines name s D : shows s D ->
  refines_ same (layer_has_rollup name) (layer_has_rollup name) s D.
Proof using DiskLaws0. intros Hs. unfold layer_has_rollup. refine_leaf. Qed.

Lemma layer_has_parent_refines name s D : shows s D ->
  refines_ same (layer_has_parent name) (layer_has_parent name) s D.
Proof using DiskLaws0. intros Hs. unfold layer_has_parent. refine_leaf. Qed.

Lemma create_directory_refines name s D : shows s D ->
  refines_ same (create_directory name) (create_directory name) s D.
Proof using DiskLaws0. intros Hs. unfold create_directory. refine_leaf. Qed.

Lemma write_parent_file_refines name p s D : shows s D ->
  refines_ same (write_parent_file name p) (write_parent_file name p) s D.
Proof using DiskLaws0. intros Hs. unfold write_parent_file. follow. Qed.

Lemma read_parent_file_refines name s D : shows s D ->
  refines_ same (read_parent_file name) (read_parent_file name) s D.
Proof using DiskLaws0. intros Hs. unfold read_parent_file. follow. Qed.

Lemma write_rollup_file_refines name r s D : shows s D ->
  refines_ same (write_rollup_file name r) (write_rollup_file name r) s D.
Proof using DiskLaws0. intros Hs. unfold write_rollup_file. follow. Qed.

Lemma read_rollup_file_refines name s D : shows s D ->
  refines_ same (read_rollup_file name) (read_rollup_file name) s D.
Proof using DiskLaws0. intros Hs. unfold read_rollup_file. follow. Qed.
End rules.

#[export] Hint Resolve map_if_exists_refines dictionary_map_refines dictionary_write_refines bit_index_map_refines
  bit_index_map_if_exists_refines bit_index_write_refines adjacency_map_refines adjacency_write_refines
  write_optional_refines id_map_map_refines id_map_write_refines base_map_refines base_write_refines child_map_refines
  child_write_refines base_layer_files_refines child_layer_files_refines layer_has_rollup_refines
  layer_has_parent_refines create_directory_refines write_parent_file_refines read_parent_file_refines
  write_rollup_file_refines read_rollup_file_refines : refine_db.
