(* ===== verification/Packs.v ===== *)
(** * Packs of layers (src/storage/pack.rs)

    Layers are moved between stores in a pack: a compressed archive with a
    directory for every layer and the layer's files in it, without the rollup
    file.  The archive and compression formats are those of the tar and flate2
    crates, here the class [PackFormat]: writing makes the bytes of a list of
    entries, reading gives entries or errors. *)

From stdpp Require Import gmap.
From S2P Require Import Prelude.
From S2P Require Import Words.
From S2P Require Import Strings.
From S2P Require Import LayerTypes.
From S2P Require Import Names.
From S2P Require Import StoreMonad.
From S2P Require Import FileNames.
From S2P Require Import Files.
From S2P Require Import Directories.
From S2P Require Import DiskStores.
Open Scope N_scope.

(** ** Paths

    A path is its bytes; what the standard library's [Path] gives of it. *)

Fixpoint split_slash (p : list N) : list (list N) :=
  match p with
  | [] => [[]]
  | c :: p =>
      if c =? 47 then [] :: split_slash p
      else match split_slash p with
           | part :: parts => (c :: part) :: parts
           | [] => [[c]]
           end
  end.

(** Empty parts and dots inside a path are skipped. *)
Definition is_component (part : list N) : bool := negb (bool_decide (part = [] \/ part = [46])).

(** [path.iter()]. *)
Definition path_iter (p : list N) : list (list N) :=
  match split_slash p with
  | first :: parts =>
      (match p with
       | 47 :: _ => [[47]]
       | _ => if bool_decide (first = []) then [] else [first]
       end) ++ filter (fun part => Is_true (is_component part)) parts
  | [] => []
  end.

(** [path.file_name()]. *)
Definition path_file_name (p : list N) : option (list N) :=
  c ← last (path_iter p);
  if bool_decide (c = [47] \/ c = [46] \/ c = [46; 46]) then None else Some c.

(** [path.join(name)], for a relative name. *)
Definition path_join (p name : list N) : list N :=
  match last p with
  | None => name
  | Some c => if c =? 47 then p ++ name else p ++ [47] ++ name
  end.

(** [os_str.to_str()]: the bytes, if they are well-formed. *)
Definition to_str (bytes : list N) : option (list N) :=
  if bool_decide (from_utf8_lossy bytes = bytes) then Some bytes else None.

(** A file name from its bytes. *)
Definition filename_of (bytes : list N) : filename :=
  String.string_of_list_byte (omap Byte.of_N bytes).

(** ** Archives *)

Inductive EntryType : Type := Regular | Directory.

(** The fields that are set in the header of an entry. *)
Module Header.
Record t : Type := mk { mode : N; size : N; mtime : N; entry_type : EntryType }.
End Header.

(** What is appended to an archive: a header, a path and data. *)
Abbreviation tar_entry := (Header.t * list N * list N)%type.

(** What reading an archive gives of an entry. *)
Module Entry.
Record t : Type := mk {
  path : outcome io_error (list N);
  size : outcome io_error N;
  is_file : bool;
  contents : outcome io_error (list N)
}.
End Entry.

(** [archive_of] is the builder of archives into the encoder, run to its end.
    [archive_entries] is the iterator over the entries of what the decoder gives, which
    fails at once or at an entry. *)
Class PackFormat : Type := {
  archive_of : list tar_entry -> list N;
  archive_entries : list N -> outcome io_error (list (outcome io_error Entry.t))
}.

(** ** Export *)

Section export.
Context {S F : Type} `{PersistentLayerStore S F} `{PackFormat}.

(** What is appended to the builder, so far. *)
Abbreviation builder := (list tar_entry).

(** The mode is 0o644, for a directory 0o755. *)
Definition tar_append_existing (tar : builder) (layer : layer_name) (layer_path : list N) (file_name : filename) (mtime : N)
    : io S builder :=
  file ← get_file layer file_name;
  contents ← map_file file;
  let path := path_join layer_path (DirectoryLayerStore.filename_bytes file_name) in
  let header := Header.mk 420 (lenN contents) mtime Regular in
  mret (tar ++ [(header, path, contents)]).

Definition tar_append_file (layer : layer_name) (layer_path : list N) (mtime : N) (tar : builder) (file_name : filename) : io S builder :=
  b ← file_exists layer file_name;
  if b : bool then tar_append_existing tar layer layer_path file_name mtime else io_err NotFound.

Definition tar_append_file_if_exists (layer : layer_name) (layer_path : list N) (mtime : N) (tar : builder) (file_name : filename)
    : io S builder :=
  b ← file_exists layer file_name;
  if b : bool then tar_append_existing tar layer layer_path file_name mtime else mret tar.

(** [for f in files { .. }] around one of them. *)
Fixpoint append_each (append : builder -> filename -> io S builder) (tar : builder) (files : list filename) : io S builder :=
  match files with
  | [] => mret tar
  | f :: files => tar ← append tar f; append_each append tar files
  end.

(** The rollup file is skipped: the rollup is not part of the pack. *)
Definition tar_append_shared_optional (layer : layer_name) (path : list N) (mtime : N) (tar : builder) (f : filename) : io S builder :=
  if decide (f = Filenames.rollup FILENAMES) then mret tar else tar_append_file_if_exists layer path mtime tar f.

Definition tar_append_layer (tar : builder) (layer : layer_name) (mtime : N) : io S builder :=
  let header := Header.mk 493 0 mtime Directory in
  let path := name_to_string layer in
  let tar := tar ++ [(header, path, [])] in
  tar ← append_each (tar_append_file layer path mtime) tar SHARED_REQUIRED_FILES;
  tar ← append_each (tar_append_shared_optional layer path mtime) tar SHARED_OPTIONAL_FILES;
  b ← file_exists layer (Filenames.parent FILENAMES);
  if b : bool then
    tar ← append_each (tar_append_file layer path mtime) tar CHILD_LAYER_REQUIRED_FILES;
    append_each (tar_append_file_if_exists layer path mtime) tar CHILD_LAYER_OPTIONAL_FILES
  else
    tar ← append_each (tar_append_file layer path mtime) tar BASE_LAYER_REQUIRED_FILES;
    append_each (tar_append_file_if_exists layer path mtime) tar BASE_LAYER_OPTIONAL_FILES.

Fixpoint tar_append_layers (mtime : N) (tar : builder) (layer_ids : list layer_name) : io S builder :=
  match layer_ids with
  | [] => mret tar
  | id :: layer_ids => tar ← tar_append_layer tar id mtime; tar_append_layers mtime tar layer_ids
  end.

(** The time is that of the system's clock. *)
Definition export_layers (mtime : N) (layer_ids : list layer_name) : io S (list N) :=
  tar ← tar_append_layers mtime [] layer_ids;
  mret (archive_of tar).

(** ** Import *)

(** One entry of the archive. *)
Definition import_entry (layer_id_set : list (list N)) (e : outcome io_error Entry.t) : io S () :=
  entry ← io_lift e;
  path ← io_lift (Entry.path entry);
  os_file_name ← io_opt (path_file_name path);
  file_name ← (match to_str os_file_name with Some s => mret s | None => io_err InvalidData end);
  let layer_id := default [] (p ← head (path_iter path); to_str p) in
  if decide (layer_id ∈ layer_id_set) then
    layer_id_arr ← io_opt (unwrap (string_to_name layer_id));
    if negb (Entry.is_file entry) then mret ()
    else
      _ ← io_lift (Entry.size entry);
      content ← io_lift (Entry.contents entry);
      file ← get_file layer_id_arr (filename_of file_name);
      write_all file content
  else mret ().

Fixpoint import_entries (layer_id_set : list (list N)) (es : list (outcome io_error Entry.t)) : io S () :=
  match es with
  | [] => mret ()
  | e :: es => _ ← import_entry layer_id_set e; import_entries layer_id_set es
  end.

(** The directories are made, and their names collected. *)
Fixpoint create_directories (layer_ids : list layer_name) (layer_id_set : list (list N)) : io S (list (list N)) :=
  match layer_ids with
  | [] => mret layer_id_set
  | id :: layer_ids =>
      _ ← create_named_directory id;
      create_directories layer_ids (name_to_string id :: layer_id_set)
  end.

Definition import_layers (pack : list N) (layer_ids : list layer_name) : io S () :=
  layer_id_set ← create_directories layer_ids [];
  es ← io_lift (archive_entries pack);
  import_entries layer_id_set es.
End export.

(** ** The parents of the layers of a pack *)

Inductive PackError : Type := LayerNotFound | Io (e : io_error) | Utf8Error.

Section parents.
Context `{PackFormat}.

(** One entry; the parent file may come before or after the others. *)
Definition pack_parent (result_map : gmap layer_name (option layer_name)) (e : outcome io_error Entry.t)
    : outcome PackError (gmap layer_name (option layer_name)) :=
  entry ← map_err Io e;
  path ← map_err Io (Entry.path entry);
  first ← or_panic (head (path_iter path));
  first ← or_panic (to_str first);
  id ← map_err Io (string_to_name first);
  file_name ← or_panic (path_file_name path);
  if decide (file_name = DirectoryLayerStore.filename_bytes "parent.hex") then
    contents ← map_err Io (Entry.contents entry);
    if lenN contents <? 40 then Err (Io UnexpectedEof)
    else
      parent_id_str ← (match to_str (takeN 40 contents) with Some s => Ok s | None => Err Utf8Error end);
      parent_id ← map_err Io (string_to_name parent_id_str);
      Ok (<[id := Some parent_id]> result_map)
  else Ok (match result_map !! id with Some _ => result_map | None => <[id := None]> result_map end).

Definition pack_layer_parents (readable : list N) : outcome PackError (gmap layer_name (option layer_name)) :=
  es ← map_err Io (archive_entries readable);
  fold_outcome pack_parent ∅ es.
End parents.
