(* ===== verification/Caches.v ===== *)
(** * Caches of loaded layers (src/storage/cache.rs)

    A cache keeps weak references: it may forget a layer at any time, but what
    it gives is a layer that was put in under that name. *)

From stdpp Require Import gmap.
From S2P Require Import Prelude.
From S2P Require Import LayerTypes.
From S2P Require Import InternalLayers.

(** The trait; the state of the cache is explicit. *)
Class LayerCache (C : Type) := {
  get_layer_from_cache : layer_name -> C -> C * option InternalLayer;
  cache_layer : InternalLayer -> C -> C;
  invalidate : layer_name -> C -> C
}.

Module NoCache.

Definition t : Type := ().

#[export] Instance cache : LayerCache t := {
  get_layer_from_cache _ c := (c, None);
  cache_layer _ c := c;
  invalidate _ c := c
}.

End NoCache.
Export (hints) NoCache.

Module LockingHashMapLayerCache.

(** The table of weak references: [None] is one whose layer is gone. *)
Definition t : Type := gmap layer_name (option InternalLayer).

Definition new : t := ∅.

Definition get (name : layer_name) (c : t) : t * option InternalLayer :=
  match (c : gmap layer_name (option InternalLayer)) !! name with
  | None => (c, None)
  | Some None => (delete name c, None)
  | Some (Some result) => (c, Some result)
  end.

#[export] Instance cache : LayerCache t := {
  get_layer_from_cache := get;
  cache_layer layer c := <[Internal.name layer := Some layer]> c;
  invalidate name c := delete name c
}.

(** The last strong reference to a layer goes. *)
Inductive forgets : t -> t -> Prop :=
| forget (c : t) name : forgets c (alter (fun _ => None) name c).

End LockingHashMapLayerCache.
Export (hints) LockingHashMapLayerCache.

(** What a cache promises: if everything put in satisfies [P] under its name,
    so does everything that comes out. *)
Class CacheLaws (C : Type) `{LayerCache C} (holds : (layer_name -> InternalLayer -> Prop) -> C -> Prop) := {
  get_holds P name c : holds P c ->
    holds P (get_layer_from_cache name c).1 /\
    forall l, (get_layer_from_cache name c).2 = Some l -> P name l;
  cache_holds (P : layer_name -> InternalLayer -> Prop) l c : holds P c -> P (Internal.name l) l -> holds P (cache_layer l c);
  invalidate_holds P name c : holds P c -> holds P (invalidate name c);
  holds_weaken (P Q : layer_name -> InternalLayer -> Prop) c : holds P c -> (forall n l, P n l -> Q n l) -> holds Q c
}.

#[export] Instance no_cache_laws : CacheLaws NoCache.t (fun _ _ => True).
Proof. split; try done. Qed.

(** The table: every live entry is as it should be. *)
Definition table_holds (P : layer_name -> InternalLayer -> Prop) (c : LockingHashMapLayerCache.t) : Prop :=
  forall name l, (c : gmap layer_name (option InternalLayer)) !! name = Some (Some l) -> P name l.

#[export] Instance table_laws : CacheLaws LockingHashMapLayerCache.t table_holds.
Proof.
  unfold LockingHashMapLayerCache.t, table_holds. split; cbn [get_layer_from_cache cache_layer invalidate LockingHashMapLayerCache.cache].
  - intros P name c Hc. unfold LockingHashMapLayerCache.get, LockingHashMapLayerCache.t. destruct (c !! name) as [[l|]|] eqn:E; cbn [fst snd].
    + split; [done|]. intros l' [= <-]. by apply Hc.
    + split; [|done]. intros n l [_ Hl]%lookup_delete_Some. by apply Hc.
    + done.
  - intros P l c Hc Hl n l' [[<- [= <-]]|[_ Hl']]%lookup_insert_Some; [done|by apply Hc].
  - intros P name c Hc n l [_ Hl]%lookup_delete_Some. by apply Hc.
  - intros P Q c Hc HPQ n l Hl. by apply HPQ, Hc.
Qed.

(** Forgetting layers breaks nothing. *)
Lemma forgets_holds P (c c' : LockingHashMapLayerCache.t) : LockingHashMapLayerCache.forgets c c' -> table_holds P c -> table_holds P c'.
Proof.
  intros [c0 name] Hc n l. unfold LockingHashMapLayerCache.t in *. destruct (decide (n = name)) as [->|E].
  - rewrite lookup_alter_eq. destruct (c0 !! name); cbn; congruence.
  - rewrite lookup_alter_ne by done. apply Hc.
Qed.
