(* ===== verification/LayerStores.v ===== *)
(** * Stores of layers (src/storage/layer.rs)

    The layer store over directories of files: loading a layer with its
    ancestors, creating layers, rolling them up, and the questions that are
    answered from the files.  It is written over the classes of stores of
    directories and of caches; the state is that of both.

    Loops that follow parent files take fuel; running out is a panic, and the
    theorems that use them have enough of it. *)

From stdpp Require Import gmap.
From S2P Require Import Prelude.
From S2P Require Import Words.
From S2P Require Import Codec.
From S2P Require Import Strings.
From S2P Require Import LogArrays.
From S2P Require Import BitArrays.
From S2P Require Import BitIndexes.
From S2P Require Import AdjacencyLists.
From S2P Require Import WaveletTrees.
From S2P Require Import PfcBlocks.
From S2P Require Import PfcDicts.
From S2P Require Import LayerTypes.
From S2P Require Import Triples.
From S2P Require Import TripleBuilder.
From S2P Require Import IdMaps.
From S2P Require Import Iterators.
From S2P Require Import Stacks.
From S2P Require Import InternalLayers.
From S2P Require Import LayerNames.
From S2P Require Import LayerTriples.
From S2P Require Import LayerRefinement.
From S2P Require Import LayerBuilders.
From S2P Require Import BuiltLayers.
From S2P Require Import Rollups.
From S2P Require Import SimpleBuilder.
From S2P Require Import Names.
From S2P Require Import StoreMonad.
From S2P Require Import Files.
From S2P Require Import Directories.
From S2P Require Import Caches.
Open Scope N_scope.

(** ** The store and the cache together *)

Section cached.
Context {S C : Type}.

(** A step of the store. *)
Definition on_store {A} (m : io S A) : io (S * C) A :=
  fun sc => let '(s, r) := m sc.1 in ((s, sc.2), r).

(** A step of the cache. *)
Definition on_cache {A} (f : C -> C * A) : io (S * C) A :=
  fun sc => let '(c, a) := f sc.2 in ((sc.1, c), Ok a).
End cached.

(** A layer to load: its name and, if it has been rolled up, the name of the
    rollup and the layer's own parent. *)
Abbreviation to_load := (layer_name * option (layer_name * option layer_name))%type.

#[export] Instance subject_peek : PeekIterator InternalLayerTripleSubjectIterator.t :=
  {| it_next := InternalLayerTripleSubjectIterator.next; it_peek := InternalLayerTripleSubjectIterator.peek |}.
#[export] Instance object_peek : PeekIterator InternalLayerTripleObjectIterator.t :=
  {| it_next := InternalLayerTripleObjectIterator.next; it_peek := InternalLayerTripleObjectIterator.peek |}.

Section layer_store.
Context {S F C : Type} `{PersistentLayerStore S F} `{LayerCache C}.
Context `{BytesSize} `{FramedRead} `{Log2F32} `{ParSort} `{RayonSort} (debug : bool).

Definition from_cache (name : layer_name) : io (S * C) (option InternalLayer) := on_cache (get_layer_from_cache name).
Definition to_cache (l : InternalLayer) : io (S * C) () := on_cache (fun c => (cache_layer l c, ())).

(** [load_from_files] of both kinds of layers: parsing panics. *)
Definition load_base_files (name : layer_name) : io S InternalLayer :=
  files ← base_layer_files name;
  maps ← BaseLayerFiles.map_all files;
  io_opt (base_load debug name maps).

Definition load_child_files (name : layer_name) (parent : InternalLayer) : io S InternalLayer :=
  files ← child_layer_files name;
  maps ← ChildLayerFiles.map_all files;
  io_opt (child_load debug name parent maps).

(** The parent's name, if there is a parent. *)
Definition parent_of (name : layer_name) : io S (option layer_name) :=
  b ← layer_has_parent name;
  if b : bool then p ← read_parent_file name; mret (Some p) else mret None.

(** *** [get_layer_with_cache] *)

(** Looks for an ancestor in the cache, noting the layers on the way, the last
    first. *)
Fixpoint find_ancestor (fuel : nat) (last : to_load) (layers_to_load : list to_load)
    : io (S * C) (option InternalLayer * list to_load) :=
  match fuel with
  | O => io_panic
  | Datatypes.S fuel =>
      let '(original_layer, rollup_option) := last in
      let current_layer := match rollup_option with Some (rollup, _) => rollup | None => original_layer end in
      cached ← from_cache current_layer;
      match cached with
      | Some layer =>
          match rollup_option with
          | Some (_, original_parent) =>
              match Internal.immediate_parent layer with
              | Some _ =>
                  p ← io_opt original_parent;
                  mret (Some (Rollup (RollupLayer.from_child_layer layer original_layer p)), layers_to_load)
              | None => mret (Some (Rollup (RollupLayer.from_base_layer layer original_layer original_parent)), layers_to_load)
              end
          | None => mret (Some layer, layers_to_load)
          end
      | None =>
          has_rollup ← on_store (layer_has_rollup current_layer);
          if has_rollup : bool then
            rollup ← on_store (read_rollup_file current_layer);
            if decide (rollup = current_layer) then io_panic
            else
              original_parent ← on_store (parent_of current_layer);
              find_ancestor fuel (current_layer, Some (rollup, original_parent)) layers_to_load
          else
            parent ← on_store (parent_of current_layer);
            match parent with
            | Some parent => find_ancestor fuel (parent, None) (last :: layers_to_load)
            | None => mret (None, last :: layers_to_load)
            end
      end
  end.

(** The base of the stack. *)
Definition load_bottom (base : to_load) : io (S * C) InternalLayer :=
  let '(base_id, rollup) := base in
  layer ← (match rollup with
           | None => on_store (load_base_files base_id)
           | Some (rollup_id, original_parent_id_option) =>
               base_layer ← on_store (load_base_files rollup_id);
               _ ← to_cache base_layer;
               mret (Rollup (RollupLayer.from_base_layer base_layer base_id original_parent_id_option))
           end);
  _ ← to_cache layer;
  mret layer.

(** A layer on top of another. *)
Definition load_entry (ancestor : InternalLayer) (entry : to_load) : io (S * C) InternalLayer :=
  let '(layer_id, rollup) := entry in
  layer ← (match rollup with
           | None => on_store (load_child_files layer_id ancestor)
           | Some (rollup_id, original_parent_id_option) =>
               original_parent_id ← io_opt original_parent_id_option;
               child_layer ← on_store (load_child_files rollup_id ancestor);
               _ ← to_cache child_layer;
               mret (Rollup (RollupLayer.from_child_layer child_layer layer_id original_parent_id))
           end);
  _ ← to_cache layer;
  mret layer.

Fixpoint load_above (ancestor : InternalLayer) (layers_to_load : list to_load) : io (S * C) InternalLayer :=
  match layers_to_load with
  | [] => mret ancestor
  | entry :: layers_to_load => layer ← load_entry ancestor entry; load_above layer layers_to_load
  end.

Definition get_layer_with_cache (fuel : nat) (name : layer_name) : io (S * C) (option InternalLayer) :=
  cached ← from_cache name;
  match cached with
  | Some layer => mret (Some layer)
  | None =>
      b ← on_store (directory_exists name);
      if negb b then mret None
      else
        '(ancestor, layers_to_load) ← find_ancestor fuel (name, None) [];
        layer ← (match ancestor with
                 | Some ancestor => load_above ancestor layers_to_load
                 | None =>
                     match layers_to_load with
                     | base :: layers_to_load => ancestor ← load_bottom base; load_above ancestor layers_to_load
                     | [] => io_panic
                     end
                 end);
        (* [debug_assert_eq!] *)
        if debug && negb (bool_decide (name = Internal.name layer)) then io_panic else mret (Some layer)
  end.

(** *** Questions to the files *)

Definition get_layer_parent_name (name : layer_name) : io S (option layer_name) :=
  of_layer name (parent_of name).

(** Something of a layer, if it exists. *)
Definition if_exists {A} (name : layer_name) (m : io S A) : io S (option A) :=
  b ← directory_exists name;
  if b : bool then a ← m; mret (Some a) else mret None.

Definition read_dictionary (files : io S (DictionaryFiles.t F)) : io S PfcDict.t :=
  files ← files;
  maps ← DictionaryFiles.map_all files;
  io_lift (parse_dictionary maps).

Definition get_node_dictionary (name : layer_name) : io S (option PfcDict.t) :=
  if_exists name (read_dictionary (node_dictionary_files name)).
Definition get_predicate_dictionary (name : layer_name) : io S (option PfcDict.t) :=
  if_exists name (read_dictionary (predicate_dictionary_files name)).
Definition get_value_dictionary (name : layer_name) : io S (option PfcDict.t) :=
  if_exists name (read_dictionary (value_dictionary_files name)).

Definition file_get_count (file : F) : io S N :=
  data ← read_all file;
  io_lift (dict_file_get_count data).

Definition get_node_count (name : layer_name) : io S (option N) :=
  if_exists name (files ← node_dictionary_files name; file_get_count (DictionaryFiles.blocks_file files)).
Definition get_predicate_count (name : layer_name) : io S (option N) :=
  if_exists name (files ← predicate_dictionary_files name; file_get_count (DictionaryFiles.blocks_file files)).
Definition get_value_count (name : layer_name) : io S (option N) :=
  if_exists name (files ← value_dictionary_files name; file_get_count (DictionaryFiles.blocks_file files)).

Definition get_node_value_idmap (name : layer_name) : io S (option IdMap.t) :=
  if_exists name (
    nodes ← get_node_count name;
    nodes ← io_opt nodes;
    values ← get_value_count name;
    values ← io_opt values;
    size ← io_opt (cadd 64 nodes values);
    files ← node_value_idmap_files name;
    maps ← BitIndexFiles.map_all_if_exists files;
    io_opt (load_idmap maps size)).

Definition get_predicate_idmap (name : layer_name) : io S (option IdMap.t) :=
  if_exists name (
    size ← get_predicate_count name;
    size ← io_opt size;
    files ← predicate_idmap_files name;
    maps ← BitIndexFiles.map_all_if_exists files;
    io_opt (load_idmap maps size)).

(** *** Walking the parents *)

(** [vec.last()] is [name], the first of [result] here. *)
Fixpoint stack_names_loop (fuel : nat) (name : layer_name) (result : list layer_name) : io S (list layer_name) :=
  match fuel with
  | O => io_panic
  | Datatypes.S fuel =>
      parent ← parent_of name;
      match parent with
      | Some parent => stack_names_loop fuel parent (name :: result)
      | None => mret (name :: result)
      end
  end.

Definition retrieve_layer_stack_names (fuel : nat) (name : layer_name) : io S (list layer_name) :=
  stack_names_loop fuel name [].

Fixpoint stack_names_upto_loop (fuel : nat) (name upto : layer_name) (result : list layer_name) : io S (list layer_name) :=
  match fuel with
  | O => io_panic
  | Datatypes.S fuel =>
      parent ← parent_of name;
      match parent with
      | Some parent =>
          if decide (parent = upto) then mret (name :: result)
          else stack_names_upto_loop fuel parent upto (name :: result)
      | None => io_err NotFound
      end
  end.

Definition retrieve_layer_stack_names_upto (fuel : nat) (name upto : layer_name) : io S (list layer_name) :=
  stack_names_upto_loop fuel name upto [].

Fixpoint layer_is_ancestor_of (fuel : nat) (descendant ancestor : layer_name) : io S bool :=
  match fuel with
  | O => io_panic
  | Datatypes.S fuel =>
      if decide (ancestor = descendant) then mret true
      else
        parent ← parent_of descendant;
        match parent with
        | Some parent => layer_is_ancestor_of fuel parent ancestor
        | None => mret false
        end
  end.

(** [walk_backwards_from_disk!] and [walk_backwards_from_disk_upto!] around a
    body that keeps a list. *)
Fixpoint walk_backwards_from_disk {A} (fuel : nat) (current : layer_name) (body : layer_name -> io S A) : io S (list A) :=
  match fuel with
  | O => io_panic
  | Datatypes.S fuel =>
      a ← body current;
      parent ← get_layer_parent_name current;
      match parent with
      | Some parent => rest ← walk_backwards_from_disk fuel parent body; mret (a :: rest)
      | None => mret [a]
      end
  end.

Fixpoint walk_backwards_from_disk_upto {A} (fuel : nat) (current upto : layer_name) (body : layer_name -> io S A) : io S (list A) :=
  match fuel with
  | O => io_panic
  | Datatypes.S fuel =>
      if decide (current = upto) then mret []
      else
        a ← body current;
        parent ← get_layer_parent_name current;
        match parent with
        | Some parent => rest ← walk_backwards_from_disk_upto fuel parent upto body; mret (a :: rest)
        | None => io_err NotFound
        end
  end.

(** *** Triples from the files *)

(** The iterators' parts: files that there may be, and the adjacency lists. *)
Definition subjects_of (subjects_file : F) : io S (option LogArray.t) :=
  maps ← map_if_exists subjects_file;
  io_opt (parse_optional debug maps).

Definition file_triple_exists (subjects_file : F) (s_p sp_o : AdjacencyListFiles.t F) (subject predicate object : N) : io S bool :=
  s_p_maps ← AdjacencyListFiles.map_all s_p;
  sp_o_maps ← AdjacencyListFiles.map_all sp_o;
  subjects ← subjects_of subjects_file;
  s_p_aj ← io_opt (parse_files debug s_p_maps);
  sp_o_aj ← io_opt (parse_files debug sp_o_maps);
  io_opt (layer_triple_exists subjects s_p_aj sp_o_aj subject predicate object).

Definition file_triple_iterator (subjects_file : F) (s_p sp_o : AdjacencyListFiles.t F) : io S InternalLayerTripleSubjectIterator.t :=
  s_p_maps ← AdjacencyListFiles.map_all s_p;
  sp_o_maps ← AdjacencyListFiles.map_all sp_o;
  subjects ← subjects_of subjects_file;
  s_p_aj ← io_opt (parse_files debug s_p_maps);
  sp_o_aj ← io_opt (parse_files debug sp_o_maps);
  mret (InternalLayerTripleSubjectIterator.new subjects s_p_aj sp_o_aj).

Definition file_triple_iterator_by_predicate (subjects_file : F) (s_p sp_o : AdjacencyListFiles.t F)
    (predicate_wavelet_files : BitIndexFiles.t F) (predicate : N) : io S OptInternalLayerTriplePredicateIterator.t :=
  s_p_maps ← AdjacencyListFiles.map_all s_p;
  sp_o_maps ← AdjacencyListFiles.map_all sp_o;
  predicate_wavelet_maps ← BitIndexFiles.map_all predicate_wavelet_files;
  subjects ← subjects_of subjects_file;
  s_p_aj ← io_opt (parse_files debug s_p_maps);
  sp_o_aj ← io_opt (parse_files debug sp_o_maps);
  wtree ← io_opt (parse_wavelet predicate_wavelet_maps (LogArray.width (AdjacencyList.nums s_p_aj)));
  r ← io_opt (lookup wtree predicate);
  match r with
  | Some lookup => it ← io_opt (InternalLayerTriplePredicateIterator.new lookup subjects s_p_aj sp_o_aj); mret (Some it)
  | None => mret None
  end.

Definition file_triple_iterator_by_object (subjects_file objects_file : F) (o_ps s_p : AdjacencyListFiles.t F) (object : N)
    : io S InternalLayerTripleObjectIterator.t :=
  subjects ← subjects_of subjects_file;
  objects ← subjects_of objects_file;
  o_ps_maps ← AdjacencyListFiles.map_all o_ps;
  s_p_maps ← AdjacencyListFiles.map_all s_p;
  o_ps_aj ← io_opt (parse_files debug o_ps_maps);
  s_p_aj ← io_opt (parse_files debug s_p_maps);
  io_opt (InternalLayerTripleObjectIterator.seek_object_ref
    (InternalLayerTripleObjectIterator.new subjects objects o_ps_aj s_p_aj) object).

Definition triple_addition_exists (layer : layer_name) (subject predicate object : N) : io S bool :=
  '(subjects_file, s_p, sp_o) ← triple_addition_files layer;
  file_triple_exists subjects_file s_p sp_o subject predicate object.

Definition triple_removal_exists (layer : layer_name) (subject predicate object : N) : io S bool :=
  files ← triple_removal_files layer;
  match files with
  | Some (subjects_file, s_p, sp_o) => file_triple_exists subjects_file s_p sp_o subject predicate object
  | None => mret false
  end.

Definition triple_additions (layer : layer_name) : io S OptInternalLayerTripleSubjectIterator.t :=
  '(subjects_file, s_p, sp_o) ← triple_addition_files layer;
  it ← file_triple_iterator subjects_file s_p sp_o;
  mret (Some it).

Definition triple_removals (layer : layer_name) : io S OptInternalLayerTripleSubjectIterator.t :=
  files ← triple_removal_files layer;
  match files with
  | Some (subjects_file, s_p, sp_o) => it ← file_triple_iterator subjects_file s_p sp_o; mret (Some it)
  | None => mret None
  end.

(** The iterators of a predicate. *)
Definition triple_additions_p (layer : layer_name) (predicate : N) : io S OptInternalLayerTriplePredicateIterator.t :=
  '(subjects_file, s_p, sp_o) ← triple_addition_files layer;
  wavelet ← predicate_wavelet_addition_files layer;
  file_triple_iterator_by_predicate subjects_file s_p sp_o wavelet predicate.

Definition triple_removals_p (layer : layer_name) (predicate : N) : io S OptInternalLayerTriplePredicateIterator.t :=
  files ← triple_removal_files layer;
  wavelet ← predicate_wavelet_removal_files layer;
  match files, wavelet with
  | Some (subjects_file, s_p, sp_o), Some wavelet => file_triple_iterator_by_predicate subjects_file s_p sp_o wavelet predicate
  | _, _ => mret None
  end.

(** The iterators of a subject, of a subject and a predicate and of an object,
    drained; no more triples than pairs, so there is fuel enough. *)
Definition subject_fuel (it : InternalLayerTripleSubjectIterator.t) : nat :=
  Datatypes.S (N.to_nat (AdjacencyList.right_count (InternalLayerTripleSubjectIterator.sp_o_adjacency_list it))).
Definition object_fuel (it : InternalLayerTripleObjectIterator.t) : nat :=
  Datatypes.S (N.to_nat (AdjacencyList.right_count (InternalLayerTripleObjectIterator.o_ps_adjacency_list it))).

Definition take_subject (it : InternalLayerTripleSubjectIterator.t) (subject : N) : option (list IdTriple.t) :=
  it ← InternalLayerTripleSubjectIterator.seek_subject_ref it subject;
  it_take_while (subject_fuel it) it (fun t => IdTriple.subject t =? subject).

Definition take_subject_predicate (it : InternalLayerTripleSubjectIterator.t) (subject predicate : N) : option (list IdTriple.t) :=
  it ← InternalLayerTripleSubjectIterator.seek_subject_predicate_ref it subject predicate;
  it_take_while (subject_fuel it) it (fun t => (IdTriple.predicate t =? predicate) && (IdTriple.subject t =? subject)).

Definition take_object (it : InternalLayerTripleObjectIterator.t) (object : N) : option (list IdTriple.t) :=
  it_take_while (object_fuel it) it (fun t => IdTriple.object t =? object).

Definition triple_additions_s (layer : layer_name) (subject : N) : io S (list IdTriple.t) :=
  '(subjects_file, s_p, sp_o) ← triple_addition_files layer;
  it ← file_triple_iterator subjects_file s_p sp_o;
  io_opt (take_subject it subject).

Definition triple_removals_s (layer : layer_name) (subject : N) : io S (list IdTriple.t) :=
  files ← triple_removal_files layer;
  match files with
  | Some (subjects_file, s_p, sp_o) => it ← file_triple_iterator subjects_file s_p sp_o; io_opt (take_subject it subject)
  | None => mret []
  end.

Definition triple_additions_sp (layer : layer_name) (subject predicate : N) : io S (list IdTriple.t) :=
  '(subjects_file, s_p, sp_o) ← triple_addition_files layer;
  it ← file_triple_iterator subjects_file s_p sp_o;
  io_opt (take_subject_predicate it subject predicate).

Definition triple_removals_sp (layer : layer_name) (subject predicate : N) : io S (list IdTriple.t) :=
  files ← triple_removal_files layer;
  match files with
  | Some (subjects_file, s_p, sp_o) =>
      it ← file_triple_iterator subjects_file s_p sp_o; io_opt (take_subject_predicate it subject predicate)
  | None => mret []
  end.

Definition triple_additions_o (layer : layer_name) (object : N) : io S (list IdTriple.t) :=
  '(subjects_file, objects_file, o_ps, s_p) ← triple_addition_files_by_object layer;
  it ← file_triple_iterator_by_object subjects_file objects_file o_ps s_p object;
  io_opt (take_object it object).

Definition triple_removals_o (layer : layer_name) (object : N) : io S (list IdTriple.t) :=
  files ← triple_removal_files_by_object layer;
  match files with
  | Some (subjects_file, objects_file, o_ps, s_p) =>
      it ← file_triple_iterator_by_object subjects_file objects_file o_ps s_p object; io_opt (take_object it object)
  | None => mret []
  end.

(** The numbers of pairs without the gaps. *)
Definition file_triple_layer_count (s_p_nums_file sp_o_bits_file : F) (predicate_wavelet_files : BitIndexFiles.t F) : io S N :=
  s_p_nums ← read_all s_p_nums_file;
  '(_, width) ← io_lift (logarray_file_get_length_and_width s_p_nums);
  sp_o_bits ← read_all sp_o_bits_file;
  bits_len ← io_lift (bitarray_len_from_file sp_o_bits);
  predicate_wavelet_maps ← BitIndexFiles.map_all predicate_wavelet_files;
  wtree ← io_opt (parse_wavelet predicate_wavelet_maps width);
  gaps ← io_opt (Internal.gap_count wtree);
  io_opt (csub bits_len gaps).

Definition triple_layer_addition_count (layer : layer_name) : io S N :=
  '(s_p_nums_file, sp_o_bits_file, predicate_wavelet_files) ← triple_layer_addition_count_files layer;
  file_triple_layer_count s_p_nums_file sp_o_bits_file predicate_wavelet_files.

Definition triple_layer_removal_count (layer : layer_name) : io S N :=
  files ← triple_layer_removal_count_files layer;
  match files with
  | Some (s_p_nums_file, sp_o_bits_file, predicate_wavelet_files) =>
      file_triple_layer_count s_p_nums_file sp_o_bits_file predicate_wavelet_files
  | None => mret 0
  end.

(** *** [layer_changes] and [layer_changes_upto]

    The macros' body reads the changes of [name], the layer asked for, for
    every layer on the way. *)
Definition changes_body (name : layer_name) (_current : layer_name)
    : io S (OptInternalLayerTripleSubjectIterator.t * OptInternalLayerTripleSubjectIterator.t) :=
  positive ← triple_additions name;
  negative ← triple_removals name;
  mret (positive, negative).

Definition layer_changes (fuel : nat) (name : layer_name) : io S InternalTripleStackIterator.t :=
  changes ← walk_backwards_from_disk fuel name (changes_body name);
  mret (InternalTripleStackIterator.from_parts (rev changes.*1) (rev changes.*2)).

Definition layer_changes_upto (fuel : nat) (name upto : layer_name) : io S InternalTripleStackIterator.t :=
  changes ← walk_backwards_from_disk_upto fuel name upto (changes_body name);
  mret (InternalTripleStackIterator.from_parts (rev changes.*1) (rev changes.*2)).

End layer_store.
