(* ===== verification/StoredLayers.v ===== *)
(** * The files of stored layers

    What the directory of a layer has to hold for the layer's files to be
    mapped, and that writing them into a fresh directory leaves just that, for
    the abstract disk. *)

From stdpp Require Import gmap.
From S2P Require Import Prelude.
From S2P Require Import Words.
From S2P Require Import Strings.
From S2P Require Import LayerTypes.
From S2P Require Import TripleBuilder.
From S2P Require Import IdMaps.
From S2P Require Import LayerBuilders.
From S2P Require Import Names.
From S2P Require Import StoreMonad.
From S2P Require Import FileNames.
From S2P Require Import Files.
From S2P Require Import Directories.
From S2P Require Import DiskStores.
Open Scope N_scope.

(** ** What files hold *)

(** Files and their contents; [None] for one that is not there. *)
Abbreviation entries F := (list (F * option (list N))).

Section entries.
Context {F : Type}.

Definition dictionary_entries (f : DictionaryFiles.t F) (maps : dictionary_maps) : entries F :=
  [(DictionaryFiles.blocks_file f, Some maps.1); (DictionaryFiles.offsets_file f, Some maps.2)].

Definition bit_index_entries (f : BitIndexFiles.t F) (maps : option bitindex_files) : entries F :=
  [(BitIndexFiles.bits_file f, (fun m => m.1.1) <$> maps); (BitIndexFiles.blocks_file f, (fun m => m.1.2) <$> maps);
   (BitIndexFiles.sblocks_file f, (fun m => m.2) <$> maps)].

Definition adjacency_entries (f : AdjacencyListFiles.t F) (maps : adjacency_files) : entries F :=
  bit_index_entries (AdjacencyListFiles.files f) (Some maps.1) ++ [(AdjacencyListFiles.nums_file f, Some maps.2)].

Definition id_map_entries (f : IdMapFiles.t F) (maps : IdMapMaps) : entries F :=
  bit_index_entries (IdMapFiles.node_value_idmap_files f) (node_value_idmap_maps maps) ++
  bit_index_entries (IdMapFiles.predicate_idmap_files f) (predicate_idmap_maps maps).

Section base.
Import BaseLayerFiles.

Definition base_entries (f : t F) (maps : BaseLayerMaps.t) : entries F :=
  dictionary_entries (node_dictionary_files f) (BaseLayerMaps.node_dictionary_maps maps) ++
  dictionary_entries (predicate_dictionary_files f) (BaseLayerMaps.predicate_dictionary_maps maps) ++
  dictionary_entries (value_dictionary_files f) (BaseLayerMaps.value_dictionary_maps maps) ++
  id_map_entries (id_map_files f) (BaseLayerMaps.id_map_maps maps) ++
  [(subjects_file f, BaseLayerMaps.subjects_map maps)] ++ [(objects_file f, BaseLayerMaps.objects_map maps)] ++
  adjacency_entries (s_p_adjacency_list_files f) (BaseLayerMaps.s_p_adjacency_list_maps maps) ++
  adjacency_entries (sp_o_adjacency_list_files f) (BaseLayerMaps.sp_o_adjacency_list_maps maps) ++
  adjacency_entries (o_ps_adjacency_list_files f) (BaseLayerMaps.o_ps_adjacency_list_maps maps) ++
  bit_index_entries (predicate_wavelet_tree_files f) (Some (BaseLayerMaps.predicate_wavelet_tree_maps maps)).
End base.

Section child.
Import ChildLayerFiles.

Definition child_entries (f : t F) (maps : ChildLayerMaps.t) : entries F :=
  dictionary_entries (node_dictionary_files f) (ChildLayerMaps.node_dictionary_maps maps) ++
  dictionary_entries (predicate_dictionary_files f) (ChildLayerMaps.predicate_dictionary_maps maps) ++
  dictionary_entries (value_dictionary_files f) (ChildLayerMaps.value_dictionary_maps maps) ++
  id_map_entries (id_map_files f) (ChildLayerMaps.id_map_maps maps) ++
  [(pos_subjects_file f, Some (ChildLayerMaps.pos_subjects_map maps))] ++
  [(pos_objects_file f, Some (ChildLayerMaps.pos_objects_map maps))] ++
  [(neg_subjects_file f, Some (ChildLayerMaps.neg_subjects_map maps))] ++
  [(neg_objects_file f, Some (ChildLayerMaps.neg_objects_map maps))] ++
  adjacency_entries (pos_s_p_adjacency_list_files f) (ChildLayerMaps.pos_s_p_adjacency_list_maps maps) ++
  adjacency_entries (pos_sp_o_adjacency_list_files f) (ChildLayerMaps.pos_sp_o_adjacency_list_maps maps) ++
  adjacency_entries (pos_o_ps_adjacency_list_files f) (ChildLayerMaps.pos_o_ps_adjacency_list_maps maps) ++
  adjacency_entries (neg_s_p_adjacency_list_files f) (ChildLayerMaps.neg_s_p_adjacency_list_maps maps) ++
  adjacency_entries (neg_sp_o_adjacency_list_files f) (ChildLayerMaps.neg_sp_o_adjacency_list_maps maps) ++
  adjacency_entries (neg_o_ps_adjacency_list_files f) (ChildLayerMaps.neg_o_ps_adjacency_list_maps maps) ++
  bit_index_entries (pos_predicate_wavelet_tree_files f) (Some (ChildLayerMaps.pos_predicate_wavelet_tree_maps maps)) ++
  bit_index_entries (neg_predicate_wavelet_tree_files f) (Some (ChildLayerMaps.neg_predicate_wavelet_tree_maps maps)).
End child.
End entries.

(** ** Mapping *)

Abbreviation file := (layer_name * filename)%type.

Definition has_files (D : disk) (es : entries file) : Prop := Forall (fun e => Disk.lookup_file D e.1 = e.2) es.

Lemma has_files_app D es es' : has_files D (es ++ es') <-> has_files D es /\ has_files D es'.
Proof. apply Forall_app. Qed.

Lemma map_file_yields (D : disk) (f : file) data : Disk.lookup_file D f = Some data -> yields (map_file f) D data.
Proof. intros E. apply yields_read. by rewrite E. Qed.

Lemma read_all_yields (D : disk) (f : file) data : Disk.lookup_file D f = Some data -> yields (read_all f) D data.
Proof. intros E. apply yields_read. by rewrite E. Qed.

Lemma exists_yields (D : disk) (f : file) : yields (exists_ f) D (Disk.file_there D f).
Proof. by apply yields_read. Qed.

Lemma map_if_exists_yields (D : disk) (f : file) r : Disk.lookup_file D f = r -> yields (map_if_exists f) D r.
Proof.
  intros E. eapply yields_bind; [apply exists_yields|]. unfold Disk.file_there. rewrite E. destruct r as [data|]; cbn.
  - eapply yields_bind; [by apply map_file_yields|done].
  - done.
Qed.

#[export] Hint Resolve map_file_yields read_all_yields map_if_exists_yields : store_io.

(** The lookups that [has_files] comes to. *)
Ltac file_lookups :=
  repeat match goal with
  | H : has_files _ (_ ++ _) |- _ => apply has_files_app in H; destruct H
  | H : has_files _ (_ :: _) |- _ => apply Forall_cons in H; cbn [fst snd] in H; destruct H
  | H : has_files _ [] |- _ => clear H
  | H : Forall _ (_ :: _) |- _ => apply Forall_cons in H; cbn [fst snd] in H; destruct H
  end.

(** One step after another. *)
Ltac yield_steps := repeat (eapply yields_bind; [solve [eauto with store_io]|cbv beta]); try apply yields_ret.

Lemma dictionary_yields (D : disk) (f : DictionaryFiles.t file) maps :
  has_files D (dictionary_entries f maps) -> yields (DictionaryFiles.map_all f) D maps.
Proof. intros Hf. destruct maps as [b o]. unfold dictionary_entries in Hf. file_lookups. unfold DictionaryFiles.map_all. yield_steps. Qed.

Lemma bit_index_yields (D : disk) (f : BitIndexFiles.t file) maps :
  has_files D (bit_index_entries f (Some maps)) -> yields (BitIndexFiles.map_all f) D maps.
Proof. intros Hf. destruct maps as [[a b] c]. unfold bit_index_entries in Hf. file_lookups. unfold BitIndexFiles.map_all. yield_steps. Qed.

Lemma bit_index_if_exists_yields (D : disk) (f : BitIndexFiles.t file) maps :
  has_files D (bit_index_entries f maps) -> yields (BitIndexFiles.map_all_if_exists f) D maps.
Proof.
  intros Hf. unfold BitIndexFiles.map_all_if_exists. eapply yields_bind; [apply exists_yields|].
  unfold Disk.file_there. destruct maps as [maps|].
  - pose proof (bit_index_yields _ _ _ Hf) as Hy. unfold bit_index_entries in Hf. file_lookups.
    match goal with E : Disk.lookup_file _ (BitIndexFiles.bits_file _) = _ |- _ => rewrite E end. cbn.
    eapply yields_bind; [exact Hy|apply yields_ret].
  - unfold bit_index_entries in Hf. file_lookups.
    match goal with E : Disk.lookup_file _ (BitIndexFiles.bits_file _) = _ |- _ => rewrite E end. apply yields_ret.
Qed.

Lemma adjacency_yields (D : disk) (f : AdjacencyListFiles.t file) maps :
  has_files D (adjacency_entries f maps) -> yields (AdjacencyListFiles.map_all f) D maps.
Proof.
  intros [Hb Hn]%has_files_app. file_lookups. unfold AdjacencyListFiles.map_all.
  eapply yields_bind; [by apply bit_index_yields|]. yield_steps. by destruct maps as [[[? ?] ?] ?].
Qed.

Lemma id_map_yields (D : disk) (f : IdMapFiles.t file) maps :
  has_files D (id_map_entries f maps) -> yields (IdMapFiles.map_all f) D maps.
Proof.
  intros [H1 H2]%has_files_app. unfold IdMapFiles.map_all. eapply yields_bind; [by apply bit_index_if_exists_yields|].
  eapply yields_bind; [by apply bit_index_if_exists_yields|]. by destruct maps.
Qed.

#[export] Hint Resolve dictionary_yields bit_index_yields adjacency_yields id_map_yields : store_io.

Lemma base_map_yields (D : disk) (f : BaseLayerFiles.t file) maps :
  has_files D (base_entries f maps) -> yields (BaseLayerFiles.map_all f) D maps.
Proof. intros Hf. unfold base_entries in Hf. file_lookups. unfold BaseLayerFiles.map_all. yield_steps. by destruct maps. Qed.

Lemma child_map_yields (D : disk) (f : ChildLayerFiles.t file) maps :
  has_files D (child_entries f maps) -> yields (ChildLayerFiles.map_all f) D maps.
Proof. intros Hf. unfold child_entries in Hf. file_lookups. unfold ChildLayerFiles.map_all. yield_steps. by destruct maps. Qed.

(** ** Writing *)

(** The disk with the files written. *)
Definition put_file (D : disk) (f : file) (data : list N) : disk :=
  match D !! f.1 with Some d => <[f.1 := <[f.2 := data]> d]> D | None => D end.

Definition fill (D : disk) (es : entries file) : disk :=
  foldl (fun D e => match e.2 with Some data => put_file D e.1 data | None => D end) D es.

(** Different files that are not there, in directories that are. *)
Definition ready (D : disk) (es : entries file) : Prop :=
  NoDup es.*1 /\ Forall (fun e => is_Some (D !! e.1.1) /\ Disk.lookup_file D e.1 = None) es.

Lemma lookup_put_file D f data : is_Some (D !! f.1) -> Disk.lookup_file (put_file D f data) f = Some data.
Proof.
  intros [d E]. unfold Disk.lookup_file, put_file. rewrite E, lookup_insert_eq. cbn [mbind option_bind]. by rewrite lookup_insert_eq.
Qed.

Lemma lookup_put_file_ne D f data g : g <> f -> Disk.lookup_file (put_file D f data) g = Disk.lookup_file D g.
Proof.
  intros Hne. unfold Disk.lookup_file, put_file. destruct (D !! f.1) as [d|] eqn:E; [|done].
  destruct (decide (g.1 = f.1)) as [Eq|Hd].
  - rewrite Eq, lookup_insert_eq, E. cbn [mbind option_bind]. rewrite lookup_insert_ne; [done|].
    intros E2. apply Hne. destruct f, g; cbn in *; congruence.
  - by rewrite lookup_insert_ne.
Qed.

Lemma put_file_dirs D f data n : is_Some (D !! n) <-> is_Some (put_file D f data !! n).
Proof.
  unfold put_file. destruct (D !! f.1) as [d|] eqn:E; [|done]. destruct (decide (f.1 = n)) as [<-|Hne].
  - rewrite lookup_insert_eq, E. by split; eexists.
  - by rewrite lookup_insert_ne.
Qed.

Lemma put_file_other D f data n : f.1 <> n -> put_file D f data !! n = D !! n.
Proof. intros Hne. unfold put_file. destruct (D !! f.1); [|done]. by rewrite lookup_insert_ne. Qed.

Lemma fill_other D es n : Forall (fun e => e.1.1 <> n) es -> fill D es !! n = D !! n.
Proof.
  revert D. induction es as [|[f [data|]] es IH]; intros D; [done|..]; intros [Hf Hes]%Forall_cons; cbn.
  - fold (fill (put_file D f data) es). rewrite IH by done. by apply put_file_other.
  - by apply IH.
Qed.

Lemma fill_dirs D es n : is_Some (D !! n) <-> is_Some (fill D es !! n).
Proof.
  revert D. induction es as [|[f [data|]] es IH]; intros D; [done|..]; cbn.
  - fold (fill (put_file D f data) es). rewrite <- IH. apply put_file_dirs.
  - apply IH.
Qed.

Lemma fill_lookup_ne D es f : (f ∉ es.*1) -> Disk.lookup_file (fill D es) f = Disk.lookup_file D f.
Proof.
  revert D. induction es as [|[g [data|]] es IH]; intros D; [done|..]; cbn; intros Hf; rewrite not_elem_of_cons in Hf; destruct Hf as [Hne Hf].
  - fold (fill (put_file D g data) es). rewrite IH by done. by apply lookup_put_file_ne.
  - by apply IH.
Qed.

Lemma fill_has_files D es : ready D es -> has_files (fill D es) es.
Proof.
  revert D. induction es as [|[f o] es IH]; intros D [Hnd Hes]; [by constructor|]. apply NoDup_cons in Hnd as [Hf Hnd].
  apply Forall_cons in Hes as [[Hdir Hno] Hes]. cbn [fst snd] in *. constructor; cbn [fst snd].
  - destruct o as [data|]; cbn.
    + fold (fill (put_file D f data) es). rewrite fill_lookup_ne by done. by apply lookup_put_file.
    + fold (fill D es). by rewrite fill_lookup_ne.
  - destruct o as [data|]; cbn; [|by apply IH]. fold (fill (put_file D f data) es). apply IH. split; [done|].
    rewrite Forall_forall in Hes |- *. intros e He. destruct (Hes e He) as [H1 H2]. split; [by apply put_file_dirs|].
    cbn [fst snd]. rewrite lookup_put_file_ne; [exact H2|]. intros Eq. apply Hf. rewrite <- Eq. by apply list_elem_of_fmap_2.
Qed.

(** Writing leaves the files, if they are new. *)
Definition writes (m : io disk ()) (es : entries file) : Prop := forall D, ready D es -> m D = (fill D es, Ok ()).

Lemma ready_app D es es' : ready D (es ++ es') -> ready D es /\ ready (fill D es) es'.
Proof.
  intros [Hnd Hes]. rewrite fmap_app in Hnd. apply NoDup_app in Hnd as (H1 & H2 & H3). apply Forall_app in Hes as [He He'].
  split; [by split|]. split; [done|]. rewrite Forall_forall in He' |- *. intros e Hin. destruct (He' e Hin) as [Hd Hn]. split; [by apply fill_dirs|].
  rewrite fill_lookup_ne; [done|]. intros Hx. apply (H2 e.1); [done|]. by apply list_elem_of_fmap_2.
Qed.

Lemma writes_bind m m' es es' : writes m es -> writes m' es' -> writes (m ≫= fun _ => m') (es ++ es').
Proof.
  intros H1 H2 D [R1 R2]%ready_app. erewrite io_bind_Ok by by apply H1. rewrite H2 by done. unfold fill. by rewrite foldl_app.
Qed.

Lemma write_all_writes (f : file) data : writes (write_all f data) [(f, Some data)].
Proof.
  intros D [_ [[[d Hd] Hno] _]%Forall_cons]. cbn in *. unfold Disk.lookup_file in Hno. unfold put_file. rewrite Hd in *.
  cbn in Hno. by rewrite Hno.
Qed.

Lemma write_optional_writes (f : file) o : writes (write_optional f o) [(f, o)].
Proof. destruct o as [data|]; [apply write_all_writes|done]. Qed.

Lemma dictionary_writes (f : DictionaryFiles.t file) maps : writes (DictionaryFiles.write f maps) (dictionary_entries f maps).
Proof. apply (writes_bind _ _ [_] [_]); apply write_all_writes. Qed.

Lemma bit_index_writes (f : BitIndexFiles.t file) maps : writes (BitIndexFiles.write f maps) (bit_index_entries f (Some maps)).
Proof.
  destruct maps as [[a b] c]. apply (writes_bind _ _ [_] [_; _]); [apply write_all_writes|].
  apply (writes_bind _ _ [_] [_]); apply write_all_writes.
Qed.

Lemma id_map_write_one_writes (f : BitIndexFiles.t file) maps : writes (IdMapFiles.write_one f maps) (bit_index_entries f maps).
Proof. destruct maps as [maps|]; [apply bit_index_writes|done]. Qed.

Lemma adjacency_writes (f : AdjacencyListFiles.t file) maps : writes (AdjacencyListFiles.write f maps) (adjacency_entries f maps).
Proof.
  destruct maps as [[[a b] c] d]. apply writes_bind; [apply (bit_index_writes _ (a, b, c))|apply write_all_writes].
Qed.

Lemma id_map_writes (f : IdMapFiles.t file) maps : writes (IdMapFiles.write f maps) (id_map_entries f maps).
Proof. apply writes_bind; apply id_map_write_one_writes. Qed.

#[export] Hint Resolve write_all_writes write_optional_writes dictionary_writes bit_index_writes adjacency_writes id_map_writes : store_io.

Lemma base_write_writes (f : BaseLayerFiles.t file) maps : writes (BaseLayerFiles.write f maps) (base_entries f maps).
Proof. unfold BaseLayerFiles.write, base_entries. repeat (apply writes_bind; [solve [eauto with store_io]|]). auto with store_io. Qed.

Lemma child_write_writes (f : ChildLayerFiles.t file) maps : writes (ChildLayerFiles.write f maps) (child_entries f maps).
Proof. unfold ChildLayerFiles.write, child_entries. repeat (apply writes_bind; [solve [eauto with store_io]|]). auto with store_io. Qed.

(** ** The directory of a layer *)

Definition base_handles (n : layer_name) : BaseLayerFiles.t file :=
  ltac:(let x := eval cbn in (base_structure (F := file) ((n,.) <$> base_filenames)) in
        match x with Some ?h => exact h end).

Definition child_handles (n : layer_name) : ChildLayerFiles.t file :=
  ltac:(let x := eval cbn in (child_structure (F := file) ((n,.) <$> child_filenames)) in
        match x with Some ?h => exact h end).

(** The layer's directory holds the files of a base layer, or of a child. *)
Definition has_base (D : disk) (n : layer_name) (maps : BaseLayerMaps.t) : Prop := has_files D (base_entries (base_handles n) maps).
Definition has_child (D : disk) (n : layer_name) (maps : ChildLayerMaps.t) : Prop := has_files D (child_entries (child_handles n) maps).

(** The files, in the order in which they are written. *)
Definition files_of (es : entries file) : list filename := (fun e => e.1.2) <$> es.

Lemma file_names n es : Forall (fun e => e.1.1 = n) es -> es.*1 = (n,.) <$> files_of es.
Proof.
  induction 1 as [|[[d f] o] es Hn _ IH]; [done|]. cbn in *. subst d. by f_equal.
Qed.

Lemma base_entry_dirs n maps : Forall (fun e => e.1.1 = n) (base_entries (base_handles n) maps).
Proof. repeat constructor. Qed.

Lemma child_entry_dirs n maps : Forall (fun e => e.1.1 = n) (child_entries (child_handles n) maps).
Proof. repeat constructor. Qed.

(** The names of the files do not depend on the contents. *)
Definition base_written : list filename :=
  ltac:(let x := eval cbn in (fun maps => files_of (base_entries (base_handles []) maps)) in
        match x with fun _ => ?l => exact l end).

Definition child_written : list filename :=
  ltac:(let x := eval cbn in (fun maps => files_of (child_entries (child_handles []) maps)) in
        match x with fun _ => ?l => exact l end).

Lemma base_written_files n maps : files_of (base_entries (base_handles n) maps) = base_written.
Proof. done. Qed.

Lemma child_written_files n maps : files_of (child_entries (child_handles n) maps) = child_written.
Proof. done. Qed.

Lemma written_nodup : NoDup base_written /\ NoDup child_written.
Proof. split; apply (bool_decide_unpack _); vm_compute; exact I. Qed.

Definition parent_file : filename := Filenames.parent FILENAMES.
Definition rollup_file : filename := Filenames.rollup FILENAMES.

Lemma written_others : (parent_file ∉ base_written ++ child_written) /\ (rollup_file ∉ base_written ++ child_written).
Proof. split; apply (bool_decide_unpack _); vm_compute; exact I. Qed.

Lemma ready_new D n d es : D !! n = Some d -> Forall (fun e => e.1.1 = n) es -> NoDup (files_of es) ->
  Forall (fun f => d !! f = None) (files_of es) -> ready D es.
Proof.
  intros Hd Hn Hnd Hno. split.
  - rewrite (file_names n) by done. by apply NoDup_fmap_2; [intros x y [=]|].
  - rewrite Forall_forall in Hn. rewrite Forall_forall in Hno. apply Forall_forall. intros e He. pose proof (Hn e He) as En. split; [rewrite En; by eexists|].
    unfold Disk.lookup_file. rewrite En, Hd. cbn. apply Hno. unfold files_of. apply list_elem_of_fmap. by exists e.
Qed.

(** Files of another directory, and other files of the same, do not matter. *)
Lemma has_files_same D D' n es : Forall (fun e => e.1.1 = n) es ->
  (forall f, f ∈ files_of es -> Disk.lookup_file D' (n, f) = Disk.lookup_file D (n, f)) -> has_files D es -> has_files D' es.
Proof.
  intros Hn Hsame Hf. unfold has_files in *. rewrite Forall_forall in Hn. rewrite Forall_forall in Hf. apply Forall_forall. intros [[d f] o] He. specialize (Hn _ He). specialize (Hf _ He).
  cbn in *. subst d. rewrite Hsame; [done|]. apply list_elem_of_fmap. by exists (n, f, o).
Qed.

Lemma has_base_same D D' n maps : (forall f, f ∈ base_written -> Disk.lookup_file D' (n, f) = Disk.lookup_file D (n, f)) ->
  has_base D n maps -> has_base D' n maps.
Proof. intros Hs. apply (has_files_same _ _ n); [apply base_entry_dirs|]. by rewrite base_written_files. Qed.

Lemma has_child_same D D' n maps : (forall f, f ∈ child_written -> Disk.lookup_file D' (n, f) = Disk.lookup_file D (n, f)) ->
  has_child D n maps -> has_child D' n maps.
Proof. intros Hs. apply (has_files_same _ _ n); [apply child_entry_dirs|]. by rewrite child_written_files. Qed.

(** ** Opening, and the parent and rollup files *)

Section at_directory.
Context (D : disk) (n : layer_name) (Hn : name_ok n).

Lemma directory_exists_yields : yields (directory_exists n) D (bool_decide (is_Some (D !! n))).
Proof using Hn. unfold yields. cbn [directory_exists Disk.store]. unfold Disk.at_name. by rewrite decide_True. Qed.

Lemma file_exists_yields f : yields (file_exists n f) D (bool_decide (is_Some (Disk.lookup_file D (n, f)))).
Proof using Hn. unfold yields. cbn [file_exists Disk.store]. unfold Disk.at_name. by rewrite decide_True. Qed.

Context (Hd : is_Some (D !! n)).

Lemma get_file_yields f : yields (get_file n f) D (n, f).
Proof using Hn Hd. unfold yields. cbn [get_file Disk.store]. unfold Disk.at_name, io_read. by rewrite !decide_True. Qed.

Lemma get_files_yields fs : yields (get_files n fs) D ((n,.) <$> fs).
Proof using Hn Hd.
  induction fs as [|f fs IH]; [done|]. cbn [get_files]. eapply yields_bind; [apply get_file_yields|].
  eapply yields_bind; [exact IH|]. done.
Qed.

Lemma base_layer_files_yields : yields (base_layer_files n) D (base_handles n).
Proof using Hn Hd. eapply yields_bind; [apply get_files_yields|]. done. Qed.

Lemma child_layer_files_yields : yields (child_layer_files n) D (child_handles n).
Proof using Hn Hd. eapply yields_bind; [apply get_files_yields|]. done. Qed.

Lemma read_parent_yields p : name_ok p -> Disk.lookup_file D (n, parent_file) = Some (name_to_string p) ->
  yields (read_parent_file n) D p.
Proof using Hn Hd.
  intros Hp Hf. unfold read_parent_file. eapply yields_bind; [apply get_file_yields|]. eapply yields_bind; [by apply read_all_yields|].
  assert (Hl : lenN (name_to_string p) = 40) by (unfold lenN; by rewrite name_length). rewrite Hl. change (40 <? 40) with false. cbv iota.
  apply yields_lift. unfold takeN. rewrite take_ge by (rewrite name_length by done; done). by apply bytes_of_name.
Qed.

(** What [write_rollup_file] writes. *)
Definition rollup_contents (r : layer_name) : list N := digits 10 1 ++ [10] ++ name_to_string r ++ [10].

Lemma parse_rollup_contents r : name_ok r -> parse_rollup (rollup_contents r) = Ok r.
Proof using.
  intros Hr. unfold parse_rollup, rollup_contents. rewrite from_utf8_lossy_ascii.
  - change (digits 10 1) with [49]. cbn [app]. change (49 :: 10 :: name_to_string r ++ [10]) with ([49] ++ 10 :: name_to_string r ++ [10]).
    rewrite lines_cons_digits by (constructor; [left; lia|constructor]). rewrite lines_cons_digits by apply name_digits.
    cbn [lines lines_from]. by apply string_of_name.
  - pose proof (digits_ascii _ (name_digits r)) as Ha. change (digits 10 1) with [49].
    repeat (apply Forall_app; split); try done; by repeat constructor.
Qed.

Lemma read_rollup_yields r : name_ok r -> Disk.lookup_file D (n, rollup_file) = Some (rollup_contents r) ->
  yields (read_rollup_file n) D r.
Proof using Hn Hd.
  intros Hr Hf. unfold read_rollup_file. eapply yields_bind; [apply get_file_yields|]. eapply yields_bind; [by apply read_all_yields|].
  apply yields_lift. by apply parse_rollup_contents.
Qed.

Lemma parent_of_yields : forall o, match o with
    | Some p => name_ok p /\ Disk.lookup_file D (n, parent_file) = Some (name_to_string p)
    | None => Disk.lookup_file D (n, parent_file) = None
    end -> yields (b ← layer_has_parent n; if b : bool then p ← read_parent_file n; mret (Some p) else mret None) D o.
Proof using Hn Hd.
  intros [p|]; [intros [Hp Hf]|intros Hf]; (eapply yields_bind; [apply file_exists_yields|]); fold parent_file; rewrite Hf; cbn.
  - eapply yields_bind; [by apply read_parent_yields|apply yields_ret].
  - apply yields_ret.
Qed.
End at_directory.
