(* ===== verification/LayerWrites.v ===== *)
(** * Writing layers (src/storage/layer.rs, src/layer/simple_builder.rs and
      src/storage/delta.rs)

    Creating a base layer or a child layer gives a builder with the files of a
    fresh directory; committing it writes them.  Rolling a layer up writes
    another layer, which is then registered as its rollup.

    A commit is computed first and written when it is complete; the source
    writes the files as it goes, which makes a difference only when the commit
    fails.  The random name of a fresh directory is an argument. *)

From stdpp Require Import gmap.
From S2P Require Import Prelude.
From S2P Require Import Words.
From S2P Require Import Codec.
From S2P Require Import Strings.
From S2P Require Import LogArrays.
From S2P Require Import BitArrays.
From S2P Require Import BitIndexes.
From S2P Require Import AdjacencyLists.
From S2P Require Import PfcBlocks.
From S2P Require Import PfcDicts.
From S2P Require Import DictMerge.
From S2P Require Import LayerTypes.
From S2P Require Import Triples.
From S2P Require Import TripleBuilder.
From S2P Require Import IdMaps.
From S2P Require Import Iterators.
From S2P Require Import Stacks.
From S2P Require Import InternalLayers.
From S2P Require Import LayerTriples.
From S2P Require Import LayerRefinement.
From S2P Require Import LayerBuilders.
From S2P Require Import BuiltLayers.
From S2P Require Import Rollups.
From S2P Require Import SimpleBuilder.
From S2P Require Import Names.
From S2P Require Import StoreMonad.
From S2P Require Import Files.
From S2P Require Import Directories.
From S2P Require Import Caches.
From S2P Require Import LayerStores.
Open Scope N_scope.

(** ** The builder with its files *)

Module LayerFiles.

Inductive t (F : Type) : Type :=
| Base (files : BaseLayerFiles.t F)
| Child (files : ChildLayerFiles.t F).
Arguments Base {F}. Arguments Child {F}.

Section ops.
Context {F : Type}.

Definition node_dictionary_files (self : t F) : DictionaryFiles.t F :=
  match self with
  | Base b => BaseLayerFiles.node_dictionary_files b
  | Child c => ChildLayerFiles.node_dictionary_files c
  end.

Definition predicate_dictionary_files (self : t F) : DictionaryFiles.t F :=
  match self with
  | Base b => BaseLayerFiles.predicate_dictionary_files b
  | Child c => ChildLayerFiles.predicate_dictionary_files c
  end.

Definition value_dictionary_files (self : t F) : DictionaryFiles.t F :=
  match self with
  | Base b => BaseLayerFiles.value_dictionary_files b
  | Child c => ChildLayerFiles.value_dictionary_files c
  end.

(** These panic on files of the other kind. *)
Definition into_base (self : t F) : option (BaseLayerFiles.t F) := match self with Base b => Some b | Child _ => None end.
Definition into_child (self : t F) : option (ChildLayerFiles.t F) := match self with Child c => Some c | Base _ => None end.
End ops.

End LayerFiles.

(** [SimpleLayerBuilder] with its field [files]. *)
Module FileLayerBuilder.

Record t (F : Type) : Type := mk { builder : SimpleLayerBuilder.t InternalLayer; files : LayerFiles.t F }.
Arguments mk {F}. Arguments builder {F}. Arguments files {F}.

Section ops.
Context {S F : Type} `{PersistentLayerStore S F}.

Definition new (name : layer_name) (files : BaseLayerFiles.t F) : t F :=
  mk (SimpleLayerBuilder.new name) (LayerFiles.Base files).

Definition from_parent (name : layer_name) (parent : InternalLayer) (files : ChildLayerFiles.t F) : t F :=
  mk (SimpleLayerBuilder.from_parent name parent) (LayerFiles.Child files).

Definition name (b : t F) : layer_name := SimpleLayerBuilder.name (builder b).
Definition parent (b : t F) : option InternalLayer := SimpleLayerBuilder.parent (builder b).

Definition add_string_triple (b : t F) (triple : StringTriple.t) : t F :=
  mk (SimpleLayerBuilder.add_string_triple (builder b) triple) (files b).
Definition add_id_triple (b : t F) (triple : IdTriple.t) : t F :=
  mk (SimpleLayerBuilder.add_id_triple (builder b) triple) (files b).
Definition remove_string_triple (b : t F) (triple : StringTriple.t) : t F :=
  mk (SimpleLayerBuilder.remove_string_triple (builder b) triple) (files b).
Definition remove_id_triple (b : t F) (triple : IdTriple.t) : t F :=
  mk (SimpleLayerBuilder.remove_id_triple (builder b) triple) (files b).

Context `{BytesSize} `{FramedRead} `{Log2F32} `{ParSort} `{RayonSort}.

Definition commit (b : t F) : io S () :=
  maps ← io_lift (SimpleLayerBuilder.commit (builder b));
  match maps with
  | BaseMaps maps => files ← io_opt (LayerFiles.into_base (files b)); BaseLayerFiles.write files maps
  | ChildMaps maps => files ← io_opt (LayerFiles.into_child (files b)); ChildLayerFiles.write files maps
  end.
End ops.

End FileLayerBuilder.

Section writes.
Context {S F C : Type} `{PersistentLayerStore S F} `{LayerCache C}.
Context `{BytesSize} `{FramedRead} `{Log2F32} `{ParSort} `{RayonSort} (debug : bool).

(** ** Creating layers *)

Definition create_base_layer (random : layer_name) : io S (FileLayerBuilder.t F) :=
  dir_name ← create_directory random;
  files ← base_layer_files dir_name;
  mret (FileLayerBuilder.new dir_name files).

Definition create_child_layer_files_with_cache (fuel : nat) (random parent : layer_name)
    : io (S * C) (layer_name * InternalLayer * ChildLayerFiles.t F) :=
  parent_layer ← get_layer_with_cache debug fuel parent;
  match parent_layer with
  | None => io_err NotFound
  | Some parent_layer =>
      layer_dir ← on_store (create_directory random);
      _ ← on_store (write_parent_file layer_dir parent);
      child_layer_files ← on_store (child_layer_files layer_dir);
      mret (layer_dir, parent_layer, child_layer_files)
  end.

Definition create_child_layer_with_cache (fuel : nat) (random parent : layer_name) : io (S * C) (FileLayerBuilder.t F) :=
  '(layer_dir, parent_layer, child_layer_files) ← create_child_layer_files_with_cache fuel random parent;
  mret (FileLayerBuilder.from_parent layer_dir parent_layer child_layer_files).

(** ** Rollups up to an ancestor *)

(** More than the iterators have. *)
Definition iterator_fuel (it : OptInternalLayerTripleSubjectIterator.t) : nat :=
  match it with Some it => subject_fuel it | None => 1 end.
Definition iterators_fuel (st : InternalTripleStackIterator.t) : nat :=
  Datatypes.S (sum_list (iterator_fuel <$> positives st) + sum_list (iterator_fuel <$> negatives st)).

(** The walks of [dictionary_rollup_upto]: something of every layer on disk
    from [name] down to, but not including, [upto]; the last first. *)
Definition from_disk {A} (fuel : nat) (name upto : layer_name) (get : layer_name -> io S (option A)) : io S (list A) :=
  result ← walk_backwards_from_disk_upto fuel name upto (fun current => x ← get current; io_opt x);
  mret (rev result).

Definition get_node_dicts_from_disk (fuel : nat) (name upto : layer_name) : io S (list PfcDict.t) :=
  from_disk fuel name upto get_node_dictionary.
Definition get_predicate_dicts_from_disk (fuel : nat) (name upto : layer_name) : io S (list PfcDict.t) :=
  from_disk fuel name upto get_predicate_dictionary.
Definition get_value_dicts_from_disk (fuel : nat) (name upto : layer_name) : io S (list PfcDict.t) :=
  from_disk fuel name upto get_value_dictionary.
Definition get_node_value_idmaps_from_disk (fuel : nat) (name upto : layer_name) : io S (list IdMap.t) :=
  from_disk fuel name upto get_node_value_idmap.
Definition get_predicate_idmaps_from_disk (fuel : nat) (name upto : layer_name) : io S (list IdMap.t) :=
  from_disk fuel name upto get_predicate_idmap.

(** The layers in memory above [memory_upto] come after those on disk; their
    predicate id maps are taken from those of the nodes and values. *)
Definition dictionary_rollup_upto (fuel : nat) (layer : InternalLayer) (memory_upto upto : layer_name)
    : io S (dictionary_set * IdMapMaps) :=
  disk_node_dicts ← get_node_dicts_from_disk fuel memory_upto upto;
  disk_predicate_dicts ← get_predicate_dicts_from_disk fuel memory_upto upto;
  disk_value_dicts ← get_value_dicts_from_disk fuel memory_upto upto;
  disk_node_value_idmaps ← get_node_value_idmaps_from_disk fuel memory_upto upto;
  disk_predicate_idmaps ← get_predicate_idmaps_from_disk fuel memory_upto upto;
  layers ← io_opt (Internal.immediate_layers_upto layer memory_upto);
  let node_dicts := disk_node_dicts ++ (Internal.node_dictionary <$> layers) in
  let predicate_dicts := disk_predicate_dicts ++ (Internal.predicate_dictionary <$> layers) in
  let value_dicts := disk_value_dicts ++ (Internal.value_dictionary <$> layers) in
  let node_value_idmaps := disk_node_value_idmaps ++ (Internal.node_value_id_map <$> layers) in
  let predicate_idmaps := disk_predicate_idmaps ++ (Internal.node_value_id_map <$> layers) in
  nodes ← io_lift (merge_dictionaries node_dicts [] []);
  predicates ← io_lift (merge_dictionaries predicate_dicts [] []);
  values ← io_lift (merge_dictionaries value_dicts [] []);
  '(node_value, predicate) ← io_lift
    (construct_idmaps_from_structures debug node_dicts predicate_dicts value_dicts node_value_idmaps predicate_idmaps);
  mret ((nodes, predicates, values), mk_id_map_maps (Some node_value) (Some predicate)).

(** [safe_upto_bound], reading the names of the stack from disk. *)
Definition safe_upto_bound_from_disk (fuel : nat) (layer : InternalLayer) (upto : layer_name) : io S layer_name :=
  if decide (Internal.name layer = upto) then mret upto
  else
    disk_layer_names ← retrieve_layer_stack_names_upto fuel (Internal.name layer) upto;
    mret (safe_bound_loop layer (Internal.parents_of layer) upto disk_layer_names).

Definition imprecise_delta_rollup_upto_files (fuel : nat) (layer : InternalLayer) (upto : layer_name)
    (files : ChildLayerFiles.t F) : io S () :=
  bound ← safe_upto_bound_from_disk fuel layer upto;
  maps ← io_lift (rollup_from_bound debug layer bound);
  ChildLayerFiles.write files maps.

Definition delta_rollup_upto (fuel : nat) (layer : InternalLayer) (upto : layer_name) (files : ChildLayerFiles.t F) : io S () :=
  bound ← safe_upto_bound_from_disk fuel layer upto;
  dictionaries ← dictionary_rollup_upto fuel layer bound upto;
  counts ← io_opt (all_counts layer);
  builders ← io_lift (new_builders counts);
  disk_changes ← layer_changes_upto debug fuel bound upto;
  memory_changes ← io_opt (unwrap (LayerTriples.from_layer_stack layer bound));
  let changes := InternalTripleStackIterator.merge [disk_changes; memory_changes] in
  let fuel := iterators_fuel changes in
  additions ← io_opt (changes_of Addition changes fuel);
  removals ← io_opt (changes_of Removal changes fuel);
  maps ← io_lift (write_changes dictionaries builders additions removals);
  ChildLayerFiles.write files maps.

(** ** Rolling a layer up *)

Definition delta_rollup_files (layer : InternalLayer) (files : BaseLayerFiles.t F) : io S () :=
  maps ← io_lift (delta_rollup debug layer);
  BaseLayerFiles.write files maps.

Definition perform_rollup (random : layer_name) (layer : InternalLayer) : io S layer_name :=
  match Internal.parent_name layer with
  | None => mret (Internal.name layer)
  | Some _ =>
      let new_rollup :=
        dir_name ← create_directory random;
        files ← base_layer_files dir_name;
        _ ← delta_rollup_files layer files;
        mret dir_name in
      has_rollup ← layer_has_rollup (Internal.name layer);
      if has_rollup : bool then
        rollup ← read_rollup_file (Internal.name layer);
        has_parent ← layer_has_parent rollup;
        if negb has_parent then mret rollup else new_rollup
      else new_rollup
  end.

(** Both rollups to an ancestor; they differ in how the files are written. *)
Definition rollup_to_ancestor (write : ChildLayerFiles.t F -> io S ()) (fuel : nat) (random : layer_name) (layer : InternalLayer)
    (upto : layer_name) : io (S * C) layer_name :=
  if decide (Internal.name layer = upto) then mret (Internal.name layer)
  else if decide (Internal.parent_name layer = Some upto) then mret (Internal.name layer)
  else
    let new_rollup :=
      '(layer_dir, _, child_layer_files) ← create_child_layer_files_with_cache fuel random upto;
      _ ← on_store (write child_layer_files);
      mret layer_dir in
    has_rollup ← on_store (layer_has_rollup (Internal.name layer));
    if has_rollup : bool then
      rollup ← on_store (read_rollup_file (Internal.name layer));
      rollup_parent ← on_store (read_parent_file rollup);
      if decide (upto = rollup_parent) then mret rollup else new_rollup
    else new_rollup.

Definition perform_rollup_upto_with_cache (fuel : nat) (random : layer_name) (layer : InternalLayer) (upto : layer_name)
    : io (S * C) layer_name :=
  rollup_to_ancestor (delta_rollup_upto fuel layer upto) fuel random layer upto.

Definition perform_imprecise_rollup_upto_with_cache (fuel : nat) (random : layer_name) (layer : InternalLayer) (upto : layer_name)
    : io (S * C) layer_name :=
  rollup_to_ancestor (imprecise_delta_rollup_upto_files fuel layer upto) fuel random layer upto.

Definition register_rollup (layer rollup : layer_name) : io S () :=
  if decide (layer = rollup) then mret () else write_rollup_file layer rollup.

Definition rollup (random : layer_name) (layer : InternalLayer) : io S layer_name :=
  let name := Internal.name layer in
  rollup ← perform_rollup random layer;
  _ ← register_rollup name rollup;
  mret rollup.

Definition rollup_upto_with_cache (fuel : nat) (random : layer_name) (layer : InternalLayer) (upto : layer_name)
    : io (S * C) layer_name :=
  let name := Internal.name layer in
  rollup ← perform_rollup_upto_with_cache fuel random layer upto;
  _ ← on_store (register_rollup name rollup);
  mret rollup.

Definition imprecise_rollup_upto_with_cache (fuel : nat) (random : layer_name) (layer : InternalLayer) (upto : layer_name)
    : io (S * C) layer_name :=
  let name := Internal.name layer in
  rollup ← perform_imprecise_rollup_upto_with_cache fuel random layer upto;
  _ ← on_store (register_rollup name rollup);
  mret rollup.
End writes.

(** ** The provided methods of the trait, without a cache *)

Module Provided.
Section provided.
Context {S F : Type} `{PersistentLayerStore S F} `{DirectoryListing S}.
Context `{BytesSize} `{FramedRead} `{Log2F32} `{ParSort} `{RayonSort} (debug : bool).

(** [NOCACHE]. *)
Definition nocache {A} (m : io (S * NoCache.t) A) : io S A :=
  fun s => let '(s', r) := m (s, ()) in (s'.1, r).

Definition layers : io S (list layer_name) := directories.

Definition get_layer (fuel : nat) (name : layer_name) : io S (option InternalLayer) :=
  nocache (get_layer_with_cache debug fuel name).

Definition create_child_layer (fuel : nat) (random parent : layer_name) : io S (FileLayerBuilder.t F) :=
  nocache (create_child_layer_with_cache debug fuel random parent).

Definition perform_rollup_upto (fuel : nat) (random : layer_name) (layer : InternalLayer) (upto : layer_name) : io S layer_name :=
  nocache (perform_rollup_upto_with_cache debug fuel random layer upto).

(** The method that is called is the precise one. *)
Definition perform_imprecise_rollup_upto (fuel : nat) (random : layer_name) (layer : InternalLayer) (upto : layer_name)
    : io S layer_name :=
  nocache (perform_rollup_upto_with_cache debug fuel random layer upto).

Definition rollup_upto (fuel : nat) (random : layer_name) (layer : InternalLayer) (upto : layer_name) : io S layer_name :=
  nocache (rollup_upto_with_cache debug fuel random layer upto).

Definition imprecise_rollup_upto (fuel : nat) (random : layer_name) (layer : InternalLayer) (upto : layer_name) : io S layer_name :=
  nocache (imprecise_rollup_upto_with_cache debug fuel random layer upto).
End provided.
End Provided.
