(* ===== verification/LoadedLayers.v ===== *)
(** * Loading stored layers (src/storage/layer.rs, [get_layer_with_cache])

    A store is described by what its layers mean: their models, the layers
    they are on, and how deep their stacks are.  Whatever the cache has kept
    and whatever has been rolled up, loading a layer gives one with its name,
    its parent's name and its model. *)

From stdpp Require Import gmap.
From S2P Require Import Prelude.
From S2P Require Import Words.
From S2P Require Import Codec.
From S2P Require Import Strings.
From S2P Require Import PfcBlocks.
From S2P Require Import LayerTypes.
From S2P Require Import LayerModel.
From S2P Require Import Triples.
From S2P Require Import TripleBuilder.
From S2P Require Import IdMaps.
From S2P Require Import Iterators.
From S2P Require Import Stacks.
From S2P Require Import InternalLayers.
From S2P Require Import LayerNames.
From S2P Require Import LayerTriples.
From S2P Require Import LayerRefinement.
From S2P Require Import LayerBuilders.
From S2P Require Import BuiltLayers.
From S2P Require Import Rollups.
From S2P Require Import Commits.
From S2P Require Import Names.
From S2P Require Import StoreMonad.
From S2P Require Import FileNames.
From S2P Require Import Files.
From S2P Require Import Directories.
From S2P Require Import DiskStores.
From S2P Require Import StoredLayers.
From S2P Require Import Caches.
From S2P Require Import LayerStores.
Open Scope N_scope.

(** ** What a store holds *)

(** What a layer of the store means: its model, a bound on what its stack
    adds, its parent and the number of its ancestors. *)
Record layer_info : Type := mk_info {
  info_model : layer_model;
  info_bound : N;
  info_parent : option layer_name;
  info_depth : nat
}.

Abbreviation infos := (gmap layer_name layer_info).

(** A layer in memory is what the store says of the name. *)
Record means (n : layer_name) (i : layer_info) (l : InternalLayer) : Prop := {
  means_name : Internal.name l = n;
  means_parent : Internal.parent_name l = info_parent i;
  means_model : implements_within (info_bound i) l (info_model i);
  means_base : info_depth i = O -> Internal.immediate_parent l = None
}.

(** A step of the store, next to a cache or anything else. *)
Lemma on_store_steps {S T A : Type} (m : io S A) s s' a (t : T) : runs m s s' a -> runs (on_store m : io (S * T) A) (s, t) (s', t) a.
Proof using. unfold runs, on_store. cbn [fst snd]. by intros ->. Qed.

Section stored.
Context `{Log2F32} (debug : bool).

(** The rollup of a layer has the same model, is no deeper and has no rollup
    itself. *)
Record rollup_of (D : disk) (I : infos) (n : layer_name) (i : layer_info) (r : layer_name) (ir : layer_info) : Prop := {
  rollup_info : I !! r = Some ir;
  rollup_other : r <> n;
  rollup_model : info_model ir = info_model i;
  rollup_bound : info_bound ir <= info_bound i;
  rollup_depth : (info_depth ir <= info_depth i)%nat;
  rollup_plain : Disk.lookup_file D (r, rollup_file) = None
}.

(** The directory of the layer has the files of a base layer, or of a child of
    a layer of the store. *)
Definition files_stored (D : disk) (I : infos) (n : layer_name) (i : layer_info) : Prop :=
  match info_parent i with
  | None => info_depth i = O /\ Disk.lookup_file D (n, parent_file) = None /\
      exists maps, has_base D n maps /\ loads_base debug maps (info_model i) (info_bound i)
  | Some p => Disk.lookup_file D (n, parent_file) = Some (name_to_string p) /\
      exists ip maps, I !! p = Some ip /\ info_depth i = S (info_depth ip) /\
        info_bound ip + lenN (added_triples (info_model i) (info_model ip)) <= info_bound i /\ has_child D n maps /\
        loads_child debug maps (info_model ip) (info_bound ip) (info_model i) (info_bound i)
  end.

Record layer_stored (D : disk) (I : infos) (n : layer_name) (i : layer_info) : Prop := {
  stored_name : name_ok n;
  stored_dir : is_Some (D !! n);
  stored_files : files_stored D I n i;
  stored_rollup : Disk.lookup_file D (n, rollup_file) = None \/
    exists r ir, Disk.lookup_file D (n, rollup_file) = Some (rollup_contents r) /\ rollup_of D I n i r ir
}.

(** Every layer of the store is stored; there may be directories that are not
    layers yet. *)
Definition store_ok (D : disk) (I : infos) : Prop := forall n i, I !! n = Some i -> layer_stored D I n i.

End stored.

(** What a layer adds to its parent, and removes from it. *)
Definition parent_model (I : infos) (i : layer_info) : layer_model :=
  match info_parent i with
  | Some p => match I !! p with Some ip => info_model ip | None => empty_model end
  | None => empty_model
  end.
Definition added_by (I : infos) (i : layer_info) : list IdTriple.t := added_triples (info_model i) (parent_model I i).
Definition removed_by (I : infos) (i : layer_info) : list IdTriple.t := added_triples (parent_model I i) (info_model i).

(** A layer that is not a rollup has its changes itself. *)
Definition own_change (I : infos) (i : layer_info) (l : InternalLayer) : Prop :=
  Internal.is_rollup l = false -> layer_change l (added_by I i, removed_by I i).

(** What the cache may give. *)
Definition cached_ok (I : infos) (n : layer_name) (l : InternalLayer) : Prop := exists i, I !! n = Some i /\ means n i l /\ own_change I i l.

(** The change of the topmost layer of a stack. *)
Lemma top_change (a r : list IdTriple.t) cs (m mp : layer_model) : StronglySorted triple_lt a -> StronglySorted triple_lt r -> model_ok m -> model_ok mp ->
  (forall t, stack_ok ((a, r) :: cs) t) -> (forall t, t ∈ model_triples m <-> stack_mem ((a, r) :: cs) t) ->
  (forall t, t ∈ model_triples mp <-> stack_mem cs t) -> a = added_triples m mp /\ r = added_triples mp m.
Proof.
  intros Ha Hr Hm Hmp Hok Hmem Hmemp.
  split; (apply (sorted_members IdTriple.cmp); [done|by apply sorted_filter, triples_sorted|]); intros t; unfold added_triples;
    rewrite list_elem_of_filter, Hmem, Hmemp; destruct (Hok t) as (_ & H1' & H2'); cbn [stack_mem fst snd] in *;
    destruct (decide (t ∈ a)), (decide (t ∈ r)); tauto.
Qed.

Lemma base_change x m : implements x m -> Internal.immediate_parent x = None -> layer_change x (added_triples m empty_model, added_triples empty_model m).
Proof.
  intros (ns & cs & Hi) Hp. destruct (impl_changes _ _ _ _ Hi) as [Hc Hok]. rewrite Internal.stack_of_cons, Internal.parents_of_spec, Hp in Hc.
  inversion Hc as [|? [a r] ? cs' Hc1 Hc2]; subst. inversion Hc2; subst. pose proof (layer_change_sorted _ _ Hc1) as [Ha Hr]. cbn [fst snd] in *.
  destruct (top_change a r [] m empty_model) as [<- <-]; try done; [apply Hi|apply empty_model_ok|apply Hi|].
  intros t. cbn. split; [by intros ?%elem_of_nil|done].
Qed.

Lemma child_change `{BytesSize} x q m mp : implements x m -> Internal.immediate_parent x = Some q -> implements q mp ->
  layer_change x (added_triples m mp, added_triples mp m).
Proof.
  intros (ns & cs & Hi) Hp Hq. destruct (impl_changes _ _ _ _ Hi) as [Hc Hok]. rewrite Internal.stack_of_cons, Internal.parents_of_spec, Hp in Hc.
  inversion Hc as [|? [a r] ? cs' Hc1 Hc2]; subst. pose proof (layer_change_sorted _ _ Hc1) as [Ha Hr]. cbn [fst snd] in *.
  assert (Hok' : forall t, stack_ok cs' t) by (intros t; by destruct (Hok t)).
  destruct (top_change a r cs' m mp) as [<- <-]; try done; [apply Hi|by eapply model_law|apply Hi|]. by apply (ancestor_triples q cs').
Qed.

(** A rollup layer is what the layer inside is, under another name. *)
Lemma rollup_within k l m original op : implements_within k l m -> implements_within k (Rollup (RollupLayer.mk l original op)) m.
Proof.
  intros (ns & cs & [Hn [Hc Hok] He Hp Ht Hm Hcn Hcp Hca] & Hk). exists ns, cs. split; [|done].
  split; try done.
  - unfold has_names in *. cbn [Internal.stack_of RollupLayer.internal]. rewrite (Internal.stack_of_cons l) in Hn.
    unfold Internal.parents_of in Hn. destruct ns as [|n ns]; [done|]. exact Hn.
  - split; [|done]. cbn [Internal.stack_of RollupLayer.internal]. rewrite (Internal.stack_of_cons l) in Hc.
    unfold Internal.parents_of in Hc. inversion Hc as [|? c ? cs' H1 H2]; subst. constructor; [exact H1|exact H2].
Qed.

Lemma means_rollup n i r ir l : means r ir l -> info_model ir = info_model i -> info_bound ir <= info_bound i ->
  (info_depth ir <= info_depth i)%nat -> means n i (Rollup (RollupLayer.mk l n (info_parent i))).
Proof.
  intros [Hn Hp Hm Hb] Em Eb Ed. split; [done|done| |].
  - apply rollup_within. rewrite <- Em. by eapply within_le.
  - intros E. cbn. apply Hb. lia.
Qed.

Section loading.
Context {C : Type} `{LayerCache C} (holds : (layer_name -> InternalLayer -> Prop) -> C -> Prop) `{!CacheLaws C holds}.
Context `{BytesSize} `{FramedRead} `{Log2F32} `{ParSort} (debug : bool).
Context (D : disk) (I : infos) (HI : store_ok debug D I).

(** A cache that holds what the store says. *)
Abbreviation good c := (holds (cached_ok I) c).

(** *** Steps on the store and on the cache *)

Lemma on_store_runs {A} (m : io disk A) c a : yields m D a -> runs (on_store m : io (disk * C) A) (D, c) (D, c) a.
Proof using. intros E. unfold runs, on_store. cbn [fst snd]. by rewrite E. Qed.

Lemma to_cache_runs n i l c : good c -> means n i l -> own_change I i l -> I !! n = Some i ->
  exists c', good c' /\ runs (to_cache l : io (disk * C) ()) (D, c) (D, c') ().
Proof using CacheLaws0.
  intros Hc Hl Ho Hi. exists (cache_layer l c). split; [|done]. apply cache_holds; [done|]. exists i. by rewrite (means_name _ _ _ Hl).
Qed.

Lemma from_cache_runs n c : good c -> exists c' r, good c' /\ runs (from_cache n : io (disk * C) _) (D, c) (D, c') r /\
    match r with Some l => cached_ok I n l | None => True end.
Proof using CacheLaws0.
  intros Hc. destruct (get_holds (cached_ok I) n c Hc) as [Hc' Hl].
  exists (get_layer_from_cache n c).1, (get_layer_from_cache n c).2. split; [done|]. split.
  - unfold runs, from_cache, on_cache. cbn [fst snd]. by destruct (get_layer_from_cache n c).
  - destruct (get_layer_from_cache n c).2 as [l|]; [|done]. by apply Hl.
Qed.

(** *** What is stored, as steps *)

Lemma parent_of_stored n i : I !! n = Some i -> yields (parent_of n) D (info_parent i).
Proof using HI.
  intros Hi. destruct (HI n i Hi) as [Hn Hd Hf _]. unfold files_stored in Hf. unfold parent_of. apply parent_of_yields; [done|done|].
  destruct (info_parent i) as [p|]; [|by destruct Hf as (_ & ? & _)]. destruct Hf as (Hp & ip & maps & Hip & _). split; [|done].
  by destruct (HI p ip Hip).
Qed.

Lemma no_rollup_stored n i : I !! n = Some i -> Disk.lookup_file D (n, rollup_file) = None -> yields (layer_has_rollup n) D false.
Proof using HI.
  intros Hi Hr. destruct (HI n i Hi) as [Hn _ _ _]. pose proof (file_exists_yields D n Hn rollup_file) as Hy. rewrite Hr in Hy. exact Hy.
Qed.

Lemma rollup_stored n i r ir : I !! n = Some i -> Disk.lookup_file D (n, rollup_file) = Some (rollup_contents r) -> rollup_of D I n i r ir ->
  yields (layer_has_rollup n) D true /\ yields (read_rollup_file n) D r.
Proof using HI.
  intros Hi Hr Hro. destruct (HI n i Hi) as [Hn Hd _ _]. split.
  - pose proof (file_exists_yields D n Hn rollup_file) as Hy. rewrite Hr in Hy. exact Hy.
  - apply read_rollup_yields; [done|done| |done]. by destruct (HI r ir (rollup_info _ _ _ _ _ _ Hro)).
Qed.

Lemma load_base_stored n i : I !! n = Some i -> info_parent i = None ->
  exists l, yields (load_base_files debug n) D l /\ means n i l /\ own_change I i l.
Proof using HI.
  intros Hi Hp. destruct (HI n i Hi) as [Hn Hd Hf _]. unfold files_stored in Hf. rewrite Hp in Hf.
  destruct Hf as (_ & _ & maps & Hm & Hl). destruct (Hl n) as (l & Hload & H5 & H6 & H7 & H8). exists l. split.
  - unfold load_base_files. eapply yields_bind; [by apply base_layer_files_yields|].
    eapply yields_bind; [by apply base_map_yields|]. unfold yields, io_opt. by rewrite Hload.
  - split; [by split; [done|rewrite Hp|done|done]|]. intros _. unfold added_by, removed_by, parent_model. rewrite Hp.
    apply base_change; [by eapply within_implements|done].
Qed.

Lemma load_child_stored n i p ip parent : I !! n = Some i -> info_parent i = Some p -> I !! p = Some ip -> means p ip parent ->
  exists l, yields (load_child_files debug n parent) D l /\ means n i l /\ own_change I i l /\ info_depth i <> O.
Proof using HI H0.
  intros Hi Hp Hip Hpar. destruct (HI n i Hi) as [Hn Hd Hf _]. unfold files_stored in Hf. rewrite Hp in Hf.
  destruct Hf as (_ & ip' & maps & Hip' & Ed & _ & Hm & Hl). rewrite Hip in Hip'. injection Hip' as <-.
  destruct (Hl n parent (means_model _ _ _ Hpar)) as (l & Hload & H5 & H6 & H7 & H8). exists l. split; [|split; [|split; [|lia]]].
  - unfold load_child_files. eapply yields_bind; [by apply child_layer_files_yields|].
    eapply yields_bind; [by apply child_map_yields|]. unfold yields, io_opt. by rewrite Hload.
  - split; [done| |done|lia]. by rewrite H7, Hp, (means_name _ _ _ Hpar).
  - intros _. unfold added_by, removed_by, parent_model. rewrite Hp, Hip.
    eapply child_change; [by eapply within_implements|done|exact (within_implements _ _ _ (means_model _ _ _ Hpar))].
Qed.

(** A store that grows keeps what its cache has. *)
Lemma cached_grows (I' : infos) c : I ⊆ I' -> good c -> holds (cached_ok I') c.
Proof using HI CacheLaws0.
  intros Hsub Hc. apply (holds_weaken (cached_ok I)); [done|]. intros n l (i & Hi & Hl & Ho). exists i.
  split; [by eapply lookup_weaken|]. split; [done|]. unfold own_change, added_by, removed_by.
  enough (parent_model I' i = parent_model I i) as -> by done. destruct (HI n i Hi) as [_ _ Hf _]. unfold files_stored, parent_model in *.
  destruct (info_parent i) as [p|]; [|done]. destruct Hf as (_ & ip & maps & Hip & _). by rewrite Hip, (lookup_weaken _ _ _ _ Hip Hsub).
Qed.

(** *** The layers to load *)

(** The layer whose files are loaded for an entry. *)
Definition current (e : to_load) : layer_name := match e.2 with Some (r, _) => r | None => e.1 end.

(** An entry for a layer of the store; [ic] is what its files mean. *)
Definition entry_ok (e : to_load) (i ic : layer_info) : Prop :=
  I !! e.1 = Some i /\ I !! current e = Some ic /\
  match e.2 with
  | None => True
  | Some (r, op) => op = info_parent i /\ rollup_of D I e.1 i r ic
  end.

(** Loading the entries on top of the layer [n] gives the layer [m]. *)
Inductive above : layer_name -> layer_info -> list to_load -> layer_name -> layer_info -> Prop :=
| above_nil n i : above n i [] n i
| above_cons n i e es j ic m k : I !! n = Some i -> entry_ok e j ic -> info_parent ic = Some n ->
    above e.1 j es m k -> above n i (e :: es) m k.

Lemma above_snoc n i es m k e j ic : above n i es m k -> I !! m = Some k -> entry_ok e j ic -> info_parent ic = Some m ->
  above n i (es ++ [e]) e.1 j.
Proof using.
  induction 1 as [n i|n i e' es j' ic' m k Hn He Hp _ IH]; intros Hm Hj Hic; cbn.
  - by eapply above_cons; [..|apply above_nil].
  - eapply above_cons; [done|done|done|]. by apply IH.
Qed.

(** A layer that has an ancestor has a parent. *)
Lemma deep_parent n i : I !! n = Some i -> info_depth i <> O -> exists p, info_parent i = Some p.
Proof using HI.
  intros Hi Hne. destruct (HI n i Hi) as [_ _ Hf _]. unfold files_stored in Hf. destruct (info_parent i) as [p|]; [by exists p|].
  by destruct Hf as [E _].
Qed.

Lemma load_entry_spec n i e j ic l c : I !! n = Some i -> entry_ok e j ic -> info_parent ic = Some n -> means n i l -> good c ->
  exists l' c', runs (load_entry debug l e) (D, c) (D, c') l' /\ good c' /\ means e.1 j l'.
Proof using HI H0 CacheLaws0.
  intros Hn (Hj & Hic & Hro) Hp Hl Hc. destruct e as [o [[r op]|]]; cbn [current fst snd] in *.
  - destruct Hro as [-> Hro]. destruct (load_child_stored r ic n i l Hic Hp Hn Hl) as (cl & Hy & Hcl & Hcc & Hne).
    pose proof (rollup_depth _ _ _ _ _ _ Hro) as Hdep. destruct (deep_parent o j Hj ltac:(lia)) as [p Ep].
    destruct (to_cache_runs r ic cl c Hc Hcl Hcc Hic) as (c1 & Hc1 & Hr1).
    assert (Hm : means o j (Rollup (RollupLayer.from_child_layer cl o p))).
    { pose proof (means_rollup o j r ic cl Hcl (rollup_model _ _ _ _ _ _ Hro) (rollup_bound _ _ _ _ _ _ Hro) Hdep) as Hm. by rewrite Ep in Hm. }
    destruct (to_cache_runs o j _ c1 Hc1 Hm ltac:(done) Hj) as (c2 & Hc2 & Hr2).
    eexists _, c2. split; [|split; [done|exact Hm]].
    eapply runs_bind; [|eapply runs_bind; [exact Hr2|apply runs_ret]].
    eapply runs_bind; [by apply runs_opt|]. eapply runs_bind; [by apply on_store_runs|]. eapply runs_bind; [exact Hr1|apply runs_ret].
  - assert (ic = j) as -> by congruence.
    destruct (load_child_stored o j n i l Hj Hp Hn Hl) as (cl & Hy & Hcl & Hcc & Hne).
    destruct (to_cache_runs o j cl c Hc Hcl Hcc Hj) as (c1 & Hc1 & Hr1).
    exists cl, c1. split; [|done]. eapply runs_bind; [by apply on_store_runs|]. eapply runs_bind; [exact Hr1|apply runs_ret].
Qed.

Lemma load_above_spec n i es m k : above n i es m k -> forall l c, means n i l -> good c ->
  exists l' c', runs (load_above debug l es) (D, c) (D, c') l' /\ good c' /\ means m k l'.
Proof using HI H0 CacheLaws0.
  induction 1 as [n i|n i e es j ic m k Hn He Hp _ IH]; intros l c Hl Hc; [by exists l, c|].
  destruct (load_entry_spec n i e j ic l c Hn He Hp Hl Hc) as (l1 & c1 & Hr1 & Hc1 & Hl1).
  destruct (IH l1 c1 Hl1 Hc1) as (l2 & c2 & Hr2 & Hc2 & Hl2). exists l2, c2. split; [|done]. by eapply runs_bind.
Qed.

Lemma load_bottom_spec e j ic c : entry_ok e j ic -> info_parent ic = None -> good c ->
  exists l c', runs (load_bottom debug e) (D, c) (D, c') l /\ good c' /\ means e.1 j l.
Proof using HI H0 CacheLaws0.
  intros (Hj & Hic & Hro) Hp Hc. destruct e as [o [[r op]|]]; cbn [current fst snd] in *.
  - destruct Hro as [-> Hro]. destruct (load_base_stored r ic Hic Hp) as (bl & Hy & Hbl & Hbc).
    destruct (to_cache_runs r ic bl c Hc Hbl Hbc Hic) as (c1 & Hc1 & Hr1).
    assert (Hm : means o j (Rollup (RollupLayer.from_base_layer bl o (info_parent j)))) by (apply (means_rollup o j r ic bl Hbl); apply Hro).
    destruct (to_cache_runs o j _ c1 Hc1 Hm ltac:(done) Hj) as (c2 & Hc2 & Hr2).
    eexists _, c2. split; [|split; [done|exact Hm]].
    eapply runs_bind; [|eapply runs_bind; [exact Hr2|apply runs_ret]].
    eapply runs_bind; [by apply on_store_runs|]. eapply runs_bind; [exact Hr1|apply runs_ret].
  - assert (ic = j) as -> by congruence. destruct (load_base_stored o j Hj Hp) as (bl & Hy & Hbl & Hbc).
    destruct (to_cache_runs o j bl c Hc Hbl Hbc Hj) as (c1 & Hc1 & Hr1).
    exists bl, c1. split; [|done]. eapply runs_bind; [by apply on_store_runs|]. eapply runs_bind; [exact Hr1|apply runs_ret].
Qed.

(** *** Looking for an ancestor *)

(** What the search finds: an ancestor that the cache has, or the base of the
    stack; and the entries that lead from there to the layer [m]. *)
Definition found (m : layer_name) (k : layer_info) (r : option InternalLayer * list to_load) : Prop :=
  match r with
  | (Some l, es) => exists n i, means n i l /\ above n i es m k
  | (None, es) => exists e j ic es', es = e :: es' /\ entry_ok e j ic /\ info_parent ic = None /\ above e.1 j es' m k
  end.

(** A rollup and a parent are read for every layer on the way at most. *)
Definition steps_to_go (e : to_load) (ic : layer_info) : nat := (2 * info_depth ic + match e.2 with None => 1 | Some _ => 0 end)%nat.

(** The entry's layer is in the cache. *)
Lemma cached_entry e j ic l : entry_ok e j ic -> means (current e) ic l ->
  exists l', means e.1 j l' /\ forall es c,
    runs (match e.2 with
          | Some (_, original_parent) =>
              match Internal.immediate_parent l with
              | Some _ => p ← io_opt original_parent; mret (Some (Rollup (RollupLayer.from_child_layer l e.1 p)), es)
              | None => mret (Some (Rollup (RollupLayer.from_base_layer l e.1 original_parent)), es)
              end
          | None => mret (Some l, es)
          end : io (disk * C) (option InternalLayer * list to_load)) (D, c) (D, c) (Some l', es).
Proof using HI.
  intros (Hj & Hic & Hro) Hl. destruct e as [o [[r op]|]]; cbn [current fst snd] in *.
  - destruct Hro as [-> Hro]. exists (Rollup (RollupLayer.mk l o (info_parent j))).
    split; [apply (means_rollup o j r ic l Hl); apply Hro|]. intros es c. destruct (Internal.immediate_parent l) as [q|] eqn:Eq; [|done].
    destruct (deep_parent o j Hj) as [p Ep].
    { intros E0. pose proof (rollup_depth _ _ _ _ _ _ Hro). pose proof (means_base _ _ _ Hl ltac:(lia)). congruence. }
    rewrite Ep. by eapply runs_bind; [apply runs_opt|].
  - assert (ic = j) as -> by congruence. by exists l.
Qed.

Lemma find_ancestor_spec fuel : forall e j ic es m k c, entry_ok e j ic -> above e.1 j es m k -> good c ->
  (steps_to_go e ic < fuel)%nat ->
  exists c' r, runs (find_ancestor fuel e es) (D, c) (D, c') r /\ good c' /\ found m k r.
Proof using HI H0 CacheLaws0.
  induction fuel as [|fuel IH]; intros e j ic es m k c He Ha Hc Hf; [lia|]. cbn [find_ancestor].
  pose proof He as (Hj & Hic & Hro). destruct (from_cache_runs (current e) c Hc) as (c1 & r & Hc1 & Hr1 & Hr).
  destruct r as [l|].
  - destruct Hr as (i' & Hi' & Hl & _). assert (i' = ic) as -> by congruence. destruct (cached_entry e j ic l He Hl) as (l' & Hl' & Hrun).
    exists c1, (Some l', es). destruct e as [o ro]. split; [|split; [done|by exists o, j]].
    eapply runs_bind; [exact Hr1|]. exact (Hrun es c1).
  - pose proof (parent_of_stored _ _ Hic) as Hpar. unfold steps_to_go in *.
    destruct (HI (current e) ic Hic) as [_ _ Hfiles Hrollup].
    assert (Hplain : Disk.lookup_file D (current e, rollup_file) = None -> exists c' r,
      runs (find_ancestor (S fuel) e es) (D, c) (D, c') r /\ good c' /\ found m k r).
    { intros Hno. pose proof (no_rollup_stored _ _ Hic Hno) as Hy. destruct (info_parent ic) as [p|] eqn:Ep.
      - unfold files_stored in Hfiles. rewrite Ep in Hfiles. destruct Hfiles as (_ & ip & maps & Hip & Ed & _).
        destruct (IH (p, None) ip ip (e :: es) m k c1) as (c2 & r2 & Hr2 & Hc2 & Hf2);
          [done|by eapply above_cons|done|cbn; lia|]. exists c2, r2. split; [|done]. cbn [find_ancestor]. destruct e as [o ro].
        eapply runs_bind; [exact Hr1|]. cbv iota. eapply runs_bind; [by apply on_store_runs|]. cbv iota.
        by eapply runs_bind; [by apply on_store_runs|].
      - exists c1, (None, e :: es). split; [|split; [done|by exists e, j, ic, es]]. cbn [find_ancestor]. destruct e as [o ro].
        eapply runs_bind; [exact Hr1|]. cbv iota. eapply runs_bind; [by apply on_store_runs|]. cbv iota.
        by eapply runs_bind; [by apply on_store_runs|]. }
    destruct Hrollup as [Hno|(r & ir & Hfile & Hrof)]; [by apply Hplain|]. destruct e as [o [[r' op]|]]; cbn [current fst snd] in *.
    + destruct Hro as [_ Hro]. apply Hplain. by apply (rollup_plain _ _ _ _ _ _ Hro).
    + assert (ic = j) as -> by congruence. destruct (rollup_stored o j r ir Hj Hfile Hrof) as [Hy1 Hy2].
      pose proof (rollup_depth _ _ _ _ _ _ Hrof) as Hdep.
      destruct (IH (o, Some (r, info_parent j)) j ir es m k c1) as (c2 & r2 & Hr2 & Hc2 & Hf2);
        [split; [done|split; [apply Hrof|done]]|done|done|cbn; lia|]. exists c2, r2. split; [|done].
      eapply runs_bind; [exact Hr1|]. cbv iota. eapply runs_bind; [by apply on_store_runs|]. cbv iota.
      eapply runs_bind; [by apply on_store_runs|]. rewrite decide_False by apply Hrof.
      by eapply runs_bind; [by apply on_store_runs|].
Qed.

(** *** Loading a layer *)

Lemma get_layer_spec fuel n i c : I !! n = Some i -> good c -> (2 * info_depth i + 1 < fuel)%nat ->
  exists l c', runs (get_layer_with_cache debug fuel n) (D, c) (D, c') (Some l) /\ good c' /\ means n i l.
Proof using HI H0 CacheLaws0.
  intros Hi Hc Hf. unfold get_layer_with_cache. destruct (from_cache_runs n c Hc) as (c1 & r & Hc1 & Hr1 & Hr). destruct r as [l|].
  - destruct Hr as (i' & Hi' & Hl & _). assert (i' = i) as -> by congruence. exists l, c1. split; [|done]. by eapply runs_bind.
  - destruct (HI n i Hi) as [Hn Hd _ _].
    destruct (find_ancestor_spec fuel (n, None) i i [] n i c1) as (c2 & r2 & Hr2 & Hc2 & Hf2); [done|constructor|done|done|].
    assert (Hload : exists l c3, runs (match r2 with
        | (Some ancestor, layers_to_load) => load_above debug ancestor layers_to_load
        | (None, base :: layers_to_load) => ancestor ← load_bottom debug base; load_above debug ancestor layers_to_load
        | (None, []) => io_panic
        end : io (disk * C) InternalLayer) (D, c2) (D, c3) l /\ good c3 /\ means n i l).
    { destruct r2 as [[a|] es]; cbn [found] in Hf2.
      - destruct Hf2 as (n' & i' & Ha & Habove). by apply (load_above_spec n' i').
      - destruct Hf2 as (e & j & ic & es' & -> & He & Hp & Habove).
        destruct (load_bottom_spec e j ic c2 He Hp Hc2) as (b & c3 & Hb & Hc3 & Hmb).
        destruct (load_above_spec _ _ _ _ _ Habove b c3 Hmb Hc3) as (l & c4 & Hl & Hc4 & Hml).
        exists l, c4. split; [|done]. by eapply runs_bind. }
    destruct Hload as (l & c3 & Hrl & Hc3 & Hl). exists l, c3. split; [|done]. eapply runs_bind; [exact Hr1|]. cbv iota.
    eapply runs_bind; [by apply on_store_runs, directory_exists_yields|]. rewrite bool_decide_true by done. cbn [negb].
    eapply runs_bind; [exact Hr2|]. destruct r2 as [a es]. eapply runs_bind; [exact Hrl|].
    rewrite bool_decide_true by (symmetry; apply Hl). by rewrite andb_false_r.
Qed.

Lemma get_layer_missing fuel n c : name_ok n -> D !! n = None -> I !! n = None -> good c ->
  exists c', runs (get_layer_with_cache debug fuel n) (D, c) (D, c') None /\ good c'.
Proof using HI H0 CacheLaws0.
  intros Hn Hd Hi Hc. unfold get_layer_with_cache. destruct (from_cache_runs n c Hc) as (c1 & r & Hc1 & Hr1 & Hr). exists c1.
  split; [|done]. eapply runs_bind; [exact Hr1|]. destruct r as [l|]; [destruct Hr as (i & Hi' & _ & _); congruence|].
  eapply runs_bind; [by apply on_store_runs, directory_exists_yields|]. by rewrite Hd.
Qed.
End loading.

(** ** The layers below *)

Definition parent_in (I : infos) (n p : layer_name) : Prop := exists i, I !! n = Some i /\ info_parent i = Some p.

(** The names of the stack, the base first. *)
Inductive stack_in (I : infos) : layer_name -> list layer_name -> Prop :=
| stack_base n i : I !! n = Some i -> info_parent i = None -> stack_in I n [n]
| stack_child n p ns : parent_in I n p -> stack_in I p ns -> stack_in I n (ns ++ [n]).

(** The names above [u]. *)
Inductive stack_above (I : infos) (u : layer_name) : layer_name -> list layer_name -> Prop :=
| above_parent n : parent_in I n u -> stack_above I u n [n]
| above_child n p ns : parent_in I n p -> p <> u -> stack_above I u p ns -> stack_above I u n (ns ++ [n]).

Section ancestors.
Context `{Log2F32} (debug : bool) (D : disk) (I : infos) (HI : store_ok debug D I).

Lemma parent_in_info n p : parent_in I n p -> exists i ip, I !! n = Some i /\ info_parent i = Some p /\ I !! p = Some ip /\
  info_depth i = S (info_depth ip) /\ info_bound ip + lenN (added_triples (info_model i) (info_model ip)) <= info_bound i.
Proof using HI.
  intros (i & Hi & Hp). destruct (HI n i Hi) as [_ _ Hf _]. unfold files_stored in Hf. rewrite Hp in Hf.
  destruct Hf as (_ & ip & maps & Hip & Hd & Hb & _). by exists i, ip.
Qed.

Lemma ancestor_depth n u i iu : tc (parent_in I) n u -> I !! n = Some i -> I !! u = Some iu -> (info_depth iu < info_depth i)%nat.
Proof using HI.
  intros Ht. revert i. induction Ht as [n u Hp|n p u Hp _ IH]; intros i Hi Hu;
    destruct (parent_in_info _ _ Hp) as (i' & ip & Hi' & _ & Hip & Hd & _); assert (i' = i) as -> by congruence.
  - assert (ip = iu) as -> by congruence. lia.
  - specialize (IH ip Hip Hu). lia.
Qed.

(** No layer is below itself. *)
Lemma ancestor_irreflexive n : I !! n <> None -> ~ tc (parent_in I) n n.
Proof using HI.
  intros Hn Ht. destruct (I !! n) as [i|] eqn:E; [|done]. pose proof (ancestor_depth n n i i Ht E E). lia.
Qed.

(** [layer_is_ancestor_of] decides it: a layer is its own ancestor there. *)
Lemma layer_is_ancestor_of_spec fuel : forall n i a, I !! n = Some i -> (info_depth i < fuel)%nat ->
  exists b, yields (layer_is_ancestor_of fuel n a) D b /\ (b = true <-> rtc (parent_in I) n a).
Proof using HI.
  induction fuel as [|fuel IH]; intros n i a Hi Hf; [lia|]. cbn [layer_is_ancestor_of]. destruct (decide (a = n)) as [->|Hne].
  - exists true. split; [done|]. split; [intros _; apply rtc_refl|done].
  - pose proof (parent_of_stored debug D I HI n i Hi) as Hp. destruct (info_parent i) as [p|] eqn:Ep.
    + destruct (parent_in_info n p) as (i' & ip & Hi' & _ & Hip & Hd & _); [by exists i|]. assert (i' = i) as -> by congruence.
      destruct (IH p ip a Hip ltac:(lia)) as (b & Hb & Hiff). exists b. split; [by eapply yields_bind|]. rewrite Hiff. split.
      * intros Hr. eapply rtc_l; [by exists i|done].
      * intros Hr. inversion Hr as [|? q ? (j & Hj & Hq)]; subst; [done|]. congruence.
    + exists false. split; [by eapply yields_bind|]. split; [done|].
      intros Hr. inversion Hr as [|? q ? (j & Hj & Hq)]; subst; [done|]. congruence.
Qed.

Lemma stack_names_spec fuel : forall n i result, I !! n = Some i -> (info_depth i < fuel)%nat ->
  exists ns, yields (stack_names_loop fuel n result) D (ns ++ result) /\ stack_in I n ns.
Proof using HI.
  induction fuel as [|fuel IH]; intros n i result Hi Hf; [lia|]. cbn [stack_names_loop].
  pose proof (parent_of_stored debug D I HI n i Hi) as Hp. destruct (info_parent i) as [p|] eqn:Ep.
  - destruct (parent_in_info n p) as (i' & ip & Hi' & _ & Hip & Hd & _); [by exists i|]. assert (i' = i) as -> by congruence.
    destruct (IH p ip (n :: result) Hip ltac:(lia)) as (ns & Hy & Hs). exists (ns ++ [n]). split.
    + eapply yields_bind; [exact Hp|]. cbv iota. by rewrite <- app_assoc.
    + eapply stack_child; [by exists i|done].
  - exists [n]. split; [by eapply yields_bind|]. by eapply stack_base.
Qed.

(** The names above an ancestor, or an error if it is none. *)
Lemma stack_names_upto_spec fuel u : forall n i result, I !! n = Some i -> (info_depth i < fuel)%nat ->
  (exists ns, yields (stack_names_upto_loop fuel n u result) D (ns ++ result) /\ stack_above I u n ns) \/
  (stack_names_upto_loop fuel n u result D = (D, Err NotFound) /\ ~ tc (parent_in I) n u).
Proof using HI.
  induction fuel as [|fuel IH]; intros n i result Hi Hf; [lia|]. cbn [stack_names_upto_loop].
  pose proof (parent_of_stored debug D I HI n i Hi) as Hp. destruct (info_parent i) as [p|] eqn:Ep.
  - assert (Hpi : parent_in I n p) by by exists i.
    destruct (parent_in_info n p Hpi) as (i' & ip & Hi' & _ & Hip & Hd & _). assert (i' = i) as -> by congruence.
    destruct (decide (p = u)) as [->|Hne].
    + left. exists [n]. split; [|by constructor]. eapply yields_bind; [exact Hp|]. cbv iota. by rewrite decide_True.
    + destruct (IH p ip (n :: result) Hip ltac:(lia)) as [(ns & Hy & Hs)|[He Hno]].
      * left. exists (ns ++ [n]). split; [|by eapply above_child]. eapply yields_bind; [exact Hp|]. cbv iota.
        rewrite decide_False by done. by rewrite <- app_assoc.
      * right. split.
        -- erewrite io_bind_Ok by exact Hp. cbv iota. by rewrite decide_False.
        -- intros Ht. inversion Ht as [? ? (j & Hj & Hq)|? q ? (j & Hj & Hq) Ht']; subst; [congruence|].
           assert (q = p) as -> by congruence. by apply Hno.
  - right. split; [by erewrite io_bind_Ok by exact Hp|]. intros Ht.
    inversion Ht as [? ? (j & Hj & Hq)|? q ? (j & Hj & Hq)]; subst; congruence.
Qed.

Lemma stack_above_nodup u n ns : stack_above I u n ns -> NoDup ns /\ Forall (fun x => rtc (parent_in I) n x) ns.
Proof using HI.
  induction 1 as [n Hp|n p ns Hp Hne _ [IH1 IH2]].
  - split; [apply NoDup_singleton|]. constructor; [apply rtc_refl|constructor].
  - split.
    + apply NoDup_app. split; [done|]. split; [|apply NoDup_singleton]. intros x Hx ->%list_elem_of_singleton.
      rewrite Forall_forall in IH2. destruct (parent_in_info _ _ Hp) as (i & _ & Hi & _). apply (ancestor_irreflexive n); [congruence|].
      eapply tc_rtc_r; [by apply tc_once|]. by apply IH2.
    + apply Forall_app. split; [|constructor; [apply rtc_refl|constructor]]. eapply Forall_impl; [exact IH2|]. intros x Hx.
      by eapply rtc_l.
Qed.
End ancestors.
