(* ===== verification/StoredAnswers.v ===== *)
(** * What the files of a layer answer (src/storage/layer.rs)

    A store of layers answers questions about one layer from its files alone,
    without loading the layer or its parents.  The answers are those of the
    layer that is loaded from the files, so it does not matter whether the
    cache or the files are asked. *)

From stdpp Require Import gmap.
From S2P Require Import Prelude.
From S2P Require Import Words.
From S2P Require Import Codec.
From S2P Require Import Strings.
From S2P Require Import LogArrays.
From S2P Require Import BitArrays.
From S2P Require Import BitIndexes.
From S2P Require Import AdjacencyLists.
From S2P Require Import WaveletTrees.
From S2P Require Import PfcBlocks.
From S2P Require Import PfcDicts.
From S2P Require Import LayerTypes.
From S2P Require Import LayerModel.
From S2P Require Import Triples.
From S2P Require Import TripleBuilder.
From S2P Require Import IdMaps.
From S2P Require Import Iterators.
From S2P Require Import Stacks.
From S2P Require Import InternalLayers.
From S2P Require Import LayerNames.
From S2P Require Import LayerTriples.
From S2P Require Import LayerRefinement.
From S2P Require Import LayerBuilders.
From S2P Require Import BuiltLayers.
From S2P Require Import Rollups.
From S2P Require Import SimpleBuilder.
From S2P Require Import Commits.
From S2P Require Import Names.
From S2P Require Import StoreMonad.
From S2P Require Import FileNames.
From S2P Require Import Files.
From S2P Require Import Directories.
From S2P Require Import DiskStores.
From S2P Require Import StoredLayers.
From S2P Require Import Caches.
From S2P Require Import LayerStores.
From S2P Require Import LayerWrites.
From S2P Require Import LoadedLayers.
Open Scope N_scope.

(** ** What the ends of files say *)

(** The number of strings is read without the offsets. *)
Lemma parsed_count maps d : parse_dictionary maps = Ok d -> dict_file_get_count maps.1 = Ok (PfcDict.len d).
Proof.
  unfold parse_dictionary, PfcDict.parse, dict_file_get_count. intros Hd%map_err_inv.
  apply outcome_bind_inv in Hd as (start & Hs%or_panic_inv & Hd). apply outcome_bind_inv in Hd as (count & Hc%or_panic_inv & Hd).
  apply outcome_bind_inv in Hd as (k & Hk%or_panic_inv & Hd). apply outcome_bind_inv in Hd as (o & _ & [= <-]).
  rewrite Hs. mcbn. rewrite Hc. mcbn. by rewrite Hk.
Qed.

Section ends.
Context (debug : bool).

(** The width of the numbers and the number of bits of an adjacency list. *)
Lemma parsed_width maps al : parse_files debug maps = Some al ->
  exists len, logarray_file_get_length_and_width maps.2 = Ok (len, LogArray.width (AdjacencyList.nums al)).
Proof.
  destruct maps as [[[bits blocks] sblocks] nums]. unfold parse_files, AdjacencyList.parse. intros Hal.
  apply bind_Some in Hal as (la & Hla%unwrap_inv & Hal). do 4 (apply bind_Some in Hal as (? & _ & Hal)).
  apply bind_Some in Hal as (? & _ & [= <-]). cbn [snd AdjacencyList.nums]. unfold LogArray.parse in Hla.
  apply outcome_bind_inv in Hla as ([] & Hv & Hla). apply outcome_bind_inv in Hla as (tail & Ht%or_panic_inv & Hla).
  apply outcome_bind_inv in Hla as ([len width] & Hw & [= <-]). unfold logarray_file_get_length_and_width.
  rewrite Hv. cbn [map_err]. rewrite bind_Ok_eq. unfold slice_from in Ht. destruct (_ <=? _) in Ht; [injection Ht as <-|done].
  exists len. by rewrite Hw.
Qed.

Lemma parsed_bits maps al : parse_files debug maps = Some al -> bitarray_len_from_file maps.1.1.1 = Ok (AdjacencyList.right_count al).
Proof.
  destruct maps as [[[bits blocks] sblocks] nums]. unfold parse_files, AdjacencyList.parse. intros Hal.
  apply bind_Some in Hal as (la & _ & Hal). apply bind_Some in Hal as (ba & Hba%unwrap_inv & Hal). do 2 (apply bind_Some in Hal as (? & _ & Hal)).
  apply bind_Some in Hal as (bi & Hbi & Hal). apply bind_Some in Hal as (? & _ & [= <-]). unfold BitIndex.from_parts in Hbi.
  do 2 (apply bind_Some in Hbi as (? & _ & Hbi)). injection Hbi as <-. unfold BitArray.from_bits in Hba.
  apply outcome_bind_inv in Hba as ([] & Hv & Hba). apply outcome_bind_inv in Hba as (len & Hl & [= <-]).
  cbn [fst]. unfold bitarray_len_from_file. rewrite Hv. cbn [map_err]. by rewrite bind_Ok_eq, Hl.
Qed.
End ends.

(** ** Draining an iterator, there or not *)

Lemma take_while_there fuel f : forall it : InternalLayerTripleSubjectIterator.t,
  it_take_while fuel (Some it : OptInternalLayerTripleSubjectIterator.t) f = it_take_while fuel it f.
Proof.
  induction fuel as [|fuel IH]; intros it; [done|]. cbn [it_take_while it_next OptInternalLayerTripleSubjectIterator.peek_iterator subject_peek].
  unfold OptInternalLayerTripleSubjectIterator.next, opt_step. destruct (InternalLayerTripleSubjectIterator.next it) as [[[t|] it']|]; [|done|done].
  rewrite !bind_Some_eq. destruct (f t); [by rewrite IH|done].
Qed.

Lemma take_while_not_there fuel f : it_take_while (Datatypes.S fuel) (None : OptInternalLayerTripleSubjectIterator.t) f = Some [].
Proof. done. Qed.

(** Seeking only moves. *)
Lemma seek_subject_fuel it it' s : InternalLayerTripleSubjectIterator.seek_subject_ref it s = Some it' -> subject_fuel it' = subject_fuel it.
Proof.
  unfold InternalLayerTripleSubjectIterator.seek_subject_ref. destruct (s =? 0); [by intros [= <-]|]. intros Hs.
  do 2 (apply bind_Some in Hs as (? & _ & Hs)). destruct (_ <=? _) in Hs; [by injection Hs as <-|].
  do 2 (apply bind_Some in Hs as (? & _ & Hs)). by injection Hs as <-.
Qed.

Lemma take_while_object_there fuel f : forall it : InternalLayerTripleObjectIterator.t,
  it_take_while fuel (Some it : OptInternalLayerTripleObjectIterator.t) f = it_take_while fuel it f.
Proof.
  induction fuel as [|fuel IH]; intros it; [done|]. cbn [it_take_while it_next OptInternalLayerTripleObjectIterator.peek_iterator object_peek].
  unfold OptInternalLayerTripleObjectIterator.next, opt_step. destruct (InternalLayerTripleObjectIterator.next it) as [[[t|] it']|]; [|done|done].
  rewrite !bind_Some_eq. destruct (f t); [by rewrite IH|done].
Qed.

Lemma seek_pair_fuel it it' s p : InternalLayerTripleSubjectIterator.seek_subject_predicate_ref it s p = Some it' -> subject_fuel it' = subject_fuel it.
Proof.
  unfold InternalLayerTripleSubjectIterator.seek_subject_predicate_ref. destruct (p =? 0); [by apply seek_subject_fuel|].
  destruct (s =? 0); [by intros [= <-]|]. intros Hs.
  do 2 (apply bind_Some in Hs as (? & _ & Hs)). destruct (_ <=? _) in Hs; [by injection Hs as <-|].
  apply bind_Some in Hs as (? & _ & Hs). apply bind_Some in Hs as ([? ?] & _ & Hs). apply bind_Some in Hs as (? & _ & Hs). by injection Hs as <-.
Qed.

Lemma seek_object_fuel it it' o : InternalLayerTripleObjectIterator.seek_object_ref it o = Some it' -> object_fuel it' = object_fuel it.
Proof.
  unfold InternalLayerTripleObjectIterator.seek_object_ref. destruct (o =? 0); [by intros [= <-]|]. intros Hs.
  do 3 (apply bind_Some in Hs as (? & _ & Hs)). by injection Hs as <-.
Qed.

(** What is taken of a sorted list is what there is, when nothing follows. *)
Lemma list_while_filter (R : relation IdTriple.t) (g : IdTriple.t -> bool) xs : StronglySorted R xs ->
  (forall x y, x ∈ xs -> y ∈ xs -> R x y -> g x = false -> g y = false) -> list_while g xs = filter (fun t => g t = true) xs.
Proof.
  induction 1 as [|x xs Hs IH Hx]; intros Hdown; [done|]. cbn [list_while]. rewrite filter_cons. destruct (g x) eqn:Eg.
  - rewrite decide_True by done. f_equal. apply IH. intros y z Hy Hz. apply Hdown; by right.
  - rewrite decide_False by done. symmetry. apply filter_none. rewrite Forall_forall in Hx. apply Forall_forall. intros y Hy.
    rewrite (Hdown x y) by (done || by left || by right || by apply Hx). done.
Qed.

(** An iterator that was sought, drained. *)
Lemma drained {J} `{PeekIterator J} cmp f P (g : IdTriple.t -> bool) ts xs (it : J) fuel : gives it xs -> narrowed cmp f P ts xs ->
  (length ts < fuel)%nat -> (forall x y, cmp x y = Lt -> f y = true -> f x = true) -> (forall t, g t = true -> f t = true) ->
  (forall x y, P x -> P y -> cmp x y = Lt -> g y = true -> g x = true) -> (forall t, t ∈ ts -> g t = true -> P t) ->
  exists out, it_take_while fuel it g = Some out /\ StronglySorted (fun x y => cmp x y = Lt) out /\ forall t, t ∈ out <-> g t = true /\ t ∈ ts.
Proof.
  intros Hg (Hlen & Hs & Hin) Hf Hfdown Hgf Hdown HP. exists (filter (fun t => g t = true) xs). split; [|split].
  - rewrite (it_take_while_spec gives g xs it fuel Hg) by lia. f_equal. apply (list_while_filter _ _ _ Hs).
    intros x y Hx Hy Hxy Ex. destruct (g y) eqn:Ey; [|done]. pose proof (Hgf y Ey) as Hfy. pose proof (Hfdown x y Hxy Hfy) as Hfx.
    apply Hin in Hx, Hy; [|done..]. rewrite <- Ex. symmetry. by apply (Hdown x y); [apply Hx|apply Hy|..].
  - by apply sorted_filter.
  - intros t. rewrite list_elem_of_filter. specialize (HP t). specialize (Hgf t). specialize (Hin t). tauto.
Qed.

(** Of a subject, of a subject and a predicate, and of an object. *)
Lemma drained_subject {J} `{PeekIterator J} s ts xs (it : J) fuel : gives it xs -> narrowed IdTriple.cmp (fun _ => true) (from_subject s) ts xs ->
  StronglySorted triple_lt ts -> (length ts < fuel)%nat ->
  it_take_while fuel it (fun t => IdTriple.subject t =? s) = Some (triples_where (fun t => IdTriple.subject t = s) ts).
Proof.
  intros Hg Hn Hsort Hf. destruct (drained _ _ _ (fun t => IdTriple.subject t =? s) _ _ _ _ Hg Hn Hf) as (out & Hout & Hs & Hin); [done|done| | |].
  - intros x y. unfold from_subject. change (IdTriple.cmp x y = Lt) with (triple_lt x y). rewrite triple_lt_iff, !N.eqb_eq. lia.
  - intros t _. unfold from_subject. rewrite N.eqb_eq. lia.
  - rewrite Hout. f_equal. apply (sorted_members IdTriple.cmp); [done|by apply sorted_filter|]. intros t. by rewrite Hin, list_elem_of_filter, N.eqb_eq.
Qed.

Lemma drained_pair {J} `{PeekIterator J} s p ts xs (it : J) fuel : gives it xs -> narrowed IdTriple.cmp (up_to_pair s p) (from_pair s p) ts xs ->
  StronglySorted triple_lt ts -> (length ts < fuel)%nat ->
  it_take_while fuel it (fun t => (IdTriple.predicate t =? p) && (IdTriple.subject t =? s)) =
    Some (triples_where (fun t => IdTriple.subject t = s /\ IdTriple.predicate t = p) ts).
Proof.
  intros Hg Hn Hsort Hf.
  destruct (drained _ _ _ (fun t => (IdTriple.predicate t =? p) && (IdTriple.subject t =? s)) _ _ _ _ Hg Hn Hf) as (out & Hout & Hs & Hin).
  - apply up_to_pair_down.
  - intros t. unfold up_to_pair. rewrite orb_true_iff, !andb_true_iff, N.ltb_lt, !N.eqb_eq, N.leb_le. lia.
  - intros x y. unfold from_pair. change (IdTriple.cmp x y = Lt) with (triple_lt x y). rewrite triple_lt_iff, !andb_true_iff, !N.eqb_eq. lia.
  - intros t _. unfold from_pair. rewrite andb_true_iff, !N.eqb_eq. lia.
  - rewrite Hout. f_equal. apply (sorted_members IdTriple.cmp); [done|by apply sorted_filter|]. intros t.
    rewrite Hin, list_elem_of_filter, andb_true_iff, !N.eqb_eq. tauto.
Qed.

Lemma drained_object {J} `{PeekIterator J} o ts xs (it : J) fuel : gives it xs -> narrowed object_cmp (fun _ => true) (from_object o) ts xs ->
  StronglySorted triple_lt ts -> (length ts < fuel)%nat ->
  it_take_while fuel it (fun t => IdTriple.object t =? o) = Some (triples_where (fun t => IdTriple.object t = o) ts).
Proof.
  intros Hg Hn Hsort Hf. destruct (drained _ _ _ (fun t => IdTriple.object t =? o) _ _ _ _ Hg Hn Hf) as (out & Hout & Hs & Hin); [done|done| | |].
  - intros x y. unfold from_object. rewrite object_cmp_lt, !N.eqb_eq. unfold object_lt. lia.
  - intros t _. unfold from_object. rewrite N.eqb_eq. lia.
  - rewrite Hout. f_equal. apply (sorted_members object_cmp); [done|by apply by_object_sorted|]. intros t.
    by rewrite Hin, list_elem_of_filter, N.eqb_eq.
Qed.

(** No more triples than pairs of each list. *)
Lemma omap_length {A B} (f : A -> option B) (l : list A) : (length (omap f l) <= length l)%nat.
Proof. induction l as [|x l IH]; [done|]. cbn [omap list_omap]. destruct (f x); cbn [length]; lia. Qed.

Lemma stored_subject_fuel subjs s_p sp_o objs o_ps wt ts : holds subjs s_p sp_o objs o_ps wt ts ->
  (length ts < Datatypes.S (N.to_nat (AdjacencyList.right_count sp_o)))%nat.
Proof.
  intros (subs & sp & spo & oidx & ops & Hst & -> & _). pose proof Hst as (_ & Hspo & _). rewrite (al_right_count _ _ Hspo).
  pose proof (flat_spo_len _ _ _ _ _ _ Hst) as Hf. pose proof (omap_length (triple_of subs sp) (flat spo)). unfold triples_of, lenN in *. lia.
Qed.

Lemma stored_object_fuel subjs s_p sp_o objs o_ps wt ts : holds subjs s_p sp_o objs o_ps wt ts ->
  (length ts < Datatypes.S (N.to_nat (AdjacencyList.right_count o_ps)))%nat.
Proof.
  intros (subs & sp & spo & oidx & ops & Hst & -> & Hops & _ & Hent & _). rewrite (al_right_count _ _ Hops).
  pose proof (Permutation_length (object_triples_perm _ _ _ _ _ _ Hst oidx ops Hent)) as Hl.
  assert (Hflat : length (flat ops) = length (concat ops)) by (rewrite <- (snd_flat ops), length_fmap; [done|by destruct Hops]).
  unfold object_triples in Hl. pose proof (omap_length (object_triple subs sp) (omap (entry_of oidx) (flat ops))).
  pose proof (omap_length (entry_of oidx) (flat ops)). unfold lenN. lia.
Qed.

Section taken.
Context (subjs objs : option LogArray.t) (s_p sp_o o_ps : AdjacencyList.t) (wt : WaveletTree.t) (ts : list IdTriple.t).
Context (Hh : holds subjs s_p sp_o objs o_ps wt ts).

Lemma taken_subject s : take_subject (InternalLayerTripleSubjectIterator.new subjs s_p sp_o) s = Some (triples_where (fun t => IdTriple.subject t = s) ts).
Proof using Hh.
  destruct (stored_seek_s _ _ _ _ _ _ _ s (fun _ => true) Hh) as (it & xs & Hit & Hg & Hn).
  unfold OptInternalLayerTripleSubjectIterator.seek_subject_ref, opt_seek in Hit. apply bind_Some in Hit as (it' & Hit & [= <-]).
  unfold take_subject. rewrite Hit, bind_Some_eq, <- take_while_there, (seek_subject_fuel _ _ _ Hit).
  by eapply drained_subject; [..|eapply holds_sorted|eapply stored_subject_fuel].
Qed.

Lemma taken_pair s p : take_subject_predicate (InternalLayerTripleSubjectIterator.new subjs s_p sp_o) s p =
  Some (triples_where (fun t => IdTriple.subject t = s /\ IdTriple.predicate t = p) ts).
Proof using Hh.
  destruct (stored_seek_sp _ _ _ _ _ _ _ s p Hh) as (it & xs & Hit & Hg & Hn).
  unfold OptInternalLayerTripleSubjectIterator.seek_subject_predicate_ref, opt_seek in Hit. apply bind_Some in Hit as (it' & Hit & [= <-]).
  unfold take_subject_predicate. rewrite Hit, bind_Some_eq, <- take_while_there, (seek_pair_fuel _ _ _ _ Hit).
  by eapply drained_pair; [..|eapply holds_sorted|eapply stored_subject_fuel].
Qed.

Lemma taken_object o it : InternalLayerTripleObjectIterator.seek_object_ref (InternalLayerTripleObjectIterator.new subjs objs o_ps s_p) o = Some it ->
  take_object it o = Some (triples_where (fun t => IdTriple.object t = o) ts).
Proof using Hh.
  intros Hit. destruct (stored_seek_o _ _ _ _ _ _ _ o (fun _ => true) Hh) as (it' & xs & Hit' & Hg & Hn).
  unfold OptInternalLayerTripleObjectIterator.seek_object_ref, opt_seek in Hit'. rewrite Hit in Hit'. injection Hit' as <-.
  unfold take_object. rewrite <- take_while_object_there, (seek_object_fuel _ _ _ Hit).
  by eapply drained_object; [..|eapply holds_sorted|eapply stored_object_fuel].
Qed.
End taken.

(** ** The changes of a layer in memory *)

Section in_memory.
Import Internal.
Context (l : InternalLayer) (c : change) (Hc : layer_change l c).

#[local] Ltac sides := destruct (layer_change_sorted l c Hc) as [Hsa Hsr].

(** The structures of the removals hold them, or there are none. *)
#[local] Ltac removal_sides :=
  destruct Hc as [_ Hn];
  destruct (neg_s_p_adjacency_list l), (neg_sp_o_adjacency_list l), (neg_o_ps_adjacency_list l), (neg_predicate_wavelet_tree l); try done.

Lemma added_fuel : (length c.1 < addition_fuel l)%nat.
Proof using Hc. destruct Hc as [Ha _]. by eapply stored_subject_fuel. Qed.

Lemma removed_fuel : (length c.2 < removal_fuel l)%nat.
Proof using Hc. unfold removal_fuel. removal_sides; [by eapply stored_subject_fuel|]. rewrite Hn. cbn. lia. Qed.

Lemma memory_addition_exists s p o : internal_triple_addition_exists l s p o = Some (bool_decide (IdTriple.mk s p o ∈ c.1)).
Proof using Hc. destruct Hc as [Ha _]. by eapply triple_exists_spec, holds_stored. Qed.

Lemma memory_removal_exists s p o : internal_triple_removal_exists l s p o = Some (bool_decide (IdTriple.mk s p o ∈ c.2)).
Proof using Hc.
  unfold internal_triple_removal_exists. removal_sides; [by eapply triple_exists_spec, holds_stored|].
  rewrite Hn. by rewrite bool_decide_false by (by intros ?%elem_of_nil).
Qed.

Lemma memory_additions_s s : internal_triple_additions_s l s = Some (triples_where (fun t => IdTriple.subject t = s) c.1).
Proof using Hc.
  sides. destruct (additions_seek_s l c Hc s (fun _ => true)) as (it & xs & Hit & Hg & Hn). unfold internal_triple_additions_s.
  rewrite Hit, bind_Some_eq. by eapply drained_subject; [..|apply added_fuel].
Qed.

Lemma memory_removals_s s : internal_triple_removals_s l s = Some (triples_where (fun t => IdTriple.subject t = s) c.2).
Proof using Hc.
  sides. destruct (removals_seek_s l c Hc s (fun _ => true)) as (it & xs & Hit & Hg & Hn). unfold internal_triple_removals_s.
  rewrite Hit, bind_Some_eq. by eapply drained_subject; [..|apply removed_fuel].
Qed.

Lemma memory_additions_sp s p : internal_triple_additions_sp l s p =
  Some (triples_where (fun t => IdTriple.subject t = s /\ IdTriple.predicate t = p) c.1).
Proof using Hc.
  sides. destruct (additions_seek_sp l c Hc s p) as (it & xs & Hit & Hg & Hn). unfold internal_triple_additions_sp.
  rewrite Hit, bind_Some_eq. by eapply drained_pair; [..|apply added_fuel].
Qed.

Lemma memory_removals_sp s p : internal_triple_removals_sp l s p =
  Some (triples_where (fun t => IdTriple.subject t = s /\ IdTriple.predicate t = p) c.2).
Proof using Hc.
  sides. destruct (removals_seek_sp l c Hc s p) as (it & xs & Hit & Hg & Hn). unfold internal_triple_removals_sp.
  rewrite Hit, bind_Some_eq. by eapply drained_pair; [..|apply removed_fuel].
Qed.

Lemma memory_additions_o o : internal_triple_additions_o l o = Some (triples_where (fun t => IdTriple.object t = o) c.1).
Proof using Hc.
  sides. destruct (additions_seek_o l c Hc o (fun _ => true)) as (it & xs & Hit & Hg & Hn). unfold internal_triple_additions_o.
  rewrite Hit, bind_Some_eq. by eapply drained_object; [..|apply added_fuel].
Qed.

Lemma memory_removals_o o : internal_triple_removals_o l o = Some (triples_where (fun t => IdTriple.object t = o) c.2).
Proof using Hc.
  sides. destruct (removals_seek_o l c Hc o (fun _ => true)) as (it & xs & Hit & Hg & Hn). unfold internal_triple_removals_o.
  rewrite Hit, bind_Some_eq. by eapply drained_object; [..|apply removed_fuel].
Qed.

(** What is left of a list when the triples of a predicate are sought. *)
Lemma predicate_narrowed p ts xs : narrowed IdTriple.cmp (fun _ => true) (fun t => IdTriple.predicate t = p) ts xs -> StronglySorted triple_lt ts ->
  xs = triples_where (fun t => IdTriple.predicate t = p) ts.
Proof using Type.
  intros (_ & Hs & Hin) Hsort. apply (sorted_members IdTriple.cmp); [done|by apply sorted_filter|]. intros t. by rewrite Hin, list_elem_of_filter.
Qed.

Lemma memory_additions_p p : p <> 0 -> exists it, internal_triple_additions_p l p = Some it /\
  gives it (triples_where (fun t => IdTriple.predicate t = p) c.1).
Proof using Hc.
  sides. intros Hp. destruct (additions_lookup_p l c Hc p (fun _ => true) Hp) as (it & xs & Hit & Hg & Hn). exists it.
  apply predicate_narrowed in Hn as <-; done.
Qed.

Lemma memory_removals_p p : p <> 0 -> exists it, internal_triple_removals_p l p = Some it /\
  gives it (triples_where (fun t => IdTriple.predicate t = p) c.2).
Proof using Hc.
  sides. intros Hp. destruct (removals_lookup_p l c Hc p (fun _ => true) Hp) as (it & xs & Hit & Hg & Hn). exists it.
  apply predicate_narrowed in Hn as <-; done.
Qed.
End in_memory.

Section answers.
Context `{BytesSize} `{FramedRead} `{Log2F32} `{ParSort} `{RayonSort} (debug : bool).

(** ** The triples in the files

    [side]: the files of the triples of a base layer, of the additions of a
    child or of its removals. *)
Record side : Type := mk_side {
  side_subjects : file;
  side_objects : file;
  side_s_p : AdjacencyListFiles.t file;
  side_sp_o : AdjacencyListFiles.t file;
  side_o_ps : AdjacencyListFiles.t file;
  side_wavelet : BitIndexFiles.t file
}.

Definition base_side (n : layer_name) : side :=
  let h := base_handles n in
  mk_side (BaseLayerFiles.subjects_file h) (BaseLayerFiles.objects_file h) (BaseLayerFiles.s_p_adjacency_list_files h)
    (BaseLayerFiles.sp_o_adjacency_list_files h) (BaseLayerFiles.o_ps_adjacency_list_files h) (BaseLayerFiles.predicate_wavelet_tree_files h).
Definition pos_side (n : layer_name) : side :=
  let h := child_handles n in
  mk_side (ChildLayerFiles.pos_subjects_file h) (ChildLayerFiles.pos_objects_file h) (ChildLayerFiles.pos_s_p_adjacency_list_files h)
    (ChildLayerFiles.pos_sp_o_adjacency_list_files h) (ChildLayerFiles.pos_o_ps_adjacency_list_files h)
    (ChildLayerFiles.pos_predicate_wavelet_tree_files h).
Definition neg_side (n : layer_name) : side :=
  let h := child_handles n in
  mk_side (ChildLayerFiles.neg_subjects_file h) (ChildLayerFiles.neg_objects_file h) (ChildLayerFiles.neg_s_p_adjacency_list_files h)
    (ChildLayerFiles.neg_sp_o_adjacency_list_files h) (ChildLayerFiles.neg_o_ps_adjacency_list_files h)
    (ChildLayerFiles.neg_predicate_wavelet_tree_files h).

(** An adjacency list is in its files. *)
Definition list_stored (D : disk) (f : AdjacencyListFiles.t file) (al : AdjacencyList.t) : Prop :=
  exists maps, has_files D (adjacency_entries f maps) /\ parse_files debug maps = Some al.

(** The structures are in the files. *)
Record side_stored (D : disk) (f : side) (subjects objects : option LogArray.t) (s_p sp_o o_ps : AdjacencyList.t) (wt : WaveletTree.t) : Prop := {
  stored_subjects : parse_optional debug (Disk.lookup_file D (side_subjects f)) = Some subjects;
  stored_objects : parse_optional debug (Disk.lookup_file D (side_objects f)) = Some objects;
  stored_s_p : list_stored D (side_s_p f) s_p;
  stored_sp_o : list_stored D (side_sp_o f) sp_o;
  stored_o_ps : list_stored D (side_o_ps f) o_ps;
  stored_wavelet : exists maps, has_files D (bit_index_entries (side_wavelet f) (Some maps)) /\
    parse_wavelet maps (LogArray.width (AdjacencyList.nums s_p)) = Some wt
}.

Section stored_side.
Context (D : disk) (f : side) (subjects objects : option LogArray.t) (s_p sp_o o_ps : AdjacencyList.t) (wt : WaveletTree.t).
Context (Hside : side_stored D f subjects objects s_p sp_o o_ps wt).

Lemma subjects_yields g r : parse_optional debug (Disk.lookup_file D g) = Some r -> yields (subjects_of debug g) D r.
Proof using Type. intros Hr. unfold subjects_of. eapply yields_bind; [by apply map_if_exists_yields|]. unfold yields, io_opt. by rewrite Hr. Qed.

Lemma opt_yields {A} (m : option A) a : m = Some a -> yields (io_opt m) D a.
Proof using Type. by intros ->. Qed.

(** Follows the steps that read the files. *)
#[local] Ltac steps :=
  repeat (eapply yields_bind; [solve [eauto using subjects_yields, opt_yields with store_io]|cbv beta]).
#[local] Ltac sided :=
  destruct Hside as [Hsub Hobj (m1 & Hf1 & Hp1) (m2 & Hf2 & Hp2) (m3 & Hf3 & Hp3) (m4 & Hf4 & Hp4)]; steps.

Lemma exists_question s p o b : layer_triple_exists subjects s_p sp_o s p o = Some b ->
  yields (file_triple_exists debug (side_subjects f) (side_s_p f) (side_sp_o f) s p o) D b.
Proof using Hside. intros Hb. unfold file_triple_exists. sided. by apply opt_yields. Qed.

Lemma iterator_question : yields (file_triple_iterator debug (side_subjects f) (side_s_p f) (side_sp_o f)) D
  (InternalLayerTripleSubjectIterator.new subjects s_p sp_o).
Proof using Hside. unfold file_triple_iterator. sided. done. Qed.

Lemma predicate_question p it :
  (r ← WaveletTrees.lookup wt p; match r with Some l => it ← InternalLayerTriplePredicateIterator.new l subjects s_p sp_o; Some (Some it) | None => Some None end) = Some it ->
  yields (file_triple_iterator_by_predicate debug (side_subjects f) (side_s_p f) (side_sp_o f) (side_wavelet f) p) D it.
Proof using Hside.
  intros Hr. apply bind_Some in Hr as (r & Hr & Hit). unfold file_triple_iterator_by_predicate. sided. destruct r as [l|]; [|by injection Hit as <-].
  apply bind_Some in Hit as (it' & Hit & [= <-]). steps. done.
Qed.

Lemma object_question o it : InternalLayerTripleObjectIterator.seek_object_ref (InternalLayerTripleObjectIterator.new subjects objects o_ps s_p) o = Some it ->
  yields (file_triple_iterator_by_object debug (side_subjects f) (side_objects f) (side_o_ps f) (side_s_p f) o) D it.
Proof using Hside. intros Hr. unfold file_triple_iterator_by_object. sided. by apply opt_yields. Qed.

Lemma count_question g k : Internal.gap_count wt = Some g -> csub (AdjacencyList.right_count sp_o) g = Some k ->
  yields (file_triple_layer_count (AdjacencyListFiles.nums_file (side_s_p f)) (BitIndexFiles.bits_file (AdjacencyListFiles.files (side_sp_o f)))
    (side_wavelet f)) D k.
Proof using Hside.
  intros Hg Hk. destruct Hside as [_ _ (m1 & Hf1 & Hp1) (m2 & Hf2 & Hp2) _ (m4 & Hf4 & Hp4)].
  destruct (parsed_width debug m1 s_p Hp1) as (len & Hw). pose proof (parsed_bits debug m2 sp_o Hp2) as Hb.
  unfold adjacency_entries, bit_index_entries in Hf1, Hf2. file_lookups. cbn [fmap option_fmap option_map] in *. unfold file_triple_layer_count.
  eapply yields_bind; [by apply read_all_yields|]. eapply yields_bind; [by apply yields_lift|]. eapply yields_bind; [by apply read_all_yields|].
  eapply yields_bind; [by apply yields_lift|]. eapply yields_bind; [by apply bit_index_yields|]. eapply yields_bind; [by apply opt_yields|].
  eapply yields_bind; [by apply opt_yields|]. by apply opt_yields.
Qed.
End stored_side.

(** *** A side and its triples *)

Definition side_has (D : disk) (f : side) (ts : list IdTriple.t) : Prop := exists subjects objects s_p sp_o o_ps wt,
  side_stored D f subjects objects s_p sp_o o_ps wt /\ holds subjects s_p sp_o objects o_ps wt ts.

Section side_has.
Context (D : disk) (f : side) (ts : list IdTriple.t) (Hts : side_has D f ts).

Lemma exists_answer s p o : yields (file_triple_exists debug (side_subjects f) (side_s_p f) (side_sp_o f) s p o) D
  (bool_decide (IdTriple.mk s p o ∈ ts)).
Proof using Hts.
  destruct Hts as (subjects & objects & s_p & sp_o & o_ps & wt & Hs & Hh). eapply exists_question; [exact Hs|].
  eapply triple_exists_spec, holds_stored, Hh.
Qed.

Lemma iterator_answer : exists it, yields (file_triple_iterator debug (side_subjects f) (side_s_p f) (side_sp_o f)) D it /\
  gives (Some it : OptInternalLayerTripleSubjectIterator.t) ts /\
  (forall s, take_subject it s = Some (triples_where (fun t => IdTriple.subject t = s) ts)) /\
  (forall s p, take_subject_predicate it s p = Some (triples_where (fun t => IdTriple.subject t = s /\ IdTriple.predicate t = p) ts)).
Proof using Hts.
  destruct Hts as (subjects & objects & s_p & sp_o & o_ps & wt & Hs & Hh). eexists. split; [eapply iterator_question, Hs|].
  split; [|split; [intros s; eapply taken_subject, Hh|intros s p; eapply taken_pair, Hh]].
  destruct Hh as (subs & sp & spo & oidx & ops & Hst & -> & _). eexists. split; [exact (subject_yields _ _ _ _ _ _ Hst)|].
  by apply (new_yields _ _ _ _ _ _ Hst).
Qed.

Lemma predicate_answer p : p <> 0 -> exists it xs,
  yields (file_triple_iterator_by_predicate debug (side_subjects f) (side_s_p f) (side_sp_o f) (side_wavelet f) p) D it /\
  gives it xs /\ xs = triples_where (fun t => IdTriple.predicate t = p) ts.
Proof using Hts.
  intros Hp. destruct Hts as (subjects & objects & s_p & sp_o & o_ps & wt & Hs & Hh).
  destruct (stored_lookup_p _ _ _ _ _ _ _ p (fun _ => true) Hh Hp) as (it & xs & Hit & Hg & Hn).
  exists it, xs. split; [by eapply predicate_question|]. split; [done|]. by eapply predicate_narrowed, holds_sorted.
Qed.

Lemma object_answer o : yields (it ← file_triple_iterator_by_object debug (side_subjects f) (side_objects f) (side_o_ps f) (side_s_p f) o;
    io_opt (take_object it o)) D (triples_where (fun t => IdTriple.object t = o) ts).
Proof using Hts.
  destruct Hts as (subjects & objects & s_p & sp_o & o_ps & wt & Hs & Hh).
  destruct (stored_seek_o _ _ _ _ _ _ _ o (fun _ => true) Hh) as (it & xs & Hit & _).
  unfold OptInternalLayerTripleObjectIterator.seek_object_ref, opt_seek in Hit. apply bind_Some in Hit as (it' & Hit & _).
  eapply yields_bind; [eapply object_question; [exact Hs|exact Hit]|]. apply opt_yields. eapply taken_object; [exact Hh|exact Hit].
Qed.

Lemma count_answer : yields (file_triple_layer_count (AdjacencyListFiles.nums_file (side_s_p f))
    (BitIndexFiles.bits_file (AdjacencyListFiles.files (side_sp_o f))) (side_wavelet f)) D (lenN ts).
Proof using Hts.
  destruct Hts as (subjects & objects & s_p & sp_o & o_ps & wt & Hs & Hh). pose proof (stored_count _ _ _ _ _ _ _ Hh) as Hk.
  apply bind_Some in Hk as (g & Hg & Hk). by eapply count_question.
Qed.
End side_has.

Lemma side_from_files (D : disk) f ms mo m1 m2 m3 m4 subjects objects s_p sp_o o_ps wt : has_files D [(side_subjects f, ms)] ->
  has_files D [(side_objects f, mo)] -> has_files D (adjacency_entries (side_s_p f) m1) -> has_files D (adjacency_entries (side_sp_o f) m2) ->
  has_files D (adjacency_entries (side_o_ps f) m3) -> has_files D (bit_index_entries (side_wavelet f) (Some m4)) ->
  parse_optional debug ms = Some subjects -> parse_optional debug mo = Some objects -> parse_files debug m1 = Some s_p ->
  parse_files debug m2 = Some sp_o -> parse_files debug m3 = Some o_ps ->
  parse_wavelet m4 (LogArray.width (AdjacencyList.nums s_p)) = Some wt -> side_stored D f subjects objects s_p sp_o o_ps wt.
Proof using Type.
  intros Hs Ho H1' H2' H3' H4' Ps Po P1 P2 P3 P4. unfold has_files in Hs, Ho. rewrite Forall_singleton in Hs; rewrite Forall_singleton in Ho. cbn [fst snd] in Hs, Ho.
  split; [by rewrite Hs|by rewrite Ho|by exists m1|by exists m2|by exists m3|by exists m4].
Qed.

Lemma parse_present f la : parse_monotonic debug f = Some la -> parse_optional debug (Some f) = Some (Some la).
Proof using Type. intros Hp. unfold parse_optional. by rewrite Hp. Qed.

(** ** A layer and its own files

    [child]: whether there is a parent file. *)

Definition added_side (n : layer_name) (child : bool) : side := if child then pos_side n else base_side n.

Definition dictionary_stored (D : disk) (f : DictionaryFiles.t file) (d : PfcDict.t) : Prop :=
  exists maps, has_files D (dictionary_entries f maps) /\ parse_dictionary maps = Ok d.

Definition idmap_stored (D : disk) (f : BitIndexFiles.t file) (size : N) (m : IdMap.t) : Prop :=
  exists maps, has_files D (bit_index_entries f maps) /\ load_idmap maps size = Some m.

Record own_files (D : disk) (n : layer_name) (child : bool) (x : InternalLayer) : Prop := {
  own_name : name_ok n;
  own_dir : is_Some (D !! n);
  own_parent : bool_decide (is_Some (Disk.lookup_file D (n, parent_file))) = child;
  own_plain : Internal.is_rollup x = false;
  own_nodes : dictionary_stored D (BaseLayerFiles.node_dictionary_files (base_handles n)) (Internal.node_dictionary x);
  own_predicates : dictionary_stored D (BaseLayerFiles.predicate_dictionary_files (base_handles n)) (Internal.predicate_dictionary x);
  own_values : dictionary_stored D (BaseLayerFiles.value_dictionary_files (base_handles n)) (Internal.value_dictionary x);
  own_node_ids : exists size, cadd 64 (PfcDict.len (Internal.node_dictionary x)) (PfcDict.len (Internal.value_dictionary x)) = Some size /\
    idmap_stored D (IdMapFiles.node_value_idmap_files (BaseLayerFiles.id_map_files (base_handles n))) size (Internal.node_value_id_map x);
  own_predicate_ids : idmap_stored D (IdMapFiles.predicate_idmap_files (BaseLayerFiles.id_map_files (base_handles n)))
    (PfcDict.len (Internal.predicate_dictionary x)) (Internal.predicate_id_map x);
  own_added : side_stored D (added_side n child) (Internal.pos_subjects x) (Internal.pos_objects x) (Internal.pos_s_p_adjacency_list x)
    (Internal.pos_sp_o_adjacency_list x) (Internal.pos_o_ps_adjacency_list x) (Internal.pos_predicate_wavelet_tree x);
  own_removed : if child then exists s_p sp_o o_ps wt, Internal.neg_s_p_adjacency_list x = Some s_p /\ Internal.neg_sp_o_adjacency_list x = Some sp_o /\
      Internal.neg_o_ps_adjacency_list x = Some o_ps /\ Internal.neg_predicate_wavelet_tree x = Some wt /\
      side_stored D (neg_side n) (Internal.neg_subjects x) (Internal.neg_objects x) s_p sp_o o_ps wt
    else Internal.neg_s_p_adjacency_list x = None /\ Internal.neg_sp_o_adjacency_list x = None /\
      Internal.neg_o_ps_adjacency_list x = None /\ Internal.neg_predicate_wavelet_tree x = None
}.

#[local] Ltac own_parts :=
  repeat match goal with H : unwrap _ = Some _ |- _ => apply unwrap_inv in H end;
  match goal with H : has_files _ (id_map_entries _ _) |- _ => apply has_files_app in H as [? ?] end.
#[local] Ltac own_side := eapply side_from_files; try eassumption; try (apply parse_present; eassumption).

Lemma base_own_files (D : disk) (n name : layer_name) maps x : name_ok n -> is_Some (D !! n) -> Disk.lookup_file D (n, parent_file) = None ->
  has_base D n maps -> base_load debug name maps = Some x -> own_files D n false x.
Proof using Type.
  intros Hn Hd Hp Hf Hx. unfold has_base, base_entries in Hf. repeat (apply has_files_app in Hf as [? Hf]).
  unfold base_load in Hx. repeat (apply bind_Some in Hx as (? & ? & Hx)). injection Hx as <-. own_parts.
  split; [done|done|by rewrite Hp|done|by eexists|by eexists|by eexists| |by eexists|own_side|done].
  eexists. split; [done|]. by eexists.
Qed.

Lemma child_own_files (D : disk) (n name : layer_name) q maps x : name_ok n -> is_Some (D !! n) -> is_Some (Disk.lookup_file D (n, parent_file)) ->
  has_child D n maps -> child_load debug name q maps = Some x -> own_files D n true x.
Proof using Type.
  intros Hn Hd Hp Hf Hx. unfold has_child, child_entries in Hf. repeat (apply has_files_app in Hf as [? Hf]).
  unfold child_load in Hx. repeat (apply bind_Some in Hx as (? & ? & Hx)). injection Hx as <-. own_parts.
  split; [done|done|by apply bool_decide_true|done|by eexists|by eexists|by eexists| |by eexists|own_side|].
  - eexists. split; [done|]. by eexists.
  - do 4 eexists. do 4 (split; [reflexivity|]). own_side.
Qed.

(** ** The answers *)

Section own.
Context (D : disk) (n : layer_name) (child : bool) (x : InternalLayer) (Hx : own_files D n child x).

Lemma here : yields (directory_exists n) D true.
Proof using Hx.
  pose proof (directory_exists_yields D n (own_name _ _ _ _ Hx)) as Hy. by rewrite bool_decide_true in Hy by apply Hx.
Qed.

Lemma of_layer_yields {A} (m : io disk A) a : yields m D a -> yields (of_layer n m) D a.
Proof using Hx. intros Hm. unfold of_layer. by eapply yields_bind; [apply here|]. Qed.

Lemma if_exists_yields {A} (m : io disk A) a : yields m D a -> yields (if_exists n m) D (Some a).
Proof using Hx. intros Hm. unfold if_exists. eapply yields_bind; [apply here|]. cbv iota. by eapply yields_bind. Qed.

Lemma kind_yields : yields (layer_has_parent n) D child.
Proof using Hx.
  unfold layer_has_parent. pose proof (file_exists_yields D n (own_name _ _ _ _ Hx) parent_file) as Hy. by rewrite (own_parent _ _ _ _ Hx) in Hy.
Qed.

Lemma own_file_yields f : yields (get_file n f) D (n, f).
Proof using Hx. apply get_file_yields; apply Hx. Qed.

#[local] Hint Resolve here kind_yields own_file_yields : store_io.

(** Opens files of the layer. *)
#[local] Ltac open_files := repeat (eapply yields_bind; [solve [eauto with store_io]|cbv beta iota]).

Lemma dictionary_handles_yield b o : yields (get_dictionary_files n b o) D (DictionaryFiles.mk (n, b) (n, o)).
Proof using Hx. unfold get_dictionary_files. open_files. done. Qed.
Lemma bit_index_handles_yield a b c : yields (get_bit_index_files n a b c) D (BitIndexFiles.mk (n, a) (n, b) (n, c)).
Proof using Hx. unfold get_bit_index_files. open_files. done. Qed.
#[local] Hint Resolve dictionary_handles_yield bit_index_handles_yield : store_io.
Lemma adjacency_handles_yield a b c d : yields (get_adjacency_files n a b c d) D (AdjacencyListFiles.mk (BitIndexFiles.mk (n, b) (n, c) (n, d)) (n, a)).
Proof using Hx. unfold get_adjacency_files. open_files. done. Qed.
#[local] Hint Resolve adjacency_handles_yield : store_io.

Lemma addition_files_yield : yields (triple_addition_files n) D
  (side_subjects (added_side n child), side_s_p (added_side n child), side_sp_o (added_side n child)).
Proof using Hx. apply of_layer_yields. eapply yields_bind; [apply kind_yields|]. case child; open_files; done. Qed.

Lemma removal_files_yield : yields (triple_removal_files n) D
  (if child then Some (side_subjects (neg_side n), side_s_p (neg_side n), side_sp_o (neg_side n)) else None).
Proof using Hx. apply of_layer_yields. eapply yields_bind; [apply kind_yields|]. case child; open_files; done. Qed.

Lemma addition_wavelet_yields : yields (predicate_wavelet_addition_files n) D (side_wavelet (added_side n child)).
Proof using Hx. apply of_layer_yields. eapply yields_bind; [apply kind_yields|]. case child; apply bit_index_handles_yield. Qed.

Lemma removal_wavelet_yields : yields (predicate_wavelet_removal_files n) D (if child then Some (side_wavelet (neg_side n)) else None).
Proof using Hx. apply of_layer_yields. eapply yields_bind; [apply kind_yields|]. case child; open_files; done. Qed.

Lemma addition_object_files_yield : yields (triple_addition_files_by_object n) D
  (side_subjects (added_side n child), side_objects (added_side n child), side_o_ps (added_side n child), side_s_p (added_side n child)).
Proof using Hx. apply of_layer_yields. eapply yields_bind; [apply kind_yields|]. case child; open_files; done. Qed.

Lemma removal_object_files_yield : yields (triple_removal_files_by_object n) D
  (if child then Some (side_subjects (neg_side n), side_objects (neg_side n), side_o_ps (neg_side n), side_s_p (neg_side n)) else None).
Proof using Hx. apply of_layer_yields. eapply yields_bind; [apply kind_yields|]. case child; open_files; done. Qed.

Lemma addition_count_files_yield : yields (triple_layer_addition_count_files n) D
  (AdjacencyListFiles.nums_file (side_s_p (added_side n child)),
   BitIndexFiles.bits_file (AdjacencyListFiles.files (side_sp_o (added_side n child))), side_wavelet (added_side n child)).
Proof using Hx.
  apply of_layer_yields. eapply yields_bind; [apply kind_yields|].
  eapply yields_bind with (a := (AdjacencyListFiles.nums_file (side_s_p (added_side n child)),
    BitIndexFiles.bits_file (AdjacencyListFiles.files (side_sp_o (added_side n child))))); [case child; open_files; done|].
  eapply yields_bind; [apply addition_wavelet_yields|done].
Qed.

Lemma removal_count_files_yield : yields (triple_layer_removal_count_files n) D
  (if child then Some (AdjacencyListFiles.nums_file (side_s_p (neg_side n)),
     BitIndexFiles.bits_file (AdjacencyListFiles.files (side_sp_o (neg_side n))), side_wavelet (neg_side n)) else None).
Proof using Hx.
  apply of_layer_yields. eapply yields_bind; [apply kind_yields|]. pose proof removal_wavelet_yields as Hw.
  revert Hw. case child; intros Hw; [|done]. do 2 (eapply yields_bind; [apply own_file_yields|]). eapply yields_bind; [exact Hw|].
  by eapply yields_bind; [by apply opt_yields|].
Qed.

(** *** Its triples *)

Section changes.
Context (c : change) (Hc : layer_change x c).

Lemma own_added_has : side_has D (added_side n child) c.1.
Proof using Hx Hc. destruct Hc as [Hh _]. do 6 eexists. split; [exact (own_added _ _ _ _ Hx)|exact Hh]. Qed.

Lemma own_removed_has : if child then side_has D (neg_side n) c.2 else c.2 = [].
Proof using Hx Hc.
  destruct Hc as [_ Hh]. pose proof (own_removed _ _ _ _ Hx) as Hr. revert Hr. case child.
  - intros (s_p & sp_o & o_ps & wt & E1 & E2 & E3 & E4 & Hs). rewrite E1, E2, E3, E4 in Hh. do 6 eexists. by split.
  - intros (E1 & E2 & E3 & E4). by rewrite E1, E2, E3, E4 in Hh.
Qed.

(** What is asked of the files of the removals, if there are any. *)
#[local] Ltac of_removals :=
  let Hh := fresh "Hh" in
  pose proof own_removed_has as Hh; revert Hh; case child; intros Hh; [|rewrite Hh].

Lemma addition_exists_answer s p o : yields (triple_addition_exists debug n s p o) D (bool_decide (IdTriple.mk s p o ∈ c.1)).
Proof using Hx Hc. unfold triple_addition_exists. eapply yields_bind; [apply addition_files_yield|]. apply exists_answer, own_added_has. Qed.

Lemma removal_exists_answer s p o : yields (triple_removal_exists debug n s p o) D (bool_decide (IdTriple.mk s p o ∈ c.2)).
Proof using Hx Hc.
  unfold triple_removal_exists. eapply yields_bind; [apply removal_files_yield|]. of_removals; [by apply exists_answer|].
  by rewrite bool_decide_false by (by intros ?%elem_of_nil).
Qed.

Lemma additions_answer : exists it, yields (triple_additions debug n) D it /\ gives it c.1.
Proof using Hx Hc.
  destruct (iterator_answer D _ _ own_added_has) as (it & Hy & Hg & _). exists (Some it). split; [|done]. unfold triple_additions.
  eapply yields_bind; [apply addition_files_yield|]. eapply yields_bind; [exact Hy|]. done.
Qed.

Lemma removals_answer : exists it, yields (triple_removals debug n) D it /\ gives it c.2.
Proof using Hx Hc.
  unfold triple_removals. pose proof removal_files_yield as Hf. revert Hf. of_removals; intros Hf.
  - destruct (iterator_answer D _ _ Hh) as (it & Hy & Hg & _). exists (Some it). split; [|done].
    eapply yields_bind; [exact Hf|]. eapply yields_bind; [exact Hy|]. done.
  - exists None. split; [by eapply yields_bind; [exact Hf|]|apply none_gives].
Qed.

Lemma additions_s_answer s : yields (triple_additions_s debug n s) D (triples_where (fun t => IdTriple.subject t = s) c.1).
Proof using Hx Hc.
  destruct (iterator_answer D _ _ own_added_has) as (it & Hy & _ & Hs & _). unfold triple_additions_s.
  eapply yields_bind; [apply addition_files_yield|]. eapply yields_bind; [exact Hy|]. by apply opt_yields.
Qed.

Lemma removals_s_answer s : yields (triple_removals_s debug n s) D (triples_where (fun t => IdTriple.subject t = s) c.2).
Proof using Hx Hc.
  unfold triple_removals_s. eapply yields_bind; [apply removal_files_yield|]. of_removals; [|done].
  destruct (iterator_answer D _ _ Hh) as (it & Hy & _ & Hs & _). eapply yields_bind; [exact Hy|]. by apply opt_yields.
Qed.

Lemma additions_sp_answer s p : yields (triple_additions_sp debug n s p) D
  (triples_where (fun t => IdTriple.subject t = s /\ IdTriple.predicate t = p) c.1).
Proof using Hx Hc.
  destruct (iterator_answer D _ _ own_added_has) as (it & Hy & _ & _ & Hs). unfold triple_additions_sp.
  eapply yields_bind; [apply addition_files_yield|]. eapply yields_bind; [exact Hy|]. by apply opt_yields.
Qed.

Lemma removals_sp_answer s p : yields (triple_removals_sp debug n s p) D
  (triples_where (fun t => IdTriple.subject t = s /\ IdTriple.predicate t = p) c.2).
Proof using Hx Hc.
  unfold triple_removals_sp. eapply yields_bind; [apply removal_files_yield|]. of_removals; [|done].
  destruct (iterator_answer D _ _ Hh) as (it & Hy & _ & _ & Hs). eapply yields_bind; [exact Hy|]. by apply opt_yields.
Qed.

Lemma additions_p_answer p : p <> 0 -> exists it, yields (triple_additions_p debug n p) D it /\
  gives it (triples_where (fun t => IdTriple.predicate t = p) c.1).
Proof using Hx Hc.
  intros Hp. destruct (predicate_answer D _ _ own_added_has p Hp) as (it & xs & Hy & Hg & ->). exists it. split; [|done].
  unfold triple_additions_p. eapply yields_bind; [apply addition_files_yield|]. eapply yields_bind; [apply addition_wavelet_yields|exact Hy].
Qed.

Lemma removals_p_answer p : p <> 0 -> exists it, yields (triple_removals_p debug n p) D it /\
  gives it (triples_where (fun t => IdTriple.predicate t = p) c.2).
Proof using Hx Hc.
  intros Hp. unfold triple_removals_p. pose proof removal_files_yield as Hf. pose proof removal_wavelet_yields as Hw. revert Hf Hw.
  of_removals; intros Hf Hw.
  - destruct (predicate_answer D _ _ Hh p Hp) as (it & xs & Hy & Hg & ->). exists it. split; [|done].
    eapply yields_bind; [exact Hf|]. eapply yields_bind; [exact Hw|exact Hy].
  - exists None. split; [|apply none_gives]. eapply yields_bind; [exact Hf|]. by eapply yields_bind; [exact Hw|].
Qed.

Lemma additions_o_answer o : yields (triple_additions_o debug n o) D (triples_where (fun t => IdTriple.object t = o) c.1).
Proof using Hx Hc. unfold triple_additions_o. eapply yields_bind; [apply addition_object_files_yield|]. apply object_answer, own_added_has. Qed.

Lemma removals_o_answer o : yields (triple_removals_o debug n o) D (triples_where (fun t => IdTriple.object t = o) c.2).
Proof using Hx Hc.
  unfold triple_removals_o. eapply yields_bind; [apply removal_object_files_yield|]. of_removals; [|done]. by apply object_answer.
Qed.

Lemma addition_count_answer : yields (triple_layer_addition_count n) D (lenN c.1).
Proof using Hx Hc. unfold triple_layer_addition_count. eapply yields_bind; [apply addition_count_files_yield|]. apply count_answer, own_added_has. Qed.

Lemma removal_count_answer : yields (triple_layer_removal_count n) D (lenN c.2).
Proof using Hx Hc.
  unfold triple_layer_removal_count. eapply yields_bind; [apply removal_count_files_yield|]. of_removals; [|done]. by apply count_answer.
Qed.
End changes.

(** *** Its names *)

Lemma dictionary_answer m f d : yields m D f -> dictionary_stored D f d -> yields (read_dictionary m) D d.
Proof using Type.
  intros Hm (maps & Hf & Hp). unfold read_dictionary. eapply yields_bind; [exact Hm|]. eapply yields_bind; [by apply dictionary_yields|].
  by apply yields_lift.
Qed.

Lemma count_stored f d : dictionary_stored D f d -> yields (file_get_count (DictionaryFiles.blocks_file f)) D (PfcDict.len d).
Proof using Type.
  intros (maps & Hf & Hp). apply parsed_count in Hp. unfold dictionary_entries in Hf. file_lookups. unfold file_get_count.
  eapply yields_bind; [by apply read_all_yields|]. by apply yields_lift.
Qed.

#[local] Ltac names := apply if_exists_yields; eapply dictionary_answer; [apply of_layer_yields, dictionary_handles_yield|].

Lemma node_dictionary_answer : yields (get_node_dictionary n) D (Some (Internal.node_dictionary x)).
Proof using Hx. names. exact (own_nodes _ _ _ _ Hx). Qed.
Lemma predicate_dictionary_answer : yields (get_predicate_dictionary n) D (Some (Internal.predicate_dictionary x)).
Proof using Hx. names. exact (own_predicates _ _ _ _ Hx). Qed.
Lemma value_dictionary_answer : yields (get_value_dictionary n) D (Some (Internal.value_dictionary x)).
Proof using Hx. names. exact (own_values _ _ _ _ Hx). Qed.

#[local] Ltac counts := apply if_exists_yields; eapply yields_bind; [apply of_layer_yields, dictionary_handles_yield|].

Lemma node_count_answer : yields (get_node_count n) D (Some (PfcDict.len (Internal.node_dictionary x))).
Proof using Hx. counts. exact (count_stored _ _ (own_nodes _ _ _ _ Hx)). Qed.
Lemma predicate_count_answer : yields (get_predicate_count n) D (Some (PfcDict.len (Internal.predicate_dictionary x))).
Proof using Hx. counts. exact (count_stored _ _ (own_predicates _ _ _ _ Hx)). Qed.
Lemma value_count_answer : yields (get_value_count n) D (Some (PfcDict.len (Internal.value_dictionary x))).
Proof using Hx. counts. exact (count_stored _ _ (own_values _ _ _ _ Hx)). Qed.

Lemma node_value_idmap_answer : yields (get_node_value_idmap n) D (Some (Internal.node_value_id_map x)).
Proof using Hx.
  destruct (own_node_ids _ _ _ _ Hx) as (size & Hsize & maps & Hf & Hm). apply if_exists_yields.
  eapply yields_bind; [apply node_count_answer|]. eapply yields_bind; [by apply opt_yields|]. eapply yields_bind; [apply value_count_answer|].
  eapply yields_bind; [by apply opt_yields|]. eapply yields_bind; [apply opt_yields, Hsize|].
  eapply yields_bind; [apply of_layer_yields, bit_index_handles_yield|]. eapply yields_bind; [by apply bit_index_if_exists_yields|]. by apply opt_yields.
Qed.

Lemma predicate_idmap_answer : yields (get_predicate_idmap n) D (Some (Internal.predicate_id_map x)).
Proof using Hx.
  destruct (own_predicate_ids _ _ _ _ Hx) as (maps & Hf & Hm). apply if_exists_yields.
  eapply yields_bind; [apply predicate_count_answer|]. eapply yields_bind; [by apply opt_yields|].
  eapply yields_bind; [apply of_layer_yields, bit_index_handles_yield|]. eapply yields_bind; [by apply bit_index_if_exists_yields|]. by apply opt_yields.
Qed.
End own.

(** ** The layers of a store *)

Lemma own_layer (D : disk) (I : infos) (n : layer_name) (i : layer_info) : store_ok debug D I -> I !! n = Some i ->
  exists child x, own_files D n child x /\ means n i x /\ layer_change x (added_by I i, removed_by I i).
Proof using H H0 H2.
  intros HI Hi. destruct (HI n i Hi) as [Hn Hd Hf _]. unfold files_stored in Hf. unfold added_by, removed_by, parent_model.
  destruct (info_parent i) as [p|] eqn:Ep.
  - destruct Hf as (Hp & ip & maps & Hip & Hdep & _ & Hfiles & Hload). rewrite Hip.
    destruct (get_layer_spec (fun _ _ => True) debug D I HI (2 * info_depth ip + 2) p ip (() : NoCache.t) Hip Logic.I ltac:(lia))
      as (q & _ & _ & _ & Hq). destruct (Hload n q (means_model _ _ _ Hq)) as (x & Hx & Hxn & Hxp & Hxpn & Hxi).
    exists true, x. split; [eapply child_own_files; try done; by rewrite Hp|]. split.
    { split; [done|rewrite Hxpn, (means_name _ _ _ Hq); done|done|lia]. }
    eapply child_change; [by eapply within_implements|done|exact (within_implements _ _ _ (means_model _ _ _ Hq))].
  - destruct Hf as (Hdep & Hp & maps & Hfiles & Hload). destruct (Hload n) as (x & Hx & Hxn & Hxp & Hxpn & Hxi).
    exists false, x. split; [by eapply base_own_files|]. split; [by split; [done|congruence|done|done]|].
    apply base_change; [by eapply within_implements|done].
Qed.
End answers.
