(* ===== verification/StoreGrowth.v ===== *)
(** * What writing does to a store (src/storage/layer.rs and
      src/layer/simple_builder.rs)

    Committing a builder adds its layer to what the store holds, and rolling a
    layer up adds a layer with the same model: no layer that was there changes
    its meaning. *)

From stdpp Require Import gmap.
From S2P Require Import Prelude.
From S2P Require Import Words.
From S2P Require Import Codec.
From S2P Require Import Strings.
From S2P Require Import PfcBlocks.
From S2P Require Import PfcDicts.
From S2P Require Import LayerTypes.
From S2P Require Import LayerModel.
From S2P Require Import Triples.
From S2P Require Import TripleBuilder.
From S2P Require Import IdMaps.
From S2P Require Import Iterators.
From S2P Require Import Stacks.
From S2P Require Import InternalLayers.
From S2P Require Import LayerNames.
From S2P Require Import LayerTriples.
From S2P Require Import LayerRefinement.
From S2P Require Import LayerBuilders.
From S2P Require Import BuiltLayers.
From S2P Require Import Rollups.
From S2P Require Import SimpleBuilder.
From S2P Require Import Commits.
From S2P Require Import Names.
From S2P Require Import StoreMonad.
From S2P Require Import FileNames.
From S2P Require Import Files.
From S2P Require Import Directories.
From S2P Require Import DiskStores.
From S2P Require Import StoredLayers.
From S2P Require Import Caches.
From S2P Require Import LayerStores.
From S2P Require Import LayerWrites.
From S2P Require Import LoadedLayers.
Open Scope N_scope.

Section growth.
Context `{BytesSize} `{FramedRead} `{Log2F32} `{ParSort} `{RayonSort} (debug : bool).

Abbreviation store_ok := (store_ok debug).

(** ** Stores that grow *)

Lemma lookup_file_same (D D' : disk) n f : D' !! n = D !! n -> Disk.lookup_file D' (n, f) = Disk.lookup_file D (n, f).
Proof using. intros E. unfold Disk.lookup_file. cbn [fst]. by rewrite E. Qed.

(** A layer stays stored when its directory and those it refers to stay, and
    when layers are added. *)
Lemma layer_stored_mono (D D' : disk) (I I' : infos) n i : I ⊆ I' -> (forall x j, I !! x = Some j -> D' !! x = D !! x) -> I !! n = Some i ->
  layer_stored debug D I n i -> layer_stored debug D' I' n i.
Proof using.
  intros HI HD Hi [Hn Hd Hf Hr]. pose proof (HD n i Hi) as En.
  assert (El : forall f, Disk.lookup_file D' (n, f) = Disk.lookup_file D (n, f)) by (intros f; by apply lookup_file_same).
  split; [done|by rewrite En| |].
  - unfold files_stored in *. rewrite El. destruct (info_parent i) as [p|].
    + destruct Hf as (Hp & ip & maps & Hip & Hdep & Hk & Hm & Hl). split; [done|]. exists ip, maps. split; [by eapply lookup_weaken|].
      split; [done|]. split; [done|]. split; [|done]. eapply has_child_same; [|exact Hm]. auto.
    + destruct Hf as (Hdep & Hp & maps & Hm & Hl). split; [done|]. split; [done|]. exists maps. split; [|done].
      eapply has_base_same; [|exact Hm]. auto.
  - rewrite El. destruct Hr as [Hr|(r & ir & Hr & [H5 H6 H7 H8 H9 H10])]; [by left|right]. exists r, ir. split; [done|].
    split; try done; [by eapply lookup_weaken|]. rewrite <- H10. apply lookup_file_same. by eapply HD.
Qed.

Lemma store_ok_frame (D D' : disk) (I : infos) : (forall x j, I !! x = Some j -> D' !! x = D !! x) -> store_ok D I -> store_ok D' I.
Proof using. intros HD HI n i Hi. by apply (layer_stored_mono D D' I I); [|..|apply HI]. Qed.

Lemma store_ok_insert (D : disk) (I : infos) n i : store_ok D I -> I !! n = None -> layer_stored debug D (<[n := i]> I) n i -> store_ok D (<[n := i]> I).
Proof using.
  intros HI Hn Hs m j [[<- <-]|[_ Hj]]%lookup_insert_Some; [done|]. apply (layer_stored_mono D D I); [by apply insert_subseteq|done|done|].
  by apply HI.
Qed.

(** ** Committing *)

(** A builder whose layer is not written yet: the directory is there, with the
    parent file only. *)
Definition building_base (D : disk) (I : infos) (b : FileLayerBuilder.t file) : Prop :=
  let n := FileLayerBuilder.name b in
  name_ok n /\ I !! n = None /\ D !! n = Some ∅ /\ FileLayerBuilder.parent b = None /\
  FileLayerBuilder.files b = LayerFiles.Base (base_handles n).

Definition building_child (D : disk) (I : infos) (b : FileLayerBuilder.t file) (p : layer_name) (ip : layer_info) (pl : InternalLayer) : Prop :=
  let n := FileLayerBuilder.name b in
  name_ok n /\ I !! n = None /\ D !! n = Some {[parent_file := name_to_string p]} /\ I !! p = Some ip /\ means p ip pl /\
  FileLayerBuilder.parent b = Some pl /\ FileLayerBuilder.files b = LayerFiles.Child (child_handles n).

Lemma create_base_runs (D : disk) (I : infos) n : store_ok D I -> name_ok n -> D !! n = None ->
  let D' := <[n := ∅]> D in
  exists b, runs (create_base_layer n) D D' b /\ store_ok D' I /\ building_base D' I b /\ b = FileLayerBuilder.new n (base_handles n).
Proof using.
  intros HI Hn Hd D'. assert (Hi : I !! n = None).
  { destruct (I !! n) as [i|] eqn:E; [|done]. destruct (HI n i E) as [_ [d Hd'] _ _]. congruence. }
  eexists. split; [|split; [|split; [|reflexivity]]].
  - unfold create_base_layer. eapply runs_bind with (s1 := D').
    + unfold runs, create_directory. cbn [create_named_directory Disk.store]. unfold Disk.at_name. rewrite decide_True by done. by rewrite Hd.
    + eapply runs_bind; [apply base_layer_files_yields; [done|unfold D'; rewrite lookup_insert_eq; by eexists]|apply runs_ret].
  - apply (store_ok_frame D); [|done]. intros x j Hx. unfold D'. rewrite lookup_insert_ne; [done|]. congruence.
  - unfold building_base. cbn. split; [done|]. split; [done|]. split; [|done]. unfold D'. by rewrite lookup_insert_eq.
Qed.

(** Writing the files of a new layer. *)
Lemma base_files_written (D : disk) n maps : D !! n = Some ∅ ->
  exists D', runs (BaseLayerFiles.write (base_handles n) maps) D D' () /\ has_base D' n maps /\ is_Some (D' !! n) /\
    Disk.lookup_file D' (n, parent_file) = None /\ Disk.lookup_file D' (n, rollup_file) = None /\
    forall x, x <> n -> D' !! x = D !! x.
Proof using.
  intros Hd. assert (Hr : ready D (base_entries (base_handles n) maps)).
  { eapply ready_new; [exact Hd|apply base_entry_dirs|apply written_nodup|]. apply Forall_forall. intros f _. apply lookup_empty. }
  exists (fill D (base_entries (base_handles n) maps)). split; [by apply base_write_writes|]. split; [by apply fill_has_files|].
  split; [apply fill_dirs; rewrite Hd; by eexists|]. pose proof written_others as [Hp Hq].
  assert (Ho : forall f, (f ∉ base_written ++ child_written) ->
    Disk.lookup_file (fill D (base_entries (base_handles n) maps)) (n, f) = None).
  { intros f Hf. rewrite fill_lookup_ne.
    - unfold Disk.lookup_file. cbn [fst snd]. rewrite Hd. apply lookup_empty.
    - rewrite (file_names n) by apply base_entry_dirs. rewrite base_written_files. intros (g & [= ->] & Hg)%list_elem_of_fmap.
      apply Hf, elem_of_app. by left. }
  split; [by apply Ho|]. split; [by apply Ho|]. intros x Hx. apply fill_other. eapply Forall_impl; [apply (base_entry_dirs n)|].
  cbn. intros e -> E. by apply Hx.
Qed.

Lemma child_files_written (D : disk) n p maps : D !! n = Some {[parent_file := name_to_string p]} ->
  exists D', runs (ChildLayerFiles.write (child_handles n) maps) D D' () /\ has_child D' n maps /\ is_Some (D' !! n) /\
    Disk.lookup_file D' (n, parent_file) = Some (name_to_string p) /\ Disk.lookup_file D' (n, rollup_file) = None /\
    forall x, x <> n -> D' !! x = D !! x.
Proof using.
  intros Hd. pose proof written_others as [Hp Hq]. assert (Hr : ready D (child_entries (child_handles n) maps)).
  { eapply ready_new; [exact Hd|apply child_entry_dirs|apply written_nodup|]. apply Forall_forall. intros f Hf.
    rewrite lookup_singleton_ne; [done|]. intros <-. apply Hp, elem_of_app. by right. }
  exists (fill D (child_entries (child_handles n) maps)). split; [by apply child_write_writes|]. split; [by apply fill_has_files|].
  split; [apply fill_dirs; rewrite Hd; by eexists|].
  assert (Ho : forall f, (f ∉ base_written ++ child_written) ->
    Disk.lookup_file (fill D (child_entries (child_handles n) maps)) (n, f) = Disk.lookup_file D (n, f)).
  { intros f Hf. apply fill_lookup_ne. rewrite (file_names n) by apply child_entry_dirs. rewrite child_written_files.
    intros (g & [= ->] & Hg)%list_elem_of_fmap. apply Hf, elem_of_app. by right. }
  rewrite !Ho by done. unfold Disk.lookup_file. cbn [fst snd]. rewrite Hd. cbn [mbind option_bind].
  split; [apply lookup_singleton_eq|]. split; [by apply lookup_singleton_ne|]. intros x Hx. apply fill_other.
  eapply Forall_impl; [apply (child_entry_dirs n)|]. cbn. intros e -> E. by apply Hx.
Qed.

(** A new layer, once its files are written. *)
Lemma base_layer_added (D D' : disk) (I : infos) n maps m k : store_ok D I -> name_ok n -> I !! n = None ->
  has_base D' n maps -> is_Some (D' !! n) -> Disk.lookup_file D' (n, parent_file) = None ->
  Disk.lookup_file D' (n, rollup_file) = None -> (forall x, x <> n -> D' !! x = D !! x) -> loads_base debug maps m k ->
  store_ok D' (<[n := mk_info m k None 0]> I).
Proof using.
  intros HI Hn Hi Hm Hd Hp Hr Ho Hl. apply store_ok_insert; [|done|].
  - apply (store_ok_frame D); [|done]. intros x j Hx. apply Ho. congruence.
  - split; [done|done| |by left]. unfold files_stored. cbn [info_parent info_depth info_model info_bound].
    split; [done|]. split; [done|]. by exists maps.
Qed.

Lemma child_layer_added (D D' : disk) (I : infos) n p ip maps m k : store_ok D I -> name_ok n -> I !! n = None -> I !! p = Some ip ->
  has_child D' n maps -> is_Some (D' !! n) -> Disk.lookup_file D' (n, parent_file) = Some (name_to_string p) ->
  Disk.lookup_file D' (n, rollup_file) = None -> (forall x, x <> n -> D' !! x = D !! x) ->
  info_bound ip + lenN (added_triples m (info_model ip)) <= k -> loads_child debug maps (info_model ip) (info_bound ip) m k ->
  store_ok D' (<[n := mk_info m k (Some p) (S (info_depth ip))]> I).
Proof using.
  intros HI Hn Hi Hip Hm Hd Hp Hr Ho Hk Hl. apply store_ok_insert; [|done|].
  - apply (store_ok_frame D); [|done]. intros x j Hx. apply Ho. congruence.
  - split; [done|done| |by left]. unfold files_stored. cbn [info_parent info_depth info_model info_bound].
    split; [done|]. exists ip, maps. rewrite lookup_insert_ne by congruence. done.
Qed.

(** Committing, for a builder of a base layer and of a child. *)
Lemma commit_base_runs (D : disk) (I : infos) b M : store_ok D I -> building_base D I b ->
  let s := FileLayerBuilder.builder b in
  let n := FileLayerBuilder.name b in
  commit_input empty_model (SimpleLayerBuilder.additions s) (SimpleLayerBuilder.id_additions s)
    (SimpleLayerBuilder.removals s) (SimpleLayerBuilder.id_removals s) M ->
  exists D' m, runs (FileLayerBuilder.commit b) D D' () /\
    store_ok D' (<[n := mk_info m (lenN (SimpleLayerBuilder.additions s) + lenN (SimpleLayerBuilder.id_additions s)) None 0]> I) /\
    committed_base m (SimpleLayerBuilder.additions s) (SimpleLayerBuilder.removals s) /\ forall x, x <> n -> D' !! x = D !! x.
Proof using.
  intros HI (Hn & Hi & Hd & Hpar & Hfiles) s n Hin.
  destruct (commit_base_built_on debug s M Hpar Hin) as (maps & m & Hcom & Hm & Hl).
  destruct (base_files_written D n maps Hd) as (D' & Hw & H5 & H6 & H7 & H8 & H9). exists D', m. split; [|split; [|done]].
  - unfold FileLayerBuilder.commit. fold s. eapply runs_bind; [unfold runs, io_lift; by rewrite Hcom|]. cbv iota. rewrite Hfiles.
    by eapply runs_bind; [by apply runs_opt|].
  - by eapply base_layer_added.
Qed.

Lemma commit_child_runs (D : disk) (I : infos) b p ip pl M : store_ok D I -> building_child D I b p ip pl ->
  let s := FileLayerBuilder.builder b in
  let n := FileLayerBuilder.name b in
  let k := info_bound ip + lenN (SimpleLayerBuilder.additions s) + lenN (SimpleLayerBuilder.id_additions s) in
  Forall nonempty_strings (SimpleLayerBuilder.additions s ++ SimpleLayerBuilder.removals s) ->
  commit_input (info_model ip) (SimpleLayerBuilder.additions s) (SimpleLayerBuilder.id_additions s)
    (SimpleLayerBuilder.removals s) (SimpleLayerBuilder.id_removals s) M -> k < 2 ^ 64 ->
  exists D' m, runs (FileLayerBuilder.commit b) D D' () /\
    store_ok D' (<[n := mk_info m k (Some p) (S (info_depth ip))]> I) /\
    committed (info_model ip) m (SimpleLayerBuilder.additions s) (SimpleLayerBuilder.id_additions s)
      (SimpleLayerBuilder.removals s) (SimpleLayerBuilder.id_removals s) /\ forall x, x <> n -> D' !! x = D !! x.
Proof using.
  intros HI (Hn & Hi & Hd & Hip & Hpl & Hpar & Hfiles) s n k Hne Hin Hk. pose proof (within_implements _ _ _ (means_model _ _ _ Hpl)) as Himp.
  destruct (commit_child_built_on debug s pl (info_model ip) M Hpar Himp Hne Hin) as (maps & m & Hcom & Hm & Hadd & Hl).
  destruct (child_files_written D n p maps Hd) as (D' & Hw & H5 & H6 & H7 & H8 & H9). exists D', m. split; [|split; [|done]].
  - unfold FileLayerBuilder.commit. fold s. eapply runs_bind; [unfold runs, io_lift; by rewrite Hcom|]. cbv iota. rewrite Hfiles.
    by eapply runs_bind; [by apply runs_opt|].
  - eapply child_layer_added; try done; [|by apply Hl]. unfold k. lia.
Qed.

(** ** Rollups *)

(** The layer is no rollup of another. *)
Definition not_a_rollup (D : disk) (I : infos) (n : layer_name) : Prop :=
  forall x i, I !! x = Some i -> Disk.lookup_file D (x, rollup_file) <> Some (rollup_contents n).

Lemma rollup_contents_length r : name_ok r -> lenN (rollup_contents r) = 43.
Proof using.
  intros Hr. unfold rollup_contents. rewrite !lenN_app. change (lenN (digits 10 1)) with 1.
  assert (lenN (name_to_string r) = 40) as -> by (unfold lenN; by rewrite name_length). done.
Qed.

(** Registering writes the rollup file, whether or not there was one. *)
Lemma write_rollup_runs (D : disk) (I : infos) n i r : store_ok D I -> I !! n = Some i -> name_ok r ->
  runs (write_rollup_file n r) D (put_file D (n, rollup_file) (rollup_contents r)) ().
Proof using.
  intros HI Hi Hr. destruct (HI n i Hi) as [Hn Hd _ Hroll]. unfold write_rollup_file.
  eapply runs_bind; [by apply get_file_yields|]. fold rollup_file. fold (rollup_contents r). destruct Hd as [d Hd].
  unfold runs. cbn [write_all Disk.files fst snd]. unfold put_file. cbn [fst snd]. rewrite Hd.
  assert (Hold : d !! rollup_file = Disk.lookup_file D (n, rollup_file)) by (unfold Disk.lookup_file; cbn [fst snd]; by rewrite Hd).
  rewrite Hold. destruct Hroll as [->|(r' & ir' & -> & Hro)]; [done|].
  destruct (HI r' ir' (rollup_info _ _ _ _ _ _ Hro)) as [Hr' _ _ _]. by rewrite !rollup_contents_length.
Qed.

Lemma register_runs (D : disk) (I : infos) n i r ir : store_ok D I -> I !! n = Some i -> rollup_of D I n i r ir -> not_a_rollup D I n ->
  exists D', runs (register_rollup n r) D D' () /\ store_ok D' I /\ D' = put_file D (n, rollup_file) (rollup_contents r).
Proof using.
  intros HI Hi Hro Hnot. pose proof (rollup_info _ _ _ _ _ _ Hro) as Hir. destruct (HI r ir Hir) as [Hr _ _ _].
  eexists. split; [|split; [|reflexivity]].
  - unfold register_rollup. rewrite decide_False by (intros E; by apply (rollup_other _ _ _ _ _ _ Hro)). by eapply write_rollup_runs.
  - set (D' := put_file D (n, rollup_file) (rollup_contents r)).
    assert (Hother : forall x f, (x, f) <> (n, rollup_file) -> Disk.lookup_file D' (x, f) = Disk.lookup_file D (x, f)).
    { intros x f Hne. by apply lookup_put_file_ne. }
    pose proof written_others as [_ Hw]. rewrite elem_of_app in Hw. intros x j Hj. destruct (HI x j Hj) as [Hx Hd Hf Hroll].
    assert (Hplain : forall y f, f <> rollup_file -> Disk.lookup_file D' (y, f) = Disk.lookup_file D (y, f)).
    { intros y f Hne. apply Hother. congruence. }
    split; [done|by apply put_file_dirs| |].
    + unfold files_stored in *. rewrite Hplain by done. destruct (info_parent j) as [p|].
      * destruct Hf as (Hp & ip & maps & Hip & Hdep & Hk & Hm & Hl). split; [done|]. exists ip, maps. do 3 (split; [done|]).
        split; [|done]. eapply has_child_same; [|exact Hm]. intros f Hin. apply Hplain. intros ->. apply Hw. by right.
      * destruct Hf as (Hdep & Hp & maps & Hm & Hl). split; [done|]. split; [done|]. exists maps. split; [|done].
        eapply has_base_same; [|exact Hm]. intros f Hin. apply Hplain. intros ->. apply Hw. by left.
    + assert (Hkeep : forall y iy z iz, z <> n -> rollup_of D I y iy z iz -> rollup_of D' I y iy z iz).
      { intros y iy z iz Hz [H5 H6 H7 H8 H9 H10]. split; try done. by rewrite Hother by congruence. }
      destruct (decide (x = n)) as [->|Hne].
      * assert (j = i) as -> by congruence. right. exists r, ir. split; [|apply Hkeep; [apply Hro|done]].
        apply lookup_put_file. cbn. by destruct (HI n i Hi).
      * rewrite Hother by congruence. destruct Hroll as [Hroll|(z & iz & Hfile & Hz)]; [by left|right]. exists z, iz.
        split; [done|]. apply Hkeep; [|done]. intros ->. by apply (Hnot x j).
Qed.

(** The triples of a layer are no more than its stack has added. *)
Lemma within_triples k l m : implements_within k l m -> lenN (model_triples m) <= k.
Proof using.
  intros (ns & cs & Hi & Hk). destruct (impl_changes _ _ _ _ Hi) as [Hc Hok].
  destruct (stack_size cs) as (ts & Hnd & Hin & Hlen); [by eapply changes_sorted|done|].
  assert (length (model_triples m) <= length ts)%nat; [|unfold lenN in *; lia].
  apply submseteq_length, NoDup_submseteq; [apply sorted_nodup, (triples_sorted m), Hi|]. intros t Ht. by apply Hin, (impl_triples _ _ _ _ Hi).
Qed.

(** Writing the rollup of a whole stack to a fresh directory. *)
Lemma new_rollup_runs (D : disk) (I : infos) n i l r M : store_ok D I -> means n i l -> Forall no_maps (Internal.stack_of l) ->
  let m := info_model i in
  merge_input (model_entries m) (model_predicates m) ->
  layer_input false (lenN (model_entries m)) (lenN (model_predicates m)) 0 (lenN (model_entries m)) M (model_triples m) ->
  name_ok r -> D !! r = None ->
  exists D', runs (dir_name ← create_directory r; files ← base_layer_files dir_name; _ ← delta_rollup_files debug l files; mret dir_name) D D' r /\
    store_ok D' (<[r := mk_info m (lenN (model_triples m)) None 0]> I) /\ Disk.lookup_file D' (r, rollup_file) = None /\
    forall x, x <> r -> D' !! x = D !! x.
Proof using.
  intros HI Hl Hno m Hmerge Hin Hr Hd. pose proof (within_implements _ _ _ (means_model _ _ _ Hl)) as Himp.
  destruct (create_base_runs D I r HI Hr Hd) as (b & Hcreate & HI1 & (_ & Hir & Hd1 & _) & ->). set (D1 := <[r := ∅]> D) in *.
  destruct (rollup_built_on debug l m M Himp Hno Hmerge Hin) as (maps & Hroll & Hload).
  destruct (base_files_written D1 r maps Hd1) as (D' & Hw & H5 & H6 & H7 & H8 & H9). exists D'. split; [|split; [|split]].
  - unfold create_base_layer in Hcreate. apply io_bind_inv in Hcreate as (D2 & dir & Hc1 & Hc2).
    apply io_bind_inv in Hc2 as (D3 & fs & Hc2 & Hc3). injection Hc3 as E1 E2 E3. subst dir fs D3.
    eapply runs_bind; [exact Hc1|]. eapply runs_bind; [exact Hc2|].
    eapply runs_bind; [|apply runs_ret]. unfold delta_rollup_files. eapply runs_bind; [unfold runs, io_lift; by rewrite Hroll|exact Hw].
  - by eapply base_layer_added.
  - done.
  - intros x Hx. rewrite H9 by done. unfold D1. by rewrite lookup_insert_ne.
Qed.

(** What a rollup needs of the layer: no layer of its stack is a rollup
    itself, and the merged dictionaries and the triples can be written. *)
Record rollup_input (l : InternalLayer) (m : layer_model) (M : N) : Prop := {
  rollup_no_maps : Forall no_maps (Internal.stack_of l);
  rollup_names : merge_input (model_entries m) (model_predicates m);
  rollup_triples : layer_input false (lenN (model_entries m)) (lenN (model_predicates m)) 0 (lenN (model_entries m)) M (model_triples m)
}.

(** Performing a rollup gives the layer itself, if it has no parent, or a
    rollup of it: one that there was, or a new one. *)
Lemma perform_rollup_runs (D : disk) (I : infos) n i l random M : store_ok D I -> I !! n = Some i -> means n i l ->
  rollup_input l (info_model i) M -> name_ok random -> D !! random = None ->
  exists D' I' r, runs (perform_rollup debug random l) D D' r /\ store_ok D' I' /\ I ⊆ I' /\
    (forall x j, I !! x = Some j -> D' !! x = D !! x) /\
    match info_parent i with
    | None => r = n
    | Some _ => exists ir, rollup_of D' I' n i r ir /\ info_parent ir = None /\
        (forall x j, I' !! x = Some j -> I !! x = Some j \/ Disk.lookup_file D' (x, rollup_file) = None)
    end.
Proof using.
  intros HI Hi Hl [Hno Hmerge Hin] Hr Hd. unfold perform_rollup. rewrite (means_parent _ _ _ Hl), (means_name _ _ _ Hl).
  destruct (info_parent i) as [p|] eqn:Ep; [|by exists D, I, n].
  destruct (new_rollup_runs D I n i l random M HI Hl Hno Hmerge Hin Hr Hd) as (D' & Hrun & HI' & Hplain & Hother).
  assert (Hir : I !! random = None).
  { destruct (I !! random) as [j|] eqn:E; [|done]. destruct (HI random j E) as [_ [d Hd'] _ _]. congruence. }
  assert (Hnew : forall (m : io disk layer_name), runs m D D' random -> exists D' I' r, runs m D D' r /\ store_ok D' I' /\ I ⊆ I' /\
    (forall x j, I !! x = Some j -> D' !! x = D !! x) /\
    exists ir, rollup_of D' I' n i r ir /\ info_parent ir = None /\
      (forall x j, I' !! x = Some j -> I !! x = Some j \/ Disk.lookup_file D' (x, rollup_file) = None)).
  { intros m Hm. eexists D', _, random. split; [exact Hm|]. split; [exact HI'|]. split; [by apply insert_subseteq|].
    split; [intros x j Hx; apply Hother; congruence|]. exists (mk_info (info_model i) (lenN (model_triples (info_model i))) None 0). split; [|split; [done|]].
    - split; [by rewrite lookup_insert_eq|congruence|done| |cbn; lia|done].
      cbn. apply (within_triples _ l), Hl.
    - intros x j [[<- _]|[_ Hx]]%lookup_insert_Some; [by right|by left]. }
  destruct (HI n i Hi) as [_ _ _ [Hroll|(r & ir & Hfile & Hro)]].
  - apply Hnew. eapply runs_bind; [by eapply no_rollup_stored|]. exact Hrun.
  - destruct (rollup_stored debug D I HI n i r ir Hi Hfile Hro) as [Hy1 Hy2].
    destruct (HI r ir (rollup_info _ _ _ _ _ _ Hro)) as [Hrn _ Hrf _]. pose proof (file_exists_yields D r Hrn parent_file) as Hy3.
    destruct (Disk.lookup_file D (r, parent_file)) as [c|] eqn:Epar.
    + apply Hnew. eapply runs_bind; [exact Hy1|]. cbv iota. eapply runs_bind; [exact Hy2|]. eapply runs_bind; [exact Hy3|]. exact Hrun.
    + exists D, I, r. split; [|split; [done|split; [done|split; [done|]]]].
      * eapply runs_bind; [exact Hy1|]. cbv iota. eapply runs_bind; [exact Hy2|]. by eapply runs_bind; [exact Hy3|].
      * exists ir. split; [done|]. split; [|by auto]. unfold files_stored in Hrf. destruct (info_parent ir) as [q|]; [|done].
        destruct Hrf as [Hq _]. congruence.
Qed.

(** Rolling a layer up keeps what every layer means. *)
Lemma rollup_runs (D : disk) (I : infos) n i l random M : store_ok D I -> I !! n = Some i -> means n i l -> not_a_rollup D I n ->
  rollup_input l (info_model i) M -> name_ok random -> D !! random = None ->
  exists D' I' r, runs (rollup debug random l) D D' r /\ store_ok D' I' /\ I ⊆ I' /\
    match info_parent i with
    | None => r = n
    | Some _ => exists ir, I' !! r = Some ir /\ info_parent ir = None /\ info_model ir = info_model i /\
        Disk.lookup_file D' (n, rollup_file) = Some (rollup_contents r)
    end.
Proof using.
  intros HI Hi Hl Hnot Hin Hr Hd.
  destruct (perform_rollup_runs D I n i l random M HI Hi Hl Hin Hr Hd) as (D1 & I1 & r & Hrun & HI1 & Hsub & Hsame & Hcase).
  destruct (info_parent i) as [p|].
  - destruct Hcase as (ir & Hro & Hbase & Hnew). assert (Hi1 : I1 !! n = Some i) by by eapply lookup_weaken.
    destruct (register_runs D1 I1 n i r ir HI1 Hi1 Hro) as (D2 & Hreg & HI2 & ->).
    { intros x j Hx. destruct (Hnew x j Hx) as [Hx'|Hx']; [|congruence]. rewrite (lookup_file_same D D1) by by eapply Hsame. by apply (Hnot x j). }
    eexists _, I1, r. split; [|split; [exact HI2|split; [done|]]].
    + unfold rollup. rewrite (means_name _ _ _ Hl). eapply runs_bind; [exact Hrun|]. eapply runs_bind; [exact Hreg|apply runs_ret].
    + exists ir. split; [apply Hro|]. split; [done|]. split; [apply Hro|]. apply lookup_put_file. cbn. by destruct (HI1 n i Hi1).
  - subst r. exists D1, I1, n. split; [|done]. unfold rollup. rewrite (means_name _ _ _ Hl). eapply runs_bind; [exact Hrun|].
    unfold register_rollup. rewrite decide_True by done. apply runs_ret.
Qed.

(** ** Creating a child *)

Section with_cache.
Context {C : Type} `{LayerCache C} (holds : (layer_name -> InternalLayer -> Prop) -> C -> Prop) `{!CacheLaws C holds}.

Lemma create_child_files_runs (D : disk) (I : infos) c n p ip fuel : store_ok D I -> holds (cached_ok I) c -> I !! p = Some ip ->
  (2 * info_depth ip + 1 < fuel)%nat -> name_ok n -> D !! n = None ->
  let D' := <[n := {[parent_file := name_to_string p]}]> D in
  exists pl c', runs (create_child_layer_files_with_cache debug fuel n p) (D, c) (D', c') (n, pl, child_handles n) /\
    store_ok D' I /\ holds (cached_ok I) c' /\ means p ip pl.
Proof using CacheLaws0 H.
  intros HI Hc Hip Hf Hn Hd D'. destruct (get_layer_spec holds debug D I HI fuel p ip c Hip Hc Hf) as (pl & c' & Hrun & Hc' & Hpl).
  exists pl, c'. split; [|split; [|done]].
  - unfold create_child_layer_files_with_cache. eapply runs_bind; [exact Hrun|]. cbv iota.
    eapply runs_bind with (s1 := (<[n := ∅]> D, c')).
    { unfold runs, on_store, create_directory. cbn [fst snd create_named_directory Disk.store]. unfold Disk.at_name.
      rewrite decide_True by done. by rewrite Hd. }
    eapply runs_bind with (s1 := (D', c')) (a := ()).
    { unfold runs, on_store, write_parent_file. cbn [fst snd].
      erewrite io_bind_Ok by (apply get_file_yields; [done|rewrite lookup_insert_eq; by eexists]).
      cbn [write_all Disk.files fst snd]. rewrite lookup_insert_eq, lookup_empty, insert_insert_eq. unfold D'. by rewrite insert_empty. }
    eapply runs_bind; [apply on_store_runs, child_layer_files_yields; [done|unfold D'; rewrite lookup_insert_eq; by eexists]|apply runs_ret].
  - apply (store_ok_frame D); [|done]. intros x j Hx. unfold D'. rewrite lookup_insert_ne; [done|]. intros <-.
    destruct (HI n j Hx) as [_ [d Hd'] _ _]. congruence.
Qed.

Lemma create_child_runs (D : disk) (I : infos) c n p ip fuel : store_ok D I -> holds (cached_ok I) c -> I !! p = Some ip ->
  (2 * info_depth ip + 1 < fuel)%nat -> name_ok n -> D !! n = None ->
  let D' := <[n := {[parent_file := name_to_string p]}]> D in
  exists pl c' b, runs (create_child_layer_with_cache debug fuel n p) (D, c) (D', c') b /\
    store_ok D' I /\ holds (cached_ok I) c' /\ building_child D' I b p ip pl /\ b = FileLayerBuilder.from_parent n pl (child_handles n).
Proof using CacheLaws0 H.
  intros HI Hc Hip Hf Hn Hd D'. destruct (create_child_files_runs D I c n p ip fuel HI Hc Hip Hf Hn Hd) as (pl & c' & Hrun & HI' & Hc' & Hpl).
  eexists pl, c', _. split; [|split; [done|split; [done|split; [|reflexivity]]]].
  - unfold create_child_layer_with_cache. eapply runs_bind; [exact Hrun|apply runs_ret].
  - unfold building_child. cbn. split; [done|]. split.
    + destruct (I !! n) as [i|] eqn:E; [|done]. destruct (HI n i E) as [_ [d Hd'] _ _]. congruence.
    + split; [|done]. unfold D'. by rewrite lookup_insert_eq.
Qed.
End with_cache.
End growth.
