(* ===== verification/AncestorRollups.v ===== *)
(** * Rollups up to an ancestor, in a store (src/storage/layer.rs and
      src/storage/delta.rs)

    A rollup up to an ancestor is a child of the ancestor with the model of the
    layer.  When no layer on the way is a rollup itself, everything it is made
    of comes from the layers in memory: the walks on disk that stop at the
    ancestor find nothing.  Once it is written and registered, every layer of
    the store means what it did. *)

From stdpp Require Import gmap.
From S2P Require Import Prelude.
From S2P Require Import Words.
From S2P Require Import Codec.
From S2P Require Import Strings.
From S2P Require Import PfcBlocks.
From S2P Require Import PfcDicts.
From S2P Require Import LayerTypes.
From S2P Require Import LayerModel.
From S2P Require Import Triples.
From S2P Require Import TripleBuilder.
From S2P Require Import IdMaps.
From S2P Require Import Iterators.
From S2P Require Import Stacks.
From S2P Require Import InternalLayers.
From S2P Require Import LayerNames.
From S2P Require Import LayerTriples.
From S2P Require Import LayerRefinement.
From S2P Require Import LayerBuilders.
From S2P Require Import BuiltLayers.
From S2P Require Import Rollups.
From S2P Require Import SimpleBuilder.
From S2P Require Import Commits.
From S2P Require Import Names.
From S2P Require Import StoreMonad.
From S2P Require Import FileNames.
From S2P Require Import Files.
From S2P Require Import Directories.
From S2P Require Import DiskStores.
From S2P Require Import StoredLayers.
From S2P Require Import Caches.
From S2P Require Import LayerStores.
From S2P Require Import LayerWrites.
From S2P Require Import LoadedLayers.
From S2P Require Import StoreGrowth.
Open Scope N_scope.

Section upto.
Context `{BytesSize} `{FramedRead} `{Log2F32} `{ParSort} `{RayonSort} (debug : bool).

#[local] Abbreviation store_ok := (store_ok debug).

(** ** The layers in memory and on disk *)

(** The layers, down to the one above [u], are those of the store. *)
Fixpoint linked (I : infos) (xs : list InternalLayer) (u : layer_name) : Prop :=
  match xs with
  | [] => False
  | x :: xs =>
      match xs with
      | [] => parent_in I (Internal.name x) u
      | y :: _ => parent_in I (Internal.name x) (Internal.name y) /\ Internal.name y <> u /\ linked I xs u
      end
  end.

Lemma linked_tc I u xs : forall x, linked I (x :: xs) u -> tc (parent_in I) (Internal.name x) u.
Proof using.
  induction xs as [|y xs IH]; intros x Hl; [by apply tc_once|]. destruct Hl as (Hp & _ & Hl). eapply tc_l; [exact Hp|by apply IH].
Qed.

Lemma parent_unique I n p q : parent_in I n p -> parent_in I n q -> p = q.
Proof using. intros (i & Hi & Hp) (j & Hj & Hq). congruence. Qed.

(** The names above [u] are those of the layers, the last first. *)
Lemma linked_names I u xs : forall x ns, linked I (x :: xs) u -> stack_above I u (Internal.name x) ns ->
  ns = rev (Internal.name <$> x :: xs).
Proof using.
  induction xs as [|y xs IH]; intros x ns Hl Hs.
  - inversion Hs as [? Hp|? p ns' Hp Hne Hs']; subst; [done|]. destruct (Hne (parent_unique _ _ _ _ Hp Hl)).
  - destruct Hl as (Hp & Hne & Hl). inversion Hs as [? Hu|? p ns' Hp' Hne' Hs']; subst.
    + destruct (Hne (parent_unique _ _ _ _ Hp Hu)).
    + rewrite <- (parent_unique _ _ _ _ Hp Hp') in Hs'. by rewrite (IH y ns' Hl Hs').
Qed.

Lemma linked_names_ne I u xs : forall x, linked I (x :: xs) u -> Forall (fun y => Internal.name y <> u) xs.
Proof using.
  induction xs as [|y xs IH]; intros x Hl; [constructor|]. destruct Hl as (_ & Hne & Hl). constructor; [done|by apply (IH y)].
Qed.

(** The bound is the ancestor itself. *)
Lemma safe_bound_spec pl rest ls extra : NoDup (Internal.name <$> ls) -> Forall (fun y => Internal.name y <> Internal.name pl) ls ->
  forall l, safe_bound_loop l (ls ++ pl :: rest) (Internal.name pl) (rev (Internal.name <$> ls) ++ extra) = Internal.name pl.
Proof using.
  revert extra. induction ls as [|y ls IH]; intros extra Hnd Hne l; cbn [app safe_bound_loop].
  - by rewrite decide_True.
  - apply NoDup_cons in Hnd as [Hy Hnd]. apply Forall_cons in Hne as [Hyu Hne]. rewrite decide_False by done.
    set (ns := rev (Internal.name <$> ls)). change (rev (Internal.name <$> y :: ls)) with (ns ++ [Internal.name y]).
    assert (Hf : list_find (fun n => n = Internal.name y) ((ns ++ [Internal.name y]) ++ extra) = Some (length ns, Internal.name y)).
    { apply list_find_Some. rewrite <- app_assoc, lookup_app_r, Nat.sub_diag by done. split; [done|]. split; [done|].
      intros j z Hz Hj Ez. rewrite lookup_app_l in Hz by done. apply list_elem_of_lookup_2 in Hz. subst z.
      apply Hy. unfold ns in Hz. by rewrite list_elem_of_In, <- in_rev, <- list_elem_of_In in Hz. }
    rewrite Hf, <- app_assoc, take_app_length. rewrite <- (app_nil_r ns). by apply IH.
Qed.

Lemma safe_bound_runs (D : disk) I fuel n i l u pl ls rest : store_ok D I -> I !! n = Some i -> Internal.name l = n ->
  Internal.parents_of l = ls ++ pl :: rest -> Internal.name pl = u -> linked I (l :: ls) u -> (info_depth i < fuel)%nat ->
  yields (safe_upto_bound_from_disk fuel l u) D u.
Proof using.
  intros HI Hi Hn Hpar Hu Hl Hf. pose proof (linked_tc _ _ _ _ Hl) as Htc. rewrite Hn in Htc. unfold safe_upto_bound_from_disk.
  rewrite decide_False, Hn by (rewrite Hn; intros ->; apply (ancestor_irreflexive debug D I HI u); [congruence|done]).
  destruct (stack_names_upto_spec debug D I HI fuel u n i [] Hi Hf) as [(ns & Hy & Hs)|[_ Hno]]; [|done]. rewrite app_nil_r in Hy.
  rewrite <- Hn in Hs. apply (linked_names _ _ _ _ _ Hl) in Hs as E.
  destruct (stack_above_nodup debug D I HI _ _ _ Hs) as [Hnd _]. rewrite E in Hnd.
  change (rev (Internal.name <$> l :: ls)) with (rev (Internal.name <$> ls) ++ [Internal.name l]) in *.
  apply NoDup_app in Hnd as [Hnd _]. rewrite <- (Permutation_rev (Internal.name <$> ls)) in Hnd.
  eapply yields_bind; [exact Hy|]. rewrite Hpar, E, <- Hu, safe_bound_spec; [done|done|]. rewrite Hu. by apply (linked_names_ne I u ls l).
Qed.

(** ** What is written *)

Lemma nothing_from_disk {A : Type} (D : disk) (fuel : nat) (u : layer_name) (get : layer_name -> io disk (option A)) : (0 < fuel)%nat -> yields (from_disk fuel u u get) D [].
Proof using.
  intros Hf. destruct fuel as [|fuel]; [lia|]. unfold from_disk. cbn [walk_backwards_from_disk_upto]. by rewrite decide_True.
Qed.

Lemma no_changes_from_disk (D : disk) fuel u : (0 < fuel)%nat ->
  yields (layer_changes_upto debug fuel u u) D (InternalTripleStackIterator.from_parts [] []).
Proof using.
  intros Hf. destruct fuel as [|fuel]; [lia|]. unfold layer_changes_upto. cbn [walk_backwards_from_disk_upto]. by rewrite decide_True.
Qed.

(** With nothing read from disk, the dictionaries are those of the layers in
    memory. *)
Lemma dictionaries_from_memory (D : disk) fuel l u d : (0 < fuel)%nat -> memory_dictionary_rollup_upto debug l u = Ok d ->
  yields (dictionary_rollup_upto debug fuel l u u) D d.
Proof using.
  intros Hf Hd. unfold memory_dictionary_rollup_upto, memory_construct_idmaps_upto in Hd.
  destruct (Internal.immediate_layers_upto l u) as [layers|] eqn:El; [|done]. cbn [or_panic] in Hd. rewrite !bind_Ok_eq in Hd.
  apply outcome_bind_inv in Hd as ([[nodes predicates] values] & Hm & Hd). unfold merge_layer_dictionaries in Hm.
  apply outcome_bind_inv in Hm as (nodes' & Hnodes & Hm). apply outcome_bind_inv in Hm as (predicates' & Hpreds & Hm).
  apply outcome_bind_inv in Hm as (values' & Hvals & [= -> -> ->]). apply outcome_bind_inv in Hd as ([nv p] & Hc & [= <-]).
  unfold construct_idmaps_from_layers in Hc. unfold dictionary_rollup_upto, get_node_dicts_from_disk, get_predicate_dicts_from_disk,
    get_value_dicts_from_disk, get_node_value_idmaps_from_disk, get_predicate_idmaps_from_disk.
  do 5 (eapply yields_bind; [by apply nothing_from_disk|]). eapply yields_bind; [unfold yields, io_opt; by rewrite El|]. cbn [app].
  eapply yields_bind; [by apply yields_lift|]. eapply yields_bind; [by apply yields_lift|]. eapply yields_bind; [by apply yields_lift|].
  by eapply yields_bind; [by apply yields_lift|].
Qed.

(** The iterators count their triples as the layers do. *)
Lemma iterators_fuel_stack ls :
  change_fuel ls = iterators_fuel (mk_stack (Internal.internal_triple_additions <$> ls) (Internal.internal_triple_removals <$> ls)).
Proof using.
  unfold change_fuel, iterators_fuel. cbn [positives negatives]. rewrite <- !list_fmap_compose. do 3 f_equal. apply list_fmap_ext.
  intros _ x _. unfold compose, Internal.removal_fuel, Internal.internal_triple_removals.
  induction x as [base|child _|rollup IH] using layer_induction; [done|done|exact IH].
Qed.

Lemma delta_rollup_upto_runs (D D' : disk) fuel l u m mp pl ls rest files maps : implements l m -> implements pl mp ->
  Internal.parents_of l = ls ++ pl :: rest -> Internal.name pl = u -> Forall (fun x => Internal.name x <> u) ls -> (0 < fuel)%nat ->
  yields (safe_upto_bound_from_disk fuel l u) D u -> rollup_from_bound debug l u = Ok maps ->
  runs (ChildLayerFiles.write files maps) D D' () -> runs (delta_rollup_upto debug fuel l u files) D D' ().
Proof using.
  intros Hm Hp Hpar Hu Hls Hf Hbound Hmaps Hw. subst u. destruct (rollup_changes l pl m mp ls rest Hm Hp Hpar Hls) as (st & Hst & Est & Hchanges).
  unfold rollup_from_bound in Hmaps. apply outcome_bind_inv in Hmaps as (d & Hd & Hmaps).
  apply outcome_bind_inv in Hmaps as (counts & Hcounts & Hmaps). apply outcome_bind_inv in Hmaps as (builders & Hb & Hmaps).
  rewrite Hst in Hmaps. cbn [unwrap or_panic] in Hmaps. rewrite bind_Ok_eq in Hmaps.
  destruct (Hchanges (changes_fuel l)) as [Ha Hr]; [unfold changes_fuel; rewrite Internal.stack_of_cons, Hpar, app_comm_cons; apply change_fuel_app|].
  rewrite Ha, Hr in Hmaps. cbn [or_panic] in Hmaps. rewrite !bind_Ok_eq in Hmaps.
  unfold delta_rollup_upto. eapply runs_bind; [exact Hbound|]. eapply runs_bind; [by apply dictionaries_from_memory|].
  destruct (all_counts l) as [c|] eqn:Ec; [|done]. injection Hcounts as ->.
  eapply runs_bind; [by apply runs_opt|]. eapply runs_bind; [by apply yields_lift|]. eapply runs_bind; [by apply no_changes_from_disk|].
  eapply runs_bind; [apply runs_opt; by rewrite Hst|].
  assert (Emerge : InternalTripleStackIterator.merge [InternalTripleStackIterator.from_parts [] []; st] = st).
  { unfold InternalTripleStackIterator.merge. cbn. rewrite !app_nil_r. by destruct st. }
  rewrite Emerge. cbv zeta. destruct (Hchanges (iterators_fuel st)) as [Ha' Hr']; [rewrite Est; by rewrite iterators_fuel_stack|].
  eapply runs_bind; [by apply runs_opt|]. eapply runs_bind; [by apply runs_opt|]. eapply runs_bind; [by apply yields_lift|exact Hw].
Qed.

(** ** The rollup in the store *)

(** Every layer of the store loads, so its model is one. *)
Lemma model_stored_ok (D : disk) (I : infos) n i : store_ok D I -> I !! n = Some i -> model_ok (info_model i).
Proof using H H0 H2.
  intros HI Hi. destruct (get_layer_spec (fun _ _ => True) debug D I HI (2 * info_depth i + 2) n i (() : NoCache.t) Hi Logic.I ltac:(lia))
    as (l & _ & _ & _ & Hl). eapply model_law, within_implements, means_model, Hl.
Qed.

Lemma added_triples_chain (m1 m2 m3 : layer_model) : model_ok m1 ->
  lenN (added_triples m1 m3) <= lenN (added_triples m1 m2) + lenN (added_triples m2 m3).
Proof using.
  intros Hok. rewrite <- lenN_app. unfold lenN. enough (length (added_triples m1 m3) <= length (added_triples m1 m2 ++ added_triples m2 m3))%nat by lia.
  apply submseteq_length, NoDup_submseteq; [by apply NoDup_filter, sorted_nodup, triples_sorted|]. unfold added_triples.
  intros t. rewrite elem_of_app, !list_elem_of_filter. destruct (decide (t ∈ model_triples m2)); tauto.
Qed.

Lemma ancestor_bound (D : disk) (I : infos) n u i iu : store_ok D I -> tc (parent_in I) n u -> I !! n = Some i -> I !! u = Some iu ->
  info_bound iu + lenN (added_triples (info_model i) (info_model iu)) <= info_bound i.
Proof using H H0 H2.
  intros HI Ht. revert i. induction Ht as [n u Hp|n p u Hp _ IH]; intros i Hi Hu;
    destruct (parent_in_info debug D I HI _ _ Hp) as (i' & ip & Hi' & _ & Hip & _ & Hb); assert (i' = i) as -> by congruence.
  - by assert (ip = iu) as -> by congruence.
  - specialize (IH ip Hip Hu).
    pose proof (added_triples_chain (info_model i) (info_model ip) (info_model iu) (model_stored_ok D I n i HI Hi)). lia.
Qed.

(** What a rollup of [l] up to [u] needs: the layers of the store are in
    memory down to [u], none of them is a rollup, and what is merged and
    counted fits. *)
Record ancestor_input (D : disk) (I : infos) (l : InternalLayer) (i : layer_info) (u : layer_name) (iu : layer_info) (M : N) : Prop := {
  ancestor_stack : exists pl ls rest, Internal.parents_of l = ls ++ pl :: rest /\ means u iu pl /\ linked I (l :: ls) u /\ Forall no_maps (l :: ls);
  ancestor_fits : upto_input (info_model i) (info_model iu) M;
  ancestor_count : info_bound i < 2 ^ 64;
  ancestor_rollup r ir : Disk.lookup_file D (Internal.name l, rollup_file) = Some (rollup_contents r) -> I !! r = Some ir -> is_Some (info_parent ir)
}.

Section with_cache.
Context {C : Type} `{LayerCache C} (holds : (layer_name -> InternalLayer -> Prop) -> C -> Prop) `{!CacheLaws C holds}.

Definition info_of_rollup (i : layer_info) (u : layer_name) (iu : layer_info) : layer_info :=
  mk_info (info_model i) (info_bound iu + lenN (added_triples (info_model i) (info_model iu))) (Some u) (S (info_depth iu)).

(** Writing a new rollup. *)
Lemma new_ancestor_rollup_runs (D : disk) (I : infos) (c : C) n i l u iu (random : layer_name) (fuel : nat) M : store_ok D I -> holds (cached_ok I) c ->
  I !! n = Some i -> means n i l -> I !! u = Some iu -> ancestor_input D I l i u iu M ->
  (2 * info_depth i + 1 < fuel)%nat -> name_ok random -> D !! random = None ->
  exists D' c', runs ('(layer_dir, _, child_layer_files) ← create_child_layer_files_with_cache debug fuel random u;
      _ ← on_store (delta_rollup_upto debug fuel l u child_layer_files); mret layer_dir) (D, c) (D', c') random /\
    let I' := <[random := info_of_rollup i u iu]> I in
    store_ok D' I' /\ holds (cached_ok I') c' /\ Disk.lookup_file D' (random, rollup_file) = None /\ forall x, x <> random -> D' !! x = D !! x.
Proof using CacheLaws0.
  intros HI Hc Hi Hl Hu [(pl & ls & rest & Hpar & Hpl & Hlinked & Hno) Hfits Hcount _] Hf Hr Hd.
  pose proof (linked_tc _ _ _ _ Hlinked) as Htc. rewrite (means_name _ _ _ Hl) in Htc.
  pose proof (ancestor_depth debug D I HI n u i iu Htc Hi Hu) as Hdepth. pose proof (ancestor_bound D I n u i iu HI Htc Hi Hu) as Hbound.
  pose proof (within_implements _ _ _ (means_model _ _ _ Hl)) as Hm. pose proof (within_implements _ _ _ (means_model _ _ _ Hpl)) as Hpm.
  pose proof (means_name _ _ _ Hpl) as Hpn. pose proof (linked_names_ne I u ls l Hlinked) as Hne.
  assert (Hnu : Internal.name l <> u).
  { rewrite (means_name _ _ _ Hl). intros ->. apply (ancestor_irreflexive debug D I HI u); [congruence|done]. }
  destruct (create_child_files_runs debug holds D I c random u iu fuel HI Hc Hu ltac:(lia) Hr Hd) as (pl' & c' & Hcreate & HI1 & Hc' & _).
  set (D1 := <[random := {[parent_file := name_to_string u]}]> D) in *.
  destruct (rollup_upto_built_on debug l (info_model i) pl (info_model iu) ls rest M Hm Hpm Hpar) as (maps & Hmaps & Hloads);
    [rewrite Hpn; by constructor|done|done|]. rewrite Hpn in Hmaps.
  destruct (child_files_written D1 random u maps) as (D' & Hw & Hm1 & Hm2 & Hm3 & Hm4 & Hother); [apply lookup_insert_eq|].
  assert (Hir : I !! random = None).
  { destruct (I !! random) as [j|] eqn:E; [|done]. destruct (HI random j E) as [_ [d Hd'] _ _]. congruence. }
  exists D', c'. split; [|split; [|split; [|split; [done|]]]].
  - eapply runs_bind; [exact Hcreate|]. cbv iota. eapply runs_bind; [|apply runs_ret]. apply on_store_steps.
    eapply delta_rollup_upto_runs; [exact Hm|exact Hpm|exact Hpar|exact Hpn|exact Hne|lia| |exact Hmaps|exact Hw].
    eapply (safe_bound_runs D1 I fuel n i l u pl ls rest); [exact HI1|exact Hi|apply Hl|exact Hpar|exact Hpn|exact Hlinked|lia].
  - apply (child_layer_added debug D1 D' I random u iu maps); [done..|reflexivity|]. apply Hloads. lia.
  - by apply (cached_grows holds debug D I HI); [apply insert_subseteq|].
  - intros x Hx. rewrite Hother by done. unfold D1. by rewrite lookup_insert_ne.
Qed.

(** Performing a rollup up to [u] gives the layer itself, when [u] is its
    parent, or a child of [u] that is a rollup of the layer: one that there
    was, or a new one. *)
Lemma perform_upto_runs (D : disk) (I : infos) (c : C) n i l u iu (random : layer_name) (fuel : nat) M : store_ok D I -> holds (cached_ok I) c ->
  I !! n = Some i -> means n i l -> I !! u = Some iu -> ancestor_input D I l i u iu M ->
  (2 * info_depth i + 1 < fuel)%nat -> name_ok random -> D !! random = None ->
  exists D' I' c' r, runs (perform_rollup_upto_with_cache debug fuel random l u) (D, c) (D', c') r /\
    store_ok D' I' /\ holds (cached_ok I') c' /\ I ⊆ I' /\ (forall x j, I !! x = Some j -> D' !! x = D !! x) /\
    (forall x j, I' !! x = Some j -> I !! x = Some j \/ Disk.lookup_file D' (x, rollup_file) = None) /\
    if decide (info_parent i = Some u) then r = n else exists ir, rollup_of D' I' n i r ir /\ info_parent ir = Some u.
Proof using CacheLaws0.
  intros HI Hc Hi Hl Hu Hin Hf Hr Hd. pose proof Hin as [(pl & ls & rest & Hpar & Hpl & Hlinked & _) _ _ Hold].
  pose proof (linked_tc _ _ _ _ Hlinked) as Htc. rewrite (means_name _ _ _ Hl) in Htc, Hold.
  unfold perform_rollup_upto_with_cache, rollup_to_ancestor. rewrite (means_name _ _ _ Hl), (means_parent _ _ _ Hl).
  rewrite decide_False by (intros ->; apply (ancestor_irreflexive debug D I HI u); [congruence|done]).
  destruct (decide (info_parent i = Some u)) as [Ep|Hne].
  { exists D, I, c, n. split; [done|]. split; [done|]. split; [done|]. split; [done|]. split; [done|]. split; [by auto|done]. }
  destruct (new_ancestor_rollup_runs D I c n i l u iu random fuel M HI Hc Hi Hl Hu Hin Hf Hr Hd) as (D1 & c1 & Hnew & HI1 & Hc1 & Hplain & Hother).
  assert (Hir : I !! random = None).
  { destruct (I !! random) as [j|] eqn:E; [|done]. destruct (HI random j E) as [_ [d Hd'] _ _]. congruence. }
  assert (Hnewly : forall (m : io (disk * C) layer_name), runs m (D, c) (D1, c1) random -> exists D' I' c' r, runs m (D, c) (D', c') r /\
    store_ok D' I' /\ holds (cached_ok I') c' /\ I ⊆ I' /\ (forall x j, I !! x = Some j -> D' !! x = D !! x) /\
    (forall x j, I' !! x = Some j -> I !! x = Some j \/ Disk.lookup_file D' (x, rollup_file) = None) /\
    exists ir, rollup_of D' I' n i r ir /\ info_parent ir = Some u).
  { intros m Hm. exists D1, (<[random := info_of_rollup i u iu]> I), c1, random. split; [exact Hm|]. split; [exact HI1|]. split; [exact Hc1|].
    split; [by apply insert_subseteq|]. split; [intros x j Hx; apply Hother; congruence|]. split.
    - intros x j [[<- _]|[_ Hx]]%lookup_insert_Some; [by right|by left].
    - exists (info_of_rollup i u iu). split; [|done]. split; [by rewrite lookup_insert_eq|congruence|done| | |done].
      + exact (ancestor_bound D I n u i iu HI Htc Hi Hu).
      + exact (ancestor_depth debug D I HI n u i iu Htc Hi Hu). }
  destruct (HI n i Hi) as [_ _ _ [Hroll|(r & ir & Hfile & Hro)]].
  - apply Hnewly. eapply runs_bind; [by apply on_store_runs; eapply no_rollup_stored|]. exact Hnew.
  - destruct (rollup_stored debug D I HI n i r ir Hi Hfile Hro) as [Hy1 Hy2]. pose proof (rollup_info _ _ _ _ _ _ Hro) as Hri.
    destruct (Hold r ir Hfile Hri) as [q Hq]. destruct (HI r ir Hri) as [Hrn Hrd Hrf _]. unfold files_stored in Hrf. rewrite Hq in Hrf.
    destruct Hrf as (Hpf & iq & _ & Hiq & _). destruct (HI q iq Hiq) as [Hqn _ _ _].
    assert (Hread : forall m' : io (disk * C) layer_name, forall s a, runs (if decide (u = q) then mret r else m') (D, c) s a ->
      runs (has_rollup ← on_store (layer_has_rollup n);
        if has_rollup : bool then
          rollup ← on_store (read_rollup_file n);
          rollup_parent ← on_store (read_parent_file rollup);
          if decide (u = rollup_parent) then mret rollup else m'
        else m') (D, c) s a).
    { intros m' s a Hm'. eapply runs_bind; [by apply on_store_runs|]. cbv iota. eapply runs_bind; [by apply on_store_runs|].
      eapply runs_bind; [apply on_store_runs; by apply read_parent_yields|exact Hm']. }
    destruct (decide (u = q)) as [->|Hqu].
    + exists D, I, c, r. split; [by apply Hread|]. split; [done|]. split; [done|]. split; [done|]. split; [done|].
      split; [by auto|]. by exists ir.
    + apply Hnewly, Hread. exact Hnew.
Qed.

(** Registering what was performed. *)
Lemma register_upto_runs (D : disk) (I : infos) (n : layer_name) (i : layer_info) (r : layer_name) (D1 : disk) (I1 : infos) (u : layer_name) : I !! n = Some i ->
  not_a_rollup D I n -> store_ok D1 I1 -> I ⊆ I1 ->
  (forall x j, I !! x = Some j -> D1 !! x = D !! x) ->
  (forall x j, I1 !! x = Some j -> I !! x = Some j \/ Disk.lookup_file D1 (x, rollup_file) = None) ->
  (if decide (info_parent i = Some u) then r = n else exists ir, rollup_of D1 I1 n i r ir /\ info_parent ir = Some u) ->
  exists D2, runs (register_rollup n r) D1 D2 () /\ store_ok D2 I1 /\
    if decide (info_parent i = Some u) then r = n
    else exists ir, I1 !! r = Some ir /\ info_parent ir = Some u /\ info_model ir = info_model i /\
      Disk.lookup_file D2 (n, rollup_file) = Some (rollup_contents r).
Proof using.
  intros Hi Hnot HI1 Hsub Hsame Hnew Hcase. destruct (decide (info_parent i = Some u)) as [_|_].
  - subst r. exists D1. split; [|done]. unfold register_rollup. rewrite decide_True by done. apply runs_ret.
  - destruct Hcase as (ir & Hro & Hpar). assert (Hi1 : I1 !! n = Some i) by by eapply lookup_weaken.
    destruct (register_runs debug D1 I1 n i r ir HI1 Hi1 Hro) as (D2 & Hreg & HI2 & ->).
    { intros x j Hx. destruct (Hnew x j Hx) as [Hx'|Hx']; [|congruence]. rewrite (lookup_file_same D D1) by by eapply Hsame. by apply (Hnot x j). }
    eexists. split; [exact Hreg|]. split; [exact HI2|]. exists ir. split; [apply Hro|]. split; [exact Hpar|]. split; [apply Hro|].
    apply lookup_put_file. cbn. by destruct (HI1 n i Hi1).
Qed.
End with_cache.
End upto.
