(* ===== verification/StoreViews.v ===== *)
(** * The layer stores show the disk

    Everything that LayerStores and LayerWrites do on a store that satisfies
    [DiskLaws] with a cache, they do on the disk the store shows with the same
    cache.  So what LoadedLayers and StoreGrowth prove on the disk holds of
    the store in memory and of the store in a directory. *)

From stdpp Require Import gmap.
From S2P Require Import Prelude.
From S2P Require Import Words.
From S2P Require Import Codec.
From S2P Require Import Strings.
From S2P Require Import LayerTypes.
From S2P Require Import Triples.
From S2P Require Import IdMaps.
From S2P Require Import TripleBuilder.
From S2P Require Import PfcBlocks.
From S2P Require Import PfcDicts.
From S2P Require Import Iterators.
From S2P Require Import Stacks.
From S2P Require Import InternalLayers.
From S2P Require Import LayerTriples.
From S2P Require Import LayerRefinement.
From S2P Require Import LayerBuilders.
From S2P Require Import Rollups.
From S2P Require Import SimpleBuilder.
From S2P Require Import Names.
From S2P Require Import StoreMonad.
From S2P Require Import FileNames.
From S2P Require Import Files.
From S2P Require Import Directories.
From S2P Require Import DiskStores.
From S2P Require Import StoreRefinement.
From S2P Require Import Caches.
From S2P Require Import LayerStores.
From S2P Require Import LayerWrites.
Open Scope N_scope.

(** The store and its disk, with one cache. *)
Definition with_cache {S S' C : Type} (shows : S -> S' -> Prop) (sc : S * C) (Dc : S' * C) : Prop :=
  shows sc.1 Dc.1 /\ sc.2 = Dc.2.
Definition on_stores {S C : Type} (ext : S -> S -> Prop) (sc sc1 : S * C) : Prop := ext sc.1 sc1.1.
Definition at_store {S C A A' : Type} (R : S -> A -> A' -> Prop) (sc : S * C) : A -> A' -> Prop := R sc.1.

#[export] Instance on_stores_preorder {S C} (ext : S -> S -> Prop) : PreOrder ext -> PreOrder (@on_stores S C ext).
Proof.
  intros [Hr Ht]. split; [by intros sc; apply Hr|]. intros x y z H1 H2. unfold on_stores in *. by etransitivity.
Qed.

(** The outcome on the disk is the outcome on the store. *)
Lemma refines_runs {S S' A A'} (shows : S -> S' -> Prop) ext (R : S -> A -> A' -> Prop) m m' s s' s1' a' :
  refines shows ext R m m' s s' -> runs m' s' s1' a' -> exists s1 a, runs m s s1 a /\ shows s1 s1' /\ ext s s1 /\ R s1 a a'.
Proof. unfold refines, runs. intros H E. by rewrite E in H. Qed.

Lemma refines_fails {S S' A A'} (shows : S -> S' -> Prop) ext (R : S -> A -> A' -> Prop) m m' s s' s1' e :
  refines shows ext R m m' s s' -> m' s' = (s1', Err e) -> exists s1, m s = (s1, Err e) /\ shows s1 s1' /\ ext s s1.
Proof. unfold refines. intros H E. by rewrite E in H. Qed.

Section views.
Context {S F C : Type} `{Hstore : PersistentLayerStore S F} {shows ext denotes} `{!DiskLaws S F shows ext denotes}.
Context `{LayerCache C} `{BytesSize} `{FramedRead} `{Log2F32} `{ParSort} `{RayonSort} (debug : bool).

#[local] Abbreviation refines_ := (refines shows ext).
#[local] Abbreviation refines2 := (refines (with_cache (C := C) shows) (on_stores ext)).

(** *** Steps of the store and of the cache *)

Lemma on_store_refines {A A'} (R : S -> A -> A' -> Prop) m m' sc Dc : with_cache shows sc Dc ->
  (shows sc.1 Dc.1 -> refines_ R m m' sc.1 Dc.1) -> refines2 (at_store R) (on_store m) (on_store m') sc Dc.
Proof.
  intros [Hs Hc] Hm. specialize (Hm Hs). unfold refines, on_store in *. destruct sc as [s c], Dc as [D c']. cbn [fst snd] in *. subst c'.
  destruct (m' D) as [D1 [a'|e|]]; [| |done].
  - destruct Hm as (s1 & a & -> & Hs1 & He & HR). by exists (s1, c), a.
  - destruct Hm as (s1 & -> & Hs1 & He). by exists (s1, c).
Qed.

Lemma on_store_same {A} (m m' : io _ A) sc Dc : with_cache shows sc Dc ->
  (shows sc.1 Dc.1 -> refines_ same m m' sc.1 Dc.1) -> refines2 same (on_store m) (on_store m') sc Dc.
Proof. apply (on_store_refines same). Qed.

Lemma on_cache_refines {A} (f : C -> C * A) sc Dc : with_cache shows sc Dc ->
  refines2 same (on_cache f) (on_cache f) sc Dc.
Proof using DiskLaws0.
  intros [Hs Hc]. unfold refines, on_cache. destruct sc as [s c], Dc as [D c']. cbn [fst snd] in *. subst c'.
  destruct (f c) as [c1 a]. exists (s, c1), a. split_and!; try done. unfold on_stores. cbn. reflexivity.
Qed.

Lemma from_cache_refines name sc Dc : with_cache shows sc Dc -> refines2 same (from_cache name) (from_cache name) sc Dc.
Proof using DiskLaws0. apply on_cache_refines. Qed.
Lemma to_cache_refines l sc Dc : with_cache shows sc Dc -> refines2 same (to_cache l) (to_cache l) sc Dc.
Proof using DiskLaws0. apply on_cache_refines. Qed.
#[local] Hint Resolve on_store_same on_cache_refines from_cache_refines to_cache_refines : refine_db.

Lemma io_opt_refines {T T' A} (sh : T -> T' -> Prop) (ex : T -> T -> Prop) `{!PreOrder ex} (m : option A) s D : sh s D ->
  refines sh ex same (io_opt m) (io_opt m) s D.
Proof using Type. intros Hs. apply refines_opt; [apply _|done|]. intros a E. by exists a. Qed.
#[local] Hint Extern 1 (refines _ _ _ (io_opt ?m) (io_opt ?m) _ _) => (apply io_opt_refines; [apply _|assumption]) : refine_db.
#[local] Hint Extern 1 (refines _ _ _ (io_lift ?m) (io_lift ?m) _ _) => (apply refines_lift; [apply _|assumption]) : refine_db.
#[local] Hint Extern 1 (refines _ _ _ io_panic io_panic _ _) => exact I : refine_db.

(** A bind whose first step is made of steps, with a plain result. *)
#[local] Ltac nested := eapply refines_bind with (R := same); [apply _| |refine_next].

(** *** Loading *)

Lemma load_base_refines name s D : shows s D -> refines_ same (load_base_files debug name) (load_base_files debug name) s D.
Proof using DiskLaws0. intros Hs. unfold load_base_files. follow. Qed.

Lemma load_child_refines name parent s D : shows s D ->
  refines_ same (load_child_files debug name parent) (load_child_files debug name parent) s D.
Proof using DiskLaws0. intros Hs. unfold load_child_files. follow. Qed.

Lemma parent_of_refines name s D : shows s D -> refines_ same (parent_of name) (parent_of name) s D.
Proof using DiskLaws0. intros Hs. unfold parent_of. follow. Qed.
#[local] Hint Resolve load_base_refines load_child_refines parent_of_refines : refine_db.

Lemma find_ancestor_refines fuel : forall last es sc Dc, with_cache shows sc Dc ->
  refines2 same (find_ancestor fuel last es) (find_ancestor fuel last es) sc Dc.
Proof using DiskLaws0.
  induction fuel as [|fuel IH]; intros last es sc Dc Hs; cbn [find_ancestor]; [done|]. follow.
Qed.
#[local] Hint Resolve find_ancestor_refines : refine_db.

Lemma load_bottom_refines e sc Dc : with_cache shows sc Dc -> refines2 same (load_bottom debug e) (load_bottom debug e) sc Dc.
Proof using DiskLaws0. intros Hs. unfold load_bottom. destruct e as [o [[r op]|]]; nested; follow. Qed.

Lemma load_entry_refines l e sc Dc : with_cache shows sc Dc -> refines2 same (load_entry debug l e) (load_entry debug l e) sc Dc.
Proof using DiskLaws0. intros Hs. unfold load_entry. destruct e as [o [[r op]|]]; nested; follow. Qed.
#[local] Hint Resolve load_bottom_refines load_entry_refines : refine_db.

Lemma load_above_refines es : forall l sc Dc, with_cache shows sc Dc ->
  refines2 same (load_above debug l es) (load_above debug l es) sc Dc.
Proof using DiskLaws0. induction es as [|e es IH]; intros l sc Dc Hs; cbn [load_above]; follow. Qed.
#[local] Hint Resolve load_above_refines : refine_db.

Lemma get_layer_refines fuel name sc Dc : with_cache shows sc Dc ->
  refines2 same (get_layer_with_cache debug fuel name) (get_layer_with_cache debug fuel name) sc Dc.
Proof using DiskLaws0. intros Hs. unfold get_layer_with_cache. follow. nested; follow. Qed.
#[local] Hint Resolve get_layer_refines : refine_db.

(** *** Walks *)

Lemma stack_names_refines fuel : forall name result s D, shows s D ->
  refines_ same (stack_names_loop fuel name result) (stack_names_loop fuel name result) s D.
Proof using DiskLaws0. induction fuel as [|fuel IH]; intros name result s D Hs; cbn [stack_names_loop]; [done|]. follow. Qed.

Lemma stack_names_upto_refines fuel : forall name upto result s D, shows s D ->
  refines_ same (stack_names_upto_loop fuel name upto result) (stack_names_upto_loop fuel name upto result) s D.
Proof using DiskLaws0. induction fuel as [|fuel IH]; intros name upto result s D Hs; cbn [stack_names_upto_loop]; [done|]. follow. Qed.

Lemma is_ancestor_refines fuel : forall n a s D, shows s D ->
  refines_ same (layer_is_ancestor_of fuel n a) (layer_is_ancestor_of fuel n a) s D.
Proof using DiskLaws0. induction fuel as [|fuel IH]; intros n a s D Hs; cbn [layer_is_ancestor_of]; [done|]. follow. Qed.

Lemma of_layer_refines {A} name (m m' : io _ A) s D : shows s D -> (forall s D, shows s D -> refines_ same m m' s D) ->
  refines_ same (of_layer name m) (of_layer name m') s D.
Proof using DiskLaws0. intros Hs Hm. unfold of_layer. follow. Qed.

Lemma get_layer_parent_name_refines name s D : shows s D ->
  refines_ same (get_layer_parent_name name) (get_layer_parent_name name) s D.
Proof using DiskLaws0. intros Hs. unfold get_layer_parent_name. apply of_layer_refines; [done|]. intros; follow. Qed.
#[local] Hint Resolve stack_names_refines stack_names_upto_refines is_ancestor_refines get_layer_parent_name_refines : refine_db.

(** *** Creating and committing *)

(** Builders with handles of the same files. *)
Definition all_layer_files (s : S) (x : LayerFiles.t F) (y : LayerFiles.t (layer_name * filename)) : Prop :=
  match x, y with
  | LayerFiles.Base b, LayerFiles.Base b' => all_base (denotes s) b b'
  | LayerFiles.Child c, LayerFiles.Child c' => all_child (denotes s) c c'
  | _, _ => False
  end.
Definition same_builder (s : S) (x : FileLayerBuilder.t F) (y : FileLayerBuilder.t (layer_name * filename)) : Prop :=
  FileLayerBuilder.builder x = FileLayerBuilder.builder y /\ all_layer_files s (FileLayerBuilder.files x) (FileLayerBuilder.files y).

Lemma create_base_refines random s D : shows s D ->
  refines_ same_builder (create_base_layer random) (create_base_layer random) s D.
Proof using DiskLaws0. intros Hs. unfold create_base_layer. follow. by split. Qed.

Lemma commit_refines b b' s D : shows s D -> same_builder s b b' ->
  refines_ same (FileLayerBuilder.commit b) (FileLayerBuilder.commit b') s D.
Proof using DiskLaws0.
  intros Hs [Eb Hf]. unfold FileLayerBuilder.commit. rewrite Eb.
  destruct (FileLayerBuilder.files b) as [f|f], (FileLayerBuilder.files b') as [f'|f']; try done; cbn [all_layer_files] in Hf.
  - eapply refines_bind; [apply _|refine_leaf|]. refine_next. destruct a; [|done]. by apply (base_write_refines f f').
  - eapply refines_bind; [apply _|refine_leaf|]. refine_next. destruct a; [done|]. by apply (child_write_refines f f').
Qed.


Lemma create_child_files_refines fuel random parent sc Dc : with_cache shows sc Dc ->
  refines2 (fun sc x y => x.1 = y.1 /\ all_child (denotes sc.1) x.2 y.2)
    (create_child_layer_files_with_cache debug fuel random parent)
    (create_child_layer_files_with_cache debug fuel random parent) sc Dc.
Proof using DiskLaws0.
  intros Hs. unfold create_child_layer_files_with_cache. refine_step. destruct a as [parent_layer|]; [|follow]. refine_step. refine_step.
  eapply refines_bind; [apply _|eapply on_store_refines; [done|by apply child_layer_files_refines]|].
  intros sc1 Dc1 x x' Hx Hsc HR. follow.
Qed.

Lemma create_child_refines fuel random parent sc Dc : with_cache shows sc Dc ->
  refines2 (fun sc => same_builder sc.1)
    (create_child_layer_with_cache debug fuel random parent) (create_child_layer_with_cache debug fuel random parent) sc Dc.
Proof using DiskLaws0.
  intros Hs. unfold create_child_layer_with_cache. eapply refines_bind; [apply _|by apply create_child_files_refines|].
  intros sc1 Dc1 [[d l] f] [[d' l'] f'] He Hs1 [[= -> ->] Hf]. follow. by split.
Qed.

(** *** Rolling up *)

Lemma delta_rollup_files_refines layer f f' s D : shows s D -> all_base (denotes s) f f' ->
  refines_ same (delta_rollup_files debug layer f) (delta_rollup_files debug layer f') s D.
Proof using DiskLaws0. intros Hs Hf. unfold delta_rollup_files. follow. Qed.
#[local] Hint Resolve delta_rollup_files_refines : refine_db.

Lemma perform_rollup_refines random layer s D : shows s D ->
  refines_ same (perform_rollup debug random layer) (perform_rollup debug random layer) s D.
Proof using DiskLaws0. intros Hs. unfold perform_rollup. follow. Qed.
#[local] Hint Resolve perform_rollup_refines : refine_db.

Lemma register_rollup_refines layer r s D : shows s D -> refines_ same (register_rollup layer r) (register_rollup layer r) s D.
Proof using DiskLaws0. intros Hs. unfold register_rollup. follow. Qed.
#[local] Hint Resolve register_rollup_refines : refine_db.

Lemma rollup_refines random layer s D : shows s D -> refines_ same (rollup debug random layer) (rollup debug random layer) s D.
Proof using DiskLaws0. intros Hs. unfold rollup. follow. Qed.

End views.
