(* ===== verification/StoreReads.v ===== *)
(** * What the files of a layer are asked, on every store
      (src/storage/layer.rs and src/storage/delta.rs)

    Every question that a store of layers answers from files has, on any store
    of directories, the answer of the disk it shows; a rollup up to an ancestor,
    which asks many of them, does there what it does on the disk. *)

From stdpp Require Import gmap.
From S2P Require Import Prelude.
From S2P Require Import Codec.
From S2P Require Import PfcBlocks.
From S2P Require Import PfcDicts.
From S2P Require Import LayerTypes.
From S2P Require Import TripleBuilder.
From S2P Require Import IdMaps.
From S2P Require Import InternalLayers.
From S2P Require Import LayerBuilders.
From S2P Require Import BuiltLayers.
From S2P Require Import Rollups.
From S2P Require Import SimpleBuilder.
From S2P Require Import Names.
From S2P Require Import StoreMonad.
From S2P Require Import FileNames.
From S2P Require Import Files.
From S2P Require Import Directories.
From S2P Require Import DiskStores.
From S2P Require Import StoreRefinement.
From S2P Require Import Caches.
From S2P Require Import LayerStores.
From S2P Require Import LayerWrites.
From S2P Require Import StoreViews.
Open Scope N_scope.

Section reads.
Context {S F : Type} `{Hstore : PersistentLayerStore S F} {shows ext denotes} `{!DiskLaws S F shows ext denotes}.
Context `{BytesSize} `{FramedRead} `{Log2F32} `{ParSort} `{RayonSort} (debug : bool).

#[local] Abbreviation refines_ := (refines shows ext).
#[local] Abbreviation file := (layer_name * filename)%type.

#[local] Hint Extern 1 (refines _ _ _ (io_opt ?m) (io_opt ?m) _ _) => (apply io_opt_refines; [apply _|assumption]) : refine_db.
#[local] Hint Extern 1 (refines _ _ _ (io_lift ?m) (io_lift ?m) _ _) => (apply refines_lift; [apply _|assumption]) : refine_db.
#[local] Hint Extern 1 (refines _ _ _ io_panic io_panic _ _) => exact Logic.I : refine_db.
#[local] Hint Resolve parent_of_refines get_layer_parent_name_refines stack_names_upto_refines : refine_db.

(** The handles that were opened, put together. *)
#[local] Ltac given := first [assumption|exact Logic.I|split; given].

(** *** Handles *)

(** Handles of the same files, also when there are none. *)
Definition both {X Y} (R : S -> X -> Y -> Prop) (s : S) (x : option X) (y : option Y) : Prop :=
  match x, y with Some x, Some y => R s x y | None, None => True | _, _ => False end.

Definition all_triples (s : S) (x : F * AdjacencyListFiles.t F * AdjacencyListFiles.t F)
    (y : file * AdjacencyListFiles.t file * AdjacencyListFiles.t file) : Prop :=
  denotes s x.1.1 y.1.1 /\ all_adjacency (denotes s) x.1.2 y.1.2 /\ all_adjacency (denotes s) x.2 y.2.

Definition all_by_object (s : S) (x : F * F * AdjacencyListFiles.t F * AdjacencyListFiles.t F)
    (y : file * file * AdjacencyListFiles.t file * AdjacencyListFiles.t file) : Prop :=
  denotes s x.1.1.1 y.1.1.1 /\ denotes s x.1.1.2 y.1.1.2 /\ all_adjacency (denotes s) x.1.2 y.1.2 /\ all_adjacency (denotes s) x.2 y.2.

Definition all_count (s : S) (x : F * F * BitIndexFiles.t F) (y : file * file * BitIndexFiles.t file) : Prop :=
  denotes s x.1.1 y.1.1 /\ denotes s x.1.2 y.1.2 /\ all_bit_index (denotes s) x.2 y.2.

Lemma of_layer_rel {A A'} (R : S -> A -> A' -> Prop) name m m' s D : shows s D -> (forall s D, shows s D -> refines_ R m m' s D) ->
  refines_ R (of_layer name m) (of_layer name m') s D.
Proof using DiskLaws0. intros Hs Hm. unfold of_layer. refine_step. destruct a; [by apply Hm|apply refines_err; [apply _|done]]. Qed.

Lemma dictionary_handles_refine layer f g s D : shows s D ->
  refines_ (fun s => all_dictionary (denotes s)) (get_dictionary_files layer f g) (get_dictionary_files layer f g) s D.
Proof using DiskLaws0. intros Hs. unfold get_dictionary_files. follow. Qed.

Lemma bit_index_handles_refine layer f g h s D : shows s D ->
  refines_ (fun s => all_bit_index (denotes s)) (get_bit_index_files layer f g h) (get_bit_index_files layer f g h) s D.
Proof using DiskLaws0. intros Hs. unfold get_bit_index_files. follow. Qed.
#[local] Hint Resolve dictionary_handles_refine bit_index_handles_refine : refine_db.

Lemma adjacency_handles_refine layer f g h k s D : shows s D ->
  refines_ (fun s => all_adjacency (denotes s)) (get_adjacency_files layer f g h k) (get_adjacency_files layer f g h k) s D.
Proof using DiskLaws0. intros Hs. unfold get_adjacency_files. follow; given. Qed.
#[local] Hint Resolve adjacency_handles_refine : refine_db.

(** The files of a layer, by its kind. *)
#[local] Ltac handles := intros Hs; apply of_layer_rel; [done|clear Hs]; intros s1 D1 Hs; follow; try given.

Lemma node_dictionary_files_refine layer s D : shows s D ->
  refines_ (fun s => all_dictionary (denotes s)) (node_dictionary_files layer) (node_dictionary_files layer) s D.
Proof using DiskLaws0. handles. Qed.
Lemma predicate_dictionary_files_refine layer s D : shows s D ->
  refines_ (fun s => all_dictionary (denotes s)) (predicate_dictionary_files layer) (predicate_dictionary_files layer) s D.
Proof using DiskLaws0. handles. Qed.
Lemma value_dictionary_files_refine layer s D : shows s D ->
  refines_ (fun s => all_dictionary (denotes s)) (value_dictionary_files layer) (value_dictionary_files layer) s D.
Proof using DiskLaws0. handles. Qed.
Lemma node_value_idmap_files_refine layer s D : shows s D ->
  refines_ (fun s => all_bit_index (denotes s)) (node_value_idmap_files layer) (node_value_idmap_files layer) s D.
Proof using DiskLaws0. handles. Qed.
Lemma predicate_idmap_files_refine layer s D : shows s D ->
  refines_ (fun s => all_bit_index (denotes s)) (predicate_idmap_files layer) (predicate_idmap_files layer) s D.
Proof using DiskLaws0. handles. Qed.
Lemma wavelet_addition_files_refine layer s D : shows s D ->
  refines_ (fun s => all_bit_index (denotes s)) (predicate_wavelet_addition_files layer) (predicate_wavelet_addition_files layer) s D.
Proof using DiskLaws0. handles. Qed.
Lemma wavelet_removal_files_refine layer s D : shows s D ->
  refines_ (both (fun s => all_bit_index (denotes s))) (predicate_wavelet_removal_files layer) (predicate_wavelet_removal_files layer) s D.
Proof using DiskLaws0. handles. Qed.
Lemma triple_addition_files_refine layer s D : shows s D ->
  refines_ all_triples (triple_addition_files layer) (triple_addition_files layer) s D.
Proof using DiskLaws0. handles. Qed.
Lemma triple_removal_files_refine layer s D : shows s D ->
  refines_ (both all_triples) (triple_removal_files layer) (triple_removal_files layer) s D.
Proof using DiskLaws0. handles. Qed.
Lemma addition_files_by_object_refine layer s D : shows s D ->
  refines_ all_by_object (triple_addition_files_by_object layer) (triple_addition_files_by_object layer) s D.
Proof using DiskLaws0. handles. Qed.
Lemma removal_files_by_object_refine layer s D : shows s D ->
  refines_ (both all_by_object) (triple_removal_files_by_object layer) (triple_removal_files_by_object layer) s D.
Proof using DiskLaws0. handles. Qed.
#[local] Hint Resolve node_dictionary_files_refine predicate_dictionary_files_refine value_dictionary_files_refine
  node_value_idmap_files_refine predicate_idmap_files_refine : refine_db.

(** *** The files, read *)

Lemma if_exists_rel {A} name (m m' : io _ A) s D : shows s D -> (forall s D, shows s D -> refines_ same m m' s D) ->
  refines_ same (if_exists name m) (if_exists name m') s D.
Proof using DiskLaws0. intros Hs Hm. unfold if_exists. follow. Qed.

#[local] Ltac when_there := intros Hs; apply if_exists_rel; [done|clear Hs]; intros s1 D1 Hs; follow.

Lemma read_dictionary_refines m m' s D : shows s D -> refines_ (fun s => all_dictionary (denotes s)) m m' s D ->
  refines_ same (read_dictionary m) (read_dictionary m') s D.
Proof using DiskLaws0. intros Hs Hm. unfold read_dictionary. follow. Qed.
#[local] Hint Resolve read_dictionary_refines : refine_db.

Lemma node_dictionary_refines name s D : shows s D -> refines_ same (get_node_dictionary name) (get_node_dictionary name) s D.
Proof using DiskLaws0. when_there. Qed.
Lemma predicate_dictionary_refines name s D : shows s D ->
  refines_ same (get_predicate_dictionary name) (get_predicate_dictionary name) s D.
Proof using DiskLaws0. when_there. Qed.
Lemma value_dictionary_refines name s D : shows s D -> refines_ same (get_value_dictionary name) (get_value_dictionary name) s D.
Proof using DiskLaws0. when_there. Qed.

Lemma dictionary_handles f f' s : all_dictionary (denotes s) f f' ->
  denotes s (DictionaryFiles.blocks_file f) (DictionaryFiles.blocks_file f').
Proof using Type. by intros [? ?]. Qed.

Lemma file_get_count_refines f f' s D : shows s D -> denotes s f f' -> refines_ same (file_get_count f) (file_get_count f') s D.
Proof using DiskLaws0. intros Hs Hf. unfold file_get_count. follow. Qed.
#[local] Hint Resolve dictionary_handles file_get_count_refines : refine_db.

Lemma node_count_refines name s D : shows s D -> refines_ same (get_node_count name) (get_node_count name) s D.
Proof using DiskLaws0. when_there. Qed.
Lemma predicate_count_refines name s D : shows s D -> refines_ same (get_predicate_count name) (get_predicate_count name) s D.
Proof using DiskLaws0. when_there. Qed.
Lemma value_count_refines name s D : shows s D -> refines_ same (get_value_count name) (get_value_count name) s D.
Proof using DiskLaws0. when_there. Qed.
#[local] Hint Resolve node_count_refines predicate_count_refines value_count_refines : refine_db.

Lemma node_value_idmap_refines name s D : shows s D -> refines_ same (get_node_value_idmap name) (get_node_value_idmap name) s D.
Proof using DiskLaws0. when_there. Qed.
Lemma predicate_idmap_refines name s D : shows s D -> refines_ same (get_predicate_idmap name) (get_predicate_idmap name) s D.
Proof using DiskLaws0. when_there. Qed.
#[local] Hint Resolve node_dictionary_refines predicate_dictionary_refines value_dictionary_refines node_value_idmap_refines
  predicate_idmap_refines : refine_db.

(** *** Triples *)

Lemma subjects_of_refines f f' s D : shows s D -> denotes s f f' -> refines_ same (subjects_of debug f) (subjects_of debug f') s D.
Proof using DiskLaws0. intros Hs Hf. unfold subjects_of. follow. Qed.
#[local] Hint Resolve subjects_of_refines : refine_db.

Lemma file_exists_question_refines f f' g g' h h' x y z s D : shows s D -> denotes s f f' -> all_adjacency (denotes s) g g' ->
  all_adjacency (denotes s) h h' -> refines_ same (file_triple_exists debug f g h x y z) (file_triple_exists debug f' g' h' x y z) s D.
Proof using DiskLaws0. intros Hs Hf Hg Hh. unfold file_triple_exists. follow. Qed.

Lemma file_iterator_refines f f' g g' h h' s D : shows s D -> denotes s f f' -> all_adjacency (denotes s) g g' ->
  all_adjacency (denotes s) h h' -> refines_ same (file_triple_iterator debug f g h) (file_triple_iterator debug f' g' h') s D.
Proof using DiskLaws0. intros Hs Hf Hg Hh. unfold file_triple_iterator. follow. Qed.

Lemma file_predicate_refines f f' g g' h h' w w' p s D : shows s D -> denotes s f f' -> all_adjacency (denotes s) g g' ->
  all_adjacency (denotes s) h h' -> all_bit_index (denotes s) w w' ->
  refines_ same (file_triple_iterator_by_predicate debug f g h w p) (file_triple_iterator_by_predicate debug f' g' h' w' p) s D.
Proof using DiskLaws0. intros Hs Hf Hg Hh Hw. unfold file_triple_iterator_by_predicate. follow. Qed.

Lemma file_object_refines f f' o o' g g' h h' x s D : shows s D -> denotes s f f' -> denotes s o o' -> all_adjacency (denotes s) g g' ->
  all_adjacency (denotes s) h h' ->
  refines_ same (file_triple_iterator_by_object debug f o g h x) (file_triple_iterator_by_object debug f' o' g' h' x) s D.
Proof using DiskLaws0. intros Hs Hf Ho Hg Hh. unfold file_triple_iterator_by_object. follow. Qed.

Lemma file_count_refines f f' g g' w w' s D : shows s D -> denotes s f f' -> denotes s g g' -> all_bit_index (denotes s) w w' ->
  refines_ same (file_triple_layer_count f g w) (file_triple_layer_count f' g' w') s D.
Proof using DiskLaws0. intros Hs Hf Hg Hw. unfold file_triple_layer_count. follow. Qed.
#[local] Hint Resolve wavelet_addition_files_refine wavelet_removal_files_refine triple_addition_files_refine
  triple_removal_files_refine addition_files_by_object_refine removal_files_by_object_refine file_exists_question_refines
  file_iterator_refines file_predicate_refines file_object_refines file_count_refines : refine_db.

(** Opens what was found, if anything was. *)
#[local] Ltac opened :=
  repeat match goal with
  | HR : both _ _ ?a ?a' |- _ => destruct a, a'; cbn [both] in HR; try done
  | HR : all_triples _ ?a ?a' |- _ => destruct a as [[? ?] ?], a' as [[? ?] ?], HR as (? & ? & ?); cbn [fst snd] in *
  | HR : all_by_object _ ?a ?a' |- _ => destruct a as [[[? ?] ?] ?], a' as [[[? ?] ?] ?], HR as (? & ? & ? & ?); cbn [fst snd] in *
  | HR : all_count _ ?a ?a' |- _ => destruct a as [[? ?] ?], a' as [[? ?] ?], HR as (? & ? & ?); cbn [fst snd] in *
  end.
#[local] Ltac asked := intros Hs; repeat (refine_step; opened).

Lemma triple_addition_exists_refines n x y z s D : shows s D ->
  refines_ same (triple_addition_exists debug n x y z) (triple_addition_exists debug n x y z) s D.
Proof using DiskLaws0. unfold triple_addition_exists. asked. Qed.
Lemma triple_removal_exists_refines n x y z s D : shows s D ->
  refines_ same (triple_removal_exists debug n x y z) (triple_removal_exists debug n x y z) s D.
Proof using DiskLaws0. unfold triple_removal_exists. asked. Qed.
Lemma triple_additions_refines n s D : shows s D -> refines_ same (triple_additions debug n) (triple_additions debug n) s D.
Proof using DiskLaws0. unfold triple_additions. asked. Qed.
Lemma triple_removals_refines n s D : shows s D -> refines_ same (triple_removals debug n) (triple_removals debug n) s D.
Proof using DiskLaws0. unfold triple_removals. asked. Qed.
Lemma triple_additions_s_refines n x s D : shows s D -> refines_ same (triple_additions_s debug n x) (triple_additions_s debug n x) s D.
Proof using DiskLaws0. unfold triple_additions_s. asked. Qed.
Lemma triple_removals_s_refines n x s D : shows s D -> refines_ same (triple_removals_s debug n x) (triple_removals_s debug n x) s D.
Proof using DiskLaws0. unfold triple_removals_s. asked. Qed.
Lemma triple_additions_sp_refines n x y s D : shows s D -> refines_ same (triple_additions_sp debug n x y) (triple_additions_sp debug n x y) s D.
Proof using DiskLaws0. unfold triple_additions_sp. asked. Qed.
Lemma triple_removals_sp_refines n x y s D : shows s D -> refines_ same (triple_removals_sp debug n x y) (triple_removals_sp debug n x y) s D.
Proof using DiskLaws0. unfold triple_removals_sp. asked. Qed.
Lemma triple_additions_p_refines n y s D : shows s D -> refines_ same (triple_additions_p debug n y) (triple_additions_p debug n y) s D.
Proof using DiskLaws0. unfold triple_additions_p. asked. Qed.
Lemma triple_removals_p_refines n y s D : shows s D -> refines_ same (triple_removals_p debug n y) (triple_removals_p debug n y) s D.
Proof using DiskLaws0. unfold triple_removals_p. asked. Qed.
Lemma triple_additions_o_refines n z s D : shows s D -> refines_ same (triple_additions_o debug n z) (triple_additions_o debug n z) s D.
Proof using DiskLaws0. unfold triple_additions_o. asked. Qed.
Lemma triple_removals_o_refines n z s D : shows s D -> refines_ same (triple_removals_o debug n z) (triple_removals_o debug n z) s D.
Proof using DiskLaws0. unfold triple_removals_o. asked. Qed.
#[local] Hint Resolve triple_additions_refines triple_removals_refines : refine_db.

(** *** Numbers of triples *)

Lemma addition_count_files_refine layer s D : shows s D ->
  refines_ all_count (triple_layer_addition_count_files layer) (triple_layer_addition_count_files layer) s D.
Proof using DiskLaws0.
  intros Hs. apply of_layer_rel; [done|clear s D Hs]. intros s D Hs. refine_step.
  eapply refines_bind with (R := fun s x y => denotes s x.1 y.1 /\ denotes s x.2 y.2); [apply _|by follow; given|].
  intros s1 D1 [f g] [f' g'] He Hs1 [Hf Hg]. cbn [fst snd] in *. follow. given.
Qed.

Lemma removal_count_files_refine layer s D : shows s D ->
  refines_ (both all_count) (triple_layer_removal_count_files layer) (triple_layer_removal_count_files layer) s D.
Proof using DiskLaws0.
  intros Hs. apply of_layer_rel; [done|clear s D Hs]. intros s D Hs. refine_step. refine_step; [|follow].
  do 3 refine_step. opened.
  match goal with |- refines _ _ _ (io_opt (Some ?t) ≫= ?k) (io_opt (Some ?t') ≫= ?k') _ _ => change (refines_ (both all_count) (k t) (k' t') s3 D3) end.
  follow. given.
Qed.
#[local] Hint Resolve addition_count_files_refine removal_count_files_refine : refine_db.

Lemma addition_count_refines n s D : shows s D -> refines_ same (triple_layer_addition_count n) (triple_layer_addition_count n) s D.
Proof using DiskLaws0. unfold triple_layer_addition_count. asked. Qed.
Lemma removal_count_refines n s D : shows s D -> refines_ same (triple_layer_removal_count n) (triple_layer_removal_count n) s D.
Proof using DiskLaws0. unfold triple_layer_removal_count. asked. Qed.

(** *** Walks *)

Lemma walk_refines {A} (body : layer_name -> io S A) body' fuel : (forall n s D, shows s D -> refines_ same (body n) (body' n) s D) ->
  forall n s D, shows s D -> refines_ same (walk_backwards_from_disk fuel n body) (walk_backwards_from_disk fuel n body') s D.
Proof using DiskLaws0. intros Hb. induction fuel as [|fuel IH]; intros n s D Hs; cbn [walk_backwards_from_disk]; [done|]. follow. Qed.

Lemma walk_upto_refines {A} (body : layer_name -> io S A) body' fuel : (forall n s D, shows s D -> refines_ same (body n) (body' n) s D) ->
  forall n u s D, shows s D -> refines_ same (walk_backwards_from_disk_upto fuel n u body) (walk_backwards_from_disk_upto fuel n u body') s D.
Proof using DiskLaws0.
  intros Hb. induction fuel as [|fuel IH]; intros n u s D Hs; cbn [walk_backwards_from_disk_upto]; [done|]. follow.
Qed.

Lemma changes_body_refines n m s D : shows s D -> refines_ same (changes_body debug n m) (changes_body debug n m) s D.
Proof using DiskLaws0. intros Hs. unfold changes_body. follow. Qed.
#[local] Hint Resolve walk_refines walk_upto_refines changes_body_refines : refine_db.

Lemma layer_changes_refines fuel n s D : shows s D -> refines_ same (layer_changes debug fuel n) (layer_changes debug fuel n) s D.
Proof using DiskLaws0. intros Hs. unfold layer_changes. follow. Qed.
Lemma layer_changes_upto_refines fuel n u s D : shows s D ->
  refines_ same (layer_changes_upto debug fuel n u) (layer_changes_upto debug fuel n u) s D.
Proof using DiskLaws0. intros Hs. unfold layer_changes_upto. follow. Qed.

Lemma from_disk_refines {A} fuel n u (get : layer_name -> io S (option A)) get' s D : shows s D ->
  (forall n s D, shows s D -> refines_ same (get n) (get' n) s D) -> refines_ same (from_disk fuel n u get) (from_disk fuel n u get') s D.
Proof using DiskLaws0.
  intros Hs Hg. unfold from_disk. eapply refines_bind; [apply _|apply walk_upto_refines; [|done]|refine_next; follow].
  intros m s1 D1 Hs1. follow.
Qed.

(** *** Rollups up to an ancestor *)

Lemma dictionary_rollup_refines fuel l u v s D : shows s D ->
  refines_ same (dictionary_rollup_upto debug fuel l u v) (dictionary_rollup_upto debug fuel l u v) s D.
Proof using DiskLaws0.
  intros Hs. unfold dictionary_rollup_upto, get_node_dicts_from_disk, get_predicate_dicts_from_disk, get_value_dicts_from_disk,
    get_node_value_idmaps_from_disk, get_predicate_idmaps_from_disk.
  do 5 (eapply refines_bind; [apply _|apply from_disk_refines; [assumption|intros; refine_leaf]|refine_next]). follow.
Qed.

Lemma safe_bound_refines fuel l u s D : shows s D ->
  refines_ same (safe_upto_bound_from_disk fuel l u) (safe_upto_bound_from_disk fuel l u) s D.
Proof using DiskLaws0. intros Hs. unfold safe_upto_bound_from_disk, retrieve_layer_stack_names_upto. follow. Qed.
#[local] Hint Resolve layer_changes_upto_refines dictionary_rollup_refines safe_bound_refines : refine_db.

Lemma delta_rollup_upto_refines fuel l u f f' s D : shows s D -> all_child (denotes s) f f' ->
  refines_ same (delta_rollup_upto debug fuel l u f) (delta_rollup_upto debug fuel l u f') s D.
Proof using DiskLaws0. intros Hs Hf. unfold delta_rollup_upto. follow. Qed.

Lemma imprecise_rollup_upto_refines fuel l u f f' s D : shows s D -> all_child (denotes s) f f' ->
  refines_ same (imprecise_delta_rollup_upto_files debug fuel l u f) (imprecise_delta_rollup_upto_files debug fuel l u f') s D.
Proof using DiskLaws0. intros Hs Hf. unfold imprecise_delta_rollup_upto_files. follow. Qed.

Section cached.
Context {C : Type} `{LayerCache C}.

#[local] Abbreviation refines2 := (refines (with_cache (C := C) shows) (on_stores ext)).
#[local] Hint Resolve on_store_same on_cache_refines : refine_db.

Lemma rollup_to_ancestor_refines write write' fuel random l u sc Dc :
  (forall f f' s D, shows s D -> all_child (denotes s) f f' -> refines_ same (write f) (write' f') s D) -> with_cache shows sc Dc ->
  refines2 same (rollup_to_ancestor debug write fuel random l u) (rollup_to_ancestor debug write' fuel random l u) sc Dc.
Proof using DiskLaws0.
  intros Hw Hs. unfold rollup_to_ancestor.
  assert (Hnew : forall sc Dc, with_cache shows sc Dc -> refines2 same
    ('(layer_dir, _, files) ← create_child_layer_files_with_cache debug fuel random u; _ ← on_store (write files); mret layer_dir)
    ('(layer_dir, _, files) ← create_child_layer_files_with_cache debug fuel random u; _ ← on_store (write' files); mret layer_dir) sc Dc).
  { clear sc Dc Hs. intros sc Dc Hs. eapply refines_bind; [apply _|by apply create_child_files_refines|].
    intros sc1 Dc1 [[d x] f] [[d' x'] f'] _ Hs1 [[= -> ->] Hf]. cbn [fst snd] in *.
    eapply refines_bind; [apply _|apply on_store_same; [done|intros ?; by apply Hw]|refine_next]. follow. }
  follow; by apply Hnew.
Qed.

Lemma perform_rollup_upto_refines fuel random l u sc Dc : with_cache shows sc Dc ->
  refines2 same (perform_rollup_upto_with_cache debug fuel random l u) (perform_rollup_upto_with_cache debug fuel random l u) sc Dc.
Proof using DiskLaws0. apply rollup_to_ancestor_refines. intros. by apply delta_rollup_upto_refines. Qed.

Lemma perform_imprecise_refines fuel random l u sc Dc : with_cache shows sc Dc ->
  refines2 same (perform_imprecise_rollup_upto_with_cache debug fuel random l u)
    (perform_imprecise_rollup_upto_with_cache debug fuel random l u) sc Dc.
Proof using DiskLaws0. apply rollup_to_ancestor_refines. intros. by apply imprecise_rollup_upto_refines. Qed.
End cached.
End reads.
