(* ===== verification/PackedLayers.v ===== *)
(** * Packs carry layers (src/storage/pack.rs)

    What exporting puts in a pack, what importing leaves of it, and that a
    layer that has been exported from one store and imported in another means
    there what it meant. *)

From stdpp Require Import gmap.
From S2P Require Import Prelude.
From S2P Require Import Words.
From S2P Require Import Codec.
From S2P Require Import Strings.
From S2P Require Import PfcBlocks.
From S2P Require Import PfcDicts.
From S2P Require Import LayerTypes.
From S2P Require Import LayerModel.
From S2P Require Import TripleBuilder.
From S2P Require Import IdMaps.
From S2P Require Import InternalLayers.
From S2P Require Import LayerBuilders.
From S2P Require Import Names.
From S2P Require Import StoreMonad.
From S2P Require Import FileNames.
From S2P Require Import Files.
From S2P Require Import Directories.
From S2P Require Import DiskStores.
From S2P Require Import StoreRefinement.
From S2P Require Import Packs.
From S2P Require Import StoredLayers.
From S2P Require Import Caches.
From S2P Require Import LayerStores.
From S2P Require Import LoadedLayers.
From S2P Require Import StoreGrowth.
From S2P Require Import StoreViews.
Open Scope N_scope.

(** ** Paths *)

Lemma split_slash_none p : (47 ∉ p) -> split_slash p = [p].
Proof.
  induction p as [|c p IH]; intros Hp; [done|]. rewrite not_elem_of_cons in Hp. destruct Hp as [Hc Hp]. cbn [split_slash].
  destruct (N.eqb_spec c 47); [congruence|]. by rewrite IH.
Qed.

Lemma split_slash_app p q : (47 ∉ p) -> split_slash (p ++ 47 :: q) = p :: split_slash q.
Proof.
  induction p as [|c p IH]; intros Hp; [done|]. rewrite not_elem_of_cons in Hp. destruct Hp as [Hc Hp]. cbn [split_slash app].
  destruct (N.eqb_spec c 47); [congruence|]. by rewrite IH.
Qed.

(** A plain part of a path. *)
Definition plain_part (p : list N) : Prop := (47 ∉ p) /\ p <> [] /\ p <> [46] /\ p <> [46; 46].

Lemma plain_part_iter p : plain_part p -> path_iter p = [p].
Proof.
  intros (Hs & Hn & _). unfold path_iter. rewrite split_slash_none by done. cbn [filter list_filter app].
  rewrite bool_decide_eq_false_2 by done. destruct p as [|c p]; [done|]. rewrite not_elem_of_cons in Hs. destruct Hs as [Hc _].
  destruct c as [|c]; [done|]. by do 6 (destruct c as [c|c|]; try done).
Qed.

Lemma path_join_plain p q : plain_part p -> path_join p q = p ++ 47 :: q.
Proof.
  intros (Hs & Hn & _). unfold path_join. destruct (last p) as [c|] eqn:E; [|by apply last_None in E].
  destruct (N.eqb_spec c 47) as [->|]; [|done]. exfalso. apply Hs. apply last_Some in E as [l ->]. set_solver.
Qed.

Lemma plain_join_iter p q : plain_part p -> plain_part q -> path_iter (path_join p q) = [p; q].
Proof.
  intros Hp Hq. rewrite path_join_plain by done. destruct Hp as (Hs & Hn & _), Hq as (Hs' & Hn' & Hn2 & _). unfold path_iter.
  rewrite split_slash_app, split_slash_none by done. rewrite bool_decide_eq_false_2 by done.
  rewrite filter_cons_True; [|unfold is_component; rewrite bool_decide_eq_false_2 by tauto; exact I].
  destruct p as [|c p]; [done|]. rewrite not_elem_of_cons in Hs. destruct Hs as [Hc _].
  destruct c as [|c]; [done|]. by do 6 (destruct c as [c|c|]; try done).
Qed.

Lemma plain_file_name p q : plain_part q -> last (path_iter p) = Some q -> path_file_name p = Some q.
Proof.
  intros (Hs & Hn & Hn1 & Hn2) E. unfold path_file_name. rewrite E. cbn [mbind option_bind].
  rewrite bool_decide_eq_false_2; [done|]. intros [->|[->| ->]]; set_solver.
Qed.

Lemma name_plain n : name_ok n -> plain_part (name_to_string n).
Proof.
  intros Hn. pose proof (name_digits n) as Hd. pose proof (name_length n Hn) as Hl. split.
  - intros Hin. rewrite Forall_forall in Hd. specialize (Hd 47 Hin). unfold is_digit in Hd. lia.
  - split_and!; intros E; rewrite E in Hl; done.
Qed.

Lemma to_str_ascii p : Forall (fun c => c < 128) p -> to_str p = Some p.
Proof. intros Hp. unfold to_str. rewrite bool_decide_eq_true_2; [done|]. by apply from_utf8_lossy_ascii. Qed.

Lemma name_to_str n : to_str (name_to_string n) = Some (name_to_string n).
Proof. apply to_str_ascii, digits_ascii, name_digits. Qed.

(** ** The files of a pack *)

Definition layer_filenames (child : bool) : list filename :=
  SHARED_REQUIRED_FILES ++ filter (fun f => f <> Filenames.rollup FILENAMES) SHARED_OPTIONAL_FILES ++
  if child then CHILD_LAYER_REQUIRED_FILES ++ CHILD_LAYER_OPTIONAL_FILES
  else BASE_LAYER_REQUIRED_FILES ++ BASE_LAYER_OPTIONAL_FILES.

Definition packed_name (f : filename) : Prop :=
  plain_part (DirectoryLayerStore.filename_bytes f) /\ to_str (DirectoryLayerStore.filename_bytes f) = Some (DirectoryLayerStore.filename_bytes f) /\
  filename_of (DirectoryLayerStore.filename_bytes f) = f.

#[export] Instance plain_part_dec p : Decision (plain_part p).
Proof. unfold plain_part. apply _. Defined.
#[export] Instance packed_name_dec f : Decision (packed_name f).
Proof. unfold packed_name. apply _. Defined.

Lemma packed_names child : Forall packed_name (layer_filenames child).
Proof. destruct child; apply (bool_decide_unpack _); vm_compute; exact I. Qed.

Lemma packed_names_nodup child : NoDup (layer_filenames child).
Proof. destruct child; apply (bool_decide_unpack _); vm_compute; exact I. Qed.

Lemma written_packed : Forall (fun f => f ∈ layer_filenames false) base_written /\ Forall (fun f => f ∈ layer_filenames true) child_written.
Proof. split; apply (bool_decide_unpack _); vm_compute; exact I. Qed.

Lemma rollup_not_packed child : rollup_file ∉ layer_filenames child.
Proof. destruct child; apply (bool_decide_unpack _); vm_compute; exact I. Qed.

Lemma parent_packed : parent_file ∈ layer_filenames true /\ (parent_file ∉ layer_filenames false).
Proof. split; apply (bool_decide_unpack _); vm_compute; exact I. Qed.

(** ** Formats *)

(** What the documentation of the crates promises: entries come back as they
    were appended, if their sizes are those of their data and their paths are
    relative and have nothing to normalise: no empty part, no [.] and no [..]. *)
Definition archivable (e : tar_entry) : Prop :=
  let '(h, p, data) := e in Header.size h = lenN data /\ Forall (fun c => c <> 0) p /\ Forall plain_part (split_slash p).

Definition read_back (e : tar_entry) : Entry.t :=
  let '(h, p, data) := e in
  Entry.mk (Ok p) (Ok (Header.size h)) (match Header.entry_type h with Regular => true | Directory => false end) (Ok data).

Class PackFormatLaws `{PackFormat} : Prop :=
  entries_of es : Forall archivable es -> archive_entries (archive_of es) = Ok (Ok ∘ read_back <$> es).

(** ** Export *)

(** The files of a layer that are packed, and the entries they become. *)
Definition exported_files (D : disk) (n : layer_name) : list (filename * list N) :=
  omap (fun f => (f,.) <$> Disk.lookup_file D (n, f)) (layer_filenames (Disk.file_there D (n, parent_file))).

Definition file_entry (mtime : N) (n : layer_name) (e : filename * list N) : tar_entry :=
  (Header.mk 420 (lenN e.2) mtime Regular, path_join (name_to_string n) (DirectoryLayerStore.filename_bytes e.1), e.2).

Definition layer_entries (mtime : N) (D : disk) (n : layer_name) : list tar_entry :=
  (Header.mk 493 0 mtime Directory, name_to_string n, []) :: (file_entry mtime n <$> exported_files D n).

(** The files that have to be there. *)
Definition complete (D : disk) (n : layer_name) : Prop :=
  Forall (fun f => is_Some (Disk.lookup_file D (n, f)))
    (SHARED_REQUIRED_FILES ++
     if Disk.file_there D (n, parent_file) then CHILD_LAYER_REQUIRED_FILES else BASE_LAYER_REQUIRED_FILES).

Lemma yields_eq {S A} (m : io S A) s a b : yields m s a -> a = b -> yields m s b.
Proof. by intros ? <-. Qed.

Section export.
Context `{PackFormat} (D : disk) (n : layer_name) (Hn : name_ok n) (Hd : is_Some (D !! n)) (mtime : N).

Abbreviation found files := (omap (fun f => (f,.) <$> Disk.lookup_file D (n, f)) files).

Lemma append_existing_yields tar f data : Disk.lookup_file D (n, f) = Some data ->
  yields (tar_append_existing tar n (name_to_string n) f mtime) D (tar ++ [file_entry mtime n (f, data)]).
Proof using Hn Hd.
  intros Hf. unfold tar_append_existing. eapply yields_bind; [by apply get_file_yields|].
  eapply yields_bind; [by apply map_file_yields|]. apply yields_ret.
Qed.

Lemma append_file_yields tar f data : Disk.lookup_file D (n, f) = Some data ->
  yields (tar_append_file n (name_to_string n) mtime tar f) D (tar ++ [file_entry mtime n (f, data)]).
Proof using Hn Hd.
  intros Hf. unfold tar_append_file. eapply yields_bind; [by apply file_exists_yields|]. rewrite Hf. by apply append_existing_yields.
Qed.

Lemma append_optional_yields tar f :
  yields (tar_append_file_if_exists n (name_to_string n) mtime tar f) D (tar ++ (file_entry mtime n <$> found [f])).
Proof using Hn Hd.
  unfold tar_append_file_if_exists. eapply yields_bind; [by apply file_exists_yields|]. cbn [omap list_omap].
  destruct (Disk.lookup_file D (n, f)) as [data|] eqn:Hf.
  - by apply append_existing_yields.
  - cbn. rewrite app_nil_r. apply yields_ret.
Qed.

Lemma append_each_yields append files tar :
  (forall tar f, f ∈ files -> yields (append tar f) D (tar ++ (file_entry mtime n <$> found [f]))) ->
  yields (append_each append tar files) D (tar ++ (file_entry mtime n <$> found files)).
Proof using Type.
  revert tar. induction files as [|f files IH]; intros tar Hf; cbn [append_each].
  - cbn. rewrite app_nil_r. apply yields_ret.
  - eapply yields_bind; [apply Hf, elem_of_cons; by left|]. replace (f :: files) with ([f] ++ files) by done.
    rewrite omap_app, fmap_app, app_assoc. apply IH. intros t g Hg. apply Hf, elem_of_cons. by right.
Qed.

Lemma append_required_yields files tar : Forall (fun f => is_Some (Disk.lookup_file D (n, f))) files ->
  yields (append_each (tar_append_file n (name_to_string n) mtime) tar files) D (tar ++ (file_entry mtime n <$> found files)).
Proof using Hn Hd.
  intros Hf. rewrite Forall_forall in Hf. apply append_each_yields. intros t f Hin. destruct (Hf f Hin) as [data E].
  cbn [omap list_omap]. rewrite E. by apply append_file_yields.
Qed.

Lemma append_shared_yields files tar :
  yields (append_each (tar_append_shared_optional n (name_to_string n) mtime) tar files) D
    (tar ++ (file_entry mtime n <$> found (filter (fun f => f <> Filenames.rollup FILENAMES) files))).
Proof using Hn Hd.
  revert tar. induction files as [|f files IH]; intros tar; cbn [append_each].
  - cbn. rewrite app_nil_r. apply yields_ret.
  - assert (Hstep : exists tar', yields (tar_append_shared_optional n (name_to_string n) mtime tar f) D tar' /\
      tar' = tar ++ (file_entry mtime n <$> found (filter (fun f => f <> Filenames.rollup FILENAMES) [f]))).
    { unfold tar_append_shared_optional. rewrite filter_cons. destruct (decide (f = Filenames.rollup FILENAMES)) as [->|Hne].
      - rewrite decide_False by tauto. eexists. split; [apply yields_ret|]. by rewrite app_nil_r.
      - rewrite decide_True by done. eexists. split; [apply append_optional_yields|done]. }
    destruct Hstep as (tar' & Hstep & ->). eapply yields_bind; [exact Hstep|]. replace (f :: files) with ([f] ++ files) by done.
    rewrite filter_app, omap_app, fmap_app, app_assoc. apply IH.
Qed.

Lemma append_layer_yields tar : complete D n ->
  yields (tar_append_layer tar n mtime) D (tar ++ layer_entries mtime D n).
Proof using Hn Hd.
  intros [Hs Hk]%Forall_app. pose proof (file_exists_yields D n Hn parent_file) as Hpar. fold (Disk.file_there D (n, parent_file)) in Hpar.
  unfold tar_append_layer, layer_entries, exported_files, layer_filenames. destruct (Disk.file_there D (n, parent_file)).
  all: eapply yields_eq;
    [eapply yields_bind; [by apply append_required_yields|]; eapply yields_bind; [apply append_shared_yields|];
     eapply yields_bind; [exact Hpar|]; cbv iota; eapply yields_bind; [by apply append_required_yields|];
     apply append_each_yields; intros; apply append_optional_yields|].
  all: rewrite !omap_app, !fmap_app, <- !app_assoc; reflexivity.
Qed.
End export.

Section packs.
Context `{PackFormat} `{!PackFormatLaws}.

Definition pack_entries (mtime : N) (D : disk) (ns : list layer_name) : list tar_entry := concat (layer_entries mtime D <$> ns).

(** A directory that can be packed. *)
Definition packable (D : disk) (n : layer_name) : Prop := name_ok n /\ is_Some (D !! n) /\ complete D n.

Lemma append_layers_yields (D : disk) (mtime : N) ns tar : Forall (packable D) ns ->
  yields (tar_append_layers mtime tar ns) D (tar ++ pack_entries mtime D ns).
Proof using Type.
  intros Hns. revert tar. induction Hns as [|n ns (Hn & Hd & Hc) _ IH]; intros tar; cbn [tar_append_layers].
  - eapply yields_eq; [apply yields_ret|]. by rewrite app_nil_r.
  - eapply yields_bind; [by apply append_layer_yields|]. unfold pack_entries. cbn [fmap list_fmap concat]. rewrite app_assoc. apply IH.
Qed.

Lemma export_yields (D : disk) (mtime : N) ns : Forall (packable D) ns ->
  yields (export_layers mtime ns) D (archive_of (pack_entries mtime D ns)).
Proof using Type.
  intros Hns. unfold export_layers. eapply yields_bind; [by apply (append_layers_yields D mtime ns [])|]. apply yields_ret.
Qed.

Lemma exported_elem (D : disk) n f data : (f, data) ∈ exported_files D n <->
  f ∈ layer_filenames (Disk.file_there D (n, parent_file)) /\ Disk.lookup_file D (n, f) = Some data.
Proof using Type.
  unfold exported_files. rewrite list_elem_of_omap. split.
  - intros (g & Hg & E). destruct (Disk.lookup_file D (n, g)) eqn:El; [|done]. cbn in E. by simplify_eq.
  - intros [Hf E]. exists f. by rewrite E.
Qed.

Lemma exported_names (D : disk) n : (exported_files D n).*1 `sublist_of` layer_filenames (Disk.file_there D (n, parent_file)).
Proof using Type.
  unfold exported_files. induction (layer_filenames _) as [|f fs IH]; [done|]. cbn.
  destruct (Disk.lookup_file D (n, f)); cbn; by constructor.
Qed.

Lemma exported_nodup (D : disk) n : NoDup (exported_files D n).*1.
Proof using Type. eapply sublist_NoDup; [apply packed_names_nodup|apply exported_names]. Qed.

Lemma exported_packed (D : disk) n f data : (f, data) ∈ exported_files D n -> packed_name f.
Proof using Type.
  intros [Hf _]%exported_elem. pose proof (packed_names (Disk.file_there D (n, parent_file))) as Hp. rewrite Forall_forall in Hp. by apply Hp.
Qed.

Lemma names_nonzero child : Forall (fun f => Forall (fun c => c <> 0) (DirectoryLayerStore.filename_bytes f)) (layer_filenames child).
Proof using Type. destruct child; apply (bool_decide_unpack _); vm_compute; exact I. Qed.

Lemma name_nonzero n : Forall (fun c => c <> 0) (name_to_string n).
Proof using Type. eapply Forall_impl; [apply name_digits|]. unfold is_digit. intros. lia. Qed.

Lemma layer_archivable (mtime : N) (D : disk) n : name_ok n -> Forall archivable (layer_entries mtime D n).
Proof using Type.
  intros Hn. pose proof (name_plain n Hn) as Hnp. pose proof (name_nonzero n) as Hz. constructor.
  - split; [done|]. split; [done|]. rewrite split_slash_none by apply Hnp. by constructor.
  - apply Forall_forall. intros e ([f data] & -> & Hin)%list_elem_of_fmap. pose proof (exported_packed _ _ _ _ Hin) as (Hp & _ & _).
    unfold archivable, file_entry. cbn [fst snd Header.size]. split; [done|]. rewrite path_join_plain by done. split.
    + apply Forall_app. split; [done|]. constructor; [done|]. apply exported_elem in Hin as [Hin _].
      pose proof (names_nonzero (Disk.file_there D (n, parent_file))) as Hf. rewrite Forall_forall in Hf. by apply (Hf f).
    + rewrite split_slash_app by apply Hnp. rewrite split_slash_none by apply Hp.
      apply Forall_cons; split; [done|]. by apply Forall_singleton.
Qed.

Lemma pack_archivable (mtime : N) (D : disk) ns : Forall name_ok ns -> Forall archivable (pack_entries mtime D ns).
Proof using Type. intros Hns. apply Forall_concat, Forall_fmap. eapply Forall_impl; [done|]. intros n Hn. by apply layer_archivable. Qed.

(** ** Import *)

(** The files of the chosen layers that are written. *)
Definition chosen (ids : list layer_name) (D : disk) (n : layer_name) : list (file * option (list N)) :=
  if decide (n ∈ ids) then (fun e => ((n, e.1), Some e.2)) <$> exported_files D n else [].

Abbreviation chosen_set ids := (name_to_string <$> ids).

Lemma name_in_set ids (set : list (list N)) n : (forall x, x ∈ set <-> x ∈ chosen_set ids) -> Forall name_ok ids -> name_ok n ->
  name_to_string n ∈ set <-> n ∈ ids.
Proof using Type.
  intros Hset Hids Hn. rewrite Hset, list_elem_of_fmap. split.
  - intros (m & E & Hm). rewrite Forall_forall in Hids. by rewrite (DirectoryView.name_to_string_inj n m Hn (Hids m Hm) E).
  - intros Hin. by exists n.
Qed.

Section import.
Context (ids : list layer_name) (set : list (list N)) (Hset : forall x, x ∈ set <-> x ∈ chosen_set ids) (Hids : Forall name_ok ids).

Lemma import_directory_writes (mtime : N) n : name_ok n ->
  writes (import_entry set (Ok (read_back (Header.mk 493 0 mtime Directory, name_to_string n, [])))) [].
Proof using Hset Hids.
  intros Hn D _. pose proof (name_plain n Hn) as Hp. unfold import_entry, read_back. cbn [Entry.path Entry.is_file Header.entry_type].
  erewrite io_bind_lift by reflexivity. erewrite io_bind_lift by reflexivity.
  rewrite (plain_file_name (name_to_string n) (name_to_string n)) by (try rewrite plain_part_iter by done; done).
  rewrite plain_part_iter by done. erewrite io_bind_Ok by reflexivity. cbn [head mbind option_bind]. rewrite name_to_str. erewrite io_bind_Ok by reflexivity. change (default [] (Some (name_to_string n))) with (name_to_string n).
  case_decide; [|done]. rewrite string_of_name by done. by erewrite io_bind_Ok by reflexivity.
Qed.

Lemma import_file_writes (mtime : N) n f data : name_ok n -> packed_name f ->
  writes (import_entry set (Ok (read_back (file_entry mtime n (f, data))))) (if decide (n ∈ ids) then [((n, f), Some data)] else []).
Proof using Hset Hids.
  intros Hn (Hf & Hs & Hb) D Hready. pose proof (name_plain n Hn) as Hp. pose proof (plain_join_iter _ _ Hp Hf) as Hit.
  unfold import_entry, read_back, file_entry. cbn [fst snd Entry.path Entry.is_file Entry.size Entry.contents Header.entry_type].
  erewrite io_bind_lift by reflexivity. erewrite io_bind_lift by reflexivity.
  rewrite (plain_file_name _ (DirectoryLayerStore.filename_bytes f)) by (try rewrite Hit; done). rewrite Hit.
  erewrite io_bind_Ok by reflexivity. cbn [head mbind option_bind]. rewrite Hs, name_to_str. erewrite io_bind_Ok by reflexivity. change (default [] (Some (name_to_string n))) with (name_to_string n).
  destruct (decide (n ∈ ids)) as [Hin|Hin].
  - rewrite decide_True by by apply (name_in_set ids). rewrite string_of_name by done. erewrite io_bind_Ok by reflexivity.
    cbn [Entry.is_file Entry.size Entry.contents Header.entry_type negb]. erewrite io_bind_lift by reflexivity. erewrite io_bind_lift by reflexivity. rewrite Hb.
    pose proof Hready as [_ [[Hdir _] _]%Forall_cons]. cbn [fst snd] in Hdir.
    erewrite io_bind_Ok by by apply get_file_yields. by apply write_all_writes.
  - rewrite decide_False; [done|]. intros Hx. by apply Hin, (name_in_set ids set).
Qed.

Lemma import_app_writes es es' fs fs' : writes (import_entries set es) fs -> writes (import_entries set es') fs' ->
  writes (import_entries set (es ++ es')) (fs ++ fs').
Proof using Type.
  intros H1 H2 D [R1 R2]%ready_app. specialize (H1 D R1). specialize (H2 _ R2).
  assert (E : forall D : disk, import_entries set (es ++ es') D = (import_entries set es ≫= fun _ => import_entries set es') D).
  { clear. induction es as [|e es IH]; intros D; [done|]. cbn [import_entries app]. unfold mbind, io_bind in IH |- *.
    destruct (import_entry set e D) as [D1 [[]|x|]]; [|done..]. apply IH. }
  rewrite E. erewrite io_bind_Ok by exact H1. rewrite H2. unfold fill. by rewrite foldl_app.
Qed.

Lemma import_layer_writes (mtime : N) (D0 : disk) n : name_ok n ->
  writes (import_entries set (Ok ∘ read_back <$> layer_entries mtime D0 n)) (chosen ids D0 n).
Proof using Hset Hids.
  intros Hn. unfold layer_entries. cbn [fmap list_fmap]. change (chosen ids D0 n) with ([] ++ chosen ids D0 n).
  match goal with |- writes (import_entries set (?x :: ?l)) _ => change (x :: l) with ([x] ++ l) end.
  apply import_app_writes.
  { intros D HD. cbn [import_entries]. erewrite io_bind_Ok; [done|]. by apply (import_directory_writes mtime n Hn D). }
  unfold chosen. pose proof (exported_packed D0 n) as Hp. revert Hp. generalize (exported_files D0 n) as fs. intros fs.
  induction fs as [|[f data] fs IH]; intros Hp; [by case_decide; intros D HD|].
  cbn [fmap list_fmap]. match goal with |- writes (import_entries set (?x :: ?l)) _ => change (x :: l) with ([x] ++ l) end.
  replace (if decide (n ∈ ids) then _ else []) with ((if decide (n ∈ ids) then [((n, f), Some data)] else []) ++
    if decide (n ∈ ids) then (fun e : filename * list N => ((n, e.1), Some e.2)) <$> fs else []) by by case_decide.
  apply import_app_writes; [|apply IH; intros g d Hg; eapply Hp, elem_of_cons; by right].
  intros D HD. cbn [import_entries]. erewrite io_bind_Ok.
  2: { apply (import_file_writes mtime n f data Hn); [eapply Hp, elem_of_cons; by left|exact HD]. }
  done.
Qed.

Lemma import_pack_writes (mtime : N) (D0 : disk) ns : Forall name_ok ns ->
  writes (import_entries set (Ok ∘ read_back <$> pack_entries mtime D0 ns)) (concat (chosen ids D0 <$> ns)).
Proof using Hset Hids.
  unfold pack_entries. induction 1 as [|n ns Hn _ IH]; [by intros D HD|]. cbn [fmap list_fmap concat]. rewrite fmap_app.
  apply import_app_writes; [by apply import_layer_writes|exact IH].
Qed.
End import.

(** The directories that are made. *)
Definition new_dirs (D : disk) (ids : list layer_name) : disk := foldl (fun D n => <[n := ∅]> D) D ids.

Lemma new_dirs_lookup (D : disk) ids n : new_dirs D ids !! n = if decide (n ∈ ids) then Some ∅ else D !! n.
Proof using Type.
  revert D. induction ids as [|m ids IH]; intros D; [done|]. cbn [new_dirs foldl]. fold (new_dirs (<[m := ∅]> D) ids). rewrite IH.
  destruct (decide (n ∈ ids)) as [Hn|Hn].
  - by rewrite decide_True by (apply elem_of_cons; by right).
  - destruct (decide (n = m)) as [->|Hne].
    + rewrite decide_True by (apply elem_of_cons; by left). by rewrite lookup_insert_eq.
    + rewrite decide_False by (rewrite elem_of_cons; tauto). by rewrite lookup_insert_ne.
Qed.

Lemma create_directories_runs (D : disk) (ids : list layer_name) set : NoDup ids -> Forall (fun n => name_ok n /\ D !! n = None) ids ->
  exists set', runs (create_directories ids set) D (new_dirs D ids) set' /\ forall x, x ∈ set' <-> x ∈ set \/ x ∈ chosen_set ids.
Proof using Type.
  revert D set. induction ids as [|n ids IH]; intros D set Hnd Hids.
  - exists set. split; [apply runs_ret|]. cbn. intros x. rewrite elem_of_nil. tauto.
  - apply NoDup_cons in Hnd as [Hn Hnd]. apply Forall_cons in Hids as [[Hok Hd] Hids].
    destruct (IH (<[n := ∅]> D) (name_to_string n :: set) Hnd) as (set' & Hrun & Hset).
    { rewrite Forall_forall in Hids |- *. intros m Hm. destruct (Hids m Hm) as [H1 H2]. split; [done|].
      rewrite lookup_insert_ne; [done|]. by intros ->. }
    exists set'. split.
    + cbn [create_directories]. eapply runs_bind; [|exact Hrun]. unfold runs. cbn [create_named_directory Disk.store].
      unfold Disk.at_name. by rewrite decide_True, Hd by done.
    + intros x. rewrite Hset. cbn [fmap list_fmap]. rewrite !elem_of_cons. tauto.
Qed.

(** The disk after the import. *)
Definition imported (D0 D : disk) (ids ns : list layer_name) : disk :=
  fill (new_dirs D ids) (concat (chosen ids D0 <$> ns)).

Lemma chosen_elem (ids : list layer_name) (D0 : disk) n e : e ∈ chosen ids D0 n <->
  n ∈ ids /\ exists f data, e = ((n, f), Some data) /\ f ∈ layer_filenames (Disk.file_there D0 (n, parent_file)) /\ Disk.lookup_file D0 (n, f) = Some data.
Proof using Type.
  unfold chosen. case_decide as Hn; [|split; [by intros Hx%elem_of_nil|tauto]]. rewrite list_elem_of_fmap. split.
  - intros ([f data] & -> & Hin). apply exported_elem in Hin as [H1 H2]. split; [done|]. by exists f, data.
  - intros (_ & f & data & -> & H1 & H2). exists (f, data). split; [done|]. by apply exported_elem.
Qed.

Lemma chosen_all (ids : list layer_name) (D0 : disk) ns e : e ∈ concat (chosen ids D0 <$> ns) <-> exists n, n ∈ ns /\ e ∈ chosen ids D0 n.
Proof using Type.

  induction ns as [|m ns IH]; cbn [fmap list_fmap concat].
  - split; [by intros Hx%elem_of_nil|]. intros (n & Hn & _). by apply elem_of_nil in Hn.
  - rewrite elem_of_app, IH. split.
    + intros [He|(n & Hn & He)]; [exists m|exists n]; (split; [apply elem_of_cons; tauto|done]).
    + intros (n & [->|Hn]%elem_of_cons & He); [by left|right]. by exists n.
Qed.

Lemma chosen_nodup (ids : list layer_name) (D0 : disk) ns : NoDup ns -> NoDup (concat (chosen ids D0 <$> ns)).*1.
Proof using Type.
  induction 1 as [|n ns Hn _ IH]; [constructor|]. cbn [fmap list_fmap concat]. rewrite fmap_app. apply NoDup_app. split; [|split; [|done]].
  - unfold chosen. case_decide; [|constructor]. rewrite <- list_fmap_compose.
    rewrite (list_fmap_ext _ ((n,.) ∘ fst) (exported_files D0 n)) by done. rewrite list_fmap_compose.
    apply NoDup_fmap_2; [by intros x y [=]|]. apply exported_nodup.
  - intros f (e & -> & He)%list_elem_of_fmap (e' & E & He')%list_elem_of_fmap.
    apply chosen_elem in He as (_ & g & data & -> & _). apply chosen_all in He' as (m & Hm & He').
    apply chosen_elem in He' as (_ & g' & data' & -> & _). injection E as -> ->. done.
Qed.

Lemma new_dirs_ready (D0 D : disk) (ids ns : list layer_name) : NoDup ns -> ready (new_dirs D ids) (concat (chosen ids D0 <$> ns)).
Proof using Type.
  intros Hns. split; [by apply chosen_nodup|]. apply Forall_forall. intros e (n & Hn & He)%chosen_all.
  apply chosen_elem in He as (Hin & f & data & -> & _). cbn [fst]. unfold Disk.lookup_file. cbn [fst snd].
  rewrite new_dirs_lookup, decide_True by done. split; [by eexists|]. cbn. apply lookup_empty.
Qed.

Lemma import_runs (D0 D : disk) (mtime : N) (ns ids : list layer_name) : Forall name_ok ns -> NoDup ns -> NoDup ids ->
  Forall (fun n => name_ok n /\ D !! n = None) ids ->
  runs (import_layers (archive_of (pack_entries mtime D0 ns)) ids) D (imported D0 D ids ns) ().
Proof using All.
  intros Hok Hns Hnd Hids. destruct (create_directories_runs D ids [] Hnd Hids) as (set & Hrun & Hset).
  unfold import_layers. eapply runs_bind; [exact Hrun|]. unfold runs. rewrite entries_of by by apply pack_archivable.
  erewrite io_bind_lift by reflexivity. apply import_pack_writes; [|..|done|by apply new_dirs_ready].
  - intros x. rewrite Hset. rewrite elem_of_nil. tauto.
  - eapply Forall_impl; [done|]. by intros n [].
Qed.

(** A layer of the pack that was chosen has its files; all else is as it was. *)
Lemma imported_lookup (D0 D : disk) (ids ns : list layer_name) n f : NoDup ns -> n ∈ ids -> n ∈ ns ->
  Disk.lookup_file (imported D0 D ids ns) (n, f) =
    if decide (f ∈ layer_filenames (Disk.file_there D0 (n, parent_file))) then Disk.lookup_file D0 (n, f) else None.
Proof using Type.
  intros Hnd Hids Hns. pose proof (fill_has_files _ _ (new_dirs_ready D0 D ids ns Hnd)) as Hf. unfold has_files in Hf. rewrite Forall_forall in Hf.
  assert (Hnone : ((n, f) ∉ (concat (chosen ids D0 <$> ns)).*1) -> Disk.lookup_file (imported D0 D ids ns) (n, f) = None).
  { intros Hx. unfold imported. rewrite fill_lookup_ne by done. unfold Disk.lookup_file. cbn [fst snd].
    rewrite new_dirs_lookup, decide_True by done. cbn. apply lookup_empty. }
  destruct (decide (f ∈ _)) as [Hin|Hin]; [destruct (Disk.lookup_file D0 (n, f)) as [data|] eqn:E|].
  - apply (Hf ((n, f), Some data)), chosen_all. exists n. split; [done|]. apply chosen_elem. split; [done|]. by exists f, data.
  - apply Hnone. intros (e & Ee & He)%list_elem_of_fmap. apply chosen_all in He as (m & _ & He).
    apply chosen_elem in He as (_ & g & data & -> & _ & E2). injection Ee as <- <-. congruence.
  - apply Hnone. intros (e & Ee & He)%list_elem_of_fmap. apply chosen_all in He as (m & _ & He).
    apply chosen_elem in He as (_ & g & data & -> & E2 & _). injection Ee as <- <-. done.
Qed.

Lemma imported_dir (D0 D : disk) (ids ns : list layer_name) n : n ∈ ids -> is_Some (imported D0 D ids ns !! n).
Proof using Type. intros Hn. apply fill_dirs. rewrite new_dirs_lookup, decide_True by done. by eexists. Qed.

Lemma imported_other (D0 D : disk) (ids ns : list layer_name) n : (n ∉ ids) -> imported D0 D ids ns !! n = D !! n.
Proof using Type.
  intros Hn. unfold imported. rewrite fill_other.
  - by rewrite new_dirs_lookup, decide_False by done.
  - apply Forall_forall. intros e (m & _ & He)%chosen_all. apply chosen_elem in He as (Hm & f & data & -> & _). cbn. by intros ->.
Qed.
End packs.

(** ** On any store *)

Section refinement.
Context {S F : Type} `{Hstore : PersistentLayerStore S F} {shows ext denotes} `{!DiskLaws S F shows ext denotes} `{PackFormat}.

#[local] Abbreviation refines_ := (refines shows ext).
#[local] Hint Extern 1 (refines _ _ _ (io_lift ?m) (io_lift ?m) _ _) => (apply refines_lift; [apply _|assumption]) : refine_db.

Lemma append_existing_refines tar n p f (mtime : N) s D : shows s D ->
  refines_ same (tar_append_existing tar n p f mtime) (tar_append_existing tar n p f mtime) s D.
Proof using DiskLaws0. intros Hs. unfold tar_append_existing. follow. Qed.
#[local] Hint Resolve append_existing_refines : refine_db.

Lemma append_file_refines tar n p f (mtime : N) s D : shows s D ->
  refines_ same (tar_append_file n p mtime tar f) (tar_append_file n p mtime tar f) s D.
Proof using DiskLaws0. intros Hs. unfold tar_append_file. follow. Qed.

Lemma append_optional_refines tar n p f (mtime : N) s D : shows s D ->
  refines_ same (tar_append_file_if_exists n p mtime tar f) (tar_append_file_if_exists n p mtime tar f) s D.
Proof using DiskLaws0. intros Hs. unfold tar_append_file_if_exists. follow. Qed.

Lemma append_shared_refines tar n p f (mtime : N) s D : shows s D ->
  refines_ same (tar_append_shared_optional n p mtime tar f) (tar_append_shared_optional n p mtime tar f) s D.
Proof using DiskLaws0. intros Hs. unfold tar_append_shared_optional. case_decide; [follow|by apply append_optional_refines]. Qed.

Lemma append_each_refines append append' files : (forall tar f s D, shows s D -> refines_ same (append tar f) (append' tar f) s D) ->
  forall tar s D, shows s D -> refines_ same (append_each append tar files) (append_each append' tar files) s D.
Proof using DiskLaws0.
  intros Ha. induction files as [|f files IH]; intros tar s D Hs; cbn [append_each]; [by apply refines_ret; [apply _|..]|].
  eapply refines_bind; [apply _|by apply Ha|]. intros s1 D1 a a' _ Hs1 ->. by apply IH.
Qed.

Lemma append_layer_refines tar n (mtime : N) s D : shows s D ->
  refines_ same (tar_append_layer tar n mtime) (tar_append_layer tar n mtime) s D.
Proof using DiskLaws0.
  intros Hs. unfold tar_append_layer. cbv zeta.
  eapply refines_bind; [apply _|apply append_each_refines; [intros; by apply append_file_refines|done]|]. intros s1 D1 a a' _ Hs1 ->.
  eapply refines_bind; [apply _|apply append_each_refines; [intros; by apply append_shared_refines|done]|]. intros s2 D2 b b' _ Hs2 ->.
  eapply refines_bind; [apply _|by apply file_exists_refines|]. intros s3 D3 c c' _ Hs3 ->. destruct c'.
  all: eapply refines_bind; [apply _|apply append_each_refines; [intros; by apply append_file_refines|done]|]; intros s4 D4 d d' _ Hs4 ->.
  all: apply append_each_refines; [intros; by apply append_optional_refines|done].
Qed.

Lemma export_refines (mtime : N) ns s D : shows s D -> refines_ same (export_layers mtime ns) (export_layers mtime ns) s D.
Proof using DiskLaws0.
  intros Hs. unfold export_layers. eapply refines_bind with (R := same); [apply _| |intros s1 D1 a a' _ Hs1 ->; by apply refines_ret; [apply _|..]].
  revert s D Hs. generalize (@nil tar_entry) as tar. induction ns as [|n ns IH]; intros tar s D Hs; cbn [tar_append_layers].
  - by apply refines_ret; [apply _|..].
  - eapply refines_bind; [apply _|by apply append_layer_refines|]. intros s1 D1 a a' _ Hs1 ->. by apply IH.
Qed.

Lemma import_entry_refines set e s D : shows s D -> refines_ same (import_entry set e) (import_entry set e) s D.
Proof using DiskLaws0.
  intros Hs. unfold import_entry. cbv zeta. refine_step. refine_step.
  eapply refines_bind; [apply _|by apply io_opt_refines; [apply _|]|refine_next].
  eapply refines_bind with (R := same); [apply _| |refine_next]; [destruct (to_str _); refine_step|].
  case_decide; [|refine_step]. eapply refines_bind; [apply _|by apply io_opt_refines; [apply _|]|refine_next].
  destruct (negb _); [refine_step|]. follow.
Qed.

Lemma import_refines pack ns s D : shows s D -> refines_ same (import_layers pack ns) (import_layers pack ns) s D.
Proof using DiskLaws0.
  intros Hs. unfold import_layers. eapply refines_bind with (R := same); [apply _| |].
  - revert s D Hs. generalize (@nil (list N)) as set. induction ns as [|n ns IH]; intros set s D Hs; cbn [create_directories].
    + by apply refines_ret; [apply _|..].
    + eapply refines_bind; [apply _|by apply create_refines|]. intros s1 D1 a a' _ Hs1 ->. by apply IH.
  - intros s1 D1 set set' _ Hs1 ->. eapply refines_bind; [apply _|by apply refines_lift; [apply _|]|]. intros s2 D2 es es' _ Hs2 ->.
    revert s2 D2 Hs2. induction es' as [|e es IH]; intros s2 D2 Hs2; cbn [import_entries]; [by apply refines_ret; [apply _|..]|].
    eapply refines_bind; [apply _|by apply import_entry_refines|]. intros s3 D3 [] [] _ Hs3 _. by apply IH.
Qed.
End refinement.

(** ** Layers *)

Section layers.
Context `{PackFormat} `{!PackFormatLaws} `{BytesSize} `{FramedRead} `{Log2F32} `{ParSort} (debug : bool).

(** What the store says after an import. *)
Definition with_imported (I0 I : infos) (ids : list layer_name) : infos := filter (fun x => x.1 ∈ ids) I0 ∪ I.

Lemma with_imported_lookup (I0 I : infos) (ids : list layer_name) n :
  with_imported I0 I ids !! n = if decide (n ∈ ids) then match I0 !! n with Some i => Some i | None => I !! n end else I !! n.
Proof using Type.
  unfold with_imported. destruct (decide (n ∈ ids)) as [Hn|Hn]; destruct (I0 !! n) as [i|] eqn:E.
  - apply lookup_union_Some_l. by apply map_lookup_filter_Some.
  - rewrite lookup_union_r; [done|]. apply map_lookup_filter_None. by left.
  - rewrite lookup_union_r; [done|]. apply map_lookup_filter_None. right. intros j Hj Hx. by apply Hn.
  - rewrite lookup_union_r; [done|]. apply map_lookup_filter_None. by left.
Qed.

(** The layers of a store can be packed. *)
Lemma stored_packable (D : disk) (I : infos) n i : layer_stored debug D I n i -> packable D n.
Proof using Type.
  intros [Hn Hd Hf _]. split; [done|]. split; [done|]. unfold complete, Disk.file_there, files_stored in *.
  destruct (info_parent i) as [p|].
  - destruct Hf as (Hp & ip & maps & _ & _ & _ & Hm & _). rewrite Hp, bool_decide_eq_true_2 by by eexists.
    unfold has_child, child_entries, dictionary_entries, id_map_entries, adjacency_entries, bit_index_entries in Hm. file_lookups.
    repeat constructor; unfold Disk.lookup_file in *; cbn [fst snd child_handles] in *; eexists; eassumption.
  - destruct Hf as (_ & Hp & maps & Hm & _). rewrite Hp, bool_decide_eq_false_2 by by intros [].
    unfold has_base, base_entries, dictionary_entries, id_map_entries, adjacency_entries, bit_index_entries in Hm. file_lookups.
    repeat constructor; unfold Disk.lookup_file in *; cbn [fst snd base_handles] in *; eexists; eassumption.
Qed.

(** A directory that holds what the layer's did holds the layer. *)
Lemma imported_stored (D0 D : disk) (I0 I : infos) (ids ns : list layer_name) n i : NoDup ns -> n ∈ ids -> n ∈ ns ->
  layer_stored debug D0 I0 n i -> (forall p, info_parent i = Some p -> with_imported I0 I ids !! p = I0 !! p) ->
  layer_stored debug (imported D0 D ids ns) (with_imported I0 I ids) n i.
Proof using Type.
  intros Hns Hids Hin [Hn Hd Hf _] Hpar. pose proof (imported_lookup D0 D ids ns n) as Hl.
  pose proof written_packed as [Wb Wc]. rewrite Forall_forall in Wb. rewrite Forall_forall in Wc. pose proof parent_packed as [P1 P2].
  split; [done|by apply imported_dir| |].
  - unfold files_stored in *. destruct (info_parent i) as [p|].
    + destruct Hf as (Hp & ip & maps & Hip & Hdep & Hk & Hm & Hload). unfold Disk.file_there in Hl. rewrite Hp in Hl.
      rewrite bool_decide_eq_true_2 in Hl by by eexists. split; [by rewrite Hl, decide_True|]. exists ip, maps.
      split; [by rewrite Hpar|]. split; [done|]. split; [done|]. split; [|done]. eapply has_child_same; [|exact Hm].
      intros f Hf. by rewrite Hl, decide_True by (done || by apply Wc).
    + destruct Hf as (Hdep & Hp & maps & Hm & Hload). unfold Disk.file_there in Hl. rewrite Hp in Hl.
      rewrite bool_decide_eq_false_2 in Hl by by intros []. split; [done|]. split; [by rewrite Hl, decide_False|]. exists maps. split; [|done].
      eapply has_base_same; [|exact Hm]. intros f Hf. by rewrite Hl, decide_True by (done || by apply Wb).
  - left. rewrite Hl by done. rewrite decide_False; [done|]. apply rollup_not_packed.
Qed.

(** Importing layers into a store adds what the store they come from says of
    them, if the parents come along or are the same layers already. *)
Lemma imported_ok (D0 D : disk) (I0 I : infos) (ids ns : list layer_name) : store_ok debug D0 I0 -> store_ok debug D I ->
  NoDup ns -> (forall n, n ∈ ids -> n ∈ ns /\ is_Some (I0 !! n) /\ D !! n = None) ->
  (forall n i p, n ∈ ids -> I0 !! n = Some i -> info_parent i = Some p -> p ∈ ids \/ I !! p = I0 !! p) ->
  store_ok debug (imported D0 D ids ns) (with_imported I0 I ids).
Proof using Type.
  intros HI0 HI Hns Hids Hpar n i Hi. assert (Hnew : forall x j, I !! x = Some j -> (x ∉ ids)).
  { intros x j Hx Hin. destruct (Hids x Hin) as (_ & _ & HD). destruct (HI x j Hx) as [_ [d Hd] _ _]. congruence. }
  pose proof (with_imported_lookup I0 I ids) as Hw. rewrite Hw in Hi. destruct (decide (n ∈ ids)) as [Hn|Hn].
  - destruct (Hids n Hn) as (Hin & [j Hj] & _). rewrite Hj in Hi. injection Hi as ->. apply imported_stored; [done..|by apply HI0|].
    intros p Hp. rewrite Hw. destruct (Hpar n i p Hn Hj Hp) as [Hpi|E]; case_decide as Hc; try done.
    + by destruct (Hids p Hpi) as (_ & [jp ->] & _).
    + destruct (I0 !! p) as [ip|]; [done|exact E].
  - apply (layer_stored_mono debug D (imported D0 D ids ns) I); [|..|done|by apply HI].
    + apply map_subseteq_spec. intros x j Hx. rewrite Hw, decide_False; [done|]. by eapply Hnew.
    + intros x j Hx. apply imported_other. by eapply Hnew.
Qed.
End layers.
