(* ===== verification/CachedStores.v ===== *)
(** * The store with a cache (src/storage/cache.rs)

    [CachedLayerStore] puts a cache in front of a store: what a loaded layer
    knows is answered from the cache, unless the layer is a rollup, which
    knows nothing of the layer's own changes and dictionaries. *)

From stdpp Require Import gmap.
From S2P Require Import Prelude.
From S2P Require Import Words.
From S2P Require Import Codec.
From S2P Require Import Strings.
From S2P Require Import PfcBlocks.
From S2P Require Import PfcDicts.
From S2P Require Import LayerTypes.
From S2P Require Import Triples.
From S2P Require Import IdMaps.
From S2P Require Import TripleBuilder.
From S2P Require Import Iterators.
From S2P Require Import Stacks.
From S2P Require Import InternalLayers.
From S2P Require Import LayerTriples.
From S2P Require Import LayerRefinement.
From S2P Require Import LayerBuilders.
From S2P Require Import Rollups.
From S2P Require Import SimpleBuilder.
From S2P Require Import Names.
From S2P Require Import StoreMonad.
From S2P Require Import Files.
From S2P Require Import Directories.
From S2P Require Import Packs.
From S2P Require Import Caches.
From S2P Require Import LayerStores.
From S2P Require Import LayerWrites.
Open Scope N_scope.

Module CachedLayerStore.
Section cached_store.
Context {S F C : Type} `{PersistentLayerStore S F} `{LayerCache C}.
Context `{BytesSize} `{FramedRead} `{Log2F32} `{ParSort} `{RayonSort} (debug : bool).

(** The fields [inner] and [cache]. *)
Definition t : Type := S * C.

(** [CachedLayerStore::invalidate]. *)
Definition forget (name : layer_name) : io t () := on_cache (fun c => (Caches.invalidate name c, ())).

(** What the cached layer says, or else the store, when it is not cached or
    cached as a rollup. *)
Definition unless_rollup {A} (name : layer_name) (answer : InternalLayer -> option A) (inner : io S A) : io t A :=
  cached ← from_cache name;
  match cached with
  | Some layer => if negb (Internal.is_rollup layer) then io_opt (answer layer) else on_store inner
  | None => on_store inner
  end.

Definition get_layer (fuel : nat) (name : layer_name) : io t (option InternalLayer) := get_layer_with_cache debug fuel name.

(** Rollups answer this themselves. *)
Definition get_layer_parent_name (name : layer_name) : io t (option layer_name) :=
  cached ← from_cache name;
  match cached with
  | Some layer => mret (Internal.parent_name layer)
  | None => on_store (LayerStores.get_layer_parent_name name)
  end.

Definition get_node_dictionary (name : layer_name) : io t (option PfcDict.t) :=
  unless_rollup name (fun l => Some (Some (Internal.node_dictionary l))) (LayerStores.get_node_dictionary name).
Definition get_predicate_dictionary (name : layer_name) : io t (option PfcDict.t) :=
  unless_rollup name (fun l => Some (Some (Internal.predicate_dictionary l))) (LayerStores.get_predicate_dictionary name).
Definition get_value_dictionary (name : layer_name) : io t (option PfcDict.t) :=
  unless_rollup name (fun l => Some (Some (Internal.value_dictionary l))) (LayerStores.get_value_dictionary name).

Definition get_node_count (name : layer_name) : io t (option N) :=
  unless_rollup name (fun l => Some (Some (PfcDict.len (Internal.node_dictionary l)))) (LayerStores.get_node_count name).
(** The store is asked for the number of values. *)
Definition get_predicate_count (name : layer_name) : io t (option N) :=
  unless_rollup name (fun l => Some (Some (PfcDict.len (Internal.predicate_dictionary l)))) (LayerStores.get_value_count name).
Definition get_value_count (name : layer_name) : io t (option N) :=
  unless_rollup name (fun l => Some (Some (PfcDict.len (Internal.value_dictionary l)))) (LayerStores.get_value_count name).

Definition get_node_value_idmap (name : layer_name) : io t (option IdMap.t) :=
  unless_rollup name (fun l => Some (Some (Internal.node_value_id_map l))) (LayerStores.get_node_value_idmap name).
Definition get_predicate_idmap (name : layer_name) : io t (option IdMap.t) :=
  unless_rollup name (fun l => Some (Some (Internal.predicate_id_map l))) (LayerStores.get_predicate_idmap name).

Definition create_base_layer (random : layer_name) : io t (FileLayerBuilder.t F) :=
  on_store (LayerWrites.create_base_layer random).
Definition create_child_layer (fuel : nat) (random parent : layer_name) : io t (FileLayerBuilder.t F) :=
  create_child_layer_with_cache debug fuel random parent.

Definition perform_rollup (random : layer_name) (layer : InternalLayer) : io t layer_name :=
  on_store (LayerWrites.perform_rollup debug random layer).
Definition perform_rollup_upto (fuel : nat) (random : layer_name) (layer : InternalLayer) (upto : layer_name) : io t layer_name :=
  perform_rollup_upto_with_cache debug fuel random layer upto.

(** The cached layer is not the rollup: it is forgotten. *)
Definition register_rollup (layer rollup : layer_name) : io t () :=
  _ ← on_store (LayerWrites.register_rollup layer rollup);
  forget layer.

(** The provided methods of the trait, with the methods above. *)
Definition rollup (random : layer_name) (layer : InternalLayer) : io t layer_name :=
  let name := Internal.name layer in
  rollup ← perform_rollup random layer;
  _ ← register_rollup name rollup;
  mret rollup.

Definition rollup_upto (fuel : nat) (random : layer_name) (layer : InternalLayer) (upto : layer_name) : io t layer_name :=
  let name := Internal.name layer in
  rollup ← perform_rollup_upto_with_cache debug fuel random layer upto;
  _ ← register_rollup name rollup;
  mret rollup.

(** Not redefined, so the parent is loaded with no cache. *)
Definition without_cache {A} (m : io (S * NoCache.t) A) : io t A :=
  fun sc => let '(s', r) := m (sc.1, ()) in ((s'.1, sc.2), r).
Definition imprecise_rollup_upto (fuel : nat) (random : layer_name) (layer : InternalLayer) (upto : layer_name) : io t layer_name :=
  let name := Internal.name layer in
  rollup ← without_cache (perform_imprecise_rollup_upto_with_cache debug fuel random layer upto);
  _ ← register_rollup name rollup;
  mret rollup.

Definition layer_is_ancestor_of (fuel : nat) (descendant ancestor : layer_name) : io t bool :=
  on_store (LayerStores.layer_is_ancestor_of fuel descendant ancestor).
Definition retrieve_layer_stack_names (fuel : nat) (name : layer_name) : io t (list layer_name) :=
  on_store (LayerStores.retrieve_layer_stack_names fuel name).
Definition retrieve_layer_stack_names_upto (fuel : nat) (name upto : layer_name) : io t (list layer_name) :=
  on_store (LayerStores.retrieve_layer_stack_names_upto fuel name upto).

Definition triple_addition_exists (layer : layer_name) (subject predicate object : N) : io t bool :=
  unless_rollup layer (fun l => Internal.internal_triple_addition_exists l subject predicate object)
    (LayerStores.triple_addition_exists debug layer subject predicate object).
Definition triple_removal_exists (layer : layer_name) (subject predicate object : N) : io t bool :=
  unless_rollup layer (fun l => Internal.internal_triple_removal_exists l subject predicate object)
    (LayerStores.triple_removal_exists debug layer subject predicate object).
Definition triple_additions (layer : layer_name) : io t OptInternalLayerTripleSubjectIterator.t :=
  unless_rollup layer (fun l => Some (Internal.internal_triple_additions l)) (LayerStores.triple_additions debug layer).
Definition triple_removals (layer : layer_name) : io t OptInternalLayerTripleSubjectIterator.t :=
  unless_rollup layer (fun l => Some (Internal.internal_triple_removals l)) (LayerStores.triple_removals debug layer).
Definition triple_additions_s (layer : layer_name) (subject : N) : io t (list IdTriple.t) :=
  unless_rollup layer (fun l => Internal.internal_triple_additions_s l subject) (LayerStores.triple_additions_s debug layer subject).
Definition triple_removals_s (layer : layer_name) (subject : N) : io t (list IdTriple.t) :=
  unless_rollup layer (fun l => Internal.internal_triple_removals_s l subject) (LayerStores.triple_removals_s debug layer subject).
Definition triple_additions_sp (layer : layer_name) (subject predicate : N) : io t (list IdTriple.t) :=
  unless_rollup layer (fun l => Internal.internal_triple_additions_sp l subject predicate)
    (LayerStores.triple_additions_sp debug layer subject predicate).
Definition triple_removals_sp (layer : layer_name) (subject predicate : N) : io t (list IdTriple.t) :=
  unless_rollup layer (fun l => Internal.internal_triple_removals_sp l subject predicate)
    (LayerStores.triple_removals_sp debug layer subject predicate).
Definition triple_additions_p (layer : layer_name) (predicate : N) : io t OptInternalLayerTriplePredicateIterator.t :=
  unless_rollup layer (fun l => Internal.internal_triple_additions_p l predicate) (LayerStores.triple_additions_p debug layer predicate).
Definition triple_removals_p (layer : layer_name) (predicate : N) : io t OptInternalLayerTriplePredicateIterator.t :=
  unless_rollup layer (fun l => Internal.internal_triple_removals_p l predicate) (LayerStores.triple_removals_p debug layer predicate).
Definition triple_additions_o (layer : layer_name) (object : N) : io t (list IdTriple.t) :=
  unless_rollup layer (fun l => Internal.internal_triple_additions_o l object) (LayerStores.triple_additions_o debug layer object).
Definition triple_removals_o (layer : layer_name) (object : N) : io t (list IdTriple.t) :=
  unless_rollup layer (fun l => Internal.internal_triple_removals_o l object) (LayerStores.triple_removals_o debug layer object).
Definition triple_layer_addition_count (layer : layer_name) : io t N :=
  unless_rollup layer Internal.internal_triple_layer_addition_count (LayerStores.triple_layer_addition_count layer).
Definition triple_layer_removal_count (layer : layer_name) : io t N :=
  unless_rollup layer Internal.internal_triple_layer_removal_count (LayerStores.triple_layer_removal_count layer).

(** *** The rest of the trait *)

Definition new (inner : S) (cache : C) : t := (inner, cache).

Definition layers `{DirectoryListing S} : io t (list layer_name) := on_store Provided.layers.

Definition perform_imprecise_rollup_upto (fuel : nat) (random : layer_name) (layer : InternalLayer) (upto : layer_name) : io t layer_name :=
  perform_imprecise_rollup_upto_with_cache debug fuel random layer upto.

(** The macros' loops, over the methods above; the body reads the changes of
    the layer that was asked for. *)
Definition changes_body (name : layer_name) (_current : layer_name)
    : io t (OptInternalLayerTripleSubjectIterator.t * OptInternalLayerTripleSubjectIterator.t) :=
  positive ← triple_additions name;
  negative ← triple_removals name;
  mret (positive, negative).

Fixpoint walk_backwards {A} (fuel : nat) (upto : option layer_name) (current : layer_name) (body : layer_name -> io t A) : io t (list A) :=
  match fuel with
  | O => io_panic
  | Datatypes.S fuel =>
      if decide (upto = Some current) then mret []
      else
        a ← body current;
        parent ← get_layer_parent_name current;
        match parent with
        | Some parent => rest ← walk_backwards fuel upto parent body; mret (a :: rest)
        | None => if upto is Some _ then io_err NotFound else mret [a]
        end
  end.

Definition layer_changes (fuel : nat) (name : layer_name) : io t InternalTripleStackIterator.t :=
  changes ← walk_backwards fuel None name (changes_body name);
  mret (InternalTripleStackIterator.from_parts (rev changes.*1) (rev changes.*2)).

Definition layer_changes_upto (fuel : nat) (name upto : layer_name) : io t InternalTripleStackIterator.t :=
  changes ← walk_backwards fuel (Some upto) name (changes_body name);
  mret (InternalTripleStackIterator.from_parts (rev changes.*1) (rev changes.*2)).

(** The methods that are given a cache use that one, and leave their own. *)
Section with_callers_cache.
Context {C' : Type} `{LayerCache C'}.

Definition with_callers {A} (m : io (S * C') A) : io (t * C') A :=
  fun sc => let '((s, c), r) := m (sc.1.1, sc.2) in (((s, sc.1.2), c), r).

Definition get_layer_with_cache (fuel : nat) (name : layer_name) : io (t * C') (option InternalLayer) :=
  with_callers (LayerStores.get_layer_with_cache debug fuel name).
Definition create_child_layer_with_cache (fuel : nat) (random parent : layer_name) : io (t * C') (FileLayerBuilder.t F) :=
  with_callers (LayerWrites.create_child_layer_with_cache debug fuel random parent).
Definition perform_rollup_upto_with_cache (fuel : nat) (random : layer_name) (layer : InternalLayer) (upto : layer_name)
    : io (t * C') layer_name :=
  with_callers (LayerWrites.perform_rollup_upto_with_cache debug fuel random layer upto).
Definition perform_imprecise_rollup_upto_with_cache (fuel : nat) (random : layer_name) (layer : InternalLayer) (upto : layer_name)
    : io (t * C') layer_name :=
  with_callers (LayerWrites.perform_imprecise_rollup_upto_with_cache debug fuel random layer upto).
End with_callers_cache.

(** *** Packs *)

Definition export_layers `{PackFormat} (mtime : N) (layer_ids : list layer_name) : io t (list N) :=
  on_store (Packs.export_layers mtime layer_ids).
Definition import_layers `{PackFormat} (pack : list N) (layer_ids : list layer_name) : io t () :=
  on_store (Packs.import_layers pack layer_ids).
End cached_store.
End CachedLayerStore.
