(* ===== verification/Stores.v ===== *)
(** * The API of the store (src/store/mod.rs)

    A store is a label store and a cached layer store.  A builder can be shared
    and remembers that it has been committed; a layer knows the store it came
    from; a named graph is a label.  All handles of a store are the same store,
    so the store is the state of the operations, and a handle is only what it
    has of its own. *)

From stdpp Require Import gmap.
From S2P Require Import Prelude.
From S2P Require Import Words.
From S2P Require Import Codec.
From S2P Require Import Strings.
From S2P Require Import PfcBlocks.
From S2P Require Import PfcDicts.
From S2P Require Import LayerTypes.
From S2P Require Import LayerModel.
From S2P Require Import Triples.
From S2P Require Import IdMaps.
From S2P Require Import TripleBuilder.
From S2P Require Import Iterators.
From S2P Require Import Stacks.
From S2P Require Import InternalLayers.
From S2P Require Import LayerTriples.
From S2P Require Import LayerRefinement.
From S2P Require Import LayerBuilders.
From S2P Require Import Rollups.
From S2P Require Import SimpleBuilder.
From S2P Require Import Names.
From S2P Require Import StoreMonad.
From S2P Require Import Labels.
From S2P Require Import FileNames.
From S2P Require Import Files.
From S2P Require Import Directories.
From S2P Require Import DiskStores.
From S2P Require Import Packs.
From S2P Require Import Caches.
From S2P Require Import LayerStores.
From S2P Require Import LayerWrites.
From S2P Require Import CachedStores.
Open Scope N_scope.

(** ** Iterating *)

(** [par_bridge] of the rayon crate: the elements in whatever order the threads
    take them. *)
Class ParBridge : Type := {
  par_bridge {A} : list A -> list A;
  par_bridge_perm {A} (l : list A) : par_bridge l ≡ₚ l
}.

Fixpoint for_each {S A} (f : A -> io S ()) (l : list A) : io S () :=
  match l with
  | [] => mret ()
  | x :: l => _ ← f x; for_each f l
  end.

(** Nothing is done with the result, and [unwrap]. *)
Definition ignored {S} (m : io S ()) : io S () :=
  fun s => match m s with (s, Err _) => (s, Ok ()) | r => r end.
Definition unwrapped {S A} (m : io S A) : io S A :=
  fun s => match m s with (s, Err _) => (s, Panic) | r => r end.

(** A step of the second part of the state. *)
Definition on_second {S T A} (m : io T A) : io (S * T) A :=
  fun st => let '(t, r) := m st.2 in ((st.1, t), r).

(** A step with a new cell next to the state. *)
Definition with_cell {S T A} (t : T) (m : io (S * T) A) : io S A :=
  fun s => let '((s, _), r) := m (s, t) in (s, r).

(** ** The handles *)

Module StoreLayer.

(** The store of the layer is the state. *)
Record t : Type := wrap { layer : InternalLayer }.

End StoreLayer.

#[export] Instance store_layer `{BytesSize} : Layer StoreLayer.t := {|
  name self := name (StoreLayer.layer self);
  parent_name self := parent_name (StoreLayer.layer self);
  node_and_value_count self := node_and_value_count (StoreLayer.layer self);
  layer_predicate_count self := layer_predicate_count (StoreLayer.layer self);
  subject_id self subject := subject_id (StoreLayer.layer self) subject;
  predicate_id self predicate := predicate_id (StoreLayer.layer self) predicate;
  object_node_id self object := object_node_id (StoreLayer.layer self) object;
  object_value_id self object := object_value_id (StoreLayer.layer self) object;
  id_subject self id := id_subject (StoreLayer.layer self) id;
  id_predicate self id := id_predicate (StoreLayer.layer self) id;
  id_object self id := id_object (StoreLayer.layer self) id;
  all_counts self := all_counts (StoreLayer.layer self);
  triple_exists self subject predicate object := triple_exists (StoreLayer.layer self) subject predicate object;
  triples self := triples (StoreLayer.layer self);
  triples_s self subject := triples_s (StoreLayer.layer self) subject;
  triples_sp self subject predicate := triples_sp (StoreLayer.layer self) subject predicate;
  triples_p self predicate := triples_p (StoreLayer.layer self) predicate;
  triples_o self object := triples_o (StoreLayer.layer self) object;
  triple_addition_count self := triple_addition_count (StoreLayer.layer self);
  triple_removal_count self := triple_removal_count (StoreLayer.layer self)
|}.

Module StoreLayerBuilder.

(** [builder] is a cell that the clones of the builder share; it is [None] once
    the builder is committed. *)
Record t (F : Type) : Type := mk {
  parent : option InternalLayer;
  builder : option (FileLayerBuilder.t F);
  name : layer_name
}.
Arguments mk {F}. Arguments parent {F}. Arguments builder {F}. Arguments name {F}.

Section builder.
Context {F : Type}.

Definition wrap (builder : FileLayerBuilder.t F) : t F :=
  mk (FileLayerBuilder.parent builder) (Some builder) (FileLayerBuilder.name builder).

Definition with_builder (f : FileLayerBuilder.t F -> FileLayerBuilder.t F) : io (t F) () :=
  fun self => match builder self with
              | None => (self, Err InvalidData)
              | Some b => (mk (parent self) (Some (f b)) (name self), Ok ())
              end.

Definition add_string_triple (triple : StringTriple.t) : io (t F) () :=
  with_builder (fun b => FileLayerBuilder.add_string_triple b triple).
Definition add_id_triple (triple : IdTriple.t) : io (t F) () :=
  with_builder (fun b => FileLayerBuilder.add_id_triple b triple).
Definition remove_string_triple (triple : StringTriple.t) : io (t F) () :=
  with_builder (fun b => FileLayerBuilder.remove_string_triple b triple).
Definition remove_id_triple (triple : IdTriple.t) : io (t F) () :=
  with_builder (fun b => FileLayerBuilder.remove_id_triple b triple).

Definition committed (self : t F) : bool := bool_decide (builder self = None).

(** Takes the builder out of the cell. *)
Definition take : io (t F) (option (FileLayerBuilder.t F)) :=
  fun self => (mk (parent self) None (name self), Ok (builder self)).

Context `{BytesSize} `{ParBridge}.

(** The changes from the parent of the builder to [other]; the two parts run in
    parallel, on different lists of the builder. *)
Definition diff_removals (other : StoreLayer.t) (this : InternalLayer) : io (t F) () :=
  ts ← io_opt (triples this);
  for_each (fun x =>
    st ← io_opt (id_triple_to_string this x);
    match st with
    | Some st =>
        b ← io_opt (string_triple_exists other st);
        if negb b then unwrapped (remove_string_triple st) else mret ()
    | None => mret ()
    end) (par_bridge ts).

Definition diff_additions (other : StoreLayer.t) : io (t F) () :=
  ts ← io_opt (triples other);
  for_each (fun x =>
    st ← io_opt (id_triple_to_string other x);
    match st with
    | Some st =>
        self ← io_get;
        match parent self with
        | Some this =>
            b ← io_opt (string_triple_exists this st);
            if negb b then unwrapped (add_string_triple st) else mret ()
        | None => unwrapped (add_string_triple st)
        end
    | None => mret ()
    end) (par_bridge ts).

Definition apply_diff (other : StoreLayer.t) : io (t F) () :=
  self ← io_get;
  _ ← (match parent self with Some this => diff_removals other this | None => mret () end);
  diff_additions other.
End builder.
End StoreLayerBuilder.

(** ** The store *)

Section store.
Context {L S F C : Type} `{LabelStore L} `{PersistentLayerStore S F} `{LayerCache C}.
Context `{BytesSize} `{FramedRead} `{Log2F32} `{ParSort} `{RayonSort} `{ParBridge} (debug : bool).

(** The fields [label_store] and [layer_store]. *)
Definition Store : Type := L * (S * C).

Definition on_labels {A} (m : io L A) : io Store A := on_store m.
Definition on_layers {A} (m : io (S * C) A) : io Store A := on_second m.

(** Together with a builder. *)
Abbreviation with_builder_cell := (Store * StoreLayerBuilder.t F)%type.

Definition get_layer_from_id (fuel : nat) (layer : layer_name) : io Store (option StoreLayer.t) :=
  layer ← on_layers (CachedLayerStore.get_layer debug fuel layer);
  mret (StoreLayer.wrap <$> layer).

(** [StoreLayerBuilder::new] and [Store::create_base_layer]. *)
Definition new_builder (random : layer_name) : io Store (StoreLayerBuilder.t F) :=
  builder ← on_layers (CachedLayerStore.create_base_layer random);
  mret (StoreLayerBuilder.wrap builder).
Definition store_create_base_layer (random : layer_name) : io Store (StoreLayerBuilder.t F) := new_builder random.

(** *** Committing *)

Definition commit_no_load : io with_builder_cell () :=
  builder ← on_second StoreLayerBuilder.take;
  match builder with
  | None => io_err InvalidData
  | Some builder => on_store (on_layers (on_store (FileLayerBuilder.commit builder)))
  end.

Definition commit (fuel : nat) : io with_builder_cell StoreLayer.t :=
  self ← on_second io_get;
  _ ← commit_no_load;
  layer ← on_store (on_layers (CachedLayerStore.get_layer debug fuel (StoreLayerBuilder.name self)));
  layer ← io_opt layer;
  mret (StoreLayer.wrap layer).

(** The changes of a layer, read from its files or from the cache; a triple of
    which the layer does not know the strings is skipped, and that the builder
    may have been committed is ignored. *)
Definition delta_changes (add : StringTriple.t -> io (StoreLayerBuilder.t F) ()) (delta : StoreLayer.t)
    (changes : OptInternalLayerTripleSubjectIterator.t) : io (StoreLayerBuilder.t F) () :=
  ts ← io_opt (it_collect (iterator_fuel changes) changes);
  for_each (fun x =>
    st ← io_opt (id_triple_to_string delta x);
    match st with Some st => ignored (add st) | None => mret () end) (par_bridge ts).

Definition apply_delta (delta : StoreLayer.t) : io with_builder_cell () :=
  triple_additions ← on_store (on_layers (CachedLayerStore.triple_additions debug (Internal.name (StoreLayer.layer delta))));
  triple_removals ← on_store (on_layers (CachedLayerStore.triple_removals debug (Internal.name (StoreLayer.layer delta))));
  _ ← on_second (delta_changes StoreLayerBuilder.add_string_triple delta triple_additions);
  on_second (delta_changes StoreLayerBuilder.remove_string_triple delta triple_removals).

(** *** Layers *)

Definition open_write (fuel : nat) (random : layer_name) (self : StoreLayer.t) : io Store (StoreLayerBuilder.t F) :=
  layer ← on_layers (CachedLayerStore.create_child_layer debug fuel random (name self));
  mret (StoreLayerBuilder.wrap layer).

Definition parent_layer (fuel : nat) (self : StoreLayer.t) : io Store (option StoreLayer.t) :=
  match parent_name self with
  | None => mret None
  | Some parent_name =>
      layer ← on_layers (CachedLayerStore.get_layer debug fuel parent_name);
      match layer with
      | None => io_err NotFound
      | Some layer => mret (Some (StoreLayer.wrap layer))
      end
  end.

Definition squash (fuel : nat) (random : layer_name) (self : StoreLayer.t) : io Store StoreLayer.t :=
  new_builder ← store_create_base_layer random;
  with_cell new_builder (
    ts ← io_opt (triples self);
    _ ← on_second (for_each (fun x =>
          st ← io_opt (id_triple_to_string self x);
          st ← io_opt st;
          unwrapped (StoreLayerBuilder.add_string_triple st)) (par_bridge ts));
    commit fuel).

(** The layer as the layer store has it. *)
Definition loaded_layer (fuel : nat) (self : StoreLayer.t) : io Store InternalLayer :=
  layer_opt ← on_layers (CachedLayerStore.get_layer debug fuel (name self));
  match layer_opt with
  | None => io_err NotFound
  | Some layer => mret layer
  end.

Definition store_layer_rollup (fuel : nat) (random : layer_name) (self : StoreLayer.t) : io Store () :=
  layer ← loaded_layer fuel self;
  _ ← on_layers (CachedLayerStore.rollup debug random layer);
  mret ().

Definition store_layer_rollup_upto (fuel : nat) (random : layer_name) (self upto : StoreLayer.t) : io Store () :=
  layer ← loaded_layer fuel self;
  _ ← on_layers (CachedLayerStore.rollup_upto debug fuel random layer (name upto));
  mret ().

Definition store_layer_imprecise_rollup_upto (fuel : nat) (random : layer_name) (self upto : StoreLayer.t) : io Store () :=
  layer ← loaded_layer fuel self;
  _ ← on_layers (CachedLayerStore.imprecise_rollup_upto debug fuel random layer (name upto));
  mret ().

(** What was added and removed in a layer. *)
Definition store_layer_triple_addition_exists (self : StoreLayer.t) (subject predicate object : N) : io Store bool :=
  on_layers (CachedLayerStore.triple_addition_exists debug (name self) subject predicate object).
Definition store_layer_triple_removal_exists (self : StoreLayer.t) (subject predicate object : N) : io Store bool :=
  on_layers (CachedLayerStore.triple_removal_exists debug (name self) subject predicate object).
Definition store_layer_triple_additions (self : StoreLayer.t) : io Store OptInternalLayerTripleSubjectIterator.t :=
  on_layers (CachedLayerStore.triple_additions debug (name self)).
Definition store_layer_triple_removals (self : StoreLayer.t) : io Store OptInternalLayerTripleSubjectIterator.t :=
  on_layers (CachedLayerStore.triple_removals debug (name self)).
Definition store_layer_triple_additions_s (self : StoreLayer.t) (subject : N) : io Store (list IdTriple.t) :=
  on_layers (CachedLayerStore.triple_additions_s debug (name self) subject).
Definition store_layer_triple_removals_s (self : StoreLayer.t) (subject : N) : io Store (list IdTriple.t) :=
  on_layers (CachedLayerStore.triple_removals_s debug (name self) subject).
Definition store_layer_triple_additions_sp (self : StoreLayer.t) (subject predicate : N) : io Store (list IdTriple.t) :=
  on_layers (CachedLayerStore.triple_additions_sp debug (name self) subject predicate).
Definition store_layer_triple_removals_sp (self : StoreLayer.t) (subject predicate : N) : io Store (list IdTriple.t) :=
  on_layers (CachedLayerStore.triple_removals_sp debug (name self) subject predicate).
Definition store_layer_triple_additions_p (self : StoreLayer.t) (predicate : N) : io Store OptInternalLayerTriplePredicateIterator.t :=
  on_layers (CachedLayerStore.triple_additions_p debug (name self) predicate).
Definition store_layer_triple_removals_p (self : StoreLayer.t) (predicate : N) : io Store OptInternalLayerTriplePredicateIterator.t :=
  on_layers (CachedLayerStore.triple_removals_p debug (name self) predicate).
Definition store_layer_triple_additions_o (self : StoreLayer.t) (object : N) : io Store (list IdTriple.t) :=
  on_layers (CachedLayerStore.triple_additions_o debug (name self) object).
Definition store_layer_triple_removals_o (self : StoreLayer.t) (object : N) : io Store (list IdTriple.t) :=
  on_layers (CachedLayerStore.triple_removals_o debug (name self) object).
Definition store_layer_triple_layer_addition_count (self : StoreLayer.t) : io Store N :=
  on_layers (CachedLayerStore.triple_layer_addition_count (name self)).
Definition store_layer_triple_layer_removal_count (self : StoreLayer.t) : io Store N :=
  on_layers (CachedLayerStore.triple_layer_removal_count (name self)).
Definition store_layer_retrieve_layer_stack_names (fuel : nat) (self : StoreLayer.t) : io Store (list layer_name) :=
  on_layers (CachedLayerStore.retrieve_layer_stack_names fuel (name self)).
End store.
Arguments Store : clear implicits.

(** ** Named graphs *)

Module NamedGraph.

(** The store of the graph is the state. *)
Record t : Type := new { label : list N }.

Definition name (self : t) : list N := label self.

Section graph.
Context {L S F C : Type} `{LabelStore L} `{PersistentLayerStore S F} `{LayerCache C}.
Context `{BytesSize} `{FramedRead} `{Log2F32} `{ParSort} `{RayonSort} `{ParBridge} (debug : bool).

Definition head_version (fuel : nat) (self : t) : io (Store L S C) (option StoreLayer.t * N) :=
  new_label ← on_labels (get_label (label self));
  match new_label with
  | None => io_err NotFound
  | Some new_label =>
      layer ← (match Label.layer new_label with
               | None => mret None
               | Some layer =>
                   layer ← on_layers (CachedLayerStore.get_layer debug fuel layer);
                   match layer with
                   | None => io_err NotFound
                   | Some layer => mret (Some (StoreLayer.wrap layer))
                   end
               end);
      mret (layer, Label.version new_label)
  end.

Definition head (fuel : nat) (self : t) : io (Store L S C) (option StoreLayer.t) :=
  '(layer, _) ← head_version fuel self;
  mret layer.

(** The first half of [set_head]: the label as it was read, and whether the
    layer may follow the label's.  Other handles can act before the second
    half. *)
Definition read_head (fuel : nat) (self : t) (layer : StoreLayer.t) : io (Store L S C) (Label.t * bool) :=
  let layer_name := LayerTypes.name layer in
  label ← on_labels (get_label (label self));
  match label with
  | None => io_err NotFound
  | Some label =>
      set_is_ok ← (match Label.layer label with
                   | None => mret true
                   | Some retrieved_layer_name =>
                       on_layers (CachedLayerStore.layer_is_ancestor_of fuel layer_name retrieved_layer_name)
                   end);
      mret (label, set_is_ok)
  end.

(** The second half.  What [set_label] gives is not looked at. *)
Definition write_head (layer : StoreLayer.t) (read : Label.t * bool) : io (Store L S C) bool :=
  let '(label, set_is_ok) := read in
  if set_is_ok : bool then _ ← on_labels (set_label label (LayerTypes.name layer)); mret set_is_ok
  else mret set_is_ok.

Definition set_head (fuel : nat) (self : t) (layer : StoreLayer.t) : io (Store L S C) bool :=
  read ← read_head fuel self layer;
  write_head layer read.

Definition force_set_head (self : t) (layer : StoreLayer.t) : io (Store L S C) () :=
  let layer_name := LayerTypes.name layer in
  label ← on_labels (get_label (label self));
  match label with
  | None => io_err NotFound
  | Some label => _ ← on_labels (set_label label layer_name); mret ()
  end.

Definition force_set_head_version (self : t) (layer : StoreLayer.t) (version : N) : io (Store L S C) bool :=
  let layer_name := LayerTypes.name layer in
  label ← on_labels (get_label (label self));
  match label with
  | None => io_err NotFound
  | Some label =>
      if negb (Label.version label =? version) then mret false
      else _ ← on_labels (set_label label layer_name); mret true
  end.
End graph.
End NamedGraph.

Section graphs.
Context {L S C : Type} `{LabelStore L}.

Definition create (label : list N) : io (Store L S C) NamedGraph.t :=
  label ← on_labels (create_label label);
  mret (NamedGraph.new (Label.name label)).

Definition open (label : list N) : io (Store L S C) (option NamedGraph.t) :=
  label ← on_labels (get_label label);
  mret ((fun label => NamedGraph.new (Label.name label)) <$> label).

Definition delete (label : list N) : io (Store L S C) bool := on_labels (delete_label label).

(** [NamedGraph::delete]. *)
Definition delete_graph (self : NamedGraph.t) : io (Store L S C) () :=
  _ ← delete (NamedGraph.label self);
  mret ().
End graphs.

(** ** Packs *)

Section packs.
Context {L S F C : Type} `{PersistentLayerStore S F} `{LayerCache C} `{PackFormat}.

Definition store_export_layers (mtime : N) (layer_ids : list layer_name) : io (Store L S C) (list N) :=
  on_layers (CachedLayerStore.export_layers mtime layer_ids).

Definition store_import_layers (pack : list N) (layer_ids : list layer_name) : io (Store L S C) () :=
  on_layers (CachedLayerStore.import_layers pack layer_ids).
End packs.

(** ** The two kinds of stores *)

Definition open_memory_store : Store MemoryLabelStore.t MemoryLayerStore.t LockingHashMapLayerCache.t :=
  (MemoryLabelStore.new, (MemoryLayerStore.new, LockingHashMapLayerCache.new)).

(** The files that are at the path belong to the state. *)
Definition open_directory_store (labels : DirectoryLabelStore.t) (layers : DirectoryLayerStore.t)
    : Store DirectoryLabelStore.t DirectoryLayerStore.t LockingHashMapLayerCache.t :=
  (labels, CachedLayerStore.new layers LockingHashMapLayerCache.new).
