(* ===== verification/StoreSpecs.v ===== *)
(** * What the API of the store does

    [good]: the labels of a store are those of a table, its directories are
    those of a disk on which every layer has its meaning, and the cache gives
    only layers that mean what the store says.  Every operation keeps this,
    over any label store, any store of directories and any cache that satisfy
    their laws. *)

From stdpp Require Import gmap relations.
From S2P Require Import Prelude.
From S2P Require Import Words.
From S2P Require Import Codec.
From S2P Require Import Strings.
From S2P Require Import PfcBlocks.
From S2P Require Import PfcDicts.
From S2P Require Import LayerTypes.
From S2P Require Import LayerModel.
From S2P Require Import Triples.
From S2P Require Import IdMaps.
From S2P Require Import TripleBuilder.
From S2P Require Import Iterators.
From S2P Require Import Stacks.
From S2P Require Import InternalLayers.
From S2P Require Import LayerTriples.
From S2P Require Import LayerRefinement.
From S2P Require Import LayerBuilders.
From S2P Require Import BuiltLayers.
From S2P Require Import Rollups.
From S2P Require Import SimpleBuilder.
From S2P Require Import Commits.
From S2P Require Import Names.
From S2P Require Import StoreMonad.
From S2P Require Import Labels.
From S2P Require Import FileNames.
From S2P Require Import Files.
From S2P Require Import Directories.
From S2P Require Import DiskStores.
From S2P Require Import StoreRefinement.
From S2P Require Import Caches.
From S2P Require Import LayerStores.
From S2P Require Import StoredLayers.
From S2P Require Import LayerWrites.
From S2P Require Import LoadedLayers.
From S2P Require Import StoreGrowth.
From S2P Require Import StoreViews.
From S2P Require Import CachedStores.
From S2P Require Import Stores.
Open Scope N_scope.

(** ** Steps of the parts *)

Section steps.
Context {S T A : Type}.

Lemma on_second_steps (m : io T A) (s : S) t t' a : runs m t t' a -> runs (on_second m : io (S * T) A) (s, t) (s, t') a.
Proof using. unfold runs, on_second. cbn [fst snd]. by intros ->. Qed.

Lemma with_cell_steps (m : io (S * T) A) s s' t t' a : runs m (s, t) (s', t') a -> runs (with_cell t m) s s' a.
Proof using. unfold runs, with_cell. by intros ->. Qed.
End steps.

Section specs.
Context {L S F C : Type} `{LabelStore L} `{PersistentLayerStore S F} `{LayerCache C}.
Context (shown : L -> gmap (list N) Label.t -> Prop) `{!LabelStoreLaws L shown}.
Context (shows : S -> disk -> Prop) (ext : S -> S -> Prop) (denotes : S -> F -> layer_name * filename -> Prop) `{!DiskLaws S F shows ext denotes}.
Context (holds : (layer_name -> InternalLayer -> Prop) -> C -> Prop) `{!CacheLaws C holds}.
Context `{BytesSize} `{FramedRead} `{Log2F32} `{ParSort} `{RayonSort} `{ParBridge} (debug : bool).

(** A layer store that holds the layers of [I], on the disk [D]. *)
Record layers_good (sc : S * C) (D : disk) (I : infos) : Prop := {
  layers_shown : shows sc.1 D;
  layers_stored : store_ok debug D I;
  layers_cached : holds (cached_ok I) sc.2
}.

(** And the labels [m], which point to layers. *)
Record good (w : Store L S C) (D : disk) (I : infos) (m : gmap (list N) Label.t) : Prop := {
  good_labels : shown w.1 m;
  good_layers : layers_good w.2 D I;
  good_names n l : m !! n = Some l -> plain_name n /\ Label.name l = n;
  good_heads n l x : m !! n = Some l -> Label.layer l = Some x -> is_Some (I !! x)
}.

(** *** The layer store follows the disk *)

Lemma layers_run {A A'} (R : S -> A -> A' -> Prop) (mm : io (S * C) A) mm' sc D I c' D' a' :
  layers_good sc D I ->
  refines (with_cache shows) (on_stores ext) (fun sc => R sc.1) mm mm' sc (D, sc.2) ->
  runs mm' (D, sc.2) (D', c') a' -> exists s' a, runs mm sc (s', c') a /\ shows s' D' /\ ext sc.1 s' /\ R s' a a'.
Proof using.
  intros [Hs _ _] Hr Hrun. destruct (refines_runs _ _ _ _ _ _ _ _ _ Hr Hrun) as ([s' c1] & a & Hm & [Hs' Hc] & He & HR).
  cbn [fst snd] in *. subst c1. by exists s', a.
Qed.

Lemma start_shown sc D I : layers_good sc D I -> with_cache shows sc (D, sc.2).
Proof using. by intros [Hs _ _]. Qed.

Lemma get_layer_good sc D I fuel n i : layers_good sc D I -> I !! n = Some i -> (2 * info_depth i + 1 < fuel)%nat ->
  exists sc' l, runs (get_layer_with_cache debug fuel n) sc sc' (Some l) /\ layers_good sc' D I /\ means n i l.
Proof using CacheLaws0 DiskLaws0 H3.
  intros Hg Hi Hf. pose proof Hg as [Hs HI Hc]. destruct (get_layer_spec holds debug D I HI fuel n i sc.2 Hi Hc Hf) as (l & c' & Hrun & Hc' & Hl).
  destruct (layers_run (@same S (option InternalLayer)) _ _ sc D I c' D (Some l) Hg (get_layer_refines debug fuel n _ _ (start_shown _ _ _ Hg)) Hrun)
    as (s' & a & Hrun' & Hs' & _ & ->).
  exists (s', c'), l. done.
Qed.

(** *** Builders *)

(** The cell of a builder whose layer is the child of [p], or a base. *)
Definition builds_child (sc : S * C) (D : disk) (I : infos) (b : FileLayerBuilder.t F) (p : layer_name) (ip : layer_info) (pl : InternalLayer) : Prop :=
  exists b', same_builder (denotes := denotes) sc.1 b b' /\ building_child D I b' p ip pl.
Definition builds_base (sc : S * C) (D : disk) (I : infos) (b : FileLayerBuilder.t F) : Prop :=
  exists b', same_builder (denotes := denotes) sc.1 b b' /\ building_base D I b'.

Lemma commit_child_good sc D I b p ip pl M : layers_good sc D I -> builds_child sc D I b p ip pl ->
  let s := FileLayerBuilder.builder b in
  let n := FileLayerBuilder.name b in
  let k := info_bound ip + lenN (SimpleLayerBuilder.additions s) + lenN (SimpleLayerBuilder.id_additions s) in
  Forall nonempty_strings (SimpleLayerBuilder.additions s ++ SimpleLayerBuilder.removals s) ->
  commit_input (info_model ip) (SimpleLayerBuilder.additions s) (SimpleLayerBuilder.id_additions s)
    (SimpleLayerBuilder.removals s) (SimpleLayerBuilder.id_removals s) M -> k < 2 ^ 64 ->
  exists sc' D' m, runs (on_store (FileLayerBuilder.commit b) : io (S * C) ()) sc sc' () /\
    layers_good sc' D' (<[n := mk_info m k (Some p) (Datatypes.S (info_depth ip))]> I) /\ I !! n = None /\
    committed (info_model ip) m (SimpleLayerBuilder.additions s) (SimpleLayerBuilder.id_additions s)
      (SimpleLayerBuilder.removals s) (SimpleLayerBuilder.id_removals s) /\ forall x, x <> n -> D' !! x = D !! x.
Proof using CacheLaws0 DiskLaws0.
  intros Hg (b' & Hb & Hbuild) s n k Hne Hin Hk. destruct sc as [st c]. pose proof Hg as [Hs HI Hc]. cbn [fst snd] in *.
  pose proof (commit_refines b b' st D Hs Hb) as Href. destruct Hb as [Eb _]. subst k n s. unfold FileLayerBuilder.name in *. rewrite Eb in *.
  pose proof Hbuild as (_ & Hi & _). unfold FileLayerBuilder.name in Hi.
  destruct (commit_child_runs debug D I b' p ip pl M HI Hbuild Hne Hin Hk) as (D' & m & Hrun & HI' & Hm & Hother).
  destruct (refines_runs _ _ _ _ _ _ _ _ _ Href Hrun) as (s' & a & Hrun' & Hs' & _ & ->).
  exists (s', c), D', m. split; [by apply on_store_steps|]. split; [|done]. split; [done|done|]. cbn [snd].
  by apply (cached_grows holds debug D I HI); [apply insert_subseteq|].
Qed.

Lemma commit_base_good sc D I b M : layers_good sc D I -> builds_base sc D I b ->
  let s := FileLayerBuilder.builder b in
  let n := FileLayerBuilder.name b in
  commit_input empty_model (SimpleLayerBuilder.additions s) (SimpleLayerBuilder.id_additions s)
    (SimpleLayerBuilder.removals s) (SimpleLayerBuilder.id_removals s) M ->
  exists sc' D' m, runs (on_store (FileLayerBuilder.commit b) : io (S * C) ()) sc sc' () /\
    layers_good sc' D' (<[n := mk_info m (lenN (SimpleLayerBuilder.additions s) + lenN (SimpleLayerBuilder.id_additions s)) None 0]> I) /\
    I !! n = None /\ committed_base m (SimpleLayerBuilder.additions s) (SimpleLayerBuilder.removals s) /\ forall x, x <> n -> D' !! x = D !! x.
Proof using CacheLaws0 DiskLaws0.
  intros Hg (b' & Hb & Hbuild) s n Hin. destruct sc as [st c]. pose proof Hg as [Hs HI Hc]. cbn [fst snd] in *.
  pose proof (commit_refines b b' st D Hs Hb) as Href. destruct Hb as [Eb _]. subst n s. unfold FileLayerBuilder.name in *. rewrite Eb in *.
  pose proof Hbuild as (_ & Hi & _). unfold FileLayerBuilder.name in Hi.
  destruct (commit_base_runs debug D I b' M HI Hbuild Hin) as (D' & m & Hrun & HI' & Hm & Hother).
  destruct (refines_runs _ _ _ _ _ _ _ _ _ Href Hrun) as (s' & a & Hrun' & Hs' & _ & ->).
  exists (s', c), D', m. split; [by apply on_store_steps|]. split; [|done]. split; [done|done|]. cbn [snd].
  by apply (cached_grows holds debug D I HI); [apply insert_subseteq|].
Qed.

Lemma create_base_good sc D I n : layers_good sc D I -> name_ok n -> D !! n = None ->
  exists sc' b, runs (on_store (create_base_layer n) : io (S * C) _) sc sc' b /\ layers_good sc' (<[n := ∅]> D) I /\
    builds_base sc' (<[n := ∅]> D) I b /\ FileLayerBuilder.builder b = SimpleLayerBuilder.new n.
Proof using DiskLaws0.
  intros Hg Hn Hd. destruct sc as [st c]. pose proof Hg as [Hs HI Hc]. cbn [fst snd] in *.
  destruct (create_base_runs debug D I n HI Hn Hd) as (b' & Hrun & HI' & Hb' & Eb).
  destruct (refines_runs _ _ _ _ _ _ _ _ _ (create_base_refines n st D Hs) Hrun) as (s' & b & Hrun' & Hs' & _ & Hb).
  exists (s', c), b. split; [by apply on_store_steps|]. split; [by split|]. split; [by exists b'|]. destruct Hb as [-> _]. by rewrite Eb.
Qed.

Lemma create_child_good sc D I fuel n p ip : layers_good sc D I -> I !! p = Some ip -> (2 * info_depth ip + 1 < fuel)%nat ->
  name_ok n -> D !! n = None ->
  let D' := <[n := {[parent_file := name_to_string p]}]> D in
  exists sc' pl b, runs (create_child_layer_with_cache debug fuel n p) sc sc' b /\ layers_good sc' D' I /\
    builds_child sc' D' I b p ip pl /\ FileLayerBuilder.builder b = SimpleLayerBuilder.from_parent n pl.
Proof using CacheLaws0 DiskLaws0 H3.
  intros Hg Hip Hf Hn Hd D'. pose proof Hg as [Hs HI Hc].
  destruct (create_child_runs debug holds D I sc.2 n p ip fuel HI Hc Hip Hf Hn Hd) as (pl & c' & b' & Hrun & HI' & Hc' & Hb' & Eb).
  destruct (layers_run (same_builder (denotes := denotes)) _ _ sc D I c' _ b' Hg (create_child_refines debug fuel n p _ _ (start_shown _ _ _ Hg)) Hrun)
    as (s' & b & Hrun' & Hs' & _ & Hb).
  exists (s', c'), pl, b. split; [done|]. split; [by split|]. split; [by exists b'|]. destruct Hb as [-> _]. by rewrite Eb.
Qed.

(** *** Rolling up and walking *)

Lemma rollup_good sc D I n i l random M : layers_good sc D I -> I !! n = Some i -> means n i l -> not_a_rollup D I n ->
  rollup_input l (info_model i) M -> name_ok random -> D !! random = None ->
  exists sc' D' I' r, runs (CachedLayerStore.rollup debug random l) sc sc' r /\ layers_good sc' D' I' /\ I ⊆ I' /\
    match info_parent i with
    | None => r = n
    | Some _ => exists ir, I' !! r = Some ir /\ info_parent ir = None /\ info_model ir = info_model i /\
        Disk.lookup_file D' (n, rollup_file) = Some (rollup_contents r)
    end.
Proof using CacheLaws0 DiskLaws0.
  intros Hg Hi Hl Hnot Hin Hr Hd. destruct sc as [st c]. pose proof Hg as [Hs HI Hc]. cbn [fst snd] in *.
  destruct (rollup_runs debug D I n i l random M HI Hi Hl Hnot Hin Hr Hd) as (D' & I' & r & Hrun & HI' & Hsub & Hcase).
  pose proof (rollup_refines debug random l st D Hs) as Href.
  destruct (refines_runs _ _ _ _ _ _ _ _ _ Href Hrun) as (s' & a & Hrun' & Hs' & _ & ->).
  exists (s', invalidate n c), D', I', r. split; [|split; [|done]].
  - unfold rollup in Hrun'. apply io_bind_inv in Hrun' as (s1 & r1 & Hp1 & Hp2). apply io_bind_inv in Hp2 as (s2 & [] & Hp2 & [= -> ->]).
    unfold CachedLayerStore.rollup, CachedLayerStore.perform_rollup, CachedLayerStore.register_rollup.
    eapply runs_bind; [apply on_store_steps, Hp1|]. eapply runs_bind; [|apply runs_ret].
    eapply runs_bind; [apply on_store_steps, Hp2|]. unfold runs, CachedLayerStore.forget, on_cache. cbn [fst snd].
    by rewrite (means_name _ _ _ Hl).
  - split; [done|done|]. cbn [snd]. by apply invalidate_holds, (cached_grows holds debug D I HI).
Qed.

Lemma is_ancestor_good sc D I fuel n i a : layers_good sc D I -> I !! n = Some i -> (info_depth i < fuel)%nat ->
  exists sc' b, runs (CachedLayerStore.layer_is_ancestor_of fuel n a) sc sc' b /\ layers_good sc' D I /\ (b = true <-> rtc (parent_in I) n a).
Proof using DiskLaws0.
  intros Hg Hi Hf. destruct sc as [st c]. pose proof Hg as [Hs HI Hc]. cbn [fst snd] in *.
  destruct (layer_is_ancestor_of_spec debug D I HI fuel n i a Hi Hf) as (b & Hy & Hb).
  destruct (refines_runs _ _ _ _ _ _ _ _ _ (is_ancestor_refines fuel n a st D Hs) Hy) as (s' & b' & Hrun & Hs' & _ & ->).
  exists (s', c), b. split; [by apply on_store_steps|]. split; [by split|done].
Qed.

Lemma stack_names_good sc D I fuel n i : layers_good sc D I -> I !! n = Some i -> (info_depth i < fuel)%nat ->
  exists sc' ns, runs (CachedLayerStore.retrieve_layer_stack_names fuel n) sc sc' ns /\ layers_good sc' D I /\ stack_in I n ns.
Proof using DiskLaws0.
  intros Hg Hi Hf. destruct sc as [st c]. pose proof Hg as [Hs HI Hc]. cbn [fst snd] in *.
  destruct (stack_names_spec debug D I HI fuel n i [] Hi Hf) as (ns & Hy & Hns). rewrite app_nil_r in Hy.
  destruct (refines_runs _ _ _ _ _ _ _ _ _ (stack_names_refines fuel n [] st D Hs) Hy) as (s' & b' & Hrun & Hs' & _ & ->).
  exists (s', c), ns. split; [by apply on_store_steps|]. split; [by split|done].
Qed.

Lemma names_upto_good sc D I fuel n i u : layers_good sc D I -> I !! n = Some i -> (info_depth i < fuel)%nat ->
  exists sc', layers_good sc' D I /\
    ((exists ns, runs (CachedLayerStore.retrieve_layer_stack_names_upto fuel n u) sc sc' ns /\ stack_above I u n ns) \/
     (CachedLayerStore.retrieve_layer_stack_names_upto fuel n u sc = (sc', Err NotFound) /\ ~ tc (parent_in I) n u)).
Proof using DiskLaws0.
  intros Hg Hi Hf. destruct sc as [st c]. pose proof Hg as [Hs HI Hc]. cbn [fst snd] in *.
  pose proof (stack_names_upto_refines fuel n u [] st D Hs) as Href.
  destruct (stack_names_upto_spec debug D I HI fuel u n i [] Hi Hf) as [(ns & Hy & Hns)|[Hy Hn]].
  - rewrite app_nil_r in Hy. destruct (refines_runs _ _ _ _ _ _ _ _ _ Href Hy) as (s' & b' & Hrun & Hs' & _ & ->).
    exists (s', c). split; [by split|]. left. exists ns. split; [by apply on_store_steps|done].
  - destruct (refines_fails _ _ _ _ _ _ _ _ _ Href Hy) as (s' & Hrun & Hs' & _). exists (s', c). split; [by split|]. right.
    split; [|done]. unfold CachedLayerStore.retrieve_layer_stack_names_upto, on_store. cbn [fst snd].
    unfold LayerStores.retrieve_layer_stack_names_upto. by rewrite Hrun.
Qed.

(** *** The whole store *)

Lemma good_grows w D I m sc' D' I' : good w D I m -> layers_good sc' D' I' -> I ⊆ I' -> good (w.1, sc') D' I' m.
Proof using.
  intros [Hl _ Hn Hh] Hg Hsub. split; [done|done|done|]. intros n l x Hm Hx. destruct (Hh n l x Hm Hx) as [i Hi].
  exists i. by eapply lookup_weaken.
Qed.

Lemma layers_steps {A} (mm : io (S * C) A) (w : Store L S C) sc' a : runs mm w.2 sc' a -> runs (on_layers mm) w (w.1, sc') a.
Proof using. destruct w as [l sc]. apply on_second_steps. Qed.

Lemma load_good w D I m fuel n i : good w D I m -> I !! n = Some i -> (2 * info_depth i + 1 < fuel)%nat ->
  exists sc' l, runs (on_layers (CachedLayerStore.get_layer debug fuel n)) w (w.1, sc') (Some l) /\ good (w.1, sc') D I m /\ means n i l.
Proof using CacheLaws0 DiskLaws0 H3.
  intros Hg Hi Hf. destruct (get_layer_good w.2 D I fuel n i (good_layers _ _ _ _ Hg) Hi Hf) as (sc' & l & Hrun & Hg' & Hl).
  exists sc', l. split; [by apply layers_steps|]. split; [|done]. by eapply good_grows.
Qed.

(** *** Changes to a builder *)

Inductive change : Type :=
| AddString (x : StringTriple.t)
| AddId (x : IdTriple.t)
| RemoveString (x : StringTriple.t)
| RemoveId (x : IdTriple.t).

(** The call, and what the builder makes of it. *)
Definition call (c : change) : io (StoreLayerBuilder.t F) () :=
  match c with
  | AddString x => StoreLayerBuilder.add_string_triple x
  | AddId x => StoreLayerBuilder.add_id_triple x
  | RemoveString x => StoreLayerBuilder.remove_string_triple x
  | RemoveId x => StoreLayerBuilder.remove_id_triple x
  end.

Definition noted (s : SimpleLayerBuilder.t InternalLayer) (c : change) : SimpleLayerBuilder.t InternalLayer :=
  match c with
  | AddString x => SimpleLayerBuilder.add_string_triple s x
  | AddId x => SimpleLayerBuilder.add_id_triple s x
  | RemoveString x => SimpleLayerBuilder.remove_string_triple s x
  | RemoveId x => SimpleLayerBuilder.remove_id_triple s x
  end.

Definition with_changes (b : FileLayerBuilder.t F) (cs : list change) : FileLayerBuilder.t F :=
  FileLayerBuilder.mk (foldl noted (FileLayerBuilder.builder b) cs) (FileLayerBuilder.files b).

Lemma noted_kept cs : forall s, SimpleLayerBuilder.name (foldl noted s cs) = SimpleLayerBuilder.name s /\
  SimpleLayerBuilder.parent (foldl noted s cs) = SimpleLayerBuilder.parent s.
Proof using. induction cs as [|c cs IH]; intros s; cbn [foldl]; [done|]. destruct (IH (noted s c)) as [-> ->]. by destruct c. Qed.

(** The four lists of changes. *)
Definition added (cs : list change) : list StringTriple.t := omap (fun c => match c with AddString x => Some x | _ => None end) cs.
Definition added_ids (cs : list change) : list IdTriple.t := omap (fun c => match c with AddId x => Some x | _ => None end) cs.
Definition removed (cs : list change) : list StringTriple.t := omap (fun c => match c with RemoveString x => Some x | _ => None end) cs.
Definition removed_ids (cs : list change) : list IdTriple.t := omap (fun c => match c with RemoveId x => Some x | _ => None end) cs.

Lemma noted_lists cs : forall s, SimpleLayerBuilder.additions (foldl noted s cs) = SimpleLayerBuilder.additions s ++ added cs /\
  SimpleLayerBuilder.id_additions (foldl noted s cs) = SimpleLayerBuilder.id_additions s ++ added_ids cs /\
  SimpleLayerBuilder.removals (foldl noted s cs) = SimpleLayerBuilder.removals s ++ removed cs /\
  SimpleLayerBuilder.id_removals (foldl noted s cs) = SimpleLayerBuilder.id_removals s ++ removed_ids cs.
Proof using.
  induction cs as [|c cs IH]; intros s; cbn [foldl]; [by rewrite !app_nil_r|].
  destruct (IH (noted s c)) as (-> & -> & -> & ->). destruct c; cbn; by rewrite <- ?app_assoc.
Qed.

Lemma calls_run cs : forall (self : StoreLayerBuilder.t F) b, StoreLayerBuilder.builder self = Some b ->
  runs (for_each call cs) self
    (StoreLayerBuilder.mk (StoreLayerBuilder.parent self) (Some (with_changes b cs)) (StoreLayerBuilder.name self)) ().
Proof using.
  induction cs as [|c cs IH]; intros self b Hb; cbn [for_each].
  - unfold with_changes. cbn [foldl]. destruct self, b. cbn in *. by subst.
  - set (self1 := StoreLayerBuilder.mk (StoreLayerBuilder.parent self) (Some (with_changes b [c])) (StoreLayerBuilder.name self)).
    eapply runs_bind with (s1 := self1) (a := ()); [|exact (IH self1 (with_changes b [c]) eq_refl)].
    unfold runs, self1. destruct c; cbv [call StoreLayerBuilder.add_string_triple StoreLayerBuilder.add_id_triple
      StoreLayerBuilder.remove_string_triple StoreLayerBuilder.remove_id_triple StoreLayerBuilder.with_builder]; by rewrite Hb.
Qed.

Lemma builds_child_changed sc D I b p ip pl cs : builds_child sc D I b p ip pl -> builds_child sc D I (with_changes b cs) p ip pl.
Proof using.
  intros (b' & [Eb Hf] & Hbuild). exists (FileLayerBuilder.mk (foldl noted (FileLayerBuilder.builder b') cs) (FileLayerBuilder.files b')).
  split; [split; [|done]; cbn; by rewrite Eb|]. unfold building_child, FileLayerBuilder.name, FileLayerBuilder.parent in *. cbn.
  by destruct (noted_kept cs (FileLayerBuilder.builder b')) as [-> ->].
Qed.

Lemma builds_base_changed sc D I b cs : builds_base sc D I b -> builds_base sc D I (with_changes b cs).
Proof using.
  intros (b' & [Eb Hf] & Hbuild). exists (FileLayerBuilder.mk (foldl noted (FileLayerBuilder.builder b') cs) (FileLayerBuilder.files b')).
  split; [split; [|done]; cbn; by rewrite Eb|]. unfold building_base, FileLayerBuilder.name, FileLayerBuilder.parent in *. cbn.
  by destruct (noted_kept cs (FileLayerBuilder.builder b')) as [-> ->].
Qed.

(** Committing what a cell has, and loading it. *)
Lemma commit_runs (w : Store L S C) (cell : StoreLayerBuilder.t F) b sc1 sc2 fuel l : StoreLayerBuilder.builder cell = Some b ->
  runs (on_store (FileLayerBuilder.commit b) : io (S * C) ()) w.2 sc1 () ->
  runs (get_layer_with_cache debug fuel (StoreLayerBuilder.name cell)) sc1 sc2 (Some l) ->
  runs (commit debug fuel) (w, cell) ((w.1, sc2), StoreLayerBuilder.mk (StoreLayerBuilder.parent cell) None (StoreLayerBuilder.name cell))
    (StoreLayer.wrap l).
Proof using.
  intros Hb Hc Hl. unfold commit. eapply runs_bind; [by apply on_second_steps|].
  eapply runs_bind.
  - unfold commit_no_load. eapply runs_bind; [by apply on_second_steps|]. rewrite Hb. eapply on_store_steps, layers_steps, Hc.
  - eapply runs_bind; [eapply on_store_steps, layers_steps; exact Hl|]. done.
Qed.

(** A base layer whose files are written by other means. *)
Lemma written_base_good sc D I n f maps mo k : layers_good sc D I -> name_ok n -> I !! n = None -> D !! n = Some ∅ ->
  all_base (denotes sc.1) f (base_handles n) -> loads_base debug maps mo k ->
  exists sc' D', runs (on_store (BaseLayerFiles.write f maps) : io (S * C) ()) sc sc' () /\
    layers_good sc' D' (<[n := mk_info mo k None 0]> I) /\ Disk.lookup_file D' (n, rollup_file) = None /\ forall x, x <> n -> D' !! x = D !! x.
Proof using CacheLaws0 DiskLaws0.
  intros Hg Hn Hi Hd Hf Hl. destruct sc as [st c]. pose proof Hg as [Hs HI Hc]. cbn [fst snd] in *.
  destruct (base_files_written D n maps Hd) as (D' & Hw & H5' & H6' & H7' & H8' & Hother).
  destruct (refines_runs _ _ _ _ _ _ _ _ _ (base_write_refines f _ maps st D Hs Hf) Hw) as (s' & a & Hrun' & Hs' & _ & ->).
  exists (s', c), D'. split; [by apply on_store_steps|]. split; [|done]. split; [done| |].
  - by apply (base_layer_added debug D D' I n maps mo k).
  - cbn [snd]. by apply (cached_grows holds debug D I HI); [apply insert_subseteq|].
Qed.

Lemma written_child_good sc D I n p ip f maps mo k : layers_good sc D I -> name_ok n -> I !! n = None ->
  D !! n = Some {[parent_file := name_to_string p]} -> I !! p = Some ip -> all_child (denotes sc.1) f (child_handles n) ->
  info_bound ip + lenN (added_triples mo (info_model ip)) <= k -> loads_child debug maps (info_model ip) (info_bound ip) mo k ->
  exists sc' D', runs (on_store (ChildLayerFiles.write f maps) : io (S * C) ()) sc sc' () /\
    layers_good sc' D' (<[n := mk_info mo k (Some p) (Datatypes.S (info_depth ip))]> I) /\ Disk.lookup_file D' (n, rollup_file) = None /\
    forall x, x <> n -> D' !! x = D !! x.
Proof using CacheLaws0 DiskLaws0.
  intros Hg Hn Hi Hd Hip Hf Hk Hl. destruct sc as [st c]. pose proof Hg as [Hs HI Hc]. cbn [fst snd] in *.
  destruct (child_files_written D n p maps Hd) as (D' & Hw & H5' & H6' & H7' & H8' & Hother).
  destruct (refines_runs _ _ _ _ _ _ _ _ _ (child_write_refines f _ maps st D Hs Hf) Hw) as (s' & a & Hrun' & Hs' & _ & ->).
  exists (s', c), D'. split; [by apply on_store_steps|]. split; [|done]. split; [done| |].
  - by apply (child_layer_added debug D D' I n p ip maps mo k).
  - cbn [snd]. by apply (cached_grows holds debug D I HI); [apply insert_subseteq|].
Qed.

(** A child of a layer, with given files, can be added. *)
Lemma added_child_good (sc : S * C) (D : disk) (I : infos) (fuel : nat) (n p : layer_name) (ip : layer_info) maps mo k : layers_good sc D I ->
  I !! p = Some ip -> (2 * info_depth ip + 1 < fuel)%nat -> name_ok n -> D !! n = None ->
  info_bound ip + lenN (added_triples mo (info_model ip)) <= k -> loads_child debug maps (info_model ip) (info_bound ip) mo k ->
  exists sc' D', layers_good sc' D' (<[n := mk_info mo k (Some p) (Datatypes.S (info_depth ip))]> I) /\
    Disk.lookup_file D' (n, rollup_file) = None /\ forall x, x <> n -> D' !! x = D !! x.
Proof using CacheLaws0 DiskLaws0 H3.
  intros Hg Hip Hf Hn Hd Hk Hl.
  destruct (create_child_good sc D I fuel n p ip Hg Hip Hf Hn Hd) as (sc1 & pl & b & _ & Hg1 & (b' & [Eb' Hfs] & _ & Hi & Hd1 & _ & _ & _ & Hfiles) & Eb).
  assert (En : FileLayerBuilder.name b' = n) by (unfold FileLayerBuilder.name; by rewrite <- Eb', Eb).
  rewrite En in *. destruct (FileLayerBuilder.files b) as [f|f]; rewrite Hfiles in Hfs; [done|]. cbn [all_layer_files] in Hfs.
  destruct (written_child_good sc1 _ I n p ip f maps mo k Hg1 Hn Hi Hd1 Hip Hfs Hk Hl) as (sc2 & D2 & _ & Hg2 & Hroll & Hother).
  exists sc2, D2. split; [exact Hg2|]. split; [exact Hroll|]. intros x Hx. rewrite Hother by done. by rewrite lookup_insert_ne.
Qed.
End specs.
