(* ===== verification/StoreChanges.v ===== *)
(** * Squashing and diffs

    What [squash] and [apply_diff] put into their builders: the string triples
    of a layer, and the difference between two, in whatever order they come. *)

From stdpp Require Import gmap relations.
From S2P Require Import Prelude.
From S2P Require Import Words.
From S2P Require Import Codec.
From S2P Require Import Strings.
From S2P Require Import PfcBlocks.
From S2P Require Import PfcDicts.
From S2P Require Import LayerTypes.
From S2P Require Import LayerModel.
From S2P Require Import Triples.
From S2P Require Import DictMerge.
From S2P Require Import IdMaps.
From S2P Require Import TripleBuilder.
From S2P Require Import Iterators.
From S2P Require Import Stacks.
From S2P Require Import InternalLayers.
From S2P Require Import LayerTriples.
From S2P Require Import LayerRefinement.
From S2P Require Import LayerBuilders.
From S2P Require Import BuiltLayers.
From S2P Require Import Rollups.
From S2P Require Import SimpleBuilder.
From S2P Require Import Commits.
From S2P Require Import Names.
From S2P Require Import StoreMonad.
From S2P Require Import Labels.
From S2P Require Import FileNames.
From S2P Require Import Files.
From S2P Require Import Directories.
From S2P Require Import DiskStores.
From S2P Require Import StoreRefinement.
From S2P Require Import Caches.
From S2P Require Import LayerStores.
From S2P Require Import StoredLayers.
From S2P Require Import LayerWrites.
From S2P Require Import LoadedLayers.
From S2P Require Import StoreGrowth.
From S2P Require Import StoreViews.
From S2P Require Import CachedStores.
From S2P Require Import Stores.
From S2P Require Import StoreSpecs.
Open Scope N_scope.

(** ** The string triples of a model *)

Definition string_of (m : layer_model) (t : IdTriple.t) : option StringTriple.t :=
  s ← at_id (model_entries m) (IdTriple.subject t);
  subject ← node_of_entry s;
  predicate ← at_id (model_predicates m) (IdTriple.predicate t);
  object ← at_id (model_entries m) (IdTriple.object t);
  Some (StringTriple.mk subject predicate object).

Definition strings_of (m : layer_model) : list StringTriple.t := omap (string_of m) (model_triples m).

(** All triples have a form with strings: their subjects are nodes. *)
Definition typed (m : layer_model) : Prop := Forall (fun t => is_Some (string_of m t)) (model_triples m).

Lemma string_of_denotes m t x : string_of m t = Some x <-> denotes m t x.
Proof.
  unfold string_of, denotes. split.
  - intros (s & Hs & H)%bind_Some. apply bind_Some in H as (s' & Hs' & H). apply bind_Some in H as (p & Hp & H).
    apply bind_Some in H as (o & Ho & [= <-]). cbn. destruct s; [|done]. injection Hs' as <-. done.
  - intros (Hs & Hp & Ho). rewrite Hs. cbn. rewrite Hp. cbn. rewrite Ho. cbn. by destruct x.
Qed.

Lemma string_of_extends m m' t : extends m m' -> is_Some (string_of m t) -> is_Some (string_of m' t).
Proof. intros He [x Hx%string_of_denotes]. exists x. by apply string_of_denotes, (denotes_extends m). Qed.

Lemma typed_grown m m' xs ids : extends m m' -> typed m -> grown m m' xs ids ->
  Forall (fun t => is_Some (string_of m t)) ids -> typed m'.
Proof.
  unfold typed. rewrite !Forall_forall. intros He Hm Hg Hids t [Ht|[Ht|(x & _ & Hd)]]%Hg; [by apply (string_of_extends m), Hm|by apply (string_of_extends m), Hids|].
  exists x. by apply string_of_denotes.
Qed.

Lemma typed_base m xs : grown empty_model m xs [] -> typed m.
Proof.
  intros Hg. apply Forall_forall. intros t [[]%elem_of_nil|[[]%elem_of_nil|(x & _ & Hd)]]%Hg. exists x. by apply string_of_denotes.
Qed.

Lemma strings_of_elem m x : x ∈ strings_of m <-> exists t, t ∈ model_triples m /\ denotes m t x.
Proof.
  unfold strings_of. rewrite list_elem_of_omap. split; intros (t & Ht & Hx); exists t; (split; [done|]); by apply string_of_denotes.
Qed.

(** All strings are looked up as they are. *)
Definition proper_strings (m : layer_model) : Prop := Forall nonempty_strings (strings_of m).

Lemma proper_string m t x : proper_strings m -> t ∈ model_triples m -> string_of m t = Some x -> nonempty_strings x.
Proof.
  unfold proper_strings. rewrite Forall_forall. intros Hm Ht Hx. apply Hm, strings_of_elem. exists t. split; [done|by apply string_of_denotes].
Qed.

(** What a diff adds and removes is in one of the layers. *)
Lemma diff_nonempty m mo : proper_strings m -> proper_strings mo ->
  Forall nonempty_strings (filter (fun x => x ∉ strings_of m) (strings_of mo) ++ filter (fun x => x ∉ strings_of mo) (strings_of m)).
Proof.
  unfold proper_strings. rewrite !Forall_forall. intros Hm Ho x Hx.
  apply elem_of_app in Hx as [[_ Hx]%list_elem_of_filter|[_ Hx]%list_elem_of_filter]; [by apply Ho|by apply Hm].
Qed.

Section layers.
Context `{Layer L} (implements : L -> layer_model -> Prop) `{!LayerLaws L implements} (l : L) (m : layer_model) (Hl : implements l m).

Lemma to_string_of t : id_triple_to_string l t = Some (string_of m t).
Proof using All.
  destruct (id_triple_to_string_spec l m Hl t) as (r & -> & Hr). f_equal. destruct r as [x|].
  - by symmetry; apply string_of_denotes.
  - destruct (string_of m t) as [x|] eqn:E; [|done]. apply string_of_denotes in E. by destruct (Hr x).
Qed.

Lemma exists_strings_of x : nonempty_strings x -> string_triple_exists l x = Some (bool_decide (x ∈ strings_of m)).
Proof using All.
  intros Hx. destruct (string_triple_exists_spec l m Hl x Hx) as (b & -> & Hb). f_equal. rewrite <- strings_of_elem in Hb.
  destruct b; symmetry; [by apply bool_decide_eq_true, Hb|apply bool_decide_eq_false]. intros Hin. by apply Hb in Hin.
Qed.
End layers.

(** ** Building in any order *)

Lemma commit_input_perm `{Log2F32} m adds adds' ids rems rems' rids M : adds ≡ₚ adds' -> rems ≡ₚ rems' ->
  commit_input m adds ids rems rids M -> commit_input m adds' ids rems' rids M.
Proof.
  intros Ha Hr [H3 H4 H5 H6 H7]. assert (Hc : concat (triple_strings <$> adds) ≡ₚ concat (triple_strings <$> adds')) by by rewrite Ha.
  split.
  - by rewrite <- Hc.
  - by rewrite <- (total_perm _ _ Hc).
  - done.
  - done.
  - unfold lenN in *. by rewrite <- (Permutation_length Ha), <- (Permutation_length Hr).
Qed.

Lemma omap_perm {A B} (f : A -> option B) l k : l ≡ₚ k -> omap f l ≡ₚ omap f k.
Proof. intros Hp. by rewrite Hp. Qed.

Section building.
Context {F : Type} `{ParBridge}.

(** The cell with changes to its builder. *)
Definition changed (self : StoreLayerBuilder.t F) (b : FileLayerBuilder.t F) (cs : list change) : StoreLayerBuilder.t F :=
  StoreLayerBuilder.mk (StoreLayerBuilder.parent self) (Some (with_changes b cs)) (StoreLayerBuilder.name self).

Lemma changed_nil self b : StoreLayerBuilder.builder self = Some b -> changed self b [] = self.
Proof using. intros Hb. unfold changed, with_changes. destruct self, b. cbn in *. by subst. Qed.

Lemma with_changes_app (b : FileLayerBuilder.t F) cs ds : with_changes (with_changes b cs) ds = with_changes b (cs ++ ds).
Proof using. unfold with_changes. cbn. by rewrite foldl_app. Qed.

Lemma changed_app self b cs ds : changed (changed self b cs) (with_changes b cs) ds = changed self b (cs ++ ds).
Proof using. unfold changed. cbn. by rewrite with_changes_app. Qed.

Lemma call_runs (self : StoreLayerBuilder.t F) b c : StoreLayerBuilder.builder self = Some b -> runs (call c) self (changed self b [c]) ().
Proof using.
  intros Hb. pose proof (calls_run [c] self b Hb) as Hr. cbn [for_each] in Hr. unfold runs in *.
  apply io_bind_inv in Hr as (s1 & [] & E & [= ->]). exact E.
Qed.

Lemma unwrapped_runs {S A} (mm : io S A) s s' a : runs mm s s' a -> runs (unwrapped mm) s s' a.
Proof using. unfold runs, unwrapped. by intros ->. Qed.

(** A loop whose steps make one change or none. *)
Lemma for_each_changes {A} (f : A -> io (StoreLayerBuilder.t F) ()) (g : A -> option change) xs : forall self b,
  StoreLayerBuilder.builder self = Some b ->
  (forall x s b, x ∈ xs -> StoreLayerBuilder.parent s = StoreLayerBuilder.parent self -> StoreLayerBuilder.builder s = Some b ->
    runs (f x) s (match g x with Some c => changed s b [c] | None => s end) ()) ->
  runs (for_each f xs) self (changed self b (omap g xs)) ().
Proof using.
  induction xs as [|x xs IH]; intros self b Hb Hf; cbn [for_each omap list_omap].
  - by rewrite changed_nil.
  - pose proof (Hf x self b ltac:(by left) eq_refl Hb) as Hx. destruct (g x) as [c|] eqn:Eg; cbn.
    + eapply runs_bind; [exact Hx|]. change (c :: omap g xs) with ([c] ++ omap g xs). rewrite <- changed_app. apply (IH (changed self b [c]) (with_changes b [c]) eq_refl).
      intros y s b' Hy Hp Hs. apply Hf; [by right|done|done].
    + eapply runs_bind; [exact Hx|]. apply IH; [done|]. intros y s b' Hy Hp Hs. apply Hf; [by right|done|done].
Qed.

Lemma added_omap {A} (g : A -> option StringTriple.t) xs :
  added (omap (fun x => AddString <$> g x) xs) = omap g xs /\ added_ids (omap (fun x => AddString <$> g x) xs) = [] /\
  removed (omap (fun x => AddString <$> g x) xs) = [] /\ removed_ids (omap (fun x => AddString <$> g x) xs) = [].
Proof using. induction xs as [|x xs (IH1 & IH2 & IH3 & IH4)]; [done|]. cbn. destruct (g x); cbn; repeat split; try done; by f_equal. Qed.

Lemma removed_omap {A} (g : A -> option StringTriple.t) xs :
  removed (omap (fun x => RemoveString <$> g x) xs) = omap g xs /\ added_ids (omap (fun x => RemoveString <$> g x) xs) = [] /\
  added (omap (fun x => RemoveString <$> g x) xs) = [] /\ removed_ids (omap (fun x => RemoveString <$> g x) xs) = [].
Proof using. induction xs as [|x xs (IH1 & IH2 & IH3 & IH4)]; [done|]. cbn. destruct (g x); cbn; repeat split; try done; by f_equal. Qed.
End building.

(** ** The difference of two layers *)

(** The first has it, the second has not. *)
Definition only_in (m m' : layer_model) (t : IdTriple.t) : option StringTriple.t :=
  x ← string_of m t; if decide (x ∈ strings_of m') then None else Some x.

Lemma only_in_strings m m' : omap (only_in m m') (model_triples m) = filter (fun x => x ∉ strings_of m') (strings_of m).
Proof.
  change (strings_of m) with (omap (string_of m) (model_triples m)). generalize (model_triples m). intros ts.
  induction ts as [|t ts IH]; [done|]. cbn [omap list_omap]. replace (only_in m m' t) with
    (x ← string_of m t; if decide (x ∈ strings_of m') then None else Some x) by done.
  destruct (string_of m t) as [x|]; cbn [mbind option_bind]; [|exact IH]. rewrite filter_cons.
  destruct (decide (x ∈ strings_of m')) as [Hd|Hd]; [rewrite decide_False by (intros H; by apply H); exact IH|]. rewrite decide_True by done. by f_equal.
Qed.

Section diffs.
Context {F : Type} `{BytesSize} `{ParBridge}.

Lemma diff_removals_run other this mo mp (self : StoreLayerBuilder.t F) b : StoreLayerBuilder.builder self = Some b ->
  implements this mp -> implements (StoreLayer.layer other) mo -> proper_strings mp ->
  runs (StoreLayerBuilder.diff_removals other this) self
    (changed self b (omap (fun t => RemoveString <$> only_in mp mo t) (par_bridge (model_triples mp)))) ().
Proof.
  intros Hb Hp Ho Hstr. unfold StoreLayerBuilder.diff_removals. eapply runs_bind; [apply runs_opt, (triples_law this mp Hp)|].
  apply for_each_changes; [done|]. intros t s b' Hin Hpar Hs. rewrite (par_bridge_perm (model_triples mp)) in Hin.
  eapply runs_bind; [apply runs_opt, (to_string_of implements this mp Hp)|]. unfold only_in.
  destruct (string_of mp t) as [x|] eqn:Ex; cbn [mbind option_bind fmap option_fmap option_map]; [|done].
  pose proof (proper_string _ t x Hstr Hin Ex) as Hx.
  eapply runs_bind; [apply runs_opt, (exists_strings_of implements (StoreLayer.layer other) mo Ho x Hx)|].
  case_bool_decide as Hd; [by rewrite decide_True|]. rewrite decide_False by done. by apply unwrapped_runs, (call_runs s b' (RemoveString x)).
Qed.

Lemma diff_additions_run other this mo mp (self : StoreLayerBuilder.t F) b : StoreLayerBuilder.builder self = Some b ->
  StoreLayerBuilder.parent self = Some this -> implements this mp -> implements (StoreLayer.layer other) mo -> proper_strings mo ->
  runs (StoreLayerBuilder.diff_additions other) self
    (changed self b (omap (fun t => AddString <$> only_in mo mp t) (par_bridge (model_triples mo)))) ().
Proof.
  intros Hb Hthis Hp Ho Hstr. unfold StoreLayerBuilder.diff_additions. eapply runs_bind; [apply runs_opt, (triples_law (StoreLayer.layer other) mo Ho)|].
  apply for_each_changes; [done|]. intros t s b' Hin Hpar Hs. rewrite (par_bridge_perm (model_triples mo)) in Hin.
  eapply runs_bind; [apply runs_opt, (to_string_of implements (StoreLayer.layer other) mo Ho)|]. unfold only_in.
  destruct (string_of mo t) as [x|] eqn:Ex; cbn [mbind option_bind fmap option_fmap option_map]; [|done].
  pose proof (proper_string _ t x Hstr Hin Ex) as Hx.
  eapply runs_bind with (s1 := s) (a := s); [done|]. rewrite Hpar, Hthis.
  eapply runs_bind; [apply runs_opt, (exists_strings_of implements this mp Hp x Hx)|].
  case_bool_decide as Hd; [by rewrite decide_True|]. rewrite decide_False by done. by apply unwrapped_runs, (call_runs s b' (AddString x)).
Qed.

(** The changes that [apply_diff] makes. *)
Definition diff_changes (mp mo : layer_model) : list change :=
  omap (fun t => RemoveString <$> only_in mp mo t) (par_bridge (model_triples mp)) ++
  omap (fun t => AddString <$> only_in mo mp t) (par_bridge (model_triples mo)).

Lemma apply_diff_runs other this mo mp (self : StoreLayerBuilder.t F) b : StoreLayerBuilder.builder self = Some b ->
  StoreLayerBuilder.parent self = Some this -> implements this mp -> implements (StoreLayer.layer other) mo ->
  proper_strings mp -> proper_strings mo ->
  runs (StoreLayerBuilder.apply_diff other) self (changed self b (diff_changes mp mo)) ().
Proof.
  intros Hb Hthis Hp Ho Hsp Hso. unfold StoreLayerBuilder.apply_diff. eapply runs_bind with (s1 := self) (a := self); [done|]. rewrite Hthis.
  eapply runs_bind; [by apply (diff_removals_run other this mo mp self b)|]. unfold diff_changes. rewrite <- changed_app.
  by eapply diff_additions_run.
Qed.

Lemma diff_changes_lists mp mo : added (diff_changes mp mo) ≡ₚ filter (fun x => x ∉ strings_of mp) (strings_of mo) /\
  removed (diff_changes mp mo) ≡ₚ filter (fun x => x ∉ strings_of mo) (strings_of mp) /\
  added_ids (diff_changes mp mo) = [] /\ removed_ids (diff_changes mp mo) = [].
Proof.
  unfold diff_changes, added, removed, added_ids, removed_ids. rewrite !omap_app.
  pose proof (removed_omap (only_in mp mo) (par_bridge (model_triples mp))) as (R1 & R2 & R3 & R4).
  pose proof (added_omap (only_in mo mp) (par_bridge (model_triples mo))) as (A1 & A2 & A3 & A4).
  unfold added, removed, added_ids, removed_ids in *. rewrite R1, R2, R3, R4, A1, A2, A3, A4, app_nil_r. cbn [app].
  rewrite <- !only_in_strings. split; [apply omap_perm, par_bridge_perm|]. split; [apply omap_perm, par_bridge_perm|done].
Qed.
End diffs.

(** ** Committing them *)

Section committing.
Context {L S F C : Type} `{LabelStore L} `{PersistentLayerStore S F} `{LayerCache C}.
Context (shown : L -> gmap (list N) Label.t -> Prop) `{!LabelStoreLaws L shown}.
Context (shows : S -> disk -> Prop) (ext : S -> S -> Prop) (denotes_file : S -> F -> layer_name * filename -> Prop)
  `{!DiskLaws S F shows ext denotes_file}.
Context (holds : (layer_name -> InternalLayer -> Prop) -> C -> Prop) `{!CacheLaws C holds}.
Context `{BytesSize} `{FramedRead} `{Log2F32} `{ParSort} `{RayonSort} `{ParBridge} (debug : bool).

#[local] Abbreviation good := (good shown shows holds debug).

(** The model that a commit of changes to an empty store or to a parent has. *)
Lemma base_transaction_runs (w : Store L S C) (D : disk) (I : infos) m fuel n cs M (prog : io (Store L S C * StoreLayerBuilder.t F) StoreLayer.t) :
  good w D I m -> name_ok n -> D !! n = None -> (1 < fuel)%nat ->
  commit_input empty_model (added cs) (added_ids cs) (removed cs) (removed_ids cs) M ->
  (forall st self b st' a, StoreLayerBuilder.builder self = Some b -> runs (commit debug fuel) (st, changed self b cs) st' a -> runs prog (st, self) st' a) ->
  exists w' D' mo l, runs (b ← store_create_base_layer n; with_cell b prog) w w' (StoreLayer.wrap l) /\
    let i := mk_info mo (lenN (added cs) + lenN (added_ids cs)) None 0 in
    good w' D' (<[n := i]> I) m /\ I !! n = None /\ means n i l /\ committed_base mo (added cs) (removed cs).
Proof using CacheLaws0 DiskLaws0.
  intros Hg Hn Hd Hf Hin Hprog. pose proof (good_layers _ _ _ _ _ _ _ _ Hg) as Hgl.
  destruct (create_base_good shows ext denotes_file holds debug w.2 D I n Hgl Hn Hd) as (sc1 & b & Hopen & Hg1 & Hb & Es).
  destruct (noted_lists cs (SimpleLayerBuilder.new n)) as (E1 & E2 & E3 & E4).
  pose proof (builds_base_changed _ _ _ _ _ cs Hb) as Hb'.
  assert (Ename : FileLayerBuilder.name (with_changes b cs) = n).
  { unfold FileLayerBuilder.name, with_changes. cbn. rewrite Es. apply (noted_kept cs (SimpleLayerBuilder.new n)). }
  pose proof (commit_base_good shows ext denotes_file holds debug sc1 _ I _ M Hg1 Hb') as Hcommit. cbn zeta in Hcommit. rewrite Ename in Hcommit.
  change (FileLayerBuilder.builder (with_changes b cs)) with (foldl noted (FileLayerBuilder.builder b) cs) in Hcommit.
  rewrite Es, E1, E2, E3, E4 in Hcommit. cbn [SimpleLayerBuilder.additions SimpleLayerBuilder.id_additions SimpleLayerBuilder.removals
    SimpleLayerBuilder.id_removals SimpleLayerBuilder.new app] in Hcommit. destruct (Hcommit Hin) as (sc2 & D2 & mo & Hrun & Hg2 & Hi & Hm & _).
  destruct (get_layer_good shows ext denotes_file holds debug sc2 D2 _ fuel n _ Hg2 (lookup_insert_eq _ _ _)) as (sc3 & l & Hload & Hg3 & Hl); [cbn; lia|].
  exists (w.1, sc3), D2, mo, l. split; [|split; [|done]].
  - eapply runs_bind.
    + unfold store_create_base_layer, new_builder. eapply runs_bind; [|apply runs_ret]. apply layers_steps. exact Hopen.
    + eapply with_cell_steps, Hprog; [reflexivity|]. eapply (commit_runs debug (w.1, sc1)); [reflexivity|exact Hrun|].
      cbn [StoreLayerBuilder.name StoreLayerBuilder.wrap changed]. replace (FileLayerBuilder.name b) with n; [exact Hload|].
      unfold FileLayerBuilder.name. by rewrite Es.
  - apply (good_grows shown shows holds debug w D I m sc3 D2); [exact Hg|exact Hg3|]. by apply insert_subseteq.
Qed.

Lemma child_transaction_runs (w : Store L S C) (D : disk) (I : infos) m fuel n p ip self cs M
    (prog : io (Store L S C * StoreLayerBuilder.t F) StoreLayer.t) :
  good w D I m -> I !! p = Some ip -> Internal.name (StoreLayer.layer self) = p ->
  (2 * info_depth ip + 3 < fuel)%nat -> name_ok n -> D !! n = None ->
  let k := info_bound ip + lenN (added cs) + lenN (added_ids cs) in
  Forall nonempty_strings (added cs ++ removed cs) ->
  commit_input (info_model ip) (added cs) (added_ids cs) (removed cs) (removed_ids cs) M -> k < 2 ^ 64 ->
  (forall st cell b st' a pl, StoreLayerBuilder.builder cell = Some b -> StoreLayerBuilder.parent cell = Some pl -> implements pl (info_model ip) ->
    runs (commit debug fuel) (st, changed cell b cs) st' a -> runs prog (st, cell) st' a) ->
  exists w' D' m' l, runs (b ← open_write debug fuel n self; with_cell b prog) w w' (StoreLayer.wrap l) /\
    let i := mk_info m' k (Some p) (Datatypes.S (info_depth ip)) in
    good w' D' (<[n := i]> I) m /\ I !! n = None /\ means n i l /\
    committed (info_model ip) m' (added cs) (added_ids cs) (removed cs) (removed_ids cs).
Proof using CacheLaws0 DiskLaws0.
  intros Hg Hip Hname Hf Hn Hd k Hne Hin Hk Hprog. pose proof (good_layers _ _ _ _ _ _ _ _ Hg) as Hgl.
  destruct (create_child_good shows ext denotes_file holds debug w.2 D I fuel n p ip Hgl Hip ltac:(lia) Hn Hd) as (sc1 & pl & b & Hopen & Hg1 & Hb & Es).
  destruct (noted_lists cs (SimpleLayerBuilder.from_parent n pl)) as (E1 & E2 & E3 & E4).
  pose proof (builds_child_changed _ _ _ _ _ _ _ _ cs Hb) as Hb'.
  assert (Himp : implements pl (info_model ip)).
  { destruct Hb as (b' & _ & _ & _ & _ & _ & Hpl & _). eapply within_implements, means_model, Hpl. }
  assert (Ename : FileLayerBuilder.name (with_changes b cs) = n).
  { unfold FileLayerBuilder.name, with_changes. cbn. rewrite Es. apply (noted_kept cs (SimpleLayerBuilder.from_parent n pl)). }
  pose proof (commit_child_good shows ext denotes_file holds debug sc1 _ I _ p ip pl M Hg1 Hb') as Hcommit. cbn zeta in Hcommit. rewrite Ename in Hcommit.
  change (FileLayerBuilder.builder (with_changes b cs)) with (foldl noted (FileLayerBuilder.builder b) cs) in Hcommit.
  rewrite Es, E1, E2, E3, E4 in Hcommit. cbn [SimpleLayerBuilder.additions SimpleLayerBuilder.id_additions SimpleLayerBuilder.removals
    SimpleLayerBuilder.id_removals SimpleLayerBuilder.from_parent app] in Hcommit. destruct (Hcommit Hne Hin Hk) as (sc2 & D2 & m' & Hrun & Hg2 & Hi & Hm & _).
  destruct (get_layer_good shows ext denotes_file holds debug sc2 D2 _ fuel n _ Hg2 (lookup_insert_eq _ _ _)) as (sc3 & l & Hload & Hg3 & Hl); [cbn; lia|].
  exists (w.1, sc3), D2, m', l. split; [|split; [|done]].
  - eapply runs_bind.
    + unfold open_write. eapply runs_bind; [|apply runs_ret]. apply layers_steps. unfold CachedLayerStore.create_child_layer.
      change (name self) with (Internal.name (StoreLayer.layer self)). rewrite Hname. exact Hopen.
    + eapply with_cell_steps, (Hprog (w.1, sc1) _ b _ _ pl); [reflexivity| |exact Himp|].
      * cbn. unfold FileLayerBuilder.parent. by rewrite Es.
      * eapply (commit_runs debug (w.1, sc1)); [reflexivity|exact Hrun|]. cbn [StoreLayerBuilder.name StoreLayerBuilder.wrap changed].
        replace (FileLayerBuilder.name b) with n; [exact Hload|]. unfold FileLayerBuilder.name. by rewrite Es.
  - apply (good_grows shown shows holds debug w D I m sc3 D2); [exact Hg|exact Hg3|]. by apply insert_subseteq.
Qed.

(** Calls, and then a commit. *)
Lemma calls_commit fuel cs st (cell : StoreLayerBuilder.t F) b st' a : StoreLayerBuilder.builder cell = Some b ->
  runs (commit debug fuel) (st, changed cell b cs) st' a ->
  runs (_ ← on_second (for_each call cs); commit debug fuel : io (Store L S C * StoreLayerBuilder.t F) _) (st, cell) st' a.
Proof using.
  intros Hb Hc. eapply runs_bind; [by apply on_second_steps, calls_run|exact Hc].
Qed.

(** *** [squash] *)

Lemma squash_fill ms self ts : implements (StoreLayer.layer self) ms -> Forall (fun t => is_Some (string_of ms t)) ts -> forall (cell : StoreLayerBuilder.t F) b,
  StoreLayerBuilder.builder cell = Some b ->
  runs (for_each (fun x => st ← io_opt (id_triple_to_string self x); st ← io_opt st; unwrapped (StoreLayerBuilder.add_string_triple st)) ts)
    cell (changed cell b (omap (fun t => AddString <$> string_of ms t) ts)) ().
Proof using.
  intros Hms Hts cell b Hb. apply for_each_changes; [done|]. intros t s b' Hin _ Hs. rewrite Forall_forall in Hts. destruct (Hts t Hin) as [x Ex].
  eapply runs_bind; [apply runs_opt, (to_string_of implements (StoreLayer.layer self) ms Hms)|]. rewrite Ex. cbn [fmap option_fmap option_map].
  eapply runs_bind; [by apply runs_opt|]. by apply unwrapped_runs, (call_runs s b' (AddString x)).
Qed.

Lemma squash_runs (w : Store L S C) (D : disk) (I : infos) m fuel n self ms M : good w D I m -> implements (StoreLayer.layer self) ms ->
  typed ms -> name_ok n -> D !! n = None -> (1 < fuel)%nat ->
  commit_input empty_model (strings_of ms) [] [] [] M ->
  exists w' D' i l, runs (squash debug fuel n self) w w' (StoreLayer.wrap l) /\ good w' D' (<[n := i]> I) m /\ I !! n = None /\ means n i l /\
    info_parent i = None /\ forall x, nonempty_strings x -> string_triple_exists l x = string_triple_exists self x.
Proof using CacheLaws0 DiskLaws0.
  intros Hg Hms Hts Hn Hd Hf Hin. set (cs := omap (fun t => AddString <$> string_of ms t) (par_bridge (model_triples ms))).
  destruct (added_omap (string_of ms) (par_bridge (model_triples ms))) as (A1 & A2 & A3 & A4). fold cs in A1, A2, A3, A4.
  assert (Hp : added cs ≡ₚ strings_of ms) by (rewrite A1; apply omap_perm, par_bridge_perm).
  destruct (base_transaction_runs w D I m fuel n cs M
    (ts ← io_opt (triples self);
     _ ← on_second (for_each (fun x => st ← io_opt (id_triple_to_string self x); st ← io_opt st; unwrapped (StoreLayerBuilder.add_string_triple st)) (par_bridge ts));
     commit debug fuel) Hg Hn Hd Hf) as (w' & D' & mo & l & Hrun & Hg' & Hi & Hl & Hm).
  - rewrite A2, A3, A4. eapply commit_input_perm; [symmetry; exact Hp|done|done].
  - intros st cell b st' a Hb Hc. eapply runs_bind; [apply runs_opt, (triples_law (StoreLayer.layer self) ms Hms)|].
    eapply runs_bind; [|exact Hc]. apply on_second_steps, squash_fill; [done| |done]. by rewrite (par_bridge_perm (model_triples ms)).
  - eexists w', D', _, l. split; [exact Hrun|]. split; [exact Hg'|]. split; [done|]. split; [exact Hl|]. split; [done|]. intros x Hx.
    change (string_triple_exists self x) with (string_triple_exists (StoreLayer.layer self) x).
    rewrite (exists_strings_of implements (StoreLayer.layer self) ms Hms x Hx).
    rewrite (proj2 Hm l (within_implements _ _ _ (means_model _ _ _ Hl)) x Hx), A3. f_equal. apply bool_decide_ext. rewrite Hp.
    split; [by intros [Hin' _]|intros Hin'; split; [done|apply not_elem_of_nil]].
Qed.

(** *** [apply_diff] *)

Lemma diff_committed mp mo m' p l other (cs := diff_changes mp mo) : implements p mp -> implements l m' -> implements (StoreLayer.layer other) mo ->
  committed mp m' (added cs) (added_ids cs) (removed cs) (removed_ids cs) -> forall x, nonempty_strings x ->
  string_triple_exists l x = string_triple_exists other x.
Proof using.
  intros Hp Hl Ho (_ & _ & Hc) x Hx. destruct (Hc p l Hp Hl x Hx) as (e & He & ->). clear Hc.
  change (string_triple_exists other x) with (string_triple_exists (StoreLayer.layer other) x).
  rewrite (exists_strings_of implements p mp Hp x Hx) in He. injection He as <-.
  rewrite (exists_strings_of implements (StoreLayer.layer other) mo Ho x Hx). f_equal.
  destruct (diff_changes_lists mp mo) as (A1 & A2 & A3 & A4). fold cs in A1, A2, A3, A4.
  assert (Ha : named mp (added cs) (added_ids cs) x <-> x ∈ strings_of mo /\ (x ∉ strings_of mp)).
  { unfold named. rewrite A3, A1, list_elem_of_filter. split; [intros [[H1' H2']|(t & Ht & _)]; [done|by apply elem_of_nil in Ht]|intros [H1' H2']; by left]. }
  assert (Hr : named mp (removed cs) (removed_ids cs) x <-> x ∈ strings_of mp /\ (x ∉ strings_of mo)).
  { unfold named. rewrite A4, A2, list_elem_of_filter. split; [intros [[H1' H2']|(t & Ht & _)]; [done|by apply elem_of_nil in Ht]|intros [H1' H2']; by left]. }
  destruct (decide (named mp (added cs) _ x)) as [H1'|H1'], (decide (named mp (removed cs) _ x)) as [H2'|H2']; rewrite Ha in H1'; rewrite Hr in H2'.
  - by destruct H1', H2'.
  - symmetry. apply bool_decide_eq_true, H1'.
  - symmetry. apply bool_decide_eq_false, H2'.
  - apply bool_decide_ext. split; intros Hin; apply dec_stable; intros Hn; [by apply H2'|by apply H1'].
Qed.
End committing.
