(* ===== verification/Executions.v ===== *)
(** * The store at work

    The whole model is executable: programs over the API, run on a store in
    memory.  The first shows the store as it is meant to be used; the others
    what happens to it in cases that its tests leave out. *)

From stdpp Require Import gmap.
From S2P Require Import Prelude.
From S2P Require Import Words.
From S2P Require Import Codec.
From S2P Require Import Strings.
From S2P Require Import PfcBlocks.
From S2P Require Import PfcDicts.
From S2P Require Import LayerTypes.
From S2P Require Import Triples.
From S2P Require Import IdMaps.
From S2P Require Import TripleBuilder.
From S2P Require Import Iterators.
From S2P Require Import InternalLayers.
From S2P Require Import LayerTriples.
From S2P Require Import LayerBuilders.
From S2P Require Import BuiltLayers.
From S2P Require Import Rollups.
From S2P Require Import SimpleBuilder.
From S2P Require Import Commits.
From S2P Require Import Names.
From S2P Require Import StoreMonad.
From S2P Require Import Labels.
From S2P Require Import FileNames.
From S2P Require Import Files.
From S2P Require Import Directories.
From S2P Require Import DiskStores.
From S2P Require Import Caches.
From S2P Require Import LayerStores.
From S2P Require Import LayerWrites.
From S2P Require Import CachedStores.
From S2P Require Import Stores.
From S2P Require Import StoreSpecs.
Open Scope N_scope.

(** Concrete versions of what the code takes from outside. *)
Definition in_order : ParBridge := {| par_bridge A l := l; par_bridge_perm A l := reflexivity l |}.
#[local] Existing Instances sample_bytes whole_file exact_log2 merge_par_sort merge_rayon in_order.

Abbreviation memory_store := (Store MemoryLabelStore.t MemoryLayerStore.t LockingHashMapLayerCache.t).

Definition nth_name (k : N) : layer_name := [k; 0; 0; 0; 0].
Definition edge (s p o : N) : StringTriple.t := StringTriple.new_node [s] [p] [o].

(** Fuel for stacks of up to twenty layers. *)
Definition some_fuel : nat := 50.

(** A new base layer, a new layer on another, and a layer as it is loaded. *)
Definition new_base (n : N) (cs : list change) : io memory_store StoreLayer.t :=
  b ← store_create_base_layer (nth_name n);
  with_cell b (_ ← on_second (for_each call cs); commit true some_fuel).
Definition new_child (n : N) (self : StoreLayer.t) (cs : list change) : io memory_store StoreLayer.t :=
  b ← open_write true some_fuel (nth_name n) self;
  with_cell b (_ ← on_second (for_each call cs); commit true some_fuel).
Definition loaded (n : N) : io memory_store StoreLayer.t :=
  l ← get_layer_from_id true some_fuel (nth_name n); io_opt l.

(** The string triples of a layer. *)
Definition contents (l : StoreLayer.t) : option (list StringTriple.t) :=
  ts ← triples l; xs ← mapM (id_triple_to_string l) ts; mapM id xs.

(** What a program gives on an empty store. *)
Definition result {A} (m : io memory_store A) : outcome io_error A := (m open_memory_store).2.

(** ** As it is meant to be *)

(** A graph is created, its head is set to a base layer, then to a child of it;
    the child is rolled up, squashed and loaded again, and the head may not go
    back to the base. *)
Definition session : io memory_store (bool * bool * bool * option (list StringTriple.t) * option (list StringTriple.t)) :=
  graph ← create [103];
  base ← new_base 1 [AddString (edge 97 112 98); AddString (edge 98 112 97)];
  set ← NamedGraph.set_head some_fuel graph base;
  child ← new_child 2 base [AddString (edge 97 113 99); RemoveString (edge 98 112 97)];
  forward ← NamedGraph.set_head some_fuel graph child;
  _ ← store_layer_rollup true some_fuel (nth_name 3) child;
  squashed ← squash true some_fuel (nth_name 4) child;
  back ← NamedGraph.set_head some_fuel graph base;
  head ← NamedGraph.head true some_fuel graph;
  head ← io_opt head;
  mret (set, forward, back, contents head, contents squashed).

Example session_runs : result session =
  Ok (true, true, false, Some [edge 97 112 98; edge 97 113 99], Some [edge 97 112 98; edge 97 113 99]).
Proof. vm_compute. reflexivity. Qed.

(** ** Rolling up twice

    [construct_idmaps_from_layers] takes the id maps of the predicates from
    those of the nodes and values.  It makes no difference as long as the
    layers have no id maps; a layer that has been rolled up has.  Here the
    rollup of the first child keeps all there is; when a child of it is rolled
    up in turn, the predicates are swapped. *)
Definition rolled_up_twice : io memory_store (option (list StringTriple.t) * option (list StringTriple.t)) :=
  base ← new_base 1 [AddString (edge 98 112 98); AddString (edge 98 113 98)];
  child ← new_child 2 base [AddString (edge 97 113 98)];
  _ ← store_layer_rollup true some_fuel (nth_name 3) child;
  child ← loaded 2;
  top ← new_child 4 child [AddString (edge 97 113 97)];
  _ ← store_layer_rollup true some_fuel (nth_name 5) top;
  top' ← loaded 4;
  mret (contents top, contents top').

Lemma second_rollup_swaps_predicates : result rolled_up_twice =
  Ok (Some [edge 98 112 98; edge 98 113 98; edge 97 113 98; edge 97 113 97],
      Some [edge 98 113 98; edge 98 112 98; edge 97 112 98; edge 97 112 97]).
Proof. vm_compute. reflexivity. Qed.

(** ** Rolling up through an older rollup

    [layer_changes_upto] reads the changes of the layer it starts from for
    every layer on the way.  After the third layer has been rolled up, the
    fourth is rolled up to the first: of the two layers on disk in between
    the same changes are taken twice, and the rollup panics. *)
Definition rolled_up_through : io memory_store () :=
  l0 ← new_base 10 [AddString (edge 97 112 98)];
  l1 ← new_child 11 l0 [AddString (edge 97 112 99)];
  l2 ← new_child 12 l1 [AddString (edge 97 112 100)];
  l3 ← new_child 13 l2 [AddString (edge 97 112 101)];
  _ ← store_layer_rollup_upto true some_fuel (nth_name 20) l3 l0;
  l3 ← loaded 13;
  l4 ← new_child 14 l3 [AddString (edge 97 112 102)];
  store_layer_rollup_upto true some_fuel (nth_name 21) l4 l1.

Lemma rollup_through_rollup_panics : result rolled_up_through = Panic.
Proof. vm_compute. reflexivity. Qed.

(** With nothing rolled up before, the same rollup is fine. *)
Definition rolled_up_directly : io memory_store (option (list StringTriple.t)) :=
  l0 ← new_base 10 [AddString (edge 97 112 98)];
  l1 ← new_child 11 l0 [AddString (edge 97 112 99)];
  l2 ← new_child 12 l1 [AddString (edge 97 112 100)];
  l3 ← new_child 13 l2 [AddString (edge 97 112 101)];
  l4 ← new_child 14 l3 [AddString (edge 97 112 102)];
  _ ← store_layer_rollup_upto true some_fuel (nth_name 21) l4 l1;
  l4 ← loaded 14;
  mret (contents l4).

Example direct_rollup_runs : result rolled_up_directly =
  Ok (Some [edge 97 112 98; edge 97 112 99; edge 97 112 100; edge 97 112 101; edge 97 112 102]).
Proof. vm_compute. reflexivity. Qed.

(** ** Counting predicates

    When the layer is not cached, or is cached as a rollup, the store with a
    cache counts the values instead of the predicates. *)
Definition predicates_counted : io memory_store (option N * option N) :=
  base ← new_base 1 [AddString (edge 97 112 98); AddString (edge 97 113 98)];
  cached ← on_layers (CachedLayerStore.get_predicate_count (nth_name 1));
  _ ← on_layers (CachedLayerStore.forget (nth_name 1));
  uncached ← on_layers (CachedLayerStore.get_predicate_count (nth_name 1));
  mret (cached, uncached).

Lemma uncached_predicate_count : result predicates_counted = Ok (Some 2, Some 0).
Proof. vm_compute. reflexivity. Qed.

(** ** Setting a head that has moved

    Between reading the label and writing it, another handle sets the head;
    the update is refused, and reported as done. *)
Definition lost_update : io memory_store (bool * option (list StringTriple.t)) :=
  graph ← create [103];
  one ← new_base 1 [AddString (edge 97 112 98)];
  other ← new_base 2 [AddString (edge 97 112 99)];
  read ← NamedGraph.read_head some_fuel graph one;
  _ ← NamedGraph.set_head some_fuel graph other;
  b ← NamedGraph.write_head one read;
  head ← NamedGraph.head true some_fuel graph;
  head ← io_opt head;
  mret (b, contents head).

Lemma refused_update_reported_done : result lost_update = Ok (true, Some [edge 97 112 99]).
Proof. vm_compute. reflexivity. Qed.

(** ** Rolling up imprecisely through an older rollup

    The imprecise rollup takes the changes from the layer it can go down to in
    memory, here the third, but is stored as a child of the first: the changes
    in between are gone, and ids have no strings. *)
Definition rolled_up_imprecisely : io memory_store (option (list StringTriple.t) * option (list IdTriple.t)) :=
  l0 ← new_base 10 [AddString (edge 97 112 98)];
  l1 ← new_child 11 l0 [AddString (edge 97 112 99)];
  l2 ← new_child 12 l1 [AddString (edge 97 112 100)];
  l3 ← new_child 13 l2 [AddString (edge 97 112 101)];
  _ ← store_layer_rollup_upto true some_fuel (nth_name 20) l3 l0;
  l3 ← loaded 13;
  l4 ← new_child 14 l3 [AddString (edge 97 112 102)];
  _ ← store_layer_imprecise_rollup_upto true some_fuel (nth_name 21) l4 l1;
  l4' ← loaded 14;
  mret (contents l4, triples l4').

Lemma imprecise_rollup_loses_changes : result rolled_up_imprecisely =
  Ok (Some [edge 97 112 98; edge 97 112 99; edge 97 112 100; edge 97 112 101; edge 97 112 102],
      Some [IdTriple.mk 1 1 2; IdTriple.mk 1 1 3; IdTriple.mk 1 1 6]).
Proof. vm_compute. reflexivity. Qed.

(** ** Rolling up to an ancestor what is rolled up whole

    The parent of the older rollup is read, but that is a base layer: there is
    no such file. *)
Definition rolled_up_after_whole : io memory_store () :=
  l0 ← new_base 10 [AddString (edge 97 112 98)];
  l1 ← new_child 11 l0 [AddString (edge 97 112 99)];
  l2 ← new_child 12 l1 [AddString (edge 97 112 100)];
  _ ← store_layer_rollup true some_fuel (nth_name 20) l2;
  store_layer_rollup_upto true some_fuel (nth_name 21) l2 l0.

Lemma rollup_upto_after_rollup_panics : result rolled_up_after_whole = Panic.
Proof. vm_compute. reflexivity. Qed.

(** ** Ids that make no sense

    Triples that are added by id are not checked: the subject of this one is a
    value, and the layer cannot be squashed. *)
Definition squashed_value_subject : io memory_store StoreLayer.t :=
  l0 ← new_base 10 [AddString (StringTriple.new_value [97] [112] [98])];
  l1 ← new_child 11 l0 [AddId (IdTriple.mk 2 1 1)];
  squash true some_fuel (nth_name 12) l1.

Lemma squash_value_subject_panics : result squashed_value_subject = Panic.
Proof. vm_compute. reflexivity. Qed.

(** The subject of the next one is not in use yet: the string that gets its id
    later on has a triple that nobody added. *)
Definition unused_id_added : io memory_store (option (list StringTriple.t)) :=
  l0 ← new_base 10 [AddString (edge 97 112 98)];
  l1 ← new_child 11 l0 [AddId (IdTriple.mk 3 1 2)];
  l2 ← new_child 12 l1 [AddString (edge 99 112 97)];
  mret (contents l2).

Lemma unused_id_becomes_string : result unused_id_added = Ok (Some [edge 97 112 98; edge 99 112 97; edge 99 112 98]).
Proof. vm_compute. reflexivity. Qed.

(** ** The empty string

    A dictionary without strings finds the empty string under id 1.  In the
    child, which has no nodes of its own, that is the id of its value. *)
Definition with_value : io memory_store StoreLayer.t :=
  l0 ← new_base 10 [AddString (edge 97 112 98)];
  new_child 11 l0 [AddString (StringTriple.new_value [97] [112] [99])].

Lemma empty_string_found :
  result (l ← with_value; mret (contents l, string_triple_exists l (StringTriple.new_node [97] [112] []))) =
  Ok (Some [edge 97 112 98; StringTriple.new_value [97] [112] [99]], Some true).
Proof. vm_compute. reflexivity. Qed.

(** A triple with the empty string as its subject gets the value as its
    subject. *)
Lemma empty_subject_is_value :
  result (l ← with_value; l ← new_child 12 l [AddString (StringTriple.new_node [] [112] [97])]; mret (triples l, contents l)) =
  Ok (Some [IdTriple.mk 1 1 2; IdTriple.mk 1 1 3; IdTriple.mk 3 1 1], None).
Proof. vm_compute. reflexivity. Qed.

(** ** Zero bytes

    The strings of a dictionary end with a zero byte: a string that has one
    itself is cut off there, and the one that follows cannot be read.  The
    layer has neither of its two triples. *)
Definition with_zero_byte : io memory_store (option (list StringTriple.t) * list (option bool)) :=
  l ← new_base 10 [AddString (edge 97 112 99); AddString (StringTriple.new_node [98; 0; 98] [112] [99])];
  mret (contents l, string_triple_exists l <$> [edge 97 112 99; StringTriple.new_node [98; 0; 98] [112] [99]]).

Lemma zero_byte_loses_triple : result with_zero_byte = Ok (None, [Some false; Some false]).
Proof. vm_compute. reflexivity. Qed.
