(* ===== verification/SyncStores.v ===== *)
(** * The blocking API of the store (src/store/sync.rs)

    The handles of the API in wrappers whose methods block until what they do
    is done: a step of the store that runs to its end.  The wrapper of a layer
    is a layer itself, and promises what the layer promises. *)

From stdpp Require Import gmap.
From S2P Require Import Prelude.
From S2P Require Import Words.
From S2P Require Import Codec.
From S2P Require Import Strings.
From S2P Require Import PfcBlocks.
From S2P Require Import PfcDicts.
From S2P Require Import LayerTypes.
From S2P Require Import LayerModel.
From S2P Require Import Triples.
From S2P Require Import IdMaps.
From S2P Require Import TripleBuilder.
From S2P Require Import Iterators.
From S2P Require Import InternalLayers.
From S2P Require Import LayerTriples.
From S2P Require Import LayerRefinement.
From S2P Require Import LayerBuilders.
From S2P Require Import BuiltLayers.
From S2P Require Import Rollups.
From S2P Require Import SimpleBuilder.
From S2P Require Import Commits.
From S2P Require Import Names.
From S2P Require Import StoreMonad.
From S2P Require Import Labels.
From S2P Require Import FileNames.
From S2P Require Import Files.
From S2P Require Import Directories.
From S2P Require Import DiskStores.
From S2P Require Import Packs.
From S2P Require Import Caches.
From S2P Require Import LayerStores.
From S2P Require Import LayerWrites.
From S2P Require Import CachedStores.
From S2P Require Import Stores.
From S2P Require Import StoreSpecs.
From S2P Require Import Executions.
Open Scope N_scope.

(** [RUNTIME.block_on]: the future runs to its end. *)
Definition task_sync {S A} (future : io S A) : io S A := future.

(** ** Layers *)

Module SyncStoreLayer.
Record t : Type := wrap { inner : StoreLayer.t }.
End SyncStoreLayer.
#[local] Abbreviation layer_of := SyncStoreLayer.inner.

#[export] Instance sync_store_layer `{BytesSize} : Layer SyncStoreLayer.t := {|
  name self := name (layer_of self);
  parent_name self := parent_name (layer_of self);
  node_and_value_count self := node_and_value_count (layer_of self);
  layer_predicate_count self := layer_predicate_count (layer_of self);
  subject_id self subject := subject_id (layer_of self) subject;
  predicate_id self predicate := predicate_id (layer_of self) predicate;
  object_node_id self object := object_node_id (layer_of self) object;
  object_value_id self object := object_value_id (layer_of self) object;
  id_subject self id := id_subject (layer_of self) id;
  id_predicate self id := id_predicate (layer_of self) id;
  id_object self id := id_object (layer_of self) id;
  all_counts self := all_counts (layer_of self);
  triple_exists self subject predicate object := triple_exists (layer_of self) subject predicate object;
  triples self := triples (layer_of self);
  triples_s self subject := triples_s (layer_of self) subject;
  triples_sp self subject predicate := triples_sp (layer_of self) subject predicate;
  triples_p self predicate := triples_p (layer_of self) predicate;
  triples_o self object := triples_o (layer_of self) object;
  triple_addition_count self := triple_addition_count (layer_of self);
  triple_removal_count self := triple_removal_count (layer_of self)
|}.

(** ** Builders *)

Module SyncStoreLayerBuilder.
Record t (F : Type) : Type := wrap { inner : StoreLayerBuilder.t F }.
Arguments wrap {F}. Arguments inner {F}.

Section builder.
Context {F : Type}.

(** A step of the builder inside, and a step of it together with the store. *)
Definition on_inner {A} (m : io (StoreLayerBuilder.t F) A) : io (t F) A :=
  fun self => let '(b, r) := m (inner self) in (wrap b, r).
Definition with_inner {S A} (m : io (S * StoreLayerBuilder.t F) A) : io (S * t F) A :=
  fun st => let '((s, b), r) := m (st.1, inner st.2) in ((s, wrap b), r).

Definition name (self : t F) : layer_name := StoreLayerBuilder.name (inner self).

Definition add_string_triple (triple : StringTriple.t) : io (t F) () := on_inner (StoreLayerBuilder.add_string_triple triple).
Definition add_id_triple (triple : IdTriple.t) : io (t F) () := on_inner (StoreLayerBuilder.add_id_triple triple).
Definition remove_string_triple (triple : StringTriple.t) : io (t F) () := on_inner (StoreLayerBuilder.remove_string_triple triple).
Definition remove_id_triple (triple : IdTriple.t) : io (t F) () := on_inner (StoreLayerBuilder.remove_id_triple triple).

Definition committed (self : t F) : bool := StoreLayerBuilder.committed (inner self).

Context {L S C : Type} `{LabelStore L} `{PersistentLayerStore S F} `{LayerCache C}.
Context `{BytesSize} `{FramedRead} `{Log2F32} `{ParSort} `{RayonSort} `{ParBridge} (debug : bool).

Definition commit_no_load : io (Store L S C * t F) () := task_sync (with_inner Stores.commit_no_load).

Definition commit (fuel : nat) : io (Store L S C * t F) SyncStoreLayer.t :=
  inner ← task_sync (with_inner (Stores.commit debug fuel));
  mret (SyncStoreLayer.wrap inner).

Definition apply_delta (delta : SyncStoreLayer.t) : io (Store L S C * t F) () :=
  task_sync (with_inner (Stores.apply_delta debug (layer_of delta))).

Definition apply_diff (other : SyncStoreLayer.t) : io (t F) () := on_inner (StoreLayerBuilder.apply_diff (layer_of other)).
End builder.
End SyncStoreLayerBuilder.

(** ** The methods of layers *)

Section layers.
Context {L S F C : Type} `{LabelStore L} `{PersistentLayerStore S F} `{LayerCache C}.
Context `{BytesSize} `{FramedRead} `{Log2F32} `{ParSort} `{RayonSort} `{ParBridge} (debug : bool).

Definition sync_open_write (fuel : nat) (random : layer_name) (self : SyncStoreLayer.t) : io (Store L S C) (SyncStoreLayerBuilder.t F) :=
  inner ← task_sync (open_write debug fuel random (layer_of self));
  mret (SyncStoreLayerBuilder.wrap inner).

Definition sync_parent (fuel : nat) (self : SyncStoreLayer.t) : io (Store L S C) (option SyncStoreLayer.t) :=
  inner ← task_sync (parent_layer debug fuel (layer_of self));
  mret (SyncStoreLayer.wrap <$> inner).

Definition sync_squash (fuel : nat) (random : layer_name) (self : SyncStoreLayer.t) : io (Store L S C) SyncStoreLayer.t :=
  inner ← task_sync (squash debug fuel random (layer_of self));
  mret (SyncStoreLayer.wrap inner).

Definition sync_rollup (fuel : nat) (random : layer_name) (self : SyncStoreLayer.t) : io (Store L S C) () :=
  task_sync (store_layer_rollup debug fuel random (layer_of self)).
Definition sync_rollup_upto (fuel : nat) (random : layer_name) (self upto : SyncStoreLayer.t) : io (Store L S C) () :=
  task_sync (store_layer_rollup_upto debug fuel random (layer_of self) (layer_of upto)).
Definition sync_imprecise_rollup_upto (fuel : nat) (random : layer_name) (self upto : SyncStoreLayer.t) : io (Store L S C) () :=
  task_sync (store_layer_imprecise_rollup_upto debug fuel random (layer_of self) (layer_of upto)).

Definition sync_triple_addition_exists (self : SyncStoreLayer.t) (subject predicate object : N) : io (Store L S C) bool :=
  task_sync (store_layer_triple_addition_exists debug (layer_of self) subject predicate object).
Definition sync_triple_removal_exists (self : SyncStoreLayer.t) (subject predicate object : N) : io (Store L S C) bool :=
  task_sync (store_layer_triple_removal_exists debug (layer_of self) subject predicate object).
Definition sync_triple_additions (self : SyncStoreLayer.t) : io (Store L S C) OptInternalLayerTripleSubjectIterator.t :=
  task_sync (store_layer_triple_additions debug (layer_of self)).
Definition sync_triple_removals (self : SyncStoreLayer.t) : io (Store L S C) OptInternalLayerTripleSubjectIterator.t :=
  task_sync (store_layer_triple_removals debug (layer_of self)).
Definition sync_triple_additions_s (self : SyncStoreLayer.t) (subject : N) : io (Store L S C) (list IdTriple.t) :=
  task_sync (store_layer_triple_additions_s debug (layer_of self) subject).
Definition sync_triple_removals_s (self : SyncStoreLayer.t) (subject : N) : io (Store L S C) (list IdTriple.t) :=
  task_sync (store_layer_triple_removals_s debug (layer_of self) subject).
Definition sync_triple_additions_sp (self : SyncStoreLayer.t) (subject predicate : N) : io (Store L S C) (list IdTriple.t) :=
  task_sync (store_layer_triple_additions_sp debug (layer_of self) subject predicate).
Definition sync_triple_removals_sp (self : SyncStoreLayer.t) (subject predicate : N) : io (Store L S C) (list IdTriple.t) :=
  task_sync (store_layer_triple_removals_sp debug (layer_of self) subject predicate).
Definition sync_triple_additions_p (self : SyncStoreLayer.t) (predicate : N) : io (Store L S C) OptInternalLayerTriplePredicateIterator.t :=
  task_sync (store_layer_triple_additions_p debug (layer_of self) predicate).
Definition sync_triple_removals_p (self : SyncStoreLayer.t) (predicate : N) : io (Store L S C) OptInternalLayerTriplePredicateIterator.t :=
  task_sync (store_layer_triple_removals_p debug (layer_of self) predicate).
Definition sync_triple_additions_o (self : SyncStoreLayer.t) (object : N) : io (Store L S C) (list IdTriple.t) :=
  task_sync (store_layer_triple_additions_o debug (layer_of self) object).
Definition sync_triple_removals_o (self : SyncStoreLayer.t) (object : N) : io (Store L S C) (list IdTriple.t) :=
  task_sync (store_layer_triple_removals_o debug (layer_of self) object).
Definition sync_triple_layer_addition_count (self : SyncStoreLayer.t) : io (Store L S C) N :=
  task_sync (store_layer_triple_layer_addition_count (layer_of self)).
Definition sync_triple_layer_removal_count (self : SyncStoreLayer.t) : io (Store L S C) N :=
  task_sync (store_layer_triple_layer_removal_count (layer_of self)).
Definition sync_retrieve_layer_stack_names (fuel : nat) (self : SyncStoreLayer.t) : io (Store L S C) (list layer_name) :=
  task_sync (store_layer_retrieve_layer_stack_names fuel (layer_of self)).
End layers.

(** ** Named graphs *)

Module SyncNamedGraph.
Record t : Type := wrap { inner : NamedGraph.t }.

Definition name (self : t) : list N := NamedGraph.name (inner self).

Section graph.
Context {L S F C : Type} `{LabelStore L} `{PersistentLayerStore S F} `{LayerCache C}.
Context `{BytesSize} `{FramedRead} `{Log2F32} `{ParSort} `{RayonSort} `{ParBridge} (debug : bool).

Definition head_version (fuel : nat) (self : t) : io (Store L S C) (option SyncStoreLayer.t * N) :=
  '(layer, version) ← task_sync (NamedGraph.head_version debug fuel (inner self));
  mret (SyncStoreLayer.wrap <$> layer, version).

Definition head (fuel : nat) (self : t) : io (Store L S C) (option SyncStoreLayer.t) :=
  inner ← task_sync (NamedGraph.head debug fuel (inner self));
  mret (SyncStoreLayer.wrap <$> inner).

Definition set_head (fuel : nat) (self : t) (layer : SyncStoreLayer.t) : io (Store L S C) bool :=
  task_sync (NamedGraph.set_head fuel (inner self) (layer_of layer)).
Definition force_set_head (self : t) (layer : SyncStoreLayer.t) : io (Store L S C) () :=
  task_sync (NamedGraph.force_set_head (inner self) (layer_of layer)).
Definition force_set_head_version (self : t) (layer : SyncStoreLayer.t) (version : N) : io (Store L S C) bool :=
  task_sync (NamedGraph.force_set_head_version (inner self) (layer_of layer) version).
Definition delete : t -> io (Store L S C) () := fun self => task_sync (delete_graph (inner self)).
End graph.
End SyncNamedGraph.

(** ** Stores *)

Module SyncStore.
Section store.
Context {L S F C : Type} `{LabelStore L} `{PersistentLayerStore S F} `{LayerCache C}.
Context `{BytesSize} `{FramedRead} `{Log2F32} `{ParSort} `{RayonSort} `{ParBridge} `{PackFormat} (debug : bool).

Definition create (label : list N) : io (Store L S C) SyncNamedGraph.t :=
  inner ← task_sync (Stores.create label);
  mret (SyncNamedGraph.wrap inner).

Definition open (label : list N) : io (Store L S C) (option SyncNamedGraph.t) :=
  inner ← task_sync (Stores.open label);
  mret (SyncNamedGraph.wrap <$> inner).

Definition delete (label : list N) : io (Store L S C) bool := task_sync (Stores.delete label).

Definition get_layer_from_id (fuel : nat) (layer : layer_name) : io (Store L S C) (option SyncStoreLayer.t) :=
  inner ← task_sync (Stores.get_layer_from_id debug fuel layer);
  mret (SyncStoreLayer.wrap <$> inner).

Definition create_base_layer (random : layer_name) : io (Store L S C) (SyncStoreLayerBuilder.t F) :=
  inner ← task_sync (store_create_base_layer random);
  mret (SyncStoreLayerBuilder.wrap inner).

Definition export_layers (mtime : N) (layer_ids : list layer_name) : io (Store L S C) (list N) :=
  task_sync (on_layers (CachedLayerStore.export_layers mtime layer_ids)).
Definition import_layers (pack : list N) (layer_ids : list layer_name) : io (Store L S C) () :=
  task_sync (on_layers (CachedLayerStore.import_layers pack layer_ids)).
End store.
End SyncStore.

Definition open_sync_memory_store : Store MemoryLabelStore.t MemoryLayerStore.t LockingHashMapLayerCache.t := open_memory_store.

Definition open_sync_directory_store (labels : DirectoryLabelStore.t) (layers : DirectoryLayerStore.t)
    : Store DirectoryLabelStore.t DirectoryLayerStore.t LockingHashMapLayerCache.t := open_directory_store labels layers.

(** ** What the blocking API promises *)

Section blocking.
Context `{BytesSize}.

(** A layer in its wrapper means what it means without. *)
Definition sync_implements (self : SyncStoreLayer.t) (m : layer_model) : Prop := implements (StoreLayer.layer (layer_of self)) m.

#[export] Instance sync_layer_laws : LayerLaws SyncStoreLayer.t sync_implements.
Proof.
  split; intros [[l]].
  - exact (subject_id_law l).
  - exact (predicate_id_law l).
  - exact (object_node_id_law l).
  - exact (object_value_id_law l).
  - exact (id_subject_law l).
  - exact (id_predicate_law l).
  - exact (id_object_law l).
  - exact (all_counts_law l).
  - exact (node_and_value_count_law l).
  - exact (predicate_count_law l).
  - exact (triple_exists_law l).
  - exact (triples_law l).
  - exact (triples_s_law l).
  - exact (triples_sp_law l).
  - exact (triples_p_law l).
  - exact (triples_o_law l).
  - exact (model_law l).
Qed.
End blocking.

Lemma io_bind_at {S A B} (m : io S A) (f : A -> io S B) s :
  (m ≫= f) s = match m s with (s, Ok a) => f a s | (s, Err e) => (s, Err e) | (s, Panic) => (s, Panic) end.
Proof. done. Qed.

Section transactions.
Context {L S F C : Type} `{LabelStore L} `{PersistentLayerStore S F} `{LayerCache C}.
Context `{BytesSize} `{FramedRead} `{Log2F32} `{ParSort} `{RayonSort} `{ParBridge} (debug : bool).

Definition sync_call (c : change) : io (SyncStoreLayerBuilder.t F) () :=
  match c with
  | AddString x => SyncStoreLayerBuilder.add_string_triple x
  | AddId x => SyncStoreLayerBuilder.add_id_triple x
  | RemoveString x => SyncStoreLayerBuilder.remove_string_triple x
  | RemoveId x => SyncStoreLayerBuilder.remove_id_triple x
  end.

Lemma sync_calls (cs : list change) (b : StoreLayerBuilder.t F) :
  for_each sync_call cs (SyncStoreLayerBuilder.wrap b) = let '(b, r) := for_each call cs b in (SyncStoreLayerBuilder.wrap b, r).
Proof using Type.
  revert b. induction cs as [|c cs IH]; intros b; [done|]. cbn [for_each]. unfold mbind, io_bind.
  assert (sync_call c (SyncStoreLayerBuilder.wrap b) = let '(b, r) := call c b in (SyncStoreLayerBuilder.wrap b, r)) as -> by by destruct c.
  destruct (call c b) as [b' [[]|e|]]; [apply IH|done..].
Qed.

(** A transaction of the blocking API on a builder does what it does on the
    builder inside, whatever the outcome. *)
Lemma sync_transaction (fuel : nat) (cs : list change) (b : StoreLayerBuilder.t F) (w : Store L S C) :
  with_cell (SyncStoreLayerBuilder.wrap b) (_ ← on_second (for_each sync_call cs); SyncStoreLayerBuilder.commit debug fuel) w =
    (l ← with_cell b (_ ← on_second (for_each call cs); Stores.commit debug fuel); mret (SyncStoreLayer.wrap l)) w.
Proof using Type.
  unfold with_cell, on_second, mbind, io_bind. cbn [fst snd]. rewrite sync_calls. destruct (for_each call cs b) as [b' [[]|e|]]; [|done..].
  unfold SyncStoreLayerBuilder.commit, SyncStoreLayerBuilder.with_inner, task_sync, mbind, io_bind. cbn [fst snd SyncStoreLayerBuilder.inner].
  by destruct (Stores.commit debug fuel (w, b')) as [[w' b1] [l|e|]].
Qed.

Lemma sync_base_layer (random : layer_name) (fuel : nat) (cs : list change) (w : Store L S C) :
  (b ← SyncStore.create_base_layer random;
   with_cell b (_ ← on_second (for_each sync_call cs); SyncStoreLayerBuilder.commit debug fuel)) w =
    (l ← (b ← store_create_base_layer random; with_cell b (_ ← on_second (for_each call cs); Stores.commit debug fuel));
     mret (SyncStoreLayer.wrap l)) w.
Proof using Type.
  unfold SyncStore.create_base_layer, task_sync. rewrite !io_bind_at. 
  destruct (store_create_base_layer random w) as [w' [b|e|]]; [|done..]. apply sync_transaction.
Qed.

Lemma sync_child_layer (random : layer_name) (fuel : nat) (self : SyncStoreLayer.t) (cs : list change) (w : Store L S C) :
  (b ← sync_open_write debug fuel random self;
   with_cell b (_ ← on_second (for_each sync_call cs); SyncStoreLayerBuilder.commit debug fuel)) w =
    (l ← (b ← open_write debug fuel random (layer_of self); with_cell b (_ ← on_second (for_each call cs); Stores.commit debug fuel));
     mret (SyncStoreLayer.wrap l)) w.
Proof using Type.
  unfold sync_open_write, task_sync. rewrite !io_bind_at. 
  destruct (open_write debug fuel random (layer_of self) w) as [w' [b|e|]]; [|done..]. apply sync_transaction.
Qed.
End transactions.

(** ** The unit tests *)

#[local] Existing Instances sample_bytes whole_file exact_log2 merge_par_sort merge_rayon in_order.

(** A graph whose head is set to a base layer, then to a child of it. *)
Definition create_and_manipulate : io memory_store (bool * bool * bool * option bool * option bool) :=
  database ← SyncStore.create [102; 111; 111; 100; 98];
  head ← SyncNamedGraph.head true some_fuel database;
  builder ← SyncStore.create_base_layer (nth_name 1);
  layer ← with_cell builder (
    _ ← on_second (SyncStoreLayerBuilder.add_string_triple (edge 97 112 98)); SyncStoreLayerBuilder.commit true some_fuel);
  set ← SyncNamedGraph.set_head some_fuel database layer;
  builder ← sync_open_write true some_fuel (nth_name 2) layer;
  layer2 ← with_cell builder (
    _ ← on_second (SyncStoreLayerBuilder.add_string_triple (edge 99 113 100)); SyncStoreLayerBuilder.commit true some_fuel);
  set2 ← SyncNamedGraph.set_head some_fuel database layer2;
  layer ← SyncNamedGraph.head true some_fuel database;
  layer ← io_opt layer;
  mret (bool_decide (is_Some head), set && set2, bool_decide (name layer = name layer2),
        string_triple_exists layer (edge 97 112 98), string_triple_exists layer (edge 99 113 100)).

Example create_and_manipulate_sync_memory_database :
  result create_and_manipulate = Ok (false, true, true, Some true, Some true).
Proof. vm_compute. reflexivity. Qed.

(** Whether a step ends with the error of a committed builder. *)
Definition refused {S A} (m : io S A) : io S bool :=
  fun s => let '(s, r) := m s in (s, Ok (match r with Err InvalidData => true | _ => false end)).

Definition committed_twice : io memory_store (bool * bool * bool) :=
  builder ← SyncStore.create_base_layer (nth_name 1);
  with_cell builder (
    _ ← on_second (SyncStoreLayerBuilder.add_string_triple (edge 97 112 98));
    before ← on_second io_get;
    _ ← SyncStoreLayerBuilder.commit true some_fuel;
    after ← on_second io_get;
    again ← refused (on_second (SyncStoreLayerBuilder.add_string_triple (edge 97 112 98)));
    mret (SyncStoreLayerBuilder.committed before, SyncStoreLayerBuilder.committed after, again)).

Example commit_builder_makes_builder_committed : result committed_twice = Ok (false, true, true).
Proof. vm_compute. reflexivity. Qed.
