(* ===== verification/StoreTheorems.v ===== *)
(** * Theorems about the store

    The properties of the API over any label store, any store of directories
    and any cache that satisfy their laws, with witnesses on the store in
    memory. *)

From stdpp Require Import gmap relations.
From S2P Require Import Prelude.
From S2P Require Import Words.
From S2P Require Import Codec.
From S2P Require Import Strings.
From S2P Require Import PfcBlocks.
From S2P Require Import PfcDicts.
From S2P Require Import LayerTypes.
From S2P Require Import LayerModel.
From S2P Require Import Triples.
From S2P Require Import IdMaps.
From S2P Require Import TripleBuilder.
From S2P Require Import Iterators.
From S2P Require Import Stacks.
From S2P Require Import InternalLayers.
From S2P Require Import LayerTriples.
From S2P Require Import LayerRefinement.
From S2P Require Import LayerBuilders.
From S2P Require Import BuiltLayers.
From S2P Require Import Rollups.
From S2P Require Import SimpleBuilder.
From S2P Require Import Commits.
From S2P Require Import Names.
From S2P Require Import StoreMonad.
From S2P Require Import Labels.
From S2P Require Import FileNames.
From S2P Require Import Files.
From S2P Require Import Directories.
From S2P Require Import DiskStores.
From S2P Require Import StoreRefinement.
From S2P Require Import Caches.
From S2P Require Import LayerStores.
From S2P Require Import StoredLayers.
From S2P Require Import LayerWrites.
From S2P Require Import LoadedLayers.
From S2P Require Import StoreGrowth.
From S2P Require Import StoreViews.
From S2P Require Import CachedStores.
From S2P Require Import Stores.
From S2P Require Import StoreSpecs.
From S2P Require Import StoreChanges.
From S2P Require Import Executions.
Open Scope N_scope.

Section theorems.
Context {L S F C : Type} `{LabelStore L} `{PersistentLayerStore S F} `{LayerCache C}.
Context (shown : L -> gmap (list N) Label.t -> Prop) `{!LabelStoreLaws L shown}.
Context (shows : S -> disk -> Prop) (ext : S -> S -> Prop) (denotes : S -> F -> layer_name * filename -> Prop) `{!DiskLaws S F shows ext denotes}.
Context (holds : (layer_name -> InternalLayer -> Prop) -> C -> Prop) `{!CacheLaws C holds}.
Context `{BytesSize} `{FramedRead} `{Log2F32} `{ParSort} `{RayonSort} `{ParBridge} (debug : bool).

Abbreviation good := (good shown shows holds debug).
Abbreviation layers_good := (layers_good shows holds debug).

(** C5: a layer of the store is loaded, with what the store says of it,
    whatever the cache has; the store stays as it is.  A fuel of two for every
    layer of the stack is enough. *)
Theorem layer_loads (w : Store L S C) (D : disk) (I : infos) m fuel n i : good w D I m -> I !! n = Some i -> (2 * info_depth i + 1 < fuel)%nat ->
  exists w' l, runs (get_layer_from_id debug fuel n) w w' (Some (StoreLayer.wrap l)) /\ good w' D I m /\
    Internal.name l = n /\ Internal.parent_name l = info_parent i /\ implements l (info_model i).
Proof using CacheLaws0 DiskLaws0 H3.
  intros Hg Hi Hf. destruct (load_good shown shows ext denotes holds debug w D I m fuel n i Hg Hi Hf) as (sc' & l & Hrun & Hg' & Hl).
  exists (w.1, sc'), l. split; [|split; [done|]].
  - unfold get_layer_from_id. eapply runs_bind; [exact Hrun|]. done.
  - destruct Hl as [E1 E2 E3 _]. split; [done|]. split; [done|]. by eapply within_implements.
Qed.

(** C3: a transaction: a child of a layer is opened, changes are made to it, it
    is committed and loaded.  The ids of the parent keep their meaning in the
    layer that is loaded, and of the triples of nonempty strings it has exactly
    those of its parent with the changes that were asked for; every layer there
    was keeps its meaning, and the labels are as they were.  The changes may be
    additions and removals, by strings or by ids, in any order and repeated,
    provided that the strings are not empty, those that are added have no zero
    bytes, the ids that are added are in use in the parent, and the numbers fit
    the files ([commit_input]).  The code checks none of this, and Executions
    shows how the layer goes wrong for an empty string, for a zero byte and for
    an id that is not in use. *)
Theorem transaction_commits (w : Store L S C) (D : disk) (I : infos) m fuel n p ip self cs M :
  good w D I m -> I !! p = Some ip -> Internal.name (StoreLayer.layer self) = p -> (2 * info_depth ip + 3 < fuel)%nat ->
  name_ok n -> D !! n = None ->
  let k := info_bound ip + lenN (added cs) + lenN (added_ids cs) in
  Forall nonempty_strings (added cs ++ removed cs) ->
  commit_input (info_model ip) (added cs) (added_ids cs) (removed cs) (removed_ids cs) M -> k < 2 ^ 64 ->
  exists w' D' m' l, runs (b ← open_write debug fuel n self; with_cell b (_ ← on_second (for_each call cs); commit debug fuel)) w w' (StoreLayer.wrap l) /\
    good w' D' (<[n := mk_info m' k (Some p) (Datatypes.S (info_depth ip))]> I) m /\ I !! n = None /\
    Internal.name l = n /\ Internal.parent_name l = Some p /\ implements l m' /\
    committed (info_model ip) m' (added cs) (added_ids cs) (removed cs) (removed_ids cs).
Proof using CacheLaws0 DiskLaws0.
  intros Hg Hip Hname Hf Hn Hd k Hne Hin Hk.
  destruct (child_transaction_runs shown shows ext denotes holds debug w D I m fuel n p ip self cs M _ Hg Hip Hname Hf Hn Hd Hne Hin Hk
    (fun st cell b st' a _ Hb _ _ => calls_commit debug fuel cs st cell b st' a Hb))
    as (w' & D' & m' & l & Hrun & Hg' & Hi & [E1 E2 E3 _] & Hm).
  exists w', D', m', l. repeat (split; [done|]). split; [by eapply within_implements|done].
Qed.

(** *** Types *)

(** Every triple of every layer has a form with strings. *)
Definition typed_store (I : infos) : Prop := map_Forall (fun _ i => typed (info_model i)) I.

(** The layer translates each of its triples to strings. *)
Definition translates (l : InternalLayer) : Prop :=
  exists ts, triples l = Some ts /\ Forall (fun t => exists x, id_triple_to_string l t = Some (Some x)) ts.

Lemma typed_translates l m : implements l m -> typed m -> translates l.
Proof using.
  intros Hl Hm. exists (model_triples m). split; [by apply triples_law|]. eapply Forall_impl; [exact Hm|]. intros t [x Hx].
  exists x. by rewrite (to_string_of implements l m Hl), Hx.
Qed.


(** *** Heads *)

Lemma labels_steps {A} (mm : io L A) (w : Store L S C) s' a : runs mm w.1 s' a -> runs (on_labels mm) w (s', w.2) a.
Proof using. destruct w as [l sc]. apply on_store_steps. Qed.

Lemma label_read (w : Store L S C) D I m g : good w D I m -> plain_name g -> runs (on_labels (get_label g)) w w (m !! g).
Proof using LabelStoreLaws0.
  intros [Hl _ _ _] Hg. destruct w as [l sc]. apply (labels_steps (get_label g) (l, sc)). by apply (get_shown l m g).
Qed.

(** A label with a new layer. *)
Definition moved (l : Label.t) (x : layer_name) : Label.t := Label.mk (Label.name l) (Some x) (Label.version l + 1).

Lemma label_moves (w : Store L S C) D I m g l x : good w D I m -> m !! g = Some l -> Label.version l + 1 < 2 ^ 64 -> is_Some (I !! x) ->
  exists w', runs (on_labels (set_label l x)) w w' (Some (moved l x)) /\ w'.2 = w.2 /\ good w' D I (<[g := moved l x]> m).
Proof using LabelStoreLaws0.
  intros [Hl Hgl Hn Hh] Hm Hv [i Hx]. destruct (Hn g l Hm) as [Hg En].
  pose proof (with_updated_eq l (Some x) Hv) as Eu. pose proof Hgl as [_ HI _]. destruct (HI x i Hx) as [Hok _ _ _].
  destruct (set_current w.1 m l (Some x) (moved l x) Hl) as (s' & Hs & Hshown); [by rewrite En|by rewrite En|exact Eu|done|].
  exists (s', w.2). split; [by apply labels_steps|]. split; [done|]. rewrite En in Hshown. split; [exact Hshown|done| |].
  - intros n l' [[<- <-]|[_ Hl']]%lookup_insert_Some; [|by apply Hn]. unfold moved. cbn. by rewrite En.
  - intros n l' y [[<- <-]|[_ Hl']]%lookup_insert_Some Hy; [|by apply (Hh n l')]. unfold moved in Hy. cbn in Hy. injection Hy as <-. by exists i.
Qed.

Lemma head_read (w : Store L S C) D I m fuel g l n i layer : good w D I m -> m !! g = Some l -> I !! n = Some i ->
  Internal.name (StoreLayer.layer layer) = n -> (info_depth i < fuel)%nat ->
  exists w' b, runs (NamedGraph.read_head fuel (NamedGraph.new g) layer) w w' (l, b) /\ w'.1 = w.1 /\ good w' D I m /\
    (b = true <-> forall x, Label.layer l = Some x -> rtc (parent_in I) n x).
Proof using All.
  intros Hg Hm Hi En Hf. pose proof Hg as [_ Hgl Hn _]. destruct (Hn g l Hm) as [Hpl _].
  pose proof (label_read w D I m g Hg Hpl) as Hread. rewrite Hm in Hread. unfold NamedGraph.read_head. cbn [NamedGraph.label].
  change (LayerTypes.name layer) with (Internal.name (StoreLayer.layer layer)). rewrite En. destruct (Label.layer l) as [x|] eqn:Ex.
  - destruct (is_ancestor_good shows ext denotes holds debug w.2 D I fuel n i x Hgl Hi Hf) as (sc' & b & Hrun & Hg' & Hb).
    exists (w.1, sc'), b. split; [|split; [done|split; [by eapply good_grows|]]].
    + eapply runs_bind; [exact Hread|]. cbv iota. rewrite Ex. eapply runs_bind; [by apply layers_steps|done].
    + rewrite Hb. split; [by intros Hr y [= <-]|]. intros Hr. by apply Hr.
  - exists w, true. split; [|split; [done|split; [done|done]]]. eapply runs_bind; [exact Hread|]. cbv iota. rewrite Ex. done.
Qed.

(** C7: setting the head of a graph to a layer of the store succeeds when
    the graph has no head yet or its head is the layer or one of its
    ancestors; otherwise nothing changes and [false] is the answer.  The
    label's version goes up by one. *)
Theorem set_head_advances (w : Store L S C) (D : disk) (I : infos) m fuel g l n i layer : good w D I m -> m !! g = Some l ->
  Label.version l + 1 < 2 ^ 64 -> I !! n = Some i -> Internal.name (StoreLayer.layer layer) = n -> (info_depth i < fuel)%nat ->
  exists w' b, runs (NamedGraph.set_head fuel (NamedGraph.new g) layer) w w' b /\
    (b = true <-> forall x, Label.layer l = Some x -> rtc (parent_in I) n x) /\
    good w' D I (if b : bool then <[g := Label.mk g (Some n) (Label.version l + 1)]> m else m).
Proof using All.
  intros Hg Hm Hv Hi En Hf. destruct (head_read w D I m fuel g l n i layer Hg Hm Hi En Hf) as (w1 & b & Hread & _ & Hg1 & Hb).
  unfold NamedGraph.set_head, NamedGraph.write_head. change (LayerTypes.name layer) with (Internal.name (StoreLayer.layer layer)).
  rewrite En. destruct b.
  - destruct (label_moves w1 D I m g l n Hg1 Hm Hv) as (w2 & Hset & _ & Hg2); [by exists i|]. exists w2, true.
    split; [eapply runs_bind; [exact Hread|]; eapply runs_bind; [exact Hset|done]|]. split; [done|].
    unfold moved in Hg2. destruct Hg as [_ _ Hn _]. destruct (Hn g l Hm) as [_ Eg]. rewrite Eg in Hg2. exact Hg2.
  - exists w1, false. split; [by eapply runs_bind|done].
Qed.

(** The head of a graph is the layer its label points to, loaded, with
    the version of the label. *)
Theorem head_is_label (w : Store L S C) (D : disk) (I : infos) m fuel g l : good w D I m -> m !! g = Some l ->
  (forall x i, Label.layer l = Some x -> I !! x = Some i -> (2 * info_depth i + 1 < fuel)%nat) ->
  exists w' head, runs (NamedGraph.head_version debug fuel (NamedGraph.new g)) w w' (head, Label.version l) /\ good w' D I m /\
    match Label.layer l with
    | None => head = None
    | Some x => exists i lay, head = Some (StoreLayer.wrap lay) /\ I !! x = Some i /\ Internal.name lay = x /\ implements lay (info_model i)
    end.
Proof using All.
  intros Hg Hm Hf. pose proof Hg as [_ _ Hn Hh]. destruct (Hn g l Hm) as [Hpl _]. pose proof (label_read w D I m g Hg Hpl) as Hread.
  rewrite Hm in Hread. unfold NamedGraph.head_version. cbn [NamedGraph.label]. destruct (Label.layer l) as [x|] eqn:Ex.
  - destruct (Hh g l x Hm Ex) as [i Hi].
    destruct (load_good shown shows ext denotes holds debug w D I m fuel x i Hg Hi (Hf x i eq_refl Hi)) as (sc' & lay & Hrun & Hg' & [E1 _ E3 _]).
    exists (w.1, sc'), (Some (StoreLayer.wrap lay)). split; [|split; [done|]].
    + eapply runs_bind; [exact Hread|]. cbv iota. rewrite Ex. eapply runs_bind; [|apply runs_ret]. by eapply runs_bind.
    + exists i, lay. repeat (split; [done|]). by eapply within_implements.
  - exists w, None. split; [|done]. eapply runs_bind; [exact Hread|]. cbv iota. rewrite Ex. done.
Qed.

(** When another handle has moved the label since it was read, the write
    of [set_head] leaves the label as the other made it, and still answers
    that the head was set. *)
Theorem stale_head_refused (w : Store L S C) (D : disk) (I : infos) m g l cur n layer : good w D I m -> m !! g = Some cur ->
  Label.name l = g -> Label.version l + 1 < 2 ^ 64 -> Label.version cur <> Label.version l -> Label.version cur + 1 < 2 ^ 64 ->
  Internal.name (StoreLayer.layer layer) = n -> runs (NamedGraph.write_head layer (l, true)) w w true.
Proof using All.
  intros [Hl Hgl Hn _] Hm El Hv Hne Hvc En. destruct (Hn g cur Hm) as [Hpl _]. unfold NamedGraph.write_head.
  change (LayerTypes.name layer) with (Internal.name (StoreLayer.layer layer)). rewrite En.
  eapply runs_bind; [|done]. destruct w as [lab sc]. apply (labels_steps (set_label l n) (lab, sc)).
  destruct (set_stale lab m l (Some n) (moved l n) cur Hl ltac:(by rewrite El) ltac:(by rewrite El) Hne (with_updated_eq l (Some n) Hv)) as [E|[_ E]].
  - exact E.
  - lia.
Qed.
(** *** Rollups *)

(** C8: rolling a layer up keeps all layers of the store as they are, the
    layer itself included: whatever it is loaded from from then on, it has the
    same names and triples.  When the layer has a parent, a base layer with
    all of it is in the store and registered as its rollup.  The condition is
    that no layer of its stack in memory, the layer included, was loaded from a
    rollup, so that none has id maps ([rollup_no_maps]): the code ignores those
    of predicates, and second_rollup_swaps_predicates in Executions shows that
    a second rollup then exchanges predicates.  Moreover
    the layer is not registered as the rollup of another one ([not_a_rollup]),
    and its names and triples fit the files of one layer ([rollup_input]). *)
Theorem rollup_keeps_layers (w : Store L S C) (D : disk) (I : infos) m n i l random M : good w D I m -> I !! n = Some i -> means n i l ->
  not_a_rollup D I n -> rollup_input l (info_model i) M -> name_ok random -> D !! random = None ->
  exists w' D' I' r, runs (on_layers (CachedLayerStore.rollup debug random l)) w w' r /\ good w' D' I' m /\
    (forall x j, I !! x = Some j -> I' !! x = Some j) /\
    match info_parent i with
    | None => r = n
    | Some _ => exists ir, I' !! r = Some ir /\ info_parent ir = None /\ info_model ir = info_model i /\
        Disk.lookup_file D' (n, rollup_file) = Some (rollup_contents r)
    end.
Proof using CacheLaws0 DiskLaws0.
  intros Hg Hi Hl Hnot Hin Hr Hd. pose proof Hg as [_ Hgl _ _].
  destruct (rollup_good shows ext denotes holds debug w.2 D I n i l random M Hgl Hi Hl Hnot Hin Hr Hd) as (sc' & D' & I' & r & Hrun & Hg' & Hsub & Hcase).
  exists (w.1, sc'), D', I', r. split; [by apply layers_steps|]. split; [by apply (good_grows shown shows holds debug w D I m sc' D')|].
  split; [|done]. intros x j Hx. by eapply lookup_weaken.
Qed.

(** *** Builders *)

(** C23: a builder commits once.  Whether or not the commit succeeds, it is
    spent; and a spent builder refuses every change and every further commit
    with an error, and nothing changes. *)
Theorem builder_commits_once (w : Store L S C) (cell : StoreLayerBuilder.t F) fuel :
  StoreLayerBuilder.committed (commit_no_load (w, cell)).1.2 = true /\
  (StoreLayerBuilder.committed cell = true ->
    (forall c, call c cell = (cell, Err InvalidData)) /\ commit_no_load (w, cell) = ((w, cell), Err InvalidData) /\
    commit debug fuel (w, cell) = ((w, cell), Err InvalidData)).
Proof using Type.
  split.
  - unfold commit_no_load, mbind, io_bind, on_second, StoreLayerBuilder.take. cbn [fst snd].
    destruct (StoreLayerBuilder.builder cell) as [b|]; [|done]. unfold on_store. cbn [fst snd].
    by destruct (on_layers _ w) as [w' r].
  - unfold StoreLayerBuilder.committed. rewrite bool_decide_eq_true. destruct cell as [p b n]. cbn. intros ->.
    split; [by intros []|done].
Qed.

(** C16: [apply_diff] on a builder over a layer makes the committed layer have
    exactly the triples of nonempty strings that the other layer has, whatever
    order the threads take the triples in.  It is required that no triple of
    either layer has an empty string ([proper_strings]), for which the code may
    add a wrong id (see Executions), that the strings to add have no zero
    bytes, and that the numbers fit the files ([commit_input]). *)
Theorem diff_reaches_other (w : Store L S C) (D : disk) (I : infos) m fuel n p ip self other mo M :
  good w D I m -> I !! p = Some ip -> Internal.name (StoreLayer.layer self) = p -> (2 * info_depth ip + 3 < fuel)%nat ->
  name_ok n -> D !! n = None -> implements (StoreLayer.layer other) mo -> proper_strings (info_model ip) -> proper_strings mo ->
  let gone := filter (fun x => x ∉ strings_of mo) (strings_of (info_model ip)) in
  let fresh := filter (fun x => x ∉ strings_of (info_model ip)) (strings_of mo) in
  commit_input (info_model ip) fresh [] gone [] M -> info_bound ip + lenN fresh < 2 ^ 64 ->
  exists w' D' I' l, runs (b ← open_write debug fuel n self;
      with_cell b (_ ← on_second (StoreLayerBuilder.apply_diff other); commit debug fuel)) w w' (StoreLayer.wrap l) /\
    good w' D' I' m /\ (forall x j, I !! x = Some j -> I' !! x = Some j) /\ Internal.name l = n /\ Internal.parent_name l = Some p /\
    forall x, nonempty_strings x -> string_triple_exists l x = string_triple_exists other x.
Proof using CacheLaws0 DiskLaws0.
  intros Hg Hip Hname Hf Hn Hd Ho Hsp Hso gone fresh Hin Hk. set (cs := diff_changes (info_model ip) mo).
  destruct (diff_changes_lists (info_model ip) mo) as (A1 & A2 & A3 & A4). fold cs gone fresh in A1, A2, A3, A4.
  destruct (child_transaction_runs shown shows ext denotes holds debug w D I m fuel n p ip self cs M
    (_ ← on_second (StoreLayerBuilder.apply_diff other); commit debug fuel) Hg Hip Hname Hf Hn Hd) as (w' & D' & m' & l & Hrun & Hg' & Hi & Hl & Hm).
  - rewrite A1, A2. by apply diff_nonempty.
  - rewrite A3, A4. by eapply commit_input_perm.
  - rewrite A3. unfold lenN in *. rewrite (Permutation_length A1). cbn. lia.
  - intros st cell b st' a pl Hb Hpar Himp Hc. eapply runs_bind; [|exact Hc].
    apply on_second_steps, (apply_diff_runs other pl mo (info_model ip) cell b Hb Hpar Himp Ho Hsp Hso).
  - eexists w', D', _, l. split; [exact Hrun|]. split; [exact Hg'|]. split; [intros x j Hx; by apply lookup_insert_Some; right; split; [congruence|]|].
    split; [apply Hl|]. split; [apply (means_parent _ _ _ Hl)|]. pose proof Hg as [_ Hgl _ _].
    destruct (get_layer_good shows ext denotes holds debug w.2 D I fuel p ip Hgl Hip ltac:(lia)) as (sc' & pl & _ & _ & Hpl).
    apply (diff_committed (info_model ip) mo m' pl l other); [|exact (within_implements _ _ _ (means_model _ _ _ Hl))|done|exact Hm].
    exact (within_implements _ _ _ (means_model _ _ _ Hpl)).
Qed.

(** C17: [squash] of a layer whose triples all have a form with strings
    ([typed]) gives a base layer that has exactly the triples of nonempty
    strings of the layer; all layers there were are kept.  On a layer that has
    another triple, [squash] panics: see squash_value_subject_panics in
    Executions.  The strings must have no zero bytes and the numbers fit the
    files ([commit_input]). *)
Theorem squash_keeps_strings (w : Store L S C) (D : disk) (I : infos) m fuel n self ms M : good w D I m ->
  implements (StoreLayer.layer self) ms -> typed ms ->
  name_ok n -> D !! n = None -> (1 < fuel)%nat -> commit_input empty_model (strings_of ms) [] [] [] M ->
  exists w' D' I' l, runs (squash debug fuel n self) w w' (StoreLayer.wrap l) /\ good w' D' I' m /\
    (forall x j, I !! x = Some j -> I' !! x = Some j) /\ Internal.name l = n /\ Internal.parent_name l = None /\
    forall x, nonempty_strings x -> string_triple_exists l x = string_triple_exists self x.
Proof using CacheLaws0 DiskLaws0.
  intros Hg Hms Hts Hn Hd Hf Hin.
  destruct (squash_runs shown shows ext denotes holds debug w D I m fuel n self ms M Hg Hms Hts Hn Hd Hf Hin)
    as (w' & D' & i & l & Hrun & Hg' & Hi & [E1 E2 _ _] & Hp & Hx).
  exists w', D', (<[n := i]> I), l. split; [done|]. split; [done|]. split; [intros x j Hj; by apply lookup_insert_Some; right; split; [congruence|]|].
  split; [done|]. split; [by rewrite E2|done].
Qed.

(** *** Ancestors *)

(** C24: the walk along the parents ends, and finds out whether the one layer
    is the other or below it; the names of the stack come out with the base
    first and the layer last. *)
Theorem ancestors_walked (w : Store L S C) (D : disk) (I : infos) m fuel n i a : good w D I m -> I !! n = Some i -> (info_depth i < fuel)%nat ->
  (exists w' b, runs (on_layers (CachedLayerStore.layer_is_ancestor_of fuel n a)) w w' b /\ good w' D I m /\
    (b = true <-> rtc (parent_in I) n a)) /\
  exists w' ns, runs (on_layers (CachedLayerStore.retrieve_layer_stack_names fuel n)) w w' ns /\ good w' D I m /\ stack_in I n ns.
Proof using CacheLaws0 DiskLaws0.
  intros Hg Hi Hf. pose proof Hg as [_ Hgl _ _]. split.
  - destruct (is_ancestor_good shows ext denotes holds debug w.2 D I fuel n i a Hgl Hi Hf) as (sc' & b & Hrun & Hg' & Hb).
    exists (w.1, sc'), b. split; [by apply layers_steps|]. split; [by eapply good_grows|done].
  - destruct (stack_names_good shows ext denotes holds debug w.2 D I fuel n i Hgl Hi Hf) as (sc' & ns & Hrun & Hg' & Hns).
    exists (w.1, sc'), ns. split; [by apply layers_steps|]. split; [by eapply good_grows|done].
Qed.

(** Asked for the names above an ancestor, the walk gives them; if the
    layer is no proper descendant, it ends with the error [NotFound]. *)
Theorem names_up_to (w : Store L S C) (D : disk) (I : infos) m fuel n i u : good w D I m -> I !! n = Some i -> (info_depth i < fuel)%nat ->
  exists w', good w' D I m /\
    ((exists ns, runs (on_layers (CachedLayerStore.retrieve_layer_stack_names_upto fuel n u)) w w' ns /\ stack_above I u n ns) \/
     (on_layers (CachedLayerStore.retrieve_layer_stack_names_upto fuel n u) w = (w', Err NotFound) /\ ~ tc (parent_in I) n u)).
Proof using CacheLaws0 DiskLaws0.
  intros Hg Hi Hf. pose proof Hg as [_ Hgl _ _].
  destruct (names_upto_good shows ext denotes holds debug w.2 D I fuel n i u Hgl Hi Hf) as (sc' & Hg' & Hcase).
  exists (w.1, sc'). split; [by eapply good_grows|]. destruct Hcase as [(ns & Hrun & Hns)|[Hrun Hn]]; [left|right].
  - exists ns. split; [by apply layers_steps|done].
  - split; [|done]. destruct w as [l sc]. unfold on_layers, on_second. cbn [fst snd] in *. by rewrite Hrun.
Qed.
End theorems.

(** ** A store in memory with one layer *)

#[local] Existing Instances sample_bytes whole_file exact_log2 merge_par_sort merge_rayon in_order.

Abbreviation memory_good := (StoreSpecs.good eq MemoryView.shows table_holds true).

Lemma nth_name_ok k : k < 2 ^ 32 -> name_ok (nth_name k).
Proof. intros Hk. split; [done|]. repeat constructor; done. Qed.

Lemma nth_name_inj k j : nth_name k = nth_name j -> k = j.
Proof. by intros [= ->]. Qed.

Definition one_layer : infos := {[nth_name 1 := mk_info base_model 3 None 0]}.

Lemma empty_store_good : layers_good MemoryView.shows table_holds true (MemoryLayerStore.new, LockingHashMapLayerCache.new) ∅ ∅.
Proof. split; [apply memory_new_shows|done|]. intros n l E.
  change ((∅ : gmap layer_name (option InternalLayer)) !! n = Some (Some l)) in E. by rewrite lookup_empty in E.
Qed.

Lemma sample_layers : exists sc D, layers_good MemoryView.shows table_holds true sc D one_layer /\
  Disk.lookup_file D (nth_name 1, rollup_file) = None /\ forall k, k <> 1 -> D !! nth_name k = None.
Proof.
  destruct (create_base_good MemoryView.shows MemoryView.ext MemoryView.denotes table_holds true _ _ _ (nth_name 1) empty_store_good
    (nth_name_ok 1 ltac:(done)) eq_refl) as (sc1 & b & _ & Hg1 & (b' & [Eb' Hf] & _ & Hi & Hd & _ & Hfiles) & Eb).
  assert (En : FileLayerBuilder.name b' = nth_name 1) by (unfold FileLayerBuilder.name; by rewrite <- Eb', Eb).
  rewrite En in *. destruct (FileLayerBuilder.files b) as [f|f]; rewrite Hfiles in Hf; [|done]. cbn [all_layer_files] in Hf.
  destruct base_strings_input as (S1 & S2 & S3).
  destruct (base_built_on true base_nodes base_predicates base_values 10 base_triples S1 S2 S3 base_layer_input) as (maps & _ & Hl).
  replace (filter real_triple base_triples) with base_triples in Hl by (vm_compute; reflexivity).
  destruct (written_base_good MemoryView.shows MemoryView.ext MemoryView.denotes table_holds true sc1 _ ∅ (nth_name 1) f maps _ _
    Hg1 (nth_name_ok 1 ltac:(done)) Hi Hd Hf Hl) as (sc2 & D2 & _ & Hg2 & Hroll & Hother).
  exists sc2, D2. split; [exact Hg2|]. split; [exact Hroll|]. intros k Hk.
  assert (Hne : nth_name k <> nth_name 1) by (intros E; by apply Hk, nth_name_inj).
  rewrite Hother by done. rewrite lookup_insert_ne by done. apply lookup_empty.
Qed.

(** A child of it with a triple more and one less, the store's own copy of
    which has no id maps. *)
Definition child_of_sample (mo : layer_model) : layer_info := mk_info mo 5 (Some (nth_name 1)) 1.
Definition two_layers (mo : layer_model) : infos := <[nth_name 2 := child_of_sample mo]> one_layer.

Lemma child_sample_loads : exists maps mo, loads_child true maps base_model 3 mo 5 /\
  model_entries mo = model_entries base_model ++ [Node [99]] /\ model_predicates mo = base_predicates /\
  model_triples mo = [IdTriple.mk 1 1 2; IdTriple.mk 2 1 3; IdTriple.mk 4 1 1] /\
  forall name p, implements_within 3 p base_model -> exists l, child_load true name p maps = Some l /\
    Internal.name l = name /\ Internal.immediate_parent l = Some p /\ Internal.parent_name l = Some (Internal.name p) /\ no_maps l /\ implements_within 5 l mo.
Proof.
  destruct sample_base_built as (p0 & _ & _ & _ & _ & _ & Hi).
  destruct (child_built_on true p0 base_model child_strings [[113]] [] 20 child_added child_removed Hi child_sample_input)
    as (maps & mo & _ & (He & Hp & Ht) & Hok & Hload).
  exists maps, mo. split; [|split; [etransitivity; [exact He|by vm_compute]|split; [etransitivity; [exact Hp|by vm_compute]|split]]].
  - intros name p Hpi. destruct (Hload name p 3 Hpi ltac:(by vm_compute)) as (l & H1 & H2 & H3 & H4 & _ & H5). by exists l.
  - apply (sorted_members IdTriple.cmp); [apply Hok|repeat constructor|]. intros t. rewrite Ht. split.
    + intros [[Hin Hn]|(_ & Hin & Hn)].
      * repeat (apply elem_of_cons in Hin as [->|Hin]; [first [by left|by right; left|by right; right; left|exfalso; apply Hn; by left]|]). by apply elem_of_nil in Hin.
      * repeat (apply elem_of_cons in Hin as [->|Hin]; [first [by left|by right; left|by right; right; left]|]). by apply elem_of_nil in Hin.
    + intros Hin. apply (bool_decide_unpack _).
      repeat (apply elem_of_cons in Hin as [->|Hin]; [vm_compute; exact I|]). by apply elem_of_nil in Hin.
  - intros name p Hpi. destruct (Hload name p 3 Hpi ltac:(by vm_compute)) as (l & Hl). by exists l.
Qed.
Lemma sample_child_layer maps mo : loads_child true maps base_model 3 mo 5 ->
  (forall name p, implements_within 3 p base_model -> exists l, child_load true name p maps = Some l /\
    Internal.name l = name /\ Internal.immediate_parent l = Some p /\ Internal.parent_name l = Some (Internal.name p) /\ no_maps l /\ implements_within 5 l mo) ->
  exists l, means (nth_name 2) (child_of_sample mo) l /\ Forall no_maps (Internal.stack_of l).
Proof.
  intros _ Hload. destruct base_strings_input as (S1 & S2 & S3).
  destruct (base_built true (nth_name 1) _ _ _ 10 base_triples S1 S2 S3 base_layer_input) as (bm & p & _ & _ & Hpn & Hpp & Hpm & Hpc & Hpi).
  destruct (Hload (nth_name 2) p) as (l & _ & Hln & Hlp & Hlpn & Hlm & Hli); [by apply (within_counted 3 p _ 3)|].
  exists l. split.
  - split; [done| |done|done]. rewrite Hlpn. cbn. by rewrite Hpn.
  - rewrite Internal.stack_of_cons, Internal.parents_of_spec, Hlp, Internal.stack_of_cons, Hpp. by apply Forall_cons; split; [|apply Forall_singleton].
Qed.

Lemma sample_two_layers : exists sc D mo l, layers_good MemoryView.shows table_holds true sc D (two_layers mo) /\
  not_a_rollup D (two_layers mo) (nth_name 2) /\ (forall k, k <> 1 -> k <> 2 -> D !! nth_name k = None) /\
  model_entries mo = model_entries base_model ++ [Node [99]] /\ model_predicates mo = base_predicates /\
  model_triples mo = [IdTriple.mk 1 1 2; IdTriple.mk 2 1 3; IdTriple.mk 4 1 1] /\
  means (nth_name 2) (child_of_sample mo) l /\ Forall no_maps (Internal.stack_of l).
Proof.
  destruct sample_layers as (sc & D & Hg & Hroll1 & Hd). destruct child_sample_loads as (maps & mo & Hloads & He & Hp & Ht & Hload).
  destruct (added_child_good MemoryView.shows MemoryView.ext MemoryView.denotes table_holds true sc D one_layer 10 (nth_name 2) (nth_name 1)
    (mk_info base_model 3 None 0) maps mo 5 Hg (lookup_singleton_eq _ _) ltac:(cbn; lia) (nth_name_ok 2 ltac:(done)) (Hd 2 ltac:(done)))
    as (sc2 & D2 & Hg2 & Hroll2 & Hother).
  { cbn [info_bound info_model]. unfold added_triples. rewrite Ht. by vm_compute. }
  { exact Hloads. }
  destruct (sample_child_layer maps mo Hloads Hload) as (l & Hl & Hno).
  assert (H12 : nth_name 1 <> nth_name 2) by (intros E; by apply nth_name_inj in E).
  exists sc2, D2, mo, l. split; [exact Hg2|]. split; [|split; [|done]].
  - intros x i Hx. unfold two_layers, one_layer in Hx. apply lookup_insert_Some in Hx as [[<- _]|[_ Hx]]; [by rewrite Hroll2|].
    apply lookup_singleton_Some in Hx as [<- _]. rewrite (lookup_file_same D D2 (nth_name 1)), Hroll1; [done|].
    by rewrite Hother.
  - intros k Hk1 Hk2. rewrite Hother by (intros E; by apply Hk2, nth_name_inj). by apply Hd.
Qed.

(** With any labels that point to nothing or to the layer. *)
Lemma sample_store (m : gmap (list N) Label.t) :
  map_Forall (fun n l => plain_name n /\ Label.name l = n /\ (Label.layer l = None \/ Label.layer l = Some (nth_name 1))) m ->
  exists (w : memory_store) D, memory_good w D one_layer m /\ forall k, k <> 1 -> D !! nth_name k = None.
Proof.
  intros Hm. destruct sample_layers as (sc & D & Hg & _ & Hd). exists (m, sc), D. split; [|done]. split; [done|done| |].
  - intros n l Hl. destruct (Hm n l Hl) as (H1 & H2 & _). done.
  - intros n l x Hl Hx. destruct (Hm n l Hl) as (_ & _ & [E|E]); [congruence|]. assert (x = nth_name 1) as -> by congruence.
    unfold one_layer. rewrite lookup_singleton_eq. by eexists.
Qed.

Lemma layer_loads_witness : exists (w w' : memory_store) l,
  runs (get_layer_from_id true 2 (nth_name 1)) w w' (Some (StoreLayer.wrap l)) /\ Internal.name l = nth_name 1 /\ implements l base_model.
Proof.
  destruct (sample_store ∅ (map_Forall_empty _)) as (w & D & Hg & _). exists w.
  destruct (layer_loads eq MemoryView.shows MemoryView.ext MemoryView.denotes table_holds true w D one_layer ∅ 2 (nth_name 1)
    (mk_info base_model 3 None 0) Hg (lookup_singleton_eq _ _) ltac:(cbn; lia)) as (w' & l & Hrun & _ & Hn & _ & Hi).
  exists w', l. split; [exact Hrun|]. split; [exact Hn|exact Hi].
Defined.

Definition sample_changes : list change :=
  [AddString (edge 97 113 99); AddId (IdTriple.mk 2 2 1); RemoveString (edge 97 112 98)].

Lemma sample_changes_input : commit_input (H := exact_log2) base_model (added sample_changes) (added_ids sample_changes)
  (removed sample_changes) (removed_ids sample_changes) 40.
Proof. concrete_commit_input. Qed.

Lemma transaction_commits_witness : exists (w w' : memory_store) p l, Internal.name (StoreLayer.layer p) = nth_name 1 /\
  runs (b ← open_write true 10 (nth_name 2) p; with_cell b (_ ← on_second (for_each call sample_changes); commit true 10)) w w' (StoreLayer.wrap l) /\
  Internal.parent_name l = Some (nth_name 1) /\ string_triple_exists l (edge 97 113 99) = Some true /\
  string_triple_exists l (edge 97 112 98) = Some false.
Proof.
  destruct (sample_store ∅ (map_Forall_empty _)) as (w0 & D & Hg0 & Hd).
  destruct (load_good eq MemoryView.shows MemoryView.ext MemoryView.denotes table_holds true w0 D one_layer ∅ 10 (nth_name 1)
    (mk_info base_model 3 None 0) Hg0 (lookup_singleton_eq _ _) ltac:(cbn; lia)) as (sc' & p & _ & Hg & Hp).
  destruct (transaction_commits eq MemoryView.shows MemoryView.ext MemoryView.denotes table_holds true _ D one_layer ∅ 10 (nth_name 2)
    (nth_name 1) (mk_info base_model 3 None 0) (StoreLayer.wrap p) sample_changes 40 Hg (lookup_singleton_eq _ _) (means_name _ _ _ Hp)
    ltac:(cbn; lia) (nth_name_ok 2 ltac:(done)) (Hd 2 ltac:(done)) ltac:(concrete_nonempty) sample_changes_input ltac:(by vm_compute))
    as (w' & D' & m' & l & Hrun & _ & _ & _ & Hpar & Hl & (_ & _ & Hc)).
  eexists _, w', (StoreLayer.wrap p), l. split; [exact (means_name _ _ _ Hp)|]. split; [exact Hrun|]. split; [exact Hpar|].
  pose proof (within_implements _ _ _ (means_model _ _ _ Hp)) as Hpi. split.
  - destruct (Hc p l Hpi Hl (edge 97 113 99)) as (e & _ & He); [split; [discriminate|split; discriminate]|].
    etransitivity; [exact He|]. vm_compute. reflexivity.
  - destruct (Hc p l Hpi Hl (edge 97 112 98)) as (e & _ & He); [split; [discriminate|split; discriminate]|].
    etransitivity; [exact He|]. vm_compute. reflexivity.
Defined.

Lemma base_typed : typed base_model.
Proof. unfold typed. cbn [model_triples base_model]. unfold base_triples. repeat (apply Forall_cons; split); [by eexists..|by apply Forall_nil]. Qed.


(** With any labels that point to nothing or to one of the two layers. *)
Lemma sample_two_store (m : gmap (list N) Label.t) :
  map_Forall (fun n l => plain_name n /\ Label.name l = n /\ forall x, Label.layer l = Some x -> x = nth_name 1 \/ x = nth_name 2) m ->
  exists (w : memory_store) D mo l, memory_good w D (two_layers mo) m /\ not_a_rollup D (two_layers mo) (nth_name 2) /\
  (forall k, k <> 1 -> k <> 2 -> D !! nth_name k = None) /\
  model_entries mo = model_entries base_model ++ [Node [99]] /\ model_predicates mo = base_predicates /\
  model_triples mo = [IdTriple.mk 1 1 2; IdTriple.mk 2 1 3; IdTriple.mk 4 1 1] /\
  means (nth_name 2) (child_of_sample mo) l /\ Forall no_maps (Internal.stack_of l).
Proof.
  intros Hm. destruct sample_two_layers as (sc & D & mo & l & Hg & H). exists (m, sc), D, mo, l. split; [|exact H]. split; [done|done| |].
  - intros n lab Hl. destruct (Hm n lab Hl) as (H1 & H2 & _). done.
  - intros n lab x Hl Hx. destruct (Hm n lab Hl) as (_ & _ & Hor). unfold two_layers, one_layer.
    assert (H12 : nth_name 2 <> nth_name 1) by (intros E; by apply nth_name_inj in E).
    destruct (Hor x Hx) as [->| ->]; [rewrite lookup_insert_ne by done; rewrite lookup_singleton_eq|rewrite lookup_insert_eq]; by eexists.
Qed.

Lemma lookup_two mo : two_layers mo !! nth_name 2 = Some (child_of_sample mo).
Proof. apply lookup_insert_eq. Qed.
Lemma lookup_one mo : two_layers mo !! nth_name 1 = Some (mk_info base_model 3 None 0).
Proof. unfold two_layers, one_layer. rewrite lookup_insert_ne by (intros E; by apply nth_name_inj in E). apply lookup_singleton_eq. Qed.

Lemma sample_two_input mo l : model_entries mo = model_entries base_model ++ [Node [99]] -> model_predicates mo = base_predicates ->
  model_triples mo = [IdTriple.mk 1 1 2; IdTriple.mk 2 1 3; IdTriple.mk 4 1 1] -> Forall no_maps (Internal.stack_of l) -> rollup_input l mo 20.
Proof.
  intros He Hp Ht Hno. split; [exact Hno| |].
  - rewrite He, Hp. split; split; [exists 3; by vm_compute|exists 2; by vm_compute| | | | | |].
    1-4: by vm_compute.
    1-2: apply (bool_decide_unpack _); vm_compute; exact I.
  - rewrite He, Hp, Ht. unfold layer_input.
    replace (filter real_triple [IdTriple.mk 1 1 2; IdTriple.mk 2 1 3; IdTriple.mk 4 1 1]) with
      [IdTriple.mk 1 1 2; IdTriple.mk 2 1 3; IdTriple.mk 4 1 1] by (vm_compute; reflexivity).
    concrete_layer_input.
Qed.

Lemma rollup_keeps_layers_witness : exists (w w' : memory_store) l D' I' r,
  runs (on_layers (CachedLayerStore.rollup true (nth_name 3) l)) w w' r /\ Internal.name l = nth_name 2 /\ memory_good w' D' I' ∅ /\
  Disk.lookup_file D' (nth_name 2, rollup_file) = Some (rollup_contents r).
Proof.
  destruct (sample_two_store ∅ (map_Forall_empty _)) as (w & D & mo & l & Hg & Hnot & Hd & He & Hp & Ht & Hl & Hno).
  destruct (rollup_keeps_layers eq MemoryView.shows MemoryView.ext MemoryView.denotes table_holds true w D (two_layers mo) ∅ (nth_name 2)
    (child_of_sample mo) l (nth_name 3) 20 Hg (lookup_two mo) Hl Hnot (sample_two_input mo l He Hp Ht Hno) (nth_name_ok 3 ltac:(done))
    (Hd 3 ltac:(done) ltac:(done))) as (w' & D' & I' & r & Hrun & Hg' & _ & ir & _ & _ & _ & Hr).
  exists w, w', l, D', I', r. split; [exact Hrun|]. split; [exact (means_name _ _ _ Hl)|]. split; [exact Hg'|exact Hr].
Defined.

(** A graph whose head is the base. *)
Definition sample_graph : list N := [103].
Definition sample_head : Label.t := Label.mk sample_graph (Some (nth_name 1)) 4.
Definition sample_labels : gmap (list N) Label.t := {[sample_graph := sample_head]}.

Lemma sample_labels_ok : map_Forall (fun n l => plain_name n /\ Label.name l = n /\ forall x, Label.layer l = Some x -> x = nth_name 1 \/ x = nth_name 2)
  sample_labels.
Proof.
  intros n l Hl. unfold sample_labels in Hl. apply lookup_singleton_Some in Hl as [<- <-]. split; [split; [done|by repeat constructor]|]. split; [done|]. intros x [= <-]. by left.
Qed.

Lemma set_head_advances_witness : exists (w w' : memory_store) l D' I',
  runs (NamedGraph.set_head 2 (NamedGraph.new sample_graph) (StoreLayer.wrap l)) w w' true /\
  memory_good w' D' I' (<[sample_graph := Label.mk sample_graph (Some (nth_name 2)) 5]> sample_labels).
Proof.
  destruct (sample_two_store sample_labels sample_labels_ok) as (w & D & mo & l & Hg & _ & _ & _ & _ & _ & Hl & _).
  destruct (set_head_advances eq MemoryView.shows MemoryView.ext MemoryView.denotes table_holds true w D (two_layers mo) sample_labels 2
    sample_graph sample_head (nth_name 2) (child_of_sample mo) (StoreLayer.wrap l) Hg (lookup_singleton_eq _ _) ltac:(by vm_compute) (lookup_two mo)
    (means_name _ _ _ Hl) ltac:(cbn; lia)) as (w' & b & Hrun & Hb & Hg').
  assert (Eb : b = true).
  { apply Hb. intros x [= <-]. apply rtc_once. exists (child_of_sample mo). split; [apply lookup_two|reflexivity]. }
  subst b. exists w, w', l, D, (two_layers mo). split; [exact Hrun|exact Hg'].
Defined.

Lemma head_is_label_witness : exists (w w' : memory_store) l,
  runs (NamedGraph.head_version true 2 (NamedGraph.new sample_graph)) w w' (Some (StoreLayer.wrap l), 4) /\
  Internal.name l = nth_name 1 /\ implements l base_model.
Proof.
  destruct (sample_two_store sample_labels sample_labels_ok) as (w & D & mo & l & Hg & _).
  destruct (head_is_label eq MemoryView.shows MemoryView.ext MemoryView.denotes table_holds true w D (two_layers mo) sample_labels 2
    sample_graph sample_head Hg (lookup_singleton_eq _ _)) as (w' & head & Hrun & _ & i & lay & Eh & Hi & Hn & Himp).
  { intros x i [= <-] Hi. rewrite lookup_one in Hi. injection Hi as <-. cbn. lia. }
  rewrite lookup_one in Hi. injection Hi as <-. subst head. exists w, w', lay. split; [exact Hrun|]. split; [exact Hn|exact Himp].
Defined.

Lemma stale_head_refused_witness : exists (w : memory_store) l,
  runs (NamedGraph.write_head (StoreLayer.wrap l) (Label.mk sample_graph None 3, true)) w w true.
Proof.
  destruct (sample_two_store sample_labels sample_labels_ok) as (w & D & mo & l & Hg & _ & _ & _ & _ & _ & Hl & _). exists w, l.
  apply (stale_head_refused eq MemoryView.shows MemoryView.ext MemoryView.denotes table_holds true w D (two_layers mo) sample_labels
    sample_graph (Label.mk sample_graph None 3) sample_head (nth_name 2) (StoreLayer.wrap l) Hg (lookup_singleton_eq _ _) eq_refl
    ltac:(by vm_compute) ltac:(discriminate) ltac:(by vm_compute) (means_name _ _ _ Hl)).
Defined.

Lemma ancestors_walked_witness : exists (w w1 w2 : memory_store) I ns,
  runs (on_layers (CachedLayerStore.layer_is_ancestor_of 2 (nth_name 2) (nth_name 1))) w w1 true /\
  runs (on_layers (CachedLayerStore.retrieve_layer_stack_names 2 (nth_name 2))) w w2 ns /\ stack_in I (nth_name 2) ns.
Proof.
  destruct (sample_two_store ∅ (map_Forall_empty _)) as (w & D & mo & l & Hg & _).
  destruct (ancestors_walked eq MemoryView.shows MemoryView.ext MemoryView.denotes table_holds true w D (two_layers mo) ∅ 2 (nth_name 2)
    (child_of_sample mo) (nth_name 1) Hg (lookup_two mo) ltac:(cbn; lia)) as ((w1 & b & Hrun & _ & Hb) & w2 & ns & Hrun2 & _ & Hns).
  assert (Eb : b = true).
  { apply Hb. apply rtc_once. exists (child_of_sample mo). split; [apply lookup_two|reflexivity]. }
  subst b. exists w, w1, w2, (two_layers mo), ns. split; [exact Hrun|]. split; [exact Hrun2|exact Hns].
Defined.

Lemma names_up_to_witness : exists (w w' : memory_store),
  on_layers (CachedLayerStore.retrieve_layer_stack_names_upto 2 (nth_name 1) (nth_name 2)) w = (w', Err NotFound).
Proof.
  destruct (sample_two_store ∅ (map_Forall_empty _)) as (w & D & mo & l & Hg & _).
  destruct (names_up_to eq MemoryView.shows MemoryView.ext MemoryView.denotes table_holds true w D (two_layers mo) ∅ 2 (nth_name 1)
    (mk_info base_model 3 None 0) (nth_name 2) Hg (lookup_one mo) ltac:(cbn; lia)) as (w' & _ & [(ns & _ & Hns)|[Hrun _]]).
  - exfalso. inversion Hns as [? (i & Hi & Hp)|? p ? (i & Hi & Hp)]; subst; rewrite lookup_one in Hi; injection Hi as <-; discriminate Hp.
  - exists w, w'. exact Hrun.
Defined.

Lemma builder_commits_once_witness : exists cell : StoreLayerBuilder.t nat,
  StoreLayerBuilder.committed cell = true /\ call (RemoveId (IdTriple.mk 1 1 1)) cell = (cell, Err InvalidData).
Proof.
  exists (StoreLayerBuilder.mk None None (nth_name 1)). split; [reflexivity|].
  apply (builder_commits_once true open_memory_store (StoreLayerBuilder.mk None None (nth_name 1)) 5). reflexivity.
Defined.

Lemma base_strings : strings_of base_model = [edge 97 112 98; StringTriple.new_value [97] [113] [118]; StringTriple.new_value [98] [112] [118]].
Proof. vm_compute. reflexivity. Qed.

Lemma squash_keeps_strings_witness : exists (w w' : memory_store) p l,
  runs (squash true 2 (nth_name 4) (StoreLayer.wrap p)) w w' (StoreLayer.wrap l) /\ Internal.parent_name l = None /\
  string_triple_exists l (edge 97 112 98) = Some true.
Proof.
  destruct (sample_store ∅ (map_Forall_empty _)) as (w0 & D & Hg0 & Hd).
  destruct (load_good eq MemoryView.shows MemoryView.ext MemoryView.denotes table_holds true w0 D one_layer ∅ 10 (nth_name 1)
    (mk_info base_model 3 None 0) Hg0 (lookup_singleton_eq _ _) ltac:(cbn; lia)) as (sc' & p & _ & Hg & Hp).
  pose proof (within_implements _ _ _ (means_model _ _ _ Hp)) as Hpi.
  destruct (squash_keeps_strings eq MemoryView.shows MemoryView.ext MemoryView.denotes table_holds true _ D one_layer ∅ 2 (nth_name 4)
    (StoreLayer.wrap p) base_model 60 Hg Hpi) as (w' & D' & I' & l & Hrun & _ & _ & _ & Hpar & Hx).
  - apply base_typed.
  - apply nth_name_ok. done.
  - by apply Hd.
  - lia.
  - rewrite base_strings. concrete_commit_input.
  - eexists _, w', p, l. split; [exact Hrun|]. split; [exact Hpar|].
    rewrite Hx by (split; [discriminate|split; discriminate]).
    etransitivity; [apply (exists_strings_of implements p base_model Hpi); split; [discriminate|split; discriminate]|]. by vm_compute.
Defined.

Lemma diff_reaches_other_witness : exists (w w' : memory_store) p other l,
  Internal.name (StoreLayer.layer p) = nth_name 1 /\
  runs (b ← open_write true 10 (nth_name 5) p; with_cell b (_ ← on_second (StoreLayerBuilder.apply_diff other); commit true 10)) w w' (StoreLayer.wrap l) /\
  string_triple_exists l (edge 99 112 97) = Some true /\ string_triple_exists l (StringTriple.new_value [97] [113] [118]) = Some false.
Proof.
  destruct (sample_two_store ∅ (map_Forall_empty _)) as (w & D & mo & l & Hg & _ & Hd & He & Hp & Ht & Hl & _).
  pose proof (within_implements _ _ _ (means_model _ _ _ Hl)) as Hli.
  destruct (sample_store ∅ (map_Forall_empty _)) as (w0 & D0 & Hg0 & _).
  destruct (load_good eq MemoryView.shows MemoryView.ext MemoryView.denotes table_holds true w D (two_layers mo) ∅ 10 (nth_name 1)
    (mk_info base_model 3 None 0) Hg (lookup_one mo) ltac:(cbn; lia)) as (sc' & p & _ & Hg' & Hpm).
  destruct mo as [es ps ts]. cbn [model_entries model_predicates model_triples] in He, Hp, Ht. subst es ps ts.
  destruct (diff_reaches_other eq MemoryView.shows MemoryView.ext MemoryView.denotes table_holds true _ D (two_layers _) ∅ 10 (nth_name 5) (nth_name 1)
    (mk_info base_model 3 None 0) (StoreLayer.wrap p) (StoreLayer.wrap l) _ 60 Hg' (lookup_one _) (means_name _ _ _ Hpm) ltac:(cbn; lia)
    (nth_name_ok 5 ltac:(done)) (Hd 5 ltac:(done) ltac:(done)) Hli) as (w' & D' & I' & l' & Hrun & _ & _ & _ & _ & Hx).
  - unfold proper_strings. concrete_forall ltac:(split; [discriminate|split; discriminate]).
  - unfold proper_strings. concrete_forall ltac:(split; [discriminate|split; discriminate]).
  - concrete_commit_input.
  - by vm_compute.
  - eexists _, w', (StoreLayer.wrap p), (StoreLayer.wrap l), l'. split; [exact (means_name _ _ _ Hpm)|]. split; [exact Hrun|]. split.
    + rewrite Hx by (split; [discriminate|split; discriminate]).
      etransitivity; [apply (exists_strings_of implements l _ Hli); split; [discriminate|split; discriminate]|]. by vm_compute.
    + rewrite Hx by (split; [discriminate|split; discriminate]).
      etransitivity; [apply (exists_strings_of implements l _ Hli); split; [discriminate|split; discriminate]|]. by vm_compute.
Defined.
