(* ===== verification/RollupTheorems.v ===== *)
(** * Rolling up to an ancestor, in any store

    The rollup of a layer up to an ancestor, with the witness of a store of
    three layers. *)

From stdpp Require Import gmap relations.
From S2P Require Import Prelude.
From S2P Require Import Words.
From S2P Require Import Codec.
From S2P Require Import Strings.
From S2P Require Import PfcBlocks.
From S2P Require Import PfcDicts.
From S2P Require Import LayerTypes.
From S2P Require Import LayerModel.
From S2P Require Import Triples.
From S2P Require Import IdMaps.
From S2P Require Import TripleBuilder.
From S2P Require Import Iterators.
From S2P Require Import Stacks.
From S2P Require Import InternalLayers.
From S2P Require Import LayerTriples.
From S2P Require Import LayerRefinement.
From S2P Require Import LayerBuilders.
From S2P Require Import BuiltLayers.
From S2P Require Import Rollups.
From S2P Require Import SimpleBuilder.
From S2P Require Import Commits.
From S2P Require Import Names.
From S2P Require Import StoreMonad.
From S2P Require Import Labels.
From S2P Require Import FileNames.
From S2P Require Import Files.
From S2P Require Import Directories.
From S2P Require Import DiskStores.
From S2P Require Import StoreRefinement.
From S2P Require Import Caches.
From S2P Require Import LayerStores.
From S2P Require Import StoredLayers.
From S2P Require Import LayerWrites.
From S2P Require Import LoadedLayers.
From S2P Require Import StoreGrowth.
From S2P Require Import AncestorRollups.
From S2P Require Import StoreViews.
From S2P Require Import StoreReads.
From S2P Require Import CachedStores.
From S2P Require Import Stores.
From S2P Require Import StoreSpecs.
From S2P Require Import StoreChanges.
From S2P Require Import Executions.
From S2P Require Import StoreTheorems.
Open Scope N_scope.

Section theorems.
Context {L S F C : Type} `{LabelStore L} `{PersistentLayerStore S F} `{LayerCache C}.
Context (shown : L -> gmap (list N) Label.t -> Prop) `{!LabelStoreLaws L shown}.
Context (shows : S -> disk -> Prop) (ext : S -> S -> Prop) (denotes : S -> F -> layer_name * filename -> Prop) `{!DiskLaws S F shows ext denotes}.
Context (holds : (layer_name -> InternalLayer -> Prop) -> C -> Prop) `{!CacheLaws C holds}.
Context `{BytesSize} `{FramedRead} `{Log2F32} `{ParSort} `{RayonSort} `{ParBridge} (debug : bool).

#[local] Abbreviation good := (StoreSpecs.good shown shows holds debug).
#[local] Abbreviation layers_good := (StoreSpecs.layers_good shows holds debug).

Lemma rollup_upto_good (sc : S * C) (D : disk) (I : infos) (n : layer_name) (i : layer_info) (l : InternalLayer) (u : layer_name) (iu : layer_info) (fuel : nat) (random : layer_name) M : layers_good sc D I -> I !! n = Some i -> means n i l ->
  not_a_rollup D I n -> I !! u = Some iu -> ancestor_input D I l i u iu M -> (2 * info_depth i + 1 < fuel)%nat ->
  name_ok random -> D !! random = None ->
  exists sc' D' I' r, runs (CachedLayerStore.rollup_upto debug fuel random l u) sc sc' r /\ layers_good sc' D' I' /\ I ⊆ I' /\
    if decide (info_parent i = Some u) then r = n
    else exists ir, I' !! r = Some ir /\ info_parent ir = Some u /\ info_model ir = info_model i /\
      Disk.lookup_file D' (n, rollup_file) = Some (rollup_contents r).
Proof using CacheLaws0 DiskLaws0.
  intros Hg Hi Hl Hnot Hu Hin Hf Hr Hd. pose proof Hg as [Hs HI Hc].
  destruct (perform_upto_runs debug holds D I sc.2 n i l u iu random fuel M HI Hc Hi Hl Hu Hin Hf Hr Hd)
    as (D1 & I1 & c1 & r & Hrun & HI1 & Hc1 & Hsub & Hsame & Hnew & Hcase).
  destruct (register_upto_runs debug D I n i r D1 I1 u Hi Hnot HI1 Hsub Hsame Hnew Hcase) as (D2 & Hreg & HI2 & Hcase2).
  destruct (layers_run shows ext holds debug (@same S layer_name) _ _ sc D I c1 D1 r Hg (perform_rollup_upto_refines debug fuel random l u _ _ (start_shown _ _ _ _ _ _ Hg)) Hrun)
    as (s1 & r' & Hrun1 & Hs1 & _ & ->).
  destruct (refines_runs _ _ _ _ _ _ _ _ _ (register_rollup_refines n r s1 D1 Hs1) Hreg) as (s2 & a & Hreg' & Hs2 & _ & ->).
  exists (s2, invalidate n c1), D2, I1, r. split; [|split; [split; [done|done|by apply invalidate_holds]|done]].
  unfold CachedLayerStore.rollup_upto, CachedLayerStore.register_rollup. rewrite (means_name _ _ _ Hl).
  eapply runs_bind; [exact Hrun1|]. eapply runs_bind; [|apply runs_ret]. eapply runs_bind; [by apply on_store_steps|done].
Qed.

(** C9: rolling a layer up to an ancestor, over any cache and any store of
    directories, keeps all layers of the store as they are.  When the ancestor
    is the parent the layer is its own rollup; otherwise a child of the
    ancestor with all that the layer has is in the store and registered as the
    rollup of the layer: the one there was, or a new one.  The conditions are
    ([ancestor_input]) that every layer from the layer down to the ancestor is
    in memory and was not loaded from a rollup, that a rollup which the layer
    has already is one up to an ancestor, not a base layer, and that the merged
    names and the counts fit the files; moreover the layer is not registered as
    the rollup of another ([not_a_rollup]).  Executions shows that the code
    panics otherwise: rollup_through_rollup_panics for a rollup in between and
    rollup_upto_after_rollup_panics for a base layer that is the rollup. *)
Theorem rollup_upto_keeps_layers (w : Store L S C) (D : disk) (I : infos) m
    (n : layer_name) (i : layer_info) (l : InternalLayer) (u : layer_name) (iu : layer_info) (fuel : nat) (random : layer_name) M :
  good w D I m -> I !! n = Some i -> means n i l -> not_a_rollup D I n -> I !! u = Some iu -> ancestor_input D I l i u iu M ->
  (2 * info_depth i + 1 < fuel)%nat -> name_ok random -> D !! random = None ->
  exists w' D' I' r, runs (on_layers (CachedLayerStore.rollup_upto debug fuel random l u)) w w' r /\ good w' D' I' m /\
    (forall x j, I !! x = Some j -> I' !! x = Some j) /\
    if decide (info_parent i = Some u) then r = n
    else exists ir, I' !! r = Some ir /\ info_parent ir = Some u /\ info_model ir = info_model i /\
      Disk.lookup_file D' (n, rollup_file) = Some (rollup_contents r).
Proof using CacheLaws0 DiskLaws0.
  intros Hg Hi Hl Hnot Hu Hin Hf Hr Hd. pose proof Hg as [_ Hgl _ _].
  destruct (rollup_upto_good w.2 D I n i l u iu fuel random M Hgl Hi Hl Hnot Hu Hin Hf Hr Hd) as (sc' & D' & I' & r & Hrun & Hg' & Hsub & Hcase).
  exists (w.1, sc'), D', I', r. split; [by apply layers_steps|].
  split; [by apply (good_grows shown shows holds debug w D I m sc' D')|]. split; [|done]. intros x j Hx. by eapply lookup_weaken.
Qed.
End theorems.

(** ** A store in memory with three layers *)

#[local] Existing Instances sample_bytes whole_file exact_log2 merge_par_sort merge_rayon in_order.

Definition second_model : layer_model := mk_model (model_entries base_model ++ [Node [99]]) base_predicates
  [IdTriple.mk 1 1 2; IdTriple.mk 2 1 3; IdTriple.mk 4 1 1].
Definition third_model : layer_model := mk_model (model_entries base_model ++ [Node [99]]) base_predicates
  [IdTriple.mk 1 1 2; IdTriple.mk 4 1 1; IdTriple.mk 4 1 2].

Definition third_layer : layer_info := mk_info third_model 6 (Some (nth_name 2)) 2.
Definition three_layers : infos := <[nth_name 3 := third_layer]> (two_layers second_model).

Lemma model_is mo E P T : model_entries mo = E -> model_predicates mo = P -> model_triples mo = T -> mo = mk_model E P T.
Proof. destruct mo. cbn. congruence. Qed.

(** The child of [second_model] has a triple more and one less. *)
Lemma third_input : child_input second_model [] [] [] 20 [IdTriple.mk 4 1 2] [IdTriple.mk 2 1 3].
Proof.
  assert (E4 : new_triples second_model [IdTriple.mk 4 1 2] = [IdTriple.mk 4 1 2]) by (vm_compute; reflexivity).
  assert (E5 : known_triples second_model [IdTriple.mk 2 1 3] = [IdTriple.mk 2 1 3]) by (vm_compute; reflexivity).
  split; change (new_nodes second_model []) with (@nil (list N)); change (new_predicates second_model []) with (@nil (list N));
    change (new_values second_model []) with (@nil (list N)); rewrite ?E4, ?E5.
  - constructor.
  - concrete_input.
  - concrete_input.
  - concrete_input.
  - unfold layer_input. replace (filter real_triple [IdTriple.mk 4 1 2]) with [IdTriple.mk 4 1 2] by (vm_compute; reflexivity).
    concrete_layer_input.
  - unfold layer_input. replace (filter real_triple [IdTriple.mk 2 1 3]) with [IdTriple.mk 2 1 3] by (vm_compute; reflexivity).
    concrete_layer_input.
Qed.

(** The layers in memory, each with its parent. *)
Lemma sample_stack : exists p l, means (nth_name 1) (mk_info base_model 3 None 0) p /\ means (nth_name 2) (child_of_sample second_model) l /\
  Internal.parents_of p = [] /\ Internal.parents_of l = [p] /\ no_maps l.
Proof.
  destruct child_sample_loads as (maps & mo & _ & He & Hp & Ht & Hload).
  assert (mo = second_model) as -> by by apply model_is.
  destruct base_strings_input as (S1 & S2 & S3).
  destruct (base_built true (nth_name 1) _ _ _ 10 base_triples S1 S2 S3 base_layer_input) as (bm & p & _ & Hbl & Hpn & Hpp & Hpm & Hpc & Hpi).
  assert (Hpw : implements_within 3 p base_model) by by apply (within_counted 3 p _ 3).
  destruct (base_load_shape _ _ _ _ Hbl) as (_ & Hpi' & Hpp').
  destruct (Hload (nth_name 2) _ Hpw) as (l & _ & Hln & Hlp & Hlpn & Hlm & Hli). eexists _, l. split; [|split; [|split; [exact Hpp|split; [|exact Hlm]]]].
  - split; [exact Hpn|done|exact Hpw|done].
  - split; [exact Hln| |exact Hli|done]. rewrite Hlpn. cbn [child_of_sample info_parent]. by rewrite Hpn.
  - rewrite Internal.parents_of_spec, Hlp, Internal.stack_of_cons. by rewrite Hpp.
Qed.

Lemma third_loads : exists maps, loads_child true maps second_model 5 third_model 6 /\
  forall name p, implements_within 5 p second_model -> exists l, child_load true name p maps = Some l /\
    Internal.name l = name /\ Internal.immediate_parent l = Some p /\ Internal.parent_name l = Some (Internal.name p) /\ no_maps l /\
    implements_within 6 l third_model.
Proof.
  destruct sample_stack as (_ & p & _ & Hp & _). pose proof (within_implements _ _ _ (means_model _ _ _ Hp)) as Hi. cbn [child_of_sample info_model] in Hi.
  destruct (child_built_on true p second_model [] [] [] 20 [IdTriple.mk 4 1 2] [IdTriple.mk 2 1 3] Hi third_input)
    as (maps & mo & _ & (He & Hp' & Ht) & Hok & Hload).
  assert (mo = third_model) as ->.
  { apply model_is; [etransitivity; [exact He|by vm_compute]|etransitivity; [exact Hp'|by vm_compute]|].
    apply (sorted_members IdTriple.cmp); [apply Hok|repeat constructor|]. intros t. rewrite Ht. split.
    + intros [[Hin Hn]|(_ & Hin & Hn)].
      * repeat (apply elem_of_cons in Hin as [->|Hin]; [first [by left|by right; left|by right; right; left|exfalso; apply Hn; by left]|]). by apply elem_of_nil in Hin.
      * repeat (apply elem_of_cons in Hin as [->|Hin]; [first [by left|by right; left|by right; right; left]|]). by apply elem_of_nil in Hin.
    + intros Hin. apply (bool_decide_unpack _).
      repeat (apply elem_of_cons in Hin as [->|Hin]; [vm_compute; exact Logic.I|]). by apply elem_of_nil in Hin. }
  exists maps. split; intros name q Hq; destruct (Hload name q 5 Hq ltac:(by vm_compute)) as (l & H1 & H2 & H3 & H4 & H5 & H6); exists l; done.
Qed.

Lemma nth_name_ne k j : k <> j -> nth_name k <> nth_name j.
Proof. intros Hne E. by apply Hne, nth_name_inj. Qed.

Lemma lookup_third : three_layers !! nth_name 3 = Some third_layer.
Proof. apply lookup_insert_eq. Qed.
Lemma lookup_second : three_layers !! nth_name 2 = Some (child_of_sample second_model).
Proof. unfold three_layers. rewrite lookup_insert_ne by by apply nth_name_ne. apply lookup_two. Qed.
Lemma lookup_first : three_layers !! nth_name 1 = Some (mk_info base_model 3 None 0).
Proof. unfold three_layers. rewrite lookup_insert_ne by by apply nth_name_ne. apply lookup_one. Qed.

(** The third layer is written next to the other two; none was rolled up. *)
Lemma sample_three_store : exists (w : memory_store) (D : disk), memory_good w D three_layers ∅ /\
  (forall k, 1 <= k <= 3 -> Disk.lookup_file D (nth_name k, rollup_file) = None) /\ (forall k, k <> 1 -> k <> 2 -> k <> 3 -> D !! nth_name k = None).
Proof.
  destruct sample_layers as (sc & D & Hg & Hroll1 & Hd).
  destruct child_sample_loads as (maps2 & mo & Hloads2 & He & Hp & Ht & _). assert (mo = second_model) as -> by by apply model_is.
  destruct (added_child_good MemoryView.shows MemoryView.ext MemoryView.denotes table_holds true sc D one_layer 10 (nth_name 2) (nth_name 1)
    (mk_info base_model 3 None 0) maps2 second_model 5 Hg (lookup_singleton_eq _ _) ltac:(cbn; lia) (nth_name_ok 2 ltac:(done)) (Hd 2 ltac:(done))
    ltac:(by vm_compute) Hloads2) as (sc2 & D2 & Hg2 & Hroll2 & Hother2).
  destruct third_loads as (maps3 & Hloads3 & _).
  assert (Hd2 : forall k, k <> 1 -> k <> 2 -> D2 !! nth_name k = None).
  { intros k H1 H2. rewrite Hother2 by by apply nth_name_ne. by apply Hd. }
  destruct (added_child_good MemoryView.shows MemoryView.ext MemoryView.denotes table_holds true sc2 D2 (two_layers second_model) 10 (nth_name 3)
    (nth_name 2) (child_of_sample second_model) maps3 third_model 6 Hg2 (lookup_two _) ltac:(cbn; lia) (nth_name_ok 3 ltac:(done))
    (Hd2 3 ltac:(done) ltac:(done)) ltac:(by vm_compute) Hloads3) as (sc3 & D3 & Hg3 & Hroll3 & Hother3).
  exists (∅, sc3), D3. split; [split; [done|exact Hg3|done|done]|]. split.
  - intros k Hk. assert (k = 1 \/ k = 2 \/ k = 3) as [->|[->| ->]] by lia; [| |exact Hroll3].
    + rewrite (lookup_file_same D2 D3), (lookup_file_same D D2) by (apply Hother3 || apply Hother2; by apply nth_name_ne). exact Hroll1.
    + rewrite (lookup_file_same D2 D3) by (apply Hother3; by apply nth_name_ne). exact Hroll2.
  - intros k H1 H2 H3. rewrite Hother3 by by apply nth_name_ne. by apply Hd2.
Qed.

Lemma sample_upto_input : upto_input third_model base_model 20.
Proof.
  assert (Ha : added_triples third_model base_model = [IdTriple.mk 4 1 1; IdTriple.mk 4 1 2]) by (vm_compute; reflexivity).
  assert (Hr : added_triples base_model third_model = [IdTriple.mk 1 2 3; IdTriple.mk 2 1 3]) by (vm_compute; reflexivity).
  split; rewrite ?Ha, ?Hr.
  - split; split; [exists 1; by vm_compute|exists 0; by vm_compute| | | | | |].
    1-4: by vm_compute.
    1-2: apply (bool_decide_unpack _); vm_compute; exact Logic.I.
  - unfold layer_input. replace (filter real_triple [IdTriple.mk 4 1 1; IdTriple.mk 4 1 2]) with [IdTriple.mk 4 1 1; IdTriple.mk 4 1 2]
      by (vm_compute; reflexivity). concrete_layer_input.
  - unfold layer_input. replace (filter real_triple [IdTriple.mk 1 2 3; IdTriple.mk 2 1 3]) with [IdTriple.mk 1 2 3; IdTriple.mk 2 1 3]
      by (vm_compute; reflexivity). concrete_layer_input.
Qed.

Lemma sample_ancestor_input (D : disk) : Disk.lookup_file D (nth_name 3, rollup_file) = None ->
  exists l, means (nth_name 3) third_layer l /\ ancestor_input D three_layers l third_layer (nth_name 1) (mk_info base_model 3 None 0) 20.
Proof.
  intros Hroll. destruct sample_stack as (p & q & Hp & Hq & Hpp & Hqp & Hqno). destruct third_loads as (maps & _ & Hload).
  destruct (Hload (nth_name 3) q (means_model _ _ _ Hq)) as (l & _ & Hln & Hlp & Hlpn & Hlm & Hli). exists l. split.
  { split; [exact Hln| |exact Hli|done]. rewrite Hlpn. cbn [third_layer info_parent]. by rewrite (means_name _ _ _ Hq). }
  split; [|exact sample_upto_input|done|rewrite Hln; congruence].
  exists p, [q], []. split; [rewrite Internal.parents_of_spec, Hlp, Internal.stack_of_cons; by rewrite Hqp|]. split; [exact Hp|]. split.
  - cbn [linked]. rewrite Hln, (means_name _ _ _ Hq). split; [exists third_layer; split; [apply lookup_third|done]|].
    split; [by apply nth_name_ne|]. exists (child_of_sample second_model). split; [apply lookup_second|done].
  - apply Forall_cons; split; [exact Hlm|by apply Forall_singleton].
Qed.

Lemma rollup_upto_keeps_layers_witness : exists (w w' : memory_store) l D' I' r ir,
  runs (on_layers (CachedLayerStore.rollup_upto true 10 (nth_name 4) l (nth_name 1))) w w' r /\ Internal.name l = nth_name 3 /\
  memory_good w' D' I' ∅ /\ I' !! r = Some ir /\ info_parent ir = Some (nth_name 1) /\ info_model ir = third_model /\
  Disk.lookup_file D' (nth_name 3, rollup_file) = Some (rollup_contents r).
Proof.
  destruct sample_three_store as (w & D & Hg & Hroll & Hd). destruct (sample_ancestor_input D (Hroll 3 ltac:(lia))) as (l & Hl & Hin).
  assert (Hnot : not_a_rollup D three_layers (nth_name 3)).
  { intros x j Hx. unfold three_layers, two_layers, one_layer in Hx. rewrite !lookup_insert_Some, lookup_singleton_Some in Hx.
    destruct Hx as [[<- _]|[_ [[<- _]|[_ [<- _]]]]]; by rewrite Hroll. }
  destruct (rollup_upto_keeps_layers eq MemoryView.shows MemoryView.ext MemoryView.denotes table_holds true w D three_layers ∅ (nth_name 3)
    third_layer l (nth_name 1) (mk_info base_model 3 None 0) 10 (nth_name 4) 20 Hg lookup_third Hl Hnot lookup_first Hin ltac:(cbn; lia)
    (nth_name_ok 4 ltac:(done)) (Hd 4 ltac:(done) ltac:(done) ltac:(done))) as (w' & D' & I' & r & Hrun & Hg' & _ & Hcase).
  rewrite decide_False in Hcase by (cbn [third_layer info_parent]; intros [= E]; by apply nth_name_inj in E).
  destruct Hcase as (ir & Hr & Hpar & Hmod & Hfile). exists w, w', l, D', I', r, ir.
  split; [exact Hrun|]. split; [exact (means_name _ _ _ Hl)|]. split; [exact Hg'|]. split; [exact Hr|]. split; [exact Hpar|].
  split; [exact Hmod|exact Hfile].
Defined.
