(* ===== verification/QuestionTheorems.v ===== *)
(** * Questions to the files, in any store

    What a layer adds and removes, and its own names, as the methods of the
    layer store read them from the files of the layer, over any store of
    directories. *)

From stdpp Require Import gmap relations.
From S2P Require Import Prelude.
From S2P Require Import Words.
From S2P Require Import Codec.
From S2P Require Import Strings.
From S2P Require Import PfcBlocks.
From S2P Require Import PfcDicts.
From S2P Require Import LayerTypes.
From S2P Require Import LayerModel.
From S2P Require Import Triples.
From S2P Require Import IdMaps.
From S2P Require Import TripleBuilder.
From S2P Require Import Iterators.
From S2P Require Import Stacks.
From S2P Require Import InternalLayers.
From S2P Require Import LayerTriples.
From S2P Require Import LayerRefinement.
From S2P Require Import LayerBuilders.
From S2P Require Import BuiltLayers.
From S2P Require Import Rollups.
From S2P Require Import SimpleBuilder.
From S2P Require Import Commits.
From S2P Require Import Names.
From S2P Require Import StoreMonad.
From S2P Require Import Labels.
From S2P Require Import FileNames.
From S2P Require Import Files.
From S2P Require Import Directories.
From S2P Require Import DiskStores.
From S2P Require Import StoreRefinement.
From S2P Require Import Caches.
From S2P Require Import LayerStores.
From S2P Require Import StoredLayers.
From S2P Require Import LayerWrites.
From S2P Require Import LoadedLayers.
From S2P Require Import StoredAnswers.
From S2P Require Import StoreGrowth.
From S2P Require Import StoreViews.
From S2P Require Import StoreReads.
From S2P Require Import CachedStores.
From S2P Require Import Stores.
From S2P Require Import StoreSpecs.
From S2P Require Import StoreChanges.
From S2P Require Import Executions.
From S2P Require Import StoreTheorems.
Open Scope N_scope.

Section theorems.
Context {L S F C : Type} `{LabelStore L} `{PersistentLayerStore S F} `{LayerCache C}.
Context (shown : L -> gmap (list N) Label.t -> Prop) `{!LabelStoreLaws L shown}.
Context (shows : S -> disk -> Prop) (ext : S -> S -> Prop) (denotes : S -> F -> layer_name * filename -> Prop) `{!DiskLaws S F shows ext denotes}.
Context (holds : (layer_name -> InternalLayer -> Prop) -> C -> Prop) `{!CacheLaws C holds}.
Context `{BytesSize} `{FramedRead} `{Log2F32} `{ParSort} `{RayonSort} `{ParBridge} (debug : bool).

#[local] Abbreviation good := (StoreSpecs.good shown shows holds debug).

(** The layer store gives the answer, and the store stays as it is. *)
Definition answered (w : Store L S C) (D : disk) (I : infos) (m : gmap (list N) Label.t) {A : Type} (question : io S A) (a : A) : Prop :=
  exists w', runs (on_layers (on_store question)) w w' a /\ good w' D I m.

Lemma ask_files (w : Store L S C) (D : disk) (I : infos) (m : gmap (list N) Label.t) {A : Type} (question : io S A) (on_disk : io disk A) (a : A) : good w D I m ->
  (forall s D, shows s D -> refines shows ext same question on_disk s D) -> yields on_disk D a -> answered w D I m question a.
Proof using DiskLaws0.
  intros Hg Hq Hy. pose proof Hg as [_ [Hs HI Hc] _ _]. destruct w as [lab [st c]]. cbn [fst snd] in *.
  destruct (refines_runs _ _ _ _ _ _ _ _ _ (Hq st D Hs) Hy) as (s' & a' & Hrun & Hs' & _ & ->).
  exists (lab, (s', c)). split; [by apply (layers_steps (on_store question) (lab, (st, c)) (s', c)), on_store_steps|].
  by apply (good_grows shown shows holds debug (lab, (st, c)) D I m (s', c) D I Hg).
Qed.

(** A method that asks the cache first: the cached layer answers, unless it is
    a rollup, and otherwise the files do. *)
Lemma unless_rollup_good (sc : S * C) (D : disk) (I : infos) (n : layer_name) (i : layer_info) {A : Type} (answer : InternalLayer -> option A)
    (question : io S A) (on_disk : io disk A) (P : A -> Prop) : StoreSpecs.layers_good shows holds debug sc D I -> I !! n = Some i ->
  (forall l, layer_change l (added_by I i, removed_by I i) -> exists a, answer l = Some a /\ P a) ->
  (forall s D, shows s D -> refines shows ext same question on_disk s D) -> (exists a, yields on_disk D a /\ P a) ->
  exists sc' a, runs (CachedLayerStore.unless_rollup n answer question) sc sc' a /\ StoreSpecs.layers_good shows holds debug sc' D I /\ P a.
Proof using DiskLaws0 CacheLaws0.
  intros [Hs HI Hc] Hi Hcached Hq (a & Hy & Ha). destruct sc as [s c]. cbn [fst snd] in *.
  destruct (get_holds (cached_ok I) n c Hc) as [Hc' Hl].
  assert (Hfrom : runs (from_cache n : io (S * C) _) (s, c) (s, (get_layer_from_cache n c).1) (get_layer_from_cache n c).2).
  { unfold runs, from_cache, on_cache. cbn [fst snd]. by destruct (get_layer_from_cache n c). }
  set (c1 := (get_layer_from_cache n c).1) in *.
  assert (Hfiles : exists sc' a, runs (on_store question : io (S * C) A) (s, c1) sc' a /\ StoreSpecs.layers_good shows holds debug sc' D I /\ P a).
  { destruct (refines_runs _ _ _ _ _ _ _ _ _ (Hq s D Hs) Hy) as (s' & a' & Hrun & Hs' & _ & ->).
    exists (s', c1), a. split; [by apply on_store_steps|]. by split. }
  unfold CachedLayerStore.unless_rollup. destruct (get_layer_from_cache n c).2 as [l|].
  - destruct (Hl l eq_refl) as (i' & Hi' & _ & Ho). assert (i' = i) as -> by congruence. destruct (Internal.is_rollup l) eqn:Er.
    + destruct Hfiles as (sc' & a' & Hrun & Hg & Ha'). exists sc', a'. split; [|done]. eapply runs_bind; [exact Hfrom|]. cbv iota. by rewrite Er.
    + destruct (Hcached l (Ho Er)) as (a' & Ea & Ha'). exists (s, c1), a'. split; [|by split].
      eapply runs_bind; [exact Hfrom|]. cbv iota. rewrite Er. by apply runs_opt.
  - destruct Hfiles as (sc' & a' & Hrun & Hg & Ha'). exists sc', a'. split; [|done]. by eapply runs_bind; [exact Hfrom|].
Qed.

(** C10: a layer of the API answers questions about its own changes, whether
    it is in the cache, in the cache as a rollup, or in files alone, without
    loading its parents: whether a triple is among its additions or removals,
    the iterators over them and over those of a predicate, the lists of those
    of a subject, of a subject and predicate and of an object, and their
    numbers.  The additions are what the layer has and its parent has not, the
    removals the other way around; a base layer adds all it has. *)
Theorem changes_answered (w : Store L S C) (D : disk) (I : infos) (m : gmap (list N) Label.t) (self : StoreLayer.t) (i : layer_info) :
  good w D I m -> I !! Internal.name (StoreLayer.layer self) = Some i ->
  let answers {A} (question : io (Store L S C) A) a := exists w', runs question w w' a /\ good w' D I m in
  let plus := added_by I i in
  let minus := removed_by I i in
  (forall s p o, answers (store_layer_triple_addition_exists debug self s p o) (bool_decide (IdTriple.mk s p o ∈ plus)) /\
    answers (store_layer_triple_removal_exists debug self s p o) (bool_decide (IdTriple.mk s p o ∈ minus))) /\
  (exists it, answers (store_layer_triple_additions debug self) it /\ gives it plus) /\
  (exists it, answers (store_layer_triple_removals debug self) it /\ gives it minus) /\
  (forall s, answers (store_layer_triple_additions_s debug self s) (triples_where (fun t => IdTriple.subject t = s) plus) /\
    answers (store_layer_triple_removals_s debug self s) (triples_where (fun t => IdTriple.subject t = s) minus)) /\
  (forall s p, answers (store_layer_triple_additions_sp debug self s p) (triples_where (fun t => IdTriple.subject t = s /\ IdTriple.predicate t = p) plus) /\
    answers (store_layer_triple_removals_sp debug self s p) (triples_where (fun t => IdTriple.subject t = s /\ IdTriple.predicate t = p) minus)) /\
  (forall p, p <> 0 ->
    (exists it, answers (store_layer_triple_additions_p debug self p) it /\ gives it (triples_where (fun t => IdTriple.predicate t = p) plus)) /\
    (exists it, answers (store_layer_triple_removals_p debug self p) it /\ gives it (triples_where (fun t => IdTriple.predicate t = p) minus))) /\
  (forall o, answers (store_layer_triple_additions_o debug self o) (triples_where (fun t => IdTriple.object t = o) plus) /\
    answers (store_layer_triple_removals_o debug self o) (triples_where (fun t => IdTriple.object t = o) minus)) /\
  answers (store_layer_triple_layer_addition_count self) (lenN plus) /\ answers (store_layer_triple_layer_removal_count self) (lenN minus).
Proof using DiskLaws0 CacheLaws0 H3 H4 H5 H6.
  intros Hg Hi answers plus minus. pose proof Hg as [_ Hgl _ _]. pose proof Hgl as [_ HI _].
  destruct (own_layer debug D I (Internal.name (StoreLayer.layer self)) i HI Hi) as (child & x & Hx & _ & Hc). fold plus minus in Hc.
  assert (Hask : forall {A : Type} (P : A -> Prop) (answer : InternalLayer -> option A) (q : io S A) (q' : io disk A),
    (forall l, layer_change l (plus, minus) -> exists a, answer l = Some a /\ P a) ->
    (forall s D, shows s D -> refines shows ext same q q' s D) -> (exists a, yields q' D a /\ P a) ->
    exists a, answers A (on_layers (CachedLayerStore.unless_rollup (Internal.name (StoreLayer.layer self)) answer q)) a /\ P a).
  { intros A P answer q q' H1' H2' H3'.
    destruct (unless_rollup_good w.2 D I (Internal.name (StoreLayer.layer self)) i answer q q' P Hgl Hi H1' H2' H3') as (sc' & a & Hrun & Hg' & Ha).
    exists a. split; [|done]. exists (w.1, sc'). split; [by apply layers_steps|]. by apply (good_grows shown shows holds debug w D I m sc' D I Hg). }
  assert (Hexact : forall {A : Type} (a : A) (answer : InternalLayer -> option A) (q : io S A) (q' : io disk A),
    (forall l, layer_change l (plus, minus) -> answer l = Some a) ->
    (forall s D, shows s D -> refines shows ext same q q' s D) -> yields q' D a ->
    answers A (on_layers (CachedLayerStore.unless_rollup (Internal.name (StoreLayer.layer self)) answer q)) a).
  { intros A a answer q q' H1' H2' H3'. destruct (Hask A (fun b => b = a) answer q q') as (b & Hb & ->); [|done|by exists a|done].
    intros l Hl. exists a. split; [by apply H1'|done]. }
  split; [intros s p o; split|split; [|split; [|split; [intros s; split|split; [intros s p; split|split; [intros p Hp; split|split; [intros o; split|split]]]]]]].
  - eapply Hexact; [intros l Hl; exact (memory_addition_exists l _ Hl s p o)|intros; by apply triple_addition_exists_refines
      |exact (addition_exists_answer debug D _ child x Hx _ Hc s p o)].
  - eapply Hexact; [intros l Hl; exact (memory_removal_exists l _ Hl s p o)|intros; by apply triple_removal_exists_refines
      |exact (removal_exists_answer debug D _ child x Hx _ Hc s p o)].
  - eapply Hask; [intros l Hl; eexists; split; [reflexivity|exact (additions_give l _ Hl)]|intros; by apply triple_additions_refines
      |exact (additions_answer debug D _ child x Hx _ Hc)].
  - eapply Hask; [intros l Hl; eexists; split; [reflexivity|exact (removals_give l _ Hl)]|intros; by apply triple_removals_refines
      |exact (removals_answer debug D _ child x Hx _ Hc)].
  - eapply Hexact; [intros l Hl; exact (memory_additions_s l _ Hl s)|intros; by apply triple_additions_s_refines
      |exact (additions_s_answer debug D _ child x Hx _ Hc s)].
  - eapply Hexact; [intros l Hl; exact (memory_removals_s l _ Hl s)|intros; by apply triple_removals_s_refines
      |exact (removals_s_answer debug D _ child x Hx _ Hc s)].
  - eapply Hexact; [intros l Hl; exact (memory_additions_sp l _ Hl s p)|intros; by apply triple_additions_sp_refines
      |exact (additions_sp_answer debug D _ child x Hx _ Hc s p)].
  - eapply Hexact; [intros l Hl; exact (memory_removals_sp l _ Hl s p)|intros; by apply triple_removals_sp_refines
      |exact (removals_sp_answer debug D _ child x Hx _ Hc s p)].
  - eapply Hask; [intros l Hl; exact (memory_additions_p l _ Hl p Hp)|intros; by apply triple_additions_p_refines
      |exact (additions_p_answer debug D _ child x Hx _ Hc p Hp)].
  - eapply Hask; [intros l Hl; exact (memory_removals_p l _ Hl p Hp)|intros; by apply triple_removals_p_refines
      |exact (removals_p_answer debug D _ child x Hx _ Hc p Hp)].
  - eapply Hexact; [intros l Hl; exact (memory_additions_o l _ Hl o)|intros; by apply triple_additions_o_refines
      |exact (additions_o_answer debug D _ child x Hx _ Hc o)].
  - eapply Hexact; [intros l Hl; exact (memory_removals_o l _ Hl o)|intros; by apply triple_removals_o_refines
      |exact (removals_o_answer debug D _ child x Hx _ Hc o)].
  - eapply Hexact; [intros l Hl; exact (layer_addition_count l _ Hl)|intros; by apply addition_count_refines
      |exact (addition_count_answer debug D _ child x Hx _ Hc)].
  - eapply Hexact; [intros l Hl; exact (layer_removal_count l _ Hl)|intros; by apply removal_count_refines
      |exact (removal_count_answer debug D _ child x Hx _ Hc)].
Qed.

(** C25: and questions about its names: the dictionaries, their numbers of
    strings, which are read from the ends of the files alone, and the id maps
    are those of a layer that means what the store says, and is not a rollup. *)
Theorem files_answer_names (w : Store L S C) (D : disk) (I : infos) (m : gmap (list N) Label.t) (n : layer_name) (i : layer_info) :
  good w D I m -> I !! n = Some i ->
  let ask {A} := @answered w D I m A in
  exists x, means n i x /\ Internal.is_rollup x = false /\
    ask (get_node_dictionary n) (Some (Internal.node_dictionary x)) /\
    ask (get_predicate_dictionary n) (Some (Internal.predicate_dictionary x)) /\
    ask (get_value_dictionary n) (Some (Internal.value_dictionary x)) /\
    ask (get_node_count n) (Some (PfcDict.len (Internal.node_dictionary x))) /\
    ask (get_predicate_count n) (Some (PfcDict.len (Internal.predicate_dictionary x))) /\
    ask (get_value_count n) (Some (PfcDict.len (Internal.value_dictionary x))) /\
    ask (get_node_value_idmap n) (Some (Internal.node_value_id_map x)) /\
    ask (get_predicate_idmap n) (Some (Internal.predicate_id_map x)).
Proof using DiskLaws0 H3 H4 H5 H6.
  intros Hg Hi ask. pose proof Hg as [_ [_ HI _] _ _].
  destruct (own_layer debug D I n i HI Hi) as (child & x & Hx & Hm & _). exists x. split; [done|]. split; [apply Hx|].
  assert (Hask : forall {A : Type} (q : io S A) (q' : io disk A) (a : A), (forall s D, shows s D -> refines shows ext same q q' s D) -> yields q' D a -> ask A q a).
  { intros A q q' a Hq Hy. by eapply ask_files. }
  split; [|split; [|split; [|split; [|split; [|split; [|split]]]]]]; eapply Hask.
  - intros; by apply node_dictionary_refines.
  - by eapply node_dictionary_answer.
  - intros; by apply predicate_dictionary_refines.
  - by eapply predicate_dictionary_answer.
  - intros; by apply value_dictionary_refines.
  - by eapply value_dictionary_answer.
  - intros; by apply node_count_refines.
  - by eapply node_count_answer.
  - intros; by apply predicate_count_refines.
  - by eapply predicate_count_answer.
  - intros; by apply value_count_refines.
  - by eapply value_count_answer.
  - intros; by apply node_value_idmap_refines.
  - by eapply node_value_idmap_answer.
  - intros; by apply predicate_idmap_refines.
  - by eapply predicate_idmap_answer.
Qed.
End theorems.

(** ** The child of the sample *)

#[local] Existing Instances sample_bytes whole_file exact_log2 merge_par_sort merge_rayon in_order.

Lemma changes_answered_witness : exists (w w1 w2 w3 : memory_store) self, Internal.name (StoreLayer.layer self) = nth_name 2 /\
  runs (store_layer_triple_addition_exists true self 4 1 1) w w1 true /\
  runs (store_layer_triple_removals_s true self 1) w w2 [IdTriple.mk 1 2 3] /\
  runs (store_layer_triple_layer_addition_count self) w w3 1.
Proof.
  destruct (sample_two_store ∅ (map_Forall_empty _)) as (w & D & mo & l & Hg & _ & _ & _ & _ & Ht & Hl & _).
  assert (Hp : parent_model (two_layers mo) (child_of_sample mo) = base_model).
  { unfold parent_model. cbn [child_of_sample info_parent]. by rewrite lookup_one. }
  assert (Ha : added_by (two_layers mo) (child_of_sample mo) = [IdTriple.mk 4 1 1]).
  { unfold added_by, added_triples. rewrite Hp. cbn [child_of_sample info_model]. rewrite Ht. vm_compute. reflexivity. }
  assert (Hr : removed_by (two_layers mo) (child_of_sample mo) = [IdTriple.mk 1 2 3]).
  { unfold removed_by, added_triples. rewrite Hp. cbn [child_of_sample info_model]. rewrite Ht. vm_compute. reflexivity. }
  assert (Hn : Internal.name (StoreLayer.layer (StoreLayer.wrap l)) = nth_name 2) by exact (means_name _ _ _ Hl).
  destruct (changes_answered eq MemoryView.shows MemoryView.ext MemoryView.denotes table_holds true w D (two_layers mo) ∅ (StoreLayer.wrap l)
    (child_of_sample mo) Hg ltac:(rewrite Hn; apply lookup_two)) as (Hex & _ & _ & Hs & _ & _ & _ & Hc & _).
  destruct (Hex 4 1 1) as [(w1 & Hrun1 & _) _]. destruct (Hs 1) as [_ (w2 & Hrun2 & _)]. destruct Hc as (w3 & Hrun3 & _).
  rewrite Ha in Hrun1, Hrun3. rewrite Hr in Hrun2. exists w, w1, w2, w3, (StoreLayer.wrap l).
  split; [exact Hn|]. split; [exact Hrun1|]. split; [exact Hrun2|exact Hrun3].
Defined.

Lemma files_answer_names_witness : exists (w w1 w2 : memory_store) x, means (nth_name 1) (mk_info base_model 3 None 0) x /\
  runs (on_layers (on_store (get_node_dictionary (nth_name 1)))) w w1 (Some (Internal.node_dictionary x)) /\
  runs (on_layers (on_store (get_value_count (nth_name 1)))) w w2 (Some (PfcDict.len (Internal.value_dictionary x))).
Proof.
  destruct (sample_store ∅ (map_Forall_empty _)) as (w & D & Hg & _).
  destruct (files_answer_names eq MemoryView.shows MemoryView.ext MemoryView.denotes table_holds true w D one_layer ∅ (nth_name 1)
    (mk_info base_model 3 None 0) Hg (lookup_singleton_eq _ _)) as (x & Hx & _ & (w1 & H1 & _) & _ & _ & _ & _ & (w2 & H2 & _) & _).
  exists w, w1, w2, x. split; [exact Hx|]. split; [exact H1|exact H2].
Defined.
