(* ===== verification/PackTheorems.v ===== *)
(** * Theorems about packs

    Moving layers from one store to another in a pack, over any two stores and
    any format that satisfy their laws. *)

From stdpp Require Import gmap relations.
From S2P Require Import Prelude.
From S2P Require Import Words.
From S2P Require Import Codec.
From S2P Require Import Strings.
From S2P Require Import PfcBlocks.
From S2P Require Import PfcDicts.
From S2P Require Import LayerTypes.
From S2P Require Import LayerModel.
From S2P Require Import Triples.
From S2P Require Import IdMaps.
From S2P Require Import TripleBuilder.
From S2P Require Import Iterators.
From S2P Require Import Stacks.
From S2P Require Import InternalLayers.
From S2P Require Import LayerTriples.
From S2P Require Import LayerRefinement.
From S2P Require Import LayerBuilders.
From S2P Require Import BuiltLayers.
From S2P Require Import Rollups.
From S2P Require Import SimpleBuilder.
From S2P Require Import Commits.
From S2P Require Import Names.
From S2P Require Import StoreMonad.
From S2P Require Import Labels.
From S2P Require Import FileNames.
From S2P Require Import Files.
From S2P Require Import Directories.
From S2P Require Import DiskStores.
From S2P Require Import StoreRefinement.
From S2P Require Import Packs.
From S2P Require Import Caches.
From S2P Require Import LayerStores.
From S2P Require Import StoredLayers.
From S2P Require Import LayerWrites.
From S2P Require Import LoadedLayers.
From S2P Require Import StoreGrowth.
From S2P Require Import StoreViews.
From S2P Require Import PackedLayers.
From S2P Require Import CachedStores.
From S2P Require Import Stores.
From S2P Require Import StoreSpecs.
From S2P Require Import StoreChanges.
From S2P Require Import Executions.
From S2P Require Import StoreTheorems.
Open Scope N_scope.

(** ** The parents of the layers of a pack *)

Section parents.
Context `{PackFormat}.

(** The files of a layer, when the layer is known already. *)
Lemma pack_parent_files (mtime : N) (n : layer_name) (o : option layer_name) (fs : list (filename * list N)) (m : gmap layer_name (option layer_name)) : name_ok n -> is_Some (m !! n) ->
  (forall f data, (f, data) ∈ fs -> packed_name f) ->
  (forall data, (parent_file, data) ∈ fs -> exists p, name_ok p /\ data = name_to_string p /\ o = Some p) ->
  fold_outcome pack_parent m (Ok ∘ read_back <$> (file_entry mtime n <$> fs)) =
    Ok (if decide (parent_file ∈ fs.*1) then <[n := o]> m else m).
Proof using Type.
  intros Hn. revert m. induction fs as [|[f data] fs IH]; intros m Hm Hf Hp; [done|]. cbn [fmap list_fmap fold_outcome].
  assert (Hname : packed_name f) by (eapply Hf, elem_of_cons; by left). destruct Hname as (Hpl & _ & _).
  pose proof (name_plain n Hn) as Hnp. pose proof (plain_join_iter _ _ Hnp Hpl) as Hit.
  assert (Hstep : pack_parent m (Ok (read_back (file_entry mtime n (f, data)))) = Ok (if decide (f = parent_file) then <[n := o]> m else m)).
  { unfold pack_parent, read_back, file_entry. cbn [fst snd map_err]. rewrite !bind_Ok_eq. cbn [Entry.path Entry.contents map_err]. rewrite bind_Ok_eq, Hit.
    cbn [head or_panic]. rewrite bind_Ok_eq, name_to_str. cbn [or_panic]. rewrite bind_Ok_eq, string_of_name by done. cbn [map_err]. rewrite bind_Ok_eq.
    rewrite (plain_file_name _ (DirectoryLayerStore.filename_bytes f)) by (try rewrite Hit; done). cbn [or_panic]. rewrite bind_Ok_eq.
    destruct (decide (f = parent_file)) as [->|Hne].
    - rewrite decide_True by done. rewrite bind_Ok_eq. destruct (Hp data) as (p & Hpo & -> & ->); [apply elem_of_cons; by left|].
      assert (Hl : lenN (name_to_string p) = 40) by (unfold lenN; by rewrite name_length). rewrite Hl. change (40 <? 40) with false. cbv iota.
      unfold takeN. rewrite take_ge by (rewrite name_length by done; done). rewrite name_to_str, bind_Ok_eq, string_of_name by done.
      cbn [map_err]. by rewrite bind_Ok_eq.
    - rewrite decide_False; [by destruct Hm as [x ->]|]. intros E. apply Hne. by apply DirectoryView.filename_bytes_inj. }
  cbn [compose]. rewrite Hstep, bind_Ok_eq, IH.
  - destruct (decide (f = parent_file)) as [->|Hne].
    + assert (Hin : parent_file ∈ ((parent_file, data) :: fs).*1) by (apply elem_of_cons; by left).
      repeat case_decide; try done; by rewrite ?insert_insert_eq.
    + destruct (decide (parent_file ∈ fs.*1)) as [Hin|Hin].
      * by rewrite decide_True by (apply elem_of_cons; by right).
      * rewrite decide_False; [done|]. intros [E|E]%elem_of_cons; [by apply Hne|done].
  - case_decide; [rewrite lookup_insert_eq; by eexists|done].
  - intros g d Hg. eapply Hf, elem_of_cons. by right.
  - intros d Hd. apply Hp, elem_of_cons. by right.
Qed.

Lemma pack_parent_layer (mtime : N) (D : disk) (n : layer_name) (o : option layer_name) (m : gmap layer_name (option layer_name)) : name_ok n ->
  match o with Some p => name_ok p /\ Disk.lookup_file D (n, parent_file) = Some (name_to_string p) | None => Disk.lookup_file D (n, parent_file) = None end ->
  (m !! n = None \/ m !! n = Some o) ->
  fold_outcome pack_parent m (Ok ∘ read_back <$> layer_entries mtime D n) = Ok (<[n := o]> m).
Proof using Type.
  intros Hn Ho Hm. unfold layer_entries. cbn [fmap list_fmap fold_outcome]. pose proof (name_plain n Hn) as Hnp.
  set (m1 := match m !! n with Some _ => m | None => <[n := None]> m end).
  assert (Hstep : pack_parent m (Ok (read_back (Header.mk 493 0 mtime Directory, name_to_string n, []))) = Ok m1).
  { unfold pack_parent, read_back. cbn [map_err]. rewrite !bind_Ok_eq. cbn [Entry.path map_err]. rewrite bind_Ok_eq, plain_part_iter by done.
    cbn [head or_panic]. rewrite bind_Ok_eq, name_to_str. cbn [or_panic]. rewrite bind_Ok_eq, string_of_name by done. cbn [map_err]. rewrite bind_Ok_eq.
    rewrite (plain_file_name _ (name_to_string n)) by (try rewrite plain_part_iter by done; done). cbn [or_panic]. rewrite bind_Ok_eq.
    rewrite decide_False; [done|]. intros E. pose proof (name_length n Hn) as Hl. rewrite E in Hl. by vm_compute in Hl. }
  cbn [compose]. rewrite Hstep, bind_Ok_eq. rewrite (pack_parent_files mtime n o).
  - f_equal. unfold m1. case_decide as Hpar.
    + destruct (m !! n); [done|]. by rewrite insert_insert_eq.
    + assert (o = None) as ->.
      { destruct o as [p|]; [|done]. destruct Ho as [_ Ho]. exfalso. apply Hpar. apply list_elem_of_fmap. exists (parent_file, name_to_string p).
        split; [done|]. apply exported_elem. unfold Disk.file_there. rewrite Ho, bool_decide_eq_true_2 by by eexists. split; [apply parent_packed|done]. }
      destruct Hm as [Hm|Hm]; rewrite Hm; [done|]. by rewrite insert_id.
  - done.
  - unfold m1. destruct (m !! n) eqn:E; [rewrite E|rewrite lookup_insert_eq]; by eexists.
  - intros f data Hf. by eapply exported_packed.
  - intros data [_ E]%exported_elem. destruct o as [p|]; [|congruence]. destruct Ho as [Hp Ho]. exists p. split; [done|]. split; [congruence|done].
Qed.
End parents.

Section theorems.
(** The store that is exported from, and the one that is imported into. *)
Context {L0 S0 F0 C0 : Type} `{LabelStore L0} `{PersistentLayerStore S0 F0} `{LayerCache C0}.
Context (shown0 : L0 -> gmap (list N) Label.t -> Prop).
Context (shows0 : S0 -> disk -> Prop) (ext0 : S0 -> S0 -> Prop) (denotes0 : S0 -> F0 -> layer_name * filename -> Prop) `{Hdisk0 : !DiskLaws S0 F0 shows0 ext0 denotes0}.
Context (holds0 : (layer_name -> InternalLayer -> Prop) -> C0 -> Prop).
Context {L S F C : Type} `{LabelStore L} `{PersistentLayerStore S F} `{LayerCache C}.
Context (shown : L -> gmap (list N) Label.t -> Prop) `{Hlabels : !LabelStoreLaws L shown}.
Context (shows : S -> disk -> Prop) (ext : S -> S -> Prop) (denotes : S -> F -> layer_name * filename -> Prop) `{Hdisk : !DiskLaws S F shows ext denotes}.
Context (holds : (layer_name -> InternalLayer -> Prop) -> C -> Prop) `{Hcache : !CacheLaws C holds}.
Context `{BytesSize} `{FramedRead} `{Log2F32} `{ParSort} `{RayonSort} `{ParBridge} `{Hformat : PackFormat} `{Hpack : !PackFormatLaws} (debug : bool).

Abbreviation good0 := (StoreSpecs.good shown0 shows0 holds0 debug).
Abbreviation good := (StoreSpecs.good shown shows holds debug).

Lemma store_packable (D : disk) (I : infos) ns : store_ok debug D I -> (forall n, n ∈ ns -> is_Some (I !! n)) -> Forall (packable D) ns.
Proof using Type.
  intros HI Hns. apply Forall_forall. intros n Hn. destruct (Hns n Hn) as [i Hi]. by eapply stored_packable, HI.
Qed.

(** Exporting leaves the store as it is. *)
Lemma export_runs (w0 : Store L0 S0 C0) (D0 : disk) (I0 : infos) m0 (mtime : N) ns : good0 w0 D0 I0 m0 -> (forall n, n ∈ ns -> is_Some (I0 !! n)) ->
  exists w0', runs (store_export_layers mtime ns) w0 w0' (archive_of (pack_entries mtime D0 ns)) /\ good0 w0' D0 I0 m0.
Proof using Hdisk0.
  intros [Hl [Hs HI Hc] Hn Hh] Hns. destruct w0 as [lab [s c]]. cbn [fst snd] in *.
  pose proof (export_yields D0 mtime ns (store_packable D0 I0 ns HI Hns)) as Hy.
  destruct (refines_runs _ _ _ _ _ _ _ _ _ (export_refines (shows := shows0) (ext := ext0) (denotes := denotes0) mtime ns s D0 Hs) Hy) as (s' & a & Hrun & Hs' & _ & Ha).
  unfold same in Ha. subst a. exists (lab, (s', c)). split; [|by split; [|split|..]].
  unfold store_export_layers, CachedLayerStore.export_layers, on_layers. by apply on_second_steps, on_store_steps.
Qed.

(** C11: layers that are exported from one store and imported into another,
    whatever the two stores are, are in the other store afterwards: they load
    there, under their names, with the triples they had.  Both stores keep what
    they had.  The layers that are imported must be new, and their parents must
    come along or be the same layers already. *)
Theorem packs_carry_layers (w0 : Store L0 S0 C0) (w : Store L S C) (D0 D : disk) (I0 I : infos) m0 m (mtime : N) (ns ids : list layer_name) :
  good0 w0 D0 I0 m0 -> good w D I m -> NoDup ns -> (forall n, n ∈ ns -> is_Some (I0 !! n)) -> NoDup ids ->
  (forall n, n ∈ ids -> n ∈ ns /\ D !! n = None) ->
  (forall n i p, n ∈ ids -> I0 !! n = Some i -> info_parent i = Some p -> p ∈ ids \/ I !! p = I0 !! p) ->
  exists w0' pack w' D', runs (store_export_layers mtime ns) w0 w0' pack /\ good0 w0' D0 I0 m0 /\
    runs (store_import_layers pack ids) w w' () /\ good w' D' (with_imported I0 I ids) m /\
    forall n i fuel, n ∈ ids -> I0 !! n = Some i -> (2 * info_depth i + 1 < fuel)%nat ->
      exists w'' l, runs (get_layer_from_id debug fuel n) w' w'' (Some (StoreLayer.wrap l)) /\ Internal.name l = n /\
        Internal.parent_name l = info_parent i /\ implements l (info_model i).
Proof using Hdisk0 Hdisk Hcache Hpack H7.
  intros Hg0 Hg Hnd Hns Hndi Hids Hpar. destruct (export_runs w0 D0 I0 m0 mtime ns Hg0 Hns) as (w0' & Hex & Hg0').
  pose proof Hg0 as [_ [_ HI0 _] _ _]. pose proof Hg as [Hl [Hs HI Hc] Hn Hh].
  assert (Hokn : forall n, n ∈ ns -> name_ok n) by (intros n Hin; destruct (Hns n Hin) as [i Hi]; by destruct (HI0 n i Hi)).
  assert (Hrun : runs (import_layers (archive_of (pack_entries mtime D0 ns)) ids) D (imported D0 D ids ns) ()).
  { apply import_runs; [by apply Forall_forall|done|done|]. apply Forall_forall. intros n Hin. destruct (Hids n Hin) as [Hx Hd]. split; [by apply Hokn|done]. }
  assert (HI' : store_ok debug (imported D0 D ids ns) (with_imported I0 I ids)).
  { apply imported_ok; try done. intros n Hin. destruct (Hids n Hin) as [Hx Hd]. split; [done|]. split; [by apply Hns|done]. }
  assert (Hsub : I ⊆ with_imported I0 I ids).
  { apply map_subseteq_spec. intros x j Hx. rewrite with_imported_lookup, decide_False; [done|]. intros Hin. destruct (Hids x Hin) as [_ Hd].
    destruct (HI x j Hx) as [_ [d Hd'] _ _]. congruence. }
  destruct w as [lab [s c]]. cbn [fst snd] in *.
  destruct (refines_runs _ _ _ _ _ _ _ _ _ (import_refines (shows := shows) (ext := ext) (denotes := denotes) _ ids s D Hs) Hrun) as (s' & [] & Hrun' & Hs' & _ & _).
  assert (Hg' : good (lab, (s', c)) (imported D0 D ids ns) (with_imported I0 I ids) m).
  { apply (good_grows shown shows holds debug (lab, (s, c)) D I m (s', c)); [done| |done]. split; [done|done|]. cbn [snd].
    by apply (cached_grows holds debug D I HI). }
  eexists w0', _, (lab, (s', c)), _. split; [exact Hex|]. split; [exact Hg0'|]. split; [|split; [exact Hg'|]].
  - unfold store_import_layers, CachedLayerStore.import_layers, on_layers. by apply on_second_steps, on_store_steps.
  - intros n i fuel Hin Hi Hf. destruct (load_good shown shows ext denotes holds debug _ _ _ _ fuel n i Hg') as (sc' & l & Hload & _ & [E1 E2 E3 _]); [|done|].
    { by rewrite with_imported_lookup, decide_True, Hi. }
    exists (lab, sc'), l. split; [|split; [done|]].
    + unfold get_layer_from_id. eapply runs_bind; [exact Hload|]. done.
    + split; [done|]. by eapply within_implements.
Qed.

(** C26: the parents that are read off a pack are those of the layers that
    were exported, and there are no others. *)
Theorem pack_parents_found (w0 : Store L0 S0 C0) (D0 : disk) (I0 : infos) m0 (mtime : N) ns : good0 w0 D0 I0 m0 ->
  (forall n, n ∈ ns -> is_Some (I0 !! n)) ->
  exists w0' pack parents, runs (store_export_layers mtime ns) w0 w0' pack /\ pack_layer_parents pack = Ok parents /\
    forall n, parents !! n = if decide (n ∈ ns) then info_parent <$> I0 !! n else None.
Proof using Hdisk0 Hpack.
  intros Hg0 Hns. destruct (export_runs w0 D0 I0 m0 mtime ns Hg0 Hns) as (w0' & Hex & _). pose proof Hg0 as [_ [_ HI0 _] _ _].
  assert (Hokn : forall n, n ∈ ns -> name_ok n) by (intros n Hin; destruct (Hns n Hin) as [i Hi]; by destruct (HI0 n i Hi)).
  assert (Hfold : forall done todo (m : gmap layer_name (option layer_name)), ns = done ++ todo ->
    (forall n, m !! n = if decide (n ∈ done) then info_parent <$> I0 !! n else None) ->
    exists parents, fold_outcome pack_parent m (Ok ∘ read_back <$> pack_entries mtime D0 todo) = Ok parents /\
      forall n, parents !! n = if decide (n ∈ ns) then info_parent <$> I0 !! n else None).
  { intros dn todo. revert dn. induction todo as [|n todo IH]; intros dn m E Hm.
    - rewrite app_nil_r in E. subst dn. by exists m.
    - assert (Hin : n ∈ ns) by (rewrite E; apply elem_of_app; right; apply elem_of_cons; by left). destruct (Hns n Hin) as [i Hi].
      unfold pack_entries. cbn [fmap list_fmap concat]. rewrite fmap_app, fold_outcome_app.
      rewrite (pack_parent_layer mtime D0 n (info_parent i)).
      + rewrite bind_Ok_eq. apply (IH (dn ++ [n])); [by rewrite <- app_assoc|]. intros x. destruct (decide (x = n)) as [->|Hne].
        * rewrite lookup_insert_eq, decide_True by (apply elem_of_app; right; by apply list_elem_of_singleton). by rewrite Hi.
        * rewrite lookup_insert_ne by done. rewrite Hm. destruct (decide (x ∈ dn)) as [Hx|Hx].
          -- by rewrite decide_True by (apply elem_of_app; by left).
          -- rewrite decide_False; [done|]. rewrite elem_of_app, list_elem_of_singleton. tauto.
      + by apply Hokn.
      + destruct (HI0 n i Hi) as [_ _ Hf _]. unfold files_stored in Hf. destruct (info_parent i) as [p|]; [|tauto].
        destruct Hf as (Hp & ip & maps & Hip & _). split; [|done]. by destruct (HI0 p ip Hip).
      + rewrite Hm, Hi. case_decide; [by right|by left]. }
  destruct (Hfold [] ns ∅ eq_refl) as (parents & Hpar & Hl).
  { intros n. rewrite lookup_empty, decide_False; [done|]. apply not_elem_of_nil. }
  exists w0', (archive_of (pack_entries mtime D0 ns)), parents. split; [done|]. split; [|done].
  unfold pack_layer_parents. rewrite entries_of by (by apply pack_archivable, Forall_forall). cbn [map_err]. by rewrite bind_Ok_eq.
Qed.
End theorems.

(** ** A format for the samples: every field after its length *)

Definition sample_entry (e : tar_entry) : list N :=
  let '(h, p, data) := e in
  [Header.mode h; Header.size h; Header.mtime h; (match Header.entry_type h with Regular => 0 | Directory => 1 end); lenN p] ++ p ++
  lenN data :: data.

Fixpoint read_sample (fuel : nat) (l : list N) : list (outcome io_error Entry.t) :=
  match fuel, l with
  | Datatypes.S fuel, mode :: size :: mtime :: ty :: lp :: rest =>
      match dropN lp rest with
      | ld :: data => Ok (Entry.mk (Ok (takeN lp rest)) (Ok size) (ty =? 0) (Ok (takeN ld data))) :: read_sample fuel (dropN ld data)
      | [] => [Err UnexpectedEof]
      end
  | _, [] => []
  | _, _ => [Err UnexpectedEof]
  end.

#[local] Instance sample_format : PackFormat := {
  archive_of es := lenN es :: concat (sample_entry <$> es);
  archive_entries l := match l with n :: l => Ok (read_sample (N.to_nat n) l) | [] => Err UnexpectedEof end
}.

#[local] Instance sample_format_laws : PackFormatLaws.
Proof.
  intros es _. cbn [archive_entries archive_of sample_format]. f_equal. unfold lenN. rewrite Nat2N.id.
  induction es as [|[[h p] data] es IH]; [done|]. destruct h as [mo sz mt ty]. cbn [length fmap list_fmap concat sample_entry app read_sample].
  cbn [Header.mode Header.size Header.mtime Header.entry_type].
  rewrite <- !app_assoc, dropN_app, takeN_app. cbn [app].
  rewrite dropN_app, takeN_app, IH. by destruct ty.
Qed.

(** ** Witnesses *)

#[local] Existing Instances sample_bytes whole_file exact_log2 merge_par_sort merge_rayon in_order.

Lemma open_memory_good : memory_good open_memory_store ∅ ∅ ∅.
Proof. split; [done|exact empty_store_good| |]; intros n l; by rewrite lookup_empty. Qed.

Definition sample_ids : list layer_name := [nth_name 2; nth_name 1].

Lemma sample_ids_nodup : NoDup sample_ids.
Proof. apply (bool_decide_unpack _). vm_compute. exact I. Qed.

Lemma sample_ids_stored mo n : n ∈ sample_ids -> is_Some (two_layers mo !! n).
Proof.
  intros [->|[->|Hn]%elem_of_cons]%elem_of_cons; [rewrite lookup_two|rewrite lookup_one|by apply elem_of_nil in Hn]; by eexists.
Qed.

Lemma packs_carry_layers_witness : exists (w0 w0' w' w'' : memory_store) pack l,
  runs (store_export_layers 0 sample_ids) w0 w0' pack /\ runs (store_import_layers pack sample_ids) open_memory_store w' () /\
  runs (get_layer_from_id true 4 (nth_name 2)) w' w'' (Some (StoreLayer.wrap l)) /\ Internal.parent_name l = Some (nth_name 1) /\
  exists mo, implements l mo /\ model_triples mo = [IdTriple.mk 1 1 2; IdTriple.mk 2 1 3; IdTriple.mk 4 1 1].
Proof.
  destruct (sample_two_store ∅ (map_Forall_empty _)) as (w & D & mo & l & Hg & _ & _ & _ & _ & Ht & _ & _).
  destruct (packs_carry_layers eq MemoryView.shows MemoryView.ext MemoryView.denotes table_holds eq MemoryView.shows MemoryView.ext MemoryView.denotes
    table_holds true w open_memory_store D ∅ (two_layers mo) ∅ ∅ ∅ 0 sample_ids sample_ids Hg open_memory_good sample_ids_nodup
    (sample_ids_stored mo) sample_ids_nodup) as (w0' & pack & w' & D' & Hex & _ & Him & _ & Hload).
  { intros n Hn. split; [done|apply lookup_empty]. }
  { intros n i p [->|[->|Hn]%elem_of_cons]%elem_of_cons Hi; [rewrite lookup_two in Hi|rewrite lookup_one in Hi|by apply elem_of_nil in Hn];
      injection Hi as <-; [|done]. intros [= <-]. left. apply elem_of_cons. right. by apply list_elem_of_singleton. }
  destruct (Hload (nth_name 2) (child_of_sample mo) 4%nat) as (w'' & l' & Hrun & _ & Hp & Hi).
  { apply elem_of_cons. by left. }
  { apply lookup_two. }
  { cbn. lia. }
  exists w, w0', w', w'', pack, l'. split; [exact Hex|]. split; [exact Him|]. split; [exact Hrun|]. split; [exact Hp|]. exists mo. split; [exact Hi|exact Ht].
Defined.

Lemma pack_parents_found_witness : exists (w0 w0' : memory_store) pack parents,
  runs (store_export_layers 0 sample_ids) w0 w0' pack /\ pack_layer_parents pack = Ok parents /\
  parents !! nth_name 2 = Some (Some (nth_name 1)) /\ parents !! nth_name 1 = Some None /\ parents !! nth_name 3 = None.
Proof.
  destruct (sample_two_store ∅ (map_Forall_empty _)) as (w & D & mo & l & Hg & _).
  destruct (pack_parents_found eq MemoryView.shows MemoryView.ext MemoryView.denotes table_holds true w D (two_layers mo) ∅ 0 sample_ids Hg
    (sample_ids_stored mo)) as (w0' & pack & parents & Hex & Hp & Hl).
  exists w, w0', pack, parents. split; [exact Hex|]. split; [exact Hp|].
  split; [|split]; rewrite Hl, ?lookup_two, ?lookup_one; [rewrite decide_True; [done|]|rewrite decide_True; [done|]|rewrite decide_False; [done|]];
    apply (bool_decide_unpack _); vm_compute; exact I.
Defined.

(** ** Between stores of different kinds *)

Abbreviation directory_store := (Store DirectoryLabelStore.t DirectoryLayerStore.t LockingHashMapLayerCache.t).

(** Two layers in memory, packed. *)
Definition packed : io memory_store (list N) :=
  base ← new_base 1 [AddString (edge 97 112 98); AddString (edge 98 112 97)];
  _ ← new_child 2 base [AddString (edge 97 113 99); RemoveString (edge 98 112 97)];
  store_export_layers 7 sample_ids.

(** The layers that are asked for in a new directory. *)
Definition unpacked (ids : list layer_name) (n : layer_name) : io directory_store (option (option (list StringTriple.t))) :=
  pack ← io_lift (result packed);
  _ ← store_import_layers pack ids;
  l ← get_layer_from_id true some_fuel n;
  mret (contents <$> l).

Definition in_directory {A} (m : io directory_store A) : outcome io_error A :=
  (m (open_directory_store (DirectoryLabelStore.mk ∅ ∅) (DirectoryLayerStore.mk ∅ ∅))).2.

Example packs_between_stores : in_directory (unpacked sample_ids (nth_name 2)) = Ok (Some (Some [edge 97 112 98; edge 97 113 99])).
Proof. vm_compute. reflexivity. Qed.

(** A layer that is asked for and is not in the pack is not ignored: it has an
    empty directory from then on, and loading it is an error, where it would be
    no layer before. *)
Lemma import_of_absent_layer :
  in_directory (unpacked sample_ids (nth_name 9)) = Ok None /\
  in_directory (unpacked (nth_name 9 :: sample_ids) (nth_name 9)) = Err NotFound.
Proof. vm_compute. split; reflexivity. Qed.
